(* ===== verification/_CoqProject ===== *)
-Q . S2P
Prelude.v
Sha1.v
Hex.v
PktLine.v
Delta.v
DiffDelta.v
CacheEntry.v
Index.v
IndexFile.v
CsumFile.v
PackIndex.v
Zlib.v
ObjectHeader.v
PackEntry.v
CString.v
ObjectStore.v
PackWrite.v
PackRoundtrip.v
PackDeltas.v
PackStore.v
ObjectDB.v
Tree.v
TreeStore.v
Objects.v
ObjectParse.v
Commit.v
Unpack.v
UnpackStore.v
PackUse.v
Entry.v
ReadTree.v
MergeTrees.v
LockFile.v
Refs.v
IndexLock.v
Names.v
ReadTreeMain.v
History.v
MergeBase.v
Text.v
Date.v
CommitTree.v
PackCheck.v
MkTag.v
UpdateCache.v
DiffTree.v
DiffIndex.v
DiffCore.v
DiffRename.v
