(* ===== verification/Prelude.v ===== *)
(** * learngit: the version control core, modelled and verified

    The repository collects programs; the one with a core of its own is
    src/test_git/, a working copy of git 0.99, with src/test_git/mozilla-sha1/.
    It keeps objects (blobs, trees, commits, tags) under the SHA-1 of their
    contents, in compressed files or in packs of deltas, and an index of the
    working tree from which trees are written.  This development models that
    core as executable definitions and proves what makes it correct.

    ** The parts and their files

    - Prelude.v: machine integers as [Z] with their wrap-around, bytes,
      [outcome] (a value, the end of the process, undefined behaviour), memory
      reads, [memcmp], binary search, numerals, lists.
    - CString.v: [strlen], [strchr], [strtoul], [sscanf]'s [%o], on strings and
      on memory that ends; the components of a path.
    - Sha1.v (mozilla-sha1/sha1.c): [SHA1_Init], [SHA1_Update], [SHA1_Final],
      [shaHashBlock]; [Fips] is the standard they are compared with.
    - Hex.v (sha1_file.c): names in hexadecimal, paths of loose objects.
    - PktLine.v (pkt-line.c): lines over a descriptor; a schedule gives the
      results of [read] and [write].
    - Delta.v (delta.h, patch-delta.c, count-delta.c), DiffDelta.v
      (diff-delta.c): the delta format, its application and generation.
    - CacheEntry.v (cache.h, read-cache.c): index entries, changed files.
    - Index.v, IndexFile.v (read-cache.c): the index in memory and on disk.
    - CsumFile.v (csum-file.c): files that end in their SHA-1; the [io] monad,
      whose [None] is a computation that waits or has run out of fuel.
    - PackIndex.v (pack-objects.c, sha1_file.c): pack index files, written and
      searched.
    - Zlib.v: zlib as classes of functions (whole buffers; [inflate] on a
      stream) with the laws zlib documents, and an instance, stored blocks,
      that witnesses evaluate.
    - ObjectHeader.v, ObjectStore.v (sha1_file.c): object headers; the store of
      loose files and packs, alternates, reading and writing.
    - PackEntry.v (sha1_file.c, pack-objects.c): objects in a pack.
    - PackWrite.v, PackRoundtrip.v, PackDeltas.v (pack-objects.c,
      csum-file.c): the whole of git-pack-objects and its proofs;
      PackStore.v composes it with the store.
    - PackUse.v (sha1_file.c): the mapped packs, their use counts and the limit
      on what is mapped, the scan of the pack directory, reading through maps.
    - Unpack.v, UnpackStore.v (unpack-objects.c): a pack that arrives on a
      descriptor taken apart into loose objects.
    - ObjectDB.v: the store as a class, with its laws, for its clients.
    - Tree.v, TreeStore.v (tree.c, write-tree.c): the index to trees and back.
    - Objects.v, ObjectParse.v (object.c, blob.c, tree.c, commit.c, tag.c):
      objects in memory, a heap of structures and the sorted table of their
      addresses; parsers, references, reachability.
    - Commit.v (commit.c): lists of commits, by date and topologically.
    - History.v, MergeBase.v (commit.c, merge-base.c): objects in memory that
      agree with a finite history in the database; common ancestors.
    - Entry.v (entry.c, checkout-cache.c): checking files out, over a class of
      system calls with its laws at paths that lead over no symbolic link, and
      a file system in memory that follows links.
    - ReadTree.v, MergeTrees.v, ReadTreeMain.v (read-tree.c): the merges of two
      and three trees in the array of the index and as functions of one path;
      the whole of git-read-tree.
    - LockFile.v: programs of system calls that several processes run in any
      interleaving on one directory, each call possibly failing.
    - Refs.v (refs.c), IndexLock.v (index.c): references and the index changed
      under locks, as such programs.
    - Names.v (path.c, gitenv.c, sha1_file.c, refs.c): paths, the environment,
      the names of objects, all references below a directory.
    - Text.v (quote.c, strbuf.c, stripspace.c): shell quoting, lines, git-stripspace.
    - Date.v (date.c): dates read and printed.
    - CommitTree.v (commit-tree.c): git-commit-tree, over any object database.
    - PackCheck.v (pack-check.c, verify-pack.c, show-index.c, sha1_file.c):
      git-verify-pack and git-show-index, over the packs of PackUse.v.
    - MkTag.v (mktag.c): git-mktag; UpdateCache.v (update-cache.c, sha1_file.c):
      git-update-cache, over a class of the working tree.
    - DiffTree.v (diff-tree.c, diff.c), DiffIndex.v (diff-cache.c,
      diff-files.c): what the programs that compare trees, the index and the
      working tree put into the queue of differences; DiffCore.v, DiffRename.v
      (diffcore-rename.c, diffcore-break.c, diffcore-pathspec.c, diff.c): what
      happens to the queue before it is printed.

    Definitions have the names of the C functions.  A loop or recursive call
    is a [Fixpoint]; a structure is a [Record]; what a function changes is an
    argument and part of the result.

    ** What the theorems show

    - Nothing is lost: SHA-1 is the standard's; what [write_sha1_file] stores
      is read back; a delta made by [diff_delta] rebuilds its target; every
      object git-pack-objects is given, none twice, is found through the index
      it writes and unpacked from the pack as it was, and a store that has only
      the pack answers as the loose store did; a pack of git-pack-objects that
      unpack-objects reads in pieces of 40 bytes or more leaves a store that has
      every object.
    - Resources: reading a packed object through the mapped windows gives what
      the packs hold, and the use counts and the mapped total stay exact.
    - The index: its order is an invariant of every operation, a search finds
      exactly the entry, conflicts between files and directories are found, a
      file written is read back, its trees give it back.
    - Objects in memory: the table is a map from names to objects of fixed
      types; blobs, trees and tags of any contents are parsed without
      undefined behaviour when a NUL stands behind them, and what happens when
      none does is said; commits exactly; [mark_reachable] marks exactly
      what is reachable, on cyclic graphs too; the topological sort of commits
      is one, for reachability through the commits of the list; the sort by
      date is stable.
    - The working tree: a merge of trees loses no change of the index or of a
      file, gives the paths the fates of the documented table, and leaves no
      file in the way of a directory; a fresh checkout over directories that are
      no symbolic links is complete; write-tree and read-tree restore an index;
      git-update-cache --add makes exactly the index [index_after] describes.
    - Other processes: the value of a reference is the last of a chain of
      updates that saw each other, whatever the interleaving and the failures;
      an update of the index appears as a whole or not at all, and the status
      tells whether it did or whether errors were met on the way.
    - Histories: merge-base ends and finds a common ancestor if there is one;
      git-commit-tree adds one well-formed commit, whatever the names contain,
      while they fit its lines;
      git-mktag lets exactly the well-formed tags of objects that exist through.
    - Packs: git-verify-pack says yes exactly to sealed packs of sound objects,
      and to everything git-pack-objects writes when no name is given twice.
    - Text: quoted arguments are safe from the shell; a date printed is read
      back; the text of git-stripspace is a normal form, but for an unterminated line.
    - Errors: failing system calls leave a whole store; malformed headers,
      lines and deltas are rejected as the format says.
    - Termination: [diff_delta], [find_deltas], [write_pack_file],
      [write_tree], [mark_reachable] return.

    Where the code does something else than its comments say, an example or
    theorem shows it: [has_dir_name_replace_inverted], [has_file_name_stops_early],
    [write_cache_complete], [phantom_match], [delta_hdr_2GiB],
    [pack_header_2GiB], [packet_empty_line], [fill_overlaps],
    [write_tree_misses_conflict],
    [write_tree_drops_failure], [parse_object_null], [symlink_overflow],
    [refresh_ignores_prefix], [twoway_df_conflict], [merge_overread],
    [unreadable_index_ignored], [lock_left_behind],
    [rename_failure_unreported], [unreadable_overwritten],
    [lock_removed_by_loser], [partial_index_committed], [ref_name_is_format],
    [get_sha1_reads_behind], [merge_base_by_date], [stripspace_loses_newline],
    [read_error_ends_line], [minus_one_minute], [zone_overflow], [nome_unknown],
    [year_seventy], [too_many_parents], [long_name], [write_error_ignored],
    [least_tag_refused], [read_error_cuts], [cacheinfo_long_name],
    [path_limit_prefix], [type_change_hides_rename], [missing_then_empty],
    [break_empty_file], [scoreopt_overflow], [named_twice], [delta_overread],
    [dotfile_taken], [comment_above_999], [missing_link], [through_a_link].
    [errors_reported_after_commit] shows a new index with status 1.

    ** Bounds, fuel and assumptions

    [int] has 32 bits and [long] 64; a left shift wraps, as gcc compiles it.
    Sizes are bounded in the theorems (2^30 bytes for a loose object, 2^31 for
    index and pack index files, 2^32 for a pack) where the code's types need
    it.  Fuel is a length, a table size or a path length that the theorems show
    to be enough; where the code can loop for ever ([read] that never
    delivers), [None] stays possible and the theorems give the schedule under
    which it does not.  [malloc] is a parameter where its failure is a value
    of the function; [xmalloc] that dies is not modelled elsewhere.  Calls of
    zlib, of the file system and of the clock are parameters or values; the
    laws of zlib are hypotheses, and those of the file system for a checkout
    ([FileSystemLaws], which speak of paths over no symbolic link only).  Collisions of SHA-1 are excluded by
    hypothesis, for the objects at hand only.

    ** Not modelled

    Of src/test_git/: [pretty_print_commit], write_sha1_to_fd and from_fd,
    the signal handler of index.c, the output of differences and the external
    programs that show them (diff.c), diffcore-order.c and
    diffcore-pickaxe.c, patches (apply.c), the other history walks
    (rev-list.c, epoch.c), fsck, the syntax of revisions (rev-parse.c), the transport
    programs and everything on sockets, processes and terminals.  The parsers
    of src/gitpack_parse/ and the exercises (sort, lcs, editDistance,
    binary_search, dynamic_programming, MaxSubsequenceSum, fsm) are programs of
    their own and left out.  Third-party code (diffutils-3.3, wpa_supplicant_hostapd, unpv,
    iniparser-master, PublicLic, third_party, sl-3.03) and the conversion
    tables of wide_char are not this program's logic. *)

From stdpp Require Import base list numbers strings gmap sorting.
From Stdlib Require Import ZArith Lia Btauto.

#[global] Open Scope Z_scope.

Declare Scope bytes_scope.
Delimit Scope bytes_scope with bytes.

(** [lia] with the quotients and remainders of constants expanded. *)
Ltac dm_lia := Z.to_euclidean_division_equations; lia.

(** ** Machine integers

    A C integer is a [Z]; the wrap-around of its type is written out at
    each place where the C code converts or computes at that width. *)

Definition u8 (x : Z) : Z := x mod 2 ^ 8.
Definition u16 (x : Z) : Z := x mod 2 ^ 16.
Definition u32 (x : Z) : Z := x mod 2 ^ 32.
Definition u64 (x : Z) : Z := x mod 2 ^ 64.
Definition i32 (x : Z) : Z := (x + 2 ^ 31) mod 2 ^ 32 - 2 ^ 31.

Lemma u8_range x : 0 <= u8 x < 256.
Proof. unfold u8. apply Z.mod_pos_bound. lia. Qed.

Lemma u32_range x : 0 <= u32 x < 2 ^ 32.
Proof. unfold u32. apply Z.mod_pos_bound. lia. Qed.

Lemma u64_range x : 0 <= u64 x < 2 ^ 64.
Proof. unfold u64. apply Z.mod_pos_bound. lia. Qed.

Lemma u8_small x : 0 <= x < 256 -> u8 x = x.
Proof. intros. unfold u8. apply Z.mod_small. lia. Qed.

Lemma u32_small x : 0 <= x < 2 ^ 32 -> u32 x = x.
Proof. intros. unfold u32. apply Z.mod_small. lia. Qed.

Lemma u64_small x : 0 <= x < 2 ^ 64 -> u64 x = x.
Proof. intros. unfold u64. apply Z.mod_small. lia. Qed.

Lemma i32_small x : - 2 ^ 31 <= x < 2 ^ 31 -> i32 x = x.
Proof. intros. unfold i32. rewrite Z.mod_small; lia. Qed.

(** ** Bytes *)

Abbreviation bytes := (list Z).

Definition is_byte (b : Z) : Prop := 0 <= b < 256.
Definition bytes_ok (l : bytes) : Prop := Forall is_byte l.

#[export] Instance is_byte_dec b : Decision (is_byte b).
Proof. unfold is_byte. apply _. Defined.

#[export] Instance bytes_ok_dec l : Decision (bytes_ok l).
Proof. unfold bytes_ok. apply _. Defined.

Lemma bytes_ok_cons b l : bytes_ok (b :: l) <-> is_byte b /\ bytes_ok l.
Proof. apply Forall_cons. Qed.

Lemma bytes_ok_app l k : bytes_ok (l ++ k) <-> bytes_ok l /\ bytes_ok k.
Proof. apply Forall_app. Qed.

Lemma bytes_ok_nil : bytes_ok [].
Proof. constructor. Qed.

Lemma bytes_ok_single b : is_byte b -> bytes_ok [b].
Proof. intros. apply bytes_ok_cons. split; [done|apply bytes_ok_nil]. Qed.

Lemma bytes_ok_app_2 l k : bytes_ok l -> bytes_ok k -> bytes_ok (l ++ k).
Proof. intros. by apply bytes_ok_app. Qed.

Lemma bytes_ok_take n l : bytes_ok l -> bytes_ok (take n l).
Proof. apply Forall_take. Qed.

Lemma bytes_ok_drop n l : bytes_ok l -> bytes_ok (drop n l).
Proof. apply Forall_drop. Qed.

Lemma bytes_ok_lookup l i b : bytes_ok l -> l !! i = Some b -> 0 <= b < 256.
Proof. intros H ?. eapply (proj1 (Forall_lookup _ _) H); eauto. Qed.

(** The bytes of a string literal. *)
Definition str (s : string) : bytes :=
  map (fun a => Z.of_N (Ascii.N_of_ascii a)) (String.list_ascii_of_string s).

Lemma str_bytes_ok s : bytes_ok (str s).
Proof.
  unfold str, bytes_ok. apply Forall_fmap, Forall_true. intros a. unfold is_byte; simpl.
  pose proof (Ascii.N_ascii_bounded a). lia.
Qed.

(** The [n] bytes of a buffer from offset [off]. *)
Definition slice (off n : nat) (l : bytes) : bytes := take n (drop off l).

(** ** Big-endian integers (htonl / ntohl seen as bytes) *)

Fixpoint be_encode (n : nat) (z : Z) : bytes :=
  match n with
  | O => []
  | S n => be_encode n (z / 256) ++ [z mod 256]
  end.

Definition be_decode (l : bytes) : Z := foldl (fun a b => a * 256 + b) 0 l.

Lemma length_be_encode n z : length (be_encode n z) = n.
Proof. revert z; induction n; intros; simpl; rewrite ?length_app, ?IHn; simpl; lia. Qed.

Lemma be_encode_bytes_ok n z : bytes_ok (be_encode n z).
Proof.
  revert z; induction n; intros; simpl; [constructor|].
  apply Forall_app; split; [apply IHn|]. repeat constructor; apply Z.mod_pos_bound; lia.
Qed.

Lemma be_decode_snoc l b : be_decode (l ++ [b]) = be_decode l * 256 + b.
Proof. unfold be_decode. by rewrite foldl_app. Qed.

Lemma be_decode_encode n z : be_decode (be_encode n z) = z mod 256 ^ Z.of_nat n.
Proof.
  revert z; induction n as [|n IH]; intros z; simpl be_encode.
  - by rewrite Z.mod_1_r.
  - rewrite be_decode_snoc, IH.
    rewrite Nat2Z.inj_succ, Z.pow_succ_r, Z.rem_mul_r by lia. lia.
Qed.

Lemma be_decode_range l :
  bytes_ok l -> 0 <= be_decode l < 256 ^ Z.of_nat (length l).
Proof.
  induction l as [|b l IH] using rev_ind; intros Hl; [simpl; unfold be_decode; simpl; lia|].
  apply bytes_ok_app in Hl as [Hl Hb]. apply bytes_ok_cons in Hb as [Hb _]. unfold is_byte in Hb.
  specialize (IH Hl). rewrite be_decode_snoc, length_app. simpl length.
  rewrite Nat2Z.inj_add, Z.pow_add_r by lia. change (256 ^ Z.of_nat 1) with 256. nia.
Qed.

Lemma be_encode_decode l : bytes_ok l -> be_encode (length l) (be_decode l) = l.
Proof.
  induction l as [|b l IH] using rev_ind; intros Hl; [done|].
  apply bytes_ok_app in Hl as [Hl Hb]. apply bytes_ok_cons in Hb as [Hb _]. unfold is_byte in Hb.
  rewrite length_app, Nat.add_comm. simpl. rewrite be_decode_snoc.
  rewrite Z.div_add_l, Z.div_small, Z.add_0_r, IH by (done || lia).
  by rewrite Z.add_comm, Z.mod_add, Z.mod_small by lia.
Qed.

(** ** Outcomes of C code

    [Ret a]: the call returns.  [Die]: the call ends the process through
    [die()] or [usage()].  [Ub]: the call reads or writes outside an object,
    so the C standard gives it no meaning. *)

Inductive outcome (A : Type) : Type :=
| Ret (a : A)
| Die
| Ub.
Arguments Ret {A} a.
Arguments Die {A}.
Arguments Ub {A}.

#[export] Instance outcome_ret : MRet outcome := @Ret.
#[export] Instance outcome_bind : MBind outcome := fun A B f m =>
  match m with Ret a => f a | Die => Die | Ub => Ub end.

Lemma bind_Ret {A B} (a : A) (f : A -> outcome B) : (Ret a ≫= f) = f a.
Proof. done. Qed.

Lemma bind_assoc {A B C} (m : outcome A) (f : A -> outcome B) (g : B -> outcome C) :
  ((m ≫= f) ≫= g) = (m ≫= fun a => f a ≫= g).
Proof. by destruct m. Qed.

Lemma bind_Ret_inv {A B} (m : outcome A) (f : A -> outcome B) b :
  (m ≫= f) = Ret b -> exists a, m = Ret a /\ f a = Ret b.
Proof. destruct m; simpl; intros H; try discriminate. eauto. Qed.

(** A byte read through a pointer into [buf]. *)
Definition rd (buf : bytes) (i : Z) : outcome Z :=
  if bool_decide (0 <= i) then
    match buf !! Z.to_nat i with Some b => Ret b | None => Ub end
  else Ub.

Lemma rd_nat buf i : rd buf (Z.of_nat i) = match buf !! i with Some b => Ret b | None => Ub end.
Proof. unfold rd. rewrite bool_decide_true, Nat2Z.id by lia. done. Qed.

(** ** Byte comparison

    [memcmp] of the C library, with the sign as -1, 0 or 1 (the code only
    looks at the sign); a byte past the end of a list is the NUL that
    terminates the C string. *)

Fixpoint memcmp (n : nat) (a b : bytes) : Z :=
  match n with
  | O => 0
  | S n =>
      let x := default 0 (head a) in
      let y := default 0 (head b) in
      if x <? y then -1 else if y <? x then 1 else memcmp n (tail a) (tail b)
  end.

(** Lexicographic order on byte strings, a proper prefix being smaller. *)
Fixpoint lexcmp (a b : bytes) : Z :=
  match a, b with
  | [], [] => 0
  | [], _ :: _ => -1
  | _ :: _, [] => 1
  | x :: a, y :: b => if x <? y then -1 else if y <? x then 1 else lexcmp a b
  end.

Lemma lexcmp_refl a : lexcmp a a = 0.
Proof. induction a; simpl; [done|]. by rewrite Z.ltb_irrefl. Qed.

Lemma lexcmp_eq a b : lexcmp a b = 0 -> a = b.
Proof.
  revert b; induction a as [|x a IH]; intros [|y b]; simpl; try done.
  destruct (Z.ltb_spec x y), (Z.ltb_spec y x); try done.
  intros. assert (x = y) by lia. subst. f_equal. auto.
Qed.

Lemma lexcmp_0 a b : lexcmp a b = 0 <-> a = b.
Proof. split; [apply lexcmp_eq | intros ->; apply lexcmp_refl]. Qed.

Lemma lexcmp_opp a b : lexcmp b a = - lexcmp a b.
Proof.
  revert b; induction a as [|x a IH]; intros [|y b]; simpl; try done.
  destruct (Z.ltb_spec x y), (Z.ltb_spec y x); try done; lia.
Qed.

Lemma lexcmp_trans a b c : lexcmp a b < 0 -> lexcmp b c < 0 -> lexcmp a c < 0.
Proof.
  revert b c; induction a as [|x a IH]; intros [|y b] [|z c]; simpl; try lia.
  destruct (Z.ltb_spec x y), (Z.ltb_spec y x), (Z.ltb_spec y z), (Z.ltb_spec z y),
    (Z.ltb_spec x z), (Z.ltb_spec z x); try lia; eauto.
Qed.

Lemma memcmp_lexcmp a b :
  lexcmp a b =
    let c := memcmp (length a `min` length b) a b in
    if c =? 0 then
      (if (length a <? length b)%nat then -1 else if (length b <? length a)%nat then 1 else 0)
    else c.
Proof.
  revert b; induction a as [|x a IH]; intros [|y b]; simpl; try done.
  by destruct (Z.ltb_spec x y), (Z.ltb_spec y x); simpl; rewrite ?IH.
Qed.

Lemma memcmp_eq n a b :
  (n <= length a)%nat -> (n <= length b)%nat ->
  memcmp n a b = 0 <-> take n a = take n b.
Proof.
  revert a b; induction n as [|n IH]; intros [|x a] [|y b]; simpl; try (lia || done).
  intros Ha Hb. destruct (decide (x = y)) as [->|Hne].
  - rewrite Z.ltb_irrefl, IH by lia. split; congruence.
  - split; [|congruence]. destruct (Z.ltb_spec x y), (Z.ltb_spec y x); lia.
Qed.

Lemma memcmp_full n a b :
  length a = n -> length b = n -> memcmp n a b = lexcmp a b.
Proof.
  intros Ha Hb. rewrite memcmp_lexcmp. subst n. rewrite Hb, Nat.min_id. simpl.
  rewrite Nat.ltb_irrefl. by destruct (Z.eqb_spec (memcmp (length a) a b) 0).
Qed.

(** ** Binary search

    The loop shared by [cache_name_pos] (read-cache.c) and [find_object]
    (object.c): [cmp i] is the sign of the searched key compared with the
    element at [i].  A found position is returned as it is, a missing key
    as [-pos - 1]. *)

Section BinarySearch.
Context (cmp : Z -> Z).

Fixpoint bsearch_fuel (fuel : nat) (first last : Z) : Z :=
  match fuel with
  | O => - first - 1
  | S fuel =>
      if first <? last then
        let next := Z.shiftr (last + first) 1 in
        let c := cmp next in
        if c =? 0 then next
        else if c <? 0 then bsearch_fuel fuel first next
        else bsearch_fuel fuel (next + 1) last
      else - first - 1
  end.

Definition bsearch (first last : Z) : Z :=
  bsearch_fuel (Z.to_nat (last - first)) first last.

Lemma shiftr_mid first last :
  first < last -> first <= Z.shiftr (last + first) 1 < last.
Proof. intros. rewrite Z.shiftr_div_pow2 by lia. change (2 ^ 1) with 2. dm_lia. Qed.

Lemma bsearch_fuel_enough f1 f2 first last :
  (Z.to_nat (last - first) <= f1)%nat -> (Z.to_nat (last - first) <= f2)%nat ->
  bsearch_fuel f1 first last = bsearch_fuel f2 first last.
Proof.
  revert f2 first last; induction f1 as [|f1 IH]; intros [|f2] first last H1 H2; simpl; try done.
  - destruct (Z.ltb_spec first last); [lia|done].
  - destruct (Z.ltb_spec first last); [lia|done].
  - destruct (Z.ltb_spec first last); [|done].
    pose proof (shiftr_mid first last).
    destruct (_ =? 0); [done|]. destruct (_ <? 0); apply IH; lia.
Qed.

(** The loop's own equation: the fuel never runs out. *)
Lemma bsearch_loop first last :
  bsearch first last =
    if first <? last then
      let next := Z.shiftr (last + first) 1 in
      if cmp next =? 0 then next
      else if cmp next <? 0 then bsearch first next else bsearch (next + 1) last
    else - first - 1.
Proof.
  unfold bsearch. destruct (Z.ltb_spec first last) as [Hlt|Hge].
  - pose proof (shiftr_mid first last Hlt).
    destruct (Z.to_nat (last - first)) as [|f] eqn:Ef; [lia|]. simpl.
    destruct (Z.ltb_spec first last); [|lia].
    destruct (_ =? 0); [done|]. destruct (_ <? 0); apply bsearch_fuel_enough; lia.
  - by replace (Z.to_nat (last - first)) with O by lia.
Qed.

Context (n : Z).
Hypothesis mono : forall i j, 0 <= i < j -> j < n -> cmp i <= 0 -> cmp j < 0.

(** What the caller reads off the result. *)
Definition bsearch_spec (r : Z) : Prop :=
  (0 <= r < n /\ cmp r = 0) \/
  (exists p, r = - p - 1 /\ 0 <= p <= n /\
    (forall i, 0 <= i < p -> cmp i > 0) /\ (forall i, p <= i < n -> cmp i < 0)).

Lemma bsearch_fuel_correct fuel first last :
  (Z.to_nat (last - first) <= fuel)%nat ->
  0 <= first <= last -> last <= n ->
  (forall i, 0 <= i < first -> cmp i > 0) -> (forall i, last <= i < n -> cmp i < 0) ->
  bsearch_spec (bsearch_fuel fuel first last).
Proof.
  revert first last; induction fuel as [|fuel IH]; intros first last Hf Hfl Hn Hlo Hhi; simpl.
  { right. exists first. assert (first = last) by lia. subst. auto with lia. }
  destruct (Z.ltb_spec first last).
  2:{ right. exists first. assert (first = last) by lia. subst. auto with lia. }
  pose proof (shiftr_mid first last). set (next := Z.shiftr (last + first) 1) in *.
  destruct (Z.eqb_spec (cmp next) 0) as [Hz|Hz]; [left; lia|].
  destruct (Z.ltb_spec (cmp next) 0) as [Hl|Hg]; apply IH; try lia; auto.
  - intros i Hi. destruct (decide (i = next)) as [->|]; [done|]. apply (mono next); lia.
  - intros i Hi. destruct (decide (i = next)) as [->|]; [lia|].
    destruct (Z_le_gt_dec (cmp i) 0) as [Hle|]; [|lia].
    pose proof (mono i next ltac:(lia) ltac:(lia) Hle). lia.
Qed.

Lemma bsearch_correct : 0 <= n -> bsearch_spec (bsearch 0 n).
Proof. intros. apply bsearch_fuel_correct; lia. Qed.

End BinarySearch.

(** ** Finite checks

    A statement about a byte or a digit is checked on all of its values. *)
Lemma range_check (P : Z -> bool) lo n :
  forallb P (seqZ lo n) = true -> forall c, lo <= c < lo + n -> P c = true.
Proof.
  intros H c Hc. rewrite forallb_forall in H. apply H. apply list_elem_of_In, elem_of_seqZ. lia.
Qed.

Lemma digit_check (P : Z -> bool) :
  forallb P (seqZ 0 16) = true -> forall v, 0 <= v < 16 -> P v = true.
Proof. apply range_check. Qed.

Lemma byte_check (P : Z -> bool) :
  forallb P (seqZ 0 256) = true -> forall b, is_byte b -> P b = true.
Proof. intros H b Hb. apply (range_check P 0 256 H). unfold is_byte in Hb. lia. Qed.

(** ** Bits of disjoint words *)

Lemma land_shiftl_low y b k : 0 <= k -> 0 <= b < 2 ^ k -> Z.land (Z.shiftl y k) b = 0.
Proof.
  intros Hk Hb. apply Z.bits_inj'. intros i Hi. rewrite Z.land_spec, Z.bits_0.
  destruct (Z.lt_ge_cases i k).
  - by rewrite Z.shiftl_spec_low.
  - rewrite <- (Z.mod_small b (2 ^ k)), Z.mod_pow2_bits_high by lia. apply andb_false_r.
Qed.

Lemma lor_shiftl_add y b k :
  0 <= k -> 0 <= b < 2 ^ k -> Z.lor (Z.shiftl y k) b = y * 2 ^ k + b.
Proof.
  intros Hk Hb. pose proof (land_shiftl_low y b k Hk Hb) as Hl.
  rewrite <- Z.lxor_lor, <- Z.add_nocarry_lxor by done. by rewrite Z.shiftl_mul_pow2.
Qed.

Definition word32 (w : Z) : Prop := 0 <= w < 2 ^ 32.

Lemma word32_lt_pow2 w : 0 <= w -> Z.log2 w < 32 -> word32 w.
Proof.
  intros Hw Hl. split; [done|]. destruct (Z.eq_dec w 0) as [->|]; [lia|].
  apply Z.log2_lt_pow2; lia.
Qed.

Lemma word32_log2 w : word32 w -> Z.log2 w < 32.
Proof.
  intros [H1 H2]. destruct (Z.eq_dec w 0) as [->|]; [done|]. apply Z.log2_lt_pow2; lia.
Qed.

Lemma word32_lxor a b : word32 a -> word32 b -> word32 (Z.lxor a b).
Proof.
  intros Ha Hb. apply word32_lt_pow2.
  - apply Z.lxor_nonneg. unfold word32 in *. lia.
  - pose proof (word32_log2 a Ha). pose proof (word32_log2 b Hb).
    pose proof (Z.log2_lxor a b (proj1 Ha) (proj1 Hb)). lia.
Qed.

Lemma word32_u32 x : word32 (u32 x).
Proof. apply u32_range. Qed.

(** ** Hint databases

    [bytes] proves that buffers hold bytes and words are in range; [outcome]
    holds the rewriting rules of the outcome monad. *)

Create HintDb bytes.
#[export] Hint Resolve bytes_ok_nil bytes_ok_single bytes_ok_app_2 bytes_ok_take bytes_ok_drop str_bytes_ok
  be_encode_bytes_ok word32_lxor word32_u32 : bytes.

Lemma lookup_total_Forall (P : Z -> Prop) (l : list Z) i :
  Forall P l -> P 1 -> P (l !!! i).
Proof.
  intros H H1. rewrite list_lookup_total_alt. destruct (l !! i) as [x|] eqn:E; simpl; [|done].
  eapply Forall_lookup_1; eauto.
Qed.

Lemma word32_lookup (l : list Z) i : Forall word32 l -> word32 (l !!! i).
Proof. intros. apply lookup_total_Forall; [done|]. unfold word32. lia. Qed.
#[export] Hint Resolve word32_lookup : bytes.

(** Bitwise identities on [Z], bit by bit. *)
Ltac bitwise_btauto :=
  apply Z.bits_inj'; intros;
  rewrite ?Z.lxor_spec, ?Z.lor_spec, ?Z.land_spec, ?Z.lnot_spec,
    ?Z.lxor_spec, ?Z.lor_spec, ?Z.land_spec, ?Z.lnot_spec by done;
  btauto.

(** ** Slices *)

Lemma slice_snoc_before off n (l : bytes) b :
  (off + n <= length l)%nat -> slice off n (l ++ [b]) = slice off n l.
Proof.
  intros. unfold slice. rewrite drop_app_le by lia. rewrite take_app_le; [done|].
  rewrite length_drop. lia.
Qed.

Lemma slice_beyond off n (l : bytes) : (length l <= off)%nat -> slice off n l = [].
Proof. intros. unfold slice. rewrite drop_ge by lia. apply take_nil. Qed.

Lemma slice_snoc_at off n (l : bytes) b :
  (off <= length l < off + n)%nat -> slice off n (l ++ [b]) = slice off n l ++ [b].
Proof.
  intros. unfold slice. rewrite drop_app_le by lia.
  rewrite !take_ge; [done| |]; rewrite ?length_app, ?length_drop; simpl; lia.
Qed.

Lemma slice_app_mid (A B C : bytes) n : n = length B -> slice (length A) n (A ++ B ++ C) = B.
Proof. intros ->. unfold slice. by rewrite drop_app_length, take_app_length. Qed.

Lemma length_slice off n (l : bytes) : length (slice off n l) = (n `min` (length l - off))%nat.
Proof. unfold slice. by rewrite length_take, length_drop. Qed.

(** ** Sorted lists *)

Lemma StronglySorted_lookup {A} (R : A -> A -> Prop) l i j a b :
  StronglySorted R l -> l !! i = Some a -> l !! j = Some b -> (i < j)%nat -> R a b.
Proof.
  intros H; revert i j; induction H as [|x l Hl IH HF]; intros [|i] [|j] Ha Hb Hij; simpl in *; try (done || lia).
  - injection Ha as ->. rewrite Forall_forall in HF. apply HF. by eapply list_elem_of_lookup_2.
  - eapply (IH i j); eauto with lia.
Qed.

Lemma StronglySorted_mono {A} (R Q : A -> A -> Prop) l :
  (forall a b, R a b -> Q a b) -> StronglySorted R l -> StronglySorted Q l.
Proof. intros HRQ. induction 1 as [|a l _ IH HF]; constructor; [done|]. eapply Forall_impl; [exact HF|]. auto. Qed.

(** The search over a list: [cmp x] compares the key with the element [x]. *)
Lemma bsearch_list {A} (cmp : A -> Z) (at_ : Z -> Z) (l : list A) :
  (forall i x, l !! i = Some x -> at_ (Z.of_nat i) = cmp x) ->
  StronglySorted (fun x y => cmp x <= 0 -> cmp y < 0) l ->
  let r := bsearch at_ 0 (Z.of_nat (length l)) in
  (exists l1 x l2, l = l1 ++ x :: l2 /\ r = Z.of_nat (length l1) /\ cmp x = 0) \/
  (exists l1 l2, l = l1 ++ l2 /\ r = - Z.of_nat (length l1) - 1 /\
    Forall (fun x => 0 < cmp x) l1 /\ Forall (fun x => cmp x < 0) l2).
Proof.
  intros Hat Hs r.
  assert (Hcmp : forall i, 0 <= i < Z.of_nat (length l) -> exists x, l !! Z.to_nat i = Some x /\ at_ i = cmp x).
  { intros i Hi. destruct (lookup_lt_is_Some_2 l (Z.to_nat i)) as [x Hx]; [lia|]. exists x. split; [done|].
    rewrite <- (Hat _ _ Hx). by rewrite Z2Nat.id by lia. }
  destruct (bsearch_correct at_ (Z.of_nat (length l))) as [[Hr Hz]|(p&Er&Hp&Hlo&Hhi)]; [|lia|..].
  - intros i j Hij Hj Hi. destruct (Hcmp i) as (a&Ha&Ea); [lia|]. destruct (Hcmp j) as (b&Hb&Eb); [lia|].
    rewrite Ea in Hi. rewrite Eb. exact (StronglySorted_lookup _ _ _ _ _ _ Hs Ha Hb ltac:(lia) Hi).
  - left. destruct (Hcmp _ Hr) as (x&Hx&Ex). apply list_elem_of_split_length in Hx as (l1&l2&E&Hlen).
    exists l1, x, l2. split; [done|]. split; [subst r; lia|congruence].
  - right. exists (take (Z.to_nat p) l), (drop (Z.to_nat p) l). split; [by rewrite take_drop|].
    split; [subst r; rewrite Er, length_take; lia|]. split; apply Forall_lookup; intros i x Hx.
    + apply lookup_take_Some in Hx as [Hx Hi]. specialize (Hlo (Z.of_nat i) ltac:(lia)). rewrite (Hat _ _ Hx) in Hlo. lia.
    + rewrite lookup_drop in Hx. pose proof (lookup_lt_Some _ _ _ Hx). specialize (Hhi (p + Z.of_nat i) ltac:(lia)).
      replace (p + Z.of_nat i) with (Z.of_nat (Z.to_nat p + i)) in Hhi by lia. by rewrite (Hat _ _ Hx) in Hhi.
Qed.

Lemma Forall_sublist {A} (P : A -> Prop) l k : sublist l k -> Forall P k -> Forall P l.
Proof. induction 1 as [|x l k Hs IH|x l k Hs IH]; intros HF; [done| |]; inversion HF; subst; [constructor|]; auto. Qed.

Lemma StronglySorted_drop {A} (R : A -> A -> Prop) q l : StronglySorted R l -> StronglySorted R (drop q l).
Proof.
  revert q; induction l as [|a l IH]; intros [|q] H; simpl; try done. apply IH. by apply StronglySorted_inv in H as [].
Qed.

(** ** Big-endian integers in pieces *)

Lemma be_encode_app n m z :
  be_encode (n + m) z = be_encode n (z / 256 ^ Z.of_nat m) ++ be_encode m z.
Proof.
  revert z; induction m as [|m IH]; intros z.
  - by rewrite Nat.add_0_r, app_nil_r, Z.div_1_r.
  - rewrite Nat.add_succ_r. cbn [be_encode]. rewrite IH, <- app_assoc. f_equal. f_equal.
    rewrite Z.div_div by lia. f_equal. rewrite Nat2Z.inj_succ, Z.pow_succ_r by lia. lia.
Qed.

Lemma be_encode_mod n z : be_encode n (z mod 256 ^ Z.of_nat n) = be_encode n z.
Proof.
  rewrite <- be_decode_encode.
  pose proof (be_encode_decode (be_encode n z) (be_encode_bytes_ok n z)) as H.
  by rewrite length_be_encode in H.
Qed.

(** ** Numerals

    [sprintf]'s [%lu] and [%o]: the digits of a number in base [b] without
    leading zeros, and the number a string of digits denotes. *)

Fixpoint digits (b : Z) (fuel : nat) (n : Z) : bytes :=
  match fuel with
  | O => [48 + n]
  | S fuel => if n <? b then [48 + n] else digits b fuel (n / b) ++ [48 + n mod b]
  end.

Definition numeral (b n : Z) : bytes := digits b (Z.to_nat (Z.log2 n)) n.

Definition numeral_value (b : Z) (ds : bytes) : Z := foldl (fun a c => a * b + (c - 48)) 0 ds.

Definition is_digit (b c : Z) : bool := (48 <=? c) && (c <? 48 + b).

(** No leading zero. *)
Definition canonical (b : Z) (ds : bytes) : Prop :=
  Forall (fun c => is_digit b c = true) ds /\ ds <> [] /\ (head ds = Some 48 -> ds = [48]).

Lemma is_digit_iff b c : is_digit b c = true <-> 48 <= c < 48 + b.
Proof. unfold is_digit. rewrite andb_true_iff, Z.leb_le, Z.ltb_lt. done. Qed.

Lemma numeral_value_snoc b ds c : numeral_value b (ds ++ [c]) = numeral_value b ds * b + (c - 48).
Proof. unfold numeral_value. by rewrite foldl_app. Qed.

Section Numerals.
Context (b : Z) (Hb : 2 <= b <= 10).

Lemma digits_spec fuel n :
  0 <= n < b ^ Z.of_nat (S fuel) ->
  numeral_value b (digits b fuel n) = n /\ Forall (fun c => is_digit b c = true) (digits b fuel n) /\
  digits b fuel n <> [] /\ (0 < n -> exists c ds, digits b fuel n = c :: ds /\ c <> 48).
Proof.
  assert (Hone : forall m, 0 <= m < b -> numeral_value b [48 + m] = m /\
    Forall (fun c => is_digit b c = true) [48 + m] /\ [48 + m] <> [] /\
    (0 < m -> exists c ds, [48 + m] = c :: ds /\ c <> 48)).
  { intros m Hm. unfold numeral_value. simpl. split; [lia|]. split; [constructor; [apply is_digit_iff; lia|constructor]|].
    split; [done|]. intros. exists (48 + m), []. split; [done|lia]. }
  revert n; induction fuel as [|fuel IH]; intros n Hn; cbn [digits].
  { apply Hone. rewrite Z.pow_1_r in Hn. done. }
  destruct (Z.ltb_spec n b) as [Hlt|Hge]; [apply Hone; lia|].
  assert (Hq : 0 <= n / b < b ^ Z.of_nat (S fuel)).
  { split; [apply Z.div_pos; lia|]. apply Z.div_lt_upper_bound; [lia|].
    rewrite (Nat2Z.inj_succ (S fuel)), Z.pow_succ_r in Hn by lia. lia. }
  destruct (IH _ Hq) as (H1&H2&H3&H4). pose proof (Z.mod_pos_bound n b ltac:(lia)) as Hm.
  assert (0 < n / b) as Hqpos by (apply Z.div_str_pos; lia).
  destruct (H4 Hqpos) as (c&ds&E&Hc). split; [|split; [|split]].
  - rewrite numeral_value_snoc, H1. pose proof (Z.div_mod n b). lia.
  - apply Forall_app. split; [done|]. constructor; [apply is_digit_iff; lia|constructor].
  - by destruct (digits b fuel (n / b)).
  - intros _. rewrite E. by eexists _, _.
Qed.

Lemma numeral_spec n :
  0 <= n -> numeral_value b (numeral b n) = n /\ canonical b (numeral b n).
Proof.
  intros Hn. unfold numeral. assert (Hr : 0 <= n < b ^ Z.of_nat (S (Z.to_nat (Z.log2 n)))).
  { split; [done|]. destruct (Z.eq_dec n 0) as [->|]; [simpl; lia|].
    pose proof (Z.log2_spec n ltac:(lia)) as [_ H2]. pose proof (Z.log2_nonneg n).
    rewrite Nat2Z.inj_succ, Z2Nat.id by lia.
    eapply Z.lt_le_trans; [exact H2|]. apply Z.pow_le_mono_l. lia. }
  destruct (digits_spec _ n Hr) as (H1&H2&H3&H4). split; [done|]. split; [done|]. split; [done|].
  destruct (Z.eq_dec n 0) as [->|]; [done|]. destruct (H4 ltac:(lia)) as (c&ds&E&Hc). rewrite E. by intros [= ->].
Qed.

Lemma numeral_value_nonneg ds : Forall (fun c => is_digit b c = true) ds -> 0 <= numeral_value b ds.
Proof.
  induction ds as [|c ds IH] using rev_ind; intros HF; [done|]. apply Forall_app in HF as [H1 H2].
  inversion H2 as [|? ? Hc]; subst. apply is_digit_iff in Hc. rewrite numeral_value_snoc. specialize (IH H1). nia.
Qed.

(** Canonical strings of digits with the same value are equal. *)
Lemma canonical_inj ds1 ds2 :
  canonical b ds1 -> canonical b ds2 -> numeral_value b ds1 = numeral_value b ds2 -> ds1 = ds2.
Proof.
  revert ds2; induction ds1 as [|c1 ds1 IH] using rev_ind; intros ds2 (F1&N1&Z1) (F2&N2&Z2) E; [done|].
  destruct ds2 as [|c2 ds2 _] using rev_ind; [done|].
  apply Forall_app in F1 as [F1 G1]. apply Forall_app in F2 as [F2 G2].
  inversion G1 as [|? ? D1]; subst. inversion G2 as [|? ? D2]; subst. apply is_digit_iff in D1, D2.
  rewrite !numeral_value_snoc in E.
  assert (c1 = c2) as -> by (apply (f_equal (fun z => z mod b)) in E;
    rewrite !(Z.add_comm (_ * b)), !Z.mod_add, !Z.mod_small in E by lia; lia).
  assert (Ev : numeral_value b ds1 = numeral_value b ds2) by nia. f_equal.
  assert (Hpos : forall ds c, Forall (fun c => is_digit b c = true) ds -> ds <> [] ->
    (head (ds ++ [c]) = Some 48 -> ds ++ [c] = [48]) -> 0 < numeral_value b ds /\ canonical b ds).
  { intros ds c HF Hne Hz. destruct ds as [|d ds]; [done|]. simpl in Hz.
    assert (Hd : d <> 48) by (intros ->; specialize (Hz eq_refl); by destruct ds).
    split; [|split; [done|split; [done|by intros [= ->]]]].
    inversion HF as [|? ? D HF']; subst. apply is_digit_iff in D. clear -D HF' Hd Hb.
    induction ds as [|x ds IH] using rev_ind; [unfold numeral_value; simpl; lia|].
    apply Forall_app in HF' as [H1 H2]. inversion H2 as [|? ? Hx]; subst. apply is_digit_iff in Hx.
    rewrite app_comm_cons, numeral_value_snoc. specialize (IH H1). nia. }
  destruct (decide (ds1 = [])) as [->|Hne1], (decide (ds2 = [])) as [->|Hne2]; [done| | |].
  - destruct (Hpos ds2 c2 F2 Hne2 Z2) as [Hp _]. change (numeral_value b []) with 0 in Ev. lia.
  - destruct (Hpos ds1 c2 F1 Hne1 Z1) as [Hp _]. change (numeral_value b []) with 0 in Ev. lia.
  - destruct (Hpos ds1 c2 F1 Hne1 Z1) as [_ C1]. destruct (Hpos ds2 c2 F2 Hne2 Z2) as [_ C2]. by apply IH.
Qed.

Lemma numeral_unique ds : canonical b ds -> numeral b (numeral_value b ds) = ds.
Proof.
  intros Hc. pose proof (numeral_value_nonneg ds (proj1 Hc)) as Hn.
  destruct (numeral_spec _ Hn) as [H1 H2]. by apply canonical_inj.
Qed.

End Numerals.
