(* ===== verification/Sha1.v ===== *)
(** * SHA-1 (mozilla-sha1/sha1.c)

    The incremental implementation that every object name, index trailer and
    pack trailer of the program is computed with: [SHA1_Init], [SHA1_Update],
    [SHA1_Final] and [shaHashBlock] over the context [SHA_CTX].  The same file
    stands in test_git/mozilla-sha1, mozilla-sha1 and gitpack_parse.

    [Fips] is the definition of the hash as the FIPS 180 standard writes it
    (pad the whole message, cut it into 64-byte blocks, compress each one);
    the main theorem says that feeding the message to the incremental code in
    any pieces gives exactly that digest. *)

From stdpp Require Import base list numbers strings.
From Stdlib Require Import ZArith Lia Btauto.
From S2P Require Import Prelude.

(** ** The C code *)

Record SHA_CTX := mkCTX {
  ctx_H : list Z;          (* unsigned int H[5] *)
  ctx_W : list Z;          (* unsigned int W[80] *)
  lenW : Z;
  sizeHi : Z;
  sizeLo : Z
}.

Definition SHA1_Init : SHA_CTX := {|
  ctx_H := [0x67452301; 0xefcdab89; 0x98badcfe; 0x10325476; 0xc3d2e1f0];
  ctx_W := replicate 80 0;
  lenW := 0;
  sizeHi := 0;
  sizeLo := 0
|}.

Definition SHA_ROT (X n : Z) : Z := Z.lor (u32 (Z.shiftl X n)) (Z.shiftr X (32 - n)).

(** [ctx->W[t] = SHA_ROT(W[t-3] ^ W[t-8] ^ W[t-14] ^ W[t-16], 1)] *)
Definition sha_expand (W : list Z) (t : nat) : list Z :=
  <[t := SHA_ROT (Z.lxor (Z.lxor (Z.lxor (W !!! (t - 3)%nat) (W !!! (t - 8)%nat))
                             (W !!! (t - 14)%nat)) (W !!! (t - 16)%nat)) 1]> W.

(** The five working variables and one step of a round loop, for the loop's
    function [f] and constant [k]. *)
Record sha_vars := mkVars { vA : Z; vB : Z; vC : Z; vD : Z; vE : Z }.

Definition sha_round (f : Z -> Z -> Z -> Z) (k : Z) (W : list Z) (v : sha_vars) (t : nat)
    : sha_vars :=
  let TEMP := u32 (SHA_ROT (vA v) 5 + f (vB v) (vC v) (vD v) + vE v + W !!! t + k) in
  mkVars TEMP (vA v) (SHA_ROT (vB v) 30) (vC v) (vD v).

Definition f_0_19 (B C D : Z) : Z := Z.lxor (Z.land (Z.lxor C D) B) D.
Definition f_20_39 (B C D : Z) : Z := Z.lxor (Z.lxor B C) D.
Definition f_40_59 (B C D : Z) : Z := Z.lor (Z.land B C) (Z.land D (Z.lor B C)).

Definition shaHashBlock (ctx : SHA_CTX) : SHA_CTX :=
  let W := foldl sha_expand (ctx_W ctx) (seq 16 64) in
  let H := ctx_H ctx in
  let v := mkVars (H !!! 0%nat) (H !!! 1%nat) (H !!! 2%nat) (H !!! 3%nat) (H !!! 4%nat) in
  let v := foldl (sha_round f_0_19 0x5a827999 W) v (seq 0 20) in
  let v := foldl (sha_round f_20_39 0x6ed9eba1 W) v (seq 20 20) in
  let v := foldl (sha_round f_40_59 0x8f1bbcdc W) v (seq 40 20) in
  let v := foldl (sha_round f_20_39 0xca62c1d6 W) v (seq 60 20) in
  {| ctx_H := [u32 (H !!! 0%nat + vA v); u32 (H !!! 1%nat + vB v); u32 (H !!! 2%nat + vC v);
               u32 (H !!! 3%nat + vD v); u32 (H !!! 4%nat + vE v)];
     ctx_W := W; lenW := lenW ctx; sizeHi := sizeHi ctx; sizeLo := sizeLo ctx |}.

(** One iteration of the loop of [SHA1_Update]. *)
Definition sha_byte (ctx : SHA_CTX) (b : Z) : SHA_CTX :=
  let i := Z.to_nat (lenW ctx / 4) in
  let W := ctx_W ctx in
  let W := <[i := u32 (Z.shiftl (W !!! i) 8)]> W in
  let W := <[i := Z.lor (W !!! i) b]> W in
  let ctx := {| ctx_H := ctx_H ctx; ctx_W := W; lenW := lenW ctx + 1;
                sizeHi := sizeHi ctx; sizeLo := sizeLo ctx |} in
  let ctx :=
    if lenW ctx mod 64 =? 0 then
      let c := shaHashBlock ctx in
      {| ctx_H := ctx_H c; ctx_W := ctx_W c; lenW := 0; sizeHi := sizeHi c; sizeLo := sizeLo c |}
    else ctx in
  let lo := u32 (sizeLo ctx + 8) in
  {| ctx_H := ctx_H ctx; ctx_W := ctx_W ctx; lenW := lenW ctx;
     sizeHi := u32 (sizeHi ctx + (if lo <? 8 then 1 else 0)); sizeLo := lo |}.

(** [len] is converted to the parameter's type [int]; a negative one runs no
    iteration.  The caller owns at least [len] bytes of [dataIn]. *)
Definition SHA1_Update (ctx : SHA_CTX) (dataIn : bytes) (len : Z) : SHA_CTX :=
  foldl sha_byte ctx (take (Z.to_nat (i32 len)) dataIn).

(** [while (ctx->lenW != 56) SHA1_Update(ctx, &pad0x00, 1);] *)
Fixpoint sha_pad (fuel : nat) (ctx : SHA_CTX) : SHA_CTX :=
  match fuel with
  | O => ctx
  | S fuel => if lenW ctx =? 56 then ctx else sha_pad fuel (SHA1_Update ctx [0] 1)
  end.

(** [hashout[i] = H[i/4] >> 24; H[i/4] <<= 8;] *)
Definition sha_out (st : bytes * list Z) (i : nat) : bytes * list Z :=
  let '(out, H) := st in
  let j := (i / 4)%nat in
  (out ++ [u8 (Z.shiftr (H !!! j) 24)], <[j := u32 (Z.shiftl (H !!! j) 8)]> H).

Definition SHA1_Final (ctx : SHA_CTX) : bytes * SHA_CTX :=
  let hi := sizeHi ctx in
  let lo := sizeLo ctx in
  let padlen := [Z.land (Z.shiftr hi 24) 255; Z.land (Z.shiftr hi 16) 255;
                 Z.land (Z.shiftr hi 8) 255; Z.land (Z.shiftr hi 0) 255;
                 Z.land (Z.shiftr lo 24) 255; Z.land (Z.shiftr lo 16) 255;
                 Z.land (Z.shiftr lo 8) 255; Z.land (Z.shiftr lo 0) 255] in
  let ctx := SHA1_Update ctx [0x80] 1 in
  let ctx := sha_pad 64 ctx in
  let ctx := SHA1_Update ctx padlen 8 in
  let '(hashout, _) := foldl sha_out ([], ctx_H ctx) (seq 0 20) in
  (hashout, SHA1_Init).

(** ** The standard *)

Module Fips.

(** Circular left shift of a 32-bit word. *)
Definition ROTL (n x : Z) : Z := (x * 2 ^ n) mod 2 ^ 32 + x / 2 ^ (32 - n).

Definition f (t : nat) (B C D : Z) : Z :=
  if (t <? 20)%nat then Z.lor (Z.land B C) (Z.land (Z.lnot B) D)
  else if (t <? 40)%nat then Z.lxor (Z.lxor B C) D
  else if (t <? 60)%nat then Z.lor (Z.lor (Z.land B C) (Z.land B D)) (Z.land C D)
  else Z.lxor (Z.lxor B C) D.

Definition K (t : nat) : Z :=
  if (t <? 20)%nat then 0x5A827999
  else if (t <? 40)%nat then 0x6ED9EBA1
  else if (t <? 60)%nat then 0x8F1BBCDC
  else 0xCA62C1D6.

(** The sixteen big-endian words of a block, extended one word at a time. *)
Definition words (block : bytes) : list Z :=
  map (fun i => be_decode (slice (4 * i) 4 block)) (seq 0 16).

Definition extend (W : list Z) : list Z :=
  let w k := W !!! (length W - k)%nat in
  W ++ [ROTL 1 (Z.lxor (Z.lxor (Z.lxor (w 3%nat) (w 8%nat)) (w 14%nat)) (w 16%nat))].

Definition schedule (block : bytes) : list Z := Nat.iter 64 extend (words block).

Definition step (W : list Z) (v : sha_vars) (t : nat) : sha_vars :=
  mkVars ((ROTL 5 (vA v) + f t (vB v) (vC v) (vD v) + vE v + W !!! t + K t) mod 2 ^ 32)
    (vA v) (ROTL 30 (vB v)) (vC v) (vD v).

Definition compress (H : list Z) (block : bytes) : list Z :=
  let v0 := mkVars (H !!! 0%nat) (H !!! 1%nat) (H !!! 2%nat) (H !!! 3%nat) (H !!! 4%nat) in
  let v := foldl (step (schedule block)) v0 (seq 0 80) in
  [(vA v0 + vA v) mod 2 ^ 32; (vB v0 + vB v) mod 2 ^ 32; (vC v0 + vC v) mod 2 ^ 32;
   (vD v0 + vD v) mod 2 ^ 32; (vE v0 + vE v) mod 2 ^ 32].

Definition H0 : list Z := [0x67452301; 0xEFCDAB89; 0x98BADCFE; 0x10325476; 0xC3D2E1F0].

(** A one bit, zeros up to 448 modulo 512, the length in bits on 64 bits. *)
Definition pad (m : bytes) : bytes :=
  m ++ [128] ++ replicate (Z.to_nat ((55 - Z.of_nat (length m)) mod 64)) 0
    ++ be_encode 8 (8 * Z.of_nat (length m)).

Definition blocks (m : bytes) : list bytes :=
  map (fun i => slice (64 * i) 64 m) (seq 0 (length m / 64)).

Definition sha1 (m : bytes) : bytes :=
  concat (map (be_encode 4) (foldl compress H0 (blocks (pad m)))).

End Fips.

(** SHA-1 of a whole buffer, as every caller of the three functions does it. *)
Definition sha1_of (data : bytes) : bytes :=
  fst (SHA1_Final (SHA1_Update SHA1_Init data (Z.of_nat (length data)))).

Example sha1_abc : sha1_of (str "abc") =
  [0xa9;0x99;0x3e;0x36;0x47;0x06;0x81;0x6a;0xba;0x3e;0x25;0x71;0x78;0x50;0xc2;0x6c;0x9c;0xd0;0xd8;0x9d].
Proof. vm_compute. reflexivity. Qed.

Example fips_abc : Fips.sha1 (str "abc") = sha1_of (str "abc").
Proof. vm_compute. reflexivity. Qed.

#[global] Arguments shaHashBlock : simpl never.
#[global] Arguments Fips.compress : simpl never.
#[global] Arguments Fips.schedule : simpl never.
#[global] Arguments Fips.words : simpl never.
#[global] Arguments sha_byte : simpl never.
#[global] Arguments SHA1_Final : simpl never.

(** ** Words and rotations *)

Lemma SHA_ROT_ROTL n x : word32 x -> 0 < n < 32 -> SHA_ROT x n = Fips.ROTL n x.
Proof.
  intros [Hx0 Hx] Hn. unfold SHA_ROT, Fips.ROTL, u32.
  rewrite Z.shiftl_mul_pow2, Z.shiftr_div_pow2 by lia.
  assert (Hp : 2 ^ 32 = 2 ^ (32 - n) * 2 ^ n) by (rewrite <- Z.pow_add_r by lia; f_equal; lia).
  rewrite Hp, Z.mul_mod_distr_r by lia.
  rewrite <- Z.shiftl_mul_pow2 at 1 by lia.
  rewrite lor_shiftl_add; [done|lia|]. split; [apply Z.div_pos; lia|].
  apply Z.div_lt_upper_bound; lia.
Qed.

Lemma ROTL_word n x : word32 x -> 0 < n < 32 -> word32 (Fips.ROTL n x).
Proof.
  intros [Hx0 Hx] Hn. unfold Fips.ROTL.
  assert (Hp : 2 ^ 32 = 2 ^ (32 - n) * 2 ^ n) by (rewrite <- Z.pow_add_r by lia; f_equal; lia).
  assert (0 < 2 ^ n) by lia. assert (0 < 2 ^ (32 - n)) by lia.
  assert (0 <= x / 2 ^ (32 - n) < 2 ^ n)
    by (split; [apply Z.div_pos; lia | apply Z.div_lt_upper_bound; lia]).
  unfold word32. rewrite Hp, Z.mul_mod_distr_r by lia.
  pose proof (Z.mod_pos_bound x (2 ^ (32 - n))). nia.
Qed.
#[export] Hint Resolve ROTL_word : bytes.

(** The C code's selections are the standard's. *)
Lemma f_0_19_spec B C D : f_0_19 B C D = Z.lor (Z.land B C) (Z.land (Z.lnot B) D).
Proof. unfold f_0_19. bitwise_btauto. Qed.

Lemma f_40_59_spec B C D :
  f_40_59 B C D = Z.lor (Z.lor (Z.land B C) (Z.land B D)) (Z.land C D).
Proof. unfold f_40_59. bitwise_btauto. Qed.

(** ** The message schedule *)

Lemma words_length b : length (Fips.words b) = 16%nat.
Proof. done. Qed.

Lemma slice_bytes_ok off n l : bytes_ok l -> bytes_ok (slice off n l).
Proof. unfold slice. auto with bytes. Qed.

Lemma words_word b : bytes_ok b -> Forall word32 (Fips.words b).
Proof.
  intros Hb. unfold Fips.words. apply Forall_fmap, Forall_true. intros i. simpl.
  pose proof (be_decode_range (slice (4 * i) 4 b) (slice_bytes_ok _ _ _ Hb)) as [H1 H2].
  split; [done|]. eapply Z.lt_le_trans; [done|]. change (2 ^ 32) with (256 ^ 4).
  apply Z.pow_le_mono_r; [lia|]. unfold slice. rewrite length_take. lia.
Qed.

Lemma iter_extend_length k M : length (Nat.iter k Fips.extend M) = (k + length M)%nat.
Proof. induction k; simpl; [done|]. unfold Fips.extend at 1. rewrite length_app, IHk. simpl. lia. Qed.

Lemma iter_extend_word k M : Forall word32 M -> Forall word32 (Nat.iter k Fips.extend M).
Proof.
  intros HM. induction k; simpl; [done|]. unfold Fips.extend at 1. apply Forall_app. split; [done|].
  constructor; [|done]. apply ROTL_word; [|lia].
  auto 10 with bytes.
Qed.

Lemma sha_expand_schedule M junk k :
  length M = 16%nat -> Forall word32 M -> (k <= length junk)%nat ->
  foldl sha_expand (M ++ junk) (seq 16 k) = Nat.iter k Fips.extend M ++ drop k junk.
Proof.
  intros HM Hw. induction k as [|k IH]; intros Hk; [done|].
  rewrite seq_S, foldl_app, IH by lia.
  pose proof (iter_extend_length k M) as HL. pose proof (iter_extend_word k M Hw) as HF.
  simpl Nat.iter. set (S := Nat.iter k Fips.extend M) in *.
  destruct (drop k junk) as [|j js] eqn:Ej.
  { apply (f_equal length) in Ej. rewrite length_drop in Ej. simpl in Ej. lia. }
  replace (drop (Datatypes.S k) junk) with js
    by (rewrite <- (Nat.add_1_r k), <- drop_drop, Ej; done).
  rewrite (Nat.add_comm 16 k). unfold sha_expand, Fips.extend. cbn [foldl].
  rewrite HL, HM, !lookup_total_app_l by lia.
  rewrite SHA_ROT_ROTL by (done || lia || auto 10 with bytes).
  rewrite insert_app_r_alt by lia.
  replace (k + 16 - length S)%nat with 0%nat by lia. simpl. by rewrite <- app_assoc.
Qed.

(** ** The eighty rounds *)

Definition vars_ok (v : sha_vars) : Prop :=
  word32 (vA v) /\ word32 (vB v) /\ word32 (vC v) /\ word32 (vD v) /\ word32 (vE v).

Lemma step_vars_ok W v t : vars_ok v -> vars_ok (Fips.step W v t).
Proof.
  intros (?&?&?&?&?). refine (conj _ (conj _ (conj _ (conj _ _)))); simpl; auto.
  - apply word32_u32.
  - apply ROTL_word; [done|lia].
Qed.

Lemma sha_round_step f k W v t :
  vars_ok v -> (forall B C D, f B C D = Fips.f t B C D) -> k = Fips.K t ->
  sha_round f k W v t = Fips.step W v t.
Proof.
  intros (?&?&?&?&?) Hf ->. unfold sha_round, Fips.step, u32.
  by rewrite Hf, !SHA_ROT_ROTL by (done || lia).
Qed.

Lemma sha_rounds_step f k W ts v :
  (forall t, t ∈ ts -> (forall B C D, f B C D = Fips.f t B C D) /\ k = Fips.K t) ->
  vars_ok v ->
  foldl (sha_round f k W) v ts = foldl (Fips.step W) v ts /\ vars_ok (foldl (Fips.step W) v ts).
Proof.
  revert v; induction ts as [|t ts IH]; intros v Hts Hv; simpl; [done|].
  destruct (Hts t) as [Hf Hk]; [by left|].
  rewrite sha_round_step by done. apply IH; [|by apply step_vars_ok].
  intros t' Ht'. apply Hts. by right.
Qed.

Ltac sha_range :=
  let t := fresh "t" in let Ht := fresh in
  intros t Ht; rewrite elem_of_seq in Ht; unfold Fips.f, Fips.K;
  repeat match goal with
  | |- context [(t <? ?n)%nat] =>
      first [ replace (t <? n)%nat with true by (symmetry; apply Nat.ltb_lt; lia)
            | replace (t <? n)%nat with false by (symmetry; apply Nat.ltb_ge; lia) ]
  end;
  split; [intros; rewrite ?f_0_19_spec, ?f_40_59_spec; reflexivity | reflexivity].

Lemma sha_all_rounds W v :
  vars_ok v ->
  foldl (sha_round f_20_39 0xca62c1d6 W)
    (foldl (sha_round f_40_59 0x8f1bbcdc W)
      (foldl (sha_round f_20_39 0x6ed9eba1 W)
        (foldl (sha_round f_0_19 0x5a827999 W) v (seq 0 20)) (seq 20 20)) (seq 40 20)) (seq 60 20)
  = foldl (Fips.step W) v (seq 0 80).
Proof.
  intros Hv.
  destruct (sha_rounds_step f_0_19 0x5a827999 W (seq 0 20) v) as [-> H1]; [sha_range|done|].
  destruct (sha_rounds_step f_20_39 0x6ed9eba1 W (seq 20 20) _ ltac:(sha_range) H1) as [-> H2].
  destruct (sha_rounds_step f_40_59 0x8f1bbcdc W (seq 40 20) _ ltac:(sha_range) H2) as [-> H3].
  destruct (sha_rounds_step f_20_39 0xca62c1d6 W (seq 60 20) _ ltac:(sha_range) H3) as [-> H4].
  by rewrite <- !foldl_app.
Qed.

(** One block: the C code computes the standard's compression function. *)
Lemma shaHashBlock_spec ctx block :
  bytes_ok block -> length (ctx_W ctx) = 80%nat -> take 16 (ctx_W ctx) = Fips.words block ->
  Forall word32 (ctx_H ctx) ->
  shaHashBlock ctx =
    {| ctx_H := Fips.compress (ctx_H ctx) block; ctx_W := Fips.schedule block;
       lenW := lenW ctx; sizeHi := sizeHi ctx; sizeLo := sizeLo ctx |}.
Proof.
  intros Hb HL HW HH.
  assert (HE : foldl sha_expand (ctx_W ctx) (seq 16 64) = Fips.schedule block).
  { rewrite <- (take_drop 16 (ctx_W ctx)), HW.
    rewrite sha_expand_schedule by
      (rewrite ?length_drop, ?HL; auto using words_word, words_length with lia).
    rewrite drop_ge by (rewrite length_drop; lia). rewrite app_nil_r. unfold Fips.schedule. reflexivity. }
  unfold shaHashBlock. cbv zeta. rewrite HE, sha_all_rounds; [reflexivity|].
  refine (conj _ (conj _ (conj _ (conj _ _)))); simpl; auto with bytes.
Qed.

Lemma compress_word H b : Forall word32 (Fips.compress H b) /\ length (Fips.compress H b) = 5%nat.
Proof.
  unfold Fips.compress. cbv zeta. generalize (foldl (Fips.step (Fips.schedule b))). intros g.
  split; [|done]. repeat apply Forall_cons_2; (apply Forall_nil_2 || apply word32_u32).
Qed.

(** ** The incremental code against a buffer of pending bytes

    [absorb] is the abstract machine: a chaining value and the bytes of the
    block that is not yet full.  [rep] relates it to a context; the words of
    [ctx_W] are only determined up to the bytes fed so far, what older blocks
    left in the high bytes is shifted out later. *)

Definition absorb (st : list Z * bytes) (b : Z) : list Z * bytes :=
  let buf := snd st ++ [b] in
  if (length buf =? 64)%nat then (Fips.compress (fst st) buf, []) else (fst st, buf).

Definition word_rep (W : list Z) (buf : bytes) (i : nat) : Prop :=
  (W !!! i) mod 256 ^ Z.of_nat (length (slice (4 * i) 4 buf)) = be_decode (slice (4 * i) 4 buf).

Record rep (ctx : SHA_CTX) (st : list Z * bytes) (n : Z) : Prop := {
  rep_H : ctx_H ctx = fst st;
  rep_Hw : Forall word32 (fst st) /\ length (fst st) = 5%nat;
  rep_WL : length (ctx_W ctx) = 80%nat;
  rep_Ww : Forall word32 (ctx_W ctx);
  rep_len : lenW ctx = Z.of_nat (length (snd st));
  rep_buf : (length (snd st) < 64)%nat /\ bytes_ok (snd st);
  rep_W : forall i, (i < 16)%nat -> word_rep (ctx_W ctx) (snd st) i;
  rep_size : sizeHi ctx * 2 ^ 32 + sizeLo ctx = (8 * n) mod 2 ^ 64;
  rep_hi : word32 (sizeHi ctx);
  rep_lo : word32 (sizeLo ctx)
}.

Lemma rep_init : rep SHA1_Init (Fips.H0, []) 0.
Proof.
  split; simpl; try (done || lia).
  - split; [|done]. repeat apply Forall_cons_2; try apply Forall_nil_2; unfold word32; lia.
  - apply (Forall_replicate _ 80%nat). unfold word32; lia.
  - split; [lia|constructor].
  - intros i _. unfold word_rep. rewrite slice_beyond by (simpl; lia). apply Z.mod_1_r.
Qed.

Lemma shift_in_byte x b : is_byte b -> Z.lor (u32 (Z.shiftl x 8)) b = u32 (x * 256 + b).
Proof.
  intros Hb. unfold is_byte in Hb. unfold u32. rewrite Z.shiftl_mul_pow2 by lia.
  change (2 ^ 32) with (2 ^ 24 * 2 ^ 8). rewrite Z.mul_mod_distr_r by lia.
  rewrite <- Z.shiftl_mul_pow2, lor_shiftl_add by lia.
  change (2 ^ 24 * 2 ^ 8) with (256 * 2 ^ 24). rewrite Z.rem_mul_r by lia.
  rewrite Z.div_add_l, (Z.div_small b) by lia.
  replace ((x * 256 + b) mod 256) with b by (rewrite Z.add_comm, Z.mod_add, Z.mod_small; lia).
  rewrite Z.add_0_r. lia.
Qed.

Lemma word_rep_shift x b (k : nat) :
  (k < 4)%nat -> is_byte b ->
  u32 (x * 256 + b) mod 256 ^ Z.of_nat (k + 1) = (x mod 256 ^ Z.of_nat k) * 256 + b.
Proof.
  intros Hk Hb. unfold is_byte in Hb. unfold u32. rewrite Z.mod_mod_divide.
  2:{ exists (256 ^ Z.of_nat (3 - k)). rewrite <- Z.pow_add_r by lia.
      replace (Z.of_nat (3 - k) + Z.of_nat (k + 1)) with 4 by lia. done. }
  replace (256 ^ Z.of_nat (k + 1)) with (256 * 256 ^ Z.of_nat k)
    by (rewrite Nat2Z.inj_add, Z.pow_add_r by lia; apply Z.mul_comm).
  rewrite Z.rem_mul_r by lia. rewrite Z.div_add_l, (Z.div_small b) by lia.
  replace ((x * 256 + b) mod 256) with b by (rewrite Z.add_comm, Z.mod_add, Z.mod_small; lia).
  rewrite Z.add_0_r. lia.
Qed.

Lemma word_rep_snoc W buf b i :
  length W = 80%nat -> (length buf < 64)%nat -> (i < 16)%nat -> is_byte b ->
  word_rep W buf i ->
  word_rep (<[(length buf / 4)%nat := u32 (W !!! (length buf / 4)%nat * 256 + b)]> W) (buf ++ [b]) i.
Proof.
  intros HL Hb Hi Hbyte HW. unfold word_rep in *.
  pose proof (Nat.div_mod_eq (length buf) 4). pose proof (Nat.mod_upper_bound (length buf) 4).
  destruct (decide (i = length buf / 4)%nat) as [->|Hne].
  - rewrite list_lookup_total_insert_eq by lia. rewrite slice_snoc_at by lia.
    rewrite length_app, be_decode_snoc. simpl (length [b]).
    rewrite word_rep_shift by (rewrite ?length_slice; done || lia). by rewrite HW.
  - rewrite list_lookup_total_insert_ne by done.
    destruct (decide (4 * i + 4 <= length buf)%nat).
    + by rewrite slice_snoc_before by done.
    + rewrite slice_beyond in HW by lia. by rewrite slice_beyond by (rewrite length_app; simpl; lia).
Qed.

Lemma count_bits hi lo n :
  word32 hi -> word32 lo -> hi * 2 ^ 32 + lo = (8 * n) mod 2 ^ 64 ->
  u32 (hi + (if u32 (lo + 8) <? 8 then 1 else 0)) * 2 ^ 32 + u32 (lo + 8)
    = (8 * (n + 1)) mod 2 ^ 64.
Proof.
  intros Hhi Hlo Hn. unfold word32, u32 in *.
  replace ((8 * (n + 1)) mod 2 ^ 64) with ((hi * 2 ^ 32 + lo + 8) mod 2 ^ 64).
  2:{ rewrite Hn, Z.add_mod_idemp_l by lia. f_equal. lia. }
  destruct (Z.lt_ge_cases (lo + 8) (2 ^ 32)).
  - rewrite (Z.mod_small (lo + 8)) by lia. destruct (Z.ltb_spec (lo + 8) 8); [lia|].
    rewrite Z.add_0_r, (Z.mod_small hi), Z.mod_small by lia. lia.
  - assert (Hm : (lo + 8) mod 2 ^ 32 = lo + 8 - 2 ^ 32).
    { rewrite <- (Z.mod_small (lo + 8 - 2 ^ 32) (2 ^ 32)) by lia.
      rewrite <- (Z.mod_add (lo + 8 - 2 ^ 32) 1) by lia. f_equal. lia. }
    rewrite Hm. destruct (Z.ltb_spec (lo + 8 - 2 ^ 32) 8); [|lia].
    replace (hi * 2 ^ 32 + lo + 8) with ((lo + 8 - 2 ^ 32) + (hi + 1) * 2 ^ 32) by lia.
    change (2 ^ 64) with (2 ^ 32 * 2 ^ 32). rewrite Z.rem_mul_r by lia.
    rewrite Z.mod_add, Z.div_add, (Z.mod_small (lo + _ - _)), (Z.div_small (lo + _ - _)) by lia.
    rewrite Z.add_0_l. lia.
Qed.

(** What [W] holds once the 64th byte of a block is in. *)
Lemma word_rep_full W buf :
  Forall word32 W -> (16 <= length W)%nat -> length buf = 64%nat ->
  (forall i, (i < 16)%nat -> word_rep W buf i) -> take 16 W = Fips.words buf.
Proof.
  intros HW HL Hb Hrep. apply list_eq. intros i. unfold Fips.words.
  destruct (decide (i < 16)%nat) as [Hi|Hi].
  - rewrite lookup_take_lt by done.
    rewrite list_lookup_fmap, lookup_seq_lt by done.
    rewrite list_lookup_lookup_total_lt by lia.
    change (Some (W !!! i) = Some (be_decode (slice (4 * i) 4 buf))). f_equal.
    specialize (Hrep i Hi). unfold word_rep in Hrep. rewrite length_slice, Hb in Hrep.
    replace (4 `min` (64 - 4 * i))%nat with 4%nat in Hrep by lia.
    rewrite <- Hrep. symmetry. apply Z.mod_small. by apply word32_lookup.
  - rewrite lookup_take_ge by lia. symmetry. apply lookup_ge_None. rewrite length_map, length_seq. lia.
Qed.

Lemma sha_byte_rep ctx st n b :
  rep ctx st n -> is_byte b -> rep (sha_byte ctx b) (absorb st b) (n + 1).
Proof.
  destruct st as [H buf]. intros [HH [HHw HHl] HWL HWw Hlen [Hbl Hbo] HW Hsz Hhi Hlo] Hb.
  simpl in *.
  assert (Hi : Z.to_nat (lenW ctx / 4) = (length buf / 4)%nat)
    by (rewrite Hlen; change 4 with (Z.of_nat 4); by rewrite <- Nat2Z.inj_div, Nat2Z.id).
  assert (Hidx : (length buf / 4 < 80)%nat) by (apply Nat.Div0.div_lt_upper_bound; lia).
  unfold sha_byte. rewrite Hi. cbv zeta.
  rewrite list_lookup_total_insert_eq, list_insert_insert_eq by lia. rewrite shift_in_byte by done.
  set (W' := <[_ := _]> (ctx_W ctx)).
  assert (HW'w : Forall word32 W') by (apply Forall_insert; auto with bytes).
  assert (HW'L : length W' = 80%nat) by (unfold W'; by rewrite length_insert).
  assert (HW' : forall i, (i < 16)%nat -> word_rep W' (buf ++ [b]) i)
    by (intros; apply word_rep_snoc; auto).
  assert (Hok : bytes_ok (buf ++ [b])) by auto with bytes.
  pose proof (count_bits _ _ _ Hhi Hlo Hsz) as Hcnt.
  unfold absorb. cbn [fst snd lenW]. rewrite length_app, Hlen. cbn [length].
  destruct (Nat.eqb_spec (length buf + 1) 64) as [E|E].
  - assert (length (buf ++ [b]) = 64%nat) by (rewrite length_app; simpl; lia).
    replace ((Z.of_nat (length buf) + 1) mod 64 =? 0) with true
      by (symmetry; apply Z.eqb_eq; replace (Z.of_nat (length buf) + 1) with 64 by lia; done).
    rewrite (shaHashBlock_spec _ (buf ++ [b])); cbn [ctx_W ctx_H]; try done;
      [| apply word_rep_full; auto with lia | by rewrite HH].
    cbn [ctx_H ctx_W lenW sizeHi sizeLo].
    rewrite HH. pose proof (compress_word H (buf ++ [b])) as [HC1 HC2].
    split; simpl; try (done || lia || apply word32_u32).
    + apply iter_extend_word. by apply words_word.
    + split; [lia|constructor].
    + intros i _. unfold word_rep. rewrite slice_beyond by (simpl; lia). apply Z.mod_1_r.
  - replace ((Z.of_nat (length buf) + 1) mod 64 =? 0) with false
      by (symmetry; apply Z.eqb_neq; rewrite Z.mod_small; lia).
    split; simpl; rewrite ?length_app; simpl; try (done || lia || apply word32_u32).
    split; [lia|done].
Qed.

(** ** The stream of bytes *)

Lemma sha_bytes_rep l ctx st n :
  rep ctx st n -> bytes_ok l ->
  rep (foldl sha_byte ctx l) (foldl absorb st l) (n + Z.of_nat (length l)).
Proof.
  revert ctx st n; induction l as [|b l IH]; intros ctx st n Hr Hl; simpl.
  - by rewrite Z.add_0_r.
  - apply bytes_ok_cons in Hl as [Hb Hl].
    replace (n + Z.of_nat (S (length l))) with ((n + 1) + Z.of_nat (length l)) by lia.
    apply IH; [|done]. by apply sha_byte_rep.
Qed.

Lemma absorb_partial l H buf :
  (length buf + length l < 64)%nat -> foldl absorb (H, buf) l = (H, buf ++ l).
Proof.
  revert buf; induction l as [|b l IH]; intros buf Hlen; simpl in *; [by rewrite app_nil_r|].
  unfold absorb at 2. cbn [fst snd]. rewrite length_app. simpl.
  destruct (Nat.eqb_spec (length buf + 1) 64); [lia|].
  rewrite IH by (rewrite length_app; simpl; lia). by rewrite <- app_assoc.
Qed.

Lemma absorb_block l H :
  length l = 64%nat -> foldl absorb (H, []) l = (Fips.compress H l, []).
Proof.
  intros Hl. destruct l as [|b l _] using rev_ind; [done|].
  rewrite length_app in Hl. simpl in Hl.
  rewrite foldl_app, absorb_partial by (simpl; lia). simpl.
  unfold absorb. cbn [fst snd]. rewrite length_app. simpl.
  by replace (length l + 1)%nat with 64%nat by lia.
Qed.

Lemma blocks_cons b l : length b = 64%nat -> Fips.blocks (b ++ l) = b :: Fips.blocks l.
Proof.
  intros Hb. unfold Fips.blocks.
  replace (length (b ++ l) / 64)%nat with (S (length l / 64))
    by (rewrite length_app, Hb; rewrite <- (Nat.div_add_l 1 64) by lia; f_equal; lia).
  cbn [seq map]. f_equal.
  - unfold slice. rewrite Nat.mul_0_r, drop_0. by rewrite take_app_length' by lia.
  - rewrite <- seq_shift, map_map. apply map_ext. intros i. unfold slice. f_equal.
    replace (64 * S i)%nat with (length b + 64 * i)%nat by lia. by rewrite <- drop_drop, drop_app_length.
Qed.

Lemma absorb_blocks k : forall l H,
  length l = (64 * k)%nat -> foldl absorb (H, []) l = (foldl Fips.compress H (Fips.blocks l), []).
Proof.
  induction k as [|k IH]; intros l H Hl.
  - destruct l; [done|simpl in Hl; lia].
  - rewrite <- (take_drop 64 l). set (b := take 64 l).
    assert (Hb : length b = 64%nat) by (unfold b; rewrite length_take; lia).
    rewrite foldl_app, absorb_block, blocks_cons by done. simpl.
    apply IH. rewrite length_drop. lia.
Qed.

Lemma absorb_pending l H : length (snd (foldl absorb (H, []) l)) = (length l mod 64)%nat.
Proof.
  pose proof (Nat.div_mod_eq (length l) 64) as Hd.
  pose proof (Nat.mod_upper_bound (length l) 64 ltac:(lia)).
  rewrite <- (take_drop (64 * (length l / 64)) l) at 1. rewrite foldl_app.
  rewrite (absorb_blocks (length l / 64)) by (rewrite length_take; lia).
  rewrite absorb_partial by (rewrite length_drop; cbn [length]; lia). cbn [snd app].
  rewrite length_drop. lia.
Qed.

(** ** Finishing *)

(** The padding loop stops: it feeds exactly the zeros up to position 56. *)
Lemma sha_pad_zeros fuel ctx st n (len := Z.of_nat (length (snd st))) :
  rep ctx st n -> (56 - len) mod 64 <= Z.of_nat fuel ->
  sha_pad fuel ctx = foldl sha_byte ctx (replicate (Z.to_nat ((56 - len) mod 64)) 0).
Proof.
  revert ctx st n len; induction fuel as [|fuel IH]; intros ctx st n len Hr Hf.
  { replace ((56 - len) mod 64) with 0 by dm_lia. done. }
  pose proof (rep_len _ _ _ Hr) as Hlen. pose proof (rep_buf _ _ _ Hr) as [Hbl _]. fold len in Hlen.
  cbn [sha_pad]. rewrite Hlen. destruct (Z.eqb_spec len 56) as [->|Hne]; [done|].
  set (len' := Z.of_nat (length (snd (absorb st 0)))).
  assert (Hstep : (56 - len) mod 64 = (56 - len') mod 64 + 1).
  { unfold len', absorb. rewrite length_app. cbn [length].
    destruct (Nat.eqb_spec (length (snd st) + 1) 64); cbn [snd length];
      rewrite ?length_app; cbn [length]; unfold len in *; dm_lia. }
  assert (H0 : is_byte 0) by (unfold is_byte; lia).
  rewrite Hstep, Z2Nat.inj_add, Nat.add_comm by (lia || (apply Z.mod_pos_bound; lia)).
  unfold SHA1_Update. simpl. apply (IH _ _ (n + 1)); [by apply sha_byte_rep|]. fold len'. lia.
Qed.

Lemma padlen_be hi lo :
  word32 hi -> word32 lo ->
  [Z.land (Z.shiftr hi 24) 255; Z.land (Z.shiftr hi 16) 255;
   Z.land (Z.shiftr hi 8) 255; Z.land (Z.shiftr hi 0) 255;
   Z.land (Z.shiftr lo 24) 255; Z.land (Z.shiftr lo 16) 255;
   Z.land (Z.shiftr lo 8) 255; Z.land (Z.shiftr lo 0) 255]
  = be_encode 8 (hi * 2 ^ 32 + lo).
Proof.
  intros Hhi Hlo. unfold word32 in *.
  change (be_encode 8 (hi * 2 ^ 32 + lo)) with (be_encode (4 + 4) (hi * 2 ^ 32 + lo)).
  rewrite be_encode_app. change (256 ^ Z.of_nat 4) with (2 ^ 32).
  rewrite Z.div_add_l, (Z.div_small lo), Z.add_0_r by lia.
  rewrite <- (be_encode_mod 4 (hi * 2 ^ 32 + lo)). change (256 ^ Z.of_nat 4) with (2 ^ 32).
  rewrite Z.add_comm, Z.mod_add, (Z.mod_small lo) by lia.
  change 255 with (Z.ones 8). rewrite !Z.land_ones, !Z.shiftr_div_pow2 by lia.
  simpl. rewrite !Z.div_1_r, !Z.div_div by lia. done.
Qed.

Lemma word_out z :
  word32 z ->
  [(z / 2 ^ 24) mod 2 ^ 8; ((z * 2 ^ 8) mod 2 ^ 32 / 2 ^ 24) mod 2 ^ 8;
   (((z * 2 ^ 8) mod 2 ^ 32 * 2 ^ 8) mod 2 ^ 32 / 2 ^ 24) mod 2 ^ 8;
   ((((z * 2 ^ 8) mod 2 ^ 32 * 2 ^ 8) mod 2 ^ 32 * 2 ^ 8) mod 2 ^ 32 / 2 ^ 24) mod 2 ^ 8]
  = be_encode 4 z.
Proof.
  intros Hz. unfold word32 in Hz. cbn -[Z.div Z.modulo Z.pow].
  rewrite !(Z.mul_mod_idemp_l _ (2 ^ 8) (2 ^ 32)), <- !Z.mul_assoc, <- !Z.pow_add_r, !Z.div_div by lia.
  do 4 (apply (f_equal2 cons); [first [reflexivity | dm_lia]|]). reflexivity.
Qed.

(** Four iterations emit one word and leave the others alone. *)
Lemma sha_out_word out H j :
  (j < length H)%nat -> word32 (H !!! j) ->
  exists x, foldl sha_out (out, H) (seq (4 * j) 4) = (out ++ be_encode 4 (H !!! j), <[j := x]> H).
Proof.
  intros Hj Hw. set (w := H !!! j) in *.
  assert (Hdiv : forall k, (k < 4)%nat -> ((k + 4 * j) / 4 = j)%nat)
    by (intros; symmetry; apply (Nat.div_unique _ 4 j k); lia).
  pose proof (Hdiv 0%nat ltac:(lia)) as D0. pose proof (Hdiv 1%nat ltac:(lia)) as D1.
  pose proof (Hdiv 2%nat ltac:(lia)) as D2. pose proof (Hdiv 3%nat ltac:(lia)) as D3.
  cbn [seq]. unfold sha_out. cbn [foldl].
  change (S (4 * j)) with (1 + 4 * j)%nat. change (S (1 + 4 * j)) with (2 + 4 * j)%nat.
  change (S (2 + 4 * j)) with (3 + 4 * j)%nat. change (4 * j / 4)%nat with ((0 + 4 * j) / 4)%nat.
  rewrite D0, D1, D2, D3. clear Hdiv D0 D1 D2 D3.
  rewrite !list_lookup_total_insert_eq by (by rewrite ?length_insert).
  rewrite !list_insert_insert_eq. eexists. f_equal. rewrite <- !app_assoc. f_equal.
  fold w. unfold u8, u32. rewrite !Z.shiftl_mul_pow2, !Z.shiftr_div_pow2 by lia.
  by rewrite <- word_out.
Qed.

Lemma sha_out_words H j :
  Forall word32 H -> (j <= length H)%nat ->
  exists H', foldl sha_out ([], H) (seq 0 (4 * j)) = (concat (map (be_encode 4) (take j H)), H') /\
    length H' = length H /\ forall i, (j <= i)%nat -> H' !!! i = H !!! i.
Proof.
  intros HF. induction j as [|j IH]; intros Hj; [by exists H|].
  destruct IH as (H' & E & HL & Heq); [lia|].
  replace (4 * S j)%nat with (4 * j + 4)%nat by lia.
  rewrite seq_app, foldl_app, E, Nat.add_0_l.
  destruct (sha_out_word (concat (map (be_encode 4) (take j H))) H' j) as [x ->]; [lia| |].
  { rewrite Heq by lia. by apply word32_lookup. }
  exists (<[j := x]> H'). split_and!.
  - f_equal. rewrite Heq, (take_S_r H j (H !!! j)) by (lia || by apply list_lookup_lookup_total_lt).
    rewrite map_app, concat_app. cbn [map concat]. by rewrite app_nil_r.
  - by rewrite length_insert.
  - intros i Hi. rewrite list_lookup_total_insert_ne by lia. apply Heq. lia.
Qed.

Lemma sha_out_digest H :
  Forall word32 H -> length H = 5%nat ->
  fst (foldl sha_out ([], H) (seq 0 20)) = concat (map (be_encode 4) H).
Proof.
  intros HF HL. destruct (sha_out_words H 5 HF ltac:(lia)) as (H' & E & _).
  change (4 * 5)%nat with 20%nat in E. rewrite E, take_ge by lia. done.
Qed.

Lemma pad_blocks m : exists k, length (Fips.pad m) = (64 * k)%nat.
Proof.
  unfold Fips.pad. rewrite !length_app, length_replicate, length_be_encode. cbn [length].
  set (j := Z.to_nat ((55 - Z.of_nat (length m)) mod 64)).
  assert (Hj : (Z.of_nat (length m) + 9 + Z.of_nat j) mod 64 = 0) by (unfold j; dm_lia).
  apply Z.mod_divide in Hj as [q Hq]; [|lia]. exists (Z.to_nat q). lia.
Qed.

Lemma pad_bytes_ok m : bytes_ok m -> bytes_ok (Fips.pad m).
Proof.
  intros Hm. unfold Fips.pad. apply bytes_ok_app_2; [done|].
  apply bytes_ok_app_2; [apply bytes_ok_single; unfold is_byte; lia|].
  apply bytes_ok_app_2; [|apply be_encode_bytes_ok].
  apply Forall_replicate. unfold is_byte. lia.
Qed.

Lemma SHA1_Final_stream m :
  bytes_ok m ->
  SHA1_Final (foldl sha_byte SHA1_Init m) = (Fips.sha1 m, SHA1_Init).
Proof.
  intros Hm. set (ctx := foldl sha_byte SHA1_Init m).
  pose proof (sha_bytes_rep m _ _ _ rep_init Hm) as Hr. fold ctx in Hr. rewrite Z.add_0_l in Hr.
  assert (H128 : bytes_ok [128]) by (apply bytes_ok_single; unfold is_byte; lia).
  pose proof (sha_bytes_rep [128] _ _ _ Hr H128) as Hr1.
  unfold SHA1_Final. cbv zeta.
  rewrite padlen_be by (apply (rep_hi _ _ _ Hr) || apply (rep_lo _ _ _ Hr)).
  rewrite (rep_size _ _ _ Hr). change (2 ^ 64) with (256 ^ Z.of_nat 8). rewrite be_encode_mod.
  change (SHA1_Update ctx [128] 1) with (foldl sha_byte ctx [128]).
  rewrite (sha_pad_zeros 64 _ _ _ Hr1).
  2:{ pose proof (Z.mod_pos_bound (56 - Z.of_nat (length (snd (foldl absorb (foldl absorb (Fips.H0, []) m) [128])))) 64).
      lia. }
  rewrite <- !foldl_app, absorb_pending.
  assert (Hz : (56 - Z.of_nat (length (m ++ [128]) mod 64)) mod 64 = (55 - Z.of_nat (length m)) mod 64).
  { rewrite length_app, Nat2Z.inj_mod, Nat2Z.inj_add. simpl. dm_lia. }
  rewrite Hz. unfold SHA1_Update. rewrite take_ge by (by rewrite length_be_encode).
  unfold ctx. rewrite <- !foldl_app, <- app_assoc.
  fold (Fips.pad m). destruct (pad_blocks m) as [k Hk].
  pose proof (sha_bytes_rep _ _ _ _ rep_init (pad_bytes_ok m Hm)) as Hrp.
  rewrite (absorb_blocks k) in Hrp by done.
  pose proof (rep_Hw _ _ _ Hrp) as [HF HL]. rewrite (rep_H _ _ _ Hrp). cbn [fst] in *.
  pose proof (sha_out_digest _ HF HL) as Hout. unfold Fips.sha1.
  destruct (foldl sha_out _ _) as [hashout H']. cbn [fst] in Hout. by rewrite Hout.
Qed.

Lemma SHA1_Update_all ctx data :
  Z.of_nat (length data) < 2 ^ 31 ->
  SHA1_Update ctx data (Z.of_nat (length data)) = foldl sha_byte ctx data.
Proof.
  intros Hl. unfold SHA1_Update. rewrite i32_small by lia. by rewrite take_ge by lia.
Qed.

(** Feeding pieces is feeding their concatenation. *)
Definition sha1_feed (ctx : SHA_CTX) (chunks : list bytes) : SHA_CTX :=
  foldl (fun c d => SHA1_Update c d (Z.of_nat (length d))) ctx chunks.

Lemma sha1_feed_concat ctx chunks :
  Forall (fun d => Z.of_nat (length d) < 2 ^ 31) chunks ->
  sha1_feed ctx chunks = foldl sha_byte ctx (concat chunks).
Proof.
  unfold sha1_feed. revert ctx; induction chunks as [|d chunks IH]; intros ctx Hf; [done|].
  apply Forall_cons in Hf as [Hd Hf]. cbn [foldl concat].
  by rewrite SHA1_Update_all, IH, foldl_app by done.
Qed.

(** C27. feeding a message to the incremental SHA-1 in any pieces that an
    [int] length can describe, and finishing, gives the digest that FIPS 180
    defines for the whole message, and leaves the context re-initialised. *)
Theorem sha1_refines_fips (chunks : list bytes) :
  Forall (fun d => bytes_ok d /\ Z.of_nat (length d) < 2 ^ 31) chunks ->
  SHA1_Final (foldl (fun c d => SHA1_Update c d (Z.of_nat (length d))) SHA1_Init chunks)
    = (Fips.sha1 (concat chunks), SHA1_Init).
Proof.
  intros Hf. fold (sha1_feed SHA1_Init chunks). rewrite sha1_feed_concat.
  - apply SHA1_Final_stream. apply Forall_concat. eapply Forall_impl; [exact Hf|]. by intros d [? _].
  - eapply Forall_impl; [exact Hf|]. by intros d [_ ?].
Qed.

Lemma sha1_refines_fips_witness :
  Forall (fun d => bytes_ok d /\ Z.of_nat (length d) < 2 ^ 31) [str "a"; []; str "bc"] /\
  SHA1_Final (foldl (fun c d => SHA1_Update c d (Z.of_nat (length d))) SHA1_Init [str "a"; []; str "bc"])
    = (Fips.sha1 (concat [str "a"; []; str "bc"]), SHA1_Init).
Proof.
  assert (H : Forall (fun d => bytes_ok d /\ Z.of_nat (length d) < 2 ^ 31) [str "a"; []; str "bc"])
    by (repeat (constructor; [split; [apply str_bytes_ok || constructor | cbn; lia]|]); constructor).
  split; [exact H|]. exact (sha1_refines_fips _ H).
Defined.

(** The digest of one buffer, for the components that hash whole buffers. *)
Lemma sha1_of_fips data :
  bytes_ok data -> Z.of_nat (length data) < 2 ^ 31 -> sha1_of data = Fips.sha1 data.
Proof.
  intros. unfold sha1_of. rewrite SHA1_Update_all by done. by rewrite SHA1_Final_stream.
Qed.

Lemma length_fips_sha1 m : bytes_ok m -> length (Fips.sha1 m) = 20%nat.
Proof.
  intros Hm. destruct (pad_blocks m) as [k Hk].
  pose proof (sha_bytes_rep _ _ _ _ rep_init (pad_bytes_ok m Hm)) as Hrp.
  rewrite (absorb_blocks k) in Hrp by done. pose proof (rep_Hw _ _ _ Hrp) as [_ HL].
  unfold Fips.sha1. cbn [fst] in HL.
  destruct (foldl Fips.compress Fips.H0 (Fips.blocks (Fips.pad m))) as [|a [|b [|c [|d [|e [|]]]]]];
    try discriminate HL. cbn [map concat]. by rewrite !length_app, !length_be_encode.
Qed.

Lemma fips_sha1_ok m : bytes_ok (Fips.sha1 m).
Proof. unfold Fips.sha1. apply Forall_concat, Forall_fmap, Forall_true. intros w. apply be_encode_bytes_ok. Qed.
