(* ===== verification/Hex.v ===== *)
(** * Object names as text (sha1_file.c)

    [hexval], [get_sha1_hex], [sha1_to_hex], [fill_sha1_path] and
    [sha1_file_name]: the conversions between 20-byte object names, their 40
    hexadecimal digits and the loose-object path [<dir>/xx/yyyy...].  A buffer
    argument is the list of the bytes from the pointer to the end of the
    object it points into, so that a read past it is [Ub]. *)

From stdpp Require Import base list numbers strings.
From Stdlib Require Import ZArith Lia.
From S2P Require Import Prelude.

(** ** The C code *)

(** [~0] for a character that is no digit. *)
Definition hexval (c : Z) : Z :=
  if (48 <=? c) && (c <=? 57) then c - 48
  else if (97 <=? c) && (c <=? 102) then c - 97 + 10
  else if (65 <=? c) && (c <=? 70) then c - 65 + 10
  else 2 ^ 32 - 1.

(** [n] iterations of the loop; the result is the return value and the bytes
    stored through [sha1] (also on failure). *)
Fixpoint get_sha1_hex_loop (n : nat) (hex : bytes) (sha1 : bytes) : outcome (Z * bytes) :=
  match n with
  | O => Ret (0, sha1)
  | S n =>
      match hex with
      | h0 :: h1 :: rest =>
          let val := Z.lor (u32 (Z.shiftl (hexval h0) 4)) (hexval h1) in
          if Z.land val (Z.lxor 0xff (2 ^ 32 - 1)) =? 0
          then get_sha1_hex_loop n rest (sha1 ++ [u8 val])
          else Ret (-1, sha1)
      | _ => Ub
      end
  end.

Definition get_sha1_hex (hex : bytes) : outcome (Z * bytes) := get_sha1_hex_loop 20 hex [].

(** [static const char hex[] = "0123456789abcdef";] *)
Definition hexchar (v : Z) : Z := str "0123456789abcdef" !!! Z.to_nat v.

Definition sha1_to_hex (sha1 : bytes) : bytes :=
  flat_map (fun val => [hexchar (Z.shiftr val 4); hexchar (Z.land val 0xf)]) (take 20 sha1).

(** One iteration of [fill_sha1_path]: two characters at [i*2 + (i > 0)]. *)
Definition fill_sha1_path_step (sha1 : bytes) (pathbuf : bytes) (i : nat) : bytes :=
  let val := sha1 !!! i in
  let pos := (i * 2 + (if (0 <? i)%nat then 1 else 0))%nat in
  <[(pos + 1)%nat := hexchar (Z.land val 0xf)]> (<[pos := hexchar (Z.shiftr val 4)]> pathbuf).

Definition fill_sha1_path (pathbuf sha1 : bytes) : bytes :=
  foldl (fill_sha1_path_step sha1) pathbuf (seq 0 20).

(** The static buffer [base] as the first call sets it up for the object
    directory [dir], with the name filled in from [base + len + 1]. *)
Definition sha1_file_name_base (dir : bytes) : bytes :=
  let base := dir ++ replicate 60 0 in
  <[(length dir + 3)%nat := 47]> (<[length dir := 47]> base).

Definition sha1_file_name (dir sha1 : bytes) : bytes :=
  let base := sha1_file_name_base dir in
  let len := length dir in
  take (len + 1) base ++ fill_sha1_path (drop (len + 1) base) sha1.

Example sha1_file_name_ex :
  sha1_file_name (str ".git/objects") (replicate 20 0xab) =
    str ".git/objects/ab/ababababababababababababababababababab" ++ replicate 18 0.
Proof. vm_compute. reflexivity. Qed.

(** ** Digits *)

Definition is_hexdigit (c : Z) : bool := hexval c <? 16.

Definition tolower (c : Z) : Z := if (65 <=? c) && (c <=? 90) then c + 32 else c.

Lemma hexval_cases c : (0 <= hexval c < 16) \/ hexval c = 2 ^ 32 - 1.
Proof.
  unfold hexval. destruct (Z.leb_spec 48 c), (Z.leb_spec c 57), (Z.leb_spec 97 c), (Z.leb_spec c 102),
    (Z.leb_spec 65 c), (Z.leb_spec c 70); simpl; lia.
Qed.

Lemma is_hexdigit_range c : is_hexdigit c = true -> 48 <= c < 103.
Proof.
  unfold is_hexdigit, hexval.
  destruct (Z.leb_spec 48 c), (Z.leb_spec c 57); simpl; [lia| | |];
    destruct (Z.leb_spec 97 c), (Z.leb_spec c 102); simpl; try lia;
    destruct (Z.leb_spec 65 c), (Z.leb_spec c 70); simpl; lia || discriminate.
Qed.

Lemma hexchar_hexval c : is_hexdigit c = true -> hexchar (hexval c) = tolower c.
Proof.
  intros Hc. pose proof (is_hexdigit_range c Hc).
  pose proof (range_check (fun c => if is_hexdigit c then hexchar (hexval c) =? tolower c else true)
    48 55 ltac:(vm_compute; reflexivity) c ltac:(lia)) as Hk. simpl in Hk.
  rewrite Hc in Hk. by apply Z.eqb_eq.
Qed.

Lemma hexval_hexchar v : 0 <= v < 16 -> hexval (hexchar v) = v.
Proof. intros. apply Z.eqb_eq. revert v H. apply digit_check. vm_compute. reflexivity. Qed.

Lemma tolower_hexchar v : 0 <= v < 16 -> tolower (hexchar v) = hexchar v.
Proof. intros. apply Z.eqb_eq. revert v H. apply digit_check. vm_compute. reflexivity. Qed.

Lemma hexval_tolower c : is_hexdigit (tolower c) = true -> hexval c = hexval (tolower c).
Proof.
  intros Hd. pose proof (is_hexdigit_range _ Hd).
  assert (16 <= c < 103) by (unfold tolower in *; destruct ((65 <=? c) && (c <=? 90)); lia).
  pose proof (range_check (fun c => if is_hexdigit (tolower c) then hexval c =? hexval (tolower c) else true)
    16 87 ltac:(vm_compute; reflexivity) c ltac:(lia)) as Hk. simpl in Hk.
  rewrite Hd in Hk. by apply Z.eqb_eq.
Qed.

Lemma hexchar_digit v : 0 <= v < 16 -> is_hexdigit (hexchar v) = true.
Proof. intros. unfold is_hexdigit. rewrite hexval_hexchar by done. apply Z.ltb_lt. lia. Qed.

(** ** Pairs of digits *)

Definition hex_pair (v0 v1 : Z) : Z := Z.lor (u32 (Z.shiftl v0 4)) v1.
Definition hex_pair_bad (v0 v1 : Z) : bool :=
  negb (Z.land (hex_pair v0 v1) (Z.lxor 0xff (2 ^ 32 - 1)) =? 0).

Definition digit_values : list Z := seqZ 0 16 ++ [2 ^ 32 - 1].

Lemma pair_table :
  forallb (fun v0 => forallb (fun v1 =>
    Bool.eqb (hex_pair_bad v0 v1) (negb ((v0 <? 16) && (v1 <? 16))) &&
    (if (v0 <? 16) && (v1 <? 16) then u8 (hex_pair v0 v1) =? 16 * v0 + v1 else true))
    digit_values) digit_values = true.
Proof. vm_compute. reflexivity. Qed.

Lemma hexval_in_table c : hexval c ∈ digit_values.
Proof.
  unfold digit_values. rewrite elem_of_app, elem_of_seqZ, list_elem_of_singleton.
  destruct (hexval_cases c); [left|right]; lia.
Qed.

Lemma hex_pair_spec h0 h1 :
  hex_pair_bad (hexval h0) (hexval h1) = negb (is_hexdigit h0 && is_hexdigit h1) /\
  (is_hexdigit h0 && is_hexdigit h1 = true ->
   u8 (hex_pair (hexval h0) (hexval h1)) = 16 * hexval h0 + hexval h1).
Proof.
  pose proof pair_table as H. rewrite forallb_forall in H.
  specialize (H (hexval h0)). rewrite forallb_forall in H.
  specialize (H ltac:(apply list_elem_of_In, hexval_in_table) (hexval h1)
                ltac:(apply list_elem_of_In, hexval_in_table)).
  apply andb_prop in H as [H1 H2]. apply eqb_prop in H1. split; [done|].
  unfold is_hexdigit in *. intros E. rewrite E in H2. by apply Z.eqb_eq in H2.
Qed.

(** The two characters of a byte. *)
Definition nibbles (val : Z) : bytes := [hexchar (Z.shiftr val 4); hexchar (Z.land val 0xf)].

Lemma nibbles_digits v0 v1 :
  0 <= v0 < 16 -> 0 <= v1 < 16 -> nibbles (16 * v0 + v1) = [hexchar v0; hexchar v1].
Proof.
  intros. unfold nibbles. rewrite Z.shiftr_div_pow2 by lia. change 0xf with (Z.ones 4).
  rewrite Z.land_ones by lia. repeat f_equal; dm_lia.
Qed.

Lemma nibbles_split b : is_byte b -> exists v0 v1,
  0 <= v0 < 16 /\ 0 <= v1 < 16 /\ b = 16 * v0 + v1.
Proof. intros Hb. unfold is_byte in Hb. exists (b / 16), (b mod 16). dm_lia. Qed.

Lemma is_hexdigit_val h : is_hexdigit h = true -> 0 <= hexval h < 16.
Proof. unfold is_hexdigit. intros H%Z.ltb_lt. destruct (hexval_cases h); lia. Qed.

Lemma hexdigit_of_lower h v : 0 <= v < 16 -> tolower h = hexchar v -> is_hexdigit h = true /\ hexval h = v.
Proof.
  intros Hv Hl. pose proof (hexchar_digit v Hv) as Hd. rewrite <- Hl in Hd.
  pose proof (hexval_tolower h Hd) as E. unfold is_hexdigit in *. rewrite <- E in Hd. split; [done|].
  by rewrite E, Hl, hexval_hexchar.
Qed.

Lemma get_sha1_hex_loop_spec n hex acc s :
  get_sha1_hex_loop n hex acc = Ret (0, s) <->
  exists t d rest, s = acc ++ t /\ length t = n /\ bytes_ok t /\
    hex = d ++ rest /\ map tolower d = flat_map nibbles t.
Proof.
  revert hex acc; induction n as [|n IH]; intros hex acc; cbn [get_sha1_hex_loop].
  { split.
    - intros [= <-]. exists [], [], hex. rewrite app_nil_r. repeat split; auto with bytes.
    - intros (t&d&rest&->&Ht&_&_&_). destruct t; [by rewrite app_nil_r|done]. }
  split.
  - destruct hex as [|h0 [|h1 hex]]; try done.
    destruct (hex_pair_spec h0 h1) as [Hb Hv]. unfold hex_pair_bad, hex_pair in *.
    destruct (_ =? 0); [|done]. simpl in Hb. symmetry in Hb. apply negb_false_iff in Hb.
    rewrite Hv by done. apply andb_prop in Hb as [H0 H1].
    pose proof (is_hexdigit_val _ H0). pose proof (is_hexdigit_val _ H1).
    rewrite IH. intros (t&d&rest&->&Ht&Hok&->&Hd).
    exists (16 * hexval h0 + hexval h1 :: t), (h0 :: h1 :: d), rest. repeat split.
    + by rewrite <- app_assoc.
    + simpl; lia.
    + apply bytes_ok_cons. split; [unfold is_byte; lia|done].
    + cbn [map flat_map]. rewrite nibbles_digits, !hexchar_hexval, Hd by done. done.
  - intros (t&d&rest&->&Ht&Hok&->&Hd). destruct t as [|b t]; [done|].
    apply bytes_ok_cons in Hok as [Hb Hok]. destruct (nibbles_split b Hb) as (v0&v1&Hv0&Hv1&->).
    cbn [flat_map] in Hd. rewrite nibbles_digits in Hd by done.
    destruct d as [|h0 [|h1 d]]; try discriminate Hd. cbn [map app] in Hd. injection Hd as E0 E1 Hd.
    apply hexdigit_of_lower in E0 as [D0 E0], E1 as [D1 E1]; [|done..]. cbn [app].
    destruct (hex_pair_spec h0 h1) as [Hp Hv]. unfold hex_pair_bad, hex_pair in *.
    rewrite D0, D1 in *. simpl in Hp. apply negb_false_iff in Hp. rewrite Hp, Hv, E0, E1 by done.
    apply IH. exists t, d, rest. rewrite <- app_assoc. auto.
Qed.

(** [get_sha1_hex] succeeds exactly when the text starts with forty
    hexadecimal digits of either case, and then stores the name whose
    [sha1_to_hex] is those digits in lower case; in particular it reads back
    what [sha1_to_hex] prints. *)
Theorem get_sha1_hex_spec (hex s : bytes) :
  get_sha1_hex hex = Ret (0, s) <->
  exists digits rest, hex = digits ++ rest /\ length s = 20%nat /\ bytes_ok s /\
    map tolower digits = sha1_to_hex s.
Proof.
  unfold get_sha1_hex, sha1_to_hex. rewrite get_sha1_hex_loop_spec. split.
  - intros (t&d&rest&->&Ht&Hok&->&Hd). exists d, rest. cbn [app]. by rewrite take_ge by lia.
  - intros (d&rest&->&Hl&Hok&Hd). exists s, d, rest. rewrite take_ge in Hd by lia. done.
Qed.

(** Forty characters are enough, whatever they are. *)
Lemma get_sha1_hex_loop_total n hex acc :
  (2 * n <= length hex)%nat -> exists r s, get_sha1_hex_loop n hex acc = Ret (r, s) /\ (r = 0 -> length s = (n + length acc)%nat).
Proof.
  revert hex acc; induction n as [|n IH]; intros hex acc Hl; cbn [get_sha1_hex_loop]; [by exists 0, acc|].
  destruct hex as [|h0 [|h1 hex]]; simpl in Hl; [lia..|]. destruct (_ =? 0); [|by exists (-1), acc].
  destruct (IH hex (acc ++ [u8 (Z.lor (u32 (Z.shiftl (hexval h0) 4)) (hexval h1))])) as (r&s&E&Hs); [lia|].
  exists r, s. split; [done|]. intros Hr. rewrite (Hs Hr), length_app. simpl. lia.
Qed.

Lemma get_sha1_hex_total hex : (40 <= length hex)%nat -> exists r s, get_sha1_hex hex = Ret (r, s) /\ (r = 0 -> length s = 20%nat).
Proof. intros Hl. destruct (get_sha1_hex_loop_total 20 hex []) as (r&s&E&Hs); [lia|]. exists r, s. by rewrite Nat.add_0_r in Hs. Qed.

(** Reading back a printed name. *)
Lemma map_tolower_nibbles t : bytes_ok t -> map tolower (flat_map nibbles t) = flat_map nibbles t.
Proof.
  induction t as [|b t IH]; intros Ht; [done|]. apply bytes_ok_cons in Ht as [Hb Ht].
  destruct (nibbles_split b Hb) as (v0&v1&Hv0&Hv1&->). cbn [flat_map].
  by rewrite map_app, IH, nibbles_digits, !map_cons, !tolower_hexchar by done.
Qed.

Lemma get_sha1_hex_roundtrip s rest :
  length s = 20%nat -> bytes_ok s -> get_sha1_hex (sha1_to_hex s ++ rest) = Ret (0, s).
Proof.
  intros Hl Hok. unfold get_sha1_hex, sha1_to_hex. rewrite take_ge by lia.
  apply get_sha1_hex_loop_spec. exists s, (flat_map nibbles s), rest.
  repeat split; auto. by apply map_tolower_nibbles.
Qed.

Lemma length_sha1_to_hex s : length s = 20%nat -> length (sha1_to_hex s) = 40%nat.
Proof.
  intros Hl. unfold sha1_to_hex. rewrite take_ge by lia.
  transitivity (2 * length s)%nat; [|lia]. clear Hl. induction s as [|b s IH]; [done|].
  cbn [flat_map]. rewrite length_app, IH. simpl. lia.
Qed.

(** ** Loose-object paths *)

Lemma fill_sha1_path_layout s :
  length s = 20%nat ->
  fill_sha1_path ([0; 0; 47] ++ replicate 56 0) s =
    take 2 (sha1_to_hex s) ++ [47] ++ drop 2 (sha1_to_hex s) ++ replicate 18 0.
Proof.
  intros Hl. do 21 (destruct s as [|? s]; try discriminate Hl). clear Hl.
  cbv -[hexchar Z.land Z.shiftr]. reflexivity.
Qed.

Lemma sha1_file_name_base_split dir :
  take (length dir + 1) (sha1_file_name_base dir) = dir ++ [47] /\
  drop (length dir + 1) (sha1_file_name_base dir) = [0; 0; 47] ++ replicate 56 0.
Proof.
  assert (E : sha1_file_name_base dir = dir ++ [47; 0; 0; 47] ++ replicate 56 0).
  { unfold sha1_file_name_base. rewrite (insert_app_r_alt _ _ (length dir)), Nat.sub_diag by lia.
    by rewrite insert_app_r. }
  rewrite E, take_app_add, drop_app_add. split; reflexivity.
Qed.

Lemma sha1_file_name_layout dir s :
  length s = 20%nat ->
  sha1_file_name dir s =
    dir ++ [47] ++ take 2 (sha1_to_hex s) ++ [47] ++ drop 2 (sha1_to_hex s) ++ replicate 18 0.
Proof.
  intros Hl. unfold sha1_file_name. destruct (sha1_file_name_base_split dir) as [-> ->].
  by rewrite fill_sha1_path_layout, <- app_assoc by done.
Qed.

Lemma sha1_to_hex_inj s1 s2 :
  length s1 = 20%nat -> bytes_ok s1 -> length s2 = 20%nat -> bytes_ok s2 ->
  sha1_to_hex s1 = sha1_to_hex s2 -> s1 = s2.
Proof.
  intros L1 B1 L2 B2 E. pose proof (get_sha1_hex_roundtrip s1 [] L1 B1) as R1.
  rewrite E, get_sha1_hex_roundtrip in R1 by done. congruence.
Qed.

(** the file of an object below the object directory is
    [dir/xx/yyyy...] with the 40 digits of its name split after the second,
    and two different names never share a file. *)
Theorem sha1_file_name_spec (dir s : bytes) :
  length s = 20%nat -> bytes_ok s ->
  sha1_file_name dir s =
    dir ++ [47] ++ take 2 (sha1_to_hex s) ++ [47] ++ drop 2 (sha1_to_hex s) ++ replicate 18 0 /\
  (forall s', length s' = 20%nat -> bytes_ok s' ->
     sha1_file_name dir s' = sha1_file_name dir s -> s' = s).
Proof.
  intros Hl Hok. split; [by apply sha1_file_name_layout|].
  intros s' Hl' Hok' E. rewrite !sha1_file_name_layout in E by done.
  pose proof (length_sha1_to_hex s Hl). pose proof (length_sha1_to_hex s' Hl').
  apply app_inv_head in E. apply app_inv_head in E.
  apply app_inj_1 in E as [E1 E]; [|rewrite !length_take; lia].
  apply app_inv_head in E. apply app_inv_tail in E.
  apply sha1_to_hex_inj; try done. by rewrite <- (take_drop 2 (sha1_to_hex s')), E1, E, take_drop.
Qed.

Lemma sha1_file_name_spec_witness :
  sha1_file_name (str "o") (replicate 20 0xab) =
    str "o" ++ [47] ++ str "ab" ++ [47] ++ str "ababababababababababababababababababab" ++ replicate 18 0.
Proof.
  destruct (sha1_file_name_spec (str "o") (replicate 20 0xab)) as [E _];
    [reflexivity | vm_compute; repeat constructor; discriminate | ].
  exact E.
Defined.
