(* ===== verification/PktLine.v ===== *)
(** * The packetized line protocol (pkt-line.c)

    [packet_write], [packet_flush] and [packet_read_line] with the loops
    [safe_write] and [safe_read] around [write(2)] and [read(2)].  What the
    kernel does is an explicit schedule: the list of the results of the
    successive system calls.  A loop whose schedule ends before it is done
    yields [None] (it is still waiting), so that no theorem below is about a
    loop that silently stopped.

    The file descriptor of the writer is the list of bytes written so far,
    the one of the reader the list of bytes still to arrive. *)

From stdpp Require Import base list numbers strings.
From Stdlib Require Import ZArith Lia.
From S2P Require Import Prelude Hex.

(** ** System calls *)

(** [write] takes [k+1] bytes (at most what was asked), takes none, is
    interrupted ([EINTR], [EAGAIN]) or fails. *)
Inductive wr := WOk (k : nat) | WZero | WIntr | WErr.

(** [read] delivers at most [k+1] bytes, none at end of file; or it is
    interrupted; or it fails. *)
Inductive rdc := ROk (k : nat) | RIntr | RErr.

#[export] Instance wr_eq_dec : EqDecision wr.
Proof. solve_decision. Defined.
#[export] Instance rdc_eq_dec : EqDecision rdc.
Proof. solve_decision. Defined.

(** ** The C code *)

(** [safe_write(fd, buf, n)]: [out] is what [fd] has received. *)
Fixpoint safe_write (ws : list wr) (buf out : bytes) : option (outcome (bytes * list wr)) :=
  match buf with
  | [] => Some (Ret (out, ws))
  | _ =>
      match ws with
      | [] => None
      | WOk k :: ws =>
          let ret := (S k `min` length buf)%nat in
          safe_write ws (drop ret buf) (out ++ take ret buf)
      | WZero :: _ => Some Die
      | WIntr :: ws => safe_write ws buf out
      | WErr :: _ => Some Die
      end
  end.

Definition packet_flush (ws : list wr) (out : bytes) : option (outcome (bytes * list wr)) :=
  safe_write ws (str "0000") out.

(** [#define hex(a) (hexchar[(a) & 15])] *)
Definition pkt_hex (a : Z) : Z := str "0123456789abcdef" !!! Z.to_nat (Z.land a 15).

(** [line] is what [vsnprintf] formats, [buffer] has 1000 bytes. *)
Definition packet_write (ws : list wr) (line out : bytes) : option (outcome (bytes * list wr)) :=
  let n := Z.of_nat (length line) in
  if 1000 - 4 <=? n then Some Die
  else
    let n := n + 4 in
    let buffer := [pkt_hex (Z.shiftr n 12); pkt_hex (Z.shiftr n 8); pkt_hex (Z.shiftr n 4); pkt_hex n]
                    ++ line in
    safe_write ws buffer out.

(** [safe_read(fd, buffer, size)]: [got] is what is already in the buffer. *)
Fixpoint safe_read (rs : list rdc) (inp : bytes) (size : nat) (got : bytes)
    : option (outcome (bytes * bytes * list rdc)) :=
  if (length got <? size)%nat then
    match rs with
    | [] => None
    | ROk k :: rs =>
        let ret := (S k `min` ((size - length got) `min` length inp))%nat in
        match ret with
        | O => Some Die
        | _ => safe_read rs (drop ret inp) size (got ++ take ret inp)
        end
    | RIntr :: rs => safe_read rs inp size got
    | RErr :: _ => Some Die
    end
  else Some (Ret (got, inp, rs)).

(** One iteration of the length loop: [None] is the [die]. *)
Definition pkt_digit (len : Z) (c : Z) : option Z :=
  let len := u32 (Z.shiftl len 4) in
  if (48 <=? c) && (c <=? 57) then Some (u32 (len + (c - 48)))
  else if (97 <=? c) && (c <=? 102) then Some (u32 (len + (c - 97 + 10)))
  else if (65 <=? c) && (c <=? 70) then Some (u32 (len + (c - 65 + 10)))
  else None.

Definition pkt_length (linelen : bytes) : option Z :=
  foldl (fun len c => len ≫= fun len => pkt_digit len c) (Some 0) linelen.

(** The result is the return value, what is stored in [buffer] (the line and
    its NUL), what is still to arrive and the rest of the schedule. *)
Definition packet_read_line (rs : list rdc) (inp : bytes) (size : Z)
    : option (outcome (Z * bytes * bytes * list rdc)) :=
  match safe_read rs inp 4 [] with
  | None => None
  | Some Die => Some Die
  | Some Ub => Some Ub
  | Some (Ret (linelen, inp, rs)) =>
      match pkt_length linelen with
      | None => Some Die
      | Some len =>
          if len =? 0 then Some (Ret (0, [], inp, rs))
          else
            let len := u32 (len - 4) in
            if size <=? len then Some Die
            else
              match safe_read rs inp (Z.to_nat len) [] with
              | None => None
              | Some Die => Some Die
              | Some Ub => Some Ub
              | Some (Ret (buffer, inp, rs)) => Some (Ret (len, buffer ++ [0], inp, rs))
              end
      end
  end.

(** The writer's and the reader's use of the protocol: the lines, a flush;
    read lines until one has length 0. *)
Fixpoint write_lines (ws : list wr) (lines : list bytes) (out : bytes)
    : option (outcome (bytes * list wr)) :=
  match lines with
  | [] => packet_flush ws out
  | line :: lines =>
      match packet_write ws line out with
      | Some (Ret (out, ws)) => write_lines ws lines out
      | r => r
      end
  end.

Fixpoint read_lines (fuel : nat) (rs : list rdc) (inp : bytes) (size : Z) (acc : list bytes)
    : option (outcome (list bytes * bytes * list rdc)) :=
  match fuel with
  | O => None
  | S fuel =>
      match packet_read_line rs inp size with
      | None => None
      | Some Die => Some Die
      | Some Ub => Some Ub
      | Some (Ret (len, line, inp, rs)) =>
          if len =? 0 then Some (Ret (acc, inp, rs))
          else read_lines fuel rs inp size (acc ++ [take (Z.to_nat len) line])
      end
  end.

Example pkt_ex :
  write_lines [WOk 2; WIntr; WOk 100; WOk 9; WOk 3] [str "have"; str "x"] [] =
    Some (Ret (str "0008have0005x0000", [])).
Proof. vm_compute. reflexivity. Qed.

Example pkt_ex_read :
  read_lines 5 (replicate 20 (ROk 1)) (str "0008have0005x0000PACK") 1000 [] =
    Some (Ret ([str "have"; str "x"], str "PACK", replicate 11 (ROk 1))).
Proof. vm_compute. reflexivity. Qed.

(** ** The writing loop *)

Lemma safe_write_all ws buf out r ws' :
  safe_write ws buf out = Some (Ret (r, ws')) -> r = out ++ buf.
Proof.
  revert buf out; induction ws as [|[k| | |] ws IH]; intros [|b buf] out; cbn [safe_write];
    try (intros [= <- <-]; by rewrite app_nil_r); try done.
  - intros H%IH. by rewrite H, <- app_assoc, take_drop.
  - apply IH.
Qed.

Lemma pkt_hex_hexchar a : pkt_hex a = hexchar (a mod 16).
Proof. unfold pkt_hex, hexchar. change 15 with (Z.ones 4). by rewrite Z.land_ones by lia. Qed.

Definition pkt_header (n : Z) : bytes :=
  [hexchar (n / 4096 mod 16); hexchar (n / 256 mod 16); hexchar (n / 16 mod 16); hexchar (n mod 16)].

Definition pkt_encode (line : bytes) : bytes :=
  pkt_header (Z.of_nat (length line) + 4) ++ line.

Lemma packet_write_encode ws line out r ws' :
  packet_write ws line out = Some (Ret (r, ws')) ->
  (length line < 996)%nat /\ r = out ++ pkt_encode line.
Proof.
  unfold packet_write. destruct (Z.leb_spec (1000 - 4) (Z.of_nat (length line))) as [H|H]; [done|].
  intros E%safe_write_all. split; [lia|]. subst r. f_equal. unfold pkt_encode, pkt_header.
  by rewrite !pkt_hex_hexchar, !Z.shiftr_div_pow2 by lia.
Qed.

Lemma write_lines_encode ws lines out r ws' :
  write_lines ws lines out = Some (Ret (r, ws')) ->
  Forall (fun l => (length l < 996)%nat) lines /\
  r = out ++ concat (map pkt_encode lines) ++ str "0000".
Proof.
  revert ws out; induction lines as [|line lines IH]; intros ws out; cbn [write_lines].
  - intros E%safe_write_all. by subst.
  - destruct (packet_write ws line out) as [[[out1 ws1]| |]|] eqn:E1; try done.
    apply packet_write_encode in E1 as [Hl ->].
    intros [HF ->]%IH. split; [by constructor|]. cbn [map concat]. by rewrite <- !app_assoc.
Qed.

(** ** The reading loop *)

Definition reads (rs : list rdc) : nat := length (filter (fun r => r <> RIntr) rs).

Lemma reads_cons r rs : reads (r :: rs) = ((if decide (r = RIntr) then 0 else 1) + reads rs)%nat.
Proof. unfold reads. rewrite filter_cons. destruct (decide (r = RIntr)), (decide (r <> RIntr)); done. Qed.

(** Without hard errors, and with a read per byte at the worst, the loop
    delivers exactly [size] bytes and leaves the rest of the stream alone. *)
Lemma safe_read_all rs inp size got :
  (RErr ∉ rs) -> (length got <= size)%nat -> (size - length got <= length inp)%nat ->
  (size - length got <= reads rs)%nat ->
  exists rs', safe_read rs inp size got =
      Some (Ret (got ++ take (size - length got) inp, drop (size - length got) inp, rs')) /\
    (RErr ∉ rs') /\ (reads rs - (size - length got) <= reads rs')%nat.
Proof.
  revert inp got; induction rs as [|r rs IH]; intros inp got Herr Hg Hinp Hr; cbn [safe_read].
  { change (reads []) with 0%nat in Hr. destruct (Nat.ltb_spec (length got) size); [lia|].
    replace (size - length got)%nat with 0%nat by lia. rewrite app_nil_r, drop_0. eauto. }
  destruct (Nat.ltb_spec (length got) size) as [Hlt|].
  2:{ replace (size - length got)%nat with 0%nat by lia. rewrite app_nil_r, drop_0.
      eexists. split; [done|]. split; [done|lia]. }
  apply not_elem_of_cons in Herr as [Hne Herr]. rewrite reads_cons in Hr |- *.
  destruct r as [k| |]; [| |done].
  - rewrite decide_False in Hr |- * by done.
    set (ret := (S k `min` ((size - length got) `min` length inp))%nat).
    assert (Hret : (1 <= ret <= size - length got)%nat /\ (ret <= length inp)%nat) by (unfold ret; lia).
    destruct ret as [|ret'] eqn:Eret; [lia|].
    assert (Hl : length (got ++ take (S ret') inp) = (length got + S ret')%nat).
    { rewrite length_app, length_take. lia. }
    destruct (IH (drop (S ret') inp) (got ++ take (S ret') inp)) as (rs'&E&He&Hrs);
      rewrite ?Hl, ?length_drop in *; [done|lia..|].
    exists rs'. rewrite E. split; [|split; [done|lia]].
    replace (size - length got)%nat with (S ret' + (size - (length got + S ret')))%nat by lia.
    by rewrite <- app_assoc, take_take_drop, drop_drop.
  - rewrite decide_True in Hr |- * by done. apply (IH inp got); done.
Qed.

(** A stream that ends too early kills the reader. *)
Lemma safe_read_eof rs inp size got :
  (length got + length inp < size)%nat -> (length inp < reads rs)%nat ->
  safe_read rs inp size got = Some Die.
Proof.
  revert inp got; induction rs as [|r rs IH]; intros inp got Hs Hr; cbn [safe_read].
  { change (reads []) with 0%nat in Hr. lia. }
  destruct (Nat.ltb_spec (length got) size); [|lia].
  rewrite reads_cons in Hr. destruct r as [k| |]; [| |done].
  - rewrite decide_False in Hr by done.
    destruct inp as [|b inp]; [by rewrite Nat.min_0_r, Nat.min_0_r|].
    set (ret := (S k `min` ((size - length got) `min` length (b :: inp)))%nat).
    assert (Hret : (1 <= ret <= length (b :: inp))%nat) by (unfold ret; cbn [length] in *; lia).
    destruct ret as [|ret'] eqn:E; [lia|]. apply IH.
    + rewrite length_app, length_take, length_drop. lia.
    + rewrite length_drop. lia.
  - rewrite decide_True in Hr by done. by apply IH.
Qed.

(** ** The length header *)

Lemma pkt_digit_hexval len c :
  0 <= len < 2 ^ 28 ->
  pkt_digit len c = if is_hexdigit c then Some (len * 16 + hexval c) else None.
Proof.
  intros Hl. assert (E : u32 (Z.shiftl len 4) = len * 16).
  { rewrite Z.shiftl_mul_pow2, u32_small by lia. lia. }
  unfold pkt_digit, is_hexdigit, hexval. rewrite E.
  destruct (Z.leb_spec 48 c), (Z.leb_spec c 57), (Z.leb_spec 97 c), (Z.leb_spec c 102),
    (Z.leb_spec 65 c), (Z.leb_spec c 70); simpl; try lia; rewrite ?u32_small by lia;
    try (destruct (Z.ltb_spec (c - 48) 16)); try (destruct (Z.ltb_spec (c - 97 + 10) 16));
    try (destruct (Z.ltb_spec (c - 65 + 10) 16)); try lia; done.
Qed.

(** The number four hexadecimal digits denote. *)
Definition hex4_value (h : bytes) : option Z :=
  if forallb is_hexdigit h then Some (foldl (fun v c => v * 16 + hexval c) 0 h) else None.

Lemma pkt_length_value h0 h1 h2 h3 :
  pkt_length [h0; h1; h2; h3] = hex4_value [h0; h1; h2; h3].
Proof.
  unfold pkt_length, hex4_value. cbn [foldl forallb]. simpl (Some 0 ≫= _).
  rewrite pkt_digit_hexval by lia. destruct (is_hexdigit h0) eqn:E0; [|done].
  pose proof (is_hexdigit_val h0 E0). simpl (Some _ ≫= _).
  rewrite pkt_digit_hexval by lia. destruct (is_hexdigit h1) eqn:E1; [|done].
  pose proof (is_hexdigit_val h1 E1). simpl (Some _ ≫= _).
  rewrite pkt_digit_hexval by lia. destruct (is_hexdigit h2) eqn:E2; [|done].
  pose proof (is_hexdigit_val h2 E2). simpl (Some _ ≫= _).
  rewrite pkt_digit_hexval by lia. by destruct (is_hexdigit h3) eqn:E3.
Qed.

Lemma hex4_value_range h v : length h = 4%nat -> hex4_value h = Some v -> 0 <= v < 65536.
Proof.
  intros Hl. unfold hex4_value. destruct (forallb _ h) eqn:E; [|done]. intros [= <-].
  destruct h as [|h0 [|h1 [|h2 [|h3 [|]]]]]; try done. cbn [forallb] in E.
  apply andb_prop in E as [E0 E]. apply andb_prop in E as [E1 E].
  apply andb_prop in E as [E2 E]. apply andb_prop in E as [E3 _].
  pose proof (is_hexdigit_val _ E0). pose proof (is_hexdigit_val _ E1).
  pose proof (is_hexdigit_val _ E2). pose proof (is_hexdigit_val _ E3). cbn [foldl]. lia.
Qed.

Lemma pkt_header_value n : 0 <= n < 65536 -> hex4_value (pkt_header n) = Some n.
Proof.
  intros Hn. unfold hex4_value, pkt_header. cbn [forallb foldl].
  rewrite !hexchar_digit, !hexval_hexchar by (apply Z.mod_pos_bound; lia). simpl.
  f_equal. dm_lia.
Qed.

(**  Whatever arrives, [packet_read_line] over an error-free connection
    that closes after [h ++ rest] behaves as the protocol says: a header that is
    not four hexadecimal digits, a length of 1 to 3, a line that does not fit
    the caller's buffer and a line cut short by end of file all kill the
    reader; [0000] returns 0 and consumes only the header; otherwise exactly
    the announced number of bytes is consumed and stored with a NUL behind
    it, inside the [size] bytes of the buffer, and the bytes after the line
    are left for the next reader. *)
Theorem packet_read_line_spec (rs : list rdc) (h rest : bytes) (size : Z)
    (Hh : length h = 4%nat) (Herr : RErr ∉ rs)
    (Hreads : (4 + length rest < reads rs)%nat) (Hsize : 0 <= size < 2 ^ 31) :
  match hex4_value h with
  | None => packet_read_line rs (h ++ rest) size = Some Die
  | Some v =>
      if v =? 0 then
        exists rs', packet_read_line rs (h ++ rest) size = Some (Ret (0, [], rest, rs'))
      else if (v <? 4) || (size <=? v - 4) || (Z.of_nat (length rest) <? v - 4) then
        packet_read_line rs (h ++ rest) size = Some Die
      else
        exists rs', packet_read_line rs (h ++ rest) size =
          Some (Ret (v - 4, take (Z.to_nat (v - 4)) rest ++ [0], drop (Z.to_nat (v - 4)) rest, rs'))
        /\ Z.of_nat (length (take (Z.to_nat (v - 4)) rest ++ [0])) <= size
  end.
Proof.
  unfold packet_read_line.
  destruct (safe_read_all rs (h ++ rest) 4 []) as (rs1&E1&He1&Hr1); simpl length;
    rewrite ?length_app; [done|lia..|].
  simpl length in *. rewrite E1. change (4 - 0)%nat with 4%nat in *.
  rewrite <- Hh, take_app_length, drop_app_length, app_nil_l.
  destruct h as [|h0 [|h1 [|h2 [|h3 [|]]]]]; try done. rewrite pkt_length_value.
  destruct (hex4_value [h0; h1; h2; h3]) as [v|] eqn:Ev; [|done].
  pose proof (hex4_value_range _ v Hh Ev) as Hv.
  destruct (Z.eqb_spec v 0); [by eexists|].
  destruct (Z.ltb_spec v 4) as [H4|H4]; simpl orb.
  { destruct (Z.leb_spec size (u32 (v - 4))) as [|Hlt]; [done|].
    unfold u32 in Hlt. rewrite <- (Z.mod_add _ 1), Z.mod_small in Hlt by lia. lia. }
  rewrite u32_small by lia. destruct (Z.leb_spec size (v - 4)) as [|Hs]; [done|]. simpl orb.
  destruct (Z.ltb_spec (Z.of_nat (length rest)) (v - 4)) as [Hc|Hc].
  - rewrite safe_read_eof by (simpl length; lia). done.
  - destruct (safe_read_all rs1 rest (Z.to_nat (v - 4)) []) as (rs2&E2&_&_);
      simpl length; [done|lia..|].
    simpl length in E2. rewrite Nat.sub_0_r in E2. rewrite E2. exists rs2. split; [done|].
    rewrite length_app, length_take. simpl. lia.
Qed.

Lemma packet_read_line_spec_witness :
  exists rs', packet_read_line (replicate 12 (ROk 3)) (str "0006hi" ++ str "PACK") 1000
    = Some (Ret (2, str "hi" ++ [0], str "PACK", rs')).
Proof.
  pose proof (packet_read_line_spec (replicate 12 (ROk 3)) (str "0006") (str "hiPACK") 1000
    eq_refl) as H.
  assert (Hd : RErr ∉ replicate 12 (ROk 3)) by (by apply (bool_decide_unpack _); vm_compute).
  specialize (H Hd ltac:(vm_compute; lia) ltac:(lia)).
  vm_compute in H. destruct H as (rs'&H&_). exists rs'. vm_compute. exact H.
Defined.

(** ** Streams *)

Lemma packet_read_line_encode rs line rest size :
  (0 < length line < 996)%nat -> (RErr ∉ rs) -> (length (pkt_encode line) <= reads rs)%nat ->
  996 <= size < 2 ^ 31 ->
  exists rs', packet_read_line rs (pkt_encode line ++ rest) size =
      Some (Ret (Z.of_nat (length line), line ++ [0], rest, rs')) /\
    (RErr ∉ rs') /\ (reads rs - length (pkt_encode line) <= reads rs')%nat.
Proof.
  intros Hl Herr Hr Hs. unfold packet_read_line. unfold pkt_encode in *. rewrite length_app in Hr |- *.
  change (length (pkt_header _)) with 4%nat in *.
  set (n := Z.of_nat (length line) + 4) in *.
  destruct (safe_read_all rs ((pkt_header n ++ line) ++ rest) 4 []) as (rs1&E1&He1&Hr1); simpl length;
    [done|lia..|].
  simpl length in Hr1. rewrite <- app_assoc in E1 |- *. rewrite E1.
  change (4 - length [])%nat with (length (pkt_header n)).
  rewrite take_app_length, drop_app_length, app_nil_l.
  unfold pkt_header at 1. rewrite pkt_length_value. fold (pkt_header n).
  rewrite pkt_header_value by lia.
  destruct (Z.eqb_spec n 0); [lia|]. rewrite u32_small by lia.
  replace (n - 4) with (Z.of_nat (length line)) by lia.
  destruct (Z.leb_spec size (Z.of_nat (length line))); [lia|]. rewrite Nat2Z.id.
  destruct (safe_read_all rs1 (line ++ rest) (length line) []) as (rs2&E2&He2&Hr2);
    rewrite ?length_app; simpl length; [done|lia..|].
  simpl length in *. rewrite Nat.sub_0_r in E2. rewrite E2, take_app_length, drop_app_length, app_nil_l.
  exists rs2. split; [done|]. split; [done|lia].
Qed.

Lemma packet_read_line_flush rs rest size :
  (RErr ∉ rs) -> (4 <= reads rs)%nat ->
  exists rs', packet_read_line rs (str "0000" ++ rest) size = Some (Ret (0, [], rest, rs')).
Proof.
  intros Herr Hr. unfold packet_read_line.
  destruct (safe_read_all rs (str "0000" ++ rest) 4 []) as (rs1&E1&He1&Hr1); simpl length;
    [done|lia..|].
  rewrite E1. eexists. reflexivity.
Qed.

Lemma read_lines_encode lines fuel rs rest size acc :
  Forall (fun l => 0 < length l < 996)%nat lines -> (length lines < fuel)%nat ->
  (RErr ∉ rs) -> (length (concat (map pkt_encode lines)) + 4 <= reads rs)%nat ->
  996 <= size < 2 ^ 31 ->
  exists rs', read_lines fuel rs (concat (map pkt_encode lines) ++ str "0000" ++ rest) size acc =
    Some (Ret (acc ++ lines, rest, rs')).
Proof.
  intros HF; revert fuel rs acc; induction HF as [|line lines Hl HF IH];
    intros [|fuel] rs acc Hf Herr Hr Hs; simpl length in Hf; try lia; cbn [map concat read_lines].
  - destruct (packet_read_line_flush rs rest size) as (rs'&E); [done|simpl in Hr; lia|].
    rewrite app_nil_l, E. simpl. rewrite app_nil_r. eauto.
  - cbn [map concat] in Hr. rewrite length_app in Hr. rewrite <- app_assoc.
    destruct (packet_read_line_encode rs line (concat (map pkt_encode lines) ++ str "0000" ++ rest) size)
      as (rs1&E&He1&Hr1); [done|done|lia|done|].
    rewrite E. destruct (Z.eqb_spec (Z.of_nat (length line)) 0); [lia|].
    rewrite Nat2Z.id, take_app_length.
    destruct (IH fuel rs1 (acc ++ [line])) as (rs'&E'); [lia|done|lia|done|].
    exists rs'. by rewrite E', <- app_assoc.
Qed.

(** C38.  What one side writes, the other side reads: if the writer gets its
    non-empty lines and the flush through [packet_write] and [packet_flush],
    whatever partial and interrupted writes the kernel serves, then a reader
    with the usual 1000-byte buffer gets exactly those lines back, whatever
    partial and interrupted reads it sees, and does not consume a byte of what
    follows the flush (the pack data goes to another process). *)
Theorem packet_stream_roundtrip (ws ws' : list wr) (rs : list rdc) (lines : list bytes)
    (out rest : bytes) (fuel : nat)
    (Hw : write_lines ws lines [] = Some (Ret (out, ws')))
    (Hne : Forall (fun l => l <> []) lines)
    (Herr : RErr ∉ rs) (Hreads : (length out <= reads rs)%nat) (Hfuel : (length lines < fuel)%nat) :
  exists rs', read_lines fuel rs (out ++ rest) 1000 [] = Some (Ret (lines, rest, rs')).
Proof.
  apply write_lines_encode in Hw as [Hlen ->]. rewrite app_nil_l in *.
  rewrite length_app in Hreads. rewrite <- app_assoc.
  apply (read_lines_encode lines fuel rs rest 1000 []); [|done|done|done|lia].
  rewrite Forall_forall in *. intros l Hl. specialize (Hlen l Hl). specialize (Hne l Hl).
  destruct l; simpl in *; [done|lia].
Qed.

Lemma packet_stream_roundtrip_witness :
  exists rs', read_lines 3 (RIntr :: replicate 20 (ROk 2)) (str "0008have0005x0000" ++ str "PACK") 1000 []
    = Some (Ret ([str "have"; str "x"], str "PACK", rs')).
Proof.
  apply (packet_stream_roundtrip [WOk 2; WIntr; WOk 100; WOk 9; WOk 3] []).
  - vm_compute. reflexivity.
  - repeat constructor; discriminate.
  - by apply (bool_decide_unpack _); vm_compute.
  - vm_compute. lia.
  - simpl. lia.
Defined.

(** An empty line is the one that does not survive: [packet_write] sends it
    as [0004], for which [packet_read_line] returns 0 as it does for a flush. *)
Example packet_empty_line :
  write_lines (replicate 3 (WOk 99)) [[]; str "x"] [] = Some (Ret (str "00040005x0000", [])) /\
  read_lines 5 (replicate 20 (ROk 9)) (str "00040005x0000") 1000 [] =
    Some (Ret ([], str "0005x0000", replicate 19 (ROk 9))).
Proof. split; vm_compute; reflexivity. Qed.
