(* ===== verification/Delta.v ===== *)
(** * The delta format (delta.h, patch-delta.c, count-delta.c)

    [get_delta_hdr_size], [patch_delta] and [count_delta].  A pointer into a
    buffer is an offset; a read or a copy outside the buffer is [Ub].  The
    delta buffer may be longer than [delta_size]: what is past [top] is
    readable memory that the final sanity check is there to notice.

    The abstract format is a list of operations ([delta_op]) with its meaning
    [apply_ops] and its canonical encoding [encode_delta]; [patch_delta] is
    proved to compute that meaning on every encoding. *)

From stdpp Require Import base list numbers strings.
From Stdlib Require Import ZArith Lia.
From S2P Require Import Prelude.

(** ** The C code *)

(** [while (cmd & 0x80)]: [data] is the offset behind [cmd].  The shift is one
    of an [int], so [i >= 32] has no meaning in C (hence the fuel, the five
    values of [i] from 7 to 35, is never used up), and the [int] is sign
    extended to [unsigned long]. *)
Fixpoint hdr_size_loop (fuel : nat) (buf : bytes) (data cmd size i : Z) : outcome (Z * Z) :=
  if Z.land cmd 0x80 =? 0 then Ret (size, data)
  else
    match fuel with
    | O => Ub
    | S fuel =>
        cmd ← rd buf data;
        if 32 <=? i then Ub
        else
          hdr_size_loop fuel buf (data + 1) cmd
            (Z.lor size (u64 (i32 (Z.shiftl (Z.land cmd (Z.lnot 0x80)) i)))) (i + 7)
    end.

Definition get_delta_hdr_size (buf : bytes) (data : Z) : outcome (Z * Z) :=
  cmd ← rd buf data;
  hdr_size_loop 5 buf (data + 1) cmd (Z.land cmd (Z.lnot 0x80)) 7.

Definition DELTA_SIZE_MIN : Z := 4.

(** [if (cmd & bit) acc |= ( *data++ << sh);] *)
Definition delta_arg (buf : bytes) (cmd bit sh : Z) (st : Z * Z) : outcome (Z * Z) :=
  let '(acc, data) := st in
  if Z.land cmd bit =? 0 then Ret (acc, data)
  else
    b ← rd buf data;
    Ret (Z.lor acc (u64 (i32 (Z.shiftl b sh))), data + 1).

(** The operands of a copy command: offset, size and the new [data]. *)
Definition delta_copy_args (buf : bytes) (cmd data : Z) : outcome (Z * Z * Z) :=
  st ← delta_arg buf cmd 0x01 0 (0, data);
  st ← delta_arg buf cmd 0x02 8 st;
  st ← delta_arg buf cmd 0x04 16 st;
  '(cp_off, data) ← delta_arg buf cmd 0x08 24 st;
  st ← delta_arg buf cmd 0x10 0 (0, data);
  '(cp_size, data) ← delta_arg buf cmd 0x20 8 st;
  Ret (cp_off, if cp_size =? 0 then 0x10000 else cp_size, data).

(** The source and the destination side of [memcpy]: [n] bytes at [off] of an
    object; [n] more bytes in an object of [size] bytes. *)
Definition mem_read (buf : bytes) (off n : Z) : outcome bytes :=
  if off + n <=? Z.of_nat (length buf) then Ret (slice (Z.to_nat off) (Z.to_nat n) buf) else Ub.

Definition mem_append (size : Z) (out bs : bytes) : outcome bytes :=
  if Z.of_nat (length out + length bs) <=? size then Ret (out ++ bs) else Ub.

(** [while (data < top)]: each iteration consumes a byte at least, so
    [top - data] iterations are enough. *)
Fixpoint patch_loop (fuel : nat) (src delta : bytes) (top size data : Z) (out : bytes)
    : outcome (Z * bytes) :=
  if data <? top then
    match fuel with
    | O => Ub
    | S fuel =>
        cmd ← rd delta data;
        let data := data + 1 in
        if negb (Z.land cmd 0x80 =? 0) then
          '(cp_off, cp_size, data) ← delta_copy_args delta cmd data;
          let buf := if Z.land cmd 0x40 =? 0 then src else out in
          bs ← mem_read buf cp_off cp_size;
          out ← mem_append size out bs;
          patch_loop fuel src delta top size data out
        else
          bs ← mem_read delta data cmd;
          out ← mem_append size out bs;
          patch_loop fuel src delta top size (data + cmd) out
    end
  else Ret (data, out).

(** [malloc_ok n]: does [malloc(n)] succeed?  [None] is the NULL result. *)
Definition patch_delta (malloc_ok : Z -> bool) (src delta : bytes) (delta_size : Z)
    : outcome (option bytes) :=
  if delta_size <? DELTA_SIZE_MIN then Ret None
  else
    let top := delta_size in
    '(size, data) ← get_delta_hdr_size delta 0;
    if negb (size =? Z.of_nat (length src)) then Ret None
    else
      '(size, data) ← get_delta_hdr_size delta data;
      if negb (malloc_ok size) then Ret None
      else
        '(data, out) ← patch_loop (Z.to_nat delta_size) src delta top size data [];
        if negb (data =? top) || negb (Z.of_nat (length out) =? size) then Ret None
        else Ret (Some out).

(** The counters of [count_delta]: data, copied_from_source, added_literal,
    out. *)
Fixpoint count_loop (fuel : nat) (delta : bytes) (top data copied literal out : Z)
    : outcome (Z * Z * Z * Z) :=
  if data <? top then
    match fuel with
    | O => Ub
    | S fuel =>
        cmd ← rd delta data;
        let data := data + 1 in
        if negb (Z.land cmd 0x80 =? 0) then
          '(cp_off, cp_size, data) ← delta_copy_args delta cmd data;
          let copied := if negb (Z.land cmd 0x40 =? 0) then copied else u64 (copied + cp_size) in
          count_loop fuel delta top data copied literal (u64 (out + cp_size))
        else
          count_loop fuel delta top (data + cmd) copied (u64 (literal + cmd)) (u64 (out + cmd))
    end
  else Ret (data, copied, literal, out).

(** [None] is the result -1, [Some (src_copied, literal_added)] the result 0. *)
Definition count_delta (delta : bytes) (delta_size : Z) : outcome (option (Z * Z)) :=
  if delta_size <? DELTA_SIZE_MIN then Ret None
  else
    let top := delta_size in
    '(src_size, data) ← get_delta_hdr_size delta 0;
    '(dst_size, data) ← get_delta_hdr_size delta data;
    '(data, copied, literal, out) ← count_loop (Z.to_nat delta_size) delta top data 0 0 0;
    if negb (data =? top) || negb (out =? dst_size) then Ret None
    else Ret (Some (copied, literal)).

(** ** The abstract format *)

Inductive delta_op : Type :=
| OpCopy (off size : Z)
| OpCopyDst (off size : Z)
| OpInsert (lit : bytes).

(** The meaning of an operation: the destination grows. *)
Definition op_output (src acc : bytes) (op : delta_op) : option bytes :=
  match op with
  | OpCopy off size =>
      if off + size <=? Z.of_nat (length src)
      then Some (slice (Z.to_nat off) (Z.to_nat size) src) else None
  | OpCopyDst off size =>
      if off + size <=? Z.of_nat (length acc)
      then Some (slice (Z.to_nat off) (Z.to_nat size) acc) else None
  | OpInsert lit => Some lit
  end.

Fixpoint apply_ops (src : bytes) (ops : list delta_op) (acc : bytes) : option bytes :=
  match ops with
  | [] => Some acc
  | op :: ops => bs ← op_output src acc op; apply_ops src ops (acc ++ bs)
  end.

(** What the encoding can express. *)
Definition op_ok (op : delta_op) : Prop :=
  match op with
  | OpCopy off size | OpCopyDst off size => 0 <= off < 2 ^ 31 /\ 1 <= size <= 0x10000
  | OpInsert lit => (1 <= length lit <= 127)%nat
  end.

#[export] Instance op_ok_dec op : Decision (op_ok op).
Proof. destruct op; simpl; apply _. Defined.

(** An operand byte is left out when it is zero. *)
Definition opt_byte (b : Z) : bytes := if b =? 0 then [] else [b].
Definition opt_flag (b flag : Z) : Z := if b =? 0 then 0 else flag.

Definition byte_of (z : Z) (k : Z) : Z := Z.shiftr z (8 * k) mod 256.

Definition copy_cmd (dst : Z) (off size : Z) : Z :=
  0x80 + dst + opt_flag (byte_of off 0) 0x01 + opt_flag (byte_of off 1) 0x02 + opt_flag (byte_of off 2) 0x04
    + opt_flag (byte_of off 3) 0x08 + opt_flag (byte_of size 0) 0x10 + opt_flag (byte_of size 1) 0x20.

Definition copy_args (off size : Z) : bytes :=
  opt_byte (byte_of off 0) ++ opt_byte (byte_of off 1) ++ opt_byte (byte_of off 2)
    ++ opt_byte (byte_of off 3) ++ opt_byte (byte_of size 0) ++ opt_byte (byte_of size 1).

Definition encode_op (op : delta_op) : bytes :=
  match op with
  | OpCopy off size => copy_cmd 0 off size :: copy_args off size
  | OpCopyDst off size => copy_cmd 0x40 off size :: copy_args off size
  | OpInsert lit => Z.of_nat (length lit) :: lit
  end.

(** Little-endian groups of seven bits, the top bit saying that more follow. *)
Fixpoint encode_size (fuel : nat) (z : Z) : bytes :=
  match fuel with
  | O => [z]
  | S fuel => if z <? 128 then [z] else (128 + z mod 128) :: encode_size fuel (z / 128)
  end.

Definition encode_hdr (z : Z) : bytes := encode_size 10 z.

Definition encode_delta (src_size dst_size : Z) (ops : list delta_op) : bytes :=
  encode_hdr src_size ++ encode_hdr dst_size ++ concat (map encode_op ops).

Example patch_delta_ex :
  patch_delta (fun _ => true) (str "hello world")
    (encode_delta 11 12 [OpCopy 6 5; OpInsert (str "!!"); OpCopyDst 0 5])
    (Z.of_nat (length (encode_delta 11 12 [OpCopy 6 5; OpInsert (str "!!"); OpCopyDst 0 5]))) =
    Ret (Some (str "world!!world")).
Proof. vm_compute. reflexivity. Qed.

Example count_delta_ex :
  count_delta (encode_delta 11 12 [OpCopy 6 5; OpInsert (str "!!"); OpCopyDst 0 5]) 10 = Ret (Some (5, 2)).
Proof. vm_compute. reflexivity. Qed.

(** ** The size header *)

Lemma land_0x80 c : is_byte c -> Z.land c 0x80 = 0 <-> c < 128.
Proof.
  intros Hc. pose proof (byte_check (fun c => Bool.eqb (Z.land c 0x80 =? 0) (c <? 128))
    ltac:(vm_compute; reflexivity) c Hc) as H. simpl in H. apply Bool.eqb_prop in H.
  rewrite <- Z.eqb_eq, H. apply Z.ltb_lt.
Qed.

Lemma land_not_0x80 c : is_byte c -> Z.land c (Z.lnot 0x80) = c mod 128.
Proof.
  intros Hc. apply Z.eqb_eq. revert c Hc. apply byte_check. vm_compute. reflexivity.
Qed.

Lemma rd_app_l P l (i : Z) : i = Z.of_nat (length P) -> rd (P ++ l) i = match l with b :: _ => Ret b | [] => Ub end.
Proof.
  intros ->. rewrite rd_nat, lookup_app_r, Nat.sub_diag by lia. by destruct l.
Qed.

Lemma int_shift_small z i : 0 <= i -> 0 <= z -> z * 2 ^ i < 2 ^ 31 -> u64 (i32 (Z.shiftl z i)) = Z.shiftl z i.
Proof.
  intros. rewrite Z.shiftl_mul_pow2 by lia. rewrite i32_small, u64_small; nia.
Qed.

Lemma lor_int_shift size z i :
  0 <= i -> 0 <= z -> z * 2 ^ i < 2 ^ 31 -> 0 <= size < 2 ^ i ->
  Z.lor size (u64 (i32 (Z.shiftl z i))) = size + z * 2 ^ i.
Proof.
  intros. rewrite int_shift_small, Z.lor_comm, lor_shiftl_add by lia. lia.
Qed.

Lemma encode_size_S fuel z :
  encode_size (S fuel) z = if z <? 128 then [z] else (128 + z mod 128) :: encode_size fuel (z / 128).
Proof. done. Qed.

Lemma hdr_shift_bound z i : 1 <= z -> 0 <= i -> z * 2 ^ i < 2 ^ 31 -> i < 32.
Proof.
  intros. destruct (Z.lt_ge_cases i 32) as [|Hge]; [done|].
  pose proof (Z.pow_le_mono_r 2 31 i ltac:(lia) ltac:(lia)). nia.
Qed.

Lemma hdr_size_loop_stop f buf data cmd size i :
  0 <= cmd < 128 -> hdr_size_loop f buf data cmd size i = Ret (size, data).
Proof.
  intros Hc. assert (E : Z.land cmd 0x80 = 0) by (apply land_0x80; unfold is_byte; lia).
  destruct f; cbn [hdr_size_loop]; by rewrite E.
Qed.

Lemma hdr_size_loop_more f P b R cmd size i :
  is_byte cmd -> 128 <= cmd -> is_byte b -> 0 <= i < 32 -> (b mod 128) * 2 ^ i < 2 ^ 31 -> 0 <= size < 2 ^ i ->
  hdr_size_loop (S f) (P ++ b :: R) (Z.of_nat (length P)) cmd size i =
    hdr_size_loop f ((P ++ [b]) ++ R) (Z.of_nat (length (P ++ [b]))) b (size + (b mod 128) * 2 ^ i) (i + 7).
Proof.
  intros Hc Hc8 Hb Hi Hbi Hs. cbn [hdr_size_loop].
  destruct (Z.eqb_spec (Z.land cmd 0x80) 0) as [Hl|_]; [apply land_0x80 in Hl; [lia|done]|].
  rewrite rd_app_l by done. rewrite bind_Ret. destruct (Z.leb_spec 32 i); [lia|].
  rewrite land_not_0x80 by done. pose proof (Z.mod_pos_bound b 128 ltac:(lia)).
  rewrite lor_int_shift by (done || lia). rewrite <- app_assoc. f_equal.
  rewrite length_app. simpl. lia.
Qed.

Lemma hdr_size_loop_encode fe f P z R cmd size i :
  is_byte cmd -> 128 <= cmd -> 0 <= i -> i + 7 * Z.of_nat f = 42 ->
  1 <= z < 128 ^ Z.of_nat (S fe) -> z * 2 ^ i < 2 ^ 31 -> 0 <= size < 2 ^ i ->
  hdr_size_loop f (P ++ encode_size fe z ++ R) (Z.of_nat (length P)) cmd size i =
    Ret (size + z * 2 ^ i, Z.of_nat (length (P ++ encode_size fe z))).
Proof.
  revert f P z cmd size i; induction fe as [|fe IH]; intros f P z cmd size i Hc Hc8 Hi Hf Hz Hzi Hs;
    pose proof (hdr_shift_bound z i ltac:(lia) Hi Hzi) as Hi32;
    (destruct f as [|f]; [lia|]); cbn [encode_size].
  - change (128 ^ Z.of_nat 1) with 128 in Hz. cbn [app].
    assert (Em : z mod 128 = z) by (apply Z.mod_small; lia).
    rewrite hdr_size_loop_more by (rewrite ?Em; unfold is_byte in *; lia). rewrite Em.
    by rewrite hdr_size_loop_stop by lia.
  - destruct (Z.ltb_spec z 128) as [Hz1|Hz1]; cbn [app].
    + assert (Em : z mod 128 = z) by (apply Z.mod_small; lia).
    rewrite hdr_size_loop_more by (rewrite ?Em; unfold is_byte in *; lia). rewrite Em.
      by rewrite hdr_size_loop_stop by lia.
    + assert (Er : (128 + z mod 128) mod 128 = z mod 128) by dm_lia.
      assert (Hr : 0 <= z mod 128 < 128) by dm_lia.
      assert (Hp : 0 < 2 ^ i) by lia. assert (Hp7 : 2 ^ (i + 7) = 128 * 2 ^ i) by (rewrite Z.pow_add_r; lia).
      pose proof (Z.div_mod z 128 ltac:(lia)) as Hdm.
      assert (Hzr : z mod 128 * 2 ^ i < 2 ^ 31) by nia.
      rewrite hdr_size_loop_more; rewrite ?Er; [|done|done|unfold is_byte; lia|lia|lia|lia].
      rewrite IH; [|unfold is_byte; lia|lia|lia|lia| |nia|nia].
      * rewrite <- app_assoc. f_equal. f_equal. nia.
      * rewrite (Nat2Z.inj_succ (S fe)), Z.pow_succ_r in Hz by lia.
        split; [|apply Z.div_lt_upper_bound]; lia || dm_lia.
Qed.

Lemma get_delta_hdr_size_encode P z R :
  0 <= z < 2 ^ 31 ->
  get_delta_hdr_size (P ++ encode_hdr z ++ R) (Z.of_nat (length P)) =
    Ret (z, Z.of_nat (length (P ++ encode_hdr z))).
Proof.
  intros Hz. unfold get_delta_hdr_size, encode_hdr. rewrite rd_app_l by done.
  rewrite encode_size_S. destruct (Z.ltb_spec z 128) as [Hz1|Hz1]; cbn [app]; rewrite bind_Ret.
  - rewrite land_not_0x80, (Z.mod_small z 128) by (unfold is_byte; lia). rewrite hdr_size_loop_stop by lia.
    do 2 f_equal. rewrite length_app. simpl. lia.
  - assert (Hr : 0 <= z mod 128 < 128) by dm_lia. pose proof (Z.div_mod z 128 ltac:(lia)) as Hdm.
    rewrite land_not_0x80 by (unfold is_byte; lia).
    replace ((128 + z mod 128) mod 128) with (z mod 128) by dm_lia.
    replace (Z.of_nat (length P) + 1) with (Z.of_nat (length (P ++ [128 + z mod 128])))
      by (rewrite length_app; simpl; lia).
    replace (P ++ 128 + z mod 128 :: encode_size 9 (z / 128) ++ R)
      with ((P ++ [128 + z mod 128]) ++ encode_size 9 (z / 128) ++ R) by (by rewrite <- app_assoc).
    rewrite hdr_size_loop_encode; [|unfold is_byte; lia|lia|lia|lia| |lia|lia].
    + rewrite <- app_assoc. do 2 f_equal. lia.
    + split; [|apply Z.div_lt_upper_bound]; lia || dm_lia.
Qed.

(** ** Copy commands *)

Lemma byte_of_byte z k : is_byte (byte_of z k).
Proof. unfold byte_of, is_byte. apply Z.mod_pos_bound. lia. Qed.

Lemma byte_of_div z k : 0 <= k -> byte_of z k = z / 256 ^ k mod 256.
Proof.
  intros. unfold byte_of. rewrite Z.shiftr_div_pow2 by lia. by rewrite Z.pow_mul_r by lia.
Qed.

Lemma byte_of_4 z : 0 <= z < 2 ^ 32 ->
  byte_of z 0 + byte_of z 1 * 2 ^ 8 + byte_of z 2 * 2 ^ 16 + byte_of z 3 * 2 ^ 24 = z.
Proof.
  intros. rewrite !byte_of_div by lia. change (256 ^ 0) with 1. change (256 ^ 1) with 256.
  change (256 ^ 2) with 65536. change (256 ^ 3) with 16777216. dm_lia.
Qed.

Lemma byte_of_2 z : 0 <= z < 2 ^ 16 -> byte_of z 0 + byte_of z 1 * 2 ^ 8 = z.
Proof.
  intros. rewrite !byte_of_div by lia. change (256 ^ 0) with 1. change (256 ^ 1) with 256. dm_lia.
Qed.

Lemma byte_of_3_small z : 0 <= z < 2 ^ 31 -> byte_of z 3 < 128.
Proof. intros. rewrite byte_of_div by lia. change (256 ^ 3) with 16777216. dm_lia. Qed.

(** The flag of an operand in the command byte says whether it is there. *)
Definition copy_flags (cmd : Z) (off size : Z) : Prop :=
  (Z.land cmd 0x01 = 0 <-> byte_of off 0 = 0) /\ (Z.land cmd 0x02 = 0 <-> byte_of off 1 = 0) /\
  (Z.land cmd 0x04 = 0 <-> byte_of off 2 = 0) /\ (Z.land cmd 0x08 = 0 <-> byte_of off 3 = 0) /\
  (Z.land cmd 0x10 = 0 <-> byte_of size 0 = 0) /\ (Z.land cmd 0x20 = 0 <-> byte_of size 1 = 0).

Lemma copy_cmd_flags d off size :
  d = 0 \/ d = 0x40 ->
  is_byte (copy_cmd d off size) /\ Z.land (copy_cmd d off size) 0x80 <> 0 /\
  Z.land (copy_cmd d off size) 0x40 = d /\ copy_flags (copy_cmd d off size) off size.
Proof.
  intros Hd. unfold copy_cmd, opt_flag, copy_flags, is_byte.
  destruct (Z.eqb_spec (byte_of off 0) 0), (Z.eqb_spec (byte_of off 1) 0), (Z.eqb_spec (byte_of off 2) 0),
    (Z.eqb_spec (byte_of off 3) 0), (Z.eqb_spec (byte_of size 0) 0), (Z.eqb_spec (byte_of size 1) 0);
    destruct Hd as [-> | ->]; cbn; repeat split; intros; done.
Qed.

Lemma delta_arg_encode P b R cmd bit sh acc :
  is_byte b -> (Z.land cmd bit = 0 <-> b = 0) -> 0 <= sh -> b * 2 ^ sh < 2 ^ 31 -> 0 <= acc < 2 ^ sh ->
  delta_arg (P ++ opt_byte b ++ R) cmd bit sh (acc, Z.of_nat (length P)) =
    Ret (acc + b * 2 ^ sh, Z.of_nat (length (P ++ opt_byte b))).
Proof.
  intros Hb Hf Hsh Hbs Hacc. unfold delta_arg, opt_byte.
  destruct (Z.eqb_spec (Z.land cmd bit) 0) as [E|E]; destruct (Z.eqb_spec b 0) as [->|Eb]; try tauto.
  - rewrite app_nil_r. do 2 f_equal. lia.
  - rewrite rd_app_l by done. cbn [app]. rewrite bind_Ret, lor_int_shift by (unfold is_byte in *; lia).
    do 2 f_equal. rewrite length_app. simpl. lia.
Qed.

(** The last operands' form: an accumulator still empty. *)
Lemma delta_arg_encode0 P b R cmd bit :
  is_byte b -> (Z.land cmd bit = 0 <-> b = 0) ->
  delta_arg (P ++ opt_byte b ++ R) cmd bit 0 (0, Z.of_nat (length P)) =
    Ret (b, Z.of_nat (length (P ++ opt_byte b))).
Proof.
  intros Hb Hf. rewrite delta_arg_encode by (done || unfold is_byte in *; lia). do 2 f_equal. lia.
Qed.

Lemma copy_size_default size : 1 <= size <= 0x10000 ->
  (if byte_of size 0 + byte_of size 1 * 2 ^ 8 =? 0 then 0x10000 else byte_of size 0 + byte_of size 1 * 2 ^ 8)
    = size.
Proof.
  intros. destruct (Z.eq_dec size 0x10000) as [->|]; [reflexivity|].
  rewrite byte_of_2 by lia. destruct (Z.eqb_spec size 0); lia.
Qed.

(** The partial sums of the operand bytes stay within an [int]. *)
Lemma copy_off_bounds off :
  0 <= off < 2 ^ 31 ->
  let b0 := byte_of off 0 in let b1 := byte_of off 1 in
  let b2 := byte_of off 2 in let b3 := byte_of off 3 in
  (b1 * 2 ^ 8 < 2 ^ 31 /\ 0 <= b0 < 2 ^ 8) /\
  (b2 * 2 ^ 16 < 2 ^ 31 /\ 0 <= b0 + b1 * 2 ^ 8 < 2 ^ 16) /\
  (b3 * 2 ^ 24 < 2 ^ 31 /\ 0 <= b0 + b1 * 2 ^ 8 + b2 * 2 ^ 16 < 2 ^ 24).
Proof.
  intros Hoff. pose proof (byte_of_3_small off Hoff).
  pose proof (byte_of_byte off 0). pose proof (byte_of_byte off 1).
  pose proof (byte_of_byte off 2). pose proof (byte_of_byte off 3).
  unfold is_byte in *. cbv zeta. lia.
Qed.

Lemma copy_size_bounds size : byte_of size 1 * 2 ^ 8 < 2 ^ 31 /\ 0 <= byte_of size 0 < 2 ^ 8.
Proof.
  pose proof (byte_of_byte size 0). pose proof (byte_of_byte size 1). unfold is_byte in *. lia.
Qed.

Lemma delta_copy_args_encode P off size R cmd :
  copy_flags cmd off size -> 0 <= off < 2 ^ 31 -> 1 <= size <= 0x10000 ->
  delta_copy_args (P ++ copy_args off size ++ R) cmd (Z.of_nat (length P)) =
    Ret (off, size, Z.of_nat (length (P ++ copy_args off size))).
Proof.
  intros (F0&F1&F2&F3&G0&G1) Hoff Hsize. unfold delta_copy_args, copy_args.
  destruct (copy_off_bounds off Hoff) as ([? ?]&[? ?]&[? ?]).
  destruct (copy_size_bounds size) as [? ?].
  rewrite <- !(app_assoc (opt_byte _)).
  rewrite delta_arg_encode0, bind_Ret by (done || apply byte_of_byte).
  rewrite (app_assoc P), delta_arg_encode, bind_Ret by (done || apply byte_of_byte).
  rewrite (app_assoc (P ++ _)), delta_arg_encode, bind_Ret by (done || apply byte_of_byte).
  rewrite (app_assoc ((P ++ _) ++ _)), delta_arg_encode, bind_Ret by (done || apply byte_of_byte).
  rewrite (app_assoc (((P ++ _) ++ _) ++ _)), delta_arg_encode0, bind_Ret by (done || apply byte_of_byte).
  rewrite (app_assoc ((((P ++ _) ++ _) ++ _) ++ _)), delta_arg_encode, bind_Ret by (done || apply byte_of_byte).
  rewrite <- !app_assoc, copy_size_default, byte_of_4 by (clear -Hoff Hsize; lia). done.
Qed.

(** ** [patch_delta] on encoded operations *)

(** The meaning of an operation as an outcome of the C code: a copy from
    outside the buffer is not checked for. *)
Definition op_outcome (src acc : bytes) (op : delta_op) : outcome bytes :=
  match op_output src acc op with Some bs => Ret bs | None => Ub end.

Lemma mem_read_here P lit R :
  mem_read (P ++ lit ++ R) (Z.of_nat (length P)) (Z.of_nat (length lit)) = Ret lit.
Proof.
  unfold mem_read, slice. rewrite !length_app, !Nat2Z.id, drop_app_length, take_app_length.
  destruct (Z.leb_spec (Z.of_nat (length P) + Z.of_nat (length lit)) (Z.of_nat (length P + (length lit + length R))));
    [done|lia].
Qed.

(** A copy step, from the source ([d = 0]) or the destination ([d = 0x40]). *)
Lemma patch_loop_copy fuel src P d off sz R top size out :
  (d = 0 \/ d = 0x40) -> 0 <= off < 2 ^ 31 -> 1 <= sz <= 0x10000 -> Z.of_nat (length P) < top ->
  let enc := copy_cmd d off sz :: copy_args off sz in
  patch_loop (S fuel) src (P ++ enc ++ R) top size (Z.of_nat (length P)) out =
    (bs ← mem_read (if d =? 0 then src else out) off sz;
     out ← mem_append size out bs;
     patch_loop fuel src (P ++ enc ++ R) top size (Z.of_nat (length (P ++ enc))) out).
Proof.
  intros Hd Hoff Hsz Hlt. cbn [patch_loop app]. destruct (Z.ltb_spec (Z.of_nat (length P)) top); [|lia].
  rewrite rd_app_l, bind_Ret by done.
  destruct (copy_cmd_flags d off sz Hd) as (_&H80&H40&Hfl). set (cmd := copy_cmd d off sz) in *.
  destruct (Z.eqb_spec (Z.land cmd 0x80) 0); [done|]. cbn [negb].
  rewrite (cons_middle cmd P (copy_args off sz ++ R)), app_assoc.
  replace (Z.of_nat (length P) + 1) with (Z.of_nat (length (P ++ [cmd]))) by (rewrite length_app; simpl; lia).
  rewrite delta_copy_args_encode, bind_Ret by done. rewrite H40. by rewrite <- !app_assoc.
Qed.

Lemma patch_loop_insert fuel src P lit R top size out :
  (1 <= length lit <= 127)%nat -> Z.of_nat (length P) < top ->
  let enc := Z.of_nat (length lit) :: lit in
  patch_loop (S fuel) src (P ++ enc ++ R) top size (Z.of_nat (length P)) out =
    (out ← mem_append size out lit;
     patch_loop fuel src (P ++ enc ++ R) top size (Z.of_nat (length (P ++ enc))) out).
Proof.
  intros Hl Hlt. cbn [patch_loop app]. destruct (Z.ltb_spec (Z.of_nat (length P)) top); [|lia].
  rewrite rd_app_l, bind_Ret by done.
  assert (E : Z.land (Z.of_nat (length lit)) 0x80 = 0) by (apply land_0x80; unfold is_byte; lia).
  rewrite E. cbn [negb Z.eqb]. set (c := Z.of_nat (length lit)) in *.
  rewrite (cons_middle c P (lit ++ R)), app_assoc.
  replace (Z.of_nat (length P) + 1) with (Z.of_nat (length (P ++ [c]))) by (rewrite length_app; simpl; lia).
  pose proof (mem_read_here (P ++ [c]) lit R) as Hm. fold c in Hm. rewrite Hm, bind_Ret.
  replace (Z.of_nat (length (P ++ [c])) + c) with (Z.of_nat (length (P ++ c :: lit))); [done|].
  rewrite !length_app. simpl. unfold c. lia.
Qed.

Lemma patch_loop_op fuel src P op R top size out :
  op_ok op -> Z.of_nat (length P) < top ->
  patch_loop (S fuel) src (P ++ encode_op op ++ R) top size (Z.of_nat (length P)) out =
    (bs ← op_outcome src out op;
     out ← mem_append size out bs;
     patch_loop fuel src (P ++ encode_op op ++ R) top size (Z.of_nat (length (P ++ encode_op op))) out).
Proof.
  intros Hok Hlt. unfold op_outcome. destruct op as [off sz|off sz|lit]; cbn [encode_op op_ok op_output] in *.
  - rewrite patch_loop_copy by tauto. unfold mem_read. simpl (0 =? 0). by destruct (_ <=? _).
  - rewrite patch_loop_copy by tauto. unfold mem_read. simpl (0x40 =? 0). by destruct (_ <=? _).
  - by rewrite patch_loop_insert.
Qed.

Lemma encode_op_length op : (1 <= length (encode_op op))%nat.
Proof. destruct op; simpl; lia. Qed.

Lemma apply_ops_length src ops acc dst :
  apply_ops src ops acc = Some dst -> (length acc <= length dst)%nat.
Proof.
  revert acc; induction ops as [|op ops IH]; intros acc; simpl; [intros [= ->]; lia|].
  destruct (op_output src acc op) as [bs|]; simpl; [|done]. intros H%IH. rewrite length_app in H. lia.
Qed.

Lemma patch_loop_done fuel src delta top size data out :
  top <= data -> patch_loop fuel src delta top size data out = Ret (data, out).
Proof. intros. destruct fuel; cbn [patch_loop]; destruct (Z.ltb_spec data top); done || lia. Qed.

(** The loop computes the meaning, and leaves its buffers exactly when the
    meaning is undefined or too long. *)
Lemma patch_loop_ops ops fuel src P R size out :
  Forall op_ok ops -> Z.of_nat (length out) <= size ->
  (length (concat (map encode_op ops)) <= fuel)%nat ->
  patch_loop fuel src (P ++ concat (map encode_op ops) ++ R)
    (Z.of_nat (length (P ++ concat (map encode_op ops)))) size (Z.of_nat (length P)) out =
    match apply_ops src ops out with
    | Some dst =>
        if Z.of_nat (length dst) <=? size
        then Ret (Z.of_nat (length (P ++ concat (map encode_op ops))), dst) else Ub
    | None => Ub
    end.
Proof.
  intros HF; revert fuel P out; induction HF as [|op ops Hop HF IH]; intros fuel P out Hs Hf;
    cbn [map concat apply_ops] in *.
  { rewrite app_nil_r, patch_loop_done by lia. destruct (Z.leb_spec (Z.of_nat (length out)) size); [done|lia]. }
  pose proof (encode_op_length op) as He.
  rewrite length_app in Hf. destruct fuel as [|fuel]; [lia|].
  rewrite <- (app_assoc (encode_op op)), patch_loop_op by (done || rewrite !length_app; lia).
  unfold op_outcome. destruct (op_output src out op) as [bs|]; simpl; [|done].
  unfold mem_append. rewrite <- length_app.
  destruct (Z.leb_spec (Z.of_nat (length (out ++ bs))) size) as [Hle|Hgt]; simpl.
  - rewrite !(app_assoc P). apply IH; lia.
  - destruct (apply_ops src ops (out ++ bs)) as [dst|] eqn:Ea; [|done].
    apply apply_ops_length in Ea. destruct (Z.leb_spec (Z.of_nat (length dst)) size); [lia|done].
Qed.

(** The fuel of the reading loops is the number of bytes of the delta. *)
Lemma encode_delta_split s d ops R :
  encode_delta s d ops ++ R = (encode_hdr s ++ encode_hdr d) ++ concat (map encode_op ops) ++ R.
Proof. unfold encode_delta. by rewrite <- !app_assoc. Qed.

Lemma encode_delta_headers s d ops R :
  0 <= s < 2 ^ 31 -> 0 <= d < 2 ^ 31 ->
  get_delta_hdr_size (encode_delta s d ops ++ R) 0 = Ret (s, Z.of_nat (length (encode_hdr s))) /\
  get_delta_hdr_size (encode_delta s d ops ++ R) (Z.of_nat (length (encode_hdr s))) =
    Ret (d, Z.of_nat (length (encode_hdr s ++ encode_hdr d))).
Proof.
  intros Hs Hd. rewrite encode_delta_split, <- app_assoc. split.
  - by apply (get_delta_hdr_size_encode []).
  - by apply get_delta_hdr_size_encode.
Qed.

Lemma encode_delta_length s d ops :
  length (encode_delta s d ops) = length ((encode_hdr s ++ encode_hdr d) ++ concat (map encode_op ops)).
Proof. unfold encode_delta. by rewrite <- app_assoc. Qed.

(** [patch_delta] on every delta of the format, well-formed or not. *)
Definition patch_meaning (mok : Z -> bool) (src : bytes) (s d : Z) (ops : list delta_op) : outcome (option bytes) :=
  if negb (s =? Z.of_nat (length src)) then Ret None
  else if negb (mok d) then Ret None
  else
    match apply_ops src ops [] with
    | None => Ub
    | Some dst =>
        if Z.of_nat (length dst) =? d then Ret (Some dst)
        else if Z.of_nat (length dst) <? d then Ret None else Ub
    end.

Lemma patch_delta_meaning mok src s d ops R :
  Forall op_ok ops -> 0 <= s < 2 ^ 31 -> 0 <= d < 2 ^ 31 ->
  (4 <= length (encode_delta s d ops))%nat ->
  patch_delta mok src (encode_delta s d ops ++ R) (Z.of_nat (length (encode_delta s d ops))) =
    patch_meaning mok src s d ops.
Proof.
  intros HF Hs Hd Hmin. unfold patch_delta, DELTA_SIZE_MIN, patch_meaning.
  destruct (Z.ltb_spec (Z.of_nat (length (encode_delta s d ops))) 4); [lia|].
  destruct (encode_delta_headers s d ops R Hs Hd) as [E1 E2]. rewrite E1, bind_Ret.
  destruct (s =? Z.of_nat (length src)); cbn [negb]; [|done]. rewrite E2, bind_Ret.
  destruct (mok d); cbn [negb]; [|done].
  rewrite encode_delta_length, encode_delta_split, patch_loop_ops.
  2:done. 2:simpl; lia. 2:rewrite Nat2Z.id, length_app; lia.
  destruct (apply_ops src ops []) as [dst|]; [|done].
  destruct (Z.leb_spec (Z.of_nat (length dst)) d).
  - rewrite bind_Ret, Z.eqb_refl. simpl.
    destruct (Z.eqb_spec (Z.of_nat (length dst)) d), (Z.ltb_spec (Z.of_nat (length dst)) d); try done; lia.
  - destruct (Z.eqb_spec (Z.of_nat (length dst)) d), (Z.ltb_spec (Z.of_nat (length dst)) d); try done; lia.
Qed.

(** C37.  [patch_delta] implements the format: given any list of operations
    in their encoding (and any readable memory [R] behind the delta), it
    returns the buffer the operations describe exactly when the recorded
    source size is that of the source and the recorded result size that of the
    result, returns NULL when the source does not match, memory is short or the
    result comes out too small, and leaves its buffers (undefined behaviour)
    exactly when an operation copies from outside the source or the result,
    or the result outgrows the recorded size: the code checks none of these
    before it copies. *)
Theorem patch_delta_spec (malloc_ok : Z -> bool) (src R : bytes) (s d : Z) (ops : list delta_op)
    (Hops : Forall op_ok ops) (Hs : 0 <= s < 2 ^ 31) (Hd : 0 <= d < 2 ^ 31)
    (Hmin : (4 <= length (encode_delta s d ops))%nat) :
  patch_delta malloc_ok src (encode_delta s d ops ++ R) (Z.of_nat (length (encode_delta s d ops))) =
    patch_meaning malloc_ok src s d ops.
Proof. by apply patch_delta_meaning. Qed.

Lemma patch_delta_spec_witness :
  patch_delta (fun _ => true) (str "hello world")
    (encode_delta 11 7 [OpCopy 6 5; OpInsert (str "!!")] ++ str "junk") 8 = Ret (Some (str "world!!")) /\
  patch_delta (fun _ => true) (str "hello world") (encode_delta 11 5 [OpCopy 7 5] ++ []) 5 = Ub.
Proof.
  split.
  - apply (patch_delta_spec (fun _ => true) (str "hello world") (str "junk") 11 7 [OpCopy 6 5; OpInsert (str "!!")]);
      [apply (bool_decide_unpack _); vm_compute; exact I|lia|lia|vm_compute; lia].
  - apply (patch_delta_spec (fun _ => true) (str "hello world") [] 11 5 [OpCopy 7 5]);
      [apply (bool_decide_unpack _); vm_compute; exact I|lia|lia|vm_compute; lia].
Defined.

(** ** [count_delta] *)

Definition op_size (op : delta_op) : Z :=
  match op with OpCopy _ size | OpCopyDst _ size => size | OpInsert lit => Z.of_nat (length lit) end.
Definition op_copied (op : delta_op) : Z := match op with OpCopy _ size => size | _ => 0 end.
Definition op_literal (op : delta_op) : Z := match op with OpInsert lit => Z.of_nat (length lit) | _ => 0 end.

Definition sumZ (l : list Z) : Z := foldr Z.add 0 l.

Lemma sumZ_cons x l : sumZ (x :: l) = x + sumZ l.
Proof. done. Qed.

Lemma op_sizes_range op : op_ok op ->
  0 <= op_copied op /\ 0 <= op_literal op /\ op_copied op + op_literal op <= op_size op.
Proof. destruct op; simpl; lia. Qed.

Lemma count_loop_op fuel P op R top c l out :
  op_ok op -> Z.of_nat (length P) < top ->
  0 <= c -> 0 <= l -> c + op_copied op < 2 ^ 64 -> l + op_literal op < 2 ^ 64 ->
  0 <= out -> out + op_size op < 2 ^ 64 ->
  count_loop (S fuel) (P ++ encode_op op ++ R) top (Z.of_nat (length P)) c l out =
    count_loop fuel (P ++ encode_op op ++ R) top (Z.of_nat (length (P ++ encode_op op)))
      (c + op_copied op) (l + op_literal op) (out + op_size op).
Proof.
  assert (Hcopy : forall d off sz, (d = 0 \/ d = 0x40) -> 0 <= off < 2 ^ 31 -> 1 <= sz <= 0x10000 ->
    Z.of_nat (length P) < top ->
    count_loop (S fuel) (P ++ (copy_cmd d off sz :: copy_args off sz) ++ R) top (Z.of_nat (length P)) c l out =
    count_loop fuel (P ++ (copy_cmd d off sz :: copy_args off sz) ++ R) top
      (Z.of_nat (length (P ++ (copy_cmd d off sz :: copy_args off sz))))
      (if negb (d =? 0) then c else u64 (c + sz)) l (u64 (out + sz))).
  { intros d off sz Hd Hoff Hsz Hlt. cbn [count_loop app]. destruct (Z.ltb_spec (Z.of_nat (length P)) top); [|lia].
    rewrite rd_app_l, bind_Ret by done.
    destruct (copy_cmd_flags d off sz Hd) as (_&H80&H40&Hfl). set (cmd := copy_cmd d off sz) in *.
    destruct (Z.eqb_spec (Z.land cmd 0x80) 0); [done|]. cbn [negb].
    rewrite (cons_middle cmd P (copy_args off sz ++ R)), app_assoc.
    replace (Z.of_nat (length P) + 1) with (Z.of_nat (length (P ++ [cmd]))) by (rewrite length_app; simpl; lia).
    rewrite delta_copy_args_encode, bind_Ret by done. rewrite H40. by rewrite <- !app_assoc. }
  intros Hok Hlt Hc Hl Hc' Hl' Ho Ho'.
  destruct op as [off sz|off sz|lit]; cbn [encode_op op_ok op_copied op_literal op_size] in *.
  - rewrite Hcopy by tauto. change (negb (0 =? 0)) with false. by rewrite !u64_small, Z.add_0_r by lia.
  - rewrite Hcopy by tauto. change (negb (0x40 =? 0)) with true. cbv iota. by rewrite u64_small, !Z.add_0_r by lia.
  - cbn [count_loop app]. destruct (Z.ltb_spec (Z.of_nat (length P)) top); [|lia].
    rewrite rd_app_l, bind_Ret by done.
    assert (E : Z.land (Z.of_nat (length lit)) 0x80 = 0) by (apply land_0x80; unfold is_byte; lia).
    rewrite E. cbn [negb Z.eqb]. rewrite !u64_small, Z.add_0_r by lia. f_equal.
    rewrite length_app. simpl. lia.
Qed.

Lemma count_loop_ops ops fuel P R c l out :
  Forall op_ok ops -> 0 <= c -> 0 <= l -> c + l <= out ->
  out + sumZ (map op_size ops) < 2 ^ 64 ->
  (length (concat (map encode_op ops)) <= fuel)%nat ->
  count_loop fuel (P ++ concat (map encode_op ops) ++ R)
    (Z.of_nat (length (P ++ concat (map encode_op ops)))) (Z.of_nat (length P)) c l out =
    Ret (Z.of_nat (length (P ++ concat (map encode_op ops))),
         c + sumZ (map op_copied ops), l + sumZ (map op_literal ops), out + sumZ (map op_size ops)).
Proof.
  intros HF; revert fuel P c l out; induction HF as [|op ops Hop HF IH];
    intros fuel P c l out Hc Hl Hcl Ho Hf; cbn [map concat] in *.
  { change (sumZ []) with 0. rewrite app_nil_r, !Z.add_0_r. destruct fuel; cbn [count_loop];
      destruct (Z.ltb_spec (Z.of_nat (length P)) (Z.of_nat (length P))); done || lia. }
  rewrite !sumZ_cons in *.
  pose proof (op_sizes_range op Hop) as (Hr1&Hr2&Hr3).
  assert (Hnn : 0 <= sumZ (map op_size ops)).
  { clear -HF. induction HF as [|o os Ho HF IH]; cbn [map]; [done|].
    pose proof (op_sizes_range o Ho). rewrite sumZ_cons. lia. }
  rewrite length_app in Hf. pose proof (encode_op_length op) as He. destruct fuel as [|fuel]; [lia|].
  rewrite <- (app_assoc (encode_op op)), count_loop_op;
    [|done|rewrite !length_app; lia|lia|lia|lia|lia|lia|lia].
  rewrite !(app_assoc P). rewrite IH by lia. by rewrite !Z.add_assoc.
Qed.

Lemma count_delta_meaning s d ops R :
  Forall op_ok ops -> 0 <= s < 2 ^ 31 -> 0 <= d < 2 ^ 31 ->
  (4 <= length (encode_delta s d ops))%nat -> sumZ (map op_size ops) < 2 ^ 64 ->
  count_delta (encode_delta s d ops ++ R) (Z.of_nat (length (encode_delta s d ops))) =
    Ret (if sumZ (map op_size ops) =? d
         then Some (sumZ (map op_copied ops), sumZ (map op_literal ops)) else None).
Proof.
  intros Hops Hs Hd Hmin Hsum.
  unfold count_delta, DELTA_SIZE_MIN. destruct (Z.ltb_spec (Z.of_nat (length (encode_delta s d ops))) 4); [lia|].
  destruct (encode_delta_headers s d ops R Hs Hd) as [E1 E2]. rewrite E1, bind_Ret, E2, bind_Ret.
  rewrite encode_delta_length, encode_delta_split, count_loop_ops by (done || rewrite ?Nat2Z.id, ?length_app; lia).
  rewrite bind_Ret, Z.eqb_refl, !Z.add_0_l. simpl. by destruct (_ =? d).
Qed.

(** [count_delta] counts what the operations say: on every encoding of
    a list of operations it reports the number of bytes copied from the source
    and of literal bytes, not those copied within the result, provided that the
    operations add up to the recorded result size, and fails otherwise. *)
Theorem count_delta_spec (s d : Z) (ops : list delta_op) (R : bytes)
    (Hops : Forall op_ok ops) (Hs : 0 <= s < 2 ^ 31) (Hd : 0 <= d < 2 ^ 31)
    (Hmin : (4 <= length (encode_delta s d ops))%nat) (Hsum : sumZ (map op_size ops) < 2 ^ 64) :
  count_delta (encode_delta s d ops ++ R) (Z.of_nat (length (encode_delta s d ops))) =
    Ret (if sumZ (map op_size ops) =? d
         then Some (sumZ (map op_copied ops), sumZ (map op_literal ops)) else None).
Proof. by apply count_delta_meaning. Qed.

Lemma count_delta_spec_witness :
  count_delta (encode_delta 11 12 [OpCopy 6 5; OpInsert (str "!!"); OpCopyDst 0 5] ++ []) 10 = Ret (Some (5, 2)).
Proof.
  apply (count_delta_spec 11 12 [OpCopy 6 5; OpInsert (str "!!"); OpCopyDst 0 5] []);
    [apply (bool_decide_unpack _); vm_compute; exact I|lia|lia|vm_compute; lia|vm_compute; reflexivity].
Defined.

(** ** [count_delta] follows [patch_delta] *)

Lemma delta_arg_nonneg buf cmd bit sh acc data acc' data' :
  0 <= acc -> delta_arg buf cmd bit sh (acc, data) = Ret (acc', data') -> 0 <= acc'.
Proof.
  unfold delta_arg. intros Ha. destruct (_ =? 0); [by intros [= <- <-]|].
  intros (b&_&[= <- <-])%bind_Ret_inv. apply Z.lor_nonneg. split; [done|apply u64_range].
Qed.

Lemma delta_copy_args_nonneg buf cmd data off size data' :
  delta_copy_args buf cmd data = Ret (off, size, data') -> 0 <= off /\ 0 <= size.
Proof.
  unfold delta_copy_args.
  intros ([a1 d1]&E1&H)%bind_Ret_inv. apply bind_Ret_inv in H as ([a2 d2]&E2&H).
  apply bind_Ret_inv in H as ([a3 d3]&E3&H). apply bind_Ret_inv in H as ([a4 d4]&E4&H).
  apply bind_Ret_inv in H as ([s1 d5]&E5&H). apply bind_Ret_inv in H as ([s2 d6]&E6&[= <- <- <-]).
  apply delta_arg_nonneg in E1, E5; [|lia..]. apply delta_arg_nonneg in E2, E6; [|done..].
  apply delta_arg_nonneg in E3; [|done]. apply delta_arg_nonneg in E4; [|done].
  split; [done|]. destruct (s2 =? 0); lia.
Qed.

Lemma mem_read_length buf off n bs :
  0 <= off -> 0 <= n -> mem_read buf off n = Ret bs -> Z.of_nat (length bs) = n.
Proof.
  intros Ho Hn. unfold mem_read. destruct (Z.leb_spec (off + n) (Z.of_nat (length buf))); [|done].
  intros [= <-]. rewrite length_slice. lia.
Qed.

Lemma mem_append_Ret size out bs out' :
  mem_append size out bs = Ret out' -> out' = out ++ bs /\ Z.of_nat (length out') <= size.
Proof.
  unfold mem_append. destruct (Z.leb_spec (Z.of_nat (length out + length bs)) size); [|done].
  intros [= <-]. split; [done|]. rewrite length_app. lia.
Qed.

Lemma rd_byte buf i b : bytes_ok buf -> rd buf i = Ret b -> is_byte b.
Proof.
  unfold rd. intros Hb. destruct (bool_decide _); [|done].
  destruct (buf !! Z.to_nat i) eqn:E; [|done]. intros [= <-]. eapply bytes_ok_lookup; eauto.
Qed.

Lemma count_loop_patch fuel src delta top size data out data' out' c l :
  bytes_ok delta -> size < 2 ^ 64 -> 0 <= c -> 0 <= l -> c + l <= Z.of_nat (length out) ->
  patch_loop fuel src delta top size data out = Ret (data', out') -> Z.of_nat (length out) <= size ->
  exists c' l', count_loop fuel delta top data c l (Z.of_nat (length out)) =
      Ret (data', c', l', Z.of_nat (length out')) /\
    0 <= c' /\ 0 <= l' /\ c' + l' <= Z.of_nat (length out').
Proof.
  intros Hb Hsize. revert data out c l; induction fuel as [|fuel IH]; intros data out c l Hc Hl Hcl;
    cbn [patch_loop count_loop]; (destruct (data <? top); [|intros [= <- <-] _; eauto 10]); [done|].
  intros (cmd&Ec&H)%bind_Ret_inv Hout. rewrite Ec, bind_Ret. pose proof (rd_byte _ _ _ Hb Ec) as Hcmd.
  unfold is_byte in Hcmd. destruct (negb (Z.land cmd 0x80 =? 0)).
  - apply bind_Ret_inv in H as ([[off sz] d1]&Ea&H). rewrite Ea, bind_Ret.
    apply bind_Ret_inv in H as (bs&Er&H). apply bind_Ret_inv in H as (o1&Eo&H).
    apply delta_copy_args_nonneg in Ea as [Hoff Hsz]. apply mem_read_length in Er; [|done..].
    apply mem_append_Ret in Eo as [-> Ho1]. rewrite length_app in Ho1.
    destruct (IH d1 (out ++ bs) (if negb (Z.land cmd 0x40 =? 0) then c else c + sz) l)
      as (c'&l'&E&Hs); [destruct (negb _); lia|done|rewrite length_app; destruct (negb _); lia|done|
      rewrite length_app; lia|].
    exists c', l'. split; [|done]. rewrite <- E. rewrite length_app, !u64_small by lia. f_equal. lia.
  - apply bind_Ret_inv in H as (bs&Er&H). apply bind_Ret_inv in H as (o1&Eo&H).
    apply mem_append_Ret in Eo as [-> Ho1]. rewrite length_app in Ho1.
    assert (El : Z.of_nat (length bs) = cmd).
    { destruct (Z.lt_ge_cases (data + 1) 0) as [Hneg|]; [|by eapply mem_read_length; [| |exact Er]; lia].
      exfalso. unfold rd in Ec. rewrite bool_decide_false in Ec by lia. done. }
    destruct (IH (data + 1 + cmd) (out ++ bs) c (l + cmd)) as (c'&l'&E&Hs);
      [done|lia|rewrite length_app; lia|done|rewrite length_app; lia|].
    exists c', l'. split; [|done]. rewrite <- E. rewrite length_app, !u64_small by lia. f_equal. lia.
Qed.

(** [count_delta] agrees with [patch_delta] on every delta, whoever made
    it: whenever [patch_delta] restores a buffer, [count_delta] succeeds on
    the same delta, and what it reports as copied and as literal together is
    no more than the size of that buffer. *)
Theorem count_delta_agrees (malloc_ok : Z -> bool) (src delta dst : bytes) (delta_size : Z)
    (Hb : bytes_ok delta) (Hd : Z.of_nat (length dst) < 2 ^ 64)
    (Hp : patch_delta malloc_ok src delta delta_size = Ret (Some dst)) :
  exists copied literal, count_delta delta delta_size = Ret (Some (copied, literal)) /\
    0 <= copied /\ 0 <= literal /\ copied + literal <= Z.of_nat (length dst).
Proof.
  unfold patch_delta, count_delta in *. destruct (delta_size <? DELTA_SIZE_MIN); [done|].
  apply bind_Ret_inv in Hp as ([s d1]&E1&Hp). rewrite E1, bind_Ret.
  destruct (negb _); [done|]. apply bind_Ret_inv in Hp as ([d d2]&E2&Hp). rewrite E2, bind_Ret.
  destruct (negb (malloc_ok d)); [done|]. apply bind_Ret_inv in Hp as ([d3 out]&E3&Hp).
  destruct (Z.eqb_spec d3 delta_size) as [->|]; [|done].
  destruct (Z.eqb_spec (Z.of_nat (length out)) d) as [<-|]; [|done]. injection Hp as ->.
  destruct (count_loop_patch _ src delta _ _ _ [] _ _ 0 0 Hb Hd ltac:(lia) ltac:(lia) ltac:(done) E3)
    as (c&l&E&Hs); [simpl; lia|].
  simpl length in E. change (Z.of_nat 0) with 0 in E. rewrite E, bind_Ret, !Z.eqb_refl. simpl. eauto.
Qed.

Lemma count_delta_agrees_witness :
  exists copied literal,
    count_delta (encode_delta 11 12 [OpCopy 6 5; OpInsert (str "!!"); OpCopyDst 0 5]) 10 =
      Ret (Some (copied, literal)) /\
    0 <= copied /\ 0 <= literal /\ copied + literal <= 12.
Proof.
  apply (count_delta_agrees (fun _ => true) (str "hello world") _ (str "world!!world") 10).
  - apply (bool_decide_unpack _). vm_compute. exact I.
  - vm_compute. reflexivity.
  - vm_compute. reflexivity.
Defined.

(** The size header is read as an [int]: a recorded size of 2 GiB or more
    does not come back. *)
Example delta_hdr_2GiB :
  get_delta_hdr_size (encode_hdr (2 ^ 31)) 0 = Ret (2 ^ 64 - 2 ^ 31, 5) /\
  get_delta_hdr_size (encode_hdr (2 ^ 35)) 0 = Ub.
Proof. split; vm_compute; reflexivity. Qed.
