(* ===== verification/DiffDelta.v ===== *)
(** * Delta generation (diff-delta.c)

    [adler32], [hashbits], the chunked record allocator ([cha_init],
    [cha_alloc]), the fingerprint table ([delta_prepare]) and the generator
    [diff_delta].  Pointers into [from_buf] and [to_buf] are offsets.  The
    output buffer is the list of the [outpos] bytes stored so far next to the
    size [outsize] it was allocated with; a store at or past [outsize] is
    [Ub].  [malloc] and [realloc] may fail: the [n]-th call, for [size] bytes,
    succeeds iff [malloc_ok n size].  [free] has no effect on the model. *)

From stdpp Require Import base list numbers strings.
From Stdlib Require Import ZArith Lia.
From S2P Require Import Prelude Delta.

(** ** The C code *)

Definition BLK_SIZE : Z := 16.
Definition GR_PRIME : Z := 0x9e370001.
Definition HASH (v b : Z) : Z := Z.shiftr (u32 (v * GR_PRIME)) (32 - b).
Definition BASE : Z := 65521.
Definition NMAX : nat := Z.to_nat 5552.

(** [DO1]: [s1 += buf[i]; s2 += s1;] *)
Definition adler_step (s : Z * Z) (b : Z) : Z * Z :=
  let s1 := u32 (s.1 + b) in (s1, u32 (s.2 + s1)).

(** [while (k >= 16)]: sixteen steps at a time. *)
Fixpoint adler_do16 (fuel k : nat) (s : Z * Z) (buf : bytes) : Z * Z * bytes * nat :=
  if (16 <=? k)%nat then
    match fuel with
    | O => (s, buf, k)
    | S fuel => adler_do16 fuel (k - 16) (foldl adler_step s (take 16 buf)) (drop 16 buf)
    end
  else (s, buf, k).

(** [while (len > 0)]: at most [NMAX] bytes before the sums are reduced. *)
Fixpoint adler_loop (fuel len : nat) (s : Z * Z) (buf : bytes) : Z * Z :=
  match len, fuel with
  | O, _ | _, O => s
  | _, S fuel =>
      let k := (len `min` NMAX)%nat in
      let '(s, buf', k') := adler_do16 k k s buf in
      let s := foldl adler_step s (take k' buf') in
      adler_loop fuel (len - k) (s.1 mod BASE, s.2 mod BASE) (drop k' buf')
  end.

(** [adler32(adler, buf, len)], [buf] being the [len] bytes. *)
Definition adler32 (adler : Z) (buf : bytes) : Z :=
  let s1 := Z.land adler 0xffff in
  let s2 := Z.shiftr adler 16 in
  let '(s1, s2) := adler_loop (length buf) (length buf) (s1, s2) buf in
  Z.lor (u32 (Z.shiftl s2 16)) s1.

Fixpoint hashbits_loop (fuel : nat) (size val bits : Z) : Z :=
  if (val <? size) && (bits <? 32) then
    match fuel with
    | O => bits
    | S fuel => hashbits_loop fuel size (u32 (Z.shiftl val 1)) (bits + 1)
    end
  else bits.

Definition hashbits (size : Z) : Z :=
  let bits := hashbits_loop 32 size 1 0 in
  if bits =? 0 then 1 else bits.

(** The list of nodes of a store, each by its [icurr]; [ancur] and [tail]
    are the last one. *)
Record chastore := { cha_isize : Z; cha_nsize : Z; cha_nodes : list Z }.

Definition cha_init (isize icount : Z) : chastore :=
  {| cha_isize := isize; cha_nsize := icount * isize; cha_nodes := [] |}.

(** A record is identified by the node it is in and its offset there. *)
Record bdrecord := { br_addr : nat * Z; br_fp : Z; br_ptr : Z }.

Record bdfile := {
  bdf_top : Z; (* bdf->data is offset 0 *)
  bdf_cha : chastore;
  bdf_fphbits : Z;
  bdf_fphash : list (list bdrecord) (* the chains, along [next] *)
}.

Definition sizeof_chanode : Z := 16.
Definition sizeof_bdrecord : Z := 24.

(** A store through a pointer into the output buffer: at [outpos], or before. *)
Definition put (outsize : Z) (out : bytes) (b : Z) : outcome bytes :=
  if Z.of_nat (length out) <? outsize then Ret (out ++ [u8 b]) else Ub.

Definition put_at (out : bytes) (pos b : Z) : outcome bytes :=
  if (0 <=? pos) && (pos <? Z.of_nat (length out)) then Ret (<[Z.to_nat pos := u8 b]> out) else Ub.

Definition COPYOP_SIZE (o s : Z) : Z :=
  Z.b2z (negb (Z.land o 0xff =? 0)) + Z.b2z (negb (Z.land o 0xff00 =? 0))
  + Z.b2z (negb (Z.land o 0xff0000 =? 0)) + Z.b2z (negb (Z.land o 0xff000000 =? 0))
  + Z.b2z (negb (Z.land s 0xff =? 0)) + Z.b2z (negb (Z.land s 0xff00 =? 0)) + 1.

(** [while (size) { out[outpos - 1] |= 0x80; out[outpos++] = size; size >>= 7; }] *)
Fixpoint put_size_loop (fuel : nat) (outsize : Z) (out : bytes) (size : Z) : outcome bytes :=
  if size =? 0 then Ret out
  else
    match fuel with
    | O => Ub
    | S fuel =>
        let last := Z.of_nat (length out) - 1 in
        b ← rd out last;
        out ← put_at out last (Z.lor b 0x80);
        out ← put outsize out size;
        put_size_loop fuel outsize out (Z.shiftr size 7)
    end.

(** An [unsigned long] has at most ten groups of seven bits. *)
Definition put_size (outsize : Z) (out : bytes) (size : Z) : outcome bytes :=
  out ← put outsize out size;
  put_size_loop 10 outsize out (Z.shiftr size 7).

(** [for (ptr1, ptr2; csize && *ptr1 == *ptr2; csize--, ptr1++, ptr2++);] *)
Fixpoint match_run (csize : nat) (from to : bytes) (ptr1 ptr2 : Z) : outcome Z :=
  match csize with
  | O => Ret ptr1
  | S csize =>
      a ← rd from ptr1;
      b ← rd to ptr2;
      if a =? b then match_run csize from to (ptr1 + 1) (ptr2 + 1) else Ret ptr1
  end.

(** The walk along a chain: the longest match so far and its offset. *)
Fixpoint find_match (chain : list bdrecord) (top : Z) (from to : bytes) (fp data msize moff : Z) : outcome (Z * Z) :=
  match chain with
  | [] => Ret (msize, moff)
  | brec :: chain =>
      if br_fp brec =? fp then
        let csize := top - br_ptr brec in
        let csize := Z.min csize (Z.of_nat (length to) - data) in
        ptr1 ← match_run (Z.to_nat csize) from to (br_ptr brec) data;
        let csize := ptr1 - br_ptr brec in
        if msize <? csize then
          let moff := br_ptr brec in
          let msize := csize in
          if 0x10000 <=? msize then Ret (0x10000, moff)
          else find_match chain top from to fp data msize moff
        else find_match chain top from to fp data msize moff
      else find_match chain top from to fp data msize moff
  end.

(** [if (v & 0xff) { out[outpos++] = v; i |= flag; }] *)
Definition put_arg (outsize v flag : Z) (st : bytes * Z) : outcome (bytes * Z) :=
  let '(out, i) := st in
  if Z.land v 0xff =? 0 then Ret (out, i)
  else out ← put outsize out v; Ret (out, Z.lor i flag).

(** The copy command: its operands, then the command byte at [orig].  The
    byte that [outpos++] skips is 0 here until it is stored. *)
Definition put_copy (outsize : Z) (out : bytes) (moff msize : Z) : outcome bytes :=
  let orig := Z.of_nat (length out) in
  out ← put outsize out 0;
  st ← put_arg outsize moff 0x01 (out, 0x80);
  let moff := Z.shiftr moff 8 in
  st ← put_arg outsize moff 0x02 st;
  let moff := Z.shiftr moff 8 in
  st ← put_arg outsize moff 0x04 st;
  let moff := Z.shiftr moff 8 in
  st ← put_arg outsize moff 0x08 st;
  st ← put_arg outsize msize 0x10 st;
  let msize := Z.shiftr msize 8 in
  '(out, i) ← put_arg outsize msize 0x20 st;
  put_at out orig i.

(** The output of one iteration for the match found at [data]: the new
    [data], buffer and [inscnt]. *)
Definition diff_emit (to : bytes) (outsize msize moff data : Z) (out : bytes) (inscnt : Z)
    : outcome (Z * bytes * Z) :=
  if (msize =? 0) || (msize <? COPYOP_SIZE moff msize) then
    out ← (if inscnt =? 0 then put outsize out 0 else Ret out);
    b ← rd to data;
    out ← put outsize out b;
    let inscnt := inscnt + 1 in
    if inscnt =? 0x7f then
      out ← put_at out (Z.of_nat (length out) - inscnt - 1) inscnt;
      Ret (data + 1, out, 0)
    else Ret (data + 1, out, inscnt)
  else
    out ← (if inscnt =? 0 then Ret out else put_at out (Z.of_nat (length out) - inscnt - 1) inscnt);
    out ← put_copy outsize out moff msize;
    Ret (data + msize, out, 0).

Section Allocating.
Context (malloc_ok : nat -> Z -> bool).

(** The address of a fresh record, the store and the number of calls of
    [malloc] so far; [None] is NULL. *)
Definition cha_alloc (n : nat) (cha : chastore) : option (nat * Z * chastore) * nat :=
  let take_from nodes icurr n :=
    (Some (length nodes, icurr,
       {| cha_isize := cha_isize cha; cha_nsize := cha_nsize cha;
          cha_nodes := nodes ++ [icurr + cha_isize cha] |}), n) in
  match reverse (cha_nodes cha) with
  | icurr :: rest =>
      if icurr =? cha_nsize cha then
        if malloc_ok n (sizeof_chanode + cha_nsize cha) then take_from (cha_nodes cha) 0 (S n)
        else (None, S n)
      else take_from (reverse rest) icurr n
  | [] =>
      if malloc_ok n (sizeof_chanode + cha_nsize cha) then take_from [] 0 (S n)
      else (None, S n)
  end.

(** [for ( ; data >= base; data -= BLK_SIZE)] *)
Fixpoint prepare_loop (fuel n : nat) (buf : bytes) (fphbits data : Z) (cha : chastore)
    (fphash : list (list bdrecord)) : outcome (option (chastore * list (list bdrecord)) * nat) :=
  if 0 <=? data then
    match fuel with
    | O => Ub
    | S fuel =>
        match cha_alloc n cha with
        | (None, n) => Ret (None, n)
        | (Some (node, off, cha), n) =>
            bs ← mem_read buf data (Z.min BLK_SIZE (Z.of_nat (length buf) - data));
            let fp := adler32 0 bs in
            let i := HASH fp fphbits in
            match fphash !! Z.to_nat i with
            | None => Ub
            | Some chain =>
                let brec := {| br_addr := (node, off); br_fp := fp; br_ptr := data |} in
                prepare_loop fuel n buf fphbits (data - BLK_SIZE) cha (<[Z.to_nat i := brec :: chain]> fphash)
            end
        end
    end
  else Ret (Some (cha, fphash), n).

(** [bufsize] is an [int]; [1 << fphbits] has no meaning from bit 31 on. *)
Definition delta_prepare (n : nat) (buf : bytes) : outcome (option bdfile * nat) :=
  let bufsize := i32 (Z.of_nat (length buf)) in
  let fphbits := hashbits (u32 (Z.quot bufsize BLK_SIZE + 1)) in
  if 31 <=? fphbits then Ub
  else
    let hsize := Z.shiftl 1 fphbits in
    if negb (malloc_ok n (hsize * 8)) then Ret (None, S n)
    else
      let fphash := replicate (Z.to_nat hsize) [] in
      let cha := cha_init sizeof_bdrecord (Z.quot hsize 4 + 1) in
      let data := Z.quot bufsize BLK_SIZE * BLK_SIZE in
      let data := if data =? bufsize then data - BLK_SIZE else data in
      '(r, n) ← prepare_loop (S (length buf)) (S n) buf fphbits data cha fphash;
      match r with
      | None => Ret (None, n)
      | Some (cha, fphash) =>
          Ret (Some {| bdf_top := bufsize; bdf_cha := cha; bdf_fphbits := fphbits; bdf_fphash := fphash |}, n)
      end.

(** [while (data < top)]: [data] advances in every iteration.  [moff] is only
    read where [find_match] has just set it. *)
Fixpoint diff_loop (fuel n : nat) (from to : bytes) (bdf : bdfile) (max_size outsize data moff : Z)
    (out : bytes) (inscnt : Z) : outcome (option (bytes * Z)) :=
  if data <? Z.of_nat (length to) then
    match fuel with
    | O => Ub
    | S fuel =>
        bs ← mem_read to data (Z.min (Z.of_nat (length to) - data) BLK_SIZE);
        let fp := adler32 0 bs in
        let i := HASH fp (bdf_fphbits bdf) in
        match bdf_fphash bdf !! Z.to_nat i with
        | None => Ub
        | Some chain =>
            '(msize, moff) ← find_match chain (bdf_top bdf) from to fp data 0 moff;
            '(data, out, inscnt) ← diff_emit to outsize msize moff data out inscnt;
            if negb (max_size =? 0) && (max_size <? Z.of_nat (length out)) then Ret None
            else if outsize - 8 <? Z.of_nat (length out) then
              if 2 ^ 31 <=? outsize * 3 then Ub
              else
                let outsize := Z.quot (outsize * 3) 2 in
                if malloc_ok n outsize
                then diff_loop fuel (S n) from to bdf max_size outsize data moff out inscnt
                else Ret None
            else diff_loop fuel n from to bdf max_size outsize data moff out inscnt
        end
    end
  else Ret (Some (out, inscnt)).

(** [None] is NULL, [Some delta] the [*delta_size] bytes of the result. *)
Definition diff_delta (from to : bytes) (max_size : Z) : outcome (option bytes) :=
  let from_size := Z.of_nat (length from) in
  let to_size := Z.of_nat (length to) in
  if (from_size =? 0) || (to_size =? 0) then Ret None
  else
    '(bdf, n) ← delta_prepare 0 from;
    match bdf with
    | None => Ret None
    | Some bdf =>
        let outsize := 8192 in
        if negb (malloc_ok n outsize) then Ret None
        else
          out ← put_size outsize [] from_size;
          out ← put_size outsize out to_size;
          r ← diff_loop (length to) (S n) from to bdf max_size outsize 0 0 out 0;
          match r with
          | None => Ret None
          | Some (out, inscnt) =>
              out ← (if inscnt =? 0 then Ret out
                     else put_at out (Z.of_nat (length out) - inscnt - 1) inscnt);
              Ret (Some out)
          end
    end.

End Allocating.

(** ** Adler-32 *)

(** The sums of the definition, never reduced. *)
Definition adler_sums (s : Z * Z) (buf : bytes) : Z * Z :=
  foldl (fun s b => (s.1 + b, s.2 + (s.1 + b))) s buf.

Lemma adler_do16_spec fuel k s buf :
  (k <= length buf)%nat -> (k <= fuel)%nat ->
  exists j, (j + (adler_do16 fuel k s buf).2 = k)%nat /\
    adler_do16 fuel k s buf = (foldl adler_step s (take j buf), drop j buf, (k - j)%nat).
Proof.
  revert k s buf; induction fuel as [|fuel IH]; intros k s buf Hk Hf; cbn [adler_do16];
    destruct (Nat.leb_spec 16 k); try lia; try (exists 0%nat; rewrite Nat.sub_0_r, drop_0; simpl; split; [lia|done]).
  destruct (IH (k - 16)%nat (foldl adler_step s (take 16 buf)) (drop 16 buf)) as (j&Hj&E);
    [rewrite length_drop; lia|lia|].
  exists (16 + j)%nat. rewrite E in Hj |- *. cbn [snd] in *. split; [lia|].
  rewrite <- foldl_app, take_take_drop, drop_drop. f_equal. lia.
Qed.

(** The unrolled loop is the plain one. *)
Lemma adler_chunk_spec k s buf :
  (k <= length buf)%nat ->
  let '(s', buf', k') := adler_do16 k k s buf in
  (foldl adler_step s' (take k' buf'), drop k' buf') = (foldl adler_step s (take k buf), drop k buf).
Proof.
  intros Hk. destruct (adler_do16_spec k k s buf Hk (le_n k)) as (j&Hj&E). rewrite E in Hj |- *.
  cbn [snd] in Hj. rewrite <- foldl_app, drop_drop, take_take_drop.
  by replace (j + (k - j))%nat with k by lia.
Qed.

Definition sums_range (k : Z) (s : Z * Z) : Prop :=
  0 <= s.1 <= 65520 + 255 * k /\ 0 <= s.2 /\ 2 * s.2 <= 2 * 65520 * (k + 1) + 255 * k * (k + 1).

Lemma adler_steps_exact buf k s :
  bytes_ok buf -> 0 <= k -> k + Z.of_nat (length buf) <= 5552 -> sums_range k s ->
  foldl adler_step s buf = adler_sums s buf /\
  sums_range (k + Z.of_nat (length buf)) (adler_sums s buf).
Proof.
  revert k s; induction buf as [|b buf IH]; intros k [s1 s2] Hb Hk Hlen Hs.
  { simpl. by rewrite Z.add_0_r. }
  apply bytes_ok_cons in Hb as [Hb Hbuf]. unfold is_byte in Hb. cbn [length] in Hlen |- *.
  cbn [foldl]. unfold adler_sums. cbn [foldl]. fold (adler_sums (s1 + b, s2 + (s1 + b)) buf).
  destruct Hs as (H1&H2&H3). cbn [fst snd] in *.
  assert (Hs' : sums_range (k + 1) (s1 + b, s2 + (s1 + b))).
  { unfold sums_range. cbn [fst snd]. split; [lia|]. split; [lia|]. nia. }
  assert (E : adler_step (s1, s2) b = (s1 + b, s2 + (s1 + b))).
  { unfold adler_step. cbn [fst snd]. destruct Hs' as (_&_&H3'). cbn [fst snd] in H3'.
    rewrite (u32_small (s1 + b)) by lia. rewrite u32_small; [done|]. nia. }
  rewrite E. replace (k + Z.of_nat (S (length buf))) with (k + 1 + Z.of_nat (length buf)) by lia.
  apply IH; [done|lia|lia|done].
Qed.

(** Reducing early does not change the sums modulo [BASE]. *)
Lemma adler_sums_mod s t buf :
  s.1 mod BASE = t.1 mod BASE -> s.2 mod BASE = t.2 mod BASE ->
  (adler_sums s buf).1 mod BASE = (adler_sums t buf).1 mod BASE /\
  (adler_sums s buf).2 mod BASE = (adler_sums t buf).2 mod BASE.
Proof.
  revert s t; induction buf as [|b buf IH]; intros [s1 s2] [t1 t2] H1 H2; [done|].
  cbn [fst snd] in *. apply IH; cbn [fst snd].
  - by rewrite (Z.add_mod s1), (Z.add_mod t1), H1 by done.
  - rewrite (Z.add_mod s2), (Z.add_mod t2), H2 by done.
    by rewrite (Z.add_mod s1), (Z.add_mod t1), H1 by done.
Qed.

Lemma adler_loop_spec fuel buf s :
  bytes_ok buf -> (length buf <= fuel)%nat -> 0 <= s.1 < BASE -> 0 <= s.2 < BASE ->
  adler_loop fuel (length buf) s buf =
    ((adler_sums s buf).1 mod BASE, (adler_sums s buf).2 mod BASE).
Proof.
  revert buf s; induction fuel as [|fuel IH]; intros buf s Hb Hf H1 H2.
  { destruct buf; [|simpl in Hf; lia]. simpl. rewrite !Z.mod_small by done. by destruct s. }
  destruct buf as [|b0 buf0] eqn:Eb; [simpl; rewrite !Z.mod_small by done; by destruct s|].
  rewrite <- Eb in *. assert (Hpos : (0 < length buf)%nat) by (subst buf; simpl; lia). clear b0 buf0 Eb.
  cbn [adler_loop]. destruct (length buf) as [|len'] eqn:El; [lia|]. rewrite <- El in *.
  set (k := (length buf `min` NMAX)%nat).
  assert (Hk : (0 < k <= length buf)%nat /\ Z.of_nat k <= 5552) by (unfold k, NMAX; lia).
  pose proof (adler_chunk_spec k s buf ltac:(lia)) as Hc.
  destruct (adler_do16 k k s buf) as [[s' buf'] k']. injection Hc as Hs' Hbuf'. rewrite Hs', Hbuf'.
  destruct (adler_steps_exact (take k buf) 0 s) as [E _];
    [by apply bytes_ok_take|lia|rewrite length_take; lia| |].
  { unfold sums_range, BASE in *. lia. }
  rewrite E. replace (length buf - k)%nat with (length (drop k buf)) by (by rewrite length_drop).
  rewrite IH; [|by apply bytes_ok_drop|rewrite length_drop; lia|apply Z.mod_pos_bound; done..].
  assert (Ea : adler_sums s buf = adler_sums (adler_sums s (take k buf)) (drop k buf)).
  { unfold adler_sums. by rewrite <- foldl_app, take_drop. }
  rewrite Ea. destruct (adler_sums_mod
    ((adler_sums s (take k buf)).1 mod BASE, (adler_sums s (take k buf)).2 mod BASE)
    (adler_sums s (take k buf)) (drop k buf)) as [M1 M2]; cbn [fst snd]; rewrite ?Z.mod_mod by done; [done..|].
  by rewrite M1, M2.
Qed.

(** [adler32] is the Adler-32 of its buffer: the loop that is unrolled
    sixteen times and reduces the sums only every [NMAX] bytes, on 32-bit
    integers, computes the two sums of the definition modulo 65521, with no
    overflow however long the buffer is. *)
Theorem adler32_spec (s1 s2 : Z) (buf : bytes)
    (Hb : bytes_ok buf) (H1 : 0 <= s1 < BASE) (H2 : 0 <= s2 < BASE) :
  adler32 (s2 * 65536 + s1) buf =
    ((adler_sums (s1, s2) buf).2 mod BASE) * 65536 + (adler_sums (s1, s2) buf).1 mod BASE.
Proof.
  unfold adler32. change 0xffff with (Z.ones 16). rewrite Z.land_ones, Z.shiftr_div_pow2 by lia.
  change (2 ^ 16) with 65536. rewrite Z.div_add_l, Z.div_small, Z.add_0_r by (unfold BASE in *; lia).
  rewrite (Z.add_comm _ s1), Z.mod_add, Z.mod_small by (unfold BASE in *; lia).
  rewrite adler_loop_spec by (done || unfold BASE in *; simpl; lia).
  pose proof (Z.mod_pos_bound (adler_sums (s1, s2) buf).1 BASE ltac:(done)).
  pose proof (Z.mod_pos_bound (adler_sums (s1, s2) buf).2 BASE ltac:(done)). unfold BASE in *.
  rewrite u32_small, lor_shiftl_add by (rewrite ?Z.shiftl_mul_pow2; lia). lia.
Qed.

Lemma adler32_spec_witness : adler32 (0 * 65536 + 1) (str "Wikipedia") = 0x11E60398.
Proof.
  rewrite (adler32_spec 1 0 (str "Wikipedia") (str_bytes_ok _)); [|unfold BASE; lia..].
  vm_compute. reflexivity.
Defined.

(** ** The hash table's size *)

Lemma HASH_range v b : 0 <= b <= 32 -> 0 <= HASH v b < 2 ^ b.
Proof.
  intros. unfold HASH. rewrite Z.shiftr_div_pow2 by lia. pose proof (u32_range (v * GR_PRIME)).
  assert (E : 2 ^ 32 = 2 ^ b * 2 ^ (32 - b)) by (rewrite <- Z.pow_add_r by lia; f_equal; lia).
  split; [apply Z.div_pos; lia|]. apply Z.div_lt_upper_bound; lia.
Qed.

Lemma hashbits_loop_spec fuel size bits m :
  0 <= bits <= m -> m < 32 -> size <= 2 ^ m -> m - bits <= Z.of_nat fuel ->
  bits <= hashbits_loop fuel size (2 ^ bits) bits <= m /\
  size <= 2 ^ hashbits_loop fuel size (2 ^ bits) bits.
Proof.
  revert bits; induction fuel as [|fuel IH]; intros bits Hb Hm Hs Hf; cbn [hashbits_loop];
    destruct (Z.ltb_spec (2 ^ bits) size) as [Hlt|Hge]; cbn [andb]; try lia.
  - assert (bits = m) by lia. subst. lia.
  - assert (bits < m) by (destruct (Z.eq_dec bits m) as [->|]; lia).
    destruct (Z.ltb_spec bits 32); [|lia].
    rewrite Z.shiftl_mul_pow2 by lia.
    replace (2 ^ bits * 2 ^ 1) with (2 ^ (bits + 1)) by (rewrite Z.pow_add_r; lia).
    pose proof (Z.pow_le_mono_r 2 (bits + 1) 31 ltac:(lia) ltac:(lia)).
    rewrite u32_small by lia. destruct (IH (bits + 1)); lia.
Qed.

Lemma hashbits_spec size : size <= 2 ^ 28 -> 1 <= hashbits size <= 28 /\ size <= 2 ^ hashbits size.
Proof.
  intros Hs. destruct (hashbits_loop_spec 32 size 0 28) as [H1 H2]; [lia..|].
  change (2 ^ 0) with 1 in *. unfold hashbits.
  destruct (Z.eqb_spec (hashbits_loop 32 size 1 0) 0) as [E|]; [|lia].
  rewrite E in H2. change (2 ^ 0) with 1 in H2. change (2 ^ 1) with 2. lia.
Qed.

(** ** The record allocator *)

Record cha_wf (cha : chastore) : Prop := {
  cha_wf_isize : 0 < cha_isize cha;
  cha_wf_nsize : 0 < cha_nsize cha /\ (cha_isize cha | cha_nsize cha);
  cha_wf_nodes : Forall (fun icurr => 0 <= icurr <= cha_nsize cha /\ (cha_isize cha | icurr)) (cha_nodes cha)
}.

(** The address has been handed out. *)
Definition cha_used (cha : chastore) (a : nat * Z) : Prop :=
  exists icurr, cha_nodes cha !! a.1 = Some icurr /\ 0 <= a.2 < icurr.

(** The address holds a record of a node. *)
Definition cha_slot (cha : chastore) (a : nat * Z) : Prop :=
  0 <= a.2 /\ a.2 + cha_isize cha <= cha_nsize cha /\ (cha_isize cha | a.2).

Lemma cha_init_wf isize icount : 0 < isize -> 0 < icount -> cha_wf (cha_init isize icount).
Proof. intros. split; simpl; [done| |constructor]. split; [nia|]. by exists icount. Qed.

(** Taking a slot at the end of the last node, or in a node just added. *)
Lemma cha_take nodes tl icurr isize nsize :
  cha_wf {| cha_isize := isize; cha_nsize := nsize; cha_nodes := nodes ++ tl |} ->
  (tl = [icurr] \/ tl = [] /\ icurr = 0) -> icurr <> nsize ->
  0 <= icurr <= nsize -> (isize | icurr) ->
  let cha := {| cha_isize := isize; cha_nsize := nsize; cha_nodes := nodes ++ tl |} in
  let cha' := {| cha_isize := isize; cha_nsize := nsize; cha_nodes := nodes ++ [icurr + isize] |} in
  cha_wf cha' /\ ~ cha_used cha (length nodes, icurr) /\ cha_used cha' (length nodes, icurr) /\
  (forall a, cha_used cha a -> cha_used cha' a) /\ cha_slot cha' (length nodes, icurr).
Proof.
  intros [Hi [Hn [q Hq]] Hf] Htl Hne Hic [p Hp] cha cha'. simpl in *.
  apply Forall_app in Hf as [Hf _].
  assert (Hle : icurr + isize <= nsize).
  { assert (p < q) by (clear -Hi Hp Hq Hne Hic; nia). clear -Hi Hp Hq H; nia. }
  split_and!.
  - split; simpl; [done|split; [done|by exists q]|]. apply Forall_app; split; [done|].
    constructor; [|done]. split; [lia|]. exists (p + 1). lia.
  - intros (x&Hx&Hr). simpl in *. rewrite lookup_app_r, Nat.sub_diag in Hx by lia.
    destruct Htl as [-> | [-> _]]; simpl in Hx; [injection Hx as <-; lia|done].
  - exists (icurr + isize). simpl. rewrite lookup_app_r, Nat.sub_diag by lia. split; [done|lia].
  - intros [k o] (x&Hx&Hr). simpl in *. destruct (decide (k < length nodes)%nat).
    + exists x. simpl. rewrite lookup_app_l in Hx |- * by done. done.
    + rewrite lookup_app_r in Hx by lia. destruct Htl as [-> | [-> _]]; [|by rewrite lookup_nil in Hx].
      destruct (k - length nodes)%nat eqn:Ek; simpl in Hx; [|done]. injection Hx as <-.
      exists (icurr + isize). simpl. rewrite lookup_app_r, Ek by lia. split; [done|lia].
  - split; simpl; [lia|]. split; [done|by exists p].
Qed.

Lemma cha_alloc_spec mok n cha k o cha' n' :
  cha_wf cha -> cha_alloc mok n cha = (Some (k, o, cha'), n') ->
  cha_wf cha' /\ ~ cha_used cha (k, o) /\ cha_used cha' (k, o) /\
  (forall a, cha_used cha a -> cha_used cha' a) /\ cha_slot cha' (k, o).
Proof.
  destruct cha as [isize nsize nodes]. intros Hwf. unfold cha_alloc. simpl.
  pose proof Hwf as [Hi [Hn ?] Hf]. simpl in *.
  destruct (reverse nodes) as [|icurr rest] eqn:Er.
  - destruct (mok n _); [|done]. intros [= <- <- <- <-].
    assert (nodes = []) as -> by (by rewrite <- (reverse_involutive nodes), Er).
    apply (cha_take [] [] 0); [done|by right|lia|lia|by exists 0].
  - assert (nodes = reverse rest ++ [icurr]) as -> by (by rewrite <- (reverse_involutive nodes), Er, reverse_cons).
    apply Forall_app in Hf as [Hf0 Hf1]. inversion Hf1 as [|? ? [Hc Hd] _]; subst.
    destruct (Z.eqb_spec icurr nsize) as [->|Hne].
    + destruct (mok n _); [|done]. intros [= <- <- <- <-].
      pose proof (cha_take (reverse rest ++ [nsize]) [] 0 isize nsize) as Ht. rewrite app_nil_r in Ht.
      apply Ht; [done|by right|lia|lia|by exists 0].
    + intros [= <- <- <- <-]. apply (cha_take (reverse rest) [icurr]); try done. by left.
Qed.

Lemma cha_alloc_None mok n cha n' : cha_alloc mok n cha = (None, n') -> exists m sz, mok m sz = false.
Proof.
  unfold cha_alloc. destruct (reverse (cha_nodes cha)) as [|icurr rest].
  - destruct (mok n _) eqn:E; [done|eauto].
  - destruct (_ =? _); [|done]. destruct (mok n _) eqn:E; [done|eauto].
Qed.

(** ** The fingerprint table *)

(** The block that starts at [p]. *)
Definition block_at (buf : bytes) (p : Z) : bytes := slice (Z.to_nat p) 16 buf.

Lemma mem_read_block buf p n :
  0 <= p -> n = Z.min BLK_SIZE (Z.of_nat (length buf) - p) -> 0 <= n ->
  mem_read buf p n = Ret (block_at buf p).
Proof.
  intros Hp -> Hn. unfold mem_read, BLK_SIZE in *. destruct (Z.leb_spec (p + Z.min 16 (Z.of_nat (length buf) - p)) (Z.of_nat (length buf))); [|lia].
  f_equal. unfold block_at, slice. destruct (Z.min_spec 16 (Z.of_nat (length buf) - p)) as [[Hm ->]|[Hm ->]]; [done|].
  rewrite (take_ge _ 16) by (rewrite length_drop; lia). apply take_ge. rewrite length_drop. lia.
Qed.

(** What a record says of the block it stands for. *)
Definition block_record (buf : bytes) (r : bdrecord) : Prop :=
  0 <= br_ptr r < Z.of_nat (length buf) /\ (16 | br_ptr r) /\ br_fp r = adler32 0 (block_at buf (br_ptr r)).

(** The table for the blocks from [lo] on, the records being in [cha]. *)
Record table_ok (buf : bytes) (bits lo : Z) (cha : chastore) (t : list (list bdrecord)) : Prop := {
  table_length : length t = Z.to_nat (2 ^ bits);
  table_sound : forall i chain r, t !! i = Some chain -> r ∈ chain ->
    block_record buf r /\ Z.to_nat (HASH (br_fp r) bits) = i;
  table_complete : forall p, lo <= p < Z.of_nat (length buf) -> 0 <= p -> (16 | p) ->
    exists chain r, t !! Z.to_nat (HASH (adler32 0 (block_at buf p)) bits) = Some chain /\
      r ∈ chain /\ br_ptr r = p;
  table_used : forall r, r ∈ concat t -> cha_used cha (br_addr r);
  table_nodup : NoDup (map br_addr (concat t));
  table_lo : forall r, r ∈ concat t -> lo <= br_ptr r;
  table_once : NoDup (map br_ptr (concat t))
}.

Lemma concat_insert_Permutation {A} (t : list (list A)) i chain x :
  t !! i = Some chain -> concat (<[i := x :: chain]> t) ≡ₚ x :: concat t.
Proof.
  revert i; induction t as [|c t IH]; intros [|i] H; simpl in *; try done.
  - by injection H as ->.
  - rewrite (IH i H). by rewrite Permutation_middle.
Qed.

Lemma table_step buf bits data cha cha' t chain r :
  table_ok buf bits (data + 16) cha t -> 0 <= bits <= 32 -> (16 | data) ->
  br_ptr r = data -> block_record buf r ->
  t !! Z.to_nat (HASH (br_fp r) bits) = Some chain ->
  ~ cha_used cha (br_addr r) -> cha_used cha' (br_addr r) -> (forall a, cha_used cha a -> cha_used cha' a) ->
  table_ok buf bits data cha' (<[Z.to_nat (HASH (br_fp r) bits) := r :: chain]> t).
Proof.
  intros [Hl Hs Hc Hu Hn Hlo Ho] Hbits Hd Hr Hbr Hch Hfresh Hnew Hold. set (i := Z.to_nat (HASH (br_fp r) bits)) in *.
  assert (Hlt : (i < length t)%nat) by (by eapply lookup_lt_Some).
  split.
  - by rewrite length_insert.
  - intros j c r' Hj Hr'. destruct (decide (i = j)) as [<-|Hne].
    + rewrite list_lookup_insert_eq in Hj by done. injection Hj as <-.
      apply elem_of_cons in Hr' as [->|Hr']; [done|]. by apply (Hs i chain).
    + rewrite list_lookup_insert_ne in Hj by done. by apply (Hs j c).
  - intros p Hp Hp0 Hdp. destruct (decide (p = data)) as [->|Hne].
    + exists (r :: chain), r. destruct Hbr as (_&_&Hfp). rewrite Hr in Hfp. rewrite <- Hfp. fold i.
      rewrite list_lookup_insert_eq by done. split; [done|]. split; [by apply elem_of_cons; left|done].
    + destruct (Hc p) as (c&r'&Hlk&Hin&Hptr); [|done|done|].
      { destruct Hdp as [a ->], Hd as [b ->]. lia. }
      destruct (decide (i = Z.to_nat (HASH (adler32 0 (block_at buf p)) bits))) as [Ei|Ei].
      * rewrite <- Ei in *. exists (r :: chain), r'. rewrite list_lookup_insert_eq by done.
        split; [done|]. split; [|done]. apply elem_of_cons; right. congruence.
      * exists c, r'. by rewrite list_lookup_insert_ne.
  - intros r'. rewrite (concat_insert_Permutation _ _ _ _ Hch). rewrite elem_of_cons.
    intros [->|Hr']; [done|]. by apply Hold, Hu.
  - rewrite (concat_insert_Permutation _ _ _ _ Hch). cbn [map]. constructor; [|done].
    intros (r'&Heq&Hin)%list_elem_of_fmap. apply Hfresh. rewrite Heq. by apply Hu.
  - intros r'. rewrite (concat_insert_Permutation _ _ _ _ Hch), elem_of_cons.
    intros [->|Hr']; [lia|]. specialize (Hlo r' Hr'). lia.
  - rewrite (concat_insert_Permutation _ _ _ _ Hch). cbn [map]. constructor; [|done].
    intros (r'&Heq&Hin)%list_elem_of_fmap. specialize (Hlo r' Hin). lia.
Qed.

(** Below the last block start there is nothing left to do. *)
Lemma table_finish buf bits data cha t :
  (16 | data) -> data < 0 -> table_ok buf bits (data + 16) cha t -> table_ok buf bits 0 cha t.
Proof.
  intros Hd H0 [Hl Hs Hc Hu Hn Hlo Ho]. split; try done.
  - intros p Hp1 Hp2 Hp3. apply Hc; try done. destruct Hd as [b ->], Hp3 as [a ->]. lia.
  - intros r Hr. apply list_elem_of_In, in_concat in Hr as (chain&Hch&Hr).
    apply list_elem_of_In, list_elem_of_lookup in Hch as [i Hi].
    apply list_elem_of_In in Hr. destruct (Hs i chain r Hi Hr) as [(Hp&_) _]. lia.
Qed.

Lemma prepare_loop_spec mok fuel n buf bits data cha t :
  0 <= bits <= 32 -> (16 | data) -> data < Z.of_nat (length buf) -> data < Z.of_nat fuel ->
  cha_wf cha -> table_ok buf bits (data + 16) cha t ->
  exists r n', prepare_loop mok fuel n buf bits data cha t = Ret (r, n') /\
    match r with
    | None => exists m sz, mok m sz = false
    | Some (cha', t') => table_ok buf bits 0 cha' t'
    end.
Proof.
  intros Hbits. revert n data cha t. induction fuel as [|fuel IH]; intros n data cha t Hd Hlt Hf Hwf Ht;
    cbn [prepare_loop]; destruct (Z.leb_spec 0 data) as [H0|H0]; try lia.
  1,3: eexists _, _; split; [done|]; by apply (table_finish _ _ data).
  destruct (cha_alloc mok n cha) as [[[[k o] cha1]|] n1] eqn:Ea.
  2:{ eexists _, _. split; [done|]. by eapply cha_alloc_None. }
  destruct (cha_alloc_spec _ _ _ _ _ _ _ Hwf Ea) as (Hwf1&Hfresh&Hnew&Hold&_).
  rewrite (mem_read_block buf data) by (done || unfold BLK_SIZE; lia). rewrite bind_Ret.
  set (r := {| br_addr := (k, o); br_fp := adler32 0 (block_at buf data); br_ptr := data |}).
  change (adler32 0 (block_at buf data)) with (br_fp r).
  pose proof (HASH_range (br_fp r) bits Hbits) as Hh.
  destruct (lookup_lt_is_Some_2 t (Z.to_nat (HASH (br_fp r) bits))) as [chain Hch].
  { rewrite (table_length _ _ _ _ _ Ht). lia. }
  rewrite Hch. apply IH; [by apply Z.divide_sub_r; [|exists 1]|unfold BLK_SIZE; lia..|done|].
  replace (data - BLK_SIZE + 16) with data by (unfold BLK_SIZE; lia).
  eapply table_step; eauto. split; [simpl; lia|]. done.
Qed.

(** The table of a whole buffer. *)
Definition bdf_ok (buf : bytes) (bdf : bdfile) : Prop :=
  bdf_top bdf = Z.of_nat (length buf) /\ 1 <= bdf_fphbits bdf <= 28 /\
  table_ok buf (bdf_fphbits bdf) 0 (bdf_cha bdf) (bdf_fphash bdf).

Lemma replicate_nil_elem {A} n i (chain : list A) x :
  replicate n [] !! i = Some chain -> x ∈ chain -> False.
Proof. intros [-> _]%lookup_replicate. apply not_elem_of_nil. Qed.

Lemma concat_replicate_nil {A} n : concat (replicate n []) = ([] : list A).
Proof. by induction n. Qed.

Lemma table_ok_empty buf bits lo cha :
  Z.of_nat (length buf) <= lo -> table_ok buf bits lo cha (replicate (Z.to_nat (2 ^ bits)) []).
Proof.
  intros Hlo. split.
  - apply length_replicate.
  - intros i chain r H Hr. destruct (replicate_nil_elem _ _ _ _ H Hr).
  - intros p Hp. lia.
  - intros r. rewrite concat_replicate_nil. by intros ?%not_elem_of_nil.
  - rewrite concat_replicate_nil. constructor.
  - intros r. rewrite concat_replicate_nil. by intros ?%not_elem_of_nil.
  - rewrite concat_replicate_nil. constructor.
Qed.

(** The loop starts at the last block, the partial one if there is one. *)
Lemma last_block_start len :
  0 < len -> let q := Z.quot len BLK_SIZE * BLK_SIZE in
  let data := if q =? len then q - BLK_SIZE else q in
  (16 | data) /\ data < len <= data + 16.
Proof.
  intros Hl. unfold BLK_SIZE. rewrite Z.quot_div_nonneg by lia. cbv zeta.
  destruct (Z.eqb_spec (len / 16 * 16) len); (split; [|dm_lia]).
  - exists (len / 16 - 1). lia.
  - by exists (len / 16).
Qed.

Lemma delta_prepare_ok mok n buf :
  0 < Z.of_nat (length buf) < 2 ^ 31 ->
  exists r n', delta_prepare mok n buf = Ret (r, n') /\
    match r with
    | None => exists m sz, mok m sz = false
    | Some bdf => bdf_ok buf bdf
    end.
Proof.
  intros Hl. unfold delta_prepare. rewrite i32_small by lia. set (len := Z.of_nat (length buf)) in *.
  assert (Hq : 0 <= Z.quot len BLK_SIZE <= 2 ^ 27).
  { unfold BLK_SIZE. rewrite Z.quot_div_nonneg by lia. dm_lia. }
  rewrite u32_small by lia. destruct (hashbits_spec (Z.quot len BLK_SIZE + 1)) as [Hb _]; [lia|].
  set (bits := hashbits (Z.quot len BLK_SIZE + 1)) in *. destruct (Z.leb_spec 31 bits); [lia|].
  rewrite Z.shiftl_1_l. destruct (mok n (2 ^ bits * 8)) eqn:Em; cbn [negb];
    [|eexists None, _; split; [reflexivity|by eexists _, _]].
  pose proof (last_block_start len ltac:(lia)) as [Hd1 Hd2]. cbv zeta in Hd1, Hd2.
  destruct (prepare_loop_spec mok (S (length buf)) (S n) buf bits
    (if Z.quot len BLK_SIZE * BLK_SIZE =? len then Z.quot len BLK_SIZE * BLK_SIZE - BLK_SIZE
     else Z.quot len BLK_SIZE * BLK_SIZE)
    (cha_init sizeof_bdrecord (Z.quot (2 ^ bits) 4 + 1)) (replicate (Z.to_nat (2 ^ bits)) []))
    as (r&n'&E&Hr); [lia|done|lia|lia| |apply table_ok_empty; fold len; lia|].
  { apply cha_init_wf; [done|]. pose proof (Z.quot_pos (2 ^ bits) 4). lia. }
  rewrite E, bind_Ret. destruct r as [[cha t]|]; eexists _, _; (split; [done|]); [|done].
  split; [done|]. by split.
Qed.

(** [delta_prepare] indexes the source buffer: it never leaves its
    buffers, it fails only when memory runs out, and the table it builds has
    exactly one record for each block of 16 bytes of the source (the last one
    possibly shorter), filed under the hash of the block's Adler-32, the records
    at pairwise distinct addresses of the record allocator. *)
Theorem delta_prepare_spec (malloc_ok : nat -> Z -> bool) (n : nat) (buf : bytes)
    (Hl : 0 < Z.of_nat (length buf) < 2 ^ 31) :
  exists r n', delta_prepare malloc_ok n buf = Ret (r, n') /\
    match r with
    | None => exists m sz, malloc_ok m sz = false
    | Some bdf => bdf_ok buf bdf
    end.
Proof. by apply delta_prepare_ok. Qed.

Lemma delta_prepare_spec_witness :
  exists r n', delta_prepare (fun _ _ => true) 0 (str "The quick brown fox jumps over") = Ret (Some r, n') /\
    bdf_ok (str "The quick brown fox jumps over") r.
Proof.
  destruct (delta_prepare_spec (fun _ _ => true) 0 (str "The quick brown fox jumps over")) as (r&n'&E&Hr).
  - vm_compute. split; reflexivity.
  - destruct r as [bdf|]; [exists bdf, n'; split; [exact E|exact Hr]|].
    exfalso. destruct Hr as (m&sz&H). discriminate.
Defined.

(** ** Stores into the output *)

Lemma put_ok outsize out b : Z.of_nat (length out) < outsize -> put outsize out b = Ret (out ++ [u8 b]).
Proof. intros. unfold put. destruct (Z.ltb_spec (Z.of_nat (length out)) outsize); [done|lia]. Qed.

Lemma put_at_middle A x B pos b :
  pos = Z.of_nat (length A) -> put_at (A ++ x :: B) pos b = Ret (A ++ u8 b :: B).
Proof.
  intros ->. unfold put_at. rewrite length_app. cbn [length].
  destruct (Z.leb_spec 0 (Z.of_nat (length A))), (Z.ltb_spec (Z.of_nat (length A)) (Z.of_nat (length A + S (length B))));
    try lia. simpl. rewrite Nat2Z.id, insert_app_r_alt, Nat.sub_diag by lia. done.
Qed.

Lemma lor_0x80 z : u8 (Z.lor (u8 z) 0x80) = 128 + z mod 128.
Proof.
  replace (z mod 128) with (u8 z mod 128) by (unfold u8; change (2 ^ 8) with 256; dm_lia).
  pose proof (u8_range z) as H. revert H. generalize (u8 z) as c. intros c Hc.
  apply Z.eqb_eq. revert c Hc. apply (byte_check (fun c => u8 (Z.lor c 0x80) =? 128 + c mod 128)).
  vm_compute. reflexivity.
Qed.

Lemma put_size_loop_spec fe f outsize out z :
  0 <= z < 128 ^ Z.of_nat (S fe) -> (fe <= f)%nat -> Z.of_nat (length out + S fe) <= outsize ->
  put_size_loop f outsize (out ++ [u8 z]) (Z.shiftr z 7) = Ret (out ++ encode_size fe z).
Proof.
  assert (Hstop : forall f out z, 0 <= z < 128 ->
    put_size_loop f outsize (out ++ [u8 z]) (Z.shiftr z 7) = Ret (out ++ [z])).
  { intros f' out' z' Hz. rewrite Z.shiftr_div_pow2, Z.div_small by lia.
    destruct f'; simpl; by rewrite u8_small by lia. }
  revert f out z; induction fe as [|fe IH]; intros f out z Hz Hf Ho.
  { change (128 ^ Z.of_nat 1) with 128 in Hz. by apply Hstop. }
  rewrite encode_size_S. destruct (Z.ltb_spec z 128) as [Hlt|Hge]; [apply Hstop; lia|].
  destruct f as [|f]; [lia|]. cbn [put_size_loop].
  assert (Es : Z.shiftr z 7 = z / 128) by (by rewrite Z.shiftr_div_pow2 by lia).
  rewrite Es. destruct (Z.eqb_spec (z / 128) 0); [dm_lia|].
  rewrite rd_app_l, bind_Ret by (rewrite length_app; simpl; lia).
  rewrite put_at_middle, bind_Ret by (rewrite length_app; simpl; lia).
  rewrite lor_0x80, put_ok, bind_Ret by (rewrite length_app; simpl; lia).
  rewrite IH, <- app_assoc; [done| |lia|rewrite length_app; simpl; lia].
  rewrite (Nat2Z.inj_succ (S fe)), Z.pow_succ_r in Hz by lia. split; [dm_lia|].
  apply Z.div_lt_upper_bound; lia.
Qed.

Lemma put_size_spec outsize out z :
  0 <= z < 2 ^ 64 -> Z.of_nat (length out) + 11 <= outsize -> put_size outsize out z = Ret (out ++ encode_hdr z).
Proof.
  intros Hz Ho. unfold put_size. rewrite put_ok, bind_Ret by lia. unfold encode_hdr.
  apply put_size_loop_spec; [|lia|lia]. change (128 ^ Z.of_nat 11) with (2 ^ 77). lia.
Qed.

Lemma encode_size_length fuel z : (1 <= length (encode_size fuel z))%nat.
Proof. destruct fuel; simpl; [lia|]. destruct (_ <? _); simpl; lia. Qed.

Lemma encode_size_length_le fe z : (length (encode_size fe z) <= S fe)%nat.
Proof. revert z; induction fe as [|fe IH]; intros z; simpl; [lia|]. destruct (_ <? _); simpl; [lia|]. specialize (IH (z / 128)). lia. Qed.

(** ** Copy commands *)

Lemma land_0xff v : Z.land v 0xff = u8 v.
Proof. change 0xff with (Z.ones 8). by rewrite Z.land_ones by lia. Qed.

Lemma land_byte o k : 0 <= k -> Z.land o (Z.shiftl 0xff (8 * k)) = 0 <-> byte_of o k = 0.
Proof.
  intros Hk. assert (E : Z.land o (Z.shiftl 0xff (8 * k)) = Z.shiftl (byte_of o k) (8 * k)).
  { unfold byte_of. change 256 with (2 ^ 8). fold (u8 (Z.shiftr o (8 * k))). rewrite <- land_0xff.
    apply Z.bits_inj'. intros i Hi. rewrite Z.land_spec, !Z.shiftl_spec, Z.land_spec by done.
    destruct (Z.lt_ge_cases i (8 * k)).
    - rewrite !(Z.testbit_neg_r _ (i - 8 * k)) by lia. by rewrite !andb_false_r.
    - rewrite Z.shiftr_spec by lia. by replace (i - 8 * k + 8 * k) with i by lia. }
  rewrite E, Z.shiftl_eq_0_iff by lia. done.
Qed.

Lemma COPYOP_SIZE_length off size :
  COPYOP_SIZE off size = Z.of_nat (length (encode_op (OpCopy off size))).
Proof.
  assert (Hb : forall o k m, 0 <= k -> m = Z.shiftl 0xff (8 * k) ->
    Z.b2z (negb (Z.land o m =? 0)) = Z.of_nat (length (opt_byte (byte_of o k)))).
  { intros o k m Hk ->. unfold opt_byte. pose proof (land_byte o k Hk).
    destruct (Z.eqb_spec (Z.land o (Z.shiftl 0xff (8 * k))) 0), (Z.eqb_spec (byte_of o k) 0); simpl; tauto. }
  unfold COPYOP_SIZE. rewrite (Hb off 0), (Hb off 1), (Hb off 2), (Hb off 3), (Hb size 0), (Hb size 1) by done.
  cbn [encode_op length]. unfold copy_args. rewrite !length_app. lia.
Qed.

Lemma copy_length_le off size : (length (encode_op (OpCopy off size)) <= 7)%nat.
Proof.
  cbn [encode_op length]. unfold copy_args. rewrite !length_app. unfold opt_byte.
  repeat destruct (_ =? 0); simpl; lia.
Qed.

Lemma put_arg_spec outsize v k flag out i :
  0 <= k -> Z.of_nat (length out) < outsize ->
  put_arg outsize (Z.shiftr v (8 * k)) flag (out, i) =
    Ret (out ++ opt_byte (byte_of v k), Z.lor i (opt_flag (byte_of v k) flag)).
Proof.
  intros Hk Ho. unfold put_arg. rewrite land_0xff. change (u8 (Z.shiftr v (8 * k))) with (byte_of v k).
  unfold opt_byte, opt_flag. destruct (Z.eqb_spec (byte_of v k) 0).
  - by rewrite app_nil_r, Z.lor_0_r.
  - by rewrite put_ok by done.
Qed.

Lemma copy_cmd_lor off size :
  Z.lor (Z.lor (Z.lor (Z.lor (Z.lor (Z.lor 0x80 (opt_flag (byte_of off 0) 0x01)) (opt_flag (byte_of off 1) 0x02))
    (opt_flag (byte_of off 2) 0x04)) (opt_flag (byte_of off 3) 0x08)) (opt_flag (byte_of size 0) 0x10))
    (opt_flag (byte_of size 1) 0x20) = copy_cmd 0 off size.
Proof. unfold copy_cmd, opt_flag. by repeat destruct (_ =? 0). Qed.

Lemma opt_byte_length b : (length (opt_byte b) <= 1)%nat.
Proof. unfold opt_byte. destruct (_ =? 0); simpl; lia. Qed.

Lemma put_copy_spec outsize out off size :
  Z.of_nat (length out) + 7 <= outsize ->
  put_copy outsize out off size = Ret (out ++ encode_op (OpCopy off size)).
Proof.
  intros Ho. unfold put_copy. rewrite put_ok, bind_Ret by lia. change (u8 0) with 0.
  pose proof (opt_byte_length (byte_of off 0)). pose proof (opt_byte_length (byte_of off 1)).
  pose proof (opt_byte_length (byte_of off 2)). pose proof (opt_byte_length (byte_of off 3)).
  pose proof (opt_byte_length (byte_of size 0)).
  rewrite !Z.shiftr_shiftr by lia. change (8 + 8) with 16. change (16 + 8) with 24.
  pose proof (put_arg_spec outsize off 0) as P0. pose proof (put_arg_spec outsize off 1) as P1.
  pose proof (put_arg_spec outsize off 2) as P2. pose proof (put_arg_spec outsize off 3) as P3.
  pose proof (put_arg_spec outsize size 0) as P4. pose proof (put_arg_spec outsize size 1) as P5.
  change (8 * 0) with 0 in *. change (8 * 1) with 8 in *. change (8 * 2) with 16 in *. change (8 * 3) with 24 in *.
  rewrite Z.shiftr_0_r in P0, P4.
  rewrite P0, bind_Ret by (rewrite ?length_app; cbn [length]; lia).
  rewrite P1, bind_Ret by (rewrite ?length_app; cbn [length]; lia).
  rewrite P2, bind_Ret by (rewrite ?length_app; cbn [length]; lia).
  rewrite P3, bind_Ret by (rewrite ?length_app; cbn [length]; lia).
  rewrite P4, bind_Ret by (rewrite ?length_app; cbn [length]; lia).
  rewrite P5, bind_Ret by (rewrite ?length_app; cbn [length]; lia).
  rewrite copy_cmd_lor, <- !app_assoc. cbn [app]. rewrite put_at_middle by done.
  destruct (copy_cmd_flags 0 off size) as [Hb _]; [by left|]. unfold is_byte in Hb.
  by rewrite u8_small by done.
Qed.

(** ** Matches *)

Lemma slice_S off n (l : bytes) x : l !! off = Some x -> slice off (S n) l = x :: slice (S off) n l.
Proof. intros H. unfold slice. by rewrite (drop_S _ x off H). Qed.

Lemma rd_lookup buf i : 0 <= i < Z.of_nat (length buf) ->
  exists b, buf !! Z.to_nat i = Some b /\ rd buf i = Ret b.
Proof.
  intros Hi. destruct (lookup_lt_is_Some_2 buf (Z.to_nat i)) as [b Hb]; [lia|].
  exists b. split; [done|]. unfold rd. rewrite bool_decide_true by lia. by rewrite Hb.
Qed.

(** [n] bytes of the source at [moff] are those of the target at [data]. *)
Definition same_bytes (from to : bytes) (moff data n : Z) : Prop :=
  0 <= moff /\ 0 <= data /\ moff + n <= Z.of_nat (length from) /\ data + n <= Z.of_nat (length to) /\
  slice (Z.to_nat moff) (Z.to_nat n) from = slice (Z.to_nat data) (Z.to_nat n) to.

Lemma same_bytes_prefix from to moff data n m :
  0 <= m <= n -> same_bytes from to moff data n -> same_bytes from to moff data m.
Proof.
  intros Hm (H1&H2&H3&H4&H5). split_and!; try lia. unfold slice in *.
  replace (Z.to_nat m) with (Z.to_nat m `min` Z.to_nat n)%nat by lia.
  by rewrite <- !take_take, H5.
Qed.

Lemma match_run_spec csize from to p1 p2 :
  0 <= p1 -> 0 <= p2 -> p1 + Z.of_nat csize <= Z.of_nat (length from) ->
  p2 + Z.of_nat csize <= Z.of_nat (length to) ->
  exists p, match_run csize from to p1 p2 = Ret p /\ p1 <= p /\ same_bytes from to p1 p2 (p - p1).
Proof.
  revert p1 p2; induction csize as [|csize IH]; intros p1 p2 H1 H2 H3 H4; cbn [match_run].
  - exists p1. split; [done|]. split; [lia|]. rewrite Z.sub_diag. split_and!; try lia. done.
  - destruct (rd_lookup from p1) as (a&Ha&Ra); [lia|]. destruct (rd_lookup to p2) as (b&Hb&Rb); [lia|].
    rewrite Ra, bind_Ret, Rb, bind_Ret. destruct (Z.eqb_spec a b) as [->|Hne].
    + destruct (IH (p1 + 1) (p2 + 1)) as (p&E&Hp&Hs); [lia..|]. exists p. split; [done|]. split; [lia|].
      destruct Hs as (S1&S2&S3&S4&S5). split_and!; try lia.
      replace (Z.to_nat (p - p1)) with (S (Z.to_nat (p - (p1 + 1)))) by lia.
      rewrite (slice_S _ _ _ b Ha), (slice_S _ _ _ b Hb). f_equal.
      replace (S (Z.to_nat p1)) with (Z.to_nat (p1 + 1)) by lia.
      by replace (S (Z.to_nat p2)) with (Z.to_nat (p2 + 1)) by lia.
    + exists p1. split; [done|]. split; [lia|]. rewrite Z.sub_diag. split_and!; try lia. done.
Qed.

(** What the walk along a chain guarantees of its result. *)
Definition match_ok (from to : bytes) (data msize moff : Z) : Prop :=
  msize = 0 \/ (1 <= msize <= 0x10000 /\ same_bytes from to moff data msize).

Lemma find_match_spec chain from to fp data msize moff :
  Forall (fun r => 0 <= br_ptr r < Z.of_nat (length from)) chain ->
  0 <= data < Z.of_nat (length to) -> 0 <= msize -> match_ok from to data msize moff ->
  exists msize' moff', find_match chain (Z.of_nat (length from)) from to fp data msize moff = Ret (msize', moff') /\
    match_ok from to data msize' moff'.
Proof.
  intros HF Hd. revert msize moff; induction HF as [|r chain Hr HF IH]; intros msize moff H0 Hm; cbn [find_match].
  { eauto. }
  destruct (br_fp r =? fp); [|by apply IH].
  destruct (match_run_spec (Z.to_nat (Z.min (Z.of_nat (length from) - br_ptr r) (Z.of_nat (length to) - data)))
    from to (br_ptr r) data) as (p&E&Hp&Hs); [lia..|]. rewrite E, bind_Ret.
  destruct (Z.ltb_spec msize (p - br_ptr r)); [|by apply IH].
  destruct (Z.leb_spec 0x10000 (p - br_ptr r)).
  - eexists _, _. split; [done|]. right. split; [lia|]. by apply (same_bytes_prefix _ _ _ _ (p - br_ptr r)).
  - apply IH; [lia|]. right. split; [lia|done].
Qed.

(** ** The generator's invariant *)

Definition from_source (op : delta_op) : Prop := match op with OpCopyDst _ _ => False | _ => True end.

(** [out] is the header [H], the operations [ops] for what comes before the
    pending literal, and the pending literal behind its length byte. *)
Record diff_inv (H from to : bytes) (data : Z) (out : bytes) (inscnt : Z) (ops : list delta_op) : Prop := {
  di_inscnt : 0 <= inscnt <= 127;
  di_data : inscnt <= data <= Z.of_nat (length to);
  di_ops : Forall op_ok ops /\ Forall from_source ops;
  di_apply : apply_ops from ops [] = Some (take (Z.to_nat (data - inscnt)) to);
  di_out : exists pend, out = H ++ concat (map encode_op ops) ++ pend /\
    ((inscnt = 0 /\ pend = []) \/
     (0 < inscnt /\ exists x, pend = x :: slice (Z.to_nat (data - inscnt)) (Z.to_nat inscnt) to))
}.

Lemma apply_ops_snoc src ops op acc dst bs :
  apply_ops src ops acc = Some dst -> op_output src dst op = Some bs ->
  apply_ops src (ops ++ [op]) acc = Some (dst ++ bs).
Proof.
  revert acc; induction ops as [|o ops IH]; intros acc; simpl.
  - intros [= ->] ->. done.
  - destruct (op_output src acc o); simpl; [|done]. apply IH.
Qed.

Lemma concat_encode_snoc ops op :
  concat (map encode_op (ops ++ [op])) = concat (map encode_op ops) ++ encode_op op.
Proof. rewrite map_app, concat_app. cbn [map concat]. by rewrite app_nil_r. Qed.

Lemma take_slice (l : bytes) a b :
  take (a + b) l = take a l ++ slice a b l.
Proof. unfold slice. by rewrite take_take_drop. Qed.

(** Closing the pending literal. *)
Lemma diff_inv_flush H from to data out inscnt ops :
  0 < inscnt -> diff_inv H from to data out inscnt ops ->
  exists out' ops', put_at out (Z.of_nat (length out) - inscnt - 1) inscnt = Ret out' /\
    length out' = length out /\ diff_inv H from to data out' 0 ops'.
Proof.
  intros Hpos [Hi Hd [Hops1 Hops2] Ha (pend&->&[[? _]|[_ [x ->]]])]; [lia|].
  set (lit := slice (Z.to_nat (data - inscnt)) (Z.to_nat inscnt) to).
  assert (Hl : Z.of_nat (length lit) = inscnt) by (unfold lit; rewrite length_slice; lia).
  rewrite (app_assoc H). rewrite put_at_middle by (rewrite !length_app; cbn [length]; lia).
  eexists _, (ops ++ [OpInsert lit]). split; [done|]. split; [by rewrite !length_app|].
  split; [lia|lia| | |].
  - split; apply Forall_app; (split; [done|]); apply Forall_singleton; [simpl; lia|done].
  - rewrite (apply_ops_snoc _ _ _ _ _ lit Ha) by done. f_equal. unfold lit.
    rewrite <- take_slice. f_equal. lia.
  - exists []. split; [|by left]. rewrite concat_encode_snoc, app_nil_r, <- app_assoc. cbn [encode_op].
    by rewrite Hl, u8_small by lia.
Qed.

(** A literal byte. *)
Lemma diff_inv_literal H from to data out inscnt ops outsize :
  diff_inv H from to data out inscnt ops -> inscnt < 127 -> data < Z.of_nat (length to) ->
  Z.of_nat (length out) + 2 <= outsize -> bytes_ok to ->
  exists out0 b out', (if inscnt =? 0 then put outsize out 0 else Ret out) = Ret out0 /\
    rd to data = Ret b /\ put outsize out0 b = Ret out' /\
    (length out < length out' <= length out + 2)%nat /\ diff_inv H from to (data + 1) out' (inscnt + 1) ops.
Proof.
  intros [Hi Hd Hops Ha (pend&->&Hp)] Hlt Hdt Ho Hb. set (out := H ++ concat (map encode_op ops) ++ pend) in *.
  destruct (rd_lookup to data) as (b&Hlk&Hrd); [lia|].
  pose proof (bytes_ok_lookup _ _ _ Hb Hlk) as Hbb. rewrite Hrd.
  assert (Hsl : forall n, (n <= Z.to_nat data)%nat ->
    slice (Z.to_nat data - n) (S n) to = slice (Z.to_nat data - n) n to ++ [b]).
  { intros n Hn. unfold slice. rewrite (take_S_r _ _ b); [done|]. rewrite lookup_drop, <- Hlk. f_equal. lia. }
  destruct Hp as [[-> ->]|[Hpos [x ->]]].
  - simpl (0 =? 0). rewrite put_ok by lia. eexists _, b, _. split; [done|]. split; [done|].
    rewrite put_ok by (rewrite length_app; simpl; lia). rewrite (u8_small b) by done. split; [done|].
    split; [rewrite !length_app; simpl; lia|]. split; [lia|lia|done| |].
    + by replace (data + 1 - (0 + 1)) with (data - 0) by lia.
    + exists [u8 0; b]. split; [unfold out; rewrite app_nil_r, <- !app_assoc; done|]. right. split; [lia|].
      exists (u8 0). f_equal. replace (data + 1 - (0 + 1)) with data by lia.
      change (Z.to_nat (0 + 1)) with 1%nat. specialize (Hsl 0%nat ltac:(lia)). rewrite Nat.sub_0_r in Hsl. by rewrite Hsl.
  - destruct (Z.eqb_spec inscnt 0); [lia|]. eexists _, b, _. split; [done|]. split; [done|].
    rewrite put_ok by lia. rewrite (u8_small b) by done. split; [done|].
    split; [rewrite !length_app; simpl; lia|]. split; [lia|lia|done| |].
    + by replace (data + 1 - (inscnt + 1)) with (data - inscnt) by lia.
    + eexists. split; [unfold out; rewrite <- !app_assoc; done|]. right. split; [lia|].
      exists x. cbn [app]. f_equal. replace (data + 1 - (inscnt + 1)) with (data - inscnt) by lia.
      replace (Z.to_nat (inscnt + 1)) with (S (Z.to_nat inscnt)) by lia.
      replace (Z.to_nat (data - inscnt)) with (Z.to_nat data - Z.to_nat inscnt)%nat by lia.
      by rewrite Hsl by lia.
Qed.

(** A copy, with no literal pending. *)
Lemma diff_inv_copy H from to data out ops msize moff :
  diff_inv H from to data out 0 ops -> 1 <= msize <= 0x10000 -> same_bytes from to moff data msize ->
  Z.of_nat (length from) < 2 ^ 31 ->
  diff_inv H from to (data + msize) (out ++ encode_op (OpCopy moff msize)) 0 (ops ++ [OpCopy moff msize]).
Proof.
  intros [Hi Hd [Hops1 Hops2] Ha (pend&->&[[_ ->]|[? _]])] Hm (S1&S2&S3&S4&S5) Hf; [|lia].
  split; [lia|lia| | |].
  - split; apply Forall_app; (split; [done|]); apply Forall_singleton; [simpl; lia|done].
  - rewrite (apply_ops_snoc _ _ _ _ _ (slice (Z.to_nat moff) (Z.to_nat msize) from) Ha).
    + f_equal. rewrite S5, !Z.sub_0_r, <- take_slice. f_equal. lia.
    + simpl. by destruct (Z.leb_spec (moff + msize) (Z.of_nat (length from))); [|lia].
  - exists []. split; [|by left]. by rewrite concat_encode_snoc, !app_nil_r, <- app_assoc.
Qed.

(** ** The generator's loop *)

Lemma diff_emit_spec H from to data out inscnt ops outsize msize moff :
  diff_inv H from to data out inscnt ops -> inscnt < 127 -> data < Z.of_nat (length to) ->
  match_ok from to data msize moff -> Z.of_nat (length out) + 8 <= outsize -> bytes_ok to ->
  Z.of_nat (length from) < 2 ^ 31 ->
  exists data' out' inscnt' ops',
    diff_emit to outsize msize moff data out inscnt = Ret (data', out', inscnt') /\
    diff_inv H from to data' out' inscnt' ops' /\ inscnt' < 127 /\ data < data' /\
    Z.of_nat (length out') <= Z.of_nat (length out) + 7 /\
    Z.of_nat (length out') <= Z.of_nat (length out) + 2 * (data' - data).
Proof.
  intros Hinv Hins Hlt Hm Ho Hb Hf. unfold diff_emit.
  destruct ((msize =? 0) || (msize <? COPYOP_SIZE moff msize)) eqn:Ec.
  - destruct (diff_inv_literal _ _ _ _ _ _ _ outsize Hinv) as (o0&b&o1&E0&Eb&E1&Hlen&Hinv1); try done; [lia|].
    rewrite E0, bind_Ret, Eb, bind_Ret, E1, bind_Ret.
    pose proof (di_inscnt _ _ _ _ _ _ _ Hinv) as Hi.
    destruct (Z.eqb_spec (inscnt + 1) 0x7f) as [E7|E7].
    + destruct (diff_inv_flush H from to (data + 1) o1 (inscnt + 1) ops) as (o2&ops2&E2&Hl2&Hinv2); [lia|done|].
      rewrite E2, bind_Ret. eexists _, _, _, _. split; [done|]. split; [done|]. lia.
    + eexists _, _, _, _. split; [done|]. split; [done|]. lia.
  - apply orb_false_iff in Ec as [Ez Ecs]. apply Z.eqb_neq in Ez. apply Z.ltb_ge in Ecs.
    destruct Hm as [->|[Hm Hs]]; [done|].
    assert (exists o1 ops1, (if inscnt =? 0 then Ret out
        else put_at out (Z.of_nat (length out) - inscnt - 1) inscnt) = Ret o1 /\
        length o1 = length out /\ diff_inv H from to data o1 0 ops1) as (o1&ops1&E1&Hl1&Hinv1).
    { destruct (Z.eqb_spec inscnt 0) as [->|Hne]; [by eexists _, _|].
      apply (diff_inv_flush _ _ _ _ _ _ ops); [|done]. pose proof (di_inscnt _ _ _ _ _ _ _ Hinv). lia. }
    rewrite E1, bind_Ret, put_copy_spec, bind_Ret by lia.
    pose proof (copy_length_le moff msize) as H7. rewrite COPYOP_SIZE_length in Ecs.
    eexists _, _, _, _. split; [done|]. split; [by apply diff_inv_copy|].
    rewrite length_app. lia.
Qed.

(** The result of the loop, and why it can be NULL. *)
Definition diff_result (mok : nat -> Z -> bool) (H from to : bytes) (max_size : Z) (r : option (bytes * Z)) : Prop :=
  match r with
  | None => max_size <> 0 \/ exists m sz, mok m sz = false
  | Some (out, inscnt) =>
      (exists ops, diff_inv H from to (Z.of_nat (length to)) out inscnt ops) /\
      (max_size <> 0 -> Z.of_nat (length out) <= max_size)
  end.

Lemma bdf_ok_chain from bdf fp :
  bdf_ok from bdf -> exists chain, bdf_fphash bdf !! Z.to_nat (HASH fp (bdf_fphbits bdf)) = Some chain /\
    Forall (fun r => 0 <= br_ptr r < Z.of_nat (length from)) chain.
Proof.
  intros (_&Hbits&Ht). pose proof (HASH_range fp (bdf_fphbits bdf) ltac:(lia)).
  destruct (lookup_lt_is_Some_2 (bdf_fphash bdf) (Z.to_nat (HASH fp (bdf_fphbits bdf)))) as [chain Hch].
  { rewrite (table_length _ _ _ _ _ Ht). lia. }
  exists chain. split; [done|]. apply Forall_forall. intros r Hr.
  by destruct (table_sound _ _ _ _ _ Ht _ _ _ Hch Hr) as [(Hp&_) _].
Qed.

Lemma diff_loop_spec mok H from to bdf max_size :
  bytes_ok to -> Z.of_nat (length from) < 2 ^ 31 -> Z.of_nat (length to) < 2 ^ 28 -> bdf_ok from bdf ->
  forall fuel n outsize data moff out inscnt ops,
  diff_inv H from to data out inscnt ops -> inscnt < 127 -> Z.of_nat (length to) - data <= Z.of_nat fuel ->
  Z.of_nat (length out) + 8 <= outsize -> 8192 <= outsize -> Z.of_nat (length out) <= 22 + 2 * data ->
  (data < Z.of_nat (length to) \/ (max_size <> 0 -> Z.of_nat (length out) <= max_size)) ->
  exists r, diff_loop mok fuel n from to bdf max_size outsize data moff out inscnt = Ret r /\
    diff_result mok H from to max_size r.
Proof.
  intros Hb Hf Ht Hbdf fuel. induction fuel as [|fuel IH];
    intros n outsize data moff out inscnt ops Hinv Hins Hfuel Ho H8 Hbound Hmax; cbn [diff_loop];
    pose proof (di_data _ _ _ _ _ _ _ Hinv) as Hd; destruct (Z.ltb_spec data (Z.of_nat (length to))) as [Hlt|Hge];
    try lia.
  1,3: eexists; split; [done|]; split; [exists ops; by replace (Z.of_nat (length to)) with data by lia|];
    destruct Hmax; [lia|done].
  pose proof (di_inscnt _ _ _ _ _ _ _ Hinv) as Hi.
  rewrite (mem_read_block to data) by (unfold BLK_SIZE; lia). rewrite bind_Ret.
  set (fp := adler32 0 (block_at to data)). destruct (bdf_ok_chain from bdf fp Hbdf) as (chain&Hch&HF).
  rewrite Hch. destruct Hbdf as (Etop&_). rewrite Etop.
  destruct (find_match_spec chain from to fp data 0 moff HF) as (msize&moff'&Em&Hm); [lia|lia|by left|].
  rewrite Em, bind_Ret.
  destruct (diff_emit_spec H from to data out inscnt ops outsize msize moff')
    as (data'&out'&inscnt'&ops'&Ee&Hinv'&Hins'&Hlt'&H7&H2); try done.
  rewrite Ee, bind_Ret. pose proof (di_data _ _ _ _ _ _ _ Hinv') as Hd'.
  destruct (Z.eqb_spec max_size 0) as [Hz|Hz]; cbn [negb andb].
  2: destruct (Z.ltb_spec max_size (Z.of_nat (length out'))); [exists None; split; [done|]; by left|].
  all: assert (Hmax' : max_size <> 0 -> Z.of_nat (length out') <= max_size) by lia.
  all: destruct (Z.ltb_spec (outsize - 8) (Z.of_nat (length out'))) as [Hgrow|];
    [|eapply IH; [done|done|lia|lia|done|lia|by right]].
  all: destruct (Z.leb_spec (2 ^ 31) (outsize * 3)); [lia|].
  all: destruct (mok n (Z.quot (outsize * 3) 2)) eqn:Emok; [|exists None; split; [done|]; right; by eexists _, _].
  all: rewrite Z.quot_div_nonneg by lia;
    eapply IH; [done|done|lia|dm_lia|dm_lia|lia|by right].
Qed.

Lemma copy_args_min off sz : 1 <= sz < 0x10000 -> (1 <= length (copy_args off sz))%nat.
Proof.
  intros Hsz. pose proof (byte_of_2 sz ltac:(lia)) as E. unfold copy_args. rewrite !length_app.
  assert (1 <= length (opt_byte (byte_of sz 0)) + length (opt_byte (byte_of sz 1)))%nat; [|lia].
  unfold opt_byte. destruct (Z.eqb_spec (byte_of sz 0) 0) as [E0|]; [|cbn [length]; lia].
  destruct (Z.eqb_spec (byte_of sz 1) 0) as [E1|]; [|cbn [length]; lia].
  rewrite E0, E1 in E. lia.
Qed.

Lemma encode_delta_min src ops dst :
  apply_ops src ops [] = Some dst -> dst <> [] -> Forall op_ok ops ->
  (4 <= length (encode_delta (Z.of_nat (length src)) (Z.of_nat (length dst)) ops))%nat.
Proof.
  intros Ha Hne HF. unfold encode_delta, encode_hdr. rewrite !length_app.
  pose proof (encode_size_length 10 (Z.of_nat (length src))).
  pose proof (encode_size_length 10 (Z.of_nat (length dst))).
  destruct ops as [|op ops]; [by injection Ha as <-|]. cbn [map concat]. rewrite length_app.
  inversion HF as [|? ? Hop _]; subst. assert (Hmin : (2 <= length (encode_op op))%nat \/ op_size op = 0x10000).
  { destruct op as [off sz|off sz|lit]; cbn [encode_op op_ok op_size length] in *; [| |lia];
      (destruct (Z.eq_dec sz 0x10000) as [|Hsz]; [by right|left]);
      pose proof (copy_args_min off sz ltac:(lia)); lia. }
  destruct Hmin as [|Hbig]; [lia|].
  assert (65536 <= Z.of_nat (length dst)).
  { cbn [apply_ops] in Ha. destruct (op_output src [] op) as [bs|] eqn:Eo; [|done]. simpl in Ha.
    apply apply_ops_length in Ha. destruct op as [off sz|off sz|lit]; cbn [op_output op_size op_ok] in *; [| |lia].
    - destruct (Z.leb_spec (off + sz) (Z.of_nat (length src))); [|done]. injection Eo as <-.
      rewrite length_slice in Ha. lia.
    - destruct (Z.leb_spec (off + sz) (Z.of_nat (@length Z []))); [|done]. simpl in *. lia. }
  rewrite (encode_size_S 9 (Z.of_nat (length dst))).
  destruct (Z.ltb_spec (Z.of_nat (length dst)) 128); [lia|]. cbn [length].
  rewrite (encode_size_S 8 (Z.of_nat (length dst) / 128)).
  pose proof (encode_op_length op).
  destruct (Z.ltb_spec (Z.of_nat (length dst) / 128) 128); [dm_lia|]. cbn [length].
  pose proof (encode_size_length 8 (Z.of_nat (length dst) / 128 / 128)). lia.
Qed.

(** Without copies inside the result, copied and literal bytes are all. *)
Lemma apply_ops_sizes src ops acc dst :
  Forall op_ok ops -> Forall from_source ops -> apply_ops src ops acc = Some dst ->
  Z.of_nat (length acc) + sumZ (map op_size ops) = Z.of_nat (length dst) /\
  sumZ (map op_copied ops) + sumZ (map op_literal ops) = sumZ (map op_size ops).
Proof.
  intros HF; revert acc; induction HF as [|op ops Hop HF IH]; intros acc Hs; cbn [apply_ops map].
  { intros [= ->]. simpl. lia. }
  inversion Hs as [|? ? Hop2 Hs2]; subst. rewrite !sumZ_cons.
  destruct (op_output src acc op) as [bs|] eqn:Eo; [|done]. simpl. intros [H1 H2]%IH; [|done].
  rewrite length_app in H1. assert (Z.of_nat (length bs) = op_size op).
  { destruct op as [off sz|off sz|lit]; cbn [op_output op_size op_ok] in *; [|done|by injection Eo as ->].
    destruct (Z.leb_spec (off + sz) (Z.of_nat (length src))); [|done]. injection Eo as <-. rewrite length_slice. lia. }
  destruct op; cbn [op_size op_copied op_literal from_source] in *; [lia|done|lia].
Qed.

Lemma count_delta_ops from to ops :
  Forall op_ok ops -> Forall from_source ops -> apply_ops from ops [] = Some to ->
  Z.of_nat (length from) < 2 ^ 31 -> Z.of_nat (length to) < 2 ^ 31 -> to <> [] ->
  let delta := encode_delta (Z.of_nat (length from)) (Z.of_nat (length to)) ops in
  exists c l, count_delta delta (Z.of_nat (length delta)) = Ret (Some (c, l)) /\ c + l = Z.of_nat (length to).
Proof.
  intros Ho Hs Ha Hf Ht Hne delta. destruct (apply_ops_sizes _ _ _ _ Ho Hs Ha) as [H1 H2].
  simpl length in H1. pose proof (encode_delta_min _ _ _ Ha Hne Ho) as Hmin.
  pose proof (count_delta_meaning (Z.of_nat (length from)) (Z.of_nat (length to)) ops [] Ho ltac:(lia) ltac:(lia) Hmin ltac:(lia)) as Hc.
  rewrite app_nil_r in Hc. fold delta in Hc. rewrite Hc.
  replace (sumZ (map op_size ops)) with (Z.of_nat (length to)) by lia. rewrite Z.eqb_refl.
  eexists _, _. split; [done|lia].
Qed.

(** The generator as a whole: a result is an encoding of operations, copies
    from the source and literals only, that describe the target. *)
Lemma diff_delta_ops mok from to max_size :
  bytes_ok to -> Z.of_nat (length from) < 2 ^ 31 -> Z.of_nat (length to) < 2 ^ 28 ->
  exists r, diff_delta mok from to max_size = Ret r /\
    match r with
    | None => from = [] \/ to = [] \/ max_size <> 0 \/ exists m sz, mok m sz = false
    | Some delta => exists ops,
        delta = encode_delta (Z.of_nat (length from)) (Z.of_nat (length to)) ops /\
        Forall op_ok ops /\ Forall from_source ops /\ apply_ops from ops [] = Some to /\ to <> [] /\
        (max_size <> 0 -> Z.of_nat (length delta) <= max_size)
    end.
Proof.
  intros Hb Hf Ht. unfold diff_delta.
  destruct (Z.eqb_spec (Z.of_nat (length from)) 0) as [E|Hf0].
  { exists None. split; [done|]. left. by destruct from. }
  destruct (Z.eqb_spec (Z.of_nat (length to)) 0) as [E|Ht0].
  { exists None. split; [done|]. right; left. by destruct to. }
  cbn [orb]. destruct (delta_prepare_ok mok 0 from) as (bdf&n&Ep&Hbdf); [lia|]. rewrite Ep, bind_Ret.
  destruct bdf as [bdf|]; [|exists None; split; [done|]; by do 3 right].
  destruct (mok n 8192) eqn:Em; cbn [negb]; [|exists None; split; [done|]; do 3 right; by eexists _, _].
  pose proof (encode_size_length_le 10 (Z.of_nat (length from)) : (length (encode_hdr _) <= 11)%nat) as Hl1.
  pose proof (encode_size_length_le 10 (Z.of_nat (length to)) : (length (encode_hdr _) <= 11)%nat) as Hl2.
  rewrite put_size_spec, bind_Ret by (cbn [length]; lia).
  rewrite put_size_spec, bind_Ret by (rewrite ?app_nil_l; lia).
  set (H := ([] ++ encode_hdr (Z.of_nat (length from))) ++ encode_hdr (Z.of_nat (length to))).
  assert (HlH : (length H <= 22)%nat) by (unfold H; rewrite length_app, app_nil_l; lia).
  destruct (diff_loop_spec mok H from to bdf max_size Hb Hf Ht Hbdf (length to) (S n) 8192 0 0 H 0 [])
    as (r&Er&Hr); [|lia..|].
  { split; [lia|lia|by split|done|]. exists []. split; [by rewrite !app_nil_r|by left]. }
  rewrite Er, bind_Ret. destruct r as [[out inscnt]|]; [|exists None; split; [done|]; destruct Hr; tauto].
  destruct Hr as [[ops Hinv] Hmax].
  assert (exists o1 ops1, (if inscnt =? 0 then Ret out
      else put_at out (Z.of_nat (length out) - inscnt - 1) inscnt) = Ret o1 /\
      length o1 = length out /\ diff_inv H from to (Z.of_nat (length to)) o1 0 ops1) as (o1&ops1&E1&Hl&Hinv1).
  { destruct (Z.eqb_spec inscnt 0) as [->|Hne]; [by eexists _, _|].
    apply (diff_inv_flush _ _ _ _ _ _ ops); [|done]. pose proof (di_inscnt _ _ _ _ _ _ _ Hinv). lia. }
  rewrite E1, bind_Ret. exists (Some o1). split; [done|]. exists ops1. rewrite Hl.
  destruct Hinv1 as [_ _ [Ho1 Ho2] Ha (pend&->&[[_ ->]|[? _]])]; [|lia].
  split_and!; try done; [|by rewrite Z.sub_0_r, Nat2Z.id, take_ge in Ha|by intros ->].
  unfold encode_delta, H. by rewrite app_nil_r, app_nil_l, <- app_assoc.
Qed.

(** ** What every delta that is returned has *)

Lemma apply_ops_bytes src ops acc dst :
  apply_ops src ops acc = Some dst -> bytes_ok dst ->
  bytes_ok acc /\ Forall (fun op => match op with OpInsert lit => bytes_ok lit | _ => True end) ops.
Proof.
  revert acc; induction ops as [|op ops IH]; intros acc Ha Hd; cbn [apply_ops] in Ha.
  { injection Ha as ->. done. }
  destruct (op_output src acc op) as [bs|] eqn:Eo; [|done]. cbn in Ha.
  destruct (IH _ Ha Hd) as [Hacc HF]. apply bytes_ok_app in Hacc as [Hacc Hbs].
  split; [done|]. constructor; [|done]. destruct op; try done. by injection Eo as ->.
Qed.

Lemma opt_byte_ok z k : bytes_ok (opt_byte (byte_of z k)).
Proof. unfold opt_byte. destruct (_ =? 0); [apply bytes_ok_nil|]. apply bytes_ok_single, byte_of_byte. Qed.

Lemma copy_args_ok off size : bytes_ok (copy_args off size).
Proof. unfold copy_args. repeat apply bytes_ok_app_2; apply opt_byte_ok. Qed.

Lemma copy_cmd_byte dst off size : dst = 0 \/ dst = 0x40 -> is_byte (copy_cmd dst off size).
Proof.
  intros H. unfold copy_cmd, opt_flag, is_byte. repeat destruct (_ =? 0); destruct H as [->| ->]; lia.
Qed.

Lemma encode_op_bytes op : op_ok op -> match op with OpInsert lit => bytes_ok lit | _ => True end -> bytes_ok (encode_op op).
Proof.
  intros Ho Hl. destruct op; apply bytes_ok_cons; (split; [|try apply copy_args_ok; done]).
  - by apply copy_cmd_byte; left.
  - by apply copy_cmd_byte; right.
  - cbn in Ho. unfold is_byte. lia.
Qed.

Lemma encode_size_bytes fuel z : 0 <= z < 128 ^ Z.of_nat (S fuel) -> bytes_ok (encode_size fuel z).
Proof.
  revert z; induction fuel as [|fuel IH]; intros z Hz; cbn [encode_size].
  { apply bytes_ok_single. unfold is_byte. change (128 ^ Z.of_nat 1) with 128 in Hz. lia. }
  destruct (Z.ltb_spec z 128); [apply bytes_ok_single; unfold is_byte; lia|].
  apply bytes_ok_cons. split; [unfold is_byte; dm_lia|]. apply IH. split; [apply Z.div_pos; lia|].
  apply Z.div_lt_upper_bound; [lia|]. rewrite (Nat2Z.inj_succ (S fuel)), Z.pow_succ_r in Hz by lia. lia.
Qed.

Lemma encode_delta_bytes src ops dst :
  Z.of_nat (length src) < 2 ^ 31 -> Z.of_nat (length dst) < 2 ^ 31 -> Forall op_ok ops ->
  apply_ops src ops [] = Some dst -> bytes_ok dst ->
  bytes_ok (encode_delta (Z.of_nat (length src)) (Z.of_nat (length dst)) ops).
Proof.
  intros Hs Hd Ho Ha Hok. unfold encode_delta, encode_hdr. apply apply_ops_bytes in Ha as [_ Hl]; [|done].
  repeat apply bytes_ok_app_2;
    try (apply encode_size_bytes; split; [lia|]; eapply Z.lt_trans; [eassumption|vm_compute; reflexivity]).
  apply Forall_concat, Forall_fmap. apply Forall_forall. intros op Hin. unfold compose.
  rewrite Forall_forall in Ho, Hl. apply encode_op_bytes; [by apply Ho|by apply Hl].
Qed.

Lemma encode_delta_patches src ops dst :
  Z.of_nat (length src) < 2 ^ 31 -> Z.of_nat (length dst) < 2 ^ 28 -> Forall op_ok ops ->
  apply_ops src ops [] = Some dst -> dst <> [] ->
  let delta := encode_delta (Z.of_nat (length src)) (Z.of_nat (length dst)) ops in
  patch_delta (fun _ => true) src delta (Z.of_nat (length delta)) = Ret (Some dst).
Proof.
  intros Hs Hd Hops Ha Hne. pose proof (encode_delta_min _ _ _ Ha Hne Hops) as Hmin.
  pose proof (patch_delta_meaning (fun _ => true) src (Z.of_nat (length src)) (Z.of_nat (length dst)) ops [] Hops ltac:(lia) ltac:(lia) Hmin) as Hp.
  rewrite app_nil_r in Hp. cbv zeta. rewrite Hp. unfold patch_meaning. by rewrite !Z.eqb_refl, Ha, Z.eqb_refl.
Qed.

(** The delta of a successful [diff_delta] holds bytes and restores its target. *)
Lemma diff_delta_patches mok from to max_size delta :
  bytes_ok to -> Z.of_nat (length from) < 2 ^ 31 -> Z.of_nat (length to) < 2 ^ 28 ->
  diff_delta mok from to max_size = Ret (Some delta) ->
  bytes_ok delta /\ patch_delta (fun _ => true) from delta (Z.of_nat (length delta)) = Ret (Some to).
Proof.
  intros Hb Hf Ht E. destruct (diff_delta_ops mok from to max_size Hb Hf Ht) as (r&E'&Hr).
  rewrite E in E'. injection E' as <-. destruct Hr as (ops&->&Hops&_&Ha&Hne&_).
  split; [apply encode_delta_bytes; [done|lia|done..]|by apply encode_delta_patches].
Qed.

(** C26.  A delta restores its target: whatever memory does, [diff_delta] ends
    without leaving its buffers (the output buffer grows in time), and every
    delta it returns makes [patch_delta] rebuild exactly [to] from [from]; it
    stays within a non-zero [max_size]; and [count_delta] accounts for every
    byte of [to] as copied from [from] or literal. *)
Theorem diff_patch_roundtrip (malloc_ok : nat -> Z -> bool) (from to : bytes) (max_size : Z)
    (Hb : bytes_ok to) (Hfrom : Z.of_nat (length from) < 2 ^ 31) (Hto : Z.of_nat (length to) < 2 ^ 28) :
  exists r, diff_delta malloc_ok from to max_size = Ret r /\
    forall delta, r = Some delta ->
      patch_delta (fun _ => true) from delta (Z.of_nat (length delta)) = Ret (Some to) /\
      (max_size <> 0 -> Z.of_nat (length delta) <= max_size) /\
      exists copied literal, count_delta delta (Z.of_nat (length delta)) = Ret (Some (copied, literal)) /\
        copied + literal = Z.of_nat (length to).
Proof.
  destruct (diff_delta_ops malloc_ok from to max_size Hb Hfrom Hto) as (r&E&Hr). exists r. split; [done|].
  intros delta ->. destruct Hr as (ops&->&Hops&Hsrc&Ha&Hne&Hmax). split_and!; [|done|].
  - by apply encode_delta_patches.
  - destruct (count_delta_ops _ _ _ Hops Hsrc Ha) as (c&l&Ec&Hcl); [lia|lia|done|eauto].
Qed.

Lemma diff_patch_roundtrip_witness :
  exists r, diff_delta (fun _ _ => true) (str "The quick brown fox jumps over the lazy dog")
      (str "A quick brown fox jumps over the lazy dog!") 0 = Ret r /\
    forall delta, r = Some delta ->
      patch_delta (fun _ => true) (str "The quick brown fox jumps over the lazy dog") delta
        (Z.of_nat (length delta)) = Ret (Some (str "A quick brown fox jumps over the lazy dog!")) /\
      (0 <> 0 -> Z.of_nat (length delta) <= 0) /\
      exists copied literal, count_delta delta (Z.of_nat (length delta)) = Ret (Some (copied, literal)) /\
        copied + literal = Z.of_nat (length (str "A quick brown fox jumps over the lazy dog!")).
Proof.
  apply (diff_patch_roundtrip (fun _ _ => true)).
  - apply str_bytes_ok.
  - vm_compute. reflexivity.
  - vm_compute. reflexivity.
Defined.

(**  [diff_delta] gives up only for the reasons it may: with memory
    available and no limit on the size it returns a delta for every two
    non-empty buffers. *)
Theorem diff_delta_total (malloc_ok : nat -> Z -> bool) (from to : bytes)
    (Hmem : forall n sz, malloc_ok n sz = true) (Hne : from <> [] /\ to <> [])
    (Hb : bytes_ok to) (Hfrom : Z.of_nat (length from) < 2 ^ 31) (Hto : Z.of_nat (length to) < 2 ^ 28) :
  exists delta, diff_delta malloc_ok from to 0 = Ret (Some delta).
Proof.
  destruct (diff_delta_ops malloc_ok from to 0 Hb Hfrom Hto) as ([delta|]&E&Hr); [eauto|].
  exfalso. destruct Hr as [?|[?|[?|(m&sz&Hf)]]]; try (by destruct Hne). by rewrite Hmem in Hf.
Qed.

Lemma diff_delta_total_witness :
  exists delta, diff_delta (fun _ _ => true) (str "abc") (str "xyz") 0 = Ret (Some delta).
Proof.
  apply (diff_delta_total (fun _ _ => true)).
  - reflexivity.
  - split; discriminate.
  - apply str_bytes_ok.
  - vm_compute. reflexivity.
  - vm_compute. reflexivity.
Defined.
