(* ===== verification/CacheEntry.v ===== *)
(** * Index entries (cache.h, read-cache.c)

    The entry of the index, its flags word, the comparison with the
    file system ([fill_stat_cache_info], [ce_match_stat]) and the order of the
    index ([cache_name_compare]).  An integer field holds the value that is
    stored big-endian: [htonl] of a 64-bit [stat] field is its low 32 bits.
    Built without [USE_NSEC] and [USE_STDEV], as the Makefile does. *)

From stdpp Require Import base list numbers strings.
From Stdlib Require Import ZArith Lia.
From S2P Require Import Prelude.

(** ** The C code *)

Record cache_time := { sec : Z; nsec : Z }.

Record cache_entry := {
  ce_ctime : cache_time;
  ce_mtime : cache_time;
  ce_dev : Z;
  ce_ino : Z;
  ce_mode : Z;
  ce_uid : Z;
  ce_gid : Z;
  ce_st_size : Z; (* the field [ce_size] *)
  ce_sha1 : bytes;
  ce_flags : Z;
  ce_name : bytes (* the bytes before the NUL *)
}.

#[export] Instance cache_time_eq_dec : EqDecision cache_time.
Proof. solve_decision. Defined.
#[export] Instance cache_entry_eq_dec : EqDecision cache_entry.
Proof. solve_decision. Defined.

Definition CE_NAMEMASK : Z := 0x0fff.
Definition CE_STAGEMASK : Z := 0x3000.
Definition CE_UPDATE : Z := 0x4000.
Definition CE_STAGESHIFT : Z := 12.

Definition create_ce_flags (len stage : Z) : Z := u16 (Z.lor len (Z.shiftl stage CE_STAGESHIFT)).
Definition ce_namelen (ce : cache_entry) : Z := Z.land CE_NAMEMASK (ce_flags ce).
Definition ce_stage (ce : cache_entry) : Z := Z.shiftr (Z.land CE_STAGEMASK (ce_flags ce)) CE_STAGESHIFT.

Definition S_IFMT : Z := 0xf000.
Definition S_IFREG : Z := 0x8000.
Definition S_IFLNK : Z := 0xa000.
Definition S_IFDIR : Z := 0x4000.
Definition S_ISREG (mode : Z) : bool := Z.land mode S_IFMT =? S_IFREG.
Definition S_ISLNK (mode : Z) : bool := Z.land mode S_IFMT =? S_IFLNK.
Definition S_ISDIR (mode : Z) : bool := Z.land mode S_IFMT =? S_IFDIR.

(** 0100, 0755 and 0644 are octal. *)
Definition ce_permissions (mode : Z) : Z := if negb (Z.land mode 0x40 =? 0) then 0x1ed else 0x1a4.

Definition create_ce_mode (mode : Z) : Z :=
  if S_ISLNK mode then S_IFLNK else Z.lor S_IFREG (ce_permissions mode).

(** [offsetof(struct cache_entry, name)] is 62. *)
Definition cache_entry_size (len : Z) : Z := Z.land (62 + len + 8) (Z.lnot 7).
Definition ce_size (ce : cache_entry) : Z := cache_entry_size (ce_namelen ce).

Record stat := {
  st_mode : Z; st_ctime : Z; st_mtime : Z; st_dev : Z; st_ino : Z; st_uid : Z; st_gid : Z; st_size : Z
}.

Definition fill_stat_cache_info (ce : cache_entry) (st : stat) : cache_entry :=
  {| ce_ctime := {| sec := u32 (st_ctime st); nsec := nsec (ce_ctime ce) |};
     ce_mtime := {| sec := u32 (st_mtime st); nsec := nsec (ce_mtime ce) |};
     ce_dev := u32 (st_dev st); ce_ino := u32 (st_ino st); ce_mode := ce_mode ce;
     ce_uid := u32 (st_uid st); ce_gid := u32 (st_gid st); ce_st_size := u32 (st_size st);
     ce_sha1 := ce_sha1 ce; ce_flags := ce_flags ce; ce_name := ce_name ce |}.

Definition MTIME_CHANGED : Z := 0x0001.
Definition CTIME_CHANGED : Z := 0x0002.
Definition OWNER_CHANGED : Z := 0x0004.
Definition MODE_CHANGED : Z := 0x0008.
Definition INODE_CHANGED : Z := 0x0010.
Definition DATA_CHANGED : Z := 0x0020.
Definition TYPE_CHANGED : Z := 0x0040.

(** [changed |= bit] when the condition holds. *)
Definition flag_if (c : bool) (bit changed : Z) : Z := if c then Z.lor changed bit else changed.

Definition ce_match_stat (ce : cache_entry) (st : stat) : outcome Z :=
  let changed := 0 in
  changed ←
    (if Z.land (ce_mode ce) S_IFMT =? S_IFREG then
       let changed := flag_if (negb (S_ISREG (st_mode st))) TYPE_CHANGED changed in
       Ret (flag_if (negb (Z.land 0x40 (Z.lxor (ce_mode ce) (st_mode st)) =? 0)) MODE_CHANGED changed)
     else if Z.land (ce_mode ce) S_IFMT =? S_IFLNK then
       Ret (flag_if (negb (S_ISLNK (st_mode st))) TYPE_CHANGED changed)
     else Die);
  let changed := flag_if (negb (sec (ce_mtime ce) =? u32 (st_mtime st))) MTIME_CHANGED changed in
  let changed := flag_if (negb (sec (ce_ctime ce) =? u32 (st_ctime st))) CTIME_CHANGED changed in
  let changed := flag_if (negb (ce_uid ce =? u32 (st_uid st)) || negb (ce_gid ce =? u32 (st_gid st)))
                   OWNER_CHANGED changed in
  let changed := flag_if (negb (ce_ino ce =? u32 (st_ino st))) INODE_CHANGED changed in
  let changed := flag_if (negb (ce_st_size ce =? u32 (st_size st))) DATA_CHANGED changed in
  Ret changed.

(** [base_name_compare]: a NUL ends each name; [mode1] and [mode2] say which
    one is a directory. *)
Definition name_char (name : bytes) (i : nat) : Z := default 0 (name !! i).

Definition base_name_compare (name1 : bytes) (len1 : nat) (mode1 : Z) (name2 : bytes) (len2 : nat) (mode2 : Z) : Z :=
  let len := (if (len1 <? len2)%nat then len1 else len2) in
  let cmp := memcmp len name1 name2 in
  if negb (cmp =? 0) then cmp
  else
    let c1 := name_char name1 len in
    let c2 := name_char name2 len in
    let c1 := if (c1 =? 0) && S_ISDIR mode1 then 47 else c1 in
    let c2 := if (c2 =? 0) && S_ISDIR mode2 then 47 else c2 in
    if c1 <? c2 then -1 else if c2 <? c1 then 1 else 0.

Definition cache_name_compare (name1 : bytes) (flags1 : Z) (name2 : bytes) (flags2 : Z) : Z :=
  let len1 := Z.land flags1 CE_NAMEMASK in
  let len2 := Z.land flags2 CE_NAMEMASK in
  let len := if len1 <? len2 then len1 else len2 in
  let cmp := memcmp (Z.to_nat len) name1 name2 in
  if negb (cmp =? 0) then cmp
  else if len1 <? len2 then -1
  else if len2 <? len1 then 1
  else if flags1 <? flags2 then -1
  else if flags2 <? flags1 then 1
  else 0.

Definition ce_same_name (a b : cache_entry) : bool :=
  let len := ce_namelen a in
  (ce_namelen b =? len) && (memcmp (Z.to_nat len) (ce_name a) (ce_name b) =? 0).

(** ** Entries and their keys *)

(** An entry of the index: its flags word holds the length of its name and
    its stage, and no in-memory bit. *)
Record ce_wf (ce : cache_entry) : Prop := {
  wf_flags : ce_flags ce = Z.of_nat (length (ce_name ce)) + 4096 * ce_stage ce;
  wf_len : (length (ce_name ce) < 4096)%nat;
  wf_stage : 0 <= ce_stage ce < 4
}.

#[export] Instance ce_wf_dec ce : Decision (ce_wf ce).
Proof.
  refine (cast_if (decide (ce_flags ce = Z.of_nat (length (ce_name ce)) + 4096 * ce_stage ce /\
    (length (ce_name ce) < 4096)%nat /\ 0 <= ce_stage ce < 4))).
  - by split; tauto.
  - by intros []; tauto.
Defined.

Definition ce_key (ce : cache_entry) : bytes * Z := (ce_name ce, ce_flags ce).

(** The order of the index: names, then flags. *)
Definition kcmp (a b : bytes * Z) : Z :=
  let c := lexcmp a.1 b.1 in
  if c =? 0 then (if a.2 <? b.2 then -1 else if b.2 <? a.2 then 1 else 0) else c.

Lemma kcmp_0 a b : kcmp a b = 0 <-> a = b.
Proof.
  destruct a as [n1 f1], b as [n2 f2]. unfold kcmp. cbn [fst snd]. split.
  - destruct (Z.eqb_spec (lexcmp n1 n2) 0) as [E|]; [|done]. apply lexcmp_eq in E as ->.
    destruct (Z.ltb_spec f1 f2), (Z.ltb_spec f2 f1); try done. intros _. f_equal. lia.
  - intros [= -> ->]. by rewrite lexcmp_refl, Z.ltb_irrefl.
Qed.

Lemma kcmp_opp a b : kcmp b a = - kcmp a b.
Proof.
  destruct a as [n1 f1], b as [n2 f2]. unfold kcmp. cbn [fst snd]. rewrite (lexcmp_opp n1 n2).
  destruct (Z.eqb_spec (lexcmp n1 n2) 0) as [E|], (Z.eqb_spec (- lexcmp n1 n2) 0); try lia.
  destruct (Z.ltb_spec f1 f2), (Z.ltb_spec f2 f1); lia.
Qed.

Lemma kcmp_trans a b c : kcmp a b < 0 -> kcmp b c < 0 -> kcmp a c < 0.
Proof.
  destruct a as [n1 f1], b as [n2 f2], c as [n3 f3]. unfold kcmp. cbn [fst snd].
  destruct (Z.eqb_spec (lexcmp n1 n2) 0) as [E12|]; [apply lexcmp_eq in E12 as ->|];
    (destruct (Z.eqb_spec (lexcmp n2 n3) 0) as [E23|]; [apply lexcmp_eq in E23 as ->|]);
    rewrite ?lexcmp_refl, ?Z.eqb_refl.
  - destruct (Z.ltb_spec f1 f2), (Z.ltb_spec f2 f1), (Z.ltb_spec f2 f3), (Z.ltb_spec f3 f2),
      (Z.ltb_spec f1 f3), (Z.ltb_spec f3 f1); lia.
  - intros _ H. destruct (Z.eqb_spec (lexcmp n2 n3) 0); lia.
  - intros H _. destruct (Z.eqb_spec (lexcmp n1 n3) 0); lia.
  - intros H1 H2. pose proof (lexcmp_trans _ _ _ H1 H2). destruct (Z.eqb_spec (lexcmp n1 n3) 0); lia.
Qed.

Lemma memcmp_take n a b : memcmp n a b = memcmp n (take n a) (take n b).
Proof.
  revert a b; induction n as [|n IH]; intros a b; [done|]. cbn [memcmp].
  replace (head (take (S n) a)) with (head a) by (by destruct a).
  replace (head (take (S n) b)) with (head b) by (by destruct b).
  replace (tail (take (S n) a)) with (take n (tail a)) by (by destruct a; simpl; rewrite ?take_nil).
  replace (tail (take (S n) b)) with (take n (tail b)) by (by destruct b; simpl; rewrite ?take_nil).
  by rewrite <- IH.
Qed.

(** The length in the flags says how much of each name counts. *)
Lemma cache_name_compare_kcmp n1 f1 n2 f2 :
  Z.land f1 CE_NAMEMASK <= Z.of_nat (length n1) -> Z.land f2 CE_NAMEMASK = Z.of_nat (length n2) ->
  cache_name_compare n1 f1 n2 f2 = kcmp (take (Z.to_nat (Z.land f1 CE_NAMEMASK)) n1, f1) (n2, f2).
Proof.
  intros H1 H2. assert (H0 : 0 <= Z.land f1 CE_NAMEMASK) by (apply Z.land_nonneg; right; done).
  unfold cache_name_compare, kcmp. cbn [fst snd]. rewrite H2. set (l1 := Z.land f1 CE_NAMEMASK) in *.
  rewrite memcmp_lexcmp, length_take. cbv zeta.
  replace (Z.to_nat l1 `min` length n1)%nat with (Z.to_nat l1) by lia.
  replace (Z.to_nat (if l1 <? Z.of_nat (length n2) then l1 else Z.of_nat (length n2)))
    with (Z.to_nat l1 `min` length n2)%nat by (destruct (Z.ltb_spec l1 (Z.of_nat (length n2))); lia).
  set (m := (Z.to_nat l1 `min` length n2)%nat).
  replace (memcmp m (take (Z.to_nat l1) n1) n2) with (memcmp m n1 n2).
  2:{ rewrite (memcmp_take m n1 n2), (memcmp_take m (take (Z.to_nat l1) n1) n2), take_take.
      by replace (m `min` Z.to_nat l1)%nat with m by lia. }
  destruct (Z.eqb_spec (memcmp m n1 n2) 0) as [E|E]; cbn [negb].
  - destruct (Z.ltb_spec l1 (Z.of_nat (length n2))), (Z.ltb_spec (Z.of_nat (length n2)) l1),
      (Nat.ltb_spec (Z.to_nat l1) (length n2)), (Nat.ltb_spec (length n2) (Z.to_nat l1)); try lia; done.
  - destruct (Z.eqb_spec (memcmp m n1 n2) 0); [done|]. by destruct (Z.eqb_spec (memcmp m n1 n2) 0).
Qed.

Lemma land_namemask f : Z.land f CE_NAMEMASK = f mod 4096.
Proof. change CE_NAMEMASK with (Z.ones 12). by rewrite Z.land_ones by lia. Qed.

Lemma land_stagemask f : Z.shiftr (Z.land CE_STAGEMASK f) CE_STAGESHIFT = f / 4096 mod 4.
Proof.
  rewrite Z.shiftr_land. change (Z.shiftr CE_STAGEMASK CE_STAGESHIFT) with (Z.ones 2).
  rewrite Z.land_comm, Z.land_ones, Z.shiftr_div_pow2 by (unfold CE_STAGESHIFT; lia). done.
Qed.

Lemma wf_namelen ce : ce_wf ce -> ce_namelen ce = Z.of_nat (length (ce_name ce)).
Proof.
  intros [Hf Hl Hs]. unfold ce_namelen. rewrite Z.land_comm, land_namemask, Hf, Z.mul_comm, Z.mod_add by lia.
  apply Z.mod_small. lia.
Qed.

Lemma wf_namemask ce : ce_wf ce -> Z.land (ce_flags ce) CE_NAMEMASK = Z.of_nat (length (ce_name ce)).
Proof. intros H. rewrite Z.land_comm. by apply wf_namelen. Qed.

Lemma create_ce_flags_eq len stage :
  0 <= len < 4096 -> 0 <= stage < 4 -> create_ce_flags len stage = len + 4096 * stage.
Proof.
  intros Hl Hs. unfold create_ce_flags, CE_STAGESHIFT. rewrite Z.lor_comm, lor_shiftl_add by lia.
  change (2 ^ 12) with 4096. unfold u16. rewrite Z.mod_small by lia. lia.
Qed.

Lemma ce_same_name_iff a b : ce_wf a -> ce_wf b -> ce_same_name a b = true <-> ce_name a = ce_name b.
Proof.
  intros Ha Hb. unfold ce_same_name. rewrite (wf_namelen a Ha), (wf_namelen b Hb), Nat2Z.id.
  rewrite andb_true_iff, !Z.eqb_eq. split.
  - intros [H1 H2]. apply memcmp_eq in H2; [|lia..]. rewrite !take_ge in H2 by lia. done.
  - intros E. rewrite E. split; [done|]. by apply memcmp_eq.
Qed.

(** ** Changes on disk *)

(** What [ce_match_stat] looks at: the kind of file, the owner's x bit of a
    regular file, and the low 32 bits of times, owner, inode and size. *)
Definition stat_fields_match (ce : cache_entry) (st : stat) : Prop :=
  sec (ce_mtime ce) = u32 (st_mtime st) /\ sec (ce_ctime ce) = u32 (st_ctime st) /\
  ce_uid ce = u32 (st_uid st) /\ ce_gid ce = u32 (st_gid st) /\
  ce_ino ce = u32 (st_ino st) /\ ce_st_size ce = u32 (st_size st).

Lemma flag_if_lor c bit changed : flag_if c bit changed = Z.lor changed (if c then bit else 0).
Proof. destruct c; simpl; [done|]. by rewrite Z.lor_0_r. Qed.

Lemma flag_if_0 c bit changed : bit <> 0 -> flag_if c bit changed = 0 <-> changed = 0 /\ c = false.
Proof.
  intros Hb. rewrite flag_if_lor, Z.lor_eq_0_iff. destruct c; intuition congruence.
Qed.

(** The six comparisons after the mode. *)
Lemma stat_fields_flags ce st changed :
  flag_if (negb (ce_st_size ce =? u32 (st_size st))) DATA_CHANGED
   (flag_if (negb (ce_ino ce =? u32 (st_ino st))) INODE_CHANGED
    (flag_if (negb (ce_uid ce =? u32 (st_uid st)) || negb (ce_gid ce =? u32 (st_gid st))) OWNER_CHANGED
     (flag_if (negb (sec (ce_ctime ce) =? u32 (st_ctime st))) CTIME_CHANGED
      (flag_if (negb (sec (ce_mtime ce) =? u32 (st_mtime st))) MTIME_CHANGED changed)))) = 0
  <-> changed = 0 /\ stat_fields_match ce st.
Proof.
  rewrite !flag_if_0 by done. rewrite orb_false_iff, !negb_false_iff, !Z.eqb_eq.
  unfold stat_fields_match. intuition.
Qed.

Lemma ce_match_stat_cases ce st :
  (ce_match_stat ce st = Ret 0 <->
    ((S_ISREG (ce_mode ce) = true /\ S_ISREG (st_mode st) = true /\
      Z.testbit (ce_mode ce) 6 = Z.testbit (st_mode st) 6) \/
     (S_ISLNK (ce_mode ce) = true /\ S_ISLNK (st_mode st) = true)) /\
    stat_fields_match ce st) /\
  (ce_match_stat ce st = Die <-> S_ISREG (ce_mode ce) = false /\ S_ISLNK (ce_mode ce) = false).
Proof.
  assert (Hx : Z.land 0x40 (Z.lxor (ce_mode ce) (st_mode st)) = 0 <->
               Z.testbit (ce_mode ce) 6 = Z.testbit (st_mode st) 6).
  { change 0x40 with (2 ^ 6). split.
    - intros H. apply (f_equal (fun z => Z.testbit z 6)) in H.
      rewrite Z.land_spec, Z.pow2_bits_true, Z.lxor_spec, Z.bits_0 in H by lia.
      by destruct (Z.testbit (ce_mode ce) 6), (Z.testbit (st_mode st) 6).
    - intros H. apply Z.bits_inj'. intros i Hi. rewrite Z.land_spec, Z.lxor_spec, Z.bits_0.
      destruct (decide (i = 6)) as [->|]; [rewrite H, xorb_nilpotent; apply andb_false_r|].
      by rewrite Z.pow2_bits_false by done. }
  unfold ce_match_stat. fold (S_ISREG (ce_mode ce)) (S_ISLNK (ce_mode ce)).
  destruct (S_ISREG (ce_mode ce)) eqn:Er.
  - assert (S_ISLNK (ce_mode ce) = false) as El.
    { unfold S_ISREG, S_ISLNK in *. apply Z.eqb_eq in Er. by rewrite Er. }
    rewrite bind_Ret, El. split; [|split; intuition discriminate].
    transitivity ((flag_if (negb (Z.land 0x40 (Z.lxor (ce_mode ce) (st_mode st)) =? 0)) MODE_CHANGED
       (flag_if (negb (S_ISREG (st_mode st))) TYPE_CHANGED 0)) = 0 /\ stat_fields_match ce st).
    { rewrite <- stat_fields_flags. split; [by intros [= ?]|by intros ->]. }
    rewrite !flag_if_0, !negb_false_iff, Z.eqb_eq, Hx by done. intuition discriminate.
  - destruct (S_ISLNK (ce_mode ce)) eqn:El; [|split; split; intuition discriminate].
    rewrite bind_Ret. split; [|split; intuition discriminate].
    transitivity ((flag_if (negb (S_ISLNK (st_mode st))) TYPE_CHANGED 0) = 0 /\ stat_fields_match ce st).
    { rewrite <- stat_fields_flags. split; [by intros [= ?]|by intros ->]. }
    rewrite !flag_if_0, !negb_false_iff by done. intuition discriminate.
Qed.

(** [ce_match_stat] reports a file as unchanged exactly when nothing
    it tracks changed: an entry for a regular file against a regular file with
    the same owner-executable bit, or one for a symbolic link against a symbolic link, and
    the low 32 bits of mtime, ctime, uid, gid, inode and size all equal.  An
    entry that is neither kills the process. *)
Theorem ce_match_stat_spec (ce : cache_entry) (st : stat) :
  (ce_match_stat ce st = Ret 0 <->
    ((S_ISREG (ce_mode ce) = true /\ S_ISREG (st_mode st) = true /\
      Z.testbit (ce_mode ce) 6 = Z.testbit (st_mode st) 6) \/
     (S_ISLNK (ce_mode ce) = true /\ S_ISLNK (st_mode st) = true)) /\
    stat_fields_match ce st) /\
  (ce_match_stat ce st = Die <-> S_ISREG (ce_mode ce) = false /\ S_ISLNK (ce_mode ce) = false).
Proof. apply ce_match_stat_cases. Qed.

Lemma create_ce_mode_kind mode :
  (S_ISREG mode = true -> S_ISREG (create_ce_mode mode) = true /\
    Z.testbit (create_ce_mode mode) 6 = Z.testbit mode 6) /\
  (S_ISLNK mode = true -> S_ISLNK (create_ce_mode mode) = true).
Proof.
  unfold create_ce_mode. destruct (S_ISLNK mode) eqn:El.
  - split; [|done]. unfold S_ISREG, S_ISLNK in *. apply Z.eqb_eq in El. by rewrite El.
  - split; [|done]. intros _. unfold ce_permissions.
    assert (E : Z.land mode 0x40 = 0 <-> Z.testbit mode 6 = false).
    { change 0x40 with (Z.shiftl 1 6). split.
      - intros H. apply (f_equal (fun z => Z.testbit z 6)) in H.
        rewrite Z.land_spec in H. by rewrite andb_true_r in H.
      - intros H. apply Z.bits_inj'. intros i Hi. rewrite Z.land_spec, Z.bits_0.
        destruct (decide (i = 6)) as [->|]; [by rewrite H|]. change (Z.shiftl 1 6) with (2 ^ 6).
        rewrite Z.pow2_bits_false by done. apply andb_false_r. }
    destruct (Z.eqb_spec (Z.land mode 0x40) 0) as [E0|E0]; split; try done.
    + symmetry. by apply E.
    + symmetry. destruct (Z.testbit mode 6); tauto.
Qed.

(** An entry that [fill_stat_cache_info] has just filled in from a
    file or symbolic link, with the mode [create_ce_mode] gives it, is not
    reported as changed by [ce_match_stat]. *)
Theorem fill_stat_match (ce : cache_entry) (st : stat)
    (Hmode : ce_mode ce = create_ce_mode (st_mode st))
    (Hkind : S_ISREG (st_mode st) = true \/ S_ISLNK (st_mode st) = true) :
  ce_match_stat (fill_stat_cache_info ce st) st = Ret 0.
Proof.
  apply ce_match_stat_cases. split; [|by repeat split].
  destruct (create_ce_mode_kind (st_mode st)) as [Hr Hl]. cbn [ce_mode fill_stat_cache_info]. rewrite Hmode.
  destruct Hkind as [Hk|Hk]; [left|right]; intuition.
Qed.

Lemma fill_stat_match_witness :
  let st := {| st_mode := 0x81ed; st_ctime := 2 ^ 33 + 5; st_mtime := 7; st_dev := 1; st_ino := 9;
               st_uid := 1000; st_gid := 1000; st_size := 12 |} in
  let ce := {| ce_ctime := {| sec := 0; nsec := 0 |}; ce_mtime := {| sec := 0; nsec := 0 |}; ce_dev := 0;
               ce_ino := 0; ce_mode := create_ce_mode 0x81ed; ce_uid := 0; ce_gid := 0; ce_st_size := 0;
               ce_sha1 := replicate 20 0; ce_flags := 1; ce_name := [97] |} in
  ce_match_stat ce st = Ret 0x37 /\ ce_match_stat (fill_stat_cache_info ce st) st = Ret 0.
Proof.
  split; [vm_compute; reflexivity|].
  apply fill_stat_match; [reflexivity|left; vm_compute; reflexivity].
Defined.
