(* ===== verification/Index.v ===== *)
(** * The index in memory (read-cache.c)

    [cache_name_pos], [remove_cache_entry_at], [remove_file_from_cache] and
    [add_cache_entry] with its directory/file conflict check.  The globals
    [active_cache] (with [active_nr] its length), [active_alloc] and
    [active_cache_changed] are the record [index], passed along explicitly.

    The invariant is [index_ok]: well-formed entries in strictly increasing order of name and
    stage. *)

From stdpp Require Import base list numbers strings sorting.
From Stdlib Require Import ZArith Lia.
From S2P Require Import Prelude CacheEntry.

(** ** The C code *)

Record index := {
  active_cache : list cache_entry;
  active_alloc : Z;
  active_cache_changed : bool
}.

Definition active_nr (i : index) : Z := Z.of_nat (length (active_cache i)).

Definition set_cache (i : index) (c : list cache_entry) : index :=
  {| active_cache := c; active_alloc := active_alloc i; active_cache_changed := true |}.

Definition alloc_nr (x : Z) : Z := u32 ((x + 16) * 3) / 2.

(** The comparison of the binary search at [next]. *)
Definition name_pos_cmp (cache : list cache_entry) (name : bytes) (namelen : Z) (next : Z) : Z :=
  match cache !! Z.to_nat next with
  | Some ce => cache_name_compare name namelen (ce_name ce) (ce_flags ce)
  | None => 0
  end.

Definition cache_name_pos (cache : list cache_entry) (name : bytes) (namelen : Z) : Z :=
  bsearch (name_pos_cmp cache name namelen) 0 (Z.of_nat (length cache)).

(** The result says whether there are more entries behind.  Called with
    [pos < active_nr] only. *)
Definition remove_cache_entry_at (i : index) (pos : nat) : Z * index :=
  let nr := (length (active_cache i) - 1)%nat in
  if (nr <=? pos)%nat then (0, set_cache i (take nr (active_cache i)))
  else (1, set_cache i (take pos (active_cache i) ++ drop (S pos) (active_cache i))).

(** [while (pos < active_nr && !strcmp(active_cache[pos]->name, path))];
    [bytes] have no NUL inside, so [strcmp] is 0 iff they are equal. *)
Fixpoint remove_file_loop (fuel : nat) (i : index) (pos : nat) (path : bytes) : index :=
  match fuel with
  | O => i
  | S fuel =>
      match active_cache i !! pos with
      | Some ce =>
          if bool_decide (ce_name ce = path)
          then remove_file_loop fuel (remove_cache_entry_at i pos).2 pos path
          else i
      | None => i
      end
  end.

Definition remove_file_from_cache (i : index) (path : bytes) : Z * index :=
  let pos := cache_name_pos (active_cache i) path (Z.of_nat (length path)) in
  let pos := if pos <? 0 then - pos - 1 else pos in
  (0, remove_file_loop (length (active_cache i)) i (Z.to_nat pos) path).

(** [while (pos < active_nr)]: an iteration moves [pos] or removes an entry. *)
Fixpoint has_file_name_loop (fuel : nat) (i : index) (ce : cache_entry) (pos : nat) (ok_to_replace : bool)
    (retval : Z) : Z * index :=
  match fuel with
  | O => (retval, i)
  | S fuel =>
      match active_cache i !! pos with
      | None => (retval, i)
      | Some p =>
          let len := ce_namelen ce in
          if ce_namelen p <=? len then (retval, i)
          else if negb (memcmp (Z.to_nat len) (ce_name ce) (ce_name p) =? 0) then (retval, i)
          else if negb (ce_stage p =? ce_stage ce) then has_file_name_loop fuel i ce (S pos) ok_to_replace retval
          else if negb (name_char (ce_name p) (Z.to_nat len) =? 47)
               then has_file_name_loop fuel i ce (S pos) ok_to_replace retval
          else if negb ok_to_replace then (-1, i)
          else has_file_name_loop fuel (remove_cache_entry_at i pos).2 ce pos ok_to_replace (-1)
      end
  end.

Definition has_file_name (i : index) (ce : cache_entry) (pos : nat) (ok_to_replace : bool) : Z * index :=
  has_file_name_loop (length (active_cache i)) i ce pos ok_to_replace 0.

(** The inner [for (;;)]: the last slash before [slash], [None] when there is
    none.  A read before the name is [Ub]. *)
Fixpoint prev_slash (name : bytes) (slash : nat) : outcome (option nat) :=
  match slash with
  | O => Ub
  | S slash =>
      if name_char name slash =? 47 then Ret (Some slash)
      else match slash with O => Ret None | _ => prev_slash name slash end
  end.

(** The scan for an entry of the same stage in the sub-directory of [len]
    bytes: [true] is the early [return]. *)
Fixpoint in_subdir (fuel : nat) (cache : list cache_entry) (pos : nat) (name : bytes) (len stage : Z) : bool :=
  match fuel with
  | O => false
  | S fuel =>
      match cache !! pos with
      | None => false
      | Some p =>
          if (ce_namelen p <=? len) || negb (name_char (ce_name p) (Z.to_nat len) =? 47)
             || negb (memcmp (Z.to_nat len) (ce_name p) name =? 0) then false
          else if ce_stage p =? stage then true
          else in_subdir fuel cache (S pos) name len stage
      end
  end.

(** The outer [for (;;)]: [slash] moves left in each iteration. *)
Fixpoint has_dir_name_loop (fuel : nat) (i : index) (ce : cache_entry) (slash : nat) (ok_to_replace : bool)
    (retval : Z) : outcome (Z * index) :=
  match fuel with
  | O => Ub
  | S fuel =>
      r ← prev_slash (ce_name ce) slash;
      match r with
      | None => Ret (retval, i)
      | Some slash =>
          let len := Z.of_nat slash in
          let stage := ce_stage ce in
          let pos := cache_name_pos (active_cache i) (ce_name ce) (create_ce_flags len stage) in
          if 0 <=? pos then
            if ok_to_replace then Ret (-1, i)
            else has_dir_name_loop fuel (remove_cache_entry_at i (Z.to_nat pos)).2 ce slash ok_to_replace (-1)
          else
            let pos := - pos - 1 in
            if in_subdir (length (active_cache i)) (active_cache i) (Z.to_nat pos) (ce_name ce) len stage
            then Ret (retval, i)
            else has_dir_name_loop fuel i ce slash ok_to_replace retval
      end
  end.

Definition has_dir_name (i : index) (ce : cache_entry) (ok_to_replace : bool) : outcome (Z * index) :=
  has_dir_name_loop (S (length (ce_name ce))) i ce (Z.to_nat (ce_namelen ce)) ok_to_replace 0.

Definition check_file_directory_conflict (i : index) (ce : cache_entry) (pos : nat) (ok_to_replace : bool)
    : outcome (Z * index) :=
  let '(retval, i) := has_file_name i ce pos ok_to_replace in
  '(r, i) ← has_dir_name i ce ok_to_replace;
  Ret (retval + r, i).

(** [while (ce_same_name(active_cache[pos], ce))]: the unmerged entries a
    merged one replaces; the result says whether there was one. *)
Fixpoint drop_unmerged (fuel : nat) (i : index) (ce : cache_entry) (pos : nat) (ok_to_add : bool) : bool * index :=
  match fuel with
  | O => (ok_to_add, i)
  | S fuel =>
      match active_cache i !! pos with
      | None => (ok_to_add, i)
      | Some p =>
          if ce_same_name p ce then
            let '(more, i) := remove_cache_entry_at i pos in
            if more =? 0 then (true, i) else drop_unmerged fuel i ce pos true
          else (ok_to_add, i)
      end
  end.

Definition insert_at (i : index) (pos : nat) (ce : cache_entry) : outcome index :=
  let nr := active_nr i in
  let alloc := if nr =? active_alloc i then alloc_nr (active_alloc i) else active_alloc i in
  if alloc <=? nr then Ub
  else
    Ret {| active_cache := take pos (active_cache i) ++ ce :: drop pos (active_cache i);
           active_alloc := alloc; active_cache_changed := true |}.

Definition ADD_CACHE_OK_TO_ADD : Z := 1.
Definition ADD_CACHE_OK_TO_REPLACE : Z := 2.
Definition ADD_CACHE_SKIP_DFCHECK : Z := 4.

(** From the conflict check on: [ce] goes to [pos], or to the position found
    anew when entries were removed. *)
Definition add_new_entry (i : index) (ce : cache_entry) (pos : nat) (ok_to_replace skip_df_check : bool)
    : outcome (Z * index) :=
  if skip_df_check then i ← insert_at i pos ce; Ret (0, i)
  else
    '(conflict, i) ← check_file_directory_conflict i ce pos ok_to_replace;
    if negb (conflict =? 0) then
      if negb ok_to_replace then Ret (-1, i)
      else
        let pos := cache_name_pos (active_cache i) (ce_name ce) (ce_flags ce) in
        i ← insert_at i (Z.to_nat (- pos - 1)) ce; Ret (0, i)
    else i ← insert_at i pos ce; Ret (0, i).

Definition add_cache_entry (i : index) (ce : cache_entry) (option : Z) : outcome (Z * index) :=
  let ok_to_add := negb (Z.land option ADD_CACHE_OK_TO_ADD =? 0) in
  let ok_to_replace := negb (Z.land option ADD_CACHE_OK_TO_REPLACE =? 0) in
  let skip_df_check := negb (Z.land option ADD_CACHE_SKIP_DFCHECK =? 0) in
  let pos := cache_name_pos (active_cache i) (ce_name ce) (ce_flags ce) in
  if 0 <=? pos then Ret (0, set_cache i (<[Z.to_nat pos := ce]> (active_cache i)))
  else
    let pos := Z.to_nat (- pos - 1) in
    let '(ok_to_add, i) :=
      if (Z.of_nat pos <? active_nr i) && (ce_stage ce =? 0)
      then drop_unmerged (length (active_cache i)) i ce pos ok_to_add else (ok_to_add, i) in
    if negb ok_to_add then Ret (-1, i)
    else add_new_entry i ce pos ok_to_replace skip_df_check.

(** An entry with a given name and stage, for examples. *)
Definition test_entry (name : string) (stage : Z) : cache_entry :=
  {| ce_ctime := {| sec := 1; nsec := 0 |}; ce_mtime := {| sec := 1; nsec := 0 |}; ce_dev := 1; ce_ino := 1;
     ce_mode := 0x81a4; ce_uid := 0; ce_gid := 0; ce_st_size := 0; ce_sha1 := replicate 20 0;
     ce_flags := create_ce_flags (Z.of_nat (length (str name))) stage; ce_name := str name |}.

Definition test_index (l : list cache_entry) : index :=
  {| active_cache := l; active_alloc := 100; active_cache_changed := false |}.

Example add_ex :
  add_cache_entry (test_index [test_entry "a" 0; test_entry "c" 0]) (test_entry "b" 0) 1 =
    Ret (0, {| active_cache := [test_entry "a" 0; test_entry "b" 0; test_entry "c" 0];
               active_alloc := 100; active_cache_changed := true |}).
Proof. vm_compute. reflexivity. Qed.

(** ** The order of the index *)

Definition ce_lt (a b : cache_entry) : Prop := kcmp (ce_key a) (ce_key b) < 0.

Definition index_ok (cache : list cache_entry) : Prop := Forall ce_wf cache /\ StronglySorted ce_lt cache.

#[export] Instance index_ok_dec cache : Decision (index_ok cache).
Proof. unfold index_ok, ce_lt. apply _. Defined.

Lemma elem_of_middle {A} (l1 l2 : list A) e : e ∈ l1 ++ e :: l2.
Proof. apply elem_of_app. right. by apply elem_of_cons; left. Qed.

Lemma StronglySorted_sublist {A} (R : A -> A -> Prop) l k :
  sublist l k -> StronglySorted R k -> StronglySorted R l.
Proof.
  induction 1 as [|x l k Hs IH|x l k Hs IH]; intros H; [done| |]; inversion H; subst; [|by apply IH].
  constructor; [by apply IH|]. by eapply Forall_sublist.
Qed.

Lemma index_ok_sublist l k : sublist l k -> index_ok k -> index_ok l.
Proof. intros Hs [H1 H2]. split; [by eapply Forall_sublist|by eapply StronglySorted_sublist]. Qed.

Lemma ce_key_lt_ne a b : ce_lt a b -> ce_key a <> ce_key b.
Proof. unfold ce_lt. intros Hlt E. rewrite E, (proj2 (kcmp_0 _ _) eq_refl) in Hlt. lia. Qed.

Lemma ce_lt_irrefl a : ~ ce_lt a a.
Proof. intros H. by apply ce_key_lt_ne in H. Qed.

(** The keys of an index are distinct. *)
Lemma index_key_inj cache p q : index_ok cache -> p ∈ cache -> q ∈ cache -> ce_key p = ce_key q -> p = q.
Proof.
  intros [_ Hs] Hp Hq Ek. apply list_elem_of_lookup in Hp as [i Hi], Hq as [j Hj].
  destruct (Nat.lt_trichotomy i j) as [Hij|[->|Hij]]; [|congruence|].
  - pose proof (StronglySorted_lookup _ _ _ _ _ _ Hs Hi Hj Hij) as Hlt.
    by apply ce_key_lt_ne in Hlt.
  - pose proof (StronglySorted_lookup _ _ _ _ _ _ Hs Hj Hi Hij) as Hlt.
    by apply ce_key_lt_ne in Hlt.
Qed.

(** The key [cache_name_pos] looks for. *)
Definition search_key (name : bytes) (namelen : Z) : bytes * Z :=
  (take (Z.to_nat (Z.land namelen CE_NAMEMASK)) name, namelen).

(** Where the search ends up. *)
Definition name_pos_result (cache : list cache_entry) (k : bytes * Z) (r : Z) : Prop :=
  (exists l1 e l2, cache = l1 ++ e :: l2 /\ r = Z.of_nat (length l1) /\ ce_key e = k) \/
  (exists l1 l2, cache = l1 ++ l2 /\ r = - Z.of_nat (length l1) - 1 /\
    Forall (fun e => kcmp (ce_key e) k < 0) l1 /\ Forall (fun e => kcmp k (ce_key e) < 0) l2).

Lemma name_pos_cmp_kcmp cache name namelen i e :
  Forall ce_wf cache -> Z.land namelen CE_NAMEMASK <= Z.of_nat (length name) ->
  cache !! Z.to_nat i = Some e ->
  name_pos_cmp cache name namelen i = kcmp (search_key name namelen) (ce_key e).
Proof.
  intros HF Hl He. unfold name_pos_cmp. rewrite He. apply cache_name_compare_kcmp; [done|].
  apply wf_namemask. by eapply Forall_lookup_1.
Qed.

Lemma cache_name_pos_result cache name namelen :
  index_ok cache -> Z.land namelen CE_NAMEMASK <= Z.of_nat (length name) ->
  name_pos_result cache (search_key name namelen) (cache_name_pos cache name namelen).
Proof.
  intros [Hwf Hs] Hl. set (k := search_key name namelen).
  destruct (bsearch_list (fun e => kcmp k (ce_key e)) (name_pos_cmp cache name namelen) cache)
    as [(l1&e&l2&E&Er&Ek)|(l1&l2&E&Er&H1&H2)].
  - intros i e He. apply name_pos_cmp_kcmp; [done..|]. by rewrite Nat2Z.id.
  - eapply StronglySorted_mono; [|exact Hs]. intros a b Hlt Ha. unfold ce_lt in Hlt.
    destruct (Z.eq_dec (kcmp k (ce_key a)) 0) as [Ek|]; [apply kcmp_0 in Ek; by rewrite Ek|].
    apply (kcmp_trans _ (ce_key a)); lia.
  - left. exists l1, e, l2. split; [done|]. split; [done|]. symmetry. by apply kcmp_0.
  - right. exists l1, l2. split; [done|]. split; [done|]. split; [|done].
    eapply Forall_impl; [exact H1|]. intros e He. cbv beta in He. rewrite kcmp_opp. lia.
Qed.

(**  [cache_name_pos] finds its way: in an index in order, for the name
    of [namelen & 0xfff] bytes at the stage in the upper bits, it returns the
    position of the entry with exactly that name and stage, and
    otherwise -1 - p where p is the one position at which such an entry can be
    inserted, every entry before it being smaller and every other larger. *)
Theorem cache_name_pos_spec (cache : list cache_entry) (name : bytes) (namelen : Z)
    (Hok : index_ok cache) (Hl : Z.land namelen CE_NAMEMASK <= Z.of_nat (length name)) :
  name_pos_result cache (search_key name namelen) (cache_name_pos cache name namelen).
Proof. by apply cache_name_pos_result. Qed.

Lemma cache_name_pos_spec_witness :
  name_pos_result [test_entry "a" 0; test_entry "b" 1; test_entry "b" 3] (str "b", 0x2001) (-3).
Proof.
  apply (cache_name_pos_spec [test_entry "a" 0; test_entry "b" 1; test_entry "b" 3] (str "b") 0x2001).
  - apply (bool_decide_unpack _). vm_compute. exact I.
  - vm_compute. discriminate.
Defined.

(** ** Removing *)

(** Entries are only taken away. *)
Definition shrinks (i i' : index) : Prop :=
  sublist (active_cache i') (active_cache i) /\ active_alloc i' = active_alloc i.

Lemma shrinks_refl i : shrinks i i.
Proof. done. Qed.

Lemma shrinks_trans i j k : shrinks i j -> shrinks j k -> shrinks i k.
Proof. intros [H1 H2] [H3 H4]. split; [by etrans|congruence]. Qed.

Lemma remove_at_cache i pos :
  (pos < length (active_cache i))%nat ->
  active_cache (remove_cache_entry_at i pos).2 = delete pos (active_cache i).
Proof.
  intros Hp. unfold remove_cache_entry_at. rewrite delete_take_drop.
  destruct (Nat.leb_spec (length (active_cache i) - 1) pos); cbn [snd set_cache active_cache]; [|done].
  replace pos with (length (active_cache i) - 1)%nat by lia.
  rewrite (drop_ge _ (S _)) by lia. by rewrite app_nil_r.
Qed.

Lemma remove_at_middle i l1 e l2 :
  active_cache i = l1 ++ e :: l2 ->
  active_cache (remove_cache_entry_at i (length l1)).2 = l1 ++ l2.
Proof.
  intros E. rewrite remove_at_cache, E by (rewrite E, length_app; simpl; lia).
  by rewrite delete_middle.
Qed.

Lemma remove_at_shrinks i pos :
  (pos < length (active_cache i))%nat -> shrinks i (remove_cache_entry_at i pos).2.
Proof.
  intros Hp. split; [rewrite remove_at_cache by done; apply sublist_delete|].
  unfold remove_cache_entry_at. by destruct (_ <=? _)%nat.
Qed.

(** Names in an index in order. *)
Lemma ce_lt_names a b : ce_lt a b -> lexcmp (ce_name a) (ce_name b) <= 0.
Proof. unfold ce_lt, kcmp. simpl. destruct (Z.eqb_spec (lexcmp (ce_name a) (ce_name b)) 0); lia. Qed.

Lemma kcmp_names n f b : kcmp (n, f) (ce_key b) < 0 -> lexcmp n (ce_name b) <= 0.
Proof. unfold kcmp. simpl. destruct (Z.eqb_spec (lexcmp n (ce_name b)) 0); lia. Qed.

Lemma lexcmp_le_lt a b c : lexcmp a b <= 0 -> lexcmp b c < 0 -> lexcmp a c < 0.
Proof.
  intros H1 H2. destruct (Z.eq_dec (lexcmp a b) 0) as [E|]; [by apply lexcmp_eq in E as ->|].
  apply (lexcmp_trans _ b); lia.
Qed.

Lemma lexcmp_lt_le a b c : lexcmp a b < 0 -> lexcmp b c <= 0 -> lexcmp a c < 0.
Proof.
  intros H1 H2. destruct (Z.eq_dec (lexcmp b c) 0) as [E|]; [by apply lexcmp_eq in E as <-|].
  apply (lexcmp_trans _ b); lia.
Qed.

(** The entries of one name are a block. *)
Lemma same_name_block path e l :
  StronglySorted ce_lt (e :: l) -> lexcmp path (ce_name e) < 0 ->
  Forall (fun x => ce_name x <> path) (e :: l).
Proof.
  intros Hs Hlt. apply StronglySorted_inv in Hs as [_ HF].
  assert (Hne : forall x, lexcmp path (ce_name x) < 0 -> ce_name x <> path).
  { intros x Hx E. by rewrite E, lexcmp_refl in Hx. }
  constructor; [by apply Hne|]. eapply Forall_impl; [done|]. intros x Hx. apply Hne.
  eapply lexcmp_lt_le; [done|]. by apply ce_lt_names.
Qed.

Definition other_name (path : bytes) (e : cache_entry) : Prop := ce_name e <> path.

Lemma filter_all {A} (P : A -> Prop) `{!forall x, Decision (P x)} l : Forall P l -> filter P l = l.
Proof. induction 1; [done|]. rewrite filter_cons_True by done. by f_equal. Qed.

Lemma remove_file_loop_cache fuel i l1 l2 path :
  active_cache i = l1 ++ l2 -> (length l2 <= fuel)%nat -> StronglySorted ce_lt l2 ->
  Forall (fun e => lexcmp path (ce_name e) <= 0) l2 ->
  active_cache (remove_file_loop fuel i (length l1) path) = l1 ++ filter (fun e => ce_name e <> path) l2.
Proof.
  revert i l2; induction fuel as [|fuel IH]; intros i l2 E Hf Hs HF.
  { destruct l2; [|simpl in Hf; lia]. simpl. by rewrite E. }
  cbn [remove_file_loop]. rewrite E, lookup_app_r, Nat.sub_diag by lia.
  destruct l2 as [|e l2]; [simpl; by rewrite E|]. cbn [lookup list_lookup].
  case_bool_decide as Hn.
  - apply StronglySorted_inv in Hs as [Hs _]. inversion HF; subst.
    rewrite (IH _ l2); [|by rewrite (remove_at_middle _ _ _ _ E)|simpl in Hf; lia|done|done].
    rewrite filter_cons_False; [done|]. by intros ?.
  - rewrite E. f_equal. symmetry. apply filter_all. apply (same_name_block path); [done|].
    inversion HF; subst. destruct (Z.eq_dec (lexcmp path (ce_name e)) 0) as [E0|]; [|lia].
    by apply lexcmp_eq in E0.
Qed.

Lemma search_key_self path :
  (length path < 4096)%nat -> search_key path (Z.of_nat (length path)) = (path, Z.of_nat (length path)).
Proof.
  intros H. unfold search_key. rewrite land_namemask, Z.mod_small, Nat2Z.id by lia. by rewrite take_ge by lia.
Qed.

(** Before the first possible stage of a name there is no entry of it. *)
Lemma below_other_name path e :
  ce_wf e -> kcmp (ce_key e) (path, Z.of_nat (length path)) < 0 -> ce_name e <> path.
Proof.
  intros [Hf Hl Hs] H E. rewrite <- E in H. unfold kcmp in H. simpl in H. rewrite lexcmp_refl in H. simpl in H.
  destruct (Z.ltb_spec (ce_flags e) (Z.of_nat (length (ce_name e)))); [lia|].
  destruct (_ <? _); lia.
Qed.

(** The two parts of the index around a position of [cache_name_pos]. *)
Lemma name_pos_lower cache k r :
  index_ok cache -> name_pos_result cache k r ->
  exists l1 l2, cache = l1 ++ l2 /\ (if r <? 0 then - r - 1 else r) = Z.of_nat (length l1) /\
    Forall (fun e => kcmp (ce_key e) k < 0) l1 /\ Forall (fun e => kcmp k (ce_key e) <= 0) l2.
Proof.
  intros [_ Hs] [(l1&e&l2&->&->&<-)|(l1&l2&->&->&F1&F2)].
  - apply StronglySorted_app in Hs as (Hx&Hs1&Hs2). apply StronglySorted_inv in Hs2 as [_ HF].
    exists l1, (e :: l2). split; [done|]. destruct (Z.ltb_spec (Z.of_nat (length l1)) 0); [lia|].
    split; [done|]. split.
    + apply Forall_forall. intros x Hin. apply Hx; [done|]. by apply elem_of_cons; left.
    + constructor; [by rewrite (proj2 (kcmp_0 _ _) eq_refl)|]. eapply Forall_impl; [exact HF|].
      unfold ce_lt. intros x Hx'. lia.
  - exists l1, l2. split; [done|]. destruct (Z.ltb_spec (- Z.of_nat (length l1) - 1) 0); [|lia].
    split; [lia|]. split; [done|]. eapply Forall_impl; [exact F2|]. intros x Hx. cbv beta in *. lia.
Qed.

Lemma kcmp_le_names n f b : kcmp (n, f) (ce_key b) <= 0 -> lexcmp n (ce_name b) <= 0.
Proof. unfold kcmp. simpl. destruct (Z.eqb_spec (lexcmp n (ce_name b)) 0); lia. Qed.

(** [remove_file_from_cache] removes a path and nothing else: from an
    index in order it takes exactly the entries of that name, at every stage,
    and leaves the others in order. *)
Theorem remove_file_from_cache_spec (i : index) (path : bytes)
    (Hok : index_ok (active_cache i)) (Hl : (length path < 4096)%nat) :
  let i' := (remove_file_from_cache i path).2 in
  active_cache i' = filter (fun e => ce_name e <> path) (active_cache i) /\ index_ok (active_cache i').
Proof.
  assert (E : active_cache (remove_file_from_cache i path).2 =
    filter (fun e => ce_name e <> path) (active_cache i)).
  { unfold remove_file_from_cache. cbn [snd].
    pose proof (cache_name_pos_result (active_cache i) path (Z.of_nat (length path)) Hok) as Hr.
    rewrite search_key_self in Hr by done.
    destruct (name_pos_lower _ _ _ Hok (Hr ltac:(rewrite land_namemask, Z.mod_small; lia)))
      as (l1&l2&Ec&Ep&F1&F2).
    rewrite Ep, Nat2Z.id, (remove_file_loop_cache _ _ l1 l2); [|done|rewrite Ec, length_app; lia| |].
    - rewrite Ec, filter_app. f_equal. symmetry. apply filter_all.
      destruct Hok as [Hwf _]. rewrite Ec in Hwf. apply Forall_app in Hwf as [Hwf _].
      rewrite Forall_forall in F1, Hwf |- *. intros e He. apply below_other_name; auto.
    - destruct Hok as [_ Hs]. rewrite Ec in Hs. by apply StronglySorted_app in Hs as (_&_&Hs).
    - eapply Forall_impl; [exact F2|]. intros e. apply kcmp_le_names. }
  split; [done|]. cbv zeta. rewrite E. eapply index_ok_sublist; [|done]. apply sublist_filter.
Qed.

Lemma remove_file_from_cache_spec_witness :
  active_cache (remove_file_from_cache
    (test_index [test_entry "a" 0; test_entry "b" 1; test_entry "b" 3; test_entry "c" 0]) (str "b")).2
    = [test_entry "a" 0; test_entry "c" 0].
Proof.
  assert (H := remove_file_from_cache_spec
    (test_index [test_entry "a" 0; test_entry "b" 1; test_entry "b" 3; test_entry "c" 0]) (str "b")).
  destruct H as [H _].
  - apply (bool_decide_unpack _). vm_compute. exact I.
  - vm_compute. lia.
  - etrans; [exact H|]. vm_compute. reflexivity.
Defined.

(** ** Directory/file conflicts *)

(** [p] lies in the directory [d]. *)
Definition under (d : bytes) (p : bytes) : Prop := d ++ [47] `prefix_of` p.

#[export] Instance under_dec d p : Decision (under d p).
Proof. unfold under. apply _. Defined.

(** [p], at the stage of [ce], is a file below [ce]. *)
Definition below (ce p : cache_entry) : Prop := ce_stage p = ce_stage ce /\ under (ce_name ce) (ce_name p).

#[export] Instance below_dec ce p : Decision (below ce p).
Proof. unfold below. apply _. Defined.

Lemma memcmp_prefix n p : (length n <= length p)%nat -> memcmp (length n) n p = 0 <-> n `prefix_of` p.
Proof.
  intros Hl. rewrite memcmp_eq by lia. rewrite take_ge by lia. split.
  - intros E. exists (drop (length n) p). by rewrite E at 1; rewrite take_drop.
  - intros [k ->]. by rewrite take_app_length.
Qed.

Lemma under_iff n p : under n p <-> (length n < length p)%nat /\ n `prefix_of` p /\ name_char p (length n) = 47.
Proof.
  unfold under, name_char. split.
  - intros [k ->]. rewrite !length_app. simpl. split; [lia|]. rewrite <- app_assoc. split; [by eexists|].
    by rewrite lookup_app_r, Nat.sub_diag by lia.
  - intros (Hl&[k ->]&Hc). rewrite lookup_app_r, Nat.sub_diag in Hc by lia.
    destruct k as [|c k]; [by rewrite app_nil_r in Hl; lia|]. simpl in Hc. subst c. exists k. by rewrite <- app_assoc.
Qed.

(** A name that is larger without being an extension is larger than every
    extension. *)
Lemma lexcmp_no_prefix n p s : lexcmp n p < 0 -> ~ n `prefix_of` p -> lexcmp (n ++ s) p < 0.
Proof.
  revert p; induction n as [|x n IH]; intros [|y p]; simpl; try lia.
  - intros _ H. destruct H. by exists (y :: p).
  - destruct (Z.ltb_spec x y), (Z.ltb_spec y x); try lia. intros Hlt Hp. apply IH; [done|].
    intros [k ->]. apply Hp. exists k. by replace x with y by lia.
Qed.

Lemma under_lexcmp n p : under n p -> lexcmp n p < 0.
Proof.
  intros [k ->]. rewrite <- app_assoc. induction n as [|x n IH]; simpl; [done|].
  by rewrite Z.ltb_irrefl.
Qed.

(** The check for files below the new entry only takes entries away, and only
    when it reports a conflict. *)
Lemma has_file_name_loop_shrinks fuel i ce pos ok retval :
  let '(r, i') := has_file_name_loop fuel i ce pos ok retval in
  shrinks i i' /\ ((r = retval /\ i' = i) \/ r = -1).
Proof.
  revert i pos retval; induction fuel as [|fuel IH]; intros i pos retval; cbn [has_file_name_loop];
    [split; [apply shrinks_refl|by left]|].
  destruct (active_cache i !! pos) as [p|] eqn:Ep; [|split; [apply shrinks_refl|by left]].
  destruct (_ <=? _); [split; [apply shrinks_refl|by left]|].
  destruct (negb (memcmp _ _ _ =? 0)); [split; [apply shrinks_refl|by left]|].
  destruct (negb (ce_stage p =? ce_stage ce)); [apply IH|].
  destruct (negb (name_char _ _ =? 47)); [apply IH|].
  destruct (negb ok); [split; [apply shrinks_refl|by right]|].
  specialize (IH (remove_cache_entry_at i pos).2 pos (-1)).
  destruct (has_file_name_loop _ _ _ _ _ _) as [r i']. destruct IH as [IH1 IH2].
  split; [|right; by destruct IH2 as [[? _]|?]].
  eapply shrinks_trans; [|done]. apply remove_at_shrinks. by eapply lookup_lt_Some.
Qed.

Definition any_below (ce : cache_entry) (l : list cache_entry) : bool := existsb (fun p => bool_decide (below ce p)) l.

Lemma any_below_spec ce l : any_below ce l = true <-> exists p, p ∈ l /\ below ce p.
Proof.
  unfold any_below. rewrite existsb_exists. split; intros (p&H1&H2); exists p; revert H1 H2;
    rewrite <- list_elem_of_In, bool_decide_eq_true; auto.
Qed.

Lemma any_below_false ce l : any_below ce l = false -> filter (fun p => ~ below ce p) l = l.
Proof.
  intros H. apply filter_all, Forall_forall. intros p Hp Hb.
  assert (any_below ce l = true) by (apply any_below_spec; eauto). congruence.
Qed.

(** Past an entry that is no extension of the name nothing is below it. *)
Lemma no_more_below ce p l :
  StronglySorted ce_lt (p :: l) -> lexcmp (ce_name ce) (ce_name p) < 0 -> ~ ce_name ce `prefix_of` ce_name p ->
  any_below ce (p :: l) = false.
Proof.
  intros Hs Hlt Hnp. apply not_true_is_false. intros (q&Hq&_&Hu)%any_below_spec.
  destruct Hu as [k Ek]. rewrite <- app_assoc in Ek.
  assert (Hqp : lexcmp (ce_name q) (ce_name p) < 0) by (rewrite Ek; by apply lexcmp_no_prefix).
  apply elem_of_cons in Hq as [->|Hq]; [by rewrite lexcmp_refl in Hqp|].
  apply StronglySorted_inv in Hs as [_ HF]. rewrite Forall_forall in HF.
  pose proof (ce_lt_names _ _ (HF q Hq)). rewrite lexcmp_opp in Hqp. lia.
Qed.

Lemma has_file_name_loop_spec fuel i l1 l2 ce ok retval :
  active_cache i = l1 ++ l2 -> (length l2 <= fuel)%nat -> StronglySorted ce_lt l2 -> Forall ce_wf l2 -> ce_wf ce ->
  Forall (fun e => lexcmp (ce_name ce) (ce_name e) < 0) l2 ->
  let '(r, i') := has_file_name_loop fuel i ce (length l1) ok retval in
  r = (if any_below ce l2 then -1 else retval) /\
  active_cache i' = l1 ++ (if ok then filter (fun p => ~ below ce p) l2 else l2).
Proof.
  intros E0 Hf Hs Hwf Hce HF. revert i l1 l2 retval E0 Hf Hs Hwf HF.
  induction fuel as [|fuel IH]; intros i l1 l2 retval E Hf Hs Hwf HF; cbn [has_file_name_loop].
  { destruct l2; [|simpl in Hf; lia]. rewrite E. by destruct ok. }
  rewrite E, lookup_app_r, Nat.sub_diag by lia.
  destruct l2 as [|p l2]; [cbn; rewrite E; by destruct ok|]. cbn [lookup list_lookup].
  inversion HF as [|? ? Hlt HF']; subst. inversion Hwf as [|? ? Hp Hwf']; subst.
  rewrite (wf_namelen p Hp), (wf_namelen ce Hce), Nat2Z.id.
  assert (Hstop : ~ ce_name ce `prefix_of` ce_name p ->
    retval = (if any_below ce (p :: l2) then -1 else retval) /\
    active_cache i = l1 ++ (if ok then filter (fun p => ~ below ce p) (p :: l2) else p :: l2)).
  { intros Hnp. pose proof (no_more_below _ _ _ Hs Hlt Hnp) as Hb. rewrite Hb. split; [done|].
    rewrite (any_below_false _ _ Hb), E. by destruct ok. }
  assert (Hskip : forall l2', l2' = l2 -> ~ below ce p ->
    let '(r, i') := has_file_name_loop fuel i ce (S (length l1)) ok retval in
    r = (if any_below ce (p :: l2') then -1 else retval) /\
    active_cache i' = l1 ++ (if ok then filter (fun p => ~ below ce p) (p :: l2') else p :: l2')).
  { intros l2' -> Hnb. specialize (IH i (l1 ++ [p]) l2 retval). rewrite length_app, Nat.add_1_r, <- app_assoc in IH.
    simpl in Hf. apply StronglySorted_inv in Hs as [Hs _]. specialize (IH E ltac:(lia) Hs Hwf' HF').
    destruct (has_file_name_loop fuel i ce _ ok retval) as [r i']. destruct IH as [-> ->].
    cbn [any_below existsb]. rewrite (bool_decide_false _ Hnb). split; [done|].
    rewrite <- app_assoc, filter_cons_True by done. by destruct ok. }
  destruct (Z.leb_spec (Z.of_nat (length (ce_name p))) (Z.of_nat (length (ce_name ce)))) as [Hle|Hgt].
  { apply Hstop. intros Hpre. pose proof (prefix_length _ _ Hpre).
    assert (ce_name ce = ce_name p) as Eq by (apply prefix_length_eq; [done|lia]).
    by rewrite Eq, lexcmp_refl in Hlt. }
  destruct (Z.eqb_spec (memcmp (length (ce_name ce)) (ce_name ce) (ce_name p)) 0) as [Em|Em]; cbn [negb].
  2:{ apply Hstop. intros Hpre. apply Em. apply memcmp_prefix; [lia|done]. }
  apply memcmp_prefix in Em; [|lia].
  destruct (Z.eqb_spec (ce_stage p) (ce_stage ce)) as [Est|Est]; cbn [negb].
  2:{ apply (Hskip l2 eq_refl). by intros [? _]. }
  destruct (Z.eqb_spec (name_char (ce_name p) (length (ce_name ce))) 47) as [Ec|Ec]; cbn [negb].
  2:{ apply (Hskip l2 eq_refl). intros [_ Hu]. by apply under_iff in Hu as (_&_&?). }
  assert (Hb : below ce p) by (split; [done|]; apply under_iff; split; [lia|done]).
  cbn [any_below existsb]. rewrite (bool_decide_true _ Hb). cbn [orb].
  destruct ok; cbn [negb].
  - simpl in Hf. apply StronglySorted_inv in Hs as [Hs _].
    specialize (IH (remove_cache_entry_at i (length l1)).2 l1 l2 (-1) (remove_at_middle _ _ _ _ E) ltac:(lia) Hs Hwf' HF').
    destruct (has_file_name_loop _ _ _ _ _ _) as [r i']. destruct IH as [-> ->].
    rewrite filter_cons_False by (by intros Hn; apply Hn). by destruct (any_below ce l2).
  - split; [done|]. by rewrite E.
Qed.

(** ** The check for files where the new entry needs a directory *)

Lemma prev_slash_spec name s : (0 < s)%nat ->
  exists r, prev_slash name s = Ret r /\
    match r with
    | None => forall t, (t < s)%nat -> name_char name t <> 47
    | Some t => (t < s)%nat /\ name_char name t = 47 /\ forall u, (t < u < s)%nat -> name_char name u <> 47
    end.
Proof.
  induction s as [|s IH]; intros Hs; [lia|]. cbn [prev_slash].
  destruct (Z.eqb_spec (name_char name s) 47) as [E|E].
  { eexists. split; [done|]. split; [lia|]. split; [done|]. intros u Hu. lia. }
  destruct s as [|s].
  { eexists. split; [done|]. intros t Ht. by assert (t = 0)%nat as -> by lia. }
  destruct IH as (r&Er&Hr); [lia|]. exists r. split; [done|]. destruct r as [t|].
  - destruct Hr as (H1&H2&H3). split; [lia|]. split; [done|]. intros u Hu.
    destruct (decide (u = S s)) as [->|]; [done|]. apply H3. lia.
  - intros t Ht. destruct (decide (t = S s)) as [->|]; [done|]. apply Hr. lia.
Qed.

(** [q], at the stage of [ce], is a file where [ce] needs a directory. *)
Definition above (ce q : cache_entry) : Prop := ce_stage q = ce_stage ce /\ under (ce_name q) (ce_name ce).

#[export] Instance above_dec ce q : Decision (above ce q).
Proof. unfold above. apply _. Defined.

(** No file of a stage is a directory of another of the same stage. *)
Definition df_ok (cache : list cache_entry) : Prop := forall p q, p ∈ cache -> q ∈ cache -> ~ below p q.

Lemma df_ok_sublist l k : sublist l k -> df_ok k -> df_ok l.
Proof. intros Hs H p q Hp Hq. apply H; by eapply elem_of_sublist. Qed.

Lemma in_subdir_true fuel cache pos name len stage :
  Forall ce_wf cache -> (len <= length name)%nat ->
  in_subdir fuel cache pos name (Z.of_nat len) stage = true ->
  exists p, p ∈ cache /\ ce_stage p = stage /\ under (take len name) (ce_name p).
Proof.
  intros Hwf Hlen. revert pos; induction fuel as [|fuel IH]; intros pos; cbn [in_subdir]; [done|].
  destruct (cache !! pos) as [p|] eqn:Ep; [|done]. rewrite Nat2Z.id.
  pose proof (Forall_lookup_1 _ _ _ _ Hwf Ep) as Hp. rewrite (wf_namelen p Hp).
  destruct (Z.leb_spec (Z.of_nat (length (ce_name p))) (Z.of_nat len)); cbn [orb]; [done|].
  destruct (Z.eqb_spec (name_char (ce_name p) len) 47) as [Ec|]; cbn [orb negb]; [|done].
  destruct (Z.eqb_spec (memcmp len (ce_name p) name) 0) as [Em|]; cbn [negb]; [|done].
  destruct (Z.eqb_spec (ce_stage p) stage) as [Est|]; [|apply IH].
  intros _. exists p. split; [by eapply list_elem_of_lookup_2|]. split; [done|].
  apply memcmp_eq in Em; [|lia..]. assert (Hl : length (take len name) = len) by (rewrite length_take; lia).
  apply under_iff. rewrite Hl. split; [lia|]. split; [|done]. rewrite <- Em.
  exists (drop len (ce_name p)). by rewrite take_drop.
Qed.

(** The key of a directory name of [ce]. *)
Lemma dir_key ce t :
  ce_wf ce -> (t < length (ce_name ce))%nat ->
  Z.land (create_ce_flags (Z.of_nat t) (ce_stage ce)) CE_NAMEMASK = Z.of_nat t /\
  search_key (ce_name ce) (create_ce_flags (Z.of_nat t) (ce_stage ce)) =
    (take t (ce_name ce), Z.of_nat t + 4096 * ce_stage ce).
Proof.
  intros [Hf Hl Hs] Ht. rewrite create_ce_flags_eq by lia. unfold search_key. rewrite land_namemask.
  assert (E : (Z.of_nat t + 4096 * ce_stage ce) mod 4096 = Z.of_nat t).
  { rewrite Z.mul_comm, Z.mod_add by lia. apply Z.mod_small. lia. }
  by rewrite E, Nat2Z.id.
Qed.

(** Being above, by the slash of [ce] that ends the name. *)
Lemma above_slash ce q : above ce q ->
  (length (ce_name q) < length (ce_name ce))%nat /\ name_char (ce_name ce) (length (ce_name q)) = 47 /\
  ce_name q = take (length (ce_name q)) (ce_name ce).
Proof.
  intros [_ Hu]. apply under_iff in Hu as (Hl&[k Ek]&Hc). split; [done|]. split; [done|].
  by rewrite Ek, take_app_length.
Qed.

Lemma above_of_key ce q t :
  ce_wf ce -> ce_wf q -> (t < length (ce_name ce))%nat -> name_char (ce_name ce) t = 47 ->
  ce_key q = (take t (ce_name ce), Z.of_nat t + 4096 * ce_stage ce) <->
  above ce q /\ length (ce_name q) = t.
Proof.
  intros Hce Hq Ht Hc. destruct Hq as [Hf Hl Hs]. unfold ce_key. split.
  - intros [= En Ef]. assert (El : length (ce_name q) = t) by (rewrite En, length_take; lia).
    split; [|done]. split; [lia|]. apply under_iff. rewrite El. split; [done|]. split; [|done].
    rewrite En. exists (drop t (ce_name ce)). by rewrite take_drop.
  - intros [Ha El]. destruct (above_slash _ _ Ha) as (_&_&En). rewrite El in En. f_equal; [done|].
    destruct Ha as [Hst _]. rewrite Hf, El, Hst. done.
Qed.

(** Reading the search for a directory name. *)
Lemma dir_pos_cases i ce t :
  index_ok (active_cache i) -> ce_wf ce -> (t < length (ce_name ce))%nat -> name_char (ce_name ce) t = 47 ->
  let pos := cache_name_pos (active_cache i) (ce_name ce) (create_ce_flags (Z.of_nat t) (ce_stage ce)) in
  (0 <= pos /\ exists q, active_cache i !! Z.to_nat pos = Some q /\ above ce q /\ length (ce_name q) = t) \/
  (pos < 0 /\ forall q, q ∈ active_cache i -> above ce q -> length (ce_name q) <> t).
Proof.
  intros Hok Hce Ht Hc pos. destruct (dir_key ce t Hce Ht) as [E1 E2].
  pose proof (cache_name_pos_result (active_cache i) (ce_name ce)
    (create_ce_flags (Z.of_nat t) (ce_stage ce)) Hok ltac:(rewrite E1; lia)) as Hr. fold pos in Hr. rewrite E2 in Hr.
  pose proof (proj1 Hok) as Hwf.
  destruct Hr as [(l1&e&l2&Ec&Ep&Ek)|(l1&l2&Ec&Ep&F1&F2)].
  - left. split; [lia|]. exists e. rewrite Ep, Nat2Z.id, Ec, lookup_app_r, Nat.sub_diag by lia. split; [done|].
    apply above_of_key in Ek; try done. eapply Forall_forall; [exact Hwf|]. rewrite Ec.
    apply elem_of_app. right. by apply elem_of_cons; left.
  - right. split; [lia|]. intros q Hq Ha El. pose proof (proj1 (Forall_forall _ _) Hwf q Hq) as Hqw.
    assert (Ek : ce_key q = (take t (ce_name ce), Z.of_nat t + 4096 * ce_stage ce)) by (by apply above_of_key).
    rewrite Ec in Hq. rewrite Forall_forall in F1, F2.
    apply elem_of_app in Hq as [Hq|Hq]; [specialize (F1 q Hq)|specialize (F2 q Hq)]; cbv beta in *;
      rewrite Ek, (proj2 (kcmp_0 _ _) eq_refl) in *; lia.
Qed.

(** The loop over the directories of [ce], from [slash] to the left.  The
    early return is right in an index without conflicts. *)
Lemma has_dir_name_loop_spec fuel i ce s ok retval :
  index_ok (active_cache i) -> ce_wf ce -> name_char (ce_name ce) 0 <> 47 ->
  (0 < s <= length (ce_name ce))%nat -> (s < fuel)%nat ->
  exists r i', has_dir_name_loop fuel i ce s ok retval = Ret (r, i') /\ shrinks i i' /\
    (ok = true -> i' = i) /\
    ((r = retval /\ i' = i) \/ (r = -1 /\ exists q, q ∈ active_cache i /\ above ce q)) /\
    (df_ok (active_cache i) -> retval = 0 -> r = 0 ->
     forall q, q ∈ active_cache i -> above ce q -> (s <= length (ce_name q))%nat).
Proof.
  intros Hok0 Hce Hn0. revert i s retval Hok0; induction fuel as [|fuel IH]; intros i s retval Hok Hs Hf; [lia|].
  cbn [has_dir_name_loop]. destruct (prev_slash_spec (ce_name ce) s) as (o&Eo&Ho); [lia|].
  rewrite Eo, bind_Ret. destruct o as [t|].
  2:{ exists retval, i. split; [done|]. split; [apply shrinks_refl|]. split; [done|]. split; [by left|].
      intros _ _ _ q Hq Ha. destruct (above_slash _ _ Ha) as (Hl&Hc&_).
      destruct (Nat.le_gt_cases s (length (ce_name q))); [done|]. by destruct (Ho (length (ce_name q))). }
  destruct Ho as (Hts&Hc&Hgap).
  assert (Ht0 : (0 < t)%nat) by (destruct t; [done|lia]).
  assert (Hgt : forall q, above ce q -> (t < length (ce_name q))%nat -> (s <= length (ce_name q))%nat).
  { intros q Ha Htq. destruct (above_slash _ _ Ha) as (_&Hcq&_).
    destruct (Nat.le_gt_cases s (length (ce_name q))); [done|]. by destruct (Hgap (length (ce_name q))); lia. }
  destruct (dir_pos_cases i ce t Hok Hce ltac:(lia) Hc) as [[Hpos (q&Hq&Ha&El)]|[Hneg Hno]].
  - destruct (Z.leb_spec 0 (cache_name_pos (active_cache i) (ce_name ce) (create_ce_flags (Z.of_nat t) (ce_stage ce))));
      [|lia].
    assert (Hin : exists q, q ∈ active_cache i /\ above ce q) by (exists q; split; [by eapply list_elem_of_lookup_2|done]).
    destruct ok.
    { exists (-1), i. split; [done|]. split; [apply shrinks_refl|]. split; [done|]. split; [by right|done]. }
    set (pos := Z.to_nat _) in *.
    pose proof (remove_at_shrinks i pos ltac:(by eapply lookup_lt_Some)) as Hsh.
    destruct (IH (remove_cache_entry_at i pos).2 t (-1)) as (r&i'&E&Hsh'&_&Hr&_).
    { eapply index_ok_sublist; [exact (proj1 Hsh)|done]. } { lia. } { lia. }
    assert (Er : r = -1) by (destruct Hr as [[? _]|[? _]]; done). subst r.
    exists (-1), i'. split; [done|]. split; [by eapply shrinks_trans|]. split; [done|]. split; [by right|done].
  - destruct (Z.leb_spec 0 (cache_name_pos (active_cache i) (ce_name ce) (create_ce_flags (Z.of_nat t) (ce_stage ce))));
      [lia|].
    destruct (in_subdir _ _ _ _ _ _) eqn:Esub.
    + exists retval, i. split; [done|]. split; [apply shrinks_refl|]. split; [done|]. split; [by left|].
      intros Hdf _ _ q Hq Ha. apply Hgt; [done|].
      apply in_subdir_true in Esub as (p&Hp&Hst&Hu); [|exact (proj1 Hok)|lia].
      specialize (Hno q Hq Ha). destruct (Nat.lt_ge_cases t (length (ce_name q))) as [|Hle]; [done|]. exfalso.
      apply (Hdf q p Hq Hp). destruct Ha as [Hsa Hua]. split; [congruence|].
      assert (Hqt : under (ce_name q) (take t (ce_name ce))).
      { destruct Hua as [k Ek]. unfold under. rewrite Ek, take_app_ge by (rewrite length_app; simpl; lia). by eexists. }
      destruct Hqt as [k1 E1], Hu as [k2 E2]. unfold under. rewrite E2, E1, <- !app_assoc. exists (k1 ++ [47] ++ k2). by rewrite <- app_assoc.
    + destruct (IH i t retval) as (r&i'&E&Hsh&Hoki&Hr&Hdf); [done|lia|lia|].
      exists r, i'. split; [done|]. split; [done|]. split; [done|]. split; [done|].
      intros H1 H2 H3 q Hq Ha. apply Hgt; [done|]. pose proof (Hdf H1 H2 H3 q Hq Ha).
      specialize (Hno q Hq Ha). lia.
Qed.

(** ** Adding *)

Lemma drop_unmerged_spec fuel i l1 l2 ce ok :
  active_cache i = l1 ++ l2 -> (length l2 <= fuel)%nat -> StronglySorted ce_lt l2 -> Forall ce_wf l2 -> ce_wf ce ->
  Forall (fun e => lexcmp (ce_name ce) (ce_name e) <= 0) l2 ->
  let '(ok', i') := drop_unmerged fuel i ce (length l1) ok in
  active_cache i' = l1 ++ filter (fun e => ce_name e <> ce_name ce) l2 /\ active_alloc i' = active_alloc i /\
  (ok = true -> ok' = true).
Proof.
  intros E0 Hf Hs Hwf Hce HF. revert i l2 ok E0 Hf Hs Hwf HF.
  induction fuel as [|fuel IH]; intros i l2 ok E Hf Hs Hwf HF; cbn [drop_unmerged].
  { destruct l2; [|simpl in Hf; lia]. by rewrite E. }
  rewrite E, lookup_app_r, Nat.sub_diag by lia. destruct l2 as [|p l2]; [by cbn; rewrite E|].
  cbn [lookup list_lookup]. inversion HF as [|? ? Hle HF']; subst. inversion Hwf as [|? ? Hp Hwf']; subst.
  pose proof (ce_same_name_iff p ce Hp Hce) as Hsn. destruct (ce_same_name p ce).
  - assert (En : ce_name p = ce_name ce) by (by apply Hsn).
    rewrite filter_cons_False by (by intros ?). apply StronglySorted_inv in Hs as [Hs _].
    pose proof (remove_at_middle _ _ _ _ E) as Er.
    assert (Ea : active_alloc (remove_cache_entry_at i (length l1)).2 = active_alloc i).
    { apply remove_at_shrinks. rewrite E, length_app. simpl. lia. }
    destruct (remove_cache_entry_at i (length l1)) as [more i1] eqn:Em. cbn [snd] in Er, Ea.
    destruct (Z.eqb_spec more 0) as [->|Hm].
    + assert (l2 = []) as ->.
      { unfold remove_cache_entry_at in Em. rewrite E, length_app in Em. cbn [length] in Em.
        destruct (Nat.leb_spec (length l1 + S (length l2) - 1) (length l1)); [|done].
        destruct l2; [done|]. simpl in *. lia. }
      by rewrite Er.
    + simpl in Hf. specialize (IH i1 l2 true Er ltac:(lia) Hs Hwf' HF').
      destruct (drop_unmerged fuel i1 ce (length l1) true) as [ok' i']. destruct IH as (IH1&IH2&IH3).
      split; [done|]. split; [congruence|]. intros _. by apply IH3.
  - split; [|done]. rewrite E. f_equal. symmetry. apply filter_all. apply (same_name_block (ce_name ce)); [done|].
    destruct (Z.eq_dec (lexcmp (ce_name ce) (ce_name p)) 0) as [E0|]; [|lia].
    apply lexcmp_eq in E0. exfalso. by discriminate (proj2 Hsn (eq_sym E0)).
Qed.

(** The position of [ce] in an index it is not in. *)
Definition splits (l1 l2 : list cache_entry) (ce : cache_entry) : Prop :=
  Forall (fun e => ce_lt e ce) l1 /\ Forall (fun e => ce_lt ce e) l2.

Lemma index_ok_insert l1 l2 ce : index_ok (l1 ++ l2) -> ce_wf ce -> splits l1 l2 ce -> index_ok (l1 ++ ce :: l2).
Proof.
  intros [Hwf Hs] Hce [F1 F2]. apply Forall_app in Hwf as [W1 W2]. apply StronglySorted_app in Hs as (Hx&S1&S2).
  rewrite Forall_forall in F1, F2. split.
  - apply Forall_app. split; [done|by constructor].
  - apply StronglySorted_app. split_and!; [|done|constructor; [done|by apply Forall_forall]].
    intros a b Ha [->|Hb]%elem_of_cons; auto.
Qed.

Lemma insert_at_spec i l1 l2 ce :
  active_cache i = l1 ++ l2 -> active_nr i <= active_alloc i -> active_nr i < 2 ^ 30 ->
  exists i', insert_at i (length l1) ce = Ret i' /\ active_cache i' = l1 ++ ce :: l2 /\
    active_nr i' <= active_alloc i'.
Proof.
  intros E Ha Hn. unfold insert_at.
  assert (Hal : active_nr i < (if active_nr i =? active_alloc i then alloc_nr (active_alloc i) else active_alloc i)).
  { destruct (Z.eqb_spec (active_nr i) (active_alloc i)) as [Eq|]; [|lia]. rewrite <- Eq.
    assert (0 <= active_nr i) by (unfold active_nr; lia).
    unfold alloc_nr. rewrite u32_small by lia. dm_lia. }
  destruct (Z.leb_spec (if active_nr i =? active_alloc i then alloc_nr (active_alloc i) else active_alloc i)
    (active_nr i)); [lia|].
  eexists. split; [done|]. cbn [active_cache]. rewrite E, take_app_length, drop_app_length. split; [done|].
  unfold active_nr in *. cbn [active_cache active_alloc]. rewrite E, !length_app in *. simpl. lia.
Qed.

Lemma key_split_result cache ce :
  index_ok cache -> ce_wf ce ->
  let r := cache_name_pos cache (ce_name ce) (ce_flags ce) in
  (exists l1 e l2, cache = l1 ++ e :: l2 /\ r = Z.of_nat (length l1) /\ ce_key e = ce_key ce) \/
  (exists l1 l2, cache = l1 ++ l2 /\ r = - Z.of_nat (length l1) - 1 /\ splits l1 l2 ce).
Proof.
  intros Hok Hce r. pose proof (wf_namemask ce Hce) as Hl.
  pose proof (cache_name_pos_result cache (ce_name ce) (ce_flags ce) Hok ltac:(lia)) as Hr. fold r in Hr.
  replace (search_key (ce_name ce) (ce_flags ce)) with (ce_key ce) in Hr; [done|].
  unfold search_key, ce_key. by rewrite Hl, Nat2Z.id, take_ge.
Qed.

(** A path of the index is not empty and does not start with a slash. *)
Definition path_ok (name : bytes) : Prop := name <> [] /\ name_char name 0 <> 47.

Lemma has_dir_name_spec i ce ok :
  index_ok (active_cache i) -> ce_wf ce -> path_ok (ce_name ce) ->
  exists r i', has_dir_name i ce ok = Ret (r, i') /\ shrinks i i' /\
    ((r = 0 /\ i' = i) \/ (r = -1 /\ exists q, q ∈ active_cache i /\ above ce q)) /\
    (df_ok (active_cache i) -> r = 0 -> forall q, q ∈ active_cache i -> ~ above ce q).
Proof.
  intros Hok Hce [Hne Hn0]. unfold has_dir_name. rewrite (wf_namelen ce Hce), Nat2Z.id.
  destruct (has_dir_name_loop_spec (S (length (ce_name ce))) i ce (length (ce_name ce)) ok 0)
    as (r&i'&E&Hsh&_&Hr&Hdf); try done.
  { split; [|done]. destruct (ce_name ce); [done|simpl; lia]. } { lia. }
  exists r, i'. split; [done|]. split; [done|]. split; [done|]. intros H1 H2 q Hq Ha.
  pose proof (Hdf H1 eq_refl H2 q Hq Ha). pose proof (above_slash _ _ Ha) as (Hlt&_). lia.
Qed.

Lemma check_conflict_shrinks i ce pos ok :
  index_ok (active_cache i) -> ce_wf ce -> path_ok (ce_name ce) ->
  exists c i', check_file_directory_conflict i ce pos ok = Ret (c, i') /\ shrinks i i' /\ (c = 0 -> i' = i).
Proof.
  intros Hok Hce Hp. unfold check_file_directory_conflict, has_file_name.
  pose proof (has_file_name_loop_shrinks (length (active_cache i)) i ce pos ok 0) as Hf.
  destruct (has_file_name_loop _ i ce pos ok 0) as [r1 i1]. destruct Hf as [Hsh1 Hr1].
  destruct (has_dir_name_spec i1 ce ok) as (r2&i2&E2&Hsh2&Hr2&_); try done.
  { eapply index_ok_sublist; [exact (proj1 Hsh1)|done]. }
  rewrite E2, bind_Ret. eexists _, _. split; [done|]. split; [by eapply shrinks_trans|].
  intros Hc. destruct Hr1 as [[-> ->]| ->], Hr2 as [[-> ->]|[-> _]]; done || lia.
Qed.

(** What every operation keeps. *)
Definition index_inv (i : index) : Prop := index_ok (active_cache i) /\ active_nr i <= active_alloc i.

Lemma shrinks_inv i i' : shrinks i i' -> index_inv i -> index_inv i' /\ active_nr i' <= active_nr i.
Proof.
  intros [Hs Ha] [H1 H2]. pose proof (sublist_length _ _ Hs) as Hl. unfold active_nr in *.
  split; [|lia]. split; [by eapply index_ok_sublist|]. unfold active_nr. lia.
Qed.

Lemma insert_at_inv i l1 l2 ce :
  active_cache i = l1 ++ l2 -> index_inv i -> active_nr i < 2 ^ 30 -> ce_wf ce -> splits l1 l2 ce ->
  exists i', insert_at i (length l1) ce = Ret i' /\ index_inv i' /\ active_cache i' = l1 ++ ce :: l2.
Proof.
  intros E [Hok Ha] Hn Hce Hsp. destruct (insert_at_spec i l1 l2 ce E Ha Hn) as (i'&Ei&Ec&Ha').
  exists i'. split; [done|]. split; [|done]. split; [|done]. rewrite Ec. apply index_ok_insert; [|done|done].
  by rewrite <- E.
Qed.

Lemma splits_sublist l1 l2 ce cache :
  sublist cache (l1 ++ l2) -> splits l1 l2 ce -> forall e, e ∈ cache -> ce_key e <> ce_key ce.
Proof.
  intros Hs [F1 F2] e He Ek. rewrite Forall_forall in F1, F2. apply (elem_of_sublist _ _ _ He) in Hs.
  unfold ce_lt in *. apply elem_of_app in Hs as [H|H]; [specialize (F1 e H)|specialize (F2 e H)];
    rewrite Ek, (proj2 (kcmp_0 _ _) eq_refl) in *; lia.
Qed.

Lemma add_new_entry_inv i l1 l2 ce rep skip :
  active_cache i = l1 ++ l2 -> index_inv i -> active_nr i < 2 ^ 30 -> ce_wf ce -> path_ok (ce_name ce) ->
  splits l1 l2 ce ->
  exists r i', add_new_entry i ce (length l1) rep skip = Ret (r, i') /\ index_inv i' /\
    ((r = 0 /\ ce ∈ active_cache i') \/ (r = -1 /\ rep = false /\ skip = false)).
Proof.
  intros E Hinv Hn Hce Hp Hsp. unfold add_new_entry.
  assert (Hins : forall j k1 k2, active_cache j = k1 ++ k2 -> index_inv j -> active_nr j < 2 ^ 30 -> splits k1 k2 ce ->
    exists r i', (i ← insert_at j (length k1) ce; Ret (0, i)) = Ret (r, i') /\ index_inv i' /\
      ((r = 0 /\ ce ∈ active_cache i') \/ (r = -1 /\ rep = false /\ skip = false))).
  { intros j k1 k2 Ej Hj Hnj Hspj. destruct (insert_at_inv j k1 k2 ce) as (i'&Ei&Hi&Ec); try done.
    rewrite Ei. exists 0, i'. split; [done|]. split; [done|]. left. split; [done|]. rewrite Ec. apply elem_of_middle. }
  destruct skip; [by apply (Hins i l1 l2)|].
  destruct (check_conflict_shrinks i ce (length l1) rep (proj1 Hinv) Hce Hp) as (c&i'&Ec&Hsh&Hc).
  rewrite Ec, bind_Ret. destruct (Z.eqb_spec c 0) as [->|]; cbn [negb].
  { rewrite Hc by done. by apply (Hins i l1 l2). }
  destruct (shrinks_inv _ _ Hsh Hinv) as [Hinv' Hn'].
  destruct rep; cbn [negb]; [|exists (-1), i'; split; [done|]; split; [done|by right]].
  destruct (key_split_result (active_cache i') ce (proj1 Hinv') Hce) as [(k1&e&k2&Ek&_&Eke)|(k1&k2&Ek&Er&Hspk)].
  - exfalso. pose proof (proj1 Hsh) as Hsub. rewrite E in Hsub.
    eapply (splits_sublist _ _ _ _ Hsub Hsp e); [|done]. rewrite Ek. apply elem_of_middle.
  - rewrite Er. replace (Z.to_nat (- (- Z.of_nat (length k1) - 1) - 1)) with (length k1) by lia.
    apply (Hins i' k1 k2); try done. lia.
Qed.

Lemma index_ok_replace l1 e l2 ce : index_ok (l1 ++ e :: l2) -> ce_wf ce -> ce_key e = ce_key ce -> index_ok (l1 ++ ce :: l2).
Proof.
  intros [Hwf Hs] Hce Ek. apply Forall_app in Hwf as [W1 W2]. inversion W2 as [|? ? We W2']; subst.
  apply StronglySorted_app in Hs as (Hx&S1&S2). apply StronglySorted_inv in S2 as [S2 HF].
  apply index_ok_insert; [|done|].
  - split; [by apply Forall_app|]. apply StronglySorted_app. split_and!; try done. intros a b Ha Hb.
    apply Hx; [done|]. by apply elem_of_cons; right.
  - split.
    + apply Forall_forall. intros a Ha. unfold ce_lt. rewrite <- Ek. apply Hx; [done|]. by apply elem_of_cons; left.
    + unfold ce_lt in *. by rewrite <- Ek.
Qed.

(** The way to the insertion: an entry of the same name and stage is
    replaced; otherwise a merged entry displaces the unmerged ones. *)
Lemma add_cache_entry_cases i ce option :
  index_inv i -> ce_wf ce ->
  (exists l1 e l2, active_cache i = l1 ++ e :: l2 /\ ce_key e = ce_key ce /\
    add_cache_entry i ce option = Ret (0, set_cache i (l1 ++ ce :: l2))) \/
  (exists l1 l2 l2' i1 ok, active_cache i = l1 ++ l2 /\ splits l1 l2 ce /\
    l2' = (if ce_stage ce =? 0 then filter (fun e => ce_name e <> ce_name ce) l2 else l2) /\
    active_cache i1 = l1 ++ l2' /\ active_alloc i1 = active_alloc i /\
    (Z.land option ADD_CACHE_OK_TO_ADD <> 0 -> ok = true) /\
    add_cache_entry i ce option =
      if ok then add_new_entry i1 ce (length l1) (negb (Z.land option ADD_CACHE_OK_TO_REPLACE =? 0))
                   (negb (Z.land option ADD_CACHE_SKIP_DFCHECK =? 0))
      else Ret (-1, i1)).
Proof.
  intros [Hok Ha] Hce. unfold add_cache_entry.
  destruct (key_split_result (active_cache i) ce Hok Hce) as [(l1&e&l2&Ec&Er&Ek)|(l1&l2&Ec&Er&Hsp)]; rewrite Er.
  - left. exists l1, e, l2. split; [done|]. split; [done|].
    destruct (Z.leb_spec 0 (Z.of_nat (length l1))); [|lia].
    by rewrite Nat2Z.id, Ec, insert_app_r_alt, Nat.sub_diag by lia.
  - right. destruct (Z.leb_spec 0 (- Z.of_nat (length l1) - 1)); [lia|].
    replace (Z.to_nat (- (- Z.of_nat (length l1) - 1) - 1)) with (length l1) by lia.
    set (ok0 := negb (Z.land option ADD_CACHE_OK_TO_ADD =? 0)).
    assert (Hok0 : Z.land option ADD_CACHE_OK_TO_ADD <> 0 -> ok0 = true).
    { intros. unfold ok0. by destruct (Z.eqb_spec (Z.land option ADD_CACHE_OK_TO_ADD) 0). }
    destruct Hok as [Hwf Hs]. rewrite Ec in Hwf, Hs. apply Forall_app in Hwf as [_ W2].
    apply StronglySorted_app in Hs as (_&_&S2).
    assert (HF : Forall (fun e => lexcmp (ce_name ce) (ce_name e) <= 0) l2).
    { eapply Forall_impl; [exact (proj2 Hsp)|]. intros e He. by apply ce_lt_names. }
    destruct (Z.ltb_spec (Z.of_nat (length l1)) (active_nr i)) as [Hlt|Hge]; cbn [andb].
    + destruct (Z.eqb_spec (ce_stage ce) 0) as [H0|H0].
      * pose proof (drop_unmerged_spec (length (active_cache i)) i l1 l2 ce ok0 Ec
          ltac:(rewrite Ec, length_app; lia) S2 W2 Hce HF) as Hd.
        destruct (drop_unmerged _ i ce (length l1) ok0) as [ok1 i1]. destruct Hd as (D1&D2&D3).
        exists l1, l2, (filter (fun e => ce_name e <> ce_name ce) l2), i1, ok1.
        split_and!; try done; [auto|]. by destruct ok1.
      * exists l1, l2, l2, i, ok0. split_and!; try done. by destruct ok0.
    + assert (l2 = []) as ->.
      { unfold active_nr in Hge. rewrite Ec, length_app in Hge. destruct l2; [done|simpl in Hge; lia]. }
      exists l1, [], [], i, ok0. split_and!; try done; [by destruct (ce_stage ce =? 0)|]. by destruct ok0.
Qed.

Lemma splits_filter l1 l2 ce (P : cache_entry -> Prop) `{!forall x, Decision (P x)} :
  splits l1 l2 ce -> splits l1 (filter P l2) ce.
Proof. intros [F1 F2]. split; [done|]. eapply Forall_sublist; [apply sublist_filter|done]. Qed.

Lemma sublist_app_r_filter {A} (l1 l2 : list A) (P : A -> Prop) `{!forall x, Decision (P x)} :
  sublist (l1 ++ filter P l2) (l1 ++ l2).
Proof. apply sublist_app; [done|apply sublist_filter]. Qed.

Lemma add_step_shrinks i l1 l2 l2' i1 ce :
  active_cache i = l1 ++ l2 -> splits l1 l2 ce ->
  l2' = (if ce_stage ce =? 0 then filter (fun e => ce_name e <> ce_name ce) l2 else l2) ->
  active_cache i1 = l1 ++ l2' -> active_alloc i1 = active_alloc i -> shrinks i i1 /\ splits l1 l2' ce.
Proof.
  intros E Hsp -> E1 Ha. unfold shrinks. rewrite E, E1. destruct (ce_stage ce =? 0); [|done].
  split; [split; [apply sublist_app_r_filter|done]|by apply splits_filter].
Qed.

(** C30.  The index stays an index: whatever options it is given,
    [add_cache_entry] on an index in order returns 0 or -1 without leaving the
    array, and the index it leaves is again in strict order of name and stage with room for
    its entries; it returns 0 only with the new entry in the index. *)
Theorem add_cache_entry_inv (i : index) (ce : cache_entry) (option : Z)
    (Hinv : index_inv i) (Hn : active_nr i < 2 ^ 30) (Hce : ce_wf ce) (Hp : path_ok (ce_name ce)) :
  exists r i', add_cache_entry i ce option = Ret (r, i') /\ index_inv i' /\
    ((r = 0 /\ ce ∈ active_cache i') \/ r = -1).
Proof.
  destruct (add_cache_entry_cases i ce option Hinv Hce)
    as [(l1&e&l2&Ec&Ek&E)|(l1&l2&l2'&i1&ok&Ec&Hsp&El&E1&Ha&_&E)].
  - rewrite E. eexists _, _. split; [done|]. destruct Hinv as [Hok Ha]. rewrite Ec in Hok.
    split; [|left; split; [done|apply elem_of_middle]].
    split; [by eapply index_ok_replace|]. unfold active_nr in *. cbn [set_cache active_cache active_alloc].
    rewrite Ec, !length_app in *. done.
  - destruct (add_step_shrinks _ _ _ _ _ _ Ec Hsp El E1 Ha) as [Hsh Hsp'].
    destruct (shrinks_inv _ _ Hsh Hinv) as [Hinv1 Hn1]. rewrite E. destruct ok.
    + edestruct (add_new_entry_inv i1 l1 l2' ce) as (r&i'&Ei&Hi&Hr); try done; [lia|].
      eexists _, _. split; [exact Ei|]. split; [done|]. destruct Hr as [?|[? _]]; auto.
    + eexists _, _. split; [done|]. split; [done|by right].
Qed.

(** A conflict of [ce] with an index: a file in a directory of that name, or
    a file whose name [ce] needs as a directory. *)
Definition conflicts (cache : list cache_entry) (ce : cache_entry) : Prop :=
  exists p, p ∈ cache /\ (below ce p \/ above ce p).

Lemma above_below ce q : above ce q <-> below q ce.
Proof. unfold above, below. intuition. Qed.

Lemma below_irrefl ce : ~ below ce ce.
Proof. intros [_ Hu]. apply under_iff in Hu as (Hl&_). lia. Qed.

(** Nothing before the position of [ce] is below it. *)
Lemma below_after l1 l2 ce p : splits l1 l2 ce -> p ∈ l1 ++ l2 -> below ce p -> p ∈ l2.
Proof.
  intros [F1 _] Hp [_ Hu]. apply elem_of_app in Hp as [Hp|]; [|done]. exfalso.
  rewrite Forall_forall in F1. pose proof (ce_lt_names _ _ (F1 p Hp)) as Hle.
  apply under_lexcmp in Hu. rewrite lexcmp_opp in Hle. lia.
Qed.

Lemma df_ok_insert l1 l2 ce : df_ok (l1 ++ l2) -> ~ conflicts (l1 ++ l2) ce -> df_ok (l1 ++ ce :: l2).
Proof.
  intros Hdf Hnc p q Hp Hq Hb.
  assert (Hcase : forall x, x ∈ l1 ++ ce :: l2 -> x = ce \/ x ∈ l1 ++ l2).
  { intros x. rewrite !elem_of_app, elem_of_cons. tauto. }
  destruct (Hcase p Hp) as [->|Hp'], (Hcase q Hq) as [->|Hq'].
  - by apply below_irrefl in Hb.
  - apply Hnc. exists q. auto.
  - apply Hnc. exists p. split; [done|]. right. by apply above_below.
  - by apply (Hdf p q).
Qed.

(** The check on an index without conflicts, not replacing. *)
Lemma check_conflict_exact i l1 l2 ce :
  active_cache i = l1 ++ l2 -> index_ok (active_cache i) -> df_ok (active_cache i) -> ce_wf ce ->
  path_ok (ce_name ce) -> splits l1 l2 ce -> Forall (fun e => ce_name e <> ce_name ce) l2 ->
  exists c i', check_file_directory_conflict i ce (length l1) false = Ret (c, i') /\ shrinks i i' /\
    (c = 0 -> i' = i) /\ (c = 0 <-> ~ conflicts (active_cache i) ce).
Proof.
  intros E Hok Hdf Hce Hp Hsp Hne. pose proof Hok as [Hwf Hs]. rewrite E in Hwf, Hs.
  apply Forall_app in Hwf as [_ W2]. apply StronglySorted_app in Hs as (_&_&S2).
  assert (HF : Forall (fun e => lexcmp (ce_name ce) (ce_name e) < 0) l2).
  { destruct Hsp as [_ F2]. rewrite Forall_forall in F2, Hne |- *. intros e He.
    pose proof (ce_lt_names _ _ (F2 e He)). specialize (Hne e He).
    destruct (Z.eq_dec (lexcmp (ce_name ce) (ce_name e)) 0) as [E0|]; [|lia]. apply lexcmp_eq in E0. congruence. }
  unfold check_file_directory_conflict, has_file_name.
  pose proof (has_file_name_loop_shrinks (length (active_cache i)) i ce (length l1) false 0) as Hf1.
  pose proof (has_file_name_loop_spec (length (active_cache i)) i l1 l2 ce false 0 E
    ltac:(rewrite E, length_app; lia) S2 W2 Hce HF) as Hf2.
  destruct (has_file_name_loop _ i ce (length l1) false 0) as [r1 i1].
  destruct Hf1 as [Hsh1 Hr1]. destruct Hf2 as [Er1 Ec1].
  assert (Ec : active_cache i1 = active_cache i) by congruence.
  destruct (has_dir_name_spec i1 ce false) as (r2&i2&E2&Hsh2&Hr2&Hd2); [by rewrite Ec|done|done|].
  rewrite Ec in Hr2, Hd2. rewrite E2, bind_Ret. eexists _, _. split; [done|].
  split; [by eapply shrinks_trans|]. split.
  { intros Hc. destruct Hr1 as [[-> ->]| ->], Hr2 as [[-> ->]|[-> _]]; done || lia. }
  destruct (any_below ce l2) eqn:Eb; subst r1.
  - apply any_below_spec in Eb as (p&Hp2&Hb). split; [destruct Hr2 as [[-> _]|[-> _]]; lia|].
    intros Hnc. exfalso. apply Hnc. exists p. rewrite E. split; [by apply elem_of_app; right|by left].
  - assert (Hnb : forall p, p ∈ active_cache i -> ~ below ce p).
    { intros p Hin Hb. rewrite E in Hin. pose proof (below_after _ _ _ _ Hsp Hin Hb) as Hp2.
      assert (any_below ce l2 = true) by (apply any_below_spec; eauto). congruence. }
    split.
    + intros Hc (p&Hin&[Hb|Ha]); [by apply (Hnb p)|]. by apply (Hd2 Hdf ltac:(lia) p).
    + intros Hnc. destruct Hr2 as [[-> _]|[-> (q&Hq&Ha)]]; [done|]. exfalso. apply Hnc. exists q. auto.
Qed.

Lemma df_ok_replace l1 e l2 ce :
  ce_wf e -> ce_wf ce -> ce_key e = ce_key ce -> df_ok (l1 ++ e :: l2) -> df_ok (l1 ++ ce :: l2).
Proof.
  intros Hwe Hwc Ek Hdf p q Hp Hq [Hst Hu]. injection Ek as En Ef.
  assert (Es : ce_stage e = ce_stage ce) by (unfold ce_stage; by rewrite Ef).
  assert (Hcase : forall x, x ∈ l1 ++ ce :: l2 -> exists y, y ∈ l1 ++ e :: l2 /\ ce_name y = ce_name x /\
    ce_stage y = ce_stage x).
  { intros x. rewrite elem_of_app, elem_of_cons. intros [Hx|[->|Hx]]; [exists x|exists e|exists x];
      rewrite elem_of_app, elem_of_cons; auto. }
  destruct (Hcase p Hp) as (p'&Hp'&Np&Sp), (Hcase q Hq) as (q'&Hq'&Nq&Sq).
  apply (Hdf p' q' Hp' Hq'). split; congruence.
Qed.

Lemma conflict_other_name ce p : below ce p \/ above ce p -> ce_name p <> ce_name ce.
Proof.
  intros [[_ Hu]|[_ Hu]] E; apply under_iff in Hu as (Hl&_); rewrite E in Hl; lia.
Qed.

Lemma splits_lower_names l1 l2 ce e :
  Forall ce_wf l1 -> ce_wf ce -> ce_stage ce = 0 -> splits l1 l2 ce -> e ∈ l1 -> ce_name e <> ce_name ce.
Proof.
  intros Hwf [Hf Hl Hs] H0 [F1 _] He. rewrite Forall_forall in F1, Hwf.
  apply below_other_name; [by apply Hwf|]. specialize (F1 e He). unfold ce_lt in F1.
  replace (ce_name ce, Z.of_nat (length (ce_name ce))) with (ce_key ce); [done|].
  unfold ce_key. f_equal. lia.
Qed.

(** What [add_cache_entry_merged] states. *)
Lemma add_merged_entry (i : index) (ce : cache_entry)
    (Hinv : index_inv i) (Hdf : df_ok (active_cache i)) (Hn : active_nr i < 2 ^ 30)
    (Hce : ce_wf ce) (Hp : path_ok (ce_name ce)) (H0 : ce_stage ce = 0) :
  exists r i', add_cache_entry i ce ADD_CACHE_OK_TO_ADD = Ret (r, i') /\
    index_inv i' /\ df_ok (active_cache i') /\
    (((exists e, e ∈ active_cache i /\ ce_key e = ce_key ce) /\ r = 0 /\
      forall x, x ∈ active_cache i' <-> x = ce \/ (x ∈ active_cache i /\ ce_key x <> ce_key ce)) \/
     ((forall e, e ∈ active_cache i -> ce_key e <> ce_key ce) /\
      (r = 0 <-> ~ conflicts (active_cache i) ce) /\
      (r = 0 -> forall x, x ∈ active_cache i' <-> x = ce \/ (x ∈ active_cache i /\ ce_name x <> ce_name ce)))).
Proof.
  pose proof Hinv as [[Hwf Hs] Ha].
  destruct (add_cache_entry_cases i ce ADD_CACHE_OK_TO_ADD Hinv Hce)
    as [(l1&e&l2&Ec&Ek&E)|(l1&l2&l2'&i1&ok&Ec&Hsp&El&E1&Ha1&Hadd&E)]; rewrite E; rewrite Ec in *.
  - eexists _, _. split; [done|]. cbn [set_cache active_cache].
    assert (We : ce_wf e) by (apply Forall_app in Hwf as [_ Hwf]; by inversion Hwf).
    split; [split; [by eapply index_ok_replace; [split|..]|]|].
    { unfold active_nr in *. cbn [set_cache active_cache active_alloc]. rewrite Ec, !length_app in *. done. }
    split; [by eapply df_ok_replace|]. left. split; [exists e; split; [apply elem_of_middle|done]|]. split; [done|].
    apply StronglySorted_app in Hs as (Hx&_&Hs2). apply StronglySorted_inv in Hs2 as [_ HF].
    rewrite Forall_forall in HF. unfold ce_lt in *.
    intros x. rewrite !elem_of_app, !elem_of_cons. split.
    + intros [H|[->|H]]; [right|by left|right]; (split; [tauto|]); intros Ex.
      * specialize (Hx x e H ltac:(by apply elem_of_cons; left)). rewrite Ex, Ek, (proj2 (kcmp_0 _ _) eq_refl) in Hx. lia.
      * specialize (HF x H). rewrite Ex, Ek, (proj2 (kcmp_0 _ _) eq_refl) in HF. lia.
    + intros [->|[[H|[->|H]] Hk]]; tauto.
  - rewrite Hadd by done. destruct (add_step_shrinks _ _ _ _ _ _ Ec Hsp El E1 Ha1) as [Hsh Hsp'].
    destruct (shrinks_inv _ _ Hsh Hinv) as [Hinv1 Hn1].
    rewrite H0, Z.eqb_refl in El. change (negb (Z.land _ ADD_CACHE_OK_TO_REPLACE =? 0)) with false.
    change (negb (Z.land _ ADD_CACHE_SKIP_DFCHECK =? 0)) with false. unfold add_new_entry.
    assert (Hdf1 : df_ok (active_cache i1)) by (eapply df_ok_sublist; [exact (proj1 Hsh)|by rewrite Ec]).
    destruct (check_conflict_exact i1 l1 l2' ce) as (c&i2&Ech&Hsh2&Hc1&Hc2); try done.
    { exact (proj1 Hinv1). } { subst l2'. apply Forall_forall. intros x Hx. by apply list_elem_of_filter in Hx as [? _]. }
    rewrite Ech, bind_Ret.
    assert (Hmem : forall x, x ∈ active_cache i1 <-> (x ∈ l1 ++ l2 /\ ce_name x <> ce_name ce)).
    { intros x. rewrite E1, El, !elem_of_app, list_elem_of_filter. split; [|tauto].
      intros [Hx|Hx]; [|tauto]. split; [tauto|]. apply Forall_app in Hwf as [Hwf _].
      by eapply splits_lower_names. }
    assert (Hconf : conflicts (active_cache i1) ce <-> conflicts (l1 ++ l2) ce).
    { split; intros (p&Hin&Hb); exists p; (split; [|done]); [by apply Hmem in Hin as [? _]|].
      apply Hmem. split; [done|]. by apply conflict_other_name. }
    assert (Hkey : forall e, e ∈ l1 ++ l2 -> ce_key e <> ce_key ce) by (by eapply splits_sublist).
    destruct (Z.eqb_spec c 0) as [->|Hcz]; cbn [negb].
    + rewrite Hc1 by done. destruct (insert_at_inv i1 l1 l2' ce) as (i'&Ei&Hi&Eci); try done; [lia|].
      rewrite Ei. eexists _, _. split; [done|]. split; [done|]. split.
      { rewrite Eci. apply df_ok_insert; rewrite <- E1; [done|]. by apply Hc2. }
      right. split; [done|]. split; [by rewrite <- Hconf, <- Hc2|]. intros _ x.
      rewrite <- Hmem, E1, Eci, !elem_of_app, elem_of_cons. tauto.
    + eexists _, _. split; [done|]. destruct (shrinks_inv _ _ Hsh2 Hinv1) as [Hinv2 _]. split; [done|].
      split; [by eapply df_ok_sublist; [exact (proj1 Hsh2)|]|]. right. split; [done|]. split; [|done].
      split; [done|]. intros Hnc. exfalso. apply Hcz, Hc2. by rewrite Hconf.
Qed.

(** C28.  Adding a merged entry without permission to replace: in an index in
    order and free of directory/file conflicts, [add_cache_entry] replaces an
    entry of the same name and stage; otherwise it succeeds exactly when
    neither a file lies below the new name nor a directory of the new name is a
    file, and then the index is the old one with the new entry in place of
    every entry, of any stage, of its name.  In every case the index remains in order
    and free of conflicts. *)
Theorem add_cache_entry_merged (i : index) (ce : cache_entry)
    (Hinv : index_inv i) (Hdf : df_ok (active_cache i)) (Hn : active_nr i < 2 ^ 30)
    (Hce : ce_wf ce) (Hp : path_ok (ce_name ce)) (H0 : ce_stage ce = 0) :
  exists r i', add_cache_entry i ce ADD_CACHE_OK_TO_ADD = Ret (r, i') /\
    index_inv i' /\ df_ok (active_cache i') /\
    (((exists e, e ∈ active_cache i /\ ce_key e = ce_key ce) /\ r = 0 /\
      forall x, x ∈ active_cache i' <-> x = ce \/ (x ∈ active_cache i /\ ce_key x <> ce_key ce)) \/
     ((forall e, e ∈ active_cache i -> ce_key e <> ce_key ce) /\
      (r = 0 <-> ~ conflicts (active_cache i) ce) /\
      (r = 0 -> forall x, x ∈ active_cache i' <-> x = ce \/ (x ∈ active_cache i /\ ce_name x <> ce_name ce)))).
Proof. by apply add_merged_entry. Qed.

Lemma add_cache_entry_merged_witness :
  exists r i', add_cache_entry (test_index [test_entry "a" 0; test_entry "b" 1; test_entry "b" 2]) (test_entry "b" 0)
      ADD_CACHE_OK_TO_ADD = Ret (r, i') /\ index_inv i' /\ df_ok (active_cache i') /\ r = 0.
Proof.
  edestruct (add_cache_entry_merged (test_index [test_entry "a" 0; test_entry "b" 1; test_entry "b" 2])
    (test_entry "b" 0)) as (r&i'&E&Hi&Hd&_).
  - split; [apply (bool_decide_unpack _); vm_compute; exact I|vm_compute; discriminate].
  - assert (H : Forall (fun p => Forall (fun q => ~ below p q)
      [test_entry "a" 0; test_entry "b" 1; test_entry "b" 2]) [test_entry "a" 0; test_entry "b" 1; test_entry "b" 2])
      by (apply (bool_decide_unpack _); vm_compute; exact I).
    intros p q Hp Hq. rewrite Forall_forall in H. specialize (H p Hp). rewrite Forall_forall in H. by apply H.
  - vm_compute. reflexivity.
  - apply (bool_decide_unpack _). vm_compute. exact I.
  - split; vm_compute; discriminate.
  - reflexivity.
  - exists r, i'. split; [exact E|]. split; [exact Hi|]. split; [exact Hd|].
    vm_compute in E. injection E as <- _. reflexivity.
Defined.

Lemma add_cache_entry_inv_witness :
  exists r i', add_cache_entry (test_index [test_entry "a" 0; test_entry "b" 1]) (test_entry "a/c" 1) 3 = Ret (r, i') /\
    index_inv i'.
Proof.
  edestruct (add_cache_entry_inv (test_index [test_entry "a" 0; test_entry "b" 1]) (test_entry "a/c" 1) 3)
    as (r&i'&E&Hi&_).
  - split; [apply (bool_decide_unpack _); vm_compute; exact I|vm_compute; discriminate].
  - vm_compute. reflexivity.
  - apply (bool_decide_unpack _). vm_compute. exact I.
  - split; vm_compute; discriminate.
  - exists r, i'. split; [exact E|exact Hi].
Defined.

(** What [has_dir_name] does with [ok_to_replace] is the opposite of
    what the comment above [check_file_directory_conflict] says.  Adding
    [a/b] to an index that has the file [a]: without permission to replace the
    call fails and yet [a] is gone from the index; with permission it succeeds and leaves
    both [a] and [a/b], the tree with [a] twice that the check is there to
    prevent. *)
Theorem has_dir_name_replace_inverted :
  add_cache_entry (test_index [test_entry "a" 0]) (test_entry "a/b" 0) ADD_CACHE_OK_TO_ADD =
    Ret (-1, {| active_cache := []; active_alloc := 100; active_cache_changed := true |}) /\
  add_cache_entry (test_index [test_entry "a" 0]) (test_entry "a/b" 0) (ADD_CACHE_OK_TO_ADD + ADD_CACHE_OK_TO_REPLACE) =
    Ret (0, {| active_cache := [test_entry "a" 0; test_entry "a/b" 0]; active_alloc := 100;
               active_cache_changed := true |}) /\
  ~ df_ok [test_entry "a" 0; test_entry "a/b" 0].
Proof.
  split; [vm_compute; reflexivity|]. split; [vm_compute; reflexivity|].
  intros H. apply (H (test_entry "a" 0) (test_entry "a/b" 0)).
  - by apply elem_of_cons; left.
  - apply elem_of_cons; right. by apply elem_of_cons; left.
  - split; [vm_compute; reflexivity|]. by exists [98].
Qed.

(** The search for files below a new entry stops at an entry of the same name
    and a higher stage, so a conflict behind it goes unseen. *)
Example has_file_name_stops_early :
  add_cache_entry (test_index [test_entry "a" 2; test_entry "a/b" 1]) (test_entry "a" 1) ADD_CACHE_OK_TO_ADD =
    Ret (0, {| active_cache := [test_entry "a" 1; test_entry "a" 2; test_entry "a/b" 1]; active_alloc := 100;
               active_cache_changed := true |}) /\ below (test_entry "a" 1) (test_entry "a/b" 1).
Proof. split; [vm_compute; reflexivity|]. split; [vm_compute; reflexivity|]. by exists [98]. Qed.
