(* ===== verification/IndexFile.v ===== *)
(** * The index on disk (read-cache.c)

    [verify_hdr], [read_cache], [ce_write], [ce_flush] and [write_cache]: the
    file format with its SHA-1 trailer, written through an 8 KiB buffer.  A
    file is the list of its bytes.  The static buffer is the list of the
    [write_buffer_len] bytes it holds; a store past its 8192 bytes is [Ub].
    The [n]-th [write] is complete iff [write_ok n].  In memory an entry is
    followed by zeros up to [ce_size], as its allocation leaves it. *)

From stdpp Require Import base list numbers strings.
From Stdlib Require Import ZArith Lia.
From S2P Require Import Prelude Sha1 CacheEntry Index.

(** ** The C code *)

Definition CACHE_SIGNATURE : Z := 0x44495243.
Definition WRITE_BUFFER_SIZE : nat := Z.to_nat 8192.

(** [struct cache_entry] in memory, [ce_size] bytes. *)
Definition ce_words (ce : cache_entry) : list Z :=
  [sec (ce_ctime ce); nsec (ce_ctime ce); sec (ce_mtime ce); nsec (ce_mtime ce); ce_dev ce; ce_ino ce;
   ce_mode ce; ce_uid ce; ce_gid ce; ce_st_size ce].

Definition ce_struct (ce : cache_entry) : bytes :=
  concat (map (be_encode 4) (ce_words ce)) ++ ce_sha1 ce ++ be_encode 2 (ce_flags ce) ++ ce_name ce.

Definition ce_bytes (ce : cache_entry) : bytes :=
  ce_struct ce ++ replicate (Z.to_nat (ce_size ce) - length (ce_struct ce)) 0.

(** A pointer into the map seen as a [struct cache_entry].  An entry that
    does not fit is [Ub] at once (in C when it is first used). *)
Definition map_entry (m : bytes) (offset : nat) : outcome cache_entry :=
  let w k := be_decode (slice (offset + 4 * k) 4 m) in
  let flags := be_decode (slice (offset + 60) 2 m) in
  let len := Z.to_nat (Z.land CE_NAMEMASK flags) in
  if (offset + 62 + len <=? length m)%nat then
    Ret {| ce_ctime := {| sec := w 0%nat; nsec := w 1%nat |}; ce_mtime := {| sec := w 2%nat; nsec := w 3%nat |};
           ce_dev := w 4%nat; ce_ino := w 5%nat; ce_mode := w 6%nat; ce_uid := w 7%nat; ce_gid := w 8%nat;
           ce_st_size := w 9%nat; ce_sha1 := slice (offset + 40) 20 m; ce_flags := flags;
           ce_name := slice (offset + 62) len m |}
  else Ub.

(** [error()] reports and is -1. *)
Definition verify_hdr (m : bytes) : Z :=
  let size := Z.of_nat (length m) in
  if negb (be_decode (slice 0 4 m) =? CACHE_SIGNATURE) then -1
  else if negb (be_decode (slice 4 4 m) =? 2) then -1
  else
    let c := SHA1_Init in
    let c := SHA1_Update c m (size - 20) in
    let sha1 := fst (SHA1_Final c) in
    if negb (memcmp 20 sha1 (drop (length m - 20) m) =? 0) then -1 else 0.

(** [for (i = 0; i < active_nr; i++)] *)
Fixpoint read_entries (n : nat) (m : bytes) (offset : nat) : outcome (list cache_entry) :=
  match n with
  | O => Ret []
  | S n =>
      ce ← map_entry m offset;
      rest ← read_entries n m (offset + Z.to_nat (ce_size ce));
      Ret (ce :: rest)
  end.

(** The file is [None] when there is none.  The result is the return value
    and the index. *)
Definition read_cache (i : option index) (file : option bytes) : outcome (Z * option index) :=
  match i, file with
  | Some _, _ => Ret (-1, i)
  | None, None => Ret (0, None)
  | None, Some m =>
      if (length m <? 12 + 20)%nat then Ret (-1, None)
      else if verify_hdr m <? 0 then Ret (-1, None)
      else
        let nr := be_decode (slice 8 4 m) in
        entries ← read_entries (Z.to_nat nr) m 12;
        Ret (nr, Some {| active_cache := entries; active_alloc := alloc_nr nr; active_cache_changed := false |})
  end.

Record wstate := {
  write_buffer : bytes;
  w_ctx : SHA_CTX;
  w_file : bytes;
  w_calls : nat (* of [write] *)
}.

Section Writing.
Context (write_ok : nat -> bool).

(** [while (len)]; [None] is -1. *)
Fixpoint ce_write_loop (fuel : nat) (st : wstate) (data : bytes) : option wstate :=
  match data with
  | [] => Some st
  | _ =>
      match fuel with
      | O => None
      | S fuel =>
          let buffered := length (write_buffer st) in
          let partial := (WRITE_BUFFER_SIZE - buffered)%nat in
          let partial := if (length data <? partial)%nat then length data else partial in
          let buf := write_buffer st ++ take partial data in
          if (length buf =? WRITE_BUFFER_SIZE)%nat then
            let ctx := SHA1_Update (w_ctx st) buf (Z.of_nat WRITE_BUFFER_SIZE) in
            if write_ok (w_calls st) then
              ce_write_loop fuel {| write_buffer := []; w_ctx := ctx; w_file := w_file st ++ buf;
                                    w_calls := S (w_calls st) |} (drop partial data)
            else None
          else
            ce_write_loop fuel {| write_buffer := buf; w_ctx := w_ctx st; w_file := w_file st;
                                  w_calls := w_calls st |} (drop partial data)
      end
  end.

Definition ce_write (st : wstate) (data : bytes) : option wstate := ce_write_loop (length data) st data.

(** The digest is stored behind the [left] bytes of the buffer. *)
Definition ce_flush (st : wstate) : outcome (option bytes) :=
  let left := length (write_buffer st) in
  let ctx := if (left =? 0)%nat then w_ctx st else SHA1_Update (w_ctx st) (write_buffer st) (Z.of_nat left) in
  let sha1 := fst (SHA1_Final ctx) in
  if (WRITE_BUFFER_SIZE <? left + 20)%nat then Ub
  else if write_ok (w_calls st) then Ret (Some (w_file st ++ write_buffer st ++ sha1)) else Ret None.

Fixpoint write_entries (st : wstate) (cache : list cache_entry) : option wstate :=
  match cache with
  | [] => Some st
  | ce :: cache =>
      if ce_mode ce =? 0 then write_entries st cache
      else st ← ce_write st (ce_bytes ce); write_entries st cache
  end.

(** The result is the file written, [None] for -1. *)
Definition write_cache (cache : list cache_entry) : outcome (option bytes) :=
  let entries := Z.of_nat (length cache) in
  let removed := Z.of_nat (length (filter (fun ce => ce_mode ce = 0) cache)) in
  let hdr := be_encode 4 CACHE_SIGNATURE ++ be_encode 4 2 ++ be_encode 4 (entries - removed) in
  let st := {| write_buffer := []; w_ctx := SHA1_Init; w_file := []; w_calls := 0 |} in
  match ce_write st hdr with
  | None => Ret None
  | Some st =>
      match write_entries st cache with
      | None => Ret None
      | Some st => ce_flush st
      end
  end.

End Writing.

(** ** The stream behind the buffer *)

Definition live (ce : cache_entry) : Prop := ce_mode ce <> 0.

#[export] Instance live_dec ce : Decision (live ce).
Proof. unfold live. apply _. Defined.

(** The bytes before the trailer. *)
Definition index_body (cache : list cache_entry) : bytes :=
  be_encode 4 CACHE_SIGNATURE ++ be_encode 4 2 ++ be_encode 4 (Z.of_nat (length (filter live cache)))
    ++ concat (map ce_bytes (filter live cache)).

(** [m] has been handed to [ce_write] so far. *)
Record streamed (st : wstate) (m : bytes) : Prop := {
  str_bytes : w_file st ++ write_buffer st = m;
  str_room : (length (write_buffer st) < WRITE_BUFFER_SIZE)%nat;
  str_blocks : exists k, length (w_file st) = (k * WRITE_BUFFER_SIZE)%nat;
  str_ctx : w_ctx st = foldl sha_byte SHA1_Init (w_file st)
}.

Lemma streamed_left st m : streamed st m -> length (write_buffer st) = (length m mod WRITE_BUFFER_SIZE)%nat.
Proof.
  intros [<- Hr [k Hk] _]. rewrite length_app, Hk, Nat.add_comm, Nat.Div0.mod_add. symmetry. by apply Nat.mod_small.
Qed.

Lemma SHA1_Update_len ctx data n :
  length data = n -> Z.of_nat n < 2 ^ 31 -> SHA1_Update ctx data (Z.of_nat n) = foldl sha_byte ctx data.
Proof. intros <-. apply SHA1_Update_all. Qed.

Lemma ce_write_loop_step wok fuel st data :
  data <> [] ->
  ce_write_loop wok (S fuel) st data =
    let partial := if (length data <? WRITE_BUFFER_SIZE - length (write_buffer st))%nat then length data
                   else (WRITE_BUFFER_SIZE - length (write_buffer st))%nat in
    let buf := write_buffer st ++ take partial data in
    if (length buf =? WRITE_BUFFER_SIZE)%nat then
      if wok (w_calls st) then
        ce_write_loop wok fuel {| write_buffer := []; w_ctx := SHA1_Update (w_ctx st) buf (Z.of_nat WRITE_BUFFER_SIZE);
          w_file := w_file st ++ buf; w_calls := S (w_calls st) |} (drop partial data)
      else None
    else ce_write_loop wok fuel {| write_buffer := buf; w_ctx := w_ctx st; w_file := w_file st;
           w_calls := w_calls st |} (drop partial data).
Proof. by destruct data. Qed.

Lemma ce_write_loop_stream wok fuel st m data :
  streamed st m -> (length data <= fuel)%nat ->
  match ce_write_loop wok fuel st data with
  | Some st' => streamed st' (m ++ data)
  | None => exists n, wok n = false
  end.
Proof.
  revert st m data; induction fuel as [|fuel IH]; intros st m data Hst Hf;
    (destruct (decide (data = [])) as [->|Hne]; [cbn [ce_write_loop]; by rewrite app_nil_r|]).
  { destruct data; [done|simpl in Hf; lia]. }
  assert (Hpos : (0 < length data)%nat) by (destruct data; [done|simpl; lia]).
  rewrite (ce_write_loop_step wok fuel st data Hne). cbv zeta.
  destruct Hst as [Hb Hr [k Hk] Hc].
  set (partial := if (length data <? WRITE_BUFFER_SIZE - length (write_buffer st))%nat then length data
                  else (WRITE_BUFFER_SIZE - length (write_buffer st))%nat).
  assert (Hp : (0 < partial <= length data)%nat /\ (partial <= WRITE_BUFFER_SIZE - length (write_buffer st))%nat).
  { unfold partial. destruct (Nat.ltb_spec (length data) (WRITE_BUFFER_SIZE - length (write_buffer st))); lia. }
  destruct (Nat.eqb_spec (length (write_buffer st ++ take partial data)) WRITE_BUFFER_SIZE) as [Hfull|Hnot].
  - destruct (wok (w_calls st)) eqn:Ew; [|eauto].
    replace (m ++ data) with ((m ++ take partial data) ++ drop partial data) by (by rewrite <- app_assoc, take_drop).
    apply IH; [|rewrite length_drop; lia]. split; cbn [write_buffer w_file w_ctx].
    + by rewrite app_nil_r, app_assoc, Hb.
    + unfold WRITE_BUFFER_SIZE. simpl length. lia.
    + exists (S k). rewrite length_app, Hk, Hfull. lia.
    + rewrite SHA1_Update_len, (foldl_app _ (w_file st)), Hc; [done|done|]. unfold WRITE_BUFFER_SIZE. lia.
  - replace (m ++ data) with ((m ++ take partial data) ++ drop partial data) by (by rewrite <- app_assoc, take_drop).
    apply IH; [|rewrite length_drop; lia]. split; cbn [write_buffer w_file w_ctx]; try done.
    + by rewrite app_assoc, Hb.
    + rewrite length_app, length_take in *. lia.
    + by exists k.
Qed.

Lemma write_entries_stream wok st m cache :
  streamed st m ->
  match write_entries wok st cache with
  | Some st' => streamed st' (m ++ concat (map ce_bytes (filter live cache)))
  | None => exists n, wok n = false
  end.
Proof.
  revert st m; induction cache as [|ce cache IH]; intros st m Hst; cbn [write_entries].
  { by rewrite app_nil_r. }
  destruct (Z.eqb_spec (ce_mode ce) 0) as [E|E].
  - rewrite filter_cons_False by (by unfold live; intros ?). by apply IH.
  - rewrite filter_cons_True by done. cbn [map concat].
    pose proof (ce_write_loop_stream wok (length (ce_bytes ce)) st m (ce_bytes ce) Hst ltac:(lia)) as Hw.
    unfold ce_write. destruct (ce_write_loop wok _ st (ce_bytes ce)) as [st'|]; [|done].
    specialize (IH st' (m ++ ce_bytes ce) Hw). by rewrite <- app_assoc in IH.
Qed.

Lemma live_count cache :
  Z.of_nat (length cache) - Z.of_nat (length (filter (fun ce => ce_mode ce = 0) cache)) =
  Z.of_nat (length (filter live cache)).
Proof.
  induction cache as [|ce cache IH]; [done|]. destruct (decide (ce_mode ce = 0)) as [E|E].
  - rewrite (filter_cons_True (fun ce => ce_mode ce = 0)), (filter_cons_False live) by (done || by unfold live; intros ?).
    cbn [length]. lia.
  - rewrite (filter_cons_False (fun ce => ce_mode ce = 0)), (filter_cons_True live) by done. cbn [length]. lia.
Qed.

(** [write_cache] by the size of what it writes. *)
Lemma write_cache_result wok cache :
  bytes_ok (index_body cache) ->
  match write_cache wok cache with
  | Die => False
  | Ret None => exists n, wok n = false
  | Ret (Some file) => file = index_body cache ++ Fips.sha1 (index_body cache) /\
      (length (index_body cache) mod WRITE_BUFFER_SIZE + 20 <= WRITE_BUFFER_SIZE)%nat
  | Ub => (WRITE_BUFFER_SIZE < length (index_body cache) mod WRITE_BUFFER_SIZE + 20)%nat
  end.
Proof.
  intros Hb. unfold write_cache. rewrite live_count.
  set (hdr := be_encode 4 CACHE_SIGNATURE ++ be_encode 4 2 ++ be_encode 4 (Z.of_nat (length (filter live cache)))).
  pose proof (ce_write_loop_stream wok (length hdr)
    {| write_buffer := []; w_ctx := SHA1_Init; w_file := []; w_calls := 0 |} [] hdr) as Hh.
  unfold ce_write. destruct (ce_write_loop wok (length hdr) _ hdr) as [st|].
  2:{ apply Hh; [|done]. split; try done; [unfold WRITE_BUFFER_SIZE; simpl; lia|by exists 0%nat]. }
  assert (Hst : streamed st hdr).
  { apply Hh; [|done]. split; try done; [unfold WRITE_BUFFER_SIZE; simpl; lia|by exists 0%nat]. }
  pose proof (write_entries_stream wok st hdr cache Hst) as He.
  destruct (write_entries wok st cache) as [st'|]; [|done].
  assert (Eb : index_body cache = hdr ++ concat (map ce_bytes (filter live cache)))
    by (unfold index_body, hdr; by rewrite <- !app_assoc).
  rewrite <- Eb in He. pose proof (streamed_left _ _ He) as Hl. unfold ce_flush. rewrite <- Hl.
  destruct (Nat.ltb_spec WRITE_BUFFER_SIZE (length (write_buffer st') + 20)) as [Hu|Hu]; [done|].
  destruct (wok (w_calls st')) eqn:Ew; [|eauto]. split; [|done].
  destruct He as [Hm Hr _ Hc]. rewrite <- Hm, <- app_assoc. do 2 f_equal.
  assert (E : foldl sha_byte SHA1_Init (w_file st' ++ write_buffer st') =
    (if (length (write_buffer st') =? 0)%nat then w_ctx st'
     else SHA1_Update (w_ctx st') (write_buffer st') (Z.of_nat (length (write_buffer st'))))).
  { rewrite foldl_app, <- Hc. destruct (Nat.eqb_spec (length (write_buffer st')) 0) as [E0|].
    - by destruct (write_buffer st').
    - by rewrite SHA1_Update_all by (unfold WRITE_BUFFER_SIZE in *; lia). }
  rewrite <- E, SHA1_Final_stream; [done|]. by rewrite Hm.
Qed.

(** ** Reading back *)

(** An entry whose fields fit the file format. *)
Record ce_storable (ce : cache_entry) : Prop := {
  st_wf : ce_wf ce;
  st_words : Forall word32 (ce_words ce);
  st_sha1 : bytes_ok (ce_sha1 ce) /\ length (ce_sha1 ce) = 20%nat;
  st_name : bytes_ok (ce_name ce)
}.

#[export] Instance word32_dec w : Decision (word32 w).
Proof. unfold word32. apply _. Defined.

#[export] Instance ce_storable_dec ce : Decision (ce_storable ce).
Proof.
  refine (cast_if (decide (ce_wf ce /\ Forall word32 (ce_words ce) /\
    (bytes_ok (ce_sha1 ce) /\ length (ce_sha1 ce) = 20%nat) /\ bytes_ok (ce_name ce)))).
  - by split; tauto.
  - by intros []; tauto.
Defined.

Lemma cache_entry_size_eq len : 0 <= len -> cache_entry_size len = (len + 70) / 8 * 8.
Proof.
  intros. unfold cache_entry_size. replace (62 + len + 8) with (len + 70) by lia.
  rewrite <- Z.ldiff_land. change 7 with (Z.ones 3). rewrite Z.ldiff_ones_r by lia.
  rewrite Z.shiftr_div_pow2, Z.shiftl_mul_pow2 by lia. done.
Qed.

Lemma words_length_4 ws : length (concat (map (be_encode 4) ws)) = (4 * length ws)%nat.
Proof. induction ws; [done|]. cbn [map concat]. rewrite length_app, length_be_encode, IHws. simpl. lia. Qed.

Lemma ce_struct_length ce : ce_storable ce -> length (ce_struct ce) = (62 + length (ce_name ce))%nat.
Proof.
  intros [_ _ [_ Hs] _]. unfold ce_struct. rewrite !length_app, words_length_4, length_be_encode, Hs. simpl. lia.
Qed.

Lemma ce_size_bounds ce : ce_storable ce ->
  Z.of_nat (62 + length (ce_name ce)) < ce_size ce <= Z.of_nat (70 + length (ce_name ce)).
Proof.
  intros Hs. unfold ce_size. rewrite (wf_namelen ce (st_wf _ Hs)), cache_entry_size_eq by lia. dm_lia.
Qed.

Lemma ce_bytes_length ce : ce_storable ce -> length (ce_bytes ce) = Z.to_nat (ce_size ce).
Proof.
  intros Hs. unfold ce_bytes. rewrite length_app, length_replicate, ce_struct_length by done.
  pose proof (ce_size_bounds ce Hs). lia.
Qed.

Lemma bytes_ok_zeros n : bytes_ok (replicate n 0).
Proof. apply Forall_replicate. unfold is_byte. lia. Qed.

Lemma bytes_ok_concat ls : Forall bytes_ok ls -> bytes_ok (concat ls).
Proof. apply Forall_concat. Qed.

Lemma ce_bytes_ok ce : ce_storable ce -> bytes_ok (ce_bytes ce).
Proof.
  intros [_ _ [Hs _] Hn]. unfold ce_bytes, ce_struct.
  rewrite !bytes_ok_app. split_and!; auto using bytes_ok_zeros, be_encode_bytes_ok.
  apply bytes_ok_concat, Forall_fmap, Forall_true. intros w. apply be_encode_bytes_ok.
Qed.

Lemma slice_app_at A B C off n :
  off = length A -> n = length B -> slice off n (A ++ B ++ C) = B.
Proof. intros -> ->. by apply slice_app_mid. Qed.

Lemma word_at P ws R k w :
  Forall word32 ws -> ws !! k = Some w ->
  be_decode (slice (length P + 4 * k) 4 (P ++ concat (map (be_encode 4) ws) ++ R)) = w.
Proof.
  intros HF; revert P k; induction HF as [|x ws Hx HF IH]; intros P k Hk; [done|].
  cbn [map concat]. rewrite <- app_assoc. destruct k as [|k]; simpl in Hk.
  - injection Hk as ->. rewrite slice_app_at by (rewrite ?length_be_encode; lia).
    rewrite be_decode_encode. apply Z.mod_small. exact Hx.
  - rewrite (app_assoc P). specialize (IH (P ++ be_encode 4 x) k Hk).
    rewrite length_app, length_be_encode in IH. 
    by replace (length P + 4 * S k)%nat with (length P + 4 + 4 * k)%nat by lia.
Qed.

Lemma map_entry_spec P ce R :
  ce_storable ce -> map_entry (P ++ ce_bytes ce ++ R) (length P) = Ret ce.
Proof.
  intros Hst. pose proof (ce_bytes_length ce Hst) as Hlen. pose proof (ce_size_bounds ce Hst) as Hsz.
  destruct Hst as [Hwf Hw [Hsb Hsl] Hnb]. unfold map_entry. set (m := P ++ ce_bytes ce ++ R).
  set (W := concat (map (be_encode 4) (ce_words ce))).
  assert (HlW : length W = 40%nat) by (unfold W; by rewrite words_length_4).
  set (Z0 := replicate (Z.to_nat (ce_size ce) - length (ce_struct ce)) 0).
  assert (E1 : m = P ++ W ++ (ce_sha1 ce ++ be_encode 2 (ce_flags ce) ++ ce_name ce ++ Z0 ++ R)).
  { unfold m, ce_bytes, ce_struct. by rewrite <- !app_assoc. }
  assert (E2 : m = (P ++ W) ++ ce_sha1 ce ++ (be_encode 2 (ce_flags ce) ++ ce_name ce ++ Z0 ++ R))
    by (by rewrite E1, <- !app_assoc).
  assert (E3 : m = (P ++ W ++ ce_sha1 ce) ++ be_encode 2 (ce_flags ce) ++ (ce_name ce ++ Z0 ++ R))
    by (by rewrite E1, <- !app_assoc).
  assert (E4 : m = (P ++ W ++ ce_sha1 ce ++ be_encode 2 (ce_flags ce)) ++ ce_name ce ++ (Z0 ++ R))
    by (by rewrite E1, <- !app_assoc).
  assert (Hf : be_decode (slice (length P + 60) 2 m) = ce_flags ce).
  { rewrite E3, slice_app_at by (rewrite ?length_be_encode, ?length_app; lia).
    rewrite be_decode_encode. apply Z.mod_small. destruct Hwf as [Hfl Hl Hs]. change (256 ^ Z.of_nat 2) with 65536. lia. }
  rewrite Hf. fold (ce_namelen ce). rewrite (wf_namelen ce Hwf), Nat2Z.id.
  assert (Hfit : (length P + 62 + length (ce_name ce) <= length m)%nat).
  { rewrite E4, !length_app, length_be_encode. lia. }
  destruct (Nat.leb_spec (length P + 62 + length (ce_name ce)) (length m)); [|lia].
  assert (Hword : forall k w, ce_words ce !! k = Some w -> be_decode (slice (length P + 4 * k) 4 m) = w).
  { intros k w Hk. rewrite E1. by apply word_at. }
  rewrite (Hword 0%nat _ eq_refl), (Hword 1%nat _ eq_refl), (Hword 2%nat _ eq_refl), (Hword 3%nat _ eq_refl),
    (Hword 4%nat _ eq_refl), (Hword 5%nat _ eq_refl), (Hword 6%nat _ eq_refl), (Hword 7%nat _ eq_refl),
    (Hword 8%nat _ eq_refl), (Hword 9%nat _ eq_refl).
  assert (Hsh : slice (length P + 40) 20 m = ce_sha1 ce).
  { rewrite E2. apply slice_app_at; [rewrite length_app|]; lia. }
  assert (Hnm : slice (length P + 62) (length (ce_name ce)) m = ce_name ce).
  { rewrite E4. apply slice_app_at; [|done]. rewrite !length_app, length_be_encode. lia. }
  rewrite Hsh, Hnm. destruct ce as [[] [] ? ? ? ? ? ? ? ? ?]. done.
Qed.

Lemma read_entries_spec P ces R :
  Forall ce_storable ces ->
  read_entries (length ces) (P ++ concat (map ce_bytes ces) ++ R) (length P) = Ret ces.
Proof.
  intros HF; revert P; induction HF as [|ce ces Hce HF IH]; intros P; [done|].
  cbn [length read_entries map concat]. rewrite <- app_assoc, map_entry_spec, bind_Ret by done.
  rewrite <- ce_bytes_length by done. specialize (IH (P ++ ce_bytes ce)).
  rewrite <- app_assoc, length_app in IH. by rewrite IH.
Qed.

Lemma index_body_ok cache : Forall ce_storable (filter live cache) -> bytes_ok (index_body cache).
Proof.
  intros HF. unfold index_body. rewrite !bytes_ok_app. split_and!; try apply be_encode_bytes_ok.
  apply bytes_ok_concat, Forall_fmap. eapply Forall_impl; [exact HF|]. intros ce. apply ce_bytes_ok.
Qed.

(** A header that [verify_hdr] accepts. *)
Lemma verify_hdr_body cache :
  bytes_ok (index_body cache) -> Z.of_nat (length (index_body cache)) < 2 ^ 31 ->
  verify_hdr (index_body cache ++ Fips.sha1 (index_body cache)) = 0.
Proof.
  intros Hb Hl. set (body := index_body cache) in *. unfold verify_hdr.
  pose proof (length_fips_sha1 body Hb) as Hs.
  assert (E1 : slice 0 4 (body ++ Fips.sha1 body) = be_encode 4 CACHE_SIGNATURE).
  { unfold body, index_body. rewrite <- app_assoc. by apply (slice_app_at []). }
  assert (E2 : slice 4 4 (body ++ Fips.sha1 body) = be_encode 4 2).
  { unfold body, index_body. rewrite <- !app_assoc. by apply (slice_app_at (be_encode 4 CACHE_SIGNATURE)). }
  rewrite E1, E2. change (be_decode (be_encode 4 CACHE_SIGNATURE) =? CACHE_SIGNATURE) with true.
  change (be_decode (be_encode 4 2) =? 2) with true. cbn [negb].
  rewrite length_app, Hs.
  replace (Z.of_nat (length body + 20) - 20) with (Z.of_nat (length body)) by lia.
  replace (length body + 20 - 20)%nat with (length body) by lia. rewrite drop_app_length.
  assert (E3 : SHA1_Update SHA1_Init (body ++ Fips.sha1 body) (Z.of_nat (length body)) = foldl sha_byte SHA1_Init body).
  { unfold SHA1_Update. rewrite i32_small by lia. by rewrite Nat2Z.id, take_app_length. }
  rewrite E3, SHA1_Final_stream by done. cbn [fst].
  by rewrite (proj2 (memcmp_eq 20 (Fips.sha1 body) (Fips.sha1 body) ltac:(lia) ltac:(lia)) eq_refl).
Qed.

Lemma index_body_entries cache m :
  m = index_body cache ++ Fips.sha1 (index_body cache) -> Forall ce_storable (filter live cache) ->
  Z.of_nat (length (filter live cache)) < 2 ^ 32 ->
  be_decode (slice 8 4 m) = Z.of_nat (length (filter live cache)) /\
  read_entries (length (filter live cache)) m 12 = Ret (filter live cache).
Proof.
  intros -> HF Hn. unfold index_body at 1 3. set (tl := Fips.sha1 (index_body cache)). split.
  - rewrite <- !app_assoc. rewrite (app_assoc (be_encode 4 CACHE_SIGNATURE)).
    rewrite slice_app_at by done. rewrite be_decode_encode. apply Z.mod_small. change (256 ^ Z.of_nat 4) with (2 ^ 32). lia.
  - rewrite <- !app_assoc. rewrite !(app_assoc (be_encode 4 CACHE_SIGNATURE)), (app_assoc (_ ++ be_encode 4 2)).
    apply (read_entries_spec ((be_encode 4 CACHE_SIGNATURE ++ be_encode 4 2) ++
      be_encode 4 (Z.of_nat (length (filter live cache)))) (filter live cache) tl HF).
Qed.

Lemma index_body_min cache : (12 <= length (index_body cache))%nat.
Proof. unfold index_body. rewrite !length_app, !length_be_encode. lia. Qed.

(** A written file is the stream and its SHA-1, and is read back. *)
Lemma write_cache_read_back (write_ok : nat -> bool) (cache : list cache_entry) (file : bytes)
    (Hst : Forall ce_storable (filter live cache)) (Hsize : Z.of_nat (length (index_body cache)) < 2 ^ 31)
    (Hw : write_cache write_ok cache = Ret (Some file)) :
  file = index_body cache ++ Fips.sha1 (index_body cache) /\
  read_cache None (Some file) =
    Ret (Z.of_nat (length (filter live cache)),
         Some {| active_cache := filter live cache;
                 active_alloc := alloc_nr (Z.of_nat (length (filter live cache)));
                 active_cache_changed := false |}).
Proof.
  pose proof (index_body_ok cache Hst) as Hb.
  pose proof (write_cache_result write_ok cache Hb) as Hr. rewrite Hw in Hr. destruct Hr as [Ef _].
  split; [done|]. unfold read_cache. pose proof (length_fips_sha1 _ Hb) as Hs. pose proof (index_body_min cache) as Hm.
  destruct (Nat.ltb_spec (length file) (12 + 20)) as [Hlt|_].
  { rewrite Ef, length_app in Hlt. lia. }
  assert (Hv : verify_hdr file = 0) by (rewrite Ef; by apply verify_hdr_body).
  assert (Hcount : Z.of_nat (length (filter live cache)) < 2 ^ 32).
  { unfold index_body in Hsize. rewrite !length_app in Hsize.
    assert (length (filter live cache) <= length (concat (map ce_bytes (filter live cache))))%nat; [|lia].
    clear -Hst. induction Hst as [|ce ces Hce _ IH]; [done|]. cbn [map concat length]. rewrite length_app.
    rewrite ce_bytes_length by done. pose proof (ce_size_bounds ce Hce). lia. }
  destruct (index_body_entries cache file Ef Hst Hcount) as [En Ee].
  rewrite Hv. cbn [Z.ltb Z.compare]. by rewrite En, Nat2Z.id, Ee.
Qed.

(** C29.  The index survives the disk: whatever the cache holds (entries
    whose fields fit, those marked as removed by mode 0 aside) and however the
    8 KiB buffer divides it, a file that [write_cache] completes consists of
    the header, the entries and the SHA-1 of both, and [read_cache] accepts it
    and returns exactly the entries that were not removed. *)
Theorem write_read_cache (write_ok : nat -> bool) (cache : list cache_entry) (file : bytes)
    (Hst : Forall ce_storable (filter live cache)) (Hsize : Z.of_nat (length (index_body cache)) < 2 ^ 31)
    (Hw : write_cache write_ok cache = Ret (Some file)) :
  file = index_body cache ++ Fips.sha1 (index_body cache) /\
  read_cache None (Some file) =
    Ret (Z.of_nat (length (filter live cache)),
         Some {| active_cache := filter live cache;
                 active_alloc := alloc_nr (Z.of_nat (length (filter live cache)));
                 active_cache_changed := false |}).
Proof. by apply (write_cache_read_back write_ok). Qed.

Lemma write_read_cache_witness :
  exists file, write_cache (fun _ => true) [test_entry "a" 0; test_entry "b" 0] = Ret (Some file) /\
    read_cache None (Some file) =
      Ret (2, Some {| active_cache := [test_entry "a" 0; test_entry "b" 0]; active_alloc := 27;
                      active_cache_changed := false |}).
Proof.
  destruct (write_cache (fun _ => true) [test_entry "a" 0; test_entry "b" 0]) as [[file|]| |] eqn:E;
    [|vm_compute in E; discriminate E..].
  exists file. split; [reflexivity|].
  refine (proj2 (write_read_cache (fun _ => true) [test_entry "a" 0; test_entry "b" 0] file _ _ E)).
  - apply (bool_decide_unpack _). vm_compute. exact I.
  - vm_compute. reflexivity.
Defined.

(** When the writes succeed only the end of the buffer decides. *)
Lemma write_cache_total (write_ok : nat -> bool) (cache : list cache_entry)
    (Hst : Forall ce_storable (filter live cache)) (Hwr : forall n, write_ok n = true) :
  write_cache write_ok cache =
    if Z.of_nat (length (index_body cache)) mod 8192 <=? 8192 - 20
    then Ret (Some (index_body cache ++ Fips.sha1 (index_body cache))) else Ub.
Proof.
  pose proof (write_cache_result write_ok cache (index_body_ok cache Hst)) as Hr.
  assert (Em : Z.of_nat (length (index_body cache) mod WRITE_BUFFER_SIZE) =
    Z.of_nat (length (index_body cache)) mod 8192).
  { by rewrite Nat2Z.inj_mod. }
  rewrite <- Em. unfold WRITE_BUFFER_SIZE in *.
  destruct (write_cache write_ok cache) as [[file|]| |].
  - destruct Hr as [-> Hle]. by destruct (Z.leb_spec (Z.of_nat (length (index_body cache) mod Z.to_nat 8192)) (8192 - 20)); [|lia].
  - destruct Hr as [n Hn]. by rewrite Hwr in Hn.
  - done.
  - by destruct (Z.leb_spec (Z.of_nat (length (index_body cache) mod Z.to_nat 8192)) (8192 - 20)); [lia|].
Qed.

(** C39.  [write_cache] writes every index completely when the writes
    succeed, except for one case: when fewer than 20 bytes are free in the
    buffer at the end, [ce_flush] stores the SHA-1 past the end of the static
    [write_buffer]. *)
Theorem write_cache_complete (write_ok : nat -> bool) (cache : list cache_entry)
    (Hst : Forall ce_storable (filter live cache)) (Hwr : forall n, write_ok n = true) :
  write_cache write_ok cache =
    if Z.of_nat (length (index_body cache)) mod 8192 <=? 8192 - 20
    then Ret (Some (index_body cache ++ Fips.sha1 (index_body cache))) else Ub.
Proof. by apply write_cache_total. Qed.

(** 341 files with names of two letters make such an index. *)
Definition two_letter_files : list cache_entry :=
  map (fun k => let a := Ascii.ascii_of_nat (97 + k / 26) in let b := Ascii.ascii_of_nat (97 + k mod 26) in
         test_entry (String a (String b EmptyString)) 0) (seq 0 341).

Lemma write_cache_complete_witness :
  index_ok two_letter_files /\ write_cache (fun _ => true) two_letter_files = Ub.
Proof.
  split; [apply (bool_decide_unpack _); vm_compute; exact I|].
  rewrite (write_cache_complete (fun _ => true) two_letter_files).
  - vm_compute. reflexivity.
  - apply (bool_decide_unpack _). vm_compute. exact I.
  - reflexivity.
Defined.
