(* ===== verification/CsumFile.v ===== *)
(** * SHA-1 protected files (csum-file.c)

    [sha1write] collects bytes in an 8192-byte buffer, hashes and writes each
    full buffer; [sha1close] writes the rest and, on request, the digest.
    [write(2)] and [close(2)] follow a schedule of results as in PktLine.v; [None] is a
    computation still waiting for its next system call. *)

From stdpp Require Import base list numbers strings.
From Stdlib Require Import ZArith Lia.
From S2P Require Import Prelude.
From S2P Require Import Sha1.
From S2P Require Import PktLine.

(** A computation that may be waiting for a system call, end the process, or
    return. *)
Definition io (A : Type) : Type := option (outcome A).

Definition io_ret {A} (a : A) : io A := Some (Ret a).
Definition io_bind {A B} (m : io A) (k : A -> io B) : io B :=
  match m with
  | Some (Ret a) => k a
  | Some Die => Some Die
  | Some Ub => Some Ub
  | None => None
  end.

Declare Scope io_scope.
Delimit Scope io_scope with io.
Notation "x <- m ;; k" := (io_bind m (fun x => k)) (at level 100, m at next level, right associativity) : io_scope.
Open Scope io_scope.

Lemma io_bind_inv {A B} (m : io A) (k : A -> io B) b :
  io_bind m k = io_ret b -> exists a, m = io_ret a /\ k a = io_ret b.
Proof. destruct m as [[a| |]|]; simpl; [|done..]. eauto. Qed.

(** ** Code *)

(** [unsigned char buffer[8192];] *)
Definition SHA1FILE_BUFFER : nat := Z.to_nat 8192.

(** [f_buffer] holds the first [offset] bytes of [f->buffer], [f_out] what the
    descriptor has received and [f_ws] the results of the calls to come. *)
Record sha1file := {
  f_ctx : SHA_CTX;
  f_buffer : bytes;
  f_out : bytes;
  f_ws : list wr;
}.

(** [sha1fd] and [sha1create] on an open descriptor. *)
Definition sha1fd (ws : list wr) : sha1file :=
  {| f_ctx := SHA1_Init; f_buffer := []; f_out := []; f_ws := ws |}.

Fixpoint flush_loop (ws : list wr) (buf out : bytes) : io (bytes * list wr) :=
  match ws with
  | [] => None
  | WOk k :: ws =>
      let ret := (S k `min` length buf)%nat in
      if (0 <? ret)%nat then
        let rest := drop ret buf in
        if (0 <? length rest)%nat then flush_loop ws rest (out ++ take ret buf)
        else io_ret (out ++ take ret buf, ws)
      else Some Die
  | WZero :: _ => Some Die
  | WIntr :: ws => flush_loop ws buf out
  | WErr :: _ => Some Die
  end.

(** [sha1flush(f, count)] where the first [count] bytes of the buffer are
    [buf]. *)
Definition sha1flush (f : sha1file) (buf : bytes) : io sha1file :=
  r <- flush_loop (f_ws f) buf (f_out f) ;;
  let '(out, ws) := r in
  io_ret {| f_ctx := f_ctx f; f_buffer := f_buffer f; f_out := out; f_ws := ws |}.

(** [SHA1_Update(&f->ctx, f->buffer, offset); sha1flush(f, offset);] *)
Definition hash_flush (f : sha1file) (buf : bytes) : io sha1file :=
  sha1flush {| f_ctx := SHA1_Update (f_ctx f) buf (Z.of_nat (length buf)); f_buffer := f_buffer f;
               f_out := f_out f; f_ws := f_ws f |} buf.

Fixpoint sha1write_loop (fuel : nat) (f : sha1file) (buf : bytes) : io sha1file :=
  match buf with
  | [] => io_ret f
  | _ =>
      match fuel with
      | O => None
      | S fuel =>
          let left := (SHA1FILE_BUFFER - length (f_buffer f))%nat in
          let nr := if (left <? length buf)%nat then left else length buf in
          let b := f_buffer f ++ take nr buf in
          if (left - nr =? 0)%nat then
            f <- hash_flush f b ;;
            sha1write_loop fuel {| f_ctx := f_ctx f; f_buffer := []; f_out := f_out f; f_ws := f_ws f |} (drop nr buf)
          else
            sha1write_loop fuel {| f_ctx := f_ctx f; f_buffer := b; f_out := f_out f; f_ws := f_ws f |} (drop nr buf)
      end
  end.

Definition sha1write (f : sha1file) (buf : bytes) : io sha1file := sha1write_loop (length buf) f buf.

(** [close(f->fd)] takes the next result of the schedule. *)
Definition close_fd (f : sha1file) : io sha1file :=
  match f_ws f with
  | [] => None
  | (WErr | WIntr) :: _ => Some Die
  | _ :: ws => io_ret {| f_ctx := f_ctx f; f_buffer := f_buffer f; f_out := f_out f; f_ws := ws |}
  end.

(** Returns the digest and the closed file. *)
Definition sha1close (f : sha1file) (update : bool) : io (bytes * sha1file) :=
  f <- (if (0 <? length (f_buffer f))%nat then hash_flush f (f_buffer f) else io_ret f) ;;
  let '(result, ctx) := SHA1_Final (f_ctx f) in
  let f := {| f_ctx := ctx; f_buffer := f_buffer f; f_out := f_out f; f_ws := f_ws f |} in
  f <- (if update then sha1flush f result else io_ret f) ;;
  f <- close_fd f ;;
  io_ret (result, f).

(** ** The stream a file stands for *)

(** [f] has been given exactly the bytes [m]. *)
Record holds (f : sha1file) (m : bytes) : Prop := {
  holds_all : f_out f ++ f_buffer f = m;
  holds_room : (length (f_buffer f) < SHA1FILE_BUFFER)%nat;
  holds_ctx : f_ctx f = foldl sha_byte SHA1_Init (f_out f);
}.

Lemma sha1fd_holds ws : holds (sha1fd ws) [].
Proof. by split; [|vm_compute; lia|]. Qed.

Lemma flush_loop_all ws buf out r ws' :
  flush_loop ws buf out = io_ret (r, ws') -> r = out ++ buf.
Proof.
  revert buf out; induction ws as [|[k| | |] ws IH]; intros buf out; cbn [flush_loop]; try done; [|apply IH].
  set (ret := (S k `min` length buf)%nat). assert (Hr : (ret <= length buf)%nat) by (unfold ret; lia). clearbody ret.
  destruct (Nat.ltb_spec 0 ret); [|done]. destruct (Nat.ltb_spec 0 (length (drop ret buf))) as [|Hd].
  - intros H1%IH. by rewrite H1, <- app_assoc, take_drop.
  - intros [= <- <-]. rewrite length_drop in Hd. by rewrite take_ge by lia.
Qed.

Lemma hash_flush_all f buf f' :
  Z.of_nat (length buf) < 2 ^ 31 -> hash_flush f buf = io_ret f' ->
  f_out f' = f_out f ++ buf /\ f_ctx f' = foldl sha_byte (f_ctx f) buf.
Proof.
  intros Hl. unfold hash_flush, sha1flush. intros ([out ws]&Hw&[= <-])%io_bind_inv. cbn [f_out f_ctx f_ws] in *.
  apply flush_loop_all in Hw. by rewrite SHA1_Update_all.
Qed.

Lemma sha1write_loop_holds fuel f buf m f' :
  holds f m -> sha1write_loop fuel f buf = io_ret f' -> holds f' (m ++ buf).
Proof.
  revert f buf m; induction fuel as [|fuel IH]; intros f buf m Hf.
  { destruct buf; [|done]. intros [= <-]. by rewrite app_nil_r. }
  destruct buf as [|c buf']; [intros [= <-]; by rewrite app_nil_r|].
  set (buf := c :: buf'). assert (Hne : (0 < length buf)%nat) by (simpl; lia).
  change (sha1write_loop (S fuel) f buf) with
    (let left := (SHA1FILE_BUFFER - length (f_buffer f))%nat in
     let nr := if (left <? length buf)%nat then left else length buf in
     let b := f_buffer f ++ take nr buf in
     if (left - nr =? 0)%nat then
       f <- hash_flush f b ;;
       sha1write_loop fuel {| f_ctx := f_ctx f; f_buffer := []; f_out := f_out f; f_ws := f_ws f |} (drop nr buf)
     else
       sha1write_loop fuel {| f_ctx := f_ctx f; f_buffer := b; f_out := f_out f; f_ws := f_ws f |} (drop nr buf)).
  cbv zeta. destruct Hf as [Hall Hroom Hctx].
  set (left := (SHA1FILE_BUFFER - length (f_buffer f))%nat).
  set (nr := if (left <? length buf)%nat then left else length buf).
  assert (Hnr : (1 <= nr <= left /\ nr <= length buf)%nat)
    by (unfold nr, left in *; destruct (Nat.ltb_spec (SHA1FILE_BUFFER - length (f_buffer f)) (length buf)); lia).
  assert (Hlen : length (f_buffer f ++ take nr buf) = (length (f_buffer f) + nr)%nat)
    by (rewrite length_app, length_take; lia).
  assert (E : m ++ buf = (m ++ take nr buf) ++ drop nr buf) by (by rewrite <- app_assoc, take_drop).
  rewrite E. destruct (Nat.eqb_spec (left - nr) 0) as [Hz|Hz].
  - intros (g&Hg&Hl)%io_bind_inv. assert (HB : SHA1FILE_BUFFER = Z.to_nat 8192) by done.
    apply hash_flush_all in Hg as [Ho Hc]; [|rewrite Hlen; unfold left in *; lia].
    eapply IH; [|exact Hl]. split; cbn [f_out f_buffer f_ctx].
    + rewrite Ho, app_nil_r, app_assoc. by rewrite Hall.
    + rewrite HB. simpl length. lia.
    + rewrite Hc. cbn [f_ctx]. rewrite Hctx, <- foldl_app. by rewrite Ho.
  - intros Hl. eapply IH; [|exact Hl]. split; cbn [f_out f_buffer f_ctx].
    + by rewrite app_assoc, Hall.
    + rewrite Hlen. unfold left in *. lia.
    + done.
Qed.

Lemma sha1write_holds f buf m f' :
  holds f m -> sha1write f buf = io_ret f' -> holds f' (m ++ buf).
Proof. apply sha1write_loop_holds. Qed.

Lemma close_fd_out f f' : close_fd f = io_ret f' -> f_out f' = f_out f.
Proof. unfold close_fd. destruct (f_ws f) as [|[] ws]; by intros [= <-]. Qed.

Lemma sha1close_holds f m update result f' :
  holds f m -> bytes_ok m -> sha1close f update = io_ret (result, f') ->
  result = Fips.sha1 m /\ f_out f' = m ++ (if update then Fips.sha1 m else []).
Proof.
  intros [Hall Hroom Hctx] Hok. unfold sha1close. intros (g&Hg&H)%io_bind_inv.
  assert (Hg' : f_out g = m /\ f_ctx g = foldl sha_byte SHA1_Init m).
  { destruct (Nat.ltb_spec 0 (length (f_buffer f))) as [|Hz].
    - apply hash_flush_all in Hg as [-> ->]; [|change SHA1FILE_BUFFER with (Z.to_nat 8192) in *; lia].
      rewrite Hctx, <- foldl_app. rewrite Hall. split; reflexivity.
    - injection Hg as <-. destruct (f_buffer f); [|simpl in Hz; lia]. rewrite app_nil_r in Hall.
      rewrite <- Hall. split; [reflexivity|exact Hctx]. }
  destruct Hg' as [Ho Hc]. rewrite Hc, SHA1_Final_stream in H by done.
  apply io_bind_inv in H as (h&Hh&(h'&Hcl%close_fd_out&[= <- <-])%io_bind_inv). split; [done|]. rewrite Hcl. destruct update.
  - unfold sha1flush in Hh. apply io_bind_inv in Hh as ([out ws]&Hw&[= <-]). apply flush_loop_all in Hw.
    cbn [f_out] in *. by rewrite Hw, Ho.
  - injection Hh as <-. cbn [f_out]. by rewrite app_nil_r.
Qed.

(** ** Totality under writes that succeed *)

(** The writes to come all take a full buffer. *)
Definition full_writes (n : nat) (f : sha1file) : Prop := f_ws f = replicate n (WOk (SHA1FILE_BUFFER - 1)).

Lemma flush_loop_full k ws buf out :
  (0 < length buf <= S k)%nat -> flush_loop (WOk k :: ws) buf out = io_ret (out ++ buf, ws).
Proof.
  intros Hl. cbn [flush_loop]. set (ret := (S k `min` length buf)%nat).
  assert (Hr : ret = length buf) by (unfold ret; lia). clearbody ret. subst ret.
  rewrite (proj2 (Nat.ltb_lt _ _)) by lia. rewrite drop_ge, take_ge by lia. done.
Qed.

Lemma hash_flush_full n f buf :
  full_writes (S n) f -> (0 < length buf <= SHA1FILE_BUFFER)%nat ->
  exists f', hash_flush f buf = io_ret f' /\ full_writes n f' /\ f_buffer f' = f_buffer f.
Proof.
  intros Hw Hl. unfold hash_flush, sha1flush. cbn [f_ws f_out f_ctx f_buffer]. rewrite Hw.
  cbn [replicate]. rewrite flush_loop_full by lia. by eexists.
Qed.

(** [sha1write] returns: its loop ends, and one write per full buffer is
    enough. *)
Lemma sha1write_loop_total fuel n f buf :
  full_writes n f -> (length (f_buffer f) < SHA1FILE_BUFFER)%nat -> (length buf <= fuel)%nat ->
  (length (f_buffer f) + length buf < SHA1FILE_BUFFER * S n)%nat ->
  exists f' n', sha1write_loop fuel f buf = io_ret f' /\ full_writes n' f' /\
    (length (f_buffer f') < SHA1FILE_BUFFER)%nat /\
    (length (f_buffer f') + SHA1FILE_BUFFER * n = length (f_buffer f) + length buf + SHA1FILE_BUFFER * n')%nat.
Proof.
  assert (HB : (0 < SHA1FILE_BUFFER)%nat) by (unfold SHA1FILE_BUFFER; lia).
  revert n f buf; induction fuel as [|fuel IH]; intros n f buf Hw Hroom Hf Hn.
  { destruct buf; [|simpl in Hf; lia]. exists f, n. cbn [length]. split; [done|]. split; [done|lia]. }
  destruct buf as [|c buf']; [exists f, n; cbn [length]; split; [done|]; split; [done|lia]|].
  cbn [sha1write_loop]. set (buf := c :: buf') in *. assert (Hne : (0 < length buf)%nat) by (simpl; lia).
  set (left := (SHA1FILE_BUFFER - length (f_buffer f))%nat).
  set (nr := if (left <? length buf)%nat then left else length buf).
  assert (Hnr : (1 <= nr <= left /\ nr <= length buf /\ (nr < left -> nr = length buf))%nat)
    by (unfold nr, left in *; destruct (Nat.ltb_spec (SHA1FILE_BUFFER - length (f_buffer f)) (length buf)); lia).
  assert (Hlen : length (f_buffer f ++ take nr buf) = (length (f_buffer f) + nr)%nat)
    by (rewrite length_app, length_take; lia).
  clearbody nr buf. destruct (Nat.eqb_spec (left - nr) 0) as [Hz|Hz].
  - destruct n as [|n]; [unfold left in *; lia|].
    destruct (hash_flush_full n f (f_buffer f ++ take nr buf) Hw) as (g&->&Hg&_); [unfold left in *; lia|].
    cbn [io_bind io_ret].
    destruct (IH n {| f_ctx := f_ctx g; f_buffer := []; f_out := f_out g; f_ws := f_ws g |} (drop nr buf))
      as (f'&n'&E&Hw'&Hr'&Hl'); cbn [f_buffer length] in *; rewrite ?length_drop in *;
      [done|lia|lia|unfold left in *; lia|].
    exists f', n'. split; [done|]. split; [done|]. split; [done|]. unfold left in *. lia.
  - destruct (IH n {| f_ctx := f_ctx f; f_buffer := f_buffer f ++ take nr buf; f_out := f_out f; f_ws := f_ws f |}
      (drop nr buf)) as (f'&n'&E&Hw'&Hr'&Hl'); cbn [f_buffer] in *; rewrite ?Hlen, ?length_drop in *;
      [done|unfold left in *; lia|lia|unfold left in *; lia|].
    exists f', n'. split; [done|]. split; [done|]. split; [done|]. lia.
Qed.

(** A file made of several [sha1write] calls and a [sha1close]. *)
Fixpoint sha1write_all (f : sha1file) (chunks : list bytes) : io sha1file :=
  match chunks with
  | [] => io_ret f
  | c :: chunks => f <- sha1write f c ;; sha1write_all f chunks
  end.

Lemma sha1write_all_holds f chunks m f' :
  holds f m -> sha1write_all f chunks = io_ret f' -> holds f' (m ++ concat chunks).
Proof.
  revert f m; induction chunks as [|c chunks IH]; intros f m Hf; cbn [sha1write_all concat].
  - intros [= <-]. by rewrite app_nil_r.
  - intros (g&Hg&H)%io_bind_inv. rewrite app_assoc. eapply IH; [|exact H]. by eapply sha1write_holds.
Qed.

Lemma sha1write_all_total chunks n f :
  full_writes n f -> (length (f_buffer f) < SHA1FILE_BUFFER)%nat ->
  (length (f_buffer f) + length (concat chunks) < SHA1FILE_BUFFER * S n)%nat ->
  exists f' n', sha1write_all f chunks = io_ret f' /\ full_writes n' f' /\
    (length (f_buffer f') < SHA1FILE_BUFFER)%nat /\
    (length (f_buffer f') + SHA1FILE_BUFFER * n =
       length (f_buffer f) + length (concat chunks) + SHA1FILE_BUFFER * n')%nat.
Proof.
  revert n f; induction chunks as [|c chunks IH]; intros n f Hw Hr Hn; cbn [sha1write_all concat] in *.
  { exists f, n. cbn [length]. split; [done|]. split; [done|lia]. }
  rewrite length_app in *.
  destruct (sha1write_loop_total (length c) n f c Hw Hr) as (g&n1&E&Hw1&Hr1&Hl1); [lia|lia|].
  unfold sha1write. rewrite E. cbn [io_bind io_ret].
  destruct (IH n1 g Hw1 Hr1) as (f'&n'&E'&Hw'&Hr'&Hl'); [lia|].
  exists f', n'. split; [done|]. split; [done|]. split; [done|lia].
Qed.

Lemma sha1close_total n f m :
  full_writes n f -> (3 <= n)%nat -> holds f m -> bytes_ok m -> exists r, sha1close f true = io_ret r.
Proof.
  intros Hw Hn Hf Hok. unfold sha1close.
  assert (exists g n', (if (0 <? length (f_buffer f))%nat then hash_flush f (f_buffer f) else io_ret f) = io_ret g /\
    full_writes (S (S n')) g /\ f_ctx g = foldl sha_byte SHA1_Init m) as (g&n'&->&Hg&Hc).
  { destruct n as [|[|[|n]]]; [lia..|]. destruct Hf as [Hall Hr Hctx].
    destruct (Nat.ltb_spec 0 (length (f_buffer f))) as [|Hz].
    - destruct (hash_flush_full (S (S n)) f (f_buffer f) Hw) as (g&E&Hg&_); [lia|]. exists g, n.
      split; [done|]. split; [done|].
      apply hash_flush_all in E as [_ ->]; [|change SHA1FILE_BUFFER with (Z.to_nat 8192) in *; lia].
      rewrite Hctx, <- foldl_app. by rewrite Hall.
    - exists f, (S n). split; [done|]. split; [done|].
      destruct (f_buffer f); [|simpl in Hz; lia]. rewrite app_nil_r in Hall. by subst. }
  cbn [io_bind io_ret]. rewrite Hc, SHA1_Final_stream by done. unfold sha1flush. cbn [f_ws f_out]. rewrite Hg.
  cbn [replicate]. rewrite flush_loop_full; [by eexists|]. rewrite length_fips_sha1 by done.
  change SHA1FILE_BUFFER with (Z.to_nat 8192). lia.
Qed.

(** a file written with any sequence of [sha1write] calls, over writes
    that are partial or interrupted in any way, holds on [sha1close] exactly
    the bytes given followed by their SHA-1, and returns that SHA-1; when the
    writes succeed, the calls do return. *)
Theorem csum_file_spec (ws : list wr) (chunks : list bytes) :
  Forall bytes_ok chunks ->
  let write ws := (f <- sha1write_all (sha1fd ws) chunks ;; sha1close f true) in
  (forall result f, write ws = io_ret (result, f) ->
     result = Fips.sha1 (concat chunks) /\ f_out f = concat chunks ++ Fips.sha1 (concat chunks)) /\
  (exists r, write (replicate (length (concat chunks) / SHA1FILE_BUFFER + 3) (WOk (SHA1FILE_BUFFER - 1))) = io_ret r).
Proof.
  intros Hok write. unfold write. assert (Hok' : bytes_ok (concat chunks)) by (by apply Forall_concat).
  split.
  - intros result f (g&Hg&Hc)%io_bind_inv. apply (sha1write_all_holds _ _ _ _ (sha1fd_holds ws)) in Hg.
    by apply (sha1close_holds _ _ true _ _ Hg) in Hc.
  - set (n := (length (concat chunks) / SHA1FILE_BUFFER + 3)%nat).
    assert (HB : SHA1FILE_BUFFER <> O) by (unfold SHA1FILE_BUFFER; lia).
    pose proof (Nat.div_mod_eq (length (concat chunks)) SHA1FILE_BUFFER).
    pose proof (Nat.mod_upper_bound (length (concat chunks)) SHA1FILE_BUFFER HB).
    destruct (sha1write_all_total chunks n (sha1fd (replicate n (WOk (SHA1FILE_BUFFER - 1)))))
      as (g&n'&E&Hw&Hr&Hl); [done|cbn [sha1fd f_buffer length]; lia|cbn [sha1fd f_buffer length]; lia|].
    rewrite E. cbn [io_bind io_ret sha1fd f_buffer length] in *.
    apply (sha1close_total n' g (concat chunks) Hw); [|exact (sha1write_all_holds _ _ [] _ (sha1fd_holds _) E)|done].
    destruct (Nat.le_gt_cases 3 n') as [|Hlt]; [done|]. unfold n in Hl. exfalso.
    assert (SHA1FILE_BUFFER * n' <= SHA1FILE_BUFFER * 2)%nat by (apply Nat.mul_le_mono_l; lia). lia.
Qed.

Lemma csum_file_spec_witness :
  exists result f, (f <- sha1write_all (sha1fd [WOk 1; WIntr; WOk 5; WOk 50; WOk 0]) [str "ab"; str "c"] ;; sha1close f true)
    = io_ret (result, f) /\ f_out f = str "abc" ++ Fips.sha1 (str "abc").
Proof.
  assert (Hok : Forall bytes_ok [str "ab"; str "c"]) by (repeat constructor; apply (bool_decide_unpack _); vm_compute; exact I).
  destruct (csum_file_spec [WOk 1; WIntr; WOk 5; WOk 50; WOk 0] _ Hok) as [H _].
  eexists _, _. split; [vm_compute; reflexivity|]. refine (proj2 (H _ _ _)). vm_compute. reflexivity.
Defined.
