(* ===== verification/PackIndex.v ===== *)
(** * Pack index files

    [write_index_file] of test_git/pack-objects.c writes the index of a pack:
    a table of 256 counts by first byte, the 24-byte entries in order of
    their names, the SHA-1 of the pack and the SHA-1 of the index itself.
    [check_packed_git_idx], [num_packed_objects], [nth_packed_object_sha1]
    and [find_pack_entry_one] of test_git/sha1_file.c check and search it. *)

From stdpp Require Import base list numbers strings sorting.
From Stdlib Require Import ZArith Lia.
From S2P Require Import Prelude.
From S2P Require Import Sha1.
From S2P Require Import PktLine.
From S2P Require Import CsumFile.

(** ** Code: writing *)

(** [struct object_entry]; the pointer [delta] is the position of the base
    object in the array [objects]. *)
Record object_entry := {
  oe_sha1 : bytes;
  oe_size : Z;
  oe_offset : Z;
  oe_depth : Z;
  oe_hash : Z;
  oe_type : Z;
  oe_delta_size : Z;
  oe_delta : option nat;
}.

(** [entry->sha1[0]] *)
Definition first_byte (e : object_entry) : Z := default 0 (head (oe_sha1 e)).

(** The inner loop: the pointer [next] is the part of the list from it on. *)
Fixpoint fan_next (i : Z) (next : list object_entry) : list object_entry :=
  match next with
  | [] => []
  | entry :: t => if negb (first_byte entry =? i) then next else fan_next i t
  end.

(** [for (i = 0; i < 256; i++)]; [next - sorted_by_sha] counts what is behind
    [next]. *)
Fixpoint fan_table (n : nat) (i : Z) (nr : nat) (objs : list object_entry) : list Z :=
  match n with
  | O => []
  | S n => let next := fan_next i objs in Z.of_nat (nr - length next) :: fan_table n (i + 1) nr next
  end.

Fixpoint write_idx_entries (f : sha1file) (objs : list object_entry) : io sha1file :=
  match objs with
  | [] => io_ret f
  | entry :: objs =>
      f <- sha1write f (be_encode 4 (oe_offset entry)) ;;
      f <- sha1write f (oe_sha1 entry) ;;
      write_idx_entries f objs
  end.

(** Returns the contents of the file. *)
Definition write_index_file (ws : list wr) (sorted_by_sha : list object_entry) (pack_file_sha1 : bytes) : io bytes :=
  let array := concat (map (be_encode 4) (fan_table 256 0 (length sorted_by_sha) sorted_by_sha)) in
  f <- sha1write (sha1fd ws) array ;;
  f <- write_idx_entries f sorted_by_sha ;;
  f <- sha1write f pack_file_sha1 ;;
  r <- sha1close f true ;;
  io_ret (f_out (snd r)).

(** ** Code: checking and searching *)

(** A value of type [int]; signed arithmetic outside of it has no meaning. *)
Definition in_int (z : Z) : bool := (- 2 ^ 31 <=? z) && (z <? 2 ^ 31).

(** [n] bytes of the map at [off]. *)
Definition map_read (m : bytes) (off : Z) (n : nat) : outcome bytes :=
  if (0 <=? off) && (off + Z.of_nat n <=? Z.of_nat (length m)) then Ret (slice (Z.to_nat off) n m) else Ub.

(** [ntohl] of the word at [off]. *)
Definition map_word (m : bytes) (off : Z) : outcome Z :=
  b ← map_read m off 4; Ret (be_decode b).

(** The monotonicity loop: [None] is the error return, [Some nr] the last
    count as an [int]. *)
Fixpoint fan_check (n : nat) (idx : bytes) (i nr : Z) : outcome (option Z) :=
  match n with
  | O => Ret (Some nr)
  | S n =>
      w ← map_word idx (4 * i);
      if w <? u32 nr then Ret None else fan_check n idx (i + 1) (i32 w)
  end.

(** From the mapped file on; opening it is the caller's [Some] or [None]. *)
Definition check_packed_git_idx (file : option bytes) : outcome Z :=
  match file with
  | None => Ret (-1)
  | Some idx =>
      let idx_size := Z.of_nat (length idx) in
      if idx_size <? 4 * 256 + 20 + 20 then Ret (-1)
      else
        r ← fan_check 256 idx 0 0;
        match r with
        | None => Ret (-1)
        | Some nr =>
            if in_int (nr * 24) && in_int (4 * 256 + nr * 24 + 20 + 20) then
              Ret (if idx_size =? u64 (4 * 256 + nr * 24 + 20 + 20) then 0 else -1)
            else Ub
        end
  end.

Definition num_packed_objects (idx : bytes) : Z :=
  i32 (u64 (Z.of_nat (length idx) - 20 - 20 - 4 * 256) / 24).

(** [None] is the return value -1. *)
Definition nth_packed_object_sha1 (idx : bytes) (n : Z) : outcome (option bytes) :=
  if (n <? 0) || (num_packed_objects idx <=? n) then Ret None
  else if in_int (24 * n) then s ← map_read idx (1024 + 24 * n + 4) 20; Ret (Some s) else Ub.

(** One [do ... while] iteration per unit of fuel. *)
Fixpoint find_loop (fuel : nat) (idx sha1 : bytes) (lo hi : Z) : outcome (option Z) :=
  match fuel with
  | O => Ret None
  | S fuel =>
      if in_int (lo + hi) then
        let mi := Z.quot (lo + hi) 2 in
        if in_int (24 * mi) then
          s ← map_read idx (1024 + 24 * mi + 4) 20;
          let cmp := memcmp 20 s sha1 in
          if cmp =? 0 then
            off ← map_word idx (1024 + 24 * mi);
            Ret (Some off)
          else
            let '(lo, hi) := if 0 <? cmp then (lo, mi) else (mi + 1, hi) in
            if lo <? hi then find_loop fuel idx sha1 lo hi else Ret None
        else Ub
      else Ub
  end.

(** [Some offset] is the return value 1 with [e->offset]; the fuel exceeds
    the number of candidates. *)
Definition find_pack_entry_one (idx sha1 : bytes) : outcome (option Z) :=
  b ← rd sha1 0;
  hi ← map_word idx (4 * b);
  lo ← (if b =? 0 then Ret 0 else map_word idx (4 * (b - 1)));
  find_loop (S (Z.to_nat (i32 hi - i32 lo))) idx sha1 (i32 lo) (i32 hi).

(** ** The format *)

Definition idx_entry (e : object_entry) : bytes := be_encode 4 (oe_offset e) ++ oe_sha1 e.

Definition idx_body (l : list object_entry) (pack_sha1 : bytes) : bytes :=
  concat (map (be_encode 4) (fan_table 256 0 (length l) l)) ++ concat (map idx_entry l) ++ pack_sha1.

(** What the writer is given: names of 20 bytes in increasing order, offsets
    that fit the entry, and a size that an [int] describes. *)
Record idx_ok (l : list object_entry) : Prop := {
  idx_names : Forall (fun e => length (oe_sha1 e) = 20%nat /\ bytes_ok (oe_sha1 e)) l;
  idx_offsets : Forall (fun e => 0 <= oe_offset e < 2 ^ 32) l;
  idx_sorted : StronglySorted (fun a b => lexcmp (oe_sha1 a) (oe_sha1 b) < 0) l;
  idx_small : 1064 + 24 * Z.of_nat (length l) < 2 ^ 31;
}.

(** The answer a search for [sha1] has to give. *)
Definition idx_answer (l : list object_entry) (sha1 : bytes) (r : option Z) : Prop :=
  (exists j e, l !! j = Some e /\ oe_sha1 e = sha1 /\ r = Some (oe_offset e)) \/
  ((forall j e, l !! j = Some e -> oe_sha1 e <> sha1) /\ r = None).

(** ** Writing *)

Lemma write_idx_entries_all f list : write_idx_entries f list =
  sha1write_all f (concat (map (fun e => [be_encode 4 (oe_offset e); oe_sha1 e]) list)).
Proof.
  revert f; induction list as [|e list IH]; intros f; [done|]. cbn [write_idx_entries map concat app sha1write_all].
  destruct (sha1write f _) as [[g| |]|]; [|done..]. cbn [io_bind].
  destruct (sha1write g _) as [[h| |]|]; [|done..]. cbn [io_bind]. apply IH.
Qed.

Lemma concat_idx_entries list :
  concat (concat (map (fun e => [be_encode 4 (oe_offset e); oe_sha1 e]) list)) = concat (map idx_entry list).
Proof. induction list as [|e list IH]; [done|]. cbn [map concat app]. unfold idx_entry at 1. rewrite IH. by rewrite app_assoc. Qed.

Lemma idx_body_ok l pack : idx_ok l -> bytes_ok pack -> bytes_ok (idx_body l pack).
Proof.
  intros [Hn _ _ _] Hp. unfold idx_body. apply bytes_ok_app_2; [|apply bytes_ok_app_2; [|done]].
  - apply Forall_concat, Forall_fmap, Forall_true. intros. apply be_encode_bytes_ok.
  - apply Forall_concat, Forall_fmap. eapply Forall_impl; [exact Hn|]. intros e [_ He]. unfold compose, idx_entry.
    apply bytes_ok_app_2; [apply be_encode_bytes_ok|done].
Qed.

Lemma write_index_file_contents ws l pack out :
  idx_ok l -> bytes_ok pack ->
  write_index_file ws l pack = io_ret out -> out = idx_body l pack ++ Fips.sha1 (idx_body l pack).
Proof.
  intros Hl Hp. unfold write_index_file. cbv zeta.
  intros (f1&H1&(f2&H2&(f3&H3&([res f4]&H4&[= <-])%io_bind_inv)%io_bind_inv)%io_bind_inv)%io_bind_inv.
  apply (sha1write_holds _ _ _ _ (sha1fd_holds ws)) in H1. rewrite write_idx_entries_all in H2.
  apply (sha1write_all_holds _ _ _ _ H1) in H2. rewrite concat_idx_entries in H2.
  apply (sha1write_holds _ _ _ _ H2) in H3. rewrite app_nil_l, <- app_assoc in H3.
  apply (sha1close_holds _ _ true _ _ H3) in H4 as [_ ->]; [done|]. by apply idx_body_ok.
Qed.

(** ** The first-level table *)

Lemma fan_next_drop i l :
  StronglySorted (fun a b => first_byte a <= first_byte b) l -> Forall (fun e => i <= first_byte e) l ->
  exists q, fan_next i l = drop q l /\ (q <= length l)%nat /\
    forall j e, l !! j = Some e -> (j < q)%nat <-> first_byte e <= i.
Proof.
  induction l as [|a l IH]; intros Hs HF; cbn [fan_next]; [by exists 0%nat|].
  apply StronglySorted_inv in Hs as [Hs Ha]. apply Forall_cons in HF as [Hi HF].
  destruct (Z.eqb_spec (first_byte a) i) as [He|He]; cbn [negb].
  - destruct (IH Hs HF) as (q&->&Hq&Hj). exists (S q). split; [done|]. split; [simpl; lia|].
    intros [|j] e; simpl; [intros [= <-]; lia|]. intros E. rewrite <- (Hj j e E). lia.
  - exists 0%nat. split; [done|]. split; [lia|]. intros [|j] e; simpl; [intros [= <-]; lia|].
    intros E. rewrite Forall_lookup in Ha. specialize (Ha _ _ E). lia.
Qed.

Lemma fan_table_length n i nr l : length (fan_table n i nr l) = n.
Proof. revert i l; induction n; intros; cbn [fan_table length]; [done|]. by rewrite IHn. Qed.

Lemma fan_table_range n i nr l : Forall (fun w => 0 <= w <= Z.of_nat nr) (fan_table n i nr l).
Proof. revert i l; induction n as [|n IH]; intros i l; cbn [fan_table]; constructor; [lia|apply IH]. Qed.

Lemma fan_table_spec n i nr l k :
  StronglySorted (fun a b => first_byte a <= first_byte b) l -> Forall (fun e => i <= first_byte e) l ->
  (length l <= nr)%nat -> (k < n)%nat ->
  exists p, fan_table n i nr l !! k = Some (Z.of_nat (nr - length l + p)) /\ (p <= length l)%nat /\
    forall j e, l !! j = Some e -> (j < p)%nat <-> first_byte e <= i + Z.of_nat k.
Proof.
  revert i l k; induction n as [|n IH]; intros i l k Hs HF Hnr Hk; [lia|]. cbn [fan_table]. cbv zeta.
  destruct (fan_next_drop i l Hs HF) as (q&->&Hq&Hj). rewrite length_drop. destruct k as [|k].
  - exists q. split; [simpl; do 2 f_equal; lia|]. split; [done|]. intros j e E. rewrite Z.add_0_r. by apply Hj.
  - destruct (IH (i + 1) (drop q l) k) as (p&Hp&Hlp&Hjp); [by apply StronglySorted_drop| |rewrite length_drop; lia|lia|].
    { apply Forall_lookup. intros j e E. rewrite lookup_drop in E. specialize (Hj _ _ E). lia. }
    rewrite length_drop in *. exists (q + p)%nat. cbn [lookup list_lookup]. split; [|split; [lia|]].
    { etransitivity; [exact Hp|]. do 2 f_equal. lia. }
    intros j e E. destruct (Nat.lt_ge_cases j q) as [Hlt|Hge].
    { pose proof (proj1 (Hj _ _ E) Hlt). lia. }
    specialize (Hjp (j - q)%nat e). rewrite lookup_drop in Hjp. replace (q + (j - q))%nat with j in Hjp by lia.
    specialize (Hjp E). lia.
Qed.

(** ** Reading the written file *)

Lemma lookup_concat_slice w (chunks : list bytes) R k c :
  Forall (fun c => length c = w) chunks -> chunks !! k = Some c -> slice (w * k) w (concat chunks ++ R) = c.
Proof.
  intros HF; revert k; induction HF as [|x chunks Hx HF IH]; intros k Hk; [done|]. cbn [concat].
  rewrite <- app_assoc. unfold slice in *. destruct k as [|k]; simpl in Hk.
  - injection Hk as ->. rewrite Nat.mul_0_r, drop_0. by apply take_app_length'.
  - rewrite Nat.mul_succ_r, Nat.add_comm. rewrite <- Hx, drop_app_add, Hx. by apply IH.
Qed.

Lemma concat_length_const w (chunks : list bytes) :
  Forall (fun c => length c = w) chunks -> length (concat chunks) = (w * length chunks)%nat.
Proof. induction 1 as [|x l Hx HF IH]; [simpl; lia|]. cbn [concat length]. rewrite length_app, Hx, IH. lia. Qed.

Lemma slice_app_r A B off n : (length A <= off)%nat -> slice off n (A ++ B) = slice (off - length A) n B.
Proof. intros. unfold slice. by rewrite drop_app_ge by lia. Qed.

Lemma slice_slice off n off' n' (l : bytes) :
  (off' + n' <= n)%nat -> slice off' n' (slice off n l) = slice (off + off') n' l.
Proof.
  intros. unfold slice. rewrite skipn_firstn_comm, take_take, drop_drop. f_equal. lia.
Qed.

Section File.
Context (l : list object_entry) (pack trailer : bytes).
Context (Hl : idx_ok l) (Hpack : length pack = 20%nat) (Htrailer : length trailer = 20%nat).

Let fan := fan_table 256 0 (length l) l.
Let idx := idx_body l pack ++ trailer.

Lemma idx_entries_24 : Forall (fun c => length c = 24%nat) (map idx_entry l).
Proof.
  apply Forall_fmap. eapply Forall_impl; [exact (idx_names _ Hl)|]. intros e [He _].
  unfold compose, idx_entry. by rewrite length_app, length_be_encode, He.
Qed.

Lemma fan_bytes_4 (ws : list Z) : Forall (fun c => length c = 4%nat) (map (be_encode 4) ws).
Proof. apply Forall_fmap, Forall_true. intros. apply length_be_encode. Qed.

Lemma fan_bytes_length : length (concat (map (be_encode 4) fan)) = 1024%nat.
Proof.
  rewrite (concat_length_const 4) by apply fan_bytes_4. rewrite length_map. unfold fan. by rewrite fan_table_length.
Qed.

Lemma idx_length : length idx = (1024 + 24 * length l + 40)%nat.
Proof.
  unfold idx, idx_body. rewrite !length_app, Hpack, Htrailer. fold fan. rewrite fan_bytes_length.
  rewrite (concat_length_const 24) by apply idx_entries_24. rewrite length_map. lia.
Qed.

Lemma map_read_idx off n s : 
  (off + n <= length idx)%nat -> slice off n idx = s -> map_read idx (Z.of_nat off) n = Ret s.
Proof.
  intros H E. unfold map_read. rewrite (proj2 (Z.leb_le _ _)), (proj2 (Z.leb_le _ _)) by lia. cbn [andb].
  by rewrite Nat2Z.id, E.
Qed.

Lemma idx_split_entries : idx = concat (map (be_encode 4) fan) ++ concat (map idx_entry l) ++ (pack ++ trailer).
Proof. unfold idx, idx_body. by rewrite <- !app_assoc. Qed.

Lemma fan_range k w : fan !! k = Some w -> 0 <= w <= Z.of_nat (length l).
Proof.
  intros H. pose proof (fan_table_range 256 0 (length l) l) as Hw. rewrite Forall_lookup in Hw. by apply (Hw k).
Qed.

Lemma map_word_fan k w : fan !! k = Some w -> map_word idx (4 * Z.of_nat k) = Ret w.
Proof.
  intros Hk. unfold map_word. pose proof (lookup_lt_Some _ _ _ Hk) as Hlt. unfold fan in Hlt.
  rewrite fan_table_length in Hlt. replace (4 * Z.of_nat k) with (Z.of_nat (4 * k)) by lia.
  rewrite (map_read_idx _ _ (be_encode 4 w)); [|rewrite idx_length; lia|].
  - rewrite bind_Ret, be_decode_encode. change (256 ^ Z.of_nat 4) with (2 ^ 32).
    pose proof (fan_range k w Hk). pose proof (idx_small _ Hl). by rewrite Z.mod_small by lia.
  - rewrite idx_split_entries. apply lookup_concat_slice; [apply fan_bytes_4|]. by rewrite list_lookup_fmap, Hk.
Qed.

Lemma entry_slice j e : l !! j = Some e -> slice (1024 + 24 * j) 24 idx = idx_entry e.
Proof.
  intros Hj. rewrite idx_split_entries, slice_app_r by (rewrite fan_bytes_length; lia).
  rewrite fan_bytes_length. replace (1024 + 24 * j - 1024)%nat with (24 * j)%nat by lia.
  apply lookup_concat_slice; [apply idx_entries_24|]. by rewrite list_lookup_fmap, Hj.
Qed.

Lemma entry_fields j e : l !! j = Some e ->
  map_read idx (1024 + 24 * Z.of_nat j + 4) 20 = Ret (oe_sha1 e) /\
  map_word idx (1024 + 24 * Z.of_nat j) = Ret (oe_offset e).
Proof.
  intros Hj. pose proof (entry_slice j e Hj) as Hs. pose proof (lookup_lt_Some _ _ _ Hj) as Hlt.
  assert (He : length (oe_sha1 e) = 20%nat) by (eapply (proj1 (Forall_lookup _ _) (idx_names _ Hl)); exact Hj).
  assert (Ho : 0 <= oe_offset e < 2 ^ 32) by (eapply (proj1 (Forall_lookup _ _) (idx_offsets _ Hl)); exact Hj).
  split.
  - replace (1024 + 24 * Z.of_nat j + 4) with (Z.of_nat (1024 + 24 * j + 4)) by lia.
    apply map_read_idx; [rewrite idx_length; lia|]. rewrite <- (slice_slice _ 24), Hs by lia.
    unfold idx_entry, slice. rewrite drop_app_length' by (by rewrite length_be_encode). apply take_ge. lia.
  - unfold map_word. replace (1024 + 24 * Z.of_nat j) with (Z.of_nat (1024 + 24 * j)) by lia.
    rewrite (map_read_idx _ _ (be_encode 4 (oe_offset e))); [|rewrite idx_length; lia|].
    + rewrite bind_Ret, be_decode_encode. change (256 ^ Z.of_nat 4) with (2 ^ 32). by rewrite Z.mod_small.
    + replace (1024 + 24 * j)%nat with (1024 + 24 * j + 0)%nat by lia. rewrite <- (slice_slice _ 24), Hs by lia.
      unfold idx_entry, slice. rewrite drop_0. apply take_app_length'. by rewrite length_be_encode.
Qed.

(** The 20 bytes behind the last entry that the search can look at. *)
Definition phantom : bytes := slice 4 20 (pack ++ trailer).

Lemma phantom_fields :
  map_read idx (1024 + 24 * Z.of_nat (length l) + 4) 20 = Ret phantom.
Proof.
  replace (1024 + 24 * Z.of_nat (length l) + 4) with (Z.of_nat (1024 + 24 * length l + 4)) by lia.
  apply map_read_idx; [rewrite idx_length; lia|].
  assert (E : length (concat (map (be_encode 4) fan) ++ concat (map idx_entry l)) = (1024 + 24 * length l)%nat).
  { rewrite length_app, fan_bytes_length, (concat_length_const 24) by apply idx_entries_24. by rewrite length_map. }
  rewrite idx_split_entries, app_assoc, slice_app_r by lia. rewrite E. unfold phantom. f_equal. lia.
Qed.

Lemma sorted_first_bytes : StronglySorted (fun a b => first_byte a <= first_byte b) l.
Proof.
  pose proof (idx_sorted _ Hl) as Hs. pose proof (idx_names _ Hl) as Hn. clear -Hs Hn.
  induction Hs as [|a l Hs IH HF]; [constructor|]. apply Forall_cons in Hn as [[Ha _] Hn].
  constructor; [by apply IH|]. apply Forall_lookup. intros j e He. rewrite Forall_lookup in HF, Hn.
  specialize (HF _ _ He). destruct (Hn _ _ He) as [Hle _]. unfold first_byte.
  destruct (oe_sha1 a) as [|x s], (oe_sha1 e) as [|y t]; try discriminate. simpl in *.
  destruct (Z.ltb_spec x y), (Z.ltb_spec y x); lia.
Qed.

Lemma first_bytes_nonneg : Forall (fun e => 0 <= first_byte e) l.
Proof.
  eapply Forall_impl; [exact (idx_names _ Hl)|]. intros e [He Hok]. unfold first_byte.
  destruct (oe_sha1 e) as [|x s]; [discriminate|]. apply bytes_ok_cons in Hok as [Hx _]. unfold is_byte in Hx. simpl. lia.
Qed.

(** The table splits the entries by first byte. *)
Lemma fan_split b : 0 <= b < 256 ->
  exists p, map_word idx (4 * b) = Ret (Z.of_nat p) /\ (p <= length l)%nat /\
    forall j e, l !! j = Some e -> (j < p)%nat <-> first_byte e <= b.
Proof.
  intros Hb. destruct (fan_table_spec 256 0 (length l) l (Z.to_nat b)) as (p&Hp&Hle&Hj);
    [apply sorted_first_bytes|apply first_bytes_nonneg|done|lia|].
  exists p. rewrite Nat.sub_diag, Nat.add_0_l in Hp. split.
  - rewrite <- (Z2Nat.id b) at 1 by lia. by apply map_word_fan.
  - split; [done|]. intros j e E. rewrite (Hj j e E). rewrite Z2Nat.id by lia. done.
Qed.

(** ** The checks on the written file *)

Lemma fan_check_correct n k nr :
  (n + k = 256)%nat -> 0 <= nr < 2 ^ 31 ->
  (forall w, fan !! k = Some w -> nr <= w) ->
  (n = 0%nat -> nr = Z.of_nat (length l)) ->
  fan_check n idx (Z.of_nat k) nr = Ret (Some (Z.of_nat (length l))).
Proof.
  pose proof (idx_small _ Hl) as Hsm.
  revert k nr; induction n as [|n IH]; intros k nr Hnk Hnr Hle Hlast; cbn [fan_check]; [by rewrite Hlast|].
  destruct (fan_split (Z.of_nat k)) as (p&Hp&Hp1&Hp2); [lia|]. rewrite Hp, bind_Ret.
  assert (Hk : fan !! k = Some (Z.of_nat p)).
  { destruct (lookup_lt_is_Some_2 fan k) as [w Hw]; [unfold fan; rewrite fan_table_length; lia|].
    pose proof (map_word_fan k w Hw) as E. rewrite Hp in E. injection E as <-. done. }
  specialize (Hle _ Hk). rewrite u32_small, (proj2 (Z.ltb_ge _ _)) by lia. rewrite i32_small by lia.
  replace (Z.of_nat k + 1) with (Z.of_nat (S k)) by lia. apply IH; [lia|lia| |].
  - intros w Hw. pose proof (map_word_fan _ _ Hw) as E.
    pose proof (lookup_lt_Some _ _ _ Hw) as Hlt. unfold fan in Hlt. rewrite fan_table_length in Hlt.
    destruct (fan_split (Z.of_nat (S k))) as (q&Hq&Hq1&Hq2); [lia|]. rewrite Hq in E. injection E as <-.
    destruct (Nat.le_gt_cases p q) as [|Hgt]; [lia|]. exfalso.
    destruct (lookup_lt_is_Some_2 l q) as [e He]; [lia|].
    pose proof (proj1 (Hp2 _ _ He) Hgt). pose proof (proj2 (Hq2 _ _ He)). lia.
  - intros ->. destruct (Nat.eq_dec p (length l)) as [->|Hne]; [done|]. exfalso.
    destruct (lookup_lt_is_Some_2 l p) as [e He]; [lia|]. pose proof (proj2 (Hp2 _ _ He)) as Hfb.
    destruct (proj1 (Forall_lookup _ _) (idx_names _ Hl) _ _ He) as [Hl20 Hok]. unfold first_byte in Hfb.
    destruct (oe_sha1 e) as [|x s]; [discriminate|]. apply bytes_ok_cons in Hok as [Hx _]. unfold is_byte in Hx. simpl in Hfb. lia.
Qed.

Lemma num_packed_objects_correct : num_packed_objects idx = Z.of_nat (length l).
Proof.
  unfold num_packed_objects. pose proof (idx_small _ Hl) as Hsm. rewrite idx_length, u64_small, i32_small by dm_lia. dm_lia.
Qed.

Lemma check_packed_git_idx_correct : check_packed_git_idx (Some idx) = Ret 0.
Proof.
  unfold check_packed_git_idx. pose proof (idx_small _ Hl) as Hsm. rewrite idx_length.
  rewrite (proj2 (Z.ltb_ge _ _)) by lia.
  assert (Hc : fan_check 256 idx 0 0 = Ret (Some (Z.of_nat (length l)))).
  { apply (fan_check_correct 256 0 0); [lia|lia| |lia]. intros w Hw. apply fan_range in Hw. lia. }
  rewrite Hc, bind_Ret. unfold in_int. rewrite !(proj2 (Z.leb_le _ _)), !(proj2 (Z.ltb_lt _ _)) by lia. cbn [andb].
  rewrite u64_small by lia. by rewrite (proj2 (Z.eqb_eq _ _)) by lia.
Qed.

Lemma nth_packed_object_sha1_correct j e :
  l !! j = Some e -> nth_packed_object_sha1 idx (Z.of_nat j) = Ret (Some (oe_sha1 e)).
Proof.
  intros He. unfold nth_packed_object_sha1. pose proof (idx_small _ Hl). pose proof (lookup_lt_Some _ _ _ He).
  rewrite num_packed_objects_correct. rewrite (proj2 (Z.ltb_ge _ _)), (proj2 (Z.leb_gt _ _)) by lia. cbn [orb].
  unfold in_int. rewrite (proj2 (Z.leb_le _ _)), (proj2 (Z.ltb_lt _ _)) by lia. cbn [andb].
  destruct (entry_fields _ _ He) as [-> _]. done.
Qed.

(** ** The search *)

Context (sha1 : bytes) (Hsha1 : length sha1 = 20%nat).

Lemma find_loop_correct fuel lo hi :
  (Z.to_nat (hi - lo) < fuel)%nat -> 0 <= lo <= hi -> hi <= Z.of_nat (length l) ->
  (forall j e, l !! j = Some e -> Z.of_nat j < lo -> lexcmp (oe_sha1 e) sha1 < 0) ->
  (forall j e, l !! j = Some e -> hi <= Z.of_nat j -> 0 < lexcmp (oe_sha1 e) sha1) ->
  sha1 <> phantom \/ (exists j e, l !! j = Some e /\ oe_sha1 e = sha1) ->
  exists r, find_loop fuel idx sha1 lo hi = Ret r /\ idx_answer l sha1 r.
Proof.
  intros Hf Hlo Hhi Hbelow Habove Hph. revert lo hi Hf Hlo Hhi Hbelow Habove.
  pose proof (idx_small _ Hl) as Hsm.
  induction fuel as [|fuel IH]; intros lo hi Hf Hlo Hhi Hbelow Habove; [lia|]. cbn [find_loop].
  assert (Hnone : (forall j e, l !! j = Some e -> oe_sha1 e <> sha1) -> idx_answer l sha1 None) by (intros; by right).
  assert (Hi1 : in_int (lo + hi) = true) by (unfold in_int; rewrite andb_true_iff, Z.leb_le, Z.ltb_lt; lia).
  rewrite Hi1. cbv zeta. rewrite Z.quot_div_nonneg by lia. set (mi := (lo + hi) / 2).
  assert (Hmi : lo <= mi <= hi /\ (lo < hi -> mi < hi)) by (unfold mi; dm_lia). clearbody mi.
  assert (Hi2 : in_int (24 * mi) = true) by (unfold in_int; rewrite andb_true_iff, Z.leb_le, Z.ltb_lt; lia).
  rewrite Hi2. destruct (Z.eq_dec mi (Z.of_nat (length l))) as [->|Hne].
  - rewrite phantom_fields, bind_Ret.
    assert (Hpl : length phantom = 20%nat) by (unfold phantom; rewrite length_slice, length_app; lia).
    assert (Hno : forall j e, l !! j = Some e -> oe_sha1 e <> sha1).
    { intros j e Hj E. pose proof (lookup_lt_Some _ _ _ Hj). specialize (Hbelow j e Hj ltac:(lia)).
      rewrite E, lexcmp_refl in Hbelow. lia. }
    destruct Hph as [Hph|(j&e&Hj&E)]; [|by specialize (Hno j e Hj)].
    rewrite memcmp_full by done. destruct (Z.eqb_spec (lexcmp phantom sha1) 0) as [E|_]; [by apply lexcmp_eq in E|].
    exists None. split; [destruct (0 <? _); by rewrite (proj2 (Z.ltb_ge _ _)) by lia|]. by apply Hnone.
  - destruct (lookup_lt_is_Some_2 l (Z.to_nat mi)) as [e He]; [lia|].
    destruct (entry_fields _ _ He) as [E1 E2]. rewrite Z2Nat.id in E1, E2 by lia. rewrite E1, bind_Ret.
    assert (Hel : length (oe_sha1 e) = 20%nat) by (eapply (proj1 (Forall_lookup _ _) (idx_names _ Hl)); exact He).
    rewrite memcmp_full by done. destruct (Z.eqb_spec (lexcmp (oe_sha1 e) sha1) 0) as [E|Hc].
    { rewrite E2, bind_Ret. apply lexcmp_eq in E. exists (Some (oe_offset e)). split; [done|]. left. by exists (Z.to_nat mi), e. }
    assert (Hord : forall i j a b, l !! i = Some a -> l !! j = Some b -> (i < j)%nat -> lexcmp (oe_sha1 a) (oe_sha1 b) < 0).
    { intros i j a b Ha Hb Hij. by apply (StronglySorted_lookup _ _ i j a b (idx_sorted _ Hl)). }
    assert (Hend : forall lo' hi', (lo' = lo /\ hi' = mi /\ 0 < lexcmp (oe_sha1 e) sha1) \/
        (lo' = mi + 1 /\ hi' = hi /\ lexcmp (oe_sha1 e) sha1 < 0) ->
        exists r, (if lo' <? hi' then find_loop fuel idx sha1 lo' hi' else Ret None) = Ret r /\ idx_answer l sha1 r).
    { intros lo' hi' Hcase.
      assert (Hb' : forall j e', l !! j = Some e' -> Z.of_nat j < lo' -> lexcmp (oe_sha1 e') sha1 < 0).
      { intros j e' Hj Hlt. destruct Hcase as [(->&->&_)|(->&->&Hneg)]; [by apply (Hbelow j)|].
        destruct (Nat.eq_dec j (Z.to_nat mi)) as [->|]; [congruence|].
        eapply lexcmp_trans; [|exact Hneg]. apply (Hord j (Z.to_nat mi)); [done|done|lia]. }
      assert (Ha' : forall j e', l !! j = Some e' -> hi' <= Z.of_nat j -> 0 < lexcmp (oe_sha1 e') sha1).
      { intros j e' Hj Hle. destruct Hcase as [(->&->&Hpos)|(->&->&_)]; [|by apply (Habove j)].
        destruct (Nat.eq_dec j (Z.to_nat mi)) as [->|]; [congruence|].
        pose proof (Hord (Z.to_nat mi) j _ _ He Hj ltac:(lia)) as Hlt.
        rewrite lexcmp_opp in Hpos |- *.
        pose proof (lexcmp_trans sha1 (oe_sha1 e) (oe_sha1 e') ltac:(lia) Hlt). lia. }
      destruct (Z.ltb_spec lo' hi') as [Hlt|Hge]; [apply IH; auto; destruct Hcase as [(->&->&_)|(->&->&_)]; lia|].
      exists None. split; [done|]. apply Hnone. intros j e' Hj E.
      destruct (Z.lt_ge_cases (Z.of_nat j) lo') as [Hj1|Hj1].
      - specialize (Hb' j e' Hj Hj1). rewrite E, lexcmp_refl in Hb'. lia.
      - specialize (Ha' j e' Hj ltac:(lia)). rewrite E, lexcmp_refl in Ha'. lia. }
    destruct (Z.ltb_spec 0 (lexcmp (oe_sha1 e) sha1)); apply Hend; [left|right]; repeat split; lia.
Qed.

Lemma lexcmp_first_byte a b : length a = 20%nat -> length b = 20%nat ->
  default 0 (head a) < default 0 (head b) -> lexcmp a b < 0.
Proof.
  destruct a as [|x a], b as [|y b]; try discriminate. simpl. intros _ _ H. by rewrite (proj2 (Z.ltb_lt _ _)) by lia.
Qed.

Lemma find_pack_entry_one_correct :
  bytes_ok sha1 -> sha1 <> phantom \/ (exists j e, l !! j = Some e /\ oe_sha1 e = sha1) ->
  exists r, find_pack_entry_one idx sha1 = Ret r /\ idx_answer l sha1 r.
Proof.
  intros Hok Hph. unfold find_pack_entry_one. pose proof (idx_small _ Hl) as Hsm.
  assert (exists b s, sha1 = b :: s) as (b&s&Es) by (destruct sha1; [discriminate|eauto]).
  assert (Hb : 0 <= b < 256) by (rewrite Es in Hok; apply bytes_ok_cons in Hok as [Hb _]; exact Hb).
  assert (Hr : rd sha1 0 = Ret b) by (by rewrite Es). rewrite Hr, bind_Ret.
  assert (Hfb : default 0 (head sha1) = b) by (by rewrite Es).
  destruct (fan_split b Hb) as (ph&->&Hph1&Hph2). rewrite bind_Ret.
  assert (exists pl, (if b =? 0 then Ret 0 else map_word idx (4 * (b - 1))) = Ret (Z.of_nat pl) /\ (pl <= ph)%nat /\
    forall j e, l !! j = Some e -> (j < pl)%nat -> first_byte e < b) as (pl&->&Hpl1&Hpl2).
  { destruct (Z.eqb_spec b 0) as [->|Hb0]; [by exists 0%nat; split; [|split; [lia|lia]]|].
    destruct (fan_split (b - 1)) as (pl&->&Hp1&Hp2); [lia|]. exists pl. split; [done|]. split.
    - destruct (Nat.le_gt_cases pl ph) as [|Hgt]; [done|]. exfalso.
      destruct (lookup_lt_is_Some_2 l ph) as [e He]; [lia|].
      pose proof (proj1 (Hp2 _ _ He) Hgt). pose proof (proj2 (Hph2 _ _ He)). lia.
    - intros j e He Hj. pose proof (proj1 (Hp2 _ _ He) Hj). lia. }
  rewrite bind_Ret, !i32_small by lia.
  assert (Hlen : forall j e, l !! j = Some e -> length (oe_sha1 e) = 20%nat)
    by (intros j e He; eapply (proj1 (Forall_lookup _ _) (idx_names _ Hl)); exact He).
  apply find_loop_correct; [lia|lia|lia| | |done].
  - intros j e He Hj. apply lexcmp_first_byte; [by eapply Hlen|done|]. rewrite Hfb. apply (Hpl2 j e He). lia.
  - intros j e He Hj. rewrite lexcmp_opp. enough (lexcmp sha1 (oe_sha1 e) < 0) by lia.
    apply lexcmp_first_byte; [done|by eapply Hlen|]. rewrite Hfb. fold (first_byte e).
    pose proof (proj2 (Hph2 _ _ He)). lia.
Qed.

End File.

(** an index file written by [write_index_file] for objects in the order
    of their names passes [check_packed_git_idx]; [nth_packed_object_sha1]
    enumerates its names; and [find_pack_entry_one] returns the offset of
    every object in it and reports every other name as absent, except for one
    name made of the file's own trailer (see [phantom_match]). *)
Theorem idx_write_search (ws : list wr) (l : list object_entry) (pack_sha1 idx : bytes) :
  idx_ok l -> length pack_sha1 = 20%nat -> bytes_ok pack_sha1 ->
  write_index_file ws l pack_sha1 = io_ret idx ->
  check_packed_git_idx (Some idx) = Ret 0 /\
  num_packed_objects idx = Z.of_nat (length l) /\
  (forall j e, l !! j = Some e -> nth_packed_object_sha1 idx (Z.of_nat j) = Ret (Some (oe_sha1 e))) /\
  (forall sha1, length sha1 = 20%nat -> bytes_ok sha1 -> sha1 <> slice (length idx - 36) 20 idx ->
     exists r, find_pack_entry_one idx sha1 = Ret r /\ idx_answer l sha1 r).
Proof.
  intros Hl Hpl Hpo Hw. apply write_index_file_contents in Hw as ->; [|done|done].
  assert (Ht : length (Fips.sha1 (idx_body l pack_sha1)) = 20%nat) by (by apply length_fips_sha1, idx_body_ok).
  split; [by apply check_packed_git_idx_correct|]. split; [by apply num_packed_objects_correct|].
  split; [by apply nth_packed_object_sha1_correct|]. intros sha1 Hs Hok Hne.
  apply find_pack_entry_one_correct; [done|done|done|done|done|]. left. intros ->. apply Hne. clear Hne.
  revert Ht. generalize (Fips.sha1 (idx_body l pack_sha1)) as trailer. intros trailer Ht.
  rewrite idx_length by done. rewrite idx_split_entries. unfold phantom. rewrite app_assoc.
  assert (E : length (concat (map (be_encode 4) (fan_table 256 0 (length l) l)) ++ concat (map idx_entry l))
    = (1024 + 24 * length l)%nat).
  { rewrite length_app, fan_bytes_length, (concat_length_const 24) by (by apply idx_entries_24). by rewrite length_map. }
  rewrite (slice_app_r (_ ++ concat (map idx_entry l))) by lia. rewrite E. f_equal. lia.
Qed.

(** Two objects, and the name that collides with the trailer of their index. *)
Definition idx_example : list object_entry :=
  [{| oe_sha1 := replicate 20 7; oe_size := 0; oe_offset := 12; oe_depth := 0; oe_hash := 0; oe_type := 3;
      oe_delta_size := 0; oe_delta := None |};
   {| oe_sha1 := 7 :: replicate 19 9; oe_size := 0; oe_offset := 33; oe_depth := 0; oe_hash := 0; oe_type := 3;
      oe_delta_size := 0; oe_delta := None |}].

Lemma idx_example_ok : idx_ok idx_example.
Proof.
  split; [| | |vm_compute; reflexivity]; repeat constructor;
    try (apply (bool_decide_unpack _); vm_compute; exact I); vm_compute; congruence.
Qed.

Definition idx_example_file : bytes := idx_body idx_example (replicate 20 200) ++
  Fips.sha1 (idx_body idx_example (replicate 20 200)).

Lemma idx_write_search_witness :
  check_packed_git_idx (Some idx_example_file) = Ret 0 /\
  num_packed_objects idx_example_file = 2 /\
  (forall j e, idx_example !! j = Some e -> nth_packed_object_sha1 idx_example_file (Z.of_nat j) = Ret (Some (oe_sha1 e))) /\
  (forall sha1, length sha1 = 20%nat -> bytes_ok sha1 -> sha1 <> slice (length idx_example_file - 36) 20 idx_example_file ->
     exists r, find_pack_entry_one idx_example_file sha1 = Ret r /\ idx_answer idx_example sha1 r).
Proof.
  apply (idx_write_search [WOk 4000; WOk 4000; WOk 0] idx_example (replicate 20 200)).
  - exact idx_example_ok.
  - reflexivity.
  - apply (bool_decide_unpack _). vm_compute. exact I.
  - vm_compute. reflexivity.
Defined.

(** The search always looks at one entry, also when no entry starts
    with the first byte of the name: a name equal to the bytes behind the last
    entry is found in an index that does not contain it. *)
Example phantom_match :
  let sha1 := slice (length idx_example_file - 36) 20 idx_example_file in
  Forall (fun e => oe_sha1 e <> sha1) idx_example /\
  find_pack_entry_one idx_example_file sha1 = Ret (Some (be_decode [200; 200; 200; 200])).
Proof. vm_compute. split; [repeat constructor; discriminate|reflexivity]. Qed.
