(* ===== verification/Zlib.v ===== *)
(** * The interface of zlib

    The compression library is not part of the repository.  The components
    that call it take it as a parameter: [deflate level chunks] is the stream
    that [deflateInit(level)], one run of [deflate] calls per chunk and
    [deflateEnd] produce into a buffer of [deflateBound] bytes, and [inflate
    finish input total_out avail_out] is one call of [inflate] on a stream
    whose whole input is available and which has produced [total_out] bytes:
    its status and what it writes.

    [ZlibLaws] states the documented behaviour the callers rely on: a
    complete stream followed by anything inflates to what was deflated, as
    far as there is room for it; a stream is never much longer than its
    contents (a weak form of [compressBound]); with [Z_FINISH] the call reports the end of
    the stream exactly when all of it fitted. *)

From stdpp Require Import base list numbers.
From Stdlib Require Import ZArith Lia.
From S2P Require Import Prelude.

Inductive zret := Z_OK | Z_STREAM_END | Z_BUF_ERROR | Z_DATA_ERROR.

#[export] Instance zret_eq_dec : EqDecision zret.
Proof. solve_decision. Defined.

(** [ret < Z_OK] *)
Definition zfailed (r : zret) : bool :=
  match r with Z_OK | Z_STREAM_END => false | Z_BUF_ERROR | Z_DATA_ERROR => true end.

Class Zlib := {
  deflate : Z -> list bytes -> bytes;
  inflate : bool -> bytes -> nat -> nat -> zret * bytes;
}.

Class ZlibLaws `{Zlib} := {
  deflate_bytes_ok level chunks : Forall bytes_ok chunks -> bytes_ok (deflate level chunks);
  deflate_bound level chunks : (length (deflate level chunks) <= 2 * length (concat chunks) + 64)%nat;
  inflate_finish level chunks rest done avail :
    (done <= length (concat chunks))%nat ->
    inflate true (deflate level chunks ++ rest) done avail =
      (if (length (concat chunks) <=? done + avail)%nat then Z_STREAM_END else Z_BUF_ERROR,
       take avail (drop done (concat chunks)));
  inflate_partial level chunks rest done avail :
    (done <= length (concat chunks))%nat ->
    exists st, zfailed st = false /\
      inflate false (deflate level chunks ++ rest) done avail = (st, take avail (drop done (concat chunks)));
}.

(** ** Streams whose input arrives in pieces

    [inflate_stream z next_in avail_out] is one call of [inflate] without
    [Z_FINISH] on a [z_stream]: its status, how many bytes of the input it has
    consumed, what it has written, and the stream after it.

    [expects z s m] says that [z] has yet to consume the rest [s] of a
    compressed stream and to deliver [m].  With room for all of [m], a call
    consumes all input up to the end of the stream, and reports that end
    exactly when it has reached it. *)

Class ZStream := {
  zstream : Type;
  inflateInit : zstream;
  inflate_stream : zstream -> bytes -> nat -> zret * nat * bytes * zstream;
}.

Class ZStreamLaws `{Zlib, ZStream} := {
  expects : zstream -> bytes -> bytes -> Prop;
  expects_init level chunks : expects inflateInit (deflate level chunks) (concat chunks);
  expects_more z s m : expects z s m -> s <> [];
  inflate_stream_part z s m k avail :
    expects z s m -> (0 < k < length s)%nat -> (length m <= avail)%nat ->
    exists out m' z', m = out ++ m' /\ inflate_stream z (take k s) avail = (Z_OK, k, out, z') /\
      expects z' (drop k s) m';
  inflate_stream_end z s m rest avail :
    expects z s m -> (length m <= avail)%nat ->
    exists z', inflate_stream z (s ++ rest) avail = (Z_STREAM_END, length s, m, z');
}.

(** ** A concrete codec

    Every byte is preceded by 1 and the stream ends with 0: enough to
    evaluate the definitions that use the interface. *)

Module Stored.

Definition encode (m : bytes) : bytes := concat (map (fun b => [1; b]) m) ++ [0].

Fixpoint decode (s : bytes) : option bytes :=
  match s with
  | 0 :: _ => Some []
  | 1 :: b :: s => cons b <$> decode s
  | _ => None
  end.

Lemma decode_encode m rest : decode (encode m ++ rest) = Some m.
Proof. induction m as [|b m IH]; [done|]. unfold encode in *. simpl. by rewrite IH. Qed.

#[export] Instance stored : Zlib := {|
  deflate _ chunks := encode (concat chunks);
  inflate finish input done avail :=
    match decode input with
    | Some m => (if (length m <=? done + avail)%nat then Z_STREAM_END else if finish then Z_BUF_ERROR else Z_OK,
                 take avail (drop done m))
    | None => (Z_DATA_ERROR, [])
    end;
|}.

#[export] Instance stored_laws : ZlibLaws.
Proof.
  split.
  - intros level chunks Hok. cbn. unfold encode. apply bytes_ok_app_2; [|apply bytes_ok_single; unfold is_byte; lia].
    apply Forall_concat in Hok. apply Forall_concat, Forall_fmap. rewrite Forall_forall in Hok |- *. intros b Hin. specialize (Hok b Hin).
    unfold compose. apply bytes_ok_cons. split; [unfold is_byte; lia|by apply bytes_ok_single].
  - intros level chunks. cbn [deflate stored]. unfold encode. rewrite length_app. cbn [length].
    assert (E : forall m : bytes, length (concat (map (fun b => [1; b]) m)) = (2 * length m)%nat).
    { intros m. induction m as [|b m IH]; [done|]. cbn [map concat length]. rewrite length_app, IH. simpl. lia. }
    rewrite E. lia.
  - intros level chunks rest done avail _. cbn [inflate deflate stored]. by rewrite decode_encode.
  - intros level chunks rest done avail _. cbn [inflate deflate stored]. rewrite decode_encode.
    destruct (_ <=? _)%nat; eexists; (split; [|reflexivity]); reflexivity.
Qed.

(** The stream remembers whether the next byte is one of the contents. *)
Fixpoint run (half : bool) (input : bytes) (avail : nat) : zret * nat * bytes * bool :=
  match input with
  | [] => (Z_OK, O, [], half)
  | b :: rest =>
      if half then
        match avail with
        | O => (Z_OK, O, [], half)
        | S avail => let '(r, n, out, z) := run false rest avail in (r, S n, b :: out, z)
        end
      else if b =? 0 then (Z_STREAM_END, 1%nat, [], half)
      else if b =? 1 then let '(r, n, out, z) := run true rest avail in (r, S n, out, z)
      else (Z_DATA_ERROR, O, [], half)
  end.

(** A call that can do nothing reports it. *)
Definition run_call (half : bool) (input : bytes) (avail : nat) : zret * nat * bytes * bool :=
  let '(r, n, out, z) := run half input avail in
  (if bool_decide (r = Z_OK) && (n =? 0)%nat then Z_BUF_ERROR else r, n, out, z).

#[export] Instance stored_stream : ZStream := {| zstream := bool; inflateInit := false; inflate_stream := run_call |}.

Definition stored_expects (half : bool) (s m : bytes) : Prop :=
  if half then exists b m', m = b :: m' /\ s = b :: encode m' else s = encode m.

Lemma encode_cons b m : encode (b :: m) = 1 :: b :: encode m.
Proof. done. Qed.

Lemma run_part k half s m avail :
  stored_expects half s m -> (k < length s)%nat -> (length m <= avail)%nat ->
  exists out m' z', m = out ++ m' /\ run half (take k s) avail = (Z_OK, k, out, z') /\ stored_expects z' (drop k s) m'.
Proof.
  revert half s m avail; induction k as [|k IH]; intros half s m avail Hs Hk Ha.
  { exists [], m, half. by destruct half. }
  destruct half; cbn [stored_expects] in Hs.
  - destruct Hs as (b&m'&->&->). cbn [take drop run length] in *. destruct avail as [|avail]; [lia|].
    destruct (IH false (encode m') m' avail eq_refl ltac:(lia) ltac:(lia)) as (out&m2&z&->&->&Hz).
    by exists (b :: out), m2, z.
  - subst s. destruct m as [|b m]; [cbn in Hk; lia|]. rewrite encode_cons in *. cbn [take drop run length] in *.
    rewrite Z.eqb_refl. destruct (IH true (b :: encode m) (b :: m) avail) as (out&m2&z&->&->&Hz); cbn [length]; [by exists b, m|lia|done|].
    by exists out, m2, z.
Qed.

Lemma run_end half s m rest avail :
  stored_expects half s m -> (length m <= avail)%nat -> exists z, run half (s ++ rest) avail = (Z_STREAM_END, length s, m, z).
Proof.
  assert (Hf : forall m avail, (length m <= avail)%nat ->
    exists z, run false (encode m ++ rest) avail = (Z_STREAM_END, length (encode m), m, z)).
  { clear. induction m as [|b m IH]; intros avail Ha; [by exists false|]. rewrite encode_cons. cbn [length] in Ha.
    destruct avail as [|avail]; [lia|]. destruct (IH avail ltac:(lia)) as [z Hz]. exists z. cbn [app run length].
    by rewrite Z.eqb_refl, Hz. }
  destruct half; cbn [stored_expects]; intros Hs Ha; [|subst s; by apply Hf].
  destruct Hs as (b&m'&->&->). cbn [length] in Ha. destruct avail as [|avail]; [lia|].
  destruct (Hf m' avail ltac:(lia)) as [z Hz]. exists z. cbn [app run length]. by rewrite Hz.
Qed.

#[export] Instance stored_stream_laws : ZStreamLaws.
Proof.
  unshelve econstructor.
  - exact stored_expects.
  - done.
  - intros [] s m; cbn; [by intros (b&m'&->&->)|intros ->]. by destruct m.
  - intros z s m k avail Hs Hk Ha. destruct (run_part k z s m avail Hs ltac:(lia) Ha) as (out&m'&z'&E&Hr&Hz).
    exists out, m', z'. split; [done|]. split; [|done]. cbn [inflate_stream stored_stream]. unfold run_call. rewrite Hr.
    by destruct k; [lia|].
  - intros z s m rest avail Hs Ha. destruct (run_end z s m rest avail Hs Ha) as [z' Hr]. exists z'.
    cbn [inflate_stream stored_stream]. unfold run_call. by rewrite Hr.
Qed.

End Stored.
