(* ===== verification/ObjectHeader.v ===== *)
(** * Object headers

    Models of [parse_sha1_header], [check_sha1_signature] and
    [write_sha1_file_prepare] (test_git/sha1_file.c): the text
    ["<type> <size>"] and its NUL that stand in front of an object's
    contents, and the name of an object, the SHA-1 of header and contents. *)

From stdpp Require Import base list numbers strings sets.
From Stdlib Require Import ZArith Lia.
From S2P Require Import Prelude.
From S2P Require Import Sha1.
From S2P Require Import Hex.

(** ** Code *)

(** A [char] read from a buffer of bytes is signed. *)
Definition schar (c : Z) : Z := if c <? 128 then c else c - 256.

(** The loop over the type: [i] counts down from ten, the byte that makes it
    zero is not stored.  Returns the type and the rest of [hdr], or [None] for
    the early [return -1]. *)
Fixpoint parse_type (i : nat) (hdr type : bytes) : outcome (option (bytes * bytes)) :=
  match hdr with
  | [] => Ub
  | c :: hdr =>
      if c =? 32 then Ret (Some (type, hdr))
      else
        match i with
        | S (S _ as i) => parse_type i hdr (type ++ [c])
        | _ => Ret None
        end
  end.

(** The inner loop over the digits of the length. *)
Fixpoint parse_size_loop (hdr : bytes) (size : Z) : outcome (Z * bytes) :=
  match hdr with
  | [] => Ub
  | b :: hdr' =>
      let c := u64 (schar b - 48) in
      if 9 <? c then Ret (size, hdr) else parse_size_loop hdr' (u64 (size * 10 + c))
  end.

(** [Ret (Some (type, size))] is the return value 0 with what [*type] and
    [*sizep] then hold; [Ret None] is -1. *)
Definition parse_sha1_header (hdr : bytes) : outcome (option (bytes * Z)) :=
  r ← parse_type 10 hdr [];
  match r with
  | None => Ret None
  | Some (type, hdr) =>
      c ← rd hdr 0;
      let size := u64 (schar c - 48) in
      if 9 <? size then Ret None
      else
        r ← (if size =? 0 then Ret (size, tail hdr) else parse_size_loop (tail hdr) size);
        let '(size, hdr) := r in
        z ← rd hdr 0;
        Ret (if z =? 0 then Some (type, size) else None)
  end.

(** [sprintf(hdr, "%s %lu", type, len)] into a buffer of [cap] bytes, with the
    NUL it writes. *)
Definition sprintf_hdr (cap : nat) (type : bytes) (len : Z) : outcome bytes :=
  let s := type ++ [32] ++ numeral 10 len ++ [0] in
  if (length s <=? cap)%nat then Ret s else Ub.

(** The two [SHA1_Update] calls over header and contents. *)
Definition sha1_object (hdr buf : bytes) (len : Z) : bytes :=
  let c := SHA1_Init in
  let c := SHA1_Update c hdr (Z.of_nat (length hdr)) in
  let c := SHA1_Update c buf len in
  fst (SHA1_Final c).

Definition check_sha1_signature (sha1 map : bytes) (size : Z) (type : bytes) : outcome Z :=
  header ← sprintf_hdr 100 type size;
  let real_sha1 := sha1_object header map size in
  Ret (if memcmp 20 sha1 real_sha1 =? 0 then 0 else -1).

(** Returns the file name of the object, its name and its header; the callers
    pass an [hdr] of 50 bytes. *)
Definition write_sha1_file_prepare (dir buf : bytes) (len : Z) (type : bytes)
    : outcome (bytes * bytes * bytes) :=
  hdr ← sprintf_hdr 50 type len;
  let sha1 := sha1_object hdr buf len in
  Ret (sha1_file_name dir sha1, sha1, hdr).

(** ** The header a type and a length stand for *)

Definition object_header (type : bytes) (len : Z) : bytes := type ++ [32] ++ numeral 10 len ++ [0].

(** The name of an object, as the SHA-1 of the standard. *)
Definition object_name (type data : bytes) : bytes :=
  Fips.sha1 (object_header type (Z.of_nat (length data)) ++ data).

(** A type the header format can carry. *)
Definition type_ok (type : bytes) : Prop :=
  (length type <= 9)%nat /\ bytes_ok type /\ 32 ∉ type.

(** ** Proofs *)

(** Absence of a byte, by evaluation. *)
Lemma not_elem_check (x : Z) l : forallb (fun y => negb (y =? x)) l = true -> x ∉ l.
Proof.
  rewrite forallb_forall. intros H Hin. apply list_elem_of_In in Hin. specialize (H _ Hin). simpl in H.
  by rewrite Z.eqb_refl in H.
Qed.

Lemma parse_type_spec i hdr acc type rest :
  (parse_type (S i) hdr acc = Ret (Some (type, rest))) <->
  exists t, type = acc ++ t /\ hdr = t ++ [32] ++ rest /\ (32 ∉ t) /\ (length t <= i)%nat.
Proof.
  revert i acc; induction hdr as [|c hdr IH]; intros i acc; cbn [parse_type].
  { split; [done|]. intros (t&_&E&_). by destruct t. }
  destruct (Z.eqb_spec c 32) as [->|Hc].
  - split.
    + intros [= -> ->]. exists []. rewrite app_nil_r. split_and!; [done|done|set_solver|simpl; lia].
    + intros ([|x t]&->&E&Hin&_); simpl in E.
      * injection E as ->. by rewrite app_nil_r.
      * injection E as <- _. set_solver.
  - destruct i as [|i].
    + split; [done|]. intros ([|x t]&_&E&_&Hl); simpl in *; [congruence|lia].
    + rewrite IH. split.
      * intros (t&->&->&Hin&Hl). exists (c :: t). rewrite <- app_assoc. simpl. split_and!; [done|done|set_solver|lia].
      * intros ([|x t]&->&E&Hin&Hl); simpl in E; [congruence|]. injection E as -> ->.
        exists t. rewrite <- app_assoc. simpl in *. split_and!; [done|done|set_solver|lia].
Qed.

Lemma parse_digit c : is_byte c ->
  if is_digit 10 c then u64 (schar c - 48) = c - 48 /\ (9 <? u64 (schar c - 48)) = false
  else (9 <? u64 (schar c - 48)) = true.
Proof.
  intros Hc. enough ((if is_digit 10 c then (u64 (schar c - 48) =? c - 48) && negb (9 <? u64 (schar c - 48))
    else 9 <? u64 (schar c - 48)) = true) as H.
  { destruct (is_digit 10 c); [|done]. apply andb_true_iff in H as [H1 H2].
    apply Z.eqb_eq in H1. by apply negb_true_iff in H2. }
  revert c Hc. apply byte_check. vm_compute. reflexivity.
Qed.

Lemma numeral_fold_u64 ds a :
  foldl (fun a c => u64 (a * 10 + (c - 48))) (u64 a) ds = u64 (foldl (fun a c => a * 10 + (c - 48)) a ds).
Proof.
  revert a; induction ds as [|c ds IH]; intros a; [done|]. cbn [foldl].
  rewrite <- IH. f_equal. unfold u64. rewrite <- Z.add_mod_idemp_l, Z.mul_mod_idemp_l, Z.add_mod_idemp_l by lia. done.
Qed.

Lemma parse_size_loop_spec hdr size r rest :
  bytes_ok hdr ->
  parse_size_loop hdr size = Ret (r, rest) <->
  exists ds c rest', hdr = ds ++ c :: rest' /\ rest = c :: rest' /\ Forall (fun c => is_digit 10 c = true) ds /\
    is_digit 10 c = false /\ r = foldl (fun a c => u64 (a * 10 + (c - 48))) size ds.
Proof.
  revert size; induction hdr as [|c hdr IH]; intros size Hok; cbn [parse_size_loop].
  { split; [done|]. intros (ds&c&rest'&E&_). by destruct ds. }
  apply bytes_ok_cons in Hok as [Hc Hok]. pose proof (parse_digit c Hc) as Hd.
  destruct (is_digit 10 c) eqn:E10.
  - destruct Hd as [-> ->]. rewrite IH by done. split.
    + intros (ds&c'&rest'&->&->&HF&Hc'&->). exists (c :: ds), c', rest'. split_and!; [done|done|by constructor|done|done].
    + intros ([|x ds]&c'&rest'&E&->&HF&Hc'&->); simpl in E; injection E as <- Ehdr; [congruence|].
      apply Forall_cons in HF as [_ HF]. exists ds, c', rest'. done.
  - rewrite Hd. split.
    + intros [= <- <-]. exists [], c, hdr. split_and!; [done|done|constructor|done|done].
    + intros ([|x ds]&c'&rest'&E&->&HF&Hc'&->); simpl in E; injection E as <- Ehdr; [by subst|].
      apply Forall_cons in HF as [? _]. congruence.
Qed.

Lemma rd_0 hdr z : rd hdr 0 = Ret z <-> exists t, hdr = z :: t.
Proof.
  destruct hdr as [|x t]; cbn.
  - split; [done|]. by intros [? [=]].
  - split; [intros [= ->]; eauto|]. by intros [? [= -> _]].
Qed.

Lemma u64_digit_0 c : is_digit 10 c = true -> (c - 48 =? 0) = (c =? 48).
Proof. destruct (Z.eqb_spec (c - 48) 0), (Z.eqb_spec c 48); lia. Qed.

Lemma canonical_cons c ds :
  canonical 10 (c :: ds) <-> is_digit 10 c = true /\ Forall (fun c => is_digit 10 c = true) ds /\ (c = 48 -> ds = []).
Proof.
  unfold canonical. rewrite Forall_cons. simpl. split.
  - intros ((Hc&HF)&_&Hz). split_and!; [done|done|]. intros ->. by specialize (Hz eq_refl) as [= ->].
  - intros (Hc&HF&Hz). split_and!; [done|done|done|]. intros [= ->]. by rewrite Hz.
Qed.

Lemma numeral_value_u64 c ds : is_digit 10 c = true ->
  foldl (fun a c => u64 (a * 10 + (c - 48))) (c - 48) ds = u64 (numeral_value 10 (c :: ds)).
Proof.
  intros Hc. apply is_digit_iff in Hc. rewrite <- (u64_small (c - 48)) by lia. by rewrite numeral_fold_u64.
Qed.

(** The part of the header after the type. *)
Definition parse_length (hdr : bytes) : outcome (option Z) :=
  c ← rd hdr 0;
  let size := u64 (schar c - 48) in
  if 9 <? size then Ret None
  else
    r ← (if size =? 0 then Ret (size, tail hdr) else parse_size_loop (tail hdr) size);
    let '(size, hdr) := r in
    z ← rd hdr 0;
    Ret (if z =? 0 then Some size else None).

Lemma parse_length_spec hdr size :
  bytes_ok hdr ->
  (parse_length hdr = Ret (Some size)) <->
  exists ds rest, hdr = ds ++ [0] ++ rest /\ canonical 10 ds /\ size = u64 (numeral_value 10 ds).
Proof.
  intros Hok. unfold parse_length. destruct hdr as [|c hdr].
  { split; [done|]. intros (ds&rest&E&_). by destruct ds. }
  apply bytes_ok_cons in Hok as [Hc Hok]. change (rd (c :: hdr) 0) with (Ret c). rewrite bind_Ret.
  pose proof (parse_digit c Hc) as Hd. destruct (is_digit 10 c) eqn:Hdig; cbv zeta.
  2:{ rewrite Hd. split; [done|]. intros ([|x ds]&rest&E&Hcan&_); [by destruct Hcan as (_&?&_)|].
      injection E as <- _. apply canonical_cons in Hcan as (?&_). congruence. }
  destruct Hd as [-> ->]. cbn [tail]. rewrite u64_digit_0 by done. destruct (Z.eqb_spec c 48) as [->|Hnz].
  - rewrite bind_Ret. split.
    + intros (z&Hz&E)%bind_Ret_inv. apply rd_0 in Hz as [rest ->].
      destruct (Z.eqb_spec z 0) as [->|]; [|done]. injection E as <-. exists [48], rest.
      split_and!; [done| |done]. apply canonical_cons. by split_and!.
    + intros ([|x ds]&rest&E&Hcan&->); [by destruct Hcan as (_&?&_)|]. injection E as <- ->.
      apply canonical_cons in Hcan as (_&_&Hds). by rewrite Hds.
  - split.
    + intros ([r hdr']&Hl&(z&Hz&E)%bind_Ret_inv)%bind_Ret_inv.
      apply parse_size_loop_spec in Hl as (ds&c'&rest&->&->&HF&Hc'&->); [|done].
      apply rd_0 in Hz as [t [= <- <-]]. destruct (Z.eqb_spec c' 0) as [->|]; [|done]. injection E as <-.
      exists (c :: ds), rest. split_and!; [done| |by apply numeral_value_u64]. apply canonical_cons. by split_and!.
    + intros ([|x ds]&rest&E&Hcan&->); [by destruct Hcan as (_&?&_)|]. injection E as <- ->.
      apply canonical_cons in Hcan as (_&HF&_).
      assert (Hl : parse_size_loop (ds ++ 0 :: rest) (c - 48) =
        Ret (foldl (fun a c => u64 (a * 10 + (c - 48))) (c - 48) ds, 0 :: rest)).
      { apply parse_size_loop_spec; [done|]. exists ds, 0, rest. by split_and!. }
      rewrite Hl, numeral_value_u64 by done. done.
Qed.

Lemma parse_sha1_header_length hdr :
  parse_sha1_header hdr =
    (r ← parse_type 10 hdr [];
     match r with
     | None => Ret None
     | Some (type, hdr) => s ← parse_length hdr; Ret (option_map (pair type) s)
     end).
Proof.
  unfold parse_sha1_header, parse_length. destruct (parse_type 10 hdr []) as [[[type rest]|]| |]; [|done..].
  rewrite !bind_Ret. destruct (rd rest 0) as [c| |]; [|done..]. rewrite !bind_Ret. cbv zeta.
  destruct (9 <? _); [done|]. destruct (if u64 _ =? 0 then _ else _) as [[size h]| |]; [|done..].
  rewrite !bind_Ret. destruct (rd h 0) as [z| |]; [|done..]. rewrite !bind_Ret. by destruct (z =? 0).
Qed.

(** [parse_sha1_header] accepts exactly the texts
    [<type> SP <length> NUL] with a type of at most nine bytes and a length
    in canonical decimal (no sign, no leading zero, no other byte), and
    returns that type and that length modulo the width of [unsigned long]. *)
Theorem parse_sha1_header_spec (hdr type : bytes) (size : Z) :
  bytes_ok hdr ->
  (parse_sha1_header hdr = Ret (Some (type, size))) <->
  exists ds rest, hdr = type ++ [32] ++ ds ++ [0] ++ rest /\ 32 ∉ type /\ (length type <= 9)%nat /\
    canonical 10 ds /\ size = u64 (numeral_value 10 ds).
Proof.
  intros Hok. rewrite parse_sha1_header_length. split.
  - intros ([[t rest]|]&Ht&E)%bind_Ret_inv; [|done].
    apply bind_Ret_inv in E as ([s|]&Hs&E); [|done]. injection E as -> ->.
    apply parse_type_spec in Ht as (t&->&->&Hin&Hlt). rewrite app_nil_l in *.
    apply bytes_ok_app in Hok as [_ Hok]. apply bytes_ok_app in Hok as [_ Hok].
    apply parse_length_spec in Hs as (ds&r&->&Hcan&->); [|done]. by exists ds, r.
  - intros (ds&rest&->&Hin&Hlt&Hcan&->).
    assert (Ht : parse_type 10 (type ++ [32] ++ ds ++ [0] ++ rest) [] = Ret (Some (type, ds ++ [0] ++ rest))).
    { apply parse_type_spec. by exists type. }
    apply bytes_ok_app in Hok as [_ Hok]. apply bytes_ok_app in Hok as [_ Hok].
    rewrite Ht, bind_Ret.
    assert (Hs : parse_length (ds ++ [0] ++ rest) = Ret (Some (u64 (numeral_value 10 ds)))).
    { apply parse_length_spec; [done|]. by exists ds, rest. }
    by rewrite Hs.
Qed.

Lemma parse_sha1_header_spec_witness :
  bytes_ok (str "blob 12" ++ [0; 7]) /\ parse_sha1_header (str "blob 12" ++ [0; 7]) = Ret (Some (str "blob", 12)).
Proof.
  assert (H : bytes_ok (str "blob 12" ++ [0; 7])) by (apply (bool_decide_unpack _); vm_compute; exact I).
  split; [exact H|]. apply (parse_sha1_header_spec _ _ _ H).
  exists (str "12"), [7]. split; [reflexivity|]. split; [apply not_elem_check; reflexivity|].
  split; [vm_compute; lia|]. split; [|reflexivity]. split; [repeat constructor|]. split; done.
Defined.

(** ** Headers and names of objects *)

Lemma is_digit_byte c : is_digit 10 c = true -> is_byte c.
Proof. rewrite is_digit_iff. unfold is_byte. lia. Qed.

Lemma numeral_ok n : 0 <= n -> bytes_ok (numeral 10 n).
Proof.
  intros Hn. destruct (numeral_spec 10 ltac:(lia) n Hn) as [_ [HF _]].
  eapply Forall_impl; [exact HF|]. apply is_digit_byte.
Qed.

Lemma object_header_ok type len : bytes_ok type -> 0 <= len -> bytes_ok (object_header type len).
Proof.
  intros. unfold object_header. pose proof (numeral_ok len). repeat apply bytes_ok_app_2; auto;
    apply bytes_ok_single; unfold is_byte; lia.
Qed.

Lemma parse_object_header type len rest :
  type_ok type -> bytes_ok rest -> 0 <= len < 2 ^ 64 ->
  parse_sha1_header (object_header type len ++ rest) = Ret (Some (type, len)).
Proof.
  intros (Hl&Hok&Hin) Hr Hlen. destruct (numeral_spec 10 ltac:(lia) len ltac:(lia)) as [Hv Hcan].
  apply parse_sha1_header_spec; [apply bytes_ok_app_2; [apply object_header_ok; [done|lia]|done]|].
  exists (numeral 10 len), rest. split_and!; [|done|done|done|by rewrite Hv, u64_small].
  unfold object_header. by rewrite <- !app_assoc.
Qed.

(** A number below [10 ^ k] has at most [k] digits. *)
Lemma numeral_length k n : 0 <= n < 10 ^ Z.of_nat (S k) -> (length (numeral 10 n) <= S k)%nat.
Proof.
  unfold numeral. generalize (Z.to_nat (Z.log2 n)). intros fuel; revert k n.
  induction fuel as [|fuel IH]; intros k n Hn; cbn [digits]; [simpl; lia|].
  destruct (Z.ltb_spec n 10); [simpl; lia|]. destruct k as [|k]; [change (10 ^ Z.of_nat 1) with 10 in Hn; lia|].
  rewrite length_app. simpl length. enough (length (digits 10 fuel (n / 10)) <= S k)%nat by lia.
  apply IH. split; [apply Z.div_pos; lia|]. apply Z.div_lt_upper_bound; [lia|].
  rewrite Nat2Z.inj_succ, Z.pow_succ_r in Hn by lia. lia.
Qed.

Lemma sprintf_hdr_fits cap type len :
  (length type <= 9)%nat -> (32 <= cap)%nat -> 0 <= len < 2 ^ 64 -> sprintf_hdr cap type len = Ret (object_header type len).
Proof.
  intros Ht Hc Hlen. unfold sprintf_hdr, object_header. cbv zeta.
  pose proof (numeral_length 19 len ltac:(change (10 ^ Z.of_nat 20) with 100000000000000000000; lia)).
  rewrite (proj2 (Nat.leb_le _ _)); [done|]. rewrite !length_app. simpl. lia.
Qed.

Lemma object_header_length type len :
  (length type <= 9)%nat -> 0 <= len < 2 ^ 64 -> (length (object_header type len) <= 31)%nat.
Proof.
  intros Ht Hlen. unfold object_header.
  pose proof (numeral_length 19 len ltac:(change (10 ^ Z.of_nat 20) with 100000000000000000000; lia)).
  rewrite !length_app. simpl. lia.
Qed.

Lemma sha1_object_name type data :
  type_ok type -> bytes_ok data -> Z.of_nat (length data) < 2 ^ 31 ->
  sha1_object (object_header type (Z.of_nat (length data))) data (Z.of_nat (length data)) = object_name type data.
Proof.
  intros (Hl&Hok&_) Hd Hlen. unfold sha1_object, object_name. cbv zeta.
  pose proof (object_header_length type (Z.of_nat (length data)) Hl ltac:(lia)).
  rewrite !SHA1_Update_all, <- foldl_app by lia. rewrite SHA1_Final_stream; [done|].
  apply bytes_ok_app_2; [apply object_header_ok; [done|lia]|done].
Qed.

Lemma object_name_length type data : type_ok type -> bytes_ok data -> length (object_name type data) = 20%nat.
Proof.
  intros (_&Hok&_) Hd. apply length_fips_sha1. apply bytes_ok_app_2; [apply object_header_ok; [done|lia]|done].
Qed.

Lemma write_sha1_file_prepare_eq dir type data :
  type_ok type -> bytes_ok data -> Z.of_nat (length data) < 2 ^ 31 ->
  write_sha1_file_prepare dir data (Z.of_nat (length data)) type =
    Ret (sha1_file_name dir (object_name type data), object_name type data,
         object_header type (Z.of_nat (length data))).
Proof.
  intros Ht Hd Hlen. unfold write_sha1_file_prepare.
  rewrite sprintf_hdr_fits by (destruct Ht; lia). rewrite bind_Ret. cbv zeta. by rewrite sha1_object_name.
Qed.

Lemma check_sha1_signature_eq sha1 type data :
  type_ok type -> bytes_ok data -> Z.of_nat (length data) < 2 ^ 31 -> length sha1 = 20%nat ->
  check_sha1_signature sha1 data (Z.of_nat (length data)) type =
    Ret (if decide (sha1 = object_name type data) then 0 else -1).
Proof.
  intros Ht Hd Hlen Hs. unfold check_sha1_signature.
  rewrite sprintf_hdr_fits by (destruct Ht; lia). rewrite bind_Ret. cbv zeta. rewrite sha1_object_name by done.
  rewrite memcmp_full by (try done; by apply object_name_length).
  destruct (decide _) as [->|Hne]; [by rewrite lexcmp_refl|].
  destruct (Z.eqb_spec (lexcmp sha1 (object_name type data)) 0) as [E|]; [|done]. by apply lexcmp_eq in E.
Qed.

(** The header [write_sha1_file_prepare] puts in front of an object is
    read back by [parse_sha1_header] as the same type and length whatever
    follows; the name it computes is the FIPS SHA-1 of header and contents,
    and [check_sha1_signature] accepts that name and no other for the
    contents.  All of it for contents an [int] length describes. *)
Theorem object_header_roundtrip (dir type data sha1 rest : bytes) :
  type_ok type -> bytes_ok data -> bytes_ok rest -> length sha1 = 20%nat ->
  Z.of_nat (length data) < 2 ^ 31 ->
  exists hdr,
    write_sha1_file_prepare dir data (Z.of_nat (length data)) type =
      Ret (sha1_file_name dir (Fips.sha1 (hdr ++ data)), Fips.sha1 (hdr ++ data), hdr) /\
    parse_sha1_header (hdr ++ rest) = Ret (Some (type, Z.of_nat (length data))) /\
    check_sha1_signature sha1 data (Z.of_nat (length data)) type =
      Ret (if decide (sha1 = Fips.sha1 (hdr ++ data)) then 0 else -1).
Proof.
  intros Ht Hd Hr Hs Hl. exists (object_header type (Z.of_nat (length data))).
  split; [by apply write_sha1_file_prepare_eq|]. split; [apply parse_object_header; [done|done|lia]|].
  by apply check_sha1_signature_eq.
Qed.

(** The name of the one-line blob that [echo hi] makes. *)
Definition blob_hi : bytes := str "hi" ++ [10].

Lemma blob_type_ok : type_ok (str "blob").
Proof. split; [vm_compute; lia|]. split; [apply str_bytes_ok|apply not_elem_check; reflexivity]. Qed.

Lemma blob_hi_ok : bytes_ok blob_hi.
Proof. apply (bool_decide_unpack _). vm_compute. exact I. Qed.

Lemma object_header_roundtrip_witness :
  exists hdr,
    write_sha1_file_prepare (str "objects") blob_hi 3 (str "blob") =
      Ret (sha1_file_name (str "objects") (Fips.sha1 (hdr ++ blob_hi)), Fips.sha1 (hdr ++ blob_hi), hdr) /\
    parse_sha1_header (hdr ++ []) = Ret (Some (str "blob", 3)) /\
    check_sha1_signature (Fips.sha1 []) blob_hi 3 (str "blob") =
      Ret (if decide (Fips.sha1 [] = Fips.sha1 (hdr ++ blob_hi)) then 0 else -1).
Proof.
  apply (object_header_roundtrip (str "objects") (str "blob") blob_hi (Fips.sha1 []) []
    blob_type_ok blob_hi_ok bytes_ok_nil); [vm_compute; reflexivity|vm_compute; reflexivity].
Defined.
