(* ===== verification/PackEntry.v ===== *)
(** * Objects in a pack

    The variable-length header of a packed object, written by
    [encode_header] (test_git/pack-objects.c) and read by
    [unpack_object_header] (test_git/sha1_file.c), and the functions of
    sha1_file.c that get an object out of a pack: [unpack_non_delta_entry],
    [unpack_delta_entry], [unpack_entry_gently] and [packed_object_info] with
    [packed_delta_info].  A pack is its mapped bytes, an entry of it an
    offset; [None] is a computation that has not ended (a cycle of deltas
    recurses for ever). *)

From stdpp Require Import base list numbers strings.
From Stdlib Require Import ZArith Lia.
From S2P Require Import Prelude.
From S2P Require Import Sha1.
From S2P Require Import Delta.
From S2P Require Import PktLine.
From S2P Require Import CsumFile.
From S2P Require Import PackIndex.
From S2P Require Import Zlib.

(** ** Code: the object header *)

(** [enum object_type] *)
Definition OBJ_EXT : Z := 0.
Definition OBJ_COMMIT : Z := 1.
Definition OBJ_TREE : Z := 2.
Definition OBJ_BLOB : Z := 3.
Definition OBJ_TAG : Z := 4.
Definition OBJ_DELTA : Z := 7.

(** [while (size)]: a 64-bit size less its four low bits has at most nine
    groups of seven bits. *)
Fixpoint encode_header_loop (fuel : nat) (c size : Z) (hdr : bytes) : bytes :=
  match fuel with
  | O => hdr ++ [c]
  | S fuel =>
      if size =? 0 then hdr ++ [c]
      else encode_header_loop fuel (Z.land size 0x7f) (Z.shiftr size 7) (hdr ++ [Z.lor c 0x80])
  end.

Definition encode_header (type size : Z) : outcome bytes :=
  if (type <? OBJ_COMMIT) || (OBJ_DELTA <? type) then Die
  else
    let c := u8 (Z.lor (Z.shiftl type 4) (Z.land size 15)) in
    Ret (encode_header_loop 9 c (Z.shiftr size 4) []).

(** [while (c & 0x80)]: the shift of an [int] by 32 or more has no meaning,
    so the fuel (the shifts 4, 11, 18, 25, 32) is never used up. *)
Fixpoint unpack_size_loop (fuel : nat) (pack : bytes) (offset c size shift : Z) : outcome (Z * Z) :=
  if Z.land c 0x80 =? 0 then Ret (offset, size)
  else
    match fuel with
    | O => Ub
    | S fuel =>
        if Z.of_nat (length pack) <=? offset then Die
        else
          c ← rd pack offset;
          if 32 <=? shift then Ub
          else
            unpack_size_loop fuel pack (offset + 1) c
              (u64 (size + u64 (i32 (Z.shiftl (Z.land c 0x7f) shift)))) (shift + 7)
    end.

(** Returns the offset behind the header, the type and the size. *)
Definition unpack_object_header (pack : bytes) (offset : Z) : outcome (Z * Z * Z) :=
  if Z.of_nat (length pack) <=? offset then Die
  else
    c ← rd pack offset;
    let type := Z.land (Z.shiftr c 4) 7 in
    r ← unpack_size_loop 5 pack (offset + 1) c (Z.land c 15) 4;
    let '(offset, size) := r in
    Ret (offset, type, size).

(** ** Code: unpacking *)

(** [switch (kind)] with its [strcpy]; [None] is the [default] case. *)
Definition kind_name (kind : Z) : option bytes :=
  if kind =? OBJ_COMMIT then Some (str "commit")
  else if kind =? OBJ_TREE then Some (str "tree")
  else if kind =? OBJ_BLOB then Some (str "blob")
  else if kind =? OBJ_TAG then Some (str "tag")
  else None.

Section Unpacking.
Context `{Zlib} (malloc_ok : Z -> bool).

(** One [inflate(Z_FINISH)] of the [left] bytes at [offset] into [size] bytes:
    [stream.avail_in] and [stream.avail_out] are 32 bits wide.  [Some] when
    the stream ended and filled the buffer. *)
Definition inflate_entry (pack : bytes) (offset left size : Z) : option bytes :=
  let '(st, out) := inflate true (slice (Z.to_nat offset) (Z.to_nat (u32 left)) pack) 0 (Z.to_nat (u32 size)) in
  if bool_decide (st = Z_STREAM_END) && (Z.of_nat (length out) =? size) then Some out else None.

(** [None] is the result NULL. *)
Definition unpack_non_delta_entry (pack : bytes) (offset size left : Z) : option bytes :=
  inflate_entry pack offset left size.

(** [rec] is the call of [unpack_entry_gently] on the base. *)
Definition unpack_delta_entry (rec : Z -> io (option (bytes * bytes))) (idx pack : bytes)
    (offset delta_size left : Z) : io (option (bytes * bytes)) :=
  if left <? 20 then Some Die
  else
    match inflate_entry pack (offset + 20) (left - 20) delta_size with
    | None => Some Die
    | Some delta_data =>
        let base_sha1 := slice (Z.to_nat offset) 20 pack in
        r <- Some (find_pack_entry_one idx base_sha1) ;;
        match r with
        | None => Some Die
        | Some base_offset =>
            b <- rec base_offset ;;
            match b with
            | None => Some Die
            | Some (type, base) =>
                r <- Some (patch_delta malloc_ok base delta_data delta_size) ;;
                match r with
                | None => Some Die
                | Some result => io_ret (Some (type, result))
                end
            end
        end
    end.

(** [Some (type, data)] is the buffer returned with [*type] and [*sizep]. *)
Fixpoint unpack_entry_gently (fuel : nat) (idx pack : bytes) (entry_offset : Z) : io (option (bytes * bytes)) :=
  match fuel with
  | O => None
  | S fuel =>
      h <- Some (unpack_object_header pack entry_offset) ;;
      let '(offset, kind, size) := h in
      let left := Z.of_nat (length pack) - offset in
      if kind =? OBJ_DELTA then
        unpack_delta_entry (unpack_entry_gently fuel idx pack) idx pack offset size left
      else
        match kind_name kind with
        | None => io_ret None
        | Some type => io_ret (pair type <$> unpack_non_delta_entry pack offset size left)
        end
  end.

(** [delta_head[64]] and the second of the two sizes in it; fewer bytes are
    accepted only at the end of the stream. *)
Definition delta_result_size (pack : bytes) (offset left : Z) : outcome Z :=
  let '(st, out) := inflate true (slice (Z.to_nat offset) (Z.to_nat (u32 left)) pack) 0 64 in
  if negb (bool_decide (st = Z_STREAM_END)) && negb (length out =? 64)%nat then Die
  else
    r ← get_delta_hdr_size out 0;
    r ← get_delta_hdr_size out (snd r);
    Ret (fst r).

(** The size is computed when the caller asks for it ([sizep]). *)
Definition packed_delta_info (rec : Z -> io (bytes * option Z)) (idx pack : bytes)
    (offset left : Z) (sizep : bool) : io (bytes * option Z) :=
  if left <? 20 then Some Die
  else
    r <- Some (find_pack_entry_one idx (slice (Z.to_nat offset) 20 pack)) ;;
    match r with
    | None => Some Die
    | Some base_offset =>
        b <- rec base_offset ;;
        if sizep then
          size <- Some (delta_result_size pack (offset + 20) (left - 20)) ;;
          io_ret (fst b, Some size)
        else io_ret (fst b, None)
    end.

Fixpoint packed_object_info (fuel : nat) (idx pack : bytes) (entry_offset : Z) (sizep : bool)
    : io (bytes * option Z) :=
  match fuel with
  | O => None
  | S fuel =>
      h <- Some (unpack_object_header pack entry_offset) ;;
      let '(offset, kind, size) := h in
      let left := Z.of_nat (length pack) - offset in
      if kind =? OBJ_DELTA then
        packed_delta_info (fun o => packed_object_info fuel idx pack o false) idx pack offset left sizep
      else
        match kind_name kind with
        | None => Some Die
        | Some type => io_ret (type, if sizep then Some size else None)
        end
  end.

End Unpacking.

(** ** The header round trip *)

(** The bytes of [encode_header] after the first, and the first. *)
Fixpoint header_bytes (fuel : nat) (c z : Z) : bytes :=
  match fuel with
  | O => [c]
  | S fuel => if z =? 0 then [c] else (c + 128) :: header_bytes fuel (z mod 128) (z / 128)
  end.

Lemma lor_high_bit c : 0 <= c < 128 -> Z.lor c 0x80 = c + 128.
Proof.
  intros Hc. pose proof (range_check (fun c => Z.lor c 0x80 =? c + 128) 0 128 ltac:(vm_compute; reflexivity) c ltac:(lia)) as H.
  by apply Z.eqb_eq in H.
Qed.

Lemma encode_header_loop_bytes fuel c z hdr :
  0 <= c < 128 -> encode_header_loop fuel c z hdr = hdr ++ header_bytes fuel c z.
Proof.
  revert c z hdr; induction fuel as [|fuel IH]; intros c z hdr Hc; cbn [encode_header_loop header_bytes]; [done|].
  destruct (z =? 0); [done|]. change 0x7f with (Z.ones 7). rewrite Z.land_ones, Z.shiftr_div_pow2 by lia.
  change (2 ^ 7) with 128. rewrite IH by dm_lia. by rewrite lor_high_bit, <- app_assoc.
Qed.

Lemma land_7f c : is_byte c -> Z.land c 0x7f = c mod 128.
Proof. intros. change 0x7f with (Z.ones 7). by rewrite Z.land_ones by lia. Qed.

Lemma header_bytes_head fuel c z : exists t, header_bytes fuel c z =
  (if decide (fuel = 0%nat \/ z = 0) then c else c + 128) :: t.
Proof.
  destruct fuel; cbn [header_bytes]; [by eexists|]. destruct (Z.eqb_spec z 0) as [->|]; [by eexists|].
  rewrite decide_False by lia. by eexists.
Qed.

Lemma unpack_size_loop_spec fe fuel P c z R acc shift b t :
  0 <= c < 128 -> 0 <= z < 128 ^ Z.of_nat fe -> 0 <= acc -> 0 <= shift ->
  acc + z * 2 ^ shift < 2 ^ 31 -> 32 - shift <= 7 * Z.of_nat fuel ->
  header_bytes fe c z = b :: t ->
  unpack_size_loop fuel (P ++ t ++ R) (Z.of_nat (length P)) b acc shift =
    Ret (Z.of_nat (length P + length t), acc + z * 2 ^ shift).
Proof.
  revert fuel P c z acc shift b t; induction fe as [|fe IH]; intros fuel P c z acc shift b t Hc Hz Ha Hs Hb Hf E.
  - cbn [header_bytes] in E. injection E as <- <-. change (128 ^ Z.of_nat 0) with 1 in Hz. assert (z = 0) as -> by lia.
    assert (Hl : Z.land c 0x80 = 0) by (apply land_0x80; unfold is_byte; lia).
    destruct fuel; cbn [unpack_size_loop]; rewrite Hl, Z.eqb_refl; f_equal; f_equal; simpl; lia.
  - cbn [header_bytes] in E. destruct (Z.eqb_spec z 0) as [->|Hz0].
    { injection E as <- <-. assert (Hl : Z.land c 0x80 = 0) by (apply land_0x80; unfold is_byte; lia).
      destruct fuel; cbn [unpack_size_loop]; rewrite Hl, Z.eqb_refl; f_equal; f_equal; simpl; lia. }
    injection E as <- Et. set (c' := z mod 128) in *. set (z' := z / 128) in *.
    assert (Hc' : 0 <= c' < 128 /\ z = c' + 128 * z' /\ 0 <= z') by (unfold c', z'; dm_lia).
    destruct (header_bytes_head fe c' z') as [t' Et']. rewrite Et' in Et. subst t.
    set (b' := if decide (fe = 0%nat \/ z' = 0) then c' else c' + 128) in *.
    assert (Hb' : is_byte b' /\ b' mod 128 = c').
    { unfold b', is_byte. destruct (decide _); [rewrite Z.mod_small by lia; lia|].
      rewrite <- (Z.mul_1_l 128) at 3. rewrite Z.mod_add, Z.mod_small by lia. lia. }
    pose proof (Z.pow_pos_nonneg 2 shift ltac:(lia) Hs) as Hp.
    assert (Hsh : shift < 31).
    { destruct (Z.lt_ge_cases shift 31) as [|Hge]; [done|].
      pose proof (Z.pow_le_mono_r 2 31 shift ltac:(lia) Hge). nia. }
    assert (Hl : Z.land (c + 128) 0x80 <> 0) by (rewrite land_0x80 by (unfold is_byte; lia); lia).
    destruct fuel as [|fuel]; [lia|]. cbn [unpack_size_loop]. rewrite (proj2 (Z.eqb_neq _ _) Hl).
    rewrite (proj2 (Z.leb_gt _ _)) by (rewrite !length_app; cbn [length]; lia).
    change ((b' :: t') ++ R) with (b' :: (t' ++ R)). rewrite rd_app_l by done. rewrite bind_Ret.
    rewrite (proj2 (Z.leb_gt _ _)) by lia. rewrite land_7f by apply Hb'. rewrite (proj2 Hb').
    assert (Hz' : z * 2 ^ shift = c' * 2 ^ shift + z' * 2 ^ (shift + 7)).
    { rewrite Z.pow_add_r by lia. change (2 ^ 7) with 128. rewrite (proj1 (proj2 Hc')). ring. }
    assert (0 <= z' * 2 ^ (shift + 7)) by (apply Z.mul_nonneg_nonneg; lia).
    rewrite int_shift_small, Z.shiftl_mul_pow2, u64_small by nia.
    replace (P ++ b' :: t' ++ R) with ((P ++ [b']) ++ t' ++ R) by (by rewrite <- app_assoc).
    replace (Z.of_nat (length P) + 1) with (Z.of_nat (length (P ++ [b']))) by (rewrite length_app; cbn [length]; lia).
    assert (Hz'' : z' < 128 ^ Z.of_nat fe).
    { rewrite Nat2Z.inj_succ, Z.pow_succ_r in Hz by lia. lia. }
    rewrite (IH fuel (P ++ [b']) c' z'); [|lia|lia|nia|lia|lia|lia|done].
    f_equal. f_equal; [rewrite length_app; cbn [length]; lia|lia].
Qed.

(** The header of an object, as [encode_header] writes it. *)
Definition object_hdr (type size : Z) : bytes := header_bytes 9 (16 * type + size mod 16) (size / 16).

Lemma encode_header_eq type size :
  1 <= type <= 7 -> 0 <= size -> encode_header type size = Ret (object_hdr type size).
Proof.
  intros Ht Hs. unfold encode_header, OBJ_COMMIT, OBJ_DELTA.
  rewrite (proj2 (Z.ltb_ge type 1)), (proj2 (Z.ltb_ge 7 type)) by lia. cbn [orb].
  change 15 with (Z.ones 4). rewrite Z.land_ones, lor_shiftl_add, Z.shiftr_div_pow2 by dm_lia.
  change (2 ^ 4) with 16. assert (0 <= size mod 16 < 16) by dm_lia.
  rewrite u8_small, encode_header_loop_bytes by lia. unfold object_hdr. by rewrite Z.mul_comm.
Qed.

Lemma unpack_object_header_eq P type size R :
  1 <= type <= 7 -> 0 <= size < 2 ^ 31 ->
  unpack_object_header (P ++ object_hdr type size ++ R) (Z.of_nat (length P)) =
    Ret (Z.of_nat (length P + length (object_hdr type size)), type, size).
Proof.
  intros Ht Hs. unfold unpack_object_header. unfold object_hdr at 1 2 3.
  destruct (header_bytes_head 9 (16 * type + size mod 16) (size / 16)) as [t Et].
  assert (Hm : 0 <= size mod 16 < 16) by dm_lia.
  set (b := if decide _ then _ else _) in Et. rewrite Et.
  rewrite (proj2 (Z.leb_gt _ _)) by (rewrite !length_app; cbn [length]; lia).
  change ((b :: t) ++ R) with (b :: (t ++ R)). rewrite rd_app_l by done. rewrite bind_Ret.
  assert (Hb : Z.land (Z.shiftr b 4) 7 = type /\ Z.land b 15 = size mod 16).
  { change 7 with (Z.ones 3). change 15 with (Z.ones 4). rewrite !Z.land_ones, Z.shiftr_div_pow2 by lia.
    change (2 ^ 3) with 8. change (2 ^ 4) with 16.
    assert (exists q, (q = 0 \/ q = 8) /\ b = size mod 16 + (type + q) * 16) as (q&Hq&->).
    { subst b. destruct (decide _); [exists 0|exists 8]; lia. }
    rewrite Z.div_add, Z.div_small by lia. split; [destruct Hq as [->| ->]; dm_lia|].
    rewrite Z.mod_add by lia. by apply Z.mod_small. }
  destruct Hb as [-> ->].
  replace (P ++ b :: t ++ R) with ((P ++ [b]) ++ t ++ R) by (by rewrite <- app_assoc).
  replace (Z.of_nat (length P) + 1) with (Z.of_nat (length (P ++ [b]))) by (rewrite length_app; cbn [length]; lia).
  rewrite (unpack_size_loop_spec 9 5 (P ++ [b]) (16 * type + size mod 16) (size / 16));
    [|lia| |lia|lia|change (2 ^ 4) with 16; dm_lia|lia|done].
  - rewrite bind_Ret. unfold object_hdr. rewrite Et. f_equal. f_equal; [f_equal|]; rewrite ?length_app; cbn [length]; [lia|].
    change (2 ^ 4) with 16. dm_lia.
  - split; [dm_lia|]. eapply (Z.lt_trans _ (2 ^ 31)); [dm_lia|vm_compute; reflexivity].
Qed.

(** The header that [encode_header] writes for an object of less than
    2 GiB is read back by [unpack_object_header] wherever it stands in a pack:
    same type, same size, and the offset of the first byte behind it.  A type
    outside of the enumeration ends the process. *)
Theorem pack_header_roundtrip (type size : Z) (P R : bytes) :
  0 <= size < 2 ^ 31 ->
  if (1 <=? type) && (type <=? 7) then
    exists hdr, encode_header type size = Ret hdr /\
      unpack_object_header (P ++ hdr ++ R) (Z.of_nat (length P)) =
        Ret (Z.of_nat (length P + length hdr), type, size)
  else encode_header type size = Die.
Proof.
  intros Hs. destruct (Z.leb_spec 1 type), (Z.leb_spec type 7); cbn [andb].
  - exists (object_hdr type size). split; [apply encode_header_eq; lia|by apply unpack_object_header_eq].
  - unfold encode_header, OBJ_COMMIT, OBJ_DELTA. by rewrite (proj2 (Z.ltb_lt 7 type)), orb_true_r by lia.
  - unfold encode_header, OBJ_COMMIT. by rewrite (proj2 (Z.ltb_lt type 1)) by lia.
  - unfold encode_header, OBJ_COMMIT. by rewrite (proj2 (Z.ltb_lt type 1)) by lia.
Qed.

Lemma pack_header_roundtrip_witness :
  exists hdr, encode_header 3 100000 = Ret hdr /\
    unpack_object_header ([1; 2; 3] ++ hdr ++ [4]) 3 = Ret (Z.of_nat (3 + length hdr), 3, 100000).
Proof.
  refine (pack_header_roundtrip 3 100000 [1; 2; 3] [4] _). lia.
Defined.

(** From 2 GiB on the two functions disagree: the reader computes the
    high part of the size as an [int]. *)
Example pack_header_2GiB :
  exists hdr, encode_header 3 (2 ^ 31) = Ret hdr /\
    unpack_object_header hdr 0 = Ret (Z.of_nat (length hdr), 3, 2 ^ 64 - 2 ^ 31).
Proof. eexists. split; [vm_compute; reflexivity|]. vm_compute. reflexivity. Qed.

Lemma header_bytes_ok fuel c z : 0 <= c < 128 -> bytes_ok (header_bytes fuel c z).
Proof.
  revert c z; induction fuel as [|fuel IH]; intros c z Hc; cbn [header_bytes].
  - apply bytes_ok_single. unfold is_byte. lia.
  - destruct (z =? 0); [apply bytes_ok_single; unfold is_byte; lia|]. apply bytes_ok_cons.
    split; [unfold is_byte; lia|]. apply IH. apply Z.mod_pos_bound. lia.
Qed.

Lemma object_hdr_ok type size : 1 <= type <= 7 -> bytes_ok (object_hdr type size).
Proof. intros. apply header_bytes_ok. dm_lia. Qed.

Lemma object_hdr_nonempty type size : (1 <= length (object_hdr type size))%nat.
Proof. unfold object_hdr. destruct (header_bytes_head 9 (16 * type + size mod 16) (size / 16)) as [t ->]. simpl. lia. Qed.

(** ** Unpacking what was packed *)

Section Entries.
Context `{ZlibLaws} (malloc_ok : Z -> bool).

Lemma slice_to_end A B n : (length B <= n)%nat -> slice (length A) n (A ++ B) = B.
Proof. intros. unfold slice. rewrite drop_app_length. by apply take_ge. Qed.

Lemma inflate_entry_deflate A level data R (pack := A ++ deflate level [data] ++ R) :
  Z.of_nat (length pack) < 2 ^ 32 -> Z.of_nat (length data) < 2 ^ 32 ->
  inflate_entry pack (Z.of_nat (length A)) (Z.of_nat (length pack) - Z.of_nat (length A)) (Z.of_nat (length data)) =
    Some data.
Proof.
  intros Hp Hd. unfold inflate_entry. rewrite !u32_small by (unfold pack in *; rewrite length_app in *; lia).
  assert (E : slice (length A) (Z.to_nat (Z.of_nat (length pack) - Z.of_nat (length A))) pack = deflate level [data] ++ R).
  { apply slice_to_end. unfold pack. rewrite !length_app. lia. }
  rewrite !Nat2Z.id, E.
  rewrite inflate_finish by lia. cbn [concat]. rewrite app_nil_r, drop_0, take_ge by lia.
  rewrite Nat.add_0_l, Nat.leb_refl. by rewrite bool_decide_true, Z.eqb_refl by done.
Qed.

(** What is found at an offset of a pack. *)
Definition at_offset (pack : bytes) (offset : Z) (bs : bytes) : Prop :=
  exists P R, pack = P ++ bs ++ R /\ offset = Z.of_nat (length P).

Lemma unpack_plain fuel idx pack offset kind type level data :
  kind_name kind = Some type -> Z.of_nat (length pack) < 2 ^ 32 -> Z.of_nat (length data) < 2 ^ 31 ->
  at_offset pack offset (object_hdr kind (Z.of_nat (length data)) ++ deflate level [data]) ->
  unpack_entry_gently malloc_ok (S fuel) idx pack offset = io_ret (Some (type, data)).
Proof.
  intros Hk Hp Hd (P&R&->&->). cbn [unpack_entry_gently]. rewrite <- !app_assoc.
  assert (Hkind : 1 <= kind <= 4).
  { unfold kind_name, OBJ_COMMIT, OBJ_TREE, OBJ_BLOB, OBJ_TAG in Hk.
    destruct (Z.eqb_spec kind 1), (Z.eqb_spec kind 2), (Z.eqb_spec kind 3), (Z.eqb_spec kind 4); (lia || done). }
  rewrite unpack_object_header_eq by lia. cbn [io_bind].
  unfold OBJ_DELTA. rewrite (proj2 (Z.eqb_neq kind 7)) by lia. rewrite Hk. unfold unpack_non_delta_entry.
  rewrite (app_assoc P). rewrite <- length_app. rewrite inflate_entry_deflate; [done| |lia].
  by rewrite <- !app_assoc in *.
Qed.

Lemma unpack_delta fuel idx pack offset base_sha1 base_offset base type level delta data :
  Z.of_nat (length pack) < 2 ^ 32 -> Z.of_nat (length delta) < 2 ^ 31 -> length base_sha1 = 20%nat ->
  at_offset pack offset (object_hdr OBJ_DELTA (Z.of_nat (length delta)) ++ base_sha1 ++ deflate level [delta]) ->
  find_pack_entry_one idx base_sha1 = Ret (Some base_offset) ->
  unpack_entry_gently malloc_ok fuel idx pack base_offset = io_ret (Some (type, base)) ->
  patch_delta malloc_ok base delta (Z.of_nat (length delta)) = Ret (Some data) ->
  unpack_entry_gently malloc_ok (S fuel) idx pack offset = io_ret (Some (type, data)).
Proof.
  intros Hp Hd Hb (P&R&->&->) Hfind Hrec Hpatch. cbn [unpack_entry_gently]. rewrite <- !app_assoc in *.
  rewrite unpack_object_header_eq by (unfold OBJ_DELTA; lia). cbn [io_bind]. rewrite Z.eqb_refl.
  unfold unpack_delta_entry. rewrite <- length_app, (app_assoc P) in *.
  set (A := P ++ object_hdr OBJ_DELTA (Z.of_nat (length delta))) in *.
  rewrite (proj2 (Z.ltb_ge _ _)) by (rewrite !length_app, Hb; lia).
  assert (Hin : inflate_entry (A ++ base_sha1 ++ deflate level [delta] ++ R) (Z.of_nat (length A) + 20)
    (Z.of_nat (length (A ++ base_sha1 ++ deflate level [delta] ++ R)) - Z.of_nat (length A) - 20)
    (Z.of_nat (length delta)) = Some delta).
  { pose proof (inflate_entry_deflate (A ++ base_sha1) level delta R) as Hi.
    rewrite <- app_assoc in Hi. specialize (Hi Hp ltac:(lia)). etransitivity; [|exact Hi]. rewrite (length_app A base_sha1), Hb. f_equal; lia. }
  rewrite Hin, Nat2Z.id. rewrite slice_app_mid by done. rewrite Hfind. cbn [io_bind]. rewrite Hrec.
  cbn [io_bind io_ret]. by rewrite Hpatch.
Qed.

End Entries.
