(* ===== verification/CString.v ===== *)
(** * C strings

    The functions of <string.h> and <stdlib.h> the program applies to text:
    [strlen], [strchr], [strtoul] and [sscanf]'s [%o].  A string is the list of
    bytes from its address to the end of its buffer; it ends at the first NUL.
    The functions [strlen_mem], [strchr_mem], [memcmp_mem] and [strtoul_mem] are
    given memory that ends, and are undefined when they would read behind it.
    At the end, the components of a path. *)

From stdpp Require Import base list numbers strings.
From Stdlib Require Import ZArith Lia.
From S2P Require Import Prelude.

(** The bytes before the first NUL. *)
Fixpoint cstr (l : bytes) : bytes :=
  match l with
  | [] => []
  | c :: l => if c =? 0 then [] else c :: cstr l
  end.

(** [isspace] in the C locale. *)
Definition isspace (c : Z) : bool := (c =? 32) || ((9 <=? c) && (c <=? 13)).

(** The index of the first [c] of a string. *)
Fixpoint strchr (s : bytes) (c : Z) : option nat :=
  match s with
  | [] => None
  | x :: s => if x =? c then Some O else if x =? 0 then None else S <$> strchr s c
  end.

Fixpoint skip_spaces (s : bytes) : bytes :=
  match s with
  | c :: s' => if isspace c then skip_spaces s' else s
  | [] => []
  end.

(** The digits a string starts with, and what follows them. *)
Fixpoint span_digits (b : Z) (s : bytes) : bytes * bytes :=
  match s with
  | c :: s' => if is_digit b c then let '(ds, rest) := span_digits b s' in (c :: ds, rest) else ([], s)
  | [] => ([], [])
  end.

Definition scan_sign (s : bytes) : bool * bytes :=
  match s with
  | c :: s' => if c =? 45 then (true, s') else if c =? 43 then (false, s') else (false, s)
  | [] => (false, [])
  end.

(** The number a numeral denotes to [strtoul]: [ULONG_MAX] when it does not
    fit, negated modulo 2^64 after a minus sign. *)
Definition ulong_value (b : Z) (neg : bool) (ds : bytes) : Z :=
  let v := numeral_value b ds in
  if 2 ^ 64 <=? v then 2 ^ 64 - 1 else if neg then u64 (- v) else v.

(** The value and the end pointer. *)
Definition strtoul (b : Z) (s : bytes) : Z * bytes :=
  let '(neg, t) := scan_sign (skip_spaces s) in
  match span_digits b t with
  | ([], _) => (0, s)
  | (ds, rest) => (ulong_value b neg ds, rest)
  end.

(** [sscanf(s, "%o", &x)] for an [unsigned int x]; [None] when it does not
    return 1. *)
Definition sscanf_o (s : bytes) : option Z :=
  let '(neg, t) := scan_sign (skip_spaces s) in
  match span_digits 8 t with
  | ([], _) => None
  | (ds, _) => Some (u32 (ulong_value 8 neg ds))
  end.

(** *** Strings that may not end

    The same over memory of which only the bytes of the list may be read:
    running off its end is undefined. *)

Fixpoint strlen_mem (m : bytes) : outcome nat :=
  match m with
  | [] => Ub
  | c :: m => if c =? 0 then Ret O else n ← strlen_mem m; Ret (S n)
  end.

Fixpoint strchr_mem (m : bytes) (c : Z) : outcome (option nat) :=
  match m with
  | [] => Ub
  | x :: m => if x =? c then Ret (Some O) else if x =? 0 then Ret None else k ← strchr_mem m c; Ret (option_map S k)
  end.

(** [memcmp] with a literal, up to the first difference. *)
Fixpoint memcmp_mem (lit m : bytes) : outcome Z :=
  match lit, m with
  | [], _ => Ret 0
  | _, [] => Ub
  | x :: lit, y :: m => if x <? y then Ret (-1) else if y <? x then Ret 1 else memcmp_mem lit m
  end.

(** [strtoul] reads one byte behind the digits. *)
Definition strtoul_mem (b : Z) (m : bytes) : outcome Z :=
  match span_digits b (scan_sign (skip_spaces m)).2 with
  | (_, []) => Ub
  | _ => Ret (fst (strtoul b m))
  end.

(** The byte behind a buffer, if it is known to be a NUL. *)
Definition nul_byte (nul : bool) : bytes := if nul then [0] else [].

Example strtoul_ex : strtoul 10 (32 :: 45 :: str "12x") = (2 ^ 64 - 12, str "x").
Proof. reflexivity. Qed.

Example sscanf_o_ex : sscanf_o (str "100644 name") = Some 0x81a4.
Proof. reflexivity. Qed.

(** ** Lemmas *)

Lemma cstr_app l r : 0 ∉ l -> cstr (l ++ 0 :: r) = l.
Proof.
  induction l as [|c l IH]; intros Hn; [done|]. apply not_elem_of_cons in Hn as [Hc Hn]. cbn.
  destruct (Z.eqb_spec c 0) as [->|]; [done|]. by rewrite IH.
Qed.

Lemma cstr_id l : 0 ∉ l -> cstr l = l.
Proof.
  induction l as [|c l IH]; intros Hn; [done|]. apply not_elem_of_cons in Hn as [Hc Hn]. cbn.
  destruct (Z.eqb_spec c 0) as [->|]; [done|]. by rewrite IH.
Qed.

Lemma cstr_nonzero s : 0 ∉ cstr s.
Proof.
  induction s as [|c s IH]; cbn; [apply not_elem_of_nil|]. destruct (Z.eqb_spec c 0) as [->|]; [apply not_elem_of_nil|].
  by apply not_elem_of_cons.
Qed.

Lemma strchr_app l c r : c ∉ l -> 0 ∉ l -> strchr (l ++ c :: r) c = Some (length l).
Proof.
  induction l as [|x l IH]; intros Hc H0; cbn; [by rewrite Z.eqb_refl|].
  apply not_elem_of_cons in Hc as [Hc ?], H0 as [H0 ?]. destruct (Z.eqb_spec x c); [congruence|].
  destruct (Z.eqb_spec x 0); [congruence|]. by rewrite IH.
Qed.

Lemma strchr_none l c : c ∉ l -> strchr l c = None.
Proof.
  induction l as [|x l IH]; intros Hc; cbn; [done|]. apply not_elem_of_cons in Hc as [Hc ?].
  destruct (Z.eqb_spec x c); [congruence|]. destruct (x =? 0); [done|]. by rewrite IH.
Qed.

(** A string of digits up to something that is not one. *)
Lemma span_digits_app b ds c rest :
  Forall (fun d => is_digit b d = true) ds -> is_digit b c = false -> span_digits b (ds ++ c :: rest) = (ds, c :: rest).
Proof. intros HF Hc. induction HF as [|d ds Hd HF IH]; cbn; [by rewrite Hc|]. by rewrite Hd, IH. Qed.

Lemma scan_digits b ds r :
  b <= 10 -> Forall (fun d => is_digit b d = true) ds -> ds <> [] ->
  skip_spaces (ds ++ r) = ds ++ r /\ scan_sign (ds ++ r) = (false, ds ++ r).
Proof.
  intros Hb HF Hne. destruct ds as [|d ds]; [done|]. inversion HF as [|? ? Hd _]; subst. apply is_digit_iff in Hd. cbn. unfold isspace.
  destruct (Z.eqb_spec d 32), (Z.leb_spec 9 d), (Z.leb_spec d 13); try lia.
  destruct (Z.eqb_spec d 45), (Z.eqb_spec d 43); try lia. done.
Qed.

(** [strtoul] reads back what [%lu] prints. *)
Lemma strtoul_numeral b n c rest :
  2 <= b <= 10 -> 0 <= n < 2 ^ 64 -> is_digit b c = false -> strtoul b (numeral b n ++ c :: rest) = (n, c :: rest).
Proof.
  intros Hb Hn Hc. destruct (numeral_spec b ltac:(lia) n ltac:(lia)) as [Hv (HF&Hne&_)]. unfold strtoul.
  destruct (scan_digits b (numeral b n) (c :: rest) ltac:(lia) HF Hne) as [-> ->]. rewrite span_digits_app by done.
  destruct (numeral b n) as [|d ds] eqn:E; [done|]. unfold ulong_value. rewrite Hv.
  destruct (Z.leb_spec (2 ^ 64) n); [lia|]. done.
Qed.

(** ... and [sscanf]'s [%o] what [%o] prints. *)
Lemma sscanf_o_numeral n c rest :
  0 <= n < 2 ^ 32 -> is_digit 8 c = false -> sscanf_o (numeral 8 n ++ c :: rest) = Some n.
Proof.
  intros Hn Hc. destruct (numeral_spec 8 ltac:(lia) n ltac:(lia)) as [Hv (HF&Hne&_)]. unfold sscanf_o.
  destruct (scan_digits 8 (numeral 8 n) (c :: rest) ltac:(lia) HF Hne) as [-> ->]. rewrite span_digits_app by done.
  destruct (numeral 8 n) as [|d ds] eqn:E; [done|]. unfold ulong_value. rewrite Hv.
  destruct (Z.leb_spec (2 ^ 64) n); [lia|]. by rewrite u32_small.
Qed.

(** *** Memory that ends *)

Lemma strlen_mem_nul m : 0 ∈ m -> strlen_mem m = Ret (length (cstr m)).
Proof.
  induction m as [|c m IH]; intros H; [by apply elem_of_nil in H|]. cbn. destruct (Z.eqb_spec c 0); [done|].
  apply elem_of_cons in H as [|H]; [congruence|]. by rewrite IH.
Qed.

Lemma strlen_mem_none m : 0 ∉ m -> strlen_mem m = Ub.
Proof.
  induction m as [|c m IH]; intros H; [done|]. apply not_elem_of_cons in H as [Hc H]. cbn.
  destruct (Z.eqb_spec c 0); [congruence|]. by rewrite IH.
Qed.

Lemma strchr_mem_nul m c : 0 ∈ m -> strchr_mem m c = Ret (strchr m c).
Proof.
  induction m as [|x m IH]; intros H; [by apply elem_of_nil in H|]. cbn. destruct (x =? c); [done|].
  destruct (Z.eqb_spec x 0); [done|]. apply elem_of_cons in H as [|H]; [congruence|]. by rewrite IH.
Qed.

Lemma strchr_mem_app l c r : c ∉ l -> 0 ∉ l -> strchr_mem (l ++ c :: r) c = Ret (Some (length l)).
Proof.
  induction l as [|x l IH]; intros Hc H0; cbn; [by rewrite Z.eqb_refl|].
  apply not_elem_of_cons in Hc as [Hc ?], H0 as [H0 ?]. destruct (Z.eqb_spec x c); [congruence|].
  destruct (Z.eqb_spec x 0); [congruence|]. by rewrite IH.
Qed.

(** A NUL stands behind what [strchr] finds. *)
Lemma strchr_nul_behind m c k : c <> 0 -> 0 ∈ m -> strchr m c = Some k -> 0 ∈ drop (k + 1) m.
Proof.
  intros Hc. revert k; induction m as [|x m IH]; intros k H0; [by apply elem_of_nil in H0|]. cbn [strchr].
  destruct (Z.eqb_spec x c) as [->|]; [intros [= <-]; apply elem_of_cons in H0 as [|H0]; [congruence|]; exact H0|].
  destruct (Z.eqb_spec x 0); [done|]. destruct (strchr m c) as [j|]; cbn; [|done]. intros [= <-].
  apply elem_of_cons in H0 as [|H0]; [congruence|]. by apply IH.
Qed.

Lemma memcmp_mem_nul lit m : 0 ∉ lit -> Forall (fun c => 0 <= c) lit -> 0 ∈ m -> memcmp_mem lit m = Ret (memcmp (length lit) lit m).
Proof.
  revert m; induction lit as [|x lit IH]; intros m Hl Hp H0; [done|]. destruct m as [|y m]; [by apply elem_of_nil in H0|].
  apply not_elem_of_cons in Hl as [Hx Hl]. apply Forall_cons in Hp as [Hx' Hp]. cbn.
  destruct (Z.ltb_spec x y); [done|]. destruct (Z.ltb_spec y x); [done|]. apply IH; [done..|].
  apply elem_of_cons in H0 as [|]; [lia|done].
Qed.

Lemma memcmp_mem_starts lit r : memcmp_mem lit (lit ++ r) = Ret 0.
Proof. induction lit as [|x lit IH]; [done|]. cbn. by rewrite Z.ltb_irrefl. Qed.

(** More memory changes nothing in what ends without it. *)
Lemma strchr_mem_more m r c : strchr_mem m c = Ub \/ strchr_mem (m ++ r) c = strchr_mem m c.
Proof.
  induction m as [|x m IH]; cbn; [by left|]. destruct (x =? c); [by right|]. destruct (x =? 0); [by right|].
  destruct IH as [->| ->]; [by left|by right].
Qed.

Lemma memcmp_mem_more lit m r : memcmp_mem lit m = Ub \/ memcmp_mem lit (m ++ r) = memcmp_mem lit m.
Proof.
  revert m; induction lit as [|x lit IH]; intros m; [by right|]. destruct m as [|y m]; [by left|]. cbn.
  destruct (x <? y); [by right|]. destruct (y <? x); [by right|]. apply IH.
Qed.

Lemma strchr_mem_lt m c k : strchr_mem m c = Ret (Some k) -> (k < length m)%nat.
Proof.
  revert k; induction m as [|x m IH]; intros k; cbn; [done|]. destruct (x =? c); [intros [= <-]; lia|].
  destruct (x =? 0); [done|]. destruct (strchr_mem m c) as [[j|]| |]; cbn; try done. intros [= <-]. specialize (IH j eq_refl). lia.
Qed.

Lemma cstr_more m r : 0 ∈ m -> cstr (m ++ r) = cstr m.
Proof.
  induction m as [|c m IH]; intros H; [by apply elem_of_nil in H|]. cbn. destruct (Z.eqb_spec c 0); [done|].
  apply elem_of_cons in H as [|H]; [congruence|]. by rewrite IH.
Qed.

Lemma strchr_more m r c : 0 ∈ m -> strchr (m ++ r) c = strchr m c.
Proof.
  intros H. pose proof (strchr_mem_nul m c H) as E. destruct (strchr_mem_more m r c) as [E'|E']; [congruence|].
  rewrite E in E'. rewrite strchr_mem_nul in E' by (apply elem_of_app; by left). by injection E'.
Qed.

(** ** Paths *)

(** The components between slashes. *)
Fixpoint components (path : bytes) : list bytes :=
  match path with
  | [] => [[]]
  | c :: path =>
      if c =? 47 then [] :: components path
      else match components path with w :: ws => (c :: w) :: ws | [] => [[c]] end
  end.

Lemma components_cons path : exists w ws, components path = w :: ws.
Proof. destruct path as [|c path]; cbn; [eauto|]. destruct (c =? 47); [eauto|]. destruct (components path); eauto. Qed.

Lemma components_nil path : components path <> [].
Proof. destruct (components_cons path) as (w&ws&->). done. Qed.

Lemma components_app a b : components (a ++ 47 :: b) = components a ++ components b.
Proof.
  induction a as [|c a IH]; [done|]. cbn [app components]. destruct (c =? 47); [by rewrite IH|].
  destruct (components_cons a) as (w&ws&E). by rewrite IH, E.
Qed.

Lemma components_split p k r : components p = k ++ r -> k <> [] -> r <> [] ->
  exists a b, p = a ++ 47 :: b /\ components a = k.
Proof.
  revert k; induction p as [|c p IH]; intros k E Hk Hr; (destruct k as [|x k]; [done|]); cbn [components app] in E.
  - injection E as _ E. symmetry in E. apply app_eq_nil in E as [_ ?]. done.
  - destruct (Z.eqb_spec c 47) as [->|Hc].
    + injection E as <- E. destruct k as [|y k]; [by exists [], p|].
      destruct (IH (y :: k) E ltac:(done) Hr) as (a&b&->&Ea). exists (47 :: a), b. cbn. by rewrite Ea.
    + destruct (components_cons p) as (w&ws&Ep). rewrite Ep in E. injection E as <- E.
      destruct (IH (w :: k) ltac:(by rewrite Ep, E) ltac:(done) Hr) as (a&b&->&Ea). exists (c :: a), b. split; [done|].
      cbn. rewrite Ea. by destruct (Z.eqb_spec c 47).
Qed.

Lemma components_inj p q : components p = components q -> p = q.
Proof.
  revert q; induction p as [|a p IH]; intros [|b q]; cbn [components].
  - done.
  - destruct (b =? 47); [intros [=]; by destruct (components_nil q)|]. destruct (components_cons q) as (w&ws&->). done.
  - destruct (a =? 47); [intros [=]; by destruct (components_nil p)|]. destruct (components_cons p) as (w&ws&->). done.
  - destruct (components_cons p) as (w&ws&Ep), (components_cons q) as (w'&ws'&Eq). rewrite Ep, Eq in *.
    destruct (Z.eqb_spec a 47) as [->|], (Z.eqb_spec b 47) as [->|]; intros [=]; subst; try done; f_equal; apply IH; congruence.
Qed.
