(* ===== verification/ObjectStore.v ===== *)
(** * The object store (test_git/sha1_file.c)

    Loose objects are files [dir/xx/yyy...] below the object directory and
    the alternate directories; other objects are in packs.  The state is the
    record [odb]: the directories, the files by path, and the packs in the
    order of the list [packed_git].  What the kernel decides (opening,
    temporary files, links) is in [os].

    Reading: [find_sha1_file], [map_sha1_file_internal], [unpack_sha1_file],
    [find_pack_entry], [read_sha1_file], [sha1_object_info],
    [read_object_with_reference].  Writing: [write_sha1_file], [index_fd]. *)

From stdpp Require Import base list numbers strings gmap.
From Stdlib Require Import ZArith Lia.
From S2P Require Import Prelude.
From S2P Require Import Sha1.
From S2P Require Import Hex.
From S2P Require Import PktLine.
From S2P Require Import Delta.
From S2P Require Import CsumFile.
From S2P Require Import PackIndex.
From S2P Require Import Zlib.
From S2P Require Import ObjectHeader.
From S2P Require Import PackEntry.
From S2P Require Import CString.

Record odb := {
  object_dir : bytes;
  alternates : bytes;
  files : gmap (list Z) (list Z);
  packs : list (bytes * bytes);
}.

(** What the system calls answer: does [open] succeed with and without
    [O_NOATIME], does it fail for another reason than [ENOENT], does
    [mkstemp], does the [write] of the whole file, what does [link] return,
    and does [rename]. *)
Inductive link_result := LinkOk | LinkExist | LinkXdev | LinkFail.

Record os := {
  open_noatime : bytes -> bool;
  open_plain : bytes -> bool;
  open_enoent : bytes -> bool;
  mkstemp_ok : bool;
  write_whole : bool;
  link_to : bytes -> link_result;
  rename_ok : bool;
}.

(** ** Code: alternates *)

(** The text up to the next [':'] and what follows it. *)
Fixpoint to_colon (s : bytes) : bytes * bytes :=
  match s with
  | [] => ([], [])
  | c :: s => if c =? 58 then ([], c :: s) else let '(a, b) := to_colon s in (c :: a, b)
  end.

Fixpoint skip_colons (s : bytes) : bytes :=
  match s with
  | [] => []
  | c :: t => if c =? 58 then skip_colons t else s
  end.

(** One pass of the [do ... while] loop: the bases it would record; every
    iteration but the last consumes a byte. *)
Fixpoint alt_pass (fuel : nat) (last : bytes) : list bytes :=
  match fuel with
  | O => []
  | S fuel =>
      let '(piece, cp) := to_colon last in
      let rest := skip_colons cp in
      (if bool_decide (piece = []) then [] else [piece]) ++
      (if bool_decide (rest = []) then [] else alt_pass fuel rest)
  end.

(** The first pass sizes the array that the second one fills. *)
Definition prepare_alt_odb (alt : bytes) : list bytes := alt_pass (S (length alt)) alt.

(** The path of an object below a directory, as [fill_sha1_path] leaves it in
    the buffer of that directory. *)
Definition object_path (dir sha1 : bytes) : bytes := cstr (sha1_file_name dir sha1).

(** ** Code: reading loose objects *)

Section Store.
Context `{Zlib} (sys : os) (malloc_ok : Z -> bool).

Fixpoint find_in (db : odb) (dirs : list bytes) (sha1 : bytes) : option bytes :=
  match dirs with
  | [] => None
  | dir :: dirs =>
      let path := object_path dir sha1 in
      match files db !! path with Some _ => Some path | None => find_in db dirs sha1 end
  end.

Definition find_sha1_file (db : odb) (sha1 : bytes) : option bytes :=
  find_in db (object_dir db :: prepare_alt_odb (alternates db)) sha1.

(** [flag] is [sha1_file_open_flag != 0]; returns the mapped file and the
    flag.  An empty file cannot be mapped. *)
Definition map_sha1_file_internal (flag : bool) (db : odb) (sha1 : bytes) : option bytes * bool :=
  match find_sha1_file db sha1 with
  | None => (None, flag)
  | Some filename =>
      let opened :=
        if (if flag then open_noatime sys filename else open_plain sys filename) then Some flag
        else if flag then (if open_plain sys filename then Some false else None)
        else None in
      match opened with
      | None => (None, flag)
      | Some flag' =>
          match files db !! filename with
          | Some (c :: map) => (Some (c :: map), flag')
          | _ => (None, flag')
          end
      end
  end.

(** The status of the first [inflate] and what it wrote. *)
Definition unpack_sha1_header (map : bytes) (size : nat) : zret * bytes :=
  inflate false (take (Z.to_nat (u32 (Z.of_nat (length map)))) map) 0 size.

(** [while (inflate(stream, Z_FINISH) == Z_OK)]: [None] if it never ends
    within [fuel] calls. *)
Fixpoint inflate_rest (fuel : nat) (input : bytes) (done avail : nat) : option bytes :=
  match fuel with
  | O => None
  | S fuel =>
      let '(st, out) := inflate true input done avail in
      if bool_decide (st = Z_OK)
      then app out <$> inflate_rest fuel input (done + length out) (avail - length out)
      else Some out
  end.

(** [hdr] holds the [total_out] bytes already inflated.  The copy of what
    follows the NUL is outside [buf] when there is more than [size + 1] of it;
    what [inflate] does not deliver stays uninitialised. *)
Definition unpack_sha1_rest (map hdr : bytes) (size : Z) : io bytes :=
  let bytes := (length (cstr hdr) + 1)%nat in
  let start := drop bytes hdr in
  if size + 1 <? Z.of_nat (length start) then Some Ub
  else if Z.of_nat (length start) <? size then
    match inflate_rest (S (Z.to_nat size)) (take (Z.to_nat (u32 (Z.of_nat (length map)))) map) (length hdr)
            (Z.to_nat (u32 (size - Z.of_nat (length start)))) with
    | None => None
    | Some out => if Z.of_nat (length (start ++ out)) =? size then io_ret (start ++ out) else Some Ub
    end
  else io_ret (take (Z.to_nat size) start).

Definition unpack_sha1_file (map : bytes) : io (option (bytes * bytes)) :=
  let '(ret, hdr) := unpack_sha1_header map (Z.to_nat 8192) in
  if zfailed ret then io_ret None
  else
    r <- Some (parse_sha1_header hdr) ;;
    match r with
    | None => io_ret None
    | Some (type, size) => buf <- unpack_sha1_rest map hdr size ;; io_ret (Some (type, buf))
    end.

(** ** Code: packs and the whole store *)

Fixpoint find_pack_entry (ps : list (bytes * bytes)) (sha1 : bytes) : outcome (option (bytes * bytes * Z)) :=
  match ps with
  | [] => Ret None
  | (idx, pack) :: ps =>
      r ← find_pack_entry_one idx sha1;
      match r with
      | Some offset => Ret (Some (idx, pack, offset))
      | None => find_pack_entry ps sha1
      end
  end.

(** The fuel of [unpack_entry_gently]: no delta chain without a repetition is
    longer than the number of objects in the pack. *)
Definition chain_fuel (idx : bytes) : nat := S (Z.to_nat (num_packed_objects idx)).

Definition unpack_entry (idx pack : bytes) (offset : Z) : io (option (bytes * bytes)) :=
  r <- unpack_entry_gently malloc_ok (chain_fuel idx) idx pack offset ;;
  match r with None => Some Die | Some o => io_ret (Some o) end.

Definition read_packed_sha1 (db : odb) (sha1 : bytes) : io (option (bytes * bytes)) :=
  e <- Some (find_pack_entry (packs db) sha1) ;;
  match e with
  | None => io_ret None
  | Some (idx, pack, offset) => unpack_entry idx pack offset
  end.

Definition read_sha1_file (flag : bool) (db : odb) (sha1 : bytes) : io (option (bytes * bytes)) :=
  match fst (map_sha1_file_internal flag db sha1) with
  | Some map => unpack_sha1_file map
  | None => read_packed_sha1 db sha1
  end.

(** Whether a NUL stands behind the buffer [read_sha1_file] returns:
    [unpack_sha1_rest] and [unpack_non_delta_entry] put one there, [patch_delta]
    allocates no room for it. *)
Definition read_nul (flag : bool) (db : odb) (sha1 : bytes) : bool :=
  match fst (map_sha1_file_internal flag db sha1) with
  | Some _ => true
  | None =>
      match find_pack_entry (packs db) sha1 with
      | Ret (Some (_, pack, offset)) =>
          match unpack_object_header pack offset with Ret (_, kind, _) => negb (kind =? OBJ_DELTA) | _ => true end
      | _ => true
      end
  end.

(** The status of the header's [inflate] only matters for the message: the
    header is parsed in either case. *)
Definition sha1_object_info (flag : bool) (db : odb) (sha1 : bytes) : io (option (bytes * Z)) :=
  match fst (map_sha1_file_internal flag db sha1) with
  | None =>
      e <- Some (find_pack_entry (packs db) sha1) ;;
      match e with
      | None => io_ret None
      | Some (idx, pack, offset) =>
          r <- packed_object_info (chain_fuel idx) idx pack offset true ;;
          io_ret (Some (fst r, default 0 (snd r)))
      end
  | Some map =>
      let hdr := snd (unpack_sha1_header map 128) in
      r <- Some (parse_sha1_header hdr) ;;
      io_ret r
  end.

Definition has_sha1_pack (db : odb) (sha1 : bytes) : outcome bool :=
  e ← find_pack_entry (packs db) sha1; Ret (match e with Some _ => true | None => false end).

Definition has_sha1_file (db : odb) (sha1 : bytes) : outcome bool :=
  match find_sha1_file db sha1 with
  | Some _ => Ret true
  | None => has_sha1_pack db sha1
  end.

(** [while (1)]: one object per unit of fuel; [None] while a chain of
    references has not ended. *)
Fixpoint read_object_with_reference (fuel : nat) (flag : bool) (db : odb) (sha1 required_type : bytes)
    : io (option (bytes * bytes)) :=
  match fuel with
  | O => None
  | S fuel =>
      r <- read_sha1_file flag db sha1 ;;
      match r with
      | None => io_ret None
      | Some (type, buffer) =>
          if bool_decide (cstr type = required_type) then io_ret (Some (sha1, buffer))
          else
            let ref_type :=
              if bool_decide (cstr type = str "commit") then Some (str "tree ")
              else if bool_decide (cstr type = str "tag") then Some (str "object ")
              else None in
            match ref_type with
            | None => io_ret None
            | Some ref =>
                let buf := buffer ++ [0] in
                if negb (memcmp (length ref) buf ref =? 0) then io_ret None
                else
                  g <- Some (get_sha1_hex (drop (length ref) buf)) ;;
                  let '(bad, actual) := g in
                  if negb (bad =? 0) then io_ret None
                  else read_object_with_reference fuel flag db actual required_type
            end
      end
  end.

(** ** Code: writing *)

Definition set_file (db : odb) (path contents : bytes) : odb :=
  {| object_dir := object_dir db; alternates := alternates db; files := <[path := contents]> (files db);
     packs := packs db |}.

(** Returns the value of the call, the name of the object and the store.  The
    temporary file is gone in every case, so it is not part of the store. *)
Definition write_sha1_file (db : odb) (buf : bytes) (len : Z) (type : bytes) : outcome (Z * bytes * odb) :=
  p ← write_sha1_file_prepare (object_dir db) buf len type;
  let '(filename, sha1, hdr) := p in
  let filename := cstr filename in
  has ← has_sha1_file db sha1;
  if (has : bool) then Ret (0, sha1, db)
  else
    match files db !! filename with
    | Some _ => Ret (0, sha1, db)
    | None =>
        if negb (open_enoent sys filename) then Ret (-1, sha1, db)
        else if negb (mkstemp_ok sys) then Ret (-1, sha1, db)
        else
          let compressed := deflate 9 [hdr; take (Z.to_nat (u32 len)) buf] in
          if negb (write_whole sys) then Die
          else
            match link_to sys filename with
            | LinkOk => Ret (0, sha1, set_file db filename compressed)
            | LinkExist => Ret (0, sha1, db)
            | LinkXdev => if rename_ok sys then Ret (0, sha1, set_file db filename compressed) else Ret (-1, sha1, db)
            | LinkFail => Ret (-1, sha1, db)
            end
    end.

(** [contents] is the open file; [mapped] tells whether [mmap] succeeds. *)
Definition index_fd (db : odb) (contents : bytes) (mapped write_object : bool) (type : option bytes)
    : outcome (Z * bytes * odb) :=
  let size := Z.of_nat (length contents) in
  if negb (size =? 0) && negb mapped then Ret (-1, [], db)
  else
    let type := default (str "blob") type in
    if write_object then write_sha1_file db contents size type
    else
      p ← write_sha1_file_prepare (object_dir db) contents size type;
      let '(_, sha1, _) := p in
      Ret (0, sha1, db).

End Store.

(** ** C strings and paths *)

Lemma hexchar_nonzero v : 0 <= v < 16 -> hexchar v <> 0.
Proof. intros Hv. pose proof (hexchar_digit v Hv) as Hd. apply is_hexdigit_range in Hd. lia. Qed.

Lemma sha1_to_hex_nonzero s : length s = 20%nat -> bytes_ok s -> 0 ∉ sha1_to_hex s.
Proof.
  intros Hl Hok. unfold sha1_to_hex. rewrite take_ge by lia. clear Hl.
  induction s as [|b s IH]; [by apply not_elem_of_nil|]. apply bytes_ok_cons in Hok as [Hb Hok].
  destruct (nibbles_split b Hb) as (v0&v1&Hv0&Hv1&Hs). cbn [flat_map]. fold (nibbles b).
  apply not_elem_of_app. split; [|by apply IH]. subst b. rewrite nibbles_digits by done.
  rewrite !not_elem_of_cons. split_and!; [by apply not_eq_sym, hexchar_nonzero..|by apply not_elem_of_nil].
Qed.

Lemma object_path_eq dir s : 0 ∉ dir -> length s = 20%nat -> bytes_ok s ->
  object_path dir s = dir ++ [47] ++ take 2 (sha1_to_hex s) ++ [47] ++ drop 2 (sha1_to_hex s).
Proof.
  intros Hd Hl Hok. unfold object_path. rewrite sha1_file_name_layout by done.
  pose proof (sha1_to_hex_nonzero s Hl Hok) as Hn.
  replace (dir ++ [47] ++ take 2 (sha1_to_hex s) ++ [47] ++ drop 2 (sha1_to_hex s) ++ replicate 18 0)
    with ((dir ++ [47] ++ take 2 (sha1_to_hex s) ++ [47] ++ drop 2 (sha1_to_hex s)) ++ 0 :: replicate 17 0)
    by (by rewrite <- !app_assoc).
  apply cstr_app. rewrite !not_elem_of_app, !not_elem_of_cons. rewrite <- (take_drop 2 (sha1_to_hex s)) in Hn.
  apply not_elem_of_app in Hn as [Hn1 Hn2]. split_and!; try done; apply not_elem_of_nil.
Qed.

(** Files of different objects never coincide, in whatever directories. *)
Lemma object_path_inj dir dir' s s' :
  0 ∉ dir -> 0 ∉ dir' -> length s = 20%nat -> bytes_ok s -> length s' = 20%nat -> bytes_ok s' ->
  object_path dir s = object_path dir' s' -> s = s'.
Proof.
  intros Hd Hd' Hl Hok Hl' Hok' E. rewrite !object_path_eq in E by done.
  pose proof (length_sha1_to_hex s Hl) as L. pose proof (length_sha1_to_hex s' Hl') as L'.
  apply app_inj_2 in E as [_ E]; [|cbn [app length]; rewrite !length_app, !length_take; cbn [length]; rewrite !length_drop; lia].
  apply app_inv_head in E. apply app_inj_1 in E as [E1 E]; [|rewrite !length_take; lia]. apply app_inv_head in E.
  apply sha1_to_hex_inj; try done. by rewrite <- (take_drop 2 (sha1_to_hex s)), E1, E, take_drop.
Qed.

(** ** Alternates *)

(** The pieces of a text between its colons. *)
Fixpoint pieces (s : bytes) : list bytes :=
  match s with
  | [] => [[]]
  | c :: s =>
      if c =? 58 then [] :: pieces s
      else match pieces s with p :: ps => (c :: p) :: ps | [] => [[c]] end
  end.

Lemma pieces_to_colon s : pieces s =
  (to_colon s).1 :: match (to_colon s).2 with [] => [] | _ :: t => pieces t end.
Proof.
  induction s as [|c s IH]; [done|]. cbn. destruct (c =? 58); [done|]. rewrite IH.
  destruct (to_colon s) as [a b]. done.
Qed.

Lemma to_colon_head s c t : (to_colon s).2 = c :: t -> c = 58 /\ (length t < length s)%nat.
Proof.
  revert c t; induction s as [|x s IH]; intros c t; cbn; [done|]. destruct (Z.eqb_spec x 58) as [->|].
  - intros [= <- <-]. split; [done|lia].
  - destruct (to_colon s) as [a b]. cbn in *. intros E. destruct (IH _ _ E). split; [done|lia].
Qed.

Definition nonempty (p : bytes) : Prop := p <> [].
#[export] Instance nonempty_dec p : Decision (nonempty p).
Proof. unfold nonempty. apply _. Defined.

Lemma skip_colons_pieces s :
  filter nonempty (pieces s) = filter nonempty (if bool_decide (skip_colons s = []) then [] else pieces (skip_colons s)) /\
  (length (skip_colons s) <= length s)%nat.
Proof.
  induction s as [|c s [IH1 IH2]]; [done|]. cbn [skip_colons]. destruct (Z.eqb_spec c 58) as [->|Hc].
  - cbn [pieces]. rewrite Z.eqb_refl. rewrite filter_cons_False by (intros Hx; by apply Hx). split; [done|]. cbn [length]. lia.
  - rewrite bool_decide_false by done. done.
Qed.

Lemma alt_pass_pieces fuel s : (length s < fuel)%nat -> alt_pass fuel s = filter nonempty (pieces s).
Proof.
  revert s; induction fuel as [|fuel IH]; intros s Hf; [lia|]. cbn [alt_pass]. rewrite pieces_to_colon.
  destruct (to_colon s) as [piece cp] eqn:Et. cbn [fst snd].
  assert (Hrest : (if bool_decide (skip_colons cp = []) then [] else alt_pass fuel (skip_colons cp)) =
    filter nonempty match cp with [] => [] | _ :: t => pieces t end).
  { destruct cp as [|c t]; [done|]. destruct (to_colon_head s c t) as [-> Hlt]; [by rewrite Et|].
    cbn [skip_colons]. rewrite Z.eqb_refl. destruct (skip_colons_pieces t) as [-> Hle].
    destruct (bool_decide _); [done|]. apply IH. lia. }
  rewrite Hrest. clear Hrest. case_bool_decide as Hp.
  { rewrite Hp. by rewrite filter_cons_False by (intros Hx; by apply Hx). }
  by rewrite filter_cons_True.
Qed.

(** The alternate directories are the non-empty pieces between the
    colons of the environment variable, in order, however many colons stand
    together or at its ends. *)
Theorem prepare_alt_odb_spec (alt : bytes) : prepare_alt_odb alt = filter nonempty (pieces alt).
Proof. apply alt_pass_pieces. lia. Qed.

(** ** Loose objects *)

Section Proofs.
Context `{ZlibLaws} (sys : os) (malloc_ok : Z -> bool).

(** The contents of a loose object's file. *)
Definition loose_file (level : Z) (type data : bytes) : bytes :=
  deflate level [object_header type (Z.of_nat (length data)); data].

(** An object the loose format can carry. *)
Definition object_ok (type data : bytes) : Prop :=
  type_ok type /\ 0 ∉ type /\ bytes_ok data /\ Z.of_nat (length data) < 2 ^ 30.

Lemma object_header_cstr type len rest : 0 ∉ type -> 0 <= len ->
  cstr (object_header type len ++ rest) = type ++ [32] ++ numeral 10 len.
Proof.
  intros Ht Hl. unfold object_header. rewrite <- !app_assoc. cbn [app]. rewrite app_comm_cons, app_assoc.
  change (type ++ 32 :: numeral 10 len) with (type ++ [32] ++ numeral 10 len). apply cstr_app.
  destruct (numeral_spec 10 ltac:(lia) len Hl) as [_ [HF _]].
  rewrite !not_elem_of_app, not_elem_of_cons. split_and!; [done|done|by apply not_elem_of_nil|].
  intros Hin. rewrite Forall_forall in HF. apply HF in Hin. apply is_digit_iff in Hin. lia.
Qed.

Lemma object_header_split type len : length (type ++ [32] ++ numeral 10 len) = (length (object_header type len) - 1)%nat.
Proof. unfold object_header. rewrite !length_app. cbn [length]. lia. Qed.

Section File.
Context (level : Z) (type data : bytes) (Hobj : object_ok type data).
Let hdr := object_header type (Z.of_nat (length data)).

Lemma loose_header_length : (1 <= length hdr <= 31)%nat.
Proof.
  destruct Hobj as ((Ht&_)&_&_&Hl). split; [unfold hdr, object_header; rewrite !length_app; simpl; lia|].
  apply object_header_length; lia.
Qed.

Lemma loose_file_length : Z.of_nat (length (loose_file level type data)) < 2 ^ 32.
Proof.
  pose proof (deflate_bound level [hdr; data]) as Hd. pose proof loose_header_length. destruct Hobj as (_&_&_&Hl).
  cbn [concat] in Hd. rewrite app_nil_r, length_app in Hd. unfold loose_file. fold hdr.
  change (2 ^ 32) with (4 * 2 ^ 30). lia.
Qed.

Lemma loose_input : take (Z.to_nat (u32 (Z.of_nat (length (loose_file level type data))))) (loose_file level type data)
  = loose_file level type data ++ [].
Proof. pose proof loose_file_length. rewrite u32_small, Nat2Z.id, take_ge by lia. by rewrite app_nil_r. Qed.

Lemma loose_unpack_header size : exists st, zfailed st = false /\
  unpack_sha1_header (loose_file level type data) size = (st, take size (hdr ++ data)).
Proof.
  unfold unpack_sha1_header. rewrite loose_input.
  destruct (inflate_partial level [hdr; data] [] 0 size ltac:(lia)) as (st&Hst&E). exists st. split; [done|].
  unfold loose_file. fold hdr. rewrite E. cbn [concat]. by rewrite app_nil_r, drop_0.
Qed.

Lemma take_header size : (31 <= size)%nat -> take size (hdr ++ data) = hdr ++ take (size - length hdr) data.
Proof. intros. pose proof loose_header_length. by rewrite take_app, take_ge by lia. Qed.

Lemma loose_parse size : (31 <= size)%nat ->
  parse_sha1_header (take size (hdr ++ data)) = Ret (Some (type, Z.of_nat (length data))).
Proof.
  intros Hs. rewrite take_header by done. destruct Hobj as (Ht&_&Hd&Hl).
  apply parse_object_header; [done|by apply bytes_ok_take|lia].
Qed.

Lemma loose_unpack_rest :
  unpack_sha1_rest (loose_file level type data) (take (Z.to_nat 8192) (hdr ++ data)) (Z.of_nat (length data)) = io_ret data.
Proof.
  pose proof loose_header_length as Hh. destruct Hobj as (Ht&Hz&Hd&Hl). unfold unpack_sha1_rest. cbv zeta.
  set (N := Z.to_nat 8192). assert (HN : (31 <= N)%nat) by (unfold N; lia). rewrite take_header by done.
  assert (Ec : (length (cstr (hdr ++ take (N - length hdr) data)) + 1)%nat = length hdr).
  { unfold hdr at 1. rewrite object_header_cstr, object_header_split by (done || lia). fold hdr. lia. }
  rewrite !Ec.
  assert (Es : drop (length hdr) (hdr ++ take (N - length hdr) data) = take (N - length hdr) data) by apply drop_app_length.
  rewrite !Es. rewrite length_take. rewrite (proj2 (Z.ltb_ge _ _)) by lia.
  destruct (Z.ltb_spec (Z.of_nat ((N - length hdr) `min` length data)) (Z.of_nat (length data))) as [Hlt|Hge].
  - rewrite loose_input. rewrite (u32_small (_ - _)) by lia. cbn [inflate_rest].
    rewrite length_app, length_take. replace (length hdr + (N - length hdr) `min` length data)%nat with N by lia.
    unfold loose_file. fold hdr. rewrite inflate_finish by (cbn [concat]; rewrite app_nil_r, length_app; lia).
    cbn [concat]. rewrite app_nil_r, length_app. rewrite (proj2 (Nat.leb_le _ _)) by lia.
    rewrite bool_decide_false by done. rewrite (take_ge (drop N (hdr ++ data))) by (rewrite length_drop, length_app; lia).
    assert (Ed : take (N - length hdr) data ++ drop N (hdr ++ data) = data).
    { rewrite drop_app_ge by lia. apply take_drop. }
    rewrite Ed, Z.eqb_refl. done.
  - rewrite (take_ge data) by lia. by rewrite take_ge by lia.
Qed.

Lemma unpack_loose_file : unpack_sha1_file (loose_file level type data) = io_ret (Some (type, data)).
Proof.
  unfold unpack_sha1_file. destruct (loose_unpack_header (Z.to_nat 8192)) as (st&Hst&->). rewrite Hst.
  rewrite loose_parse by lia. cbn [io_bind]. by rewrite loose_unpack_rest.
Qed.

Lemma loose_file_nonempty : exists c t, loose_file level type data = c :: t.
Proof.
  destruct (loose_file level type data) as [|c t] eqn:E; [|by eexists _, _]. exfalso.
  pose proof loose_header_length as Hh. unfold loose_file in E. fold hdr in E.
  pose proof (inflate_finish level [hdr; data] (deflate level [] ++ []) 0 1 ltac:(lia)) as H1. rewrite E, app_nil_l in H1.
  rewrite (inflate_finish level [] [] 0 1) in H1 by done. injection H1 as _ H1. cbn [concat] in H1.
  rewrite app_nil_r, !drop_0 in H1. destruct hdr; [simpl in Hh; lia|done].
Qed.

End File.
End Proofs.

(** ** Writing and reading back *)

Section WriteRead.
Context `{ZlibLaws} (sys : os) (malloc_ok : Z -> bool).

(** Directories are C strings, and files can be opened. *)
Record odb_ok (db : odb) : Prop := {
  dir_ok : 0 ∉ object_dir db;
  alt_ok : Forall (fun d => 0 ∉ d) (prepare_alt_odb (alternates db));
}.

Definition opens : Prop := forall path, open_plain sys path = true.

Lemma map_file flag db sha1 path c t :
  opens -> find_sha1_file db sha1 = Some path -> files db !! path = Some (c :: t) ->
  fst (map_sha1_file_internal sys flag db sha1) = Some (c :: t).
Proof.
  intros Ho Hf Hc. unfold map_sha1_file_internal. rewrite Hf.
  destruct flag; rewrite ?Ho; [destruct (open_noatime sys path)|]; by rewrite Hc.
Qed.

Lemma map_file_none flag db sha1 : find_sha1_file db sha1 = None -> fst (map_sha1_file_internal sys flag db sha1) = None.
Proof. intros Hf. unfold map_sha1_file_internal. by rewrite Hf. Qed.

Lemma find_in_set_file db path contents dirs sha1 :
  Forall (fun d => object_path d sha1 <> path) dirs -> find_in (set_file db path contents) dirs sha1 = find_in db dirs sha1.
Proof.
  induction 1 as [|d dirs Hd HF IH]; [done|]. cbn [find_in files set_file]. rewrite lookup_insert_ne by congruence.
  destruct (files db !! object_path d sha1); [done|]. exact IH.
Qed.

Lemma find_set_file_other db sha1 sha1' contents :
  odb_ok db -> length sha1 = 20%nat -> bytes_ok sha1 -> length sha1' = 20%nat -> bytes_ok sha1' -> sha1' <> sha1 ->
  find_sha1_file (set_file db (object_path (object_dir db) sha1) contents) sha1' = find_sha1_file db sha1'.
Proof.
  intros [Hd Ha] Hl Hok Hl' Hok' Hne. unfold find_sha1_file. cbn [object_dir alternates set_file].
  apply find_in_set_file. constructor.
  - intros E. by apply object_path_inj in E.
  - eapply Forall_impl; [exact Ha|]. intros d Hd' E. by apply object_path_inj in E.
Qed.

Lemma find_set_file_same db sha1 contents :
  find_sha1_file (set_file db (object_path (object_dir db) sha1) contents) sha1 = Some (object_path (object_dir db) sha1).
Proof. unfold find_sha1_file. cbn [find_in files set_file object_dir alternates]. by rewrite lookup_insert_eq. Qed.

(** What the name of an object gives when its file is in place. *)
Lemma read_loose flag db sha1 path level type data :
  opens -> find_sha1_file db sha1 = Some path -> files db !! path = Some (loose_file level type data) ->
  object_ok type data ->
  read_sha1_file sys malloc_ok flag db sha1 = io_ret (Some (type, data)) /\
  sha1_object_info sys flag db sha1 = io_ret (Some (type, Z.of_nat (length data))).
Proof.
  intros Ho Hf Hc Hobj. destruct (loose_file_nonempty level type data Hobj) as (c&t&E). rewrite E in Hc.
  unfold read_sha1_file, sha1_object_info. rewrite (map_file flag db sha1 path c t Ho Hf Hc), <- E.
  split; [by apply unpack_loose_file|]. destruct (loose_unpack_header level type data Hobj 128) as (st&_&->).
  cbn [snd]. rewrite loose_parse by (done || lia). done.
Qed.

(** The files of a store through which no object was changed. *)
Lemma read_unchanged flag db path contents sha1' :
  find_sha1_file (set_file db path contents) sha1' = find_sha1_file db sha1' ->
  (forall p, find_sha1_file db sha1' = Some p -> p <> path) ->
  read_sha1_file sys malloc_ok flag (set_file db path contents) sha1' = read_sha1_file sys malloc_ok flag db sha1'.
Proof.
  intros Hf Hp. unfold read_sha1_file, map_sha1_file_internal. rewrite Hf.
  destruct (find_sha1_file db sha1') as [p|] eqn:Ef; [|done].
  cbn [files set_file]. rewrite lookup_insert_ne by (specialize (Hp p eq_refl); congruence). done.
Qed.

Lemma find_in_path db dirs sha1 p :
  find_in db dirs sha1 = Some p -> exists d c, d ∈ dirs /\ p = object_path d sha1 /\ files db !! p = Some c.
Proof.
  induction dirs as [|d dirs IH]; cbn [find_in]; [done|].
  destruct (files db !! object_path d sha1) as [c|] eqn:E.
  - intros [= <-]. exists d, c. split; [by left|done].
  - intros Hp. destruct (IH Hp) as (d'&c&Hd&Hc). exists d', c. split; [by right|done].
Qed.

Lemma write_path_ready db type data :
  object_ok type data -> odb_ok db ->
  write_sha1_file_prepare (object_dir db) data (Z.of_nat (length data)) type =
    Ret (sha1_file_name (object_dir db) (object_name type data), object_name type data,
         object_header type (Z.of_nat (length data))) /\
  length (object_name type data) = 20%nat /\ bytes_ok (object_name type data).
Proof.
  intros (Ht&_&Hd&Hl) _. split; [apply write_sha1_file_prepare_eq; (done || lia)|].
  split; [by apply object_name_length|apply fips_sha1_ok].
Qed.

(** All the ends of [write_sha1_file], as a function of what is there and of
    what the system answers. *)
Definition write_result (db : odb) (type data : bytes) (has : bool) : outcome (Z * bytes * odb) :=
  let sha1 := object_name type data in
  let path := object_path (object_dir db) sha1 in
  let stored := set_file db path (loose_file 9 type data) in
  if has then Ret (0, sha1, db)
  else if negb (open_enoent sys path && mkstemp_ok sys) then Ret (-1, sha1, db)
  else if negb (write_whole sys) then Die
  else match link_to sys path with
       | LinkOk => Ret (0, sha1, stored)
       | LinkExist => Ret (0, sha1, db)
       | LinkXdev => if rename_ok sys then Ret (0, sha1, stored) else Ret (-1, sha1, db)
       | LinkFail => Ret (-1, sha1, db)
       end.

Lemma write_sha1_file_result db type data has :
  object_ok type data -> odb_ok db -> has_sha1_file db (object_name type data) = Ret has ->
  write_sha1_file sys db data (Z.of_nat (length data)) type = write_result db type data has.
Proof.
  intros Hobj Hdb Hhas. destruct (write_path_ready db type data Hobj Hdb) as (Hp&_&_). unfold write_sha1_file, write_result.
  rewrite Hp, bind_Ret. cbv zeta. fold (object_path (object_dir db) (object_name type data)). rewrite Hhas, bind_Ret.
  destruct has; [done|].
  destruct (files db !! object_path (object_dir db) (object_name type data)) as [c|] eqn:Ef.
  { exfalso. unfold has_sha1_file, find_sha1_file in Hhas. cbn [find_in] in Hhas. by rewrite Ef in Hhas. }
  destruct Hobj as (_&_&_&Hl). rewrite u32_small, Nat2Z.id, take_ge by lia.
  unfold loose_file. by destruct (open_enoent sys _), (mkstemp_ok sys).
Qed.

(** C4. writing an object and reading it back: when the object is new and
    the system calls succeed, [write_sha1_file] returns 0 with the object's
    name; [read_sha1_file] under that name then returns exactly the type and
    contents written and [sha1_object_info] the type and size, whether
    [O_NOATIME] works or not; every other object reads as before. *)
Theorem write_read_sha1_file (flag : bool) (db : odb) (type data : bytes) :
  object_ok type data -> odb_ok db -> opens ->
  has_sha1_file db (object_name type data) = Ret false ->
  let path := object_path (object_dir db) (object_name type data) in
  open_enoent sys path = true -> mkstemp_ok sys = true -> write_whole sys = true ->
  link_to sys path = LinkOk \/ (link_to sys path = LinkXdev /\ rename_ok sys = true) ->
  exists db', write_sha1_file sys db data (Z.of_nat (length data)) type = Ret (0, object_name type data, db') /\
    read_sha1_file sys malloc_ok flag db' (object_name type data) = io_ret (Some (type, data)) /\
    sha1_object_info sys flag db' (object_name type data) = io_ret (Some (type, Z.of_nat (length data))) /\
    forall sha1', length sha1' = 20%nat -> bytes_ok sha1' -> sha1' <> object_name type data ->
      read_sha1_file sys malloc_ok flag db' sha1' = read_sha1_file sys malloc_ok flag db sha1'.
Proof.
  intros Hobj Hdb Ho Hhas path He Hm Hw Hlink.
  destruct (write_path_ready db type data Hobj Hdb) as (_&Hnl&Hnok).
  exists (set_file db path (loose_file 9 type data)). split; [|split_and!].
  - rewrite (write_sha1_file_result db type data false) by done. unfold write_result. fold path. rewrite He, Hm, Hw.
    cbn [negb andb]. by destruct Hlink as [->|[-> ->]].
  - eapply (read_loose flag); [done|apply find_set_file_same| |done]. cbn [files set_file]. by rewrite lookup_insert_eq.
  - eapply (read_loose flag); [done|apply find_set_file_same| |done]. cbn [files set_file]. by rewrite lookup_insert_eq.
  - intros sha1' Hl' Hok' Hne. apply read_unchanged; [by apply find_set_file_other|].
    intros p Hp ->. unfold find_sha1_file in Hp. apply find_in_path in Hp as (d&c&Hd&E&_). unfold path in E.
    apply object_path_inj in E; try done; [by apply (dir_ok db)|].
    destruct Hdb as [Hd0 Ha]. apply elem_of_cons in Hd as [->|Hd]; [done|]. rewrite Forall_forall in Ha. by apply Ha.
Qed.

(** ** Stores of loose objects *)

(** No packs, and every file found for a name holds an object. *)
Definition loose_only (db : odb) : Prop :=
  packs db = [] /\ forall sha1 path, length sha1 = 20%nat -> bytes_ok sha1 -> find_sha1_file db sha1 = Some path ->
    exists level type data, files db !! path = Some (loose_file level type data) /\ object_ok type data /\
      Z.of_nat (length data) < 2 ^ 28.

(** [write_sha1_file] never leaves a damaged store: whatever the system
    calls answer, it returns (or the process dies on a short write) with a
    store in which every file still holds a whole object; a return value
    other than 0 leaves the store as it was, and 0 means the object is in it. *)
Theorem write_sha1_file_safe (db : odb) (type data : bytes) :
  object_ok type data -> Z.of_nat (length data) < 2 ^ 28 -> odb_ok db -> loose_only db ->
  match write_sha1_file sys db data (Z.of_nat (length data)) type with
  | Ret (r, sha1, db') =>
      sha1 = object_name type data /\ odb_ok db' /\ loose_only db' /\ (r = 0 \/ r = -1 /\ db' = db) /\
      (r = 0 -> link_to sys (object_path (object_dir db) sha1) <> LinkExist -> has_sha1_file db' sha1 = Ret true)
  | Die => write_whole sys = false
  | Ub => False
  end.
Proof.
  intros Hobj Hsmall Hdb [Hnp Hall]. destruct (write_path_ready db type data Hobj Hdb) as (_&Hnl&Hnok).
  assert (exists has, has_sha1_file db (object_name type data) = Ret has) as [has Hhas].
  { unfold has_sha1_file, has_sha1_pack. rewrite Hnp. destruct (find_sha1_file _ _); by eexists. }
  rewrite (write_sha1_file_result db type data has Hobj Hdb Hhas). unfold write_result. cbv zeta.
  set (sha1 := object_name type data) in *. set (path := object_path (object_dir db) sha1).
  assert (Hst : odb_ok (set_file db path (loose_file 9 type data)) /\ loose_only (set_file db path (loose_file 9 type data)) /\
    has_sha1_file (set_file db path (loose_file 9 type data)) sha1 = Ret true).
  { split; [by destruct Hdb|]. split.
    - split; [done|]. intros s p Hs Hsok Hf. destruct (decide (s = sha1)) as [->|Hne].
      + unfold path in Hf. rewrite find_set_file_same in Hf. injection Hf as <-. exists 9, type, data.
        split; [|done]. cbn [files set_file]. by rewrite lookup_insert_eq.
      + unfold path in *. rewrite find_set_file_other in Hf by done. cbn [files set_file].
        destruct (Hall s p Hs Hsok Hf) as (lv&t&d&Hc&Hrest). exists lv, t, d. split; [|done].
        rewrite lookup_insert_ne; [done|]. intros <-. unfold find_sha1_file in Hf.
        apply find_in_path in Hf as (dd&c&Hdd&E&_). apply Hne. symmetry. apply object_path_inj in E; try done; [by apply (dir_ok db)|].
        destruct Hdb as [Hd0 Ha]. apply elem_of_cons in Hdd as [->|Hdd]; [done|]. rewrite Forall_forall in Ha. by apply Ha.
    - unfold has_sha1_file. unfold path. by rewrite find_set_file_same. }
  destruct Hst as (Hst1&Hst2&Hst3). assert (Hlo : loose_only db) by done.
  destruct has; [split_and!; auto; by intros|].
  destruct (open_enoent sys path && mkstemp_ok sys); cbn [negb]; [|split_and!; auto; lia].
  destruct (write_whole sys); cbn [negb]; [|done].
  destruct (link_to sys path) eqn:El; [split_and!; auto|split_and!; auto; by intros|destruct (rename_ok sys); split_and!; auto; lia|split_and!; auto; lia].
Qed.

End WriteRead.

(** ** An empty store, and a system where everything works *)

Module StoreDemo.

Definition sys : os := {| open_noatime := fun _ => false; open_plain := fun _ => true; open_enoent := fun _ => true;
  mkstemp_ok := true; write_whole := true; link_to := fun _ => LinkOk; rename_ok := true |}.

Definition db : odb := {| object_dir := str ".git/objects"; alternates := str "/a::/b:"; files := ∅; packs := [] |}.

Lemma db_ok : odb_ok db.
Proof.
  split; [apply not_elem_check; reflexivity|].
  change (prepare_alt_odb (alternates db)) with [str "/a"; str "/b"]. repeat constructor; apply not_elem_check; reflexivity.
Qed.

Lemma hi_ok : object_ok (str "blob") blob_hi.
Proof.
  split; [exact blob_type_ok|]. split; [apply not_elem_check; reflexivity|]. split; [exact blob_hi_ok|vm_compute; reflexivity].
Qed.

Lemma find_none sha1 : find_sha1_file db sha1 = None.
Proof.
  unfold find_sha1_file. cbn [object_dir alternates db].
  change (prepare_alt_odb (str "/a::/b:")) with [str "/a"; str "/b"]. cbn [find_in files db]. rewrite !lookup_empty. reflexivity.
Qed.

Lemma db_loose `{Zlib} : loose_only db.
Proof. split; [reflexivity|]. intros sha1 path _ _ Hf. rewrite find_none in Hf. discriminate Hf. Qed.

End StoreDemo.

Lemma write_read_sha1_file_witness :
  exists db', write_sha1_file (H := Stored.stored) StoreDemo.sys StoreDemo.db blob_hi 3 (str "blob") =
      Ret (0, object_name (str "blob") blob_hi, db') /\
    read_sha1_file (H := Stored.stored) StoreDemo.sys (fun _ => true) true db' (object_name (str "blob") blob_hi) =
      io_ret (Some (str "blob", blob_hi)) /\
    sha1_object_info (H := Stored.stored) StoreDemo.sys true db' (object_name (str "blob") blob_hi) =
      io_ret (Some (str "blob", 3)) /\
    forall sha1', length sha1' = 20%nat -> bytes_ok sha1' -> sha1' <> object_name (str "blob") blob_hi ->
      read_sha1_file (H := Stored.stored) StoreDemo.sys (fun _ => true) true db' sha1' =
      read_sha1_file (H := Stored.stored) StoreDemo.sys (fun _ => true) true StoreDemo.db sha1'.
Proof.
  apply (write_read_sha1_file (H := Stored.stored) (H0 := Stored.stored_laws) StoreDemo.sys (fun _ => true) true
    StoreDemo.db (str "blob") blob_hi); [exact StoreDemo.hi_ok|exact StoreDemo.db_ok|intros p; reflexivity| |
    reflexivity|reflexivity|reflexivity|left; reflexivity].
  unfold has_sha1_file. rewrite StoreDemo.find_none. reflexivity.
Defined.

Lemma write_sha1_file_safe_witness :
  match write_sha1_file (H := Stored.stored) StoreDemo.sys StoreDemo.db blob_hi 3 (str "blob") with
  | Ret (r, sha1, db') =>
      sha1 = object_name (str "blob") blob_hi /\ odb_ok db' /\ loose_only (H := Stored.stored) db' /\
      (r = 0 \/ r = -1 /\ db' = StoreDemo.db) /\
      (r = 0 -> link_to StoreDemo.sys (object_path (object_dir StoreDemo.db) sha1) <> LinkExist ->
         has_sha1_file db' sha1 = Ret true)
  | Die => write_whole StoreDemo.sys = false
  | Ub => False
  end.
Proof.
  apply (write_sha1_file_safe (H := Stored.stored) StoreDemo.sys StoreDemo.db (str "blob") blob_hi);
    [exact StoreDemo.hi_ok|vm_compute; reflexivity|exact StoreDemo.db_ok|exact StoreDemo.db_loose].
Defined.
