(* ===== verification/PackWrite.v ===== *)
(** * Writing packs (test_git/pack-objects.c)

    The objects named on standard input become the array [objects]
    ([add_object_entry], [get_object_details]); [find_deltas] chooses for
    each the object it is stored as a delta against; [write_pack_file] writes
    the pack with [write_one] and [write_object], each object once and behind
    it its delta base.

    The array [objects] is a list, a pointer into it a position.  The object
    store behind [read_sha1_file] and [sha1_object_info] is a parameter of
    this file, as are zlib and the success of [malloc] in [diff_delta]. *)

From stdpp Require Import base list numbers strings sorting.
From Stdlib Require Import ZArith Lia.
From S2P Require Import Prelude.
From S2P Require Import Sha1.
From S2P Require Import Hex.
From S2P Require Import PktLine.
From S2P Require Import Delta.
From S2P Require Import DiffDelta.
From S2P Require Import CsumFile.
From S2P Require Import PackIndex.
From S2P Require Import Zlib.
From S2P Require Import PackEntry.
From S2P Require Import CString.

(** ** Updates of an entry *)

Definition set_offset (e : object_entry) (o : Z) : object_entry :=
  {| oe_sha1 := oe_sha1 e; oe_size := oe_size e; oe_offset := o; oe_depth := oe_depth e; oe_hash := oe_hash e;
     oe_type := oe_type e; oe_delta_size := oe_delta_size e; oe_delta := oe_delta e |}.

Definition set_type (e : object_entry) (type size : Z) : object_entry :=
  {| oe_sha1 := oe_sha1 e; oe_size := size; oe_offset := oe_offset e; oe_depth := oe_depth e; oe_hash := oe_hash e;
     oe_type := type; oe_delta_size := oe_delta_size e; oe_delta := oe_delta e |}.

Definition set_delta (e : object_entry) (base : nat) (delta_size depth : Z) : object_entry :=
  {| oe_sha1 := oe_sha1 e; oe_size := oe_size e; oe_offset := oe_offset e; oe_depth := depth; oe_hash := oe_hash e;
     oe_type := oe_type e; oe_delta_size := delta_size; oe_delta := Some base |}.

(** ** Code: the list of objects *)

(** The hash of the name behind the 40 digits, up to the NUL. *)
Definition name_hash (p : bytes) : Z :=
  foldl (fun hash c => if isspace c then hash else u32 (hash * 11 + c)) 0 p.

(** [struct unpacked]: a position and the data read for it. *)
Abbreviation unpacked := (nat * bytes)%type.

Section PackObjects.
Context `{Zlib} (malloc_ok : nat -> Z -> bool).
Context (read_sha1_file : bytes -> outcome (option (bytes * bytes))).
Context (sha1_object_info : bytes -> outcome (option (bytes * Z))).
Context (has_sha1_pack : bytes -> bool).

(** Growing the array is [xrealloc]; the new entry is all zero but for its
    name and hash. *)
Definition add_object_entry (incremental : bool) (objects : list object_entry) (sha1 : bytes) (hash : Z)
    : Z * list object_entry :=
  if incremental && has_sha1_pack sha1 then (0, objects)
  else (1, objects ++ [{| oe_sha1 := sha1; oe_size := 0; oe_offset := 0; oe_depth := 0; oe_hash := hash;
                          oe_type := 0; oe_delta_size := 0; oe_delta := None |}]).

(** The [while (fgets(...))] loop of [main] over the lines of standard input;
    each line is the text up to its NUL. *)
Fixpoint read_object_list (incremental : bool) (lines : list bytes) (objects : list object_entry) (ctx : SHA_CTX)
    : outcome (list object_entry * SHA_CTX) :=
  match lines with
  | [] => Ret (objects, ctx)
  | line :: lines =>
      r ← get_sha1_hex (line ++ [0]);
      let '(bad, sha1) := r in
      if negb (bad =? 0) then Die
      else
        let '(added, objects) := add_object_entry incremental objects sha1 (name_hash (drop 40 line)) in
        let ctx := if added =? 0 then ctx else SHA1_Update ctx sha1 20 in
        read_object_list incremental lines objects ctx
  end.

Definition check_object (entry : object_entry) : outcome object_entry :=
  r ← sha1_object_info (oe_sha1 entry);
  match r with
  | None => Die
  | Some (type, size) =>
      if bool_decide (type = str "commit") then Ret (set_type entry OBJ_COMMIT size)
      else if bool_decide (type = str "tree") then Ret (set_type entry OBJ_TREE size)
      else if bool_decide (type = str "blob") then Ret (set_type entry OBJ_BLOB size)
      else if bool_decide (type = str "tag") then Ret (set_type entry OBJ_TAG size)
      else Die
  end.

Fixpoint get_object_details (objects : list object_entry) : outcome (list object_entry) :=
  match objects with
  | [] => Ret []
  | entry :: rest =>
      entry ← check_object entry;
      rest ← get_object_details rest;
      Ret (entry :: rest)
  end.

(** ** Code: sorting

    [qsort] is only known to return a sorted permutation, so
    [create_sorted_list] is the relation between the array and any list of
    pointers it may return. *)

Definition sha1_sort (a b : object_entry) : Z := memcmp 20 (oe_sha1 a) (oe_sha1 b).

(** [pa] and [pb] are the positions of the two entries: the last resort of the
    comparison is that of their addresses. *)
Definition type_size_sort (a b : object_entry) (pa pb : nat) : Z :=
  if oe_type a <? oe_type b then -1
  else if oe_type b <? oe_type a then 1
  else if oe_hash a <? oe_hash b then -1
  else if oe_hash b <? oe_hash a then 1
  else if oe_size a <? oe_size b then -1
  else if oe_size b <? oe_size a then 1
  else if (pa <? pb)%nat then -1 else if (pb <? pa)%nat then 1 else 0.

Definition create_sorted_list (cmp : object_entry -> object_entry -> nat -> nat -> Z)
    (objects : list object_entry) (l : list nat) : Prop :=
  l ≡ₚ seq 0 (length objects) /\
  StronglySorted (fun i j => forall a b, objects !! i = Some a -> objects !! j = Some b -> cmp a b i j <= 0) l.

(** ** Code: choosing deltas *)

(** Returns the value of the call and the array. *)
Definition try_delta (objects : list object_entry) (cur old : unpacked) (max_depth : Z)
    : outcome (Z * list object_entry) :=
  match objects !! fst cur, objects !! fst old with
  | Some cur_entry, Some old_entry =>
      if negb (oe_type cur_entry =? oe_type old_entry) then Ret (-1, objects)
      else
        let size := oe_size cur_entry in
        if size <? 50 then Ret (-1, objects)
        else
          let oldsize := oe_size old_entry in
          let sizediff := if size <? oldsize then oldsize - size else size - oldsize in
          if size / 8 <? sizediff then Ret (-1, objects)
          else if max_depth <=? oe_depth old_entry then Ret (0, objects)
          else
            let max_size := match oe_delta cur_entry with
                            | Some _ => oe_delta_size cur_entry - 1
                            | None => size / 2 - 20
                            end in
            if u64 max_size <=? sizediff then Ret (-1, objects)
            else
              d ← diff_delta malloc_ok (snd old) (snd cur) max_size;
              match d with
              | None => Ret (0, objects)
              | Some delta_buf =>
                  Ret (0, <[fst cur := set_delta cur_entry (fst old) (Z.of_nat (length delta_buf))
                              (oe_depth old_entry + 1)]> objects)
              end
  | _, _ => Ub
  end.

(** [while (--j > 0)] with [array] the window and [n] its entry at [idx]. *)
Fixpoint try_window (j : nat) (window idx : nat) (array : list (option unpacked)) (n : unpacked)
    (max_depth : Z) (objects : list object_entry) : outcome (list object_entry) :=
  match j with
  | O | S O => Ret objects
  | S (S _ as j) =>
      let other_idx := if (window <=? idx + j)%nat then (idx + j - window)%nat else (idx + j)%nat in
      match array !! other_idx with
      | None => Ub
      | Some None => Ret objects
      | Some (Some m) =>
          r ← try_delta objects n m max_depth;
          let '(ret, objects) := r in
          if ret <? 0 then Ret objects else try_window j window idx array n max_depth objects
      end
  end.

(** [todo] is the part of the list still to be visited, last element first. *)
Fixpoint find_deltas_loop (todo : list nat) (window idx : nat) (array : list (option unpacked))
    (depth : Z) (objects : list object_entry) : outcome (list object_entry) :=
  match todo with
  | [] => Ret objects
  | i :: todo =>
      match objects !! i with
      | None => Ub
      | Some entry =>
          r ← read_sha1_file (oe_sha1 entry);
          match r with
          | None => Ub
          | Some (_, data) =>
              if negb (Z.of_nat (length data) =? oe_size entry) then Die
              else if negb (idx <? length array)%nat then Ub
              else
                let n := (i, data) in
                let array := <[idx := Some n]> array in
                objects ← try_window window window idx array n depth objects;
                let idx := S idx in
                find_deltas_loop todo window (if (window <=? idx)%nat then 0%nat else idx) array depth objects
          end
      end
  end.

Definition find_deltas (sorted : list nat) (window : nat) (depth : Z) (objects : list object_entry)
    : outcome (list object_entry) :=
  find_deltas_loop (rev sorted) window 0 (replicate window None) depth objects.

(** ** Code: writing *)

(** The whole of [in] is compressed at once and written. *)
Definition sha1write_compressed (f : sha1file) (buf : bytes) (size : Z) : io (sha1file * Z) :=
  let out := deflate (-1) [take (Z.to_nat (u32 size)) buf] in
  let size := u32 (Z.of_nat (length out)) in
  f <- sha1write f (take (Z.to_nat size) out) ;;
  io_ret (f, size).

Definition delta_against (buf : bytes) (entry base : object_entry) : outcome bytes :=
  r ← read_sha1_file (oe_sha1 base);
  match r with
  | None => Die
  | Some (_, otherbuf) =>
      d ← diff_delta malloc_ok otherbuf buf 0;
      match d with
      | None => Die
      | Some delta_buf =>
          if negb (Z.of_nat (length delta_buf) =? oe_delta_size entry) then Die else Ret delta_buf
      end
  end.

(** What is to be stored for an entry: the type, the size, the name of the
    delta base if there is one, and the data. *)
Definition object_payload (objects : list object_entry) (entry : object_entry)
    : outcome (Z * Z * option bytes * bytes) :=
  r ← read_sha1_file (oe_sha1 entry);
  match r with
  | None => Die
  | Some (_, buf) =>
      if negb (Z.of_nat (length buf) =? oe_size entry) then Die
      else
        match oe_delta entry with
        | None => Ret (oe_type entry, oe_size entry, None, buf)
        | Some d =>
            match objects !! d with
            | None => Ub
            | Some base =>
                delta ← delta_against buf entry base;
                Ret (OBJ_DELTA, oe_delta_size entry, Some (oe_sha1 base), delta)
            end
        end
  end.

Definition write_object (f : sha1file) (objects : list object_entry) (entry : object_entry) : io (sha1file * Z) :=
  r <- Some (object_payload objects entry) ;;
  let '(obj_type, size, base, buf) := r in
  header <- Some (encode_header obj_type size) ;;
  f <- sha1write f header ;;
  f <- match base with Some base => sha1write f (take 20 base) | None => io_ret f end ;;
  let hdrlen := Z.of_nat (length header) + match base with Some _ => 20 | None => 0 end in
  r <- sha1write_compressed f buf size ;;
  let '(f, datalen) := r in
  io_ret (f, u32 (hdrlen + datalen)).

(** Every call but the last finds an entry that was not yet written, so the
    number of objects bounds the recursion. *)
Fixpoint write_one (fuel : nat) (f : sha1file) (objects : list object_entry) (i : nat) (offset : Z)
    : io (sha1file * list object_entry * Z) :=
  match objects !! i with
  | None => Some Ub
  | Some e =>
      if negb (oe_offset e =? 0) then io_ret (f, objects, offset)
      else
        match fuel with
        | O => None
        | S fuel =>
            let objects := <[i := set_offset e offset]> objects in
            r <- write_object f objects e ;;
            let '(f, n) := r in
            let offset := u64 (offset + n) in
            match oe_delta e with
            | Some d => write_one fuel f objects d offset
            | None => io_ret (f, objects, offset)
            end
        end
  end.

Fixpoint write_all (todo : list nat) (f : sha1file) (objects : list object_entry) (offset : Z)
    : io (sha1file * list object_entry * Z) :=
  match todo with
  | [] => io_ret (f, objects, offset)
  | i :: todo =>
      r <- write_one (length objects) f objects i offset ;;
      let '(f, objects, offset) := r in
      write_all todo f objects offset
  end.

Definition PACK_SIGNATURE : Z := 0x5041434b.
Definition PACK_VERSION : Z := 2.

(** [struct pack_header] *)
Definition pack_header (nr_objects : nat) : bytes :=
  be_encode 4 PACK_SIGNATURE ++ be_encode 4 PACK_VERSION ++ be_encode 4 (Z.of_nat nr_objects).

(** Returns the contents of the pack, [pack_file_sha1] and the array with the
    offsets filled in. *)
Definition write_pack_file (ws : list wr) (objects : list object_entry)
    : io (bytes * bytes * list object_entry) :=
  f <- sha1write (sha1fd ws) (pack_header (length objects)) ;;
  r <- write_all (seq 0 (length objects)) f objects 12 ;;
  let '(f, objects, offset) := r in
  r <- sha1close f true ;;
  let '(pack_file_sha1, f) := r in
  io_ret (f_out f, pack_file_sha1, objects).

(** [main] from the list of lines on, without [--stdout]: the list, its
    details, the deltas, the pack and its index.  [sorted_by_type] and
    [sorted_by_sha] are what the two calls of [create_sorted_list] return. *)
Definition pack_objects (incremental non_empty : bool) (window : nat) (depth : Z) (lines : list bytes)
    (sorted_by_sha sorted_by_type : list nat) (ws_pack ws_idx : list wr)
    : io (option (bytes * bytes * list object_entry * bytes)) :=
  r <- Some (read_object_list incremental lines [] SHA1_Init) ;;
  let '(objects, ctx) := r in
  let object_list_sha1 := fst (SHA1_Final ctx) in
  if non_empty && (length objects =? 0)%nat then io_ret None
  else
    objects <- Some (get_object_details objects) ;;
    objects <- Some (if negb (window =? 0)%nat && negb (depth =? 0)
                     then find_deltas sorted_by_type (S window) depth objects else Ret objects) ;;
    r <- write_pack_file ws_pack objects ;;
    let '(pack, pack_file_sha1, objects) := r in
    idx <- write_index_file ws_idx (omap (fun i => objects !! i) sorted_by_sha) pack_file_sha1 ;;
    io_ret (Some (pack, idx, objects, object_list_sha1)).

End PackObjects.
