(* ===== verification/PackRoundtrip.v ===== *)
(** * A pack gives back the objects it was made of

    Proofs about PackWrite.v.  [find_deltas] only builds delta chains that
    are bounded and acyclic; the pack of [write_pack_file] holds every object
    at its recorded offset; with the index of [write_index_file],
    [find_pack_entry_one] and [unpack_entry_gently] recover every object. *)

From stdpp Require Import base list numbers strings sorting.
From Stdlib Require Import ZArith Lia.
From S2P Require Import Prelude.
From S2P Require Import Sha1.
From S2P Require Import Hex.
From S2P Require Import PktLine.
From S2P Require Import Delta.
From S2P Require Import DiffDelta.
From S2P Require Import CsumFile.
From S2P Require Import PackIndex.
From S2P Require Import Zlib.
From S2P Require Import PackEntry.
From S2P Require Import CString.
From S2P Require Import PackWrite.

Section Roundtrip.
Context `{ZlibLaws} (malloc_ok : nat -> Z -> bool).
Context (read_sha1_file : bytes -> outcome (option (bytes * bytes))).

Abbreviation object_payload := (object_payload malloc_ok read_sha1_file).
Abbreviation write_object := (write_object malloc_ok read_sha1_file).
Abbreviation write_one := (write_one malloc_ok read_sha1_file).
Abbreviation write_all := (write_all malloc_ok read_sha1_file).
Abbreviation write_pack_file := (write_pack_file malloc_ok read_sha1_file).

(** ** What is given to the writer *)

(** The store holds [data] under the name of the entry, with its type. *)
Definition readable (e : object_entry) (type data : bytes) : Prop :=
  read_sha1_file (oe_sha1 e) = Ret (Some (type, data)) /\ kind_name (oe_type e) = Some type /\
  bytes_ok data /\ Z.of_nat (length data) < 2 ^ 28.

(** A delta base is an object of the array, of the same type and one step
    closer to an object that is stored whole. *)
Definition delta_ok (objects : list object_entry) (e : object_entry) : Prop :=
  match oe_delta e with
  | None => oe_depth e = 0
  | Some d => exists b, objects !! d = Some b /\ oe_type b = oe_type e /\ oe_depth e = oe_depth b + 1 /\ 0 <= oe_depth b
  end.

Record packable (objects : list object_entry) : Prop := {
  pk_read : forall i e, objects !! i = Some e -> exists type data, readable e type data;
  pk_name : forall i e, objects !! i = Some e -> length (oe_sha1 e) = 20%nat /\ bytes_ok (oe_sha1 e);
  pk_delta : forall i e, objects !! i = Some e -> delta_ok objects e;
  pk_delta_size : forall i e, objects !! i = Some e -> oe_delta e <> None -> oe_delta_size e < 2 ^ 28;
}.

(** Arrays that differ in the offsets only. *)
Definition clear (e : object_entry) : object_entry := set_offset e 0.
Definition same_objects (objs objs' : list object_entry) : Prop := map clear objs = map clear objs'.

Lemma clear_set_offset e o : clear (set_offset e o) = clear e.
Proof. done. Qed.

Lemma same_objects_length objs objs' : same_objects objs objs' -> length objs = length objs'.
Proof. intros E. apply (f_equal length) in E. by rewrite !length_map in E. Qed.

Lemma same_objects_lookup objs objs' i e :
  same_objects objs objs' -> objs !! i = Some e -> exists e', objs' !! i = Some e' /\ clear e = clear e'.
Proof.
  intros E Hi. apply (f_equal (.!! i)) in E. rewrite !list_lookup_fmap, Hi in E.
  destruct (objs' !! i) as [e'|]; [|discriminate E]. exists e'. split; [done|]. exact (inj Some _ _ E).
Qed.

Lemma same_objects_insert objs objs' i e o :
  same_objects objs objs' -> objs' !! i = Some e -> same_objects objs (<[i := set_offset e o]> objs').
Proof.
  unfold same_objects. intros -> Hi. rewrite list_fmap_insert. symmetry. apply list_insert_id.
  by rewrite list_lookup_fmap, Hi.
Qed.

Lemma same_objects_sym objs objs' : same_objects objs objs' -> same_objects objs' objs.
Proof. done. Qed.

Lemma clear_fields e e' : clear e = clear e' ->
  oe_sha1 e = oe_sha1 e' /\ oe_size e = oe_size e' /\ oe_depth e = oe_depth e' /\ oe_type e = oe_type e' /\
  oe_delta_size e = oe_delta_size e' /\ oe_delta e = oe_delta e'.
Proof. unfold clear, set_offset. intros E. injection E as E1 E2 E3 E4 E5 E6 E7. done. Qed.

Lemma payload_same objs objs' e e' :
  same_objects objs objs' -> clear e = clear e' -> object_payload objs e = object_payload objs' e'.
Proof.
  intros Hs He. apply clear_fields in He as (E1&E2&_&E4&E5&E6). unfold PackWrite.object_payload.
  rewrite <- E1, <- E2, <- E4, <- E5, <- E6.
  destruct (read_sha1_file (oe_sha1 e)) as [[[t buf]|]| |]; [|done..]. rewrite !bind_Ret.
  destruct (negb _); [done|]. destruct (oe_delta e) as [d|]; [|done].
  destruct (objs !! d) as [b|] eqn:Eb.
  - destruct (same_objects_lookup _ _ _ _ Hs Eb) as (b'&->&Hb). apply clear_fields in Hb as (Eb'&_).
    unfold delta_against. by rewrite <- E5, Eb'.
  - destruct (objs' !! d) as [b'|] eqn:Eb'; [|done].
    destruct (same_objects_lookup _ _ _ _ (same_objects_sym _ _ Hs) Eb') as (b&E&_). congruence.
Qed.

Lemma packable_same objs objs' : same_objects objs objs' -> packable objs -> packable objs'.
Proof.
  intros Hs [H1 H2 H3 H4].
  assert (Hback : forall i e', objs' !! i = Some e' -> exists e, objs !! i = Some e /\ clear e = clear e').
  { intros i e' Hi. destruct (same_objects_lookup _ _ i e' (same_objects_sym _ _ Hs) Hi) as (e&?&?). by exists e. }
  split; intros i e' Hi; destruct (Hback i e' Hi) as (e&He&Hc); apply clear_fields in Hc as (E1&E2&E3&E4&E5&E6).
  - unfold readable. rewrite <- E1, <- E4. apply (H1 _ _ He).
  - rewrite <- E1. apply (H2 _ _ He).
  - specialize (H3 _ _ He). unfold delta_ok in *. rewrite <- E6, <- E3, <- E4. destruct (oe_delta e) as [d|]; [|done].
    destruct H3 as (b&Hb&Ht&Hd). destruct (same_objects_lookup _ _ _ _ Hs Hb) as (b'&Hb'&Hcb).
    apply clear_fields in Hcb as (_&_&Ed&Et&_). exists b'. rewrite <- Et, <- Ed. done.
  - rewrite <- E5, <- E6. apply (H4 _ _ He).
Qed.

(** ** The bytes of one entry *)

Definition entry_bytes (p : Z * Z * option bytes * bytes) : bytes :=
  let '(type, size, base, buf) := p in
  object_hdr type size ++ default [] base ++ deflate (-1) [buf].

(** A payload that the formats can carry. *)
Definition payload_ok (p : Z * Z * option bytes * bytes) : Prop :=
  let '(type, size, base, buf) := p in
  1 <= type <= 7 /\ size = Z.of_nat (length buf) /\ size < 2 ^ 28 /\ bytes_ok buf /\
  match base with Some b => length b = 20%nat /\ bytes_ok b | None => True end.

Lemma kind_name_range kind type : kind_name kind = Some type -> 1 <= kind <= 4.
Proof.
  unfold kind_name, OBJ_COMMIT, OBJ_TREE, OBJ_BLOB, OBJ_TAG.
  destruct (Z.eqb_spec kind 1), (Z.eqb_spec kind 2), (Z.eqb_spec kind 3), (Z.eqb_spec kind 4); (lia || done).
Qed.

(** The payload of an entry: its data, or a delta that makes its data out of
    the data of its base. *)
Definition payload_spec (objects : list object_entry) (e : object_entry) (p : Z * Z * option bytes * bytes) : Prop :=
  let '(type, size, base, buf) := p in
  exists tname data, readable e tname data /\
  match oe_delta e with
  | None => type = oe_type e /\ base = None /\ buf = data
  | Some d => exists b bt bdata, objects !! d = Some b /\ readable b bt bdata /\
      type = OBJ_DELTA /\ base = Some (oe_sha1 b) /\
      patch_delta (fun _ => true) bdata buf (Z.of_nat (length buf)) = Ret (Some data)
  end.

Lemma payload_correct objects i e p :
  packable objects -> objects !! i = Some e -> object_payload objects e = Ret p ->
  payload_ok p /\ payload_spec objects e p.
Proof.
  intros Hp He. destruct (pk_read _ Hp _ _ He) as (tname&data&Hr). pose proof Hr as (Hread&Hk&Hok&Hlen).
  unfold PackWrite.object_payload. rewrite Hread, bind_Ret.
  destruct (Z.eqb_spec (Z.of_nat (length data)) (oe_size e)) as [Hsz|]; [|done]. cbn [negb].
  pose proof (pk_delta _ Hp _ _ He) as Hd. unfold delta_ok in Hd. pose proof (kind_name_range _ _ Hk) as Hkr.
  destruct (oe_delta e) as [d|] eqn:Ed.
  - destruct Hd as (b&Hb&_). rewrite Hb. intros (delta&Hda&[= <-])%bind_Ret_inv.
    destruct (pk_read _ Hp _ _ Hb) as (bt&bdata&Hrb). pose proof Hrb as (Hreadb&Hkb&Hokb&Hlenb).
    unfold delta_against in Hda. rewrite Hreadb, bind_Ret in Hda. apply bind_Ret_inv in Hda as ([dl|]&Hdd&Hda); [|done].
    destruct (Z.eqb_spec (Z.of_nat (length dl)) (oe_delta_size e)) as [Hds|]; [|done]. injection Hda as ->.
    apply diff_delta_patches in Hdd as [Hdok Hpatch]; [|done|lia|lia].
    pose proof (pk_delta_size _ Hp _ _ He ltac:(by rewrite Ed)). pose proof (pk_name _ Hp _ _ Hb) as Hbn. cbn. split.
    + unfold OBJ_DELTA. split_and!; try lia; apply Hbn || done.
    + exists tname, data. split; [done|]. rewrite Ed. by exists b, bt, bdata.
  - intros [= <-]. cbn. split; [split_and!; (lia || done)|]. exists tname, data. split; [done|]. by rewrite Ed.
Qed.

Lemma entry_bytes_ok p : payload_ok p -> bytes_ok (entry_bytes p).
Proof.
  destruct p as [[[type size] base] buf]. intros (Ht&_&_&Hb&Hbase). cbn. repeat apply bytes_ok_app_2.
  - by apply object_hdr_ok.
  - destruct base; [apply Hbase|apply bytes_ok_nil].
  - apply deflate_bytes_ok. by constructor.
Qed.

Lemma header_bytes_length fuel c z : (length (header_bytes fuel c z) <= S fuel)%nat.
Proof.
  revert c z; induction fuel as [|fuel IH]; intros c z; cbn [header_bytes]; [simpl; lia|].
  destruct (z =? 0); cbn [length]; [lia|]. specialize (IH (z mod 128) (z / 128)). lia.
Qed.

Lemma entry_bytes_bound p : payload_ok p -> Z.of_nat (length (entry_bytes p)) < 2 ^ 30.
Proof.
  destruct p as [[[type size] base] buf]. intros (Ht&Hs&Hsz&Hb&Hbase). cbn [entry_bytes]. rewrite !length_app.
  pose proof (header_bytes_length 9 (16 * type + size mod 16) (size / 16)) as Hh. fold (object_hdr type size) in Hh.
  pose proof (deflate_bound (-1) [buf]) as Hd. cbn [concat] in Hd. rewrite app_nil_r in Hd.
  assert (length (default [] base) <= 20)%nat by (destruct base; simpl; [destruct Hbase; lia|lia]).
  change (2 ^ 30) with (4 * 2 ^ 28). lia.
Qed.

Lemma entry_bytes_nonempty p : (1 <= length (entry_bytes p))%nat.
Proof.
  destruct p as [[[type size] base] buf]. cbn [entry_bytes]. rewrite length_app. pose proof (object_hdr_nonempty type size). lia.
Qed.

(** [write_object] appends the bytes of the entry and returns their number. *)
Lemma write_object_spec f m objects i e f' n :
  packable objects -> objects !! i = Some e -> holds f m -> write_object f objects e = io_ret (f', n) ->
  exists p, object_payload objects e = Ret p /\ holds f' (m ++ entry_bytes p) /\ n = Z.of_nat (length (entry_bytes p)).
Proof.
  intros Hp He Hf. unfold PackWrite.write_object. intros ([[[type size] base] buf]&Hpay&Hw)%io_bind_inv.
  injection Hpay as Hpay. destruct (payload_correct _ _ _ _ Hp He Hpay) as [Hok _].
  pose proof (entry_bytes_bound _ Hok) as Hbound.
  exists (type, size, base, buf). split; [done|]. destruct Hok as (Ht&Hs&Hsz&Hbok&Hbase).
  apply io_bind_inv in Hw as (header&Hh&Hw). rewrite encode_header_eq in Hh by lia. injection Hh as <-.
  apply io_bind_inv in Hw as (f1&H1&Hw). apply (sha1write_holds _ _ _ _ Hf) in H1.
  apply io_bind_inv in Hw as (f2&H2&Hw).
  assert (H2' : holds f2 ((m ++ object_hdr type size) ++ default [] base)).
  { destruct base as [b|]; [|injection H2 as <-; by rewrite app_nil_r].
    destruct Hbase as [Hbl _]. rewrite take_ge in H2 by lia. by apply (sha1write_holds _ _ _ _ H1). }
  apply io_bind_inv in Hw as ([f3 datalen]&H3&Hw). injection Hw as <- <-.
  unfold sha1write_compressed in H3. cbv zeta in H3.
  rewrite (u32_small size) in H3 by lia. rewrite Hs, Nat2Z.id, (take_ge buf) in H3 by lia.
  cbn [entry_bytes] in *. rewrite !length_app in Hbound |- *.
  rewrite u32_small, Nat2Z.id, take_ge in H3 by (change (2 ^ 30) with (4 * 2 ^ 28) in *; lia).
  apply io_bind_inv in H3 as (g&H3&H3'). injection H3' as <- <-.
  apply (sha1write_holds _ _ _ _ H2') in H3. rewrite <- !app_assoc in H3. split; [done|].
  assert (Hb20 : match base with Some _ => 20 | None => 0 end = Z.of_nat (length (default [] base)))
    by (destruct base; [destruct Hbase; simpl; lia|done]).
  rewrite Hb20, u32_small; change (2 ^ 32) with (4 * 2 ^ 30); lia.
Qed.

Lemma write_object_same f objs objs' e e' :
  same_objects objs objs' -> clear e = clear e' -> write_object f objs e = write_object f objs' e'.
Proof. intros Hs He. unfold PackWrite.write_object. by rewrite (payload_same _ _ _ _ Hs He). Qed.

(** ** The whole pack *)

(** The entry of the array that stands at position [i] has been written. *)
Definition written (objects : list object_entry) (i : nat) : Prop :=
  exists e, objects !! i = Some e /\ oe_offset e <> 0.

(** The stream [m] holds every entry of the array that has an offset. *)
Record wok (objs0 objects : list object_entry) (m : bytes) (offset : Z) : Prop := {
  wok_same : same_objects objs0 objects;
  wok_offset : offset = Z.of_nat (length m);
  wok_start : 0 < offset;
  wok_entries : forall i e, objects !! i = Some e -> oe_offset e <> 0 ->
    exists p, object_payload objs0 e = Ret p /\ at_offset m (oe_offset e) (entry_bytes p);
}.

Lemma at_offset_app m o bs x : at_offset m o bs -> at_offset (m ++ x) o bs.
Proof. intros (P&R&->&->). exists P, (R ++ x). split; [|done]. by rewrite <- !app_assoc. Qed.

Lemma lookup_insert_cases (objects : list object_entry) i j e e' :
  <[i := e]> objects !! j = Some e' -> (j = i /\ e' = e) \/ (j <> i /\ objects !! j = Some e').
Proof.
  intros Hj. destruct (decide (i = j)) as [->|Hne].
  - left. rewrite list_lookup_insert_Some in Hj. destruct Hj as [(_&->&_)|(?&_)]; done.
  - right. by rewrite list_lookup_insert_ne in Hj.
Qed.

Lemma written_insert objects i e o j :
  objects !! i = Some e -> o <> 0 -> written objects j \/ j = i -> written (<[i := set_offset e o]> objects) j.
Proof.
  intros Hi Ho Hj. destruct (decide (i = j)) as [->|Hne].
  - exists (set_offset e o). split; [|done]. apply list_lookup_insert_eq. by eapply lookup_lt_Some.
  - destruct Hj as [(e'&He'&Ho')|]; [|done]. exists e'. by rewrite list_lookup_insert_ne.
Qed.

(** One object recorded at the end of the stream and written there. *)
Lemma wok_step objs0 objects m offset i e p :
  wok objs0 objects m offset -> objects !! i = Some e -> object_payload objs0 e = Ret p ->
  Z.of_nat (length (m ++ entry_bytes p)) < 2 ^ 64 ->
  wok objs0 (<[i := set_offset e offset]> objects) (m ++ entry_bytes p)
    (u64 (offset + Z.of_nat (length (entry_bytes p)))).
Proof.
  intros [Hs Ho Hst Hen] Hi Hp Hlen. rewrite length_app in Hlen.
  assert (E : u64 (offset + Z.of_nat (length (entry_bytes p))) = Z.of_nat (length (m ++ entry_bytes p))).
  { rewrite length_app, u64_small; lia. }
  split; [by apply same_objects_insert|done|rewrite E, length_app; lia|].
  intros j e' Hj Hne. apply lookup_insert_cases in Hj as [[-> ->]|[Hji Hj]].
  - exists p. split; [rewrite <- Hp; by apply payload_same|]. exists m, []. cbn [oe_offset set_offset]. by rewrite app_nil_r.
  - destruct (Hen _ _ Hj Hne) as (p'&Hp'&Hat). exists p'. split; [done|]. by apply at_offset_app.
Qed.

Lemma holds_inj f m m' : holds f m -> holds f m' -> m = m'.
Proof. by intros [<- _ _] [<- _ _]. Qed.

(** The call [write_object] makes inside [write_one]. *)
Lemma write_object_step objs0 f objects i e offset m f1 n :
  packable objs0 -> same_objects objs0 objects -> objects !! i = Some e -> holds f m ->
  write_object f (<[i := set_offset e offset]> objects) e = io_ret (f1, n) ->
  exists p, object_payload objs0 e = Ret p /\ holds f1 (m ++ entry_bytes p) /\ bytes_ok (entry_bytes p) /\
    n = Z.of_nat (length (entry_bytes p)).
Proof.
  intros Hpk Hs He Hf Hwo.
  destruct (same_objects_lookup _ _ _ _ (same_objects_sym _ _ Hs) He) as (e0&He0&Hc).
  rewrite (write_object_same _ _ objs0 _ e0) in Hwo; [|apply same_objects_sym; by apply same_objects_insert|done].
  destruct (write_object_spec _ _ _ _ _ _ _ Hpk He0 Hf Hwo) as (p&Hp&Hh&->). exists p.
  destruct (payload_correct _ _ _ _ Hpk He0 Hp) as [Hpok _].
  split_and!; [rewrite <- Hp; by apply payload_same|done|by apply entry_bytes_ok|done].
Qed.

Lemma write_one_grows objs0 fuel f objects i offset m f' objects' offset' :
  packable objs0 -> holds f m -> same_objects objs0 objects ->
  write_one fuel f objects i offset = io_ret (f', objects', offset') ->
  exists m', holds f' (m ++ m') /\ bytes_ok m' /\ same_objects objs0 objects'.
Proof.
  intros Hpk. revert f objects i offset m.
  assert (Hstop : forall f m objects, holds f m -> same_objects objs0 objects ->
    exists m', holds f (m ++ m') /\ bytes_ok m' /\ same_objects objs0 objects).
  { intros f m objects Hf Hs. exists []. rewrite app_nil_r. split_and!; [done|apply bytes_ok_nil|done]. }
  induction fuel as [|fuel IH]; intros f objects i offset m Hf Hs; cbn [PackWrite.write_one];
    destruct (objects !! i) as [e|] eqn:He; try done; destruct (Z.eqb_spec (oe_offset e) 0); cbn [negb]; try done;
    try (intros [= <- <- <-]; by apply Hstop).
  intros ([f1 n]&Hwo&Hrest)%io_bind_inv.
  destruct (write_object_step _ _ _ _ _ _ _ _ _ Hpk Hs He Hf Hwo) as (p&Hp&Hh&Hbok&->).
  pose proof (same_objects_insert _ _ i e offset Hs He) as Hs'.
  destruct (oe_delta e) as [d|].
  - destruct (IH _ _ _ _ _ Hh Hs' Hrest) as (m'&Hh'&Hok'&Hs''). exists (entry_bytes p ++ m').
    rewrite app_assoc. split_and!; [done|by apply bytes_ok_app_2|done].
  - injection Hrest as <- <- <-. by exists (entry_bytes p).
Qed.

Lemma write_one_spec objs0 fuel f objects i offset m f' objects' offset' m' :
  packable objs0 -> holds f m -> wok objs0 objects m offset ->
  write_one fuel f objects i offset = io_ret (f', objects', offset') -> holds f' m' ->
  Z.of_nat (length m') < 2 ^ 64 ->
  wok objs0 objects' m' offset' /\ written objects' i /\ (forall j, written objects j -> written objects' j).
Proof.
  intros Hpk Hf Hw Ho Hf' Hlen. revert f objects i offset m Hf Hw Ho.
  assert (Hstop : forall f m objects offset i e, holds f m -> wok objs0 objects m offset -> objects !! i = Some e ->
    oe_offset e <> 0 -> (f, objects, offset) = (f', objects', offset') ->
    wok objs0 objects' m' offset' /\ written objects' i /\ (forall j, written objects j -> written objects' j)).
  { intros f m objects offset i e Hf Hw He Hne [= -> -> ->]. rewrite (holds_inj _ _ _ Hf' Hf).
    split_and!; [done|by exists e|done]. }
  induction fuel as [|fuel IH]; intros f objects i offset m Hf Hw; cbn [PackWrite.write_one];
    destruct (objects !! i) as [e|] eqn:He; try done; destruct (Z.eqb_spec (oe_offset e) 0); cbn [negb]; try done;
    try (intros E; by eapply Hstop; [..|injection E as -> -> ->]).
  intros ([f1 n]&Hwo&Hrest)%io_bind_inv. pose proof (wok_same _ _ _ _ Hw) as Hs.
  assert (Hon : offset <> 0) by (destruct Hw; lia).
  destruct (write_object_step _ _ _ _ _ _ _ _ _ Hpk Hs He Hf Hwo) as (p&Hp&Hh&Hbok&->).
  pose proof (same_objects_insert _ _ i e offset Hs He) as Hs'.
  destruct (oe_delta e) as [d|].
  - destruct (write_one_grows _ _ _ _ _ _ _ _ _ _ Hpk Hh Hs' Hrest) as (x&Hx&_&_).
    pose proof (holds_inj _ _ _ Hf' Hx) as ->.
    assert (Hl : Z.of_nat (length (m ++ entry_bytes p)) < 2 ^ 64) by (rewrite (length_app (m ++ _)) in Hlen; lia).
    destruct (IH _ _ _ _ _ Hh (wok_step _ _ _ _ _ _ _ Hw He Hp Hl) Hrest) as (H1&H2&H3).
    split_and!; [done|apply H3, written_insert; auto|]. intros j Hj. apply H3, written_insert; auto.
  - injection Hrest as -> <- <-. pose proof (holds_inj _ _ _ Hf' Hh) as ->.
    split_and!; [by apply wok_step|apply written_insert; auto|]. intros j Hj. apply written_insert; auto.
Qed.

Lemma write_all_grows objs0 todo f objects offset m f' objects' offset' :
  packable objs0 -> holds f m -> same_objects objs0 objects ->
  write_all todo f objects offset = io_ret (f', objects', offset') ->
  exists m', holds f' (m ++ m') /\ bytes_ok m' /\ same_objects objs0 objects'.
Proof.
  intros Hpk. revert f objects offset m; induction todo as [|i todo IH]; intros f objects offset m Hf Hs;
    cbn [PackWrite.write_all].
  { intros [= <- <- <-]. exists []. rewrite app_nil_r. split_and!; [done|apply bytes_ok_nil|done]. }
  intros ([[f1 o1] off1]&H1&H2)%io_bind_inv.
  destruct (write_one_grows _ _ _ _ _ _ _ _ _ _ Hpk Hf Hs H1) as (m1&Hh1&Hok1&Hs1).
  destruct (IH _ _ _ _ Hh1 Hs1 H2) as (m2&Hh2&Hok2&Hs2). exists (m1 ++ m2). rewrite app_assoc.
  split_and!; [done|by apply bytes_ok_app_2|done].
Qed.

Lemma write_all_spec objs0 todo f objects offset m f' objects' offset' m' :
  packable objs0 -> holds f m -> wok objs0 objects m offset ->
  write_all todo f objects offset = io_ret (f', objects', offset') -> holds f' m' ->
  Z.of_nat (length m') < 2 ^ 64 ->
  wok objs0 objects' m' offset' /\ (forall j, j ∈ todo \/ written objects j -> written objects' j).
Proof.
  intros Hpk Hf Hw Ho Hf' Hlen. revert f objects offset m Hf Hw Ho.
  induction todo as [|i todo IH]; intros f objects offset m Hf Hw; cbn [PackWrite.write_all].
  { intros [= -> -> ->]. rewrite (holds_inj _ _ _ Hf' Hf). split; [done|]. intros j [Hj|]; [by apply elem_of_nil in Hj|done]. }
  intros ([[f1 o1] off1]&H1&H2)%io_bind_inv.
  destruct (write_one_grows _ _ _ _ _ _ _ _ _ _ Hpk Hf (wok_same _ _ _ _ Hw) H1) as (m1&Hh1&_&Hs1).
  destruct (write_all_grows _ _ _ _ _ _ _ _ _ Hpk Hh1 Hs1 H2) as (m2&Hh2&_&_).
  pose proof (holds_inj _ _ _ Hf' Hh2) as ->.
  assert (Hl : Z.of_nat (length (m ++ m1)) < 2 ^ 64) by (rewrite (length_app (m ++ _)) in Hlen; lia).
  destruct (write_one_spec _ _ _ _ _ _ _ _ _ _ _ Hpk Hf Hw H1 Hh1 Hl) as (Hw1&Hi&Hk).
  destruct (IH _ _ _ _ Hh1 Hw1 H2) as (Hw2&Hj). split; [done|].
  intros j [[->|Hin]%elem_of_cons|Hj']; apply Hj; auto.
Qed.

(** *** The order of the entries

    [m] is [hdr] and behind it the entries of [order], which are the ones that
    have been written. *)
Definition entry_payload (objs0 : list object_entry) (i : nat) (p : Z * Z * option bytes * bytes) : Prop :=
  exists e, objs0 !! i = Some e /\ object_payload objs0 e = Ret p.

Definition in_order (objs0 objects : list object_entry) (hdr : bytes) (order : list nat) (m : bytes) : Prop :=
  NoDup order /\ (forall i, i ∈ order <-> written objects i) /\
  exists ps, Forall2 (entry_payload objs0) order ps /\ m = hdr ++ concat (map entry_bytes ps).

Lemma in_order_step objs0 objects hdr order m i e o p :
  same_objects objs0 objects -> in_order objs0 objects hdr order m -> objects !! i = Some e -> oe_offset e = 0 -> o <> 0 ->
  object_payload objs0 e = Ret p ->
  in_order objs0 (<[i := set_offset e o]> objects) hdr (order ++ [i]) (m ++ entry_bytes p).
Proof.
  intros Hs (Hnd&Hw&ps&HF&->) He Hz Ho Hp.
  assert (Hni : i ∉ order) by (intros (e'&He'&Hne)%Hw; congruence). split; [|split].
  - apply NoDup_app. split; [done|]. split; [|apply NoDup_singleton]. intros j Hj Hin%list_elem_of_singleton. congruence.
  - intros j. rewrite elem_of_app, list_elem_of_singleton, Hw. split; [intros Hj; by eapply written_insert|].
    intros (e'&He'&Hne). apply lookup_insert_cases in He' as [[-> ->]|[Hji He']]; [by right|]. left. by exists e'.
  - exists (ps ++ [p]). split.
    + apply Forall2_app; [done|]. constructor; [|constructor].
      destruct (same_objects_lookup _ _ _ _ (same_objects_sym _ _ Hs) He) as (e0&He0&Hc). exists e0. split; [done|].
      rewrite <- Hp. symmetry. by apply payload_same.
    + rewrite map_app, concat_app. cbn [map concat]. by rewrite app_nil_r, <- app_assoc.
Qed.

Lemma write_one_in_order objs0 hdr fuel f objects i offset m order f' objects' offset' m' :
  packable objs0 -> holds f m -> wok objs0 objects m offset -> in_order objs0 objects hdr order m ->
  write_one fuel f objects i offset = io_ret (f', objects', offset') -> holds f' m' ->
  Z.of_nat (length m') < 2 ^ 64 -> exists order', in_order objs0 objects' hdr order' m'.
Proof.
  intros Hpk Hf Hw Hord Ho Hf' Hlen. revert f objects i offset m order Hf Hw Hord Ho.
  induction fuel as [|fuel IH]; intros f objects i offset m order Hf Hw Hord; cbn [PackWrite.write_one];
    destruct (objects !! i) as [e|] eqn:He; try done; destruct (Z.eqb_spec (oe_offset e) 0) as [Hz|]; cbn [negb]; try done;
    try (intros [= -> -> ->]; rewrite (holds_inj _ _ _ Hf' Hf); by exists order).
  intros ([f1 n]&Hwo&Hrest)%io_bind_inv. pose proof (wok_same _ _ _ _ Hw) as Hs.
  assert (Hon : offset <> 0) by (destruct Hw; lia).
  destruct (write_object_step _ _ _ _ _ _ _ _ _ Hpk Hs He Hf Hwo) as (p&Hp&Hh&Hbok&->).
  pose proof (same_objects_insert _ _ i e offset Hs He) as Hs'.
  pose proof (in_order_step _ _ _ _ _ _ _ offset _ Hs Hord He Hz Hon Hp) as Hord'.
  destruct (oe_delta e) as [d|].
  - destruct (write_one_grows _ _ _ _ _ _ _ _ _ _ Hpk Hh Hs' Hrest) as (x&Hx&_&_).
    pose proof (holds_inj _ _ _ Hf' Hx) as ->.
    assert (Hl : Z.of_nat (length (m ++ entry_bytes p)) < 2 ^ 64) by (rewrite (length_app (m ++ _)) in Hlen; lia).
    by apply (IH _ _ _ _ _ _ Hh (wok_step _ _ _ _ _ _ _ Hw He Hp Hl) Hord' Hrest).
  - injection Hrest as -> <- <-. pose proof (holds_inj _ _ _ Hf' Hh) as ->. by eexists.
Qed.

Lemma write_all_in_order objs0 hdr todo f objects offset m order f' objects' offset' m' :
  packable objs0 -> holds f m -> wok objs0 objects m offset -> in_order objs0 objects hdr order m ->
  write_all todo f objects offset = io_ret (f', objects', offset') -> holds f' m' ->
  Z.of_nat (length m') < 2 ^ 64 -> exists order', in_order objs0 objects' hdr order' m'.
Proof.
  intros Hpk Hf Hw Hord Ho Hf' Hlen. revert f objects offset m order Hf Hw Hord Ho.
  induction todo as [|i todo IH]; intros f objects offset m order Hf Hw Hord; cbn [PackWrite.write_all].
  { intros [= -> -> ->]. rewrite (holds_inj _ _ _ Hf' Hf). by exists order. }
  intros ([[f1 o1] off1]&H1&H2)%io_bind_inv.
  destruct (write_one_grows _ _ _ _ _ _ _ _ _ _ Hpk Hf (wok_same _ _ _ _ Hw) H1) as (m1&Hh1&_&Hs1).
  destruct (write_all_grows _ _ _ _ _ _ _ _ _ Hpk Hh1 Hs1 H2) as (m2&Hh2&_&_).
  pose proof (holds_inj _ _ _ Hf' Hh2) as ->.
  assert (Hl : Z.of_nat (length (m ++ m1)) < 2 ^ 64) by (rewrite (length_app (m ++ _)) in Hlen; lia).
  destruct (write_one_spec _ _ _ _ _ _ _ _ _ _ _ Hpk Hf Hw H1 Hh1 Hl) as (Hw1&_&_).
  destruct (write_one_in_order _ _ _ _ _ _ _ _ _ _ _ _ _ Hpk Hf Hw Hord H1 Hh1 Hl) as (order1&Hord1).
  by apply (IH _ _ _ _ _ Hh1 Hw1 Hord1 H2).
Qed.

Lemma pack_header_length n : length (pack_header n) = 12%nat.
Proof. unfold pack_header. by rewrite !length_app, !length_be_encode. Qed.

Lemma pack_header_ok n : bytes_ok (pack_header n).
Proof. unfold pack_header. apply bytes_ok_app_2; [|apply bytes_ok_app_2]; apply be_encode_bytes_ok. Qed.

(** The writing of a pack from its header on. *)
Lemma write_pack_file_stream ws objects pack sha objects' :
  packable objects -> (forall i e, objects !! i = Some e -> oe_offset e = 0) ->
  write_pack_file ws objects = io_ret (pack, sha, objects') -> Z.of_nat (length pack) < 2 ^ 32 ->
  exists f f1 off1 m1, let m := pack_header (length objects) ++ m1 in
    holds f (pack_header (length objects)) /\ wok objects objects (pack_header (length objects)) 12 /\
    write_all (seq 0 (length objects)) f objects 12 = io_ret (f1, objects', off1) /\ holds f1 m /\
    same_objects objects objects' /\ bytes_ok m /\ pack = m ++ Fips.sha1 m /\ sha = Fips.sha1 m.
Proof.
  intros Hpk Hz Hw Hlen. unfold PackWrite.write_pack_file in Hw.
  apply io_bind_inv in Hw as (f&Hf&Hw). apply (sha1write_holds _ _ _ _ (sha1fd_holds ws)) in Hf. rewrite app_nil_l in Hf.
  apply io_bind_inv in Hw as ([[f1 o1] off1]&Ha&Hw). apply io_bind_inv in Hw as ([r f2]&Hc&Hw). injection Hw as <- <- <-.
  destruct (write_all_grows _ _ _ _ _ _ _ _ _ Hpk Hf eq_refl Ha) as (m1&Hh1&Hok1&Hs1).
  set (m := pack_header (length objects) ++ m1) in *.
  assert (Hmok : bytes_ok m) by (apply bytes_ok_app_2; [apply pack_header_ok|done]).
  destruct (sha1close_holds _ _ true _ _ Hh1 Hmok Hc) as [-> Ho].
  exists f, f1, off1, m1. rewrite Ho. split_and!; try done.
  split; [done|by rewrite pack_header_length|lia|]. intros j e' He' Hne. by rewrite (Hz _ _ He') in Hne.
Qed.

(** The pack is its header, one entry per object and its SHA-1. *)
Lemma write_pack_file_entries ws objects pack sha objects' :
  packable objects -> (forall i e, objects !! i = Some e -> oe_offset e = 0) ->
  write_pack_file ws objects = io_ret (pack, sha, objects') -> Z.of_nat (length pack) < 2 ^ 32 ->
  exists order ps, order ≡ₚ seq 0 (length objects) /\ Forall2 (entry_payload objects) order ps /\
    let m := pack_header (length objects) ++ concat (map entry_bytes ps) in
    bytes_ok m /\ pack = m ++ Fips.sha1 m.
Proof.
  intros Hpk Hz Hw Hlen.
  destruct (write_pack_file_stream _ _ _ _ _ Hpk Hz Hw Hlen) as (f&f1&off1&m1&Hf&Hw0&Ha&Hh1&Hs1&Hmok&Hpack&_).
  assert (Hml : Z.of_nat (length (pack_header (length objects) ++ m1)) < 2 ^ 64) by (rewrite Hpack, length_app in Hlen; lia).
  assert (Hstart : in_order objects objects (pack_header (length objects)) [] (pack_header (length objects))).
  { split; [constructor|]. split; [|exists []; split; [constructor|by rewrite app_nil_r]].
    intros i. split; [by intros ?%elem_of_nil|]. intros (e&He&Hne). by rewrite (Hz _ _ He) in Hne. }
  destruct (write_all_in_order _ _ _ _ _ _ _ _ _ _ _ _ Hpk Hf Hw0 Hstart Ha Hh1 Hml) as (order&Hnd&Hwr&ps&HF&Em).
  destruct (write_all_spec _ _ _ _ _ _ _ _ _ _ Hpk Hf Hw0 Ha Hh1 Hml) as (_&Hall).
  exists order, ps. split; [|split; [done|by rewrite <- Em]].
  apply NoDup_Permutation; [done|apply NoDup_seq|]. intros i. rewrite Hwr, elem_of_seq. split.
  - intros (e&He&_). apply lookup_lt_Some in He. rewrite (same_objects_length _ _ Hs1). lia.
  - intros Hi. apply Hall. left. by apply elem_of_seq.
Qed.

(** Everything the pack holds when [write_pack_file] returns. *)
Lemma write_pack_file_spec ws objects pack sha objects' :
  packable objects -> (forall i e, objects !! i = Some e -> oe_offset e = 0) ->
  write_pack_file ws objects = io_ret (pack, sha, objects') -> Z.of_nat (length pack) < 2 ^ 32 ->
  exists m, pack = m ++ Fips.sha1 m /\ sha = Fips.sha1 m /\ bytes_ok m /\ same_objects objects objects' /\
    forall i e, objects' !! i = Some e ->
      0 < oe_offset e < Z.of_nat (length m) /\
      exists p, object_payload objects e = Ret p /\ at_offset pack (oe_offset e) (entry_bytes p).
Proof.
  intros Hpk Hz Hw Hlen.
  destruct (write_pack_file_stream _ _ _ _ _ Hpk Hz Hw Hlen) as (f&f1&off1&m1&Hf&Hw0&Ha&Hh1&Hs1&Hmok&Hpack&->).
  set (m := pack_header (length objects) ++ m1) in *.
  exists m. split_and!; [done..|]. intros i e He.
  assert (Hml : Z.of_nat (length m) < 2 ^ 64) by (rewrite Hpack, length_app in Hlen; lia).
  destruct (write_all_spec _ _ _ _ _ _ _ _ _ _ Hpk Hf Hw0 Ha Hh1 Hml) as (Hw'&Hall).
  assert (Hi : written objects' i).
  { apply Hall. left. apply elem_of_seq. apply lookup_lt_Some in He. rewrite <- (same_objects_length _ _ Hs1) in He. lia. }
  destruct Hi as (e'&He'&Hne). rewrite He in He'. injection He' as <-.
  destruct (wok_entries _ _ _ _ Hw' _ _ He Hne) as (p&Hp&Hat).
  split; [|exists p; split; [done|rewrite Hpack; by apply at_offset_app]].
  destruct Hat as (P&R&Em&Eo). rewrite Eo in *. rewrite Em, !length_app. pose proof (entry_bytes_nonempty p). lia.
Qed.

(** ** The index of the pack *)

Lemma StronglySorted_by_lookup {A} (R : A -> A -> Prop) l :
  (forall i j a b, (i < j)%nat -> l !! i = Some a -> l !! j = Some b -> R a b) -> StronglySorted R l.
Proof.
  induction l as [|x l IH]; intros Hl; constructor.
  - apply IH. intros i j a b Hij Ha Hb. by apply (Hl (S i) (S j)); [lia|..].
  - apply Forall_lookup. intros j b Hb. by apply (Hl 0%nat (S j)); [lia|..].
Qed.

Lemma omap_lookup_total {A} (objs : list A) (ps : list nat) :
  Forall (fun i => (i < length objs)%nat) ps ->
  forall k, omap (fun i => objs !! i) ps !! k = ps !! k ≫= fun i => objs !! i.
Proof.
  induction 1 as [|i ps Hi HF IH]; intros k; [by rewrite !lookup_nil|]. cbn.
  destruct (lookup_lt_is_Some_2 objs i Hi) as [x Hx]. rewrite Hx. destruct k as [|k]; cbn; [done|]. apply IH.
Qed.

Lemma omap_length_total {A} (objs : list A) (ps : list nat) :
  Forall (fun i => (i < length objs)%nat) ps -> length (omap (fun i => objs !! i) ps) = length ps.
Proof.
  induction 1 as [|i ps Hi HF IH]; [done|]. cbn. destruct (lookup_lt_is_Some_2 objs i Hi) as [x Hx]. rewrite Hx.
  cbn [length]. by rewrite <- IH.
Qed.

Lemma omap_length_le {A B} (f : A -> option B) l : (length (omap f l) <= length l)%nat.
Proof.
  induction l as [|x l IH]; [done|]. change (omap f (x :: l)) with (match f x with Some y => y :: omap f l | None => omap f l end).
  destruct (f x); cbn [length]; lia.
Qed.

Definition sorted_index (objects : list object_entry) (sorted_by_sha : list nat) : list object_entry :=
  omap (fun i => objects !! i) sorted_by_sha.

Lemma sorted_index_ok objects objects' sorted_by_sha :
  packable objects -> same_objects objects objects' -> NoDup (map oe_sha1 objects) ->
  create_sorted_list (fun a b _ _ => sha1_sort a b) objects sorted_by_sha ->
  (forall i e, objects' !! i = Some e -> 0 <= oe_offset e < 2 ^ 32) ->
  1064 + 24 * Z.of_nat (length objects) < 2 ^ 31 ->
  idx_ok (sorted_index objects' sorted_by_sha) /\
  (forall i e, objects' !! i = Some e -> exists k, sorted_index objects' sorted_by_sha !! k = Some e) /\
  (forall k e, sorted_index objects' sorted_by_sha !! k = Some e -> exists i, objects' !! i = Some e).
Proof.
  intros Hpk Hs Hnd [Hperm Hsort] Hoff Hsmall.
  pose proof (packable_same _ _ Hs Hpk) as Hpk'. pose proof (same_objects_length _ _ Hs) as Hlen.
  assert (HF : Forall (fun i => (i < length objects')%nat) sorted_by_sha).
  { rewrite Hperm. apply Forall_seq. lia. }
  pose proof (omap_lookup_total objects' sorted_by_sha HF) as Hlk. fold (sorted_index objects' sorted_by_sha) in Hlk.
  assert (Hin : forall k e, sorted_index objects' sorted_by_sha !! k = Some e ->
    exists i, sorted_by_sha !! k = Some i /\ objects' !! i = Some e).
  { intros k e He. rewrite Hlk in He. destruct (sorted_by_sha !! k) as [i|]; [|done]. by exists i. }
  split; [|split].
  - split.
    + apply Forall_lookup. intros k e He. destruct (Hin _ _ He) as (i&_&Hi). by apply (pk_name _ Hpk' i).
    + apply Forall_lookup. intros k e He. destruct (Hin _ _ He) as (i&_&Hi). by apply (Hoff i).
    + apply StronglySorted_by_lookup. intros k1 k2 a b Hk Ha Hb.
      destruct (Hin _ _ Ha) as (i&Hi&Hia), (Hin _ _ Hb) as (j&Hj&Hjb).
      pose proof (StronglySorted_lookup _ _ _ _ _ _ Hsort Hi Hj Hk) as Hle.
      destruct (same_objects_lookup _ _ _ _ (same_objects_sym _ _ Hs) Hia) as (a0&Ha0&Ea).
      destruct (same_objects_lookup _ _ _ _ (same_objects_sym _ _ Hs) Hjb) as (b0&Hb0&Eb).
      specialize (Hle _ _ Ha0 Hb0). apply clear_fields in Ea as (Ea&_), Eb as (Eb&_). unfold sha1_sort in Hle.
      rewrite memcmp_full in Hle by (eapply (pk_name _ Hpk); eassumption). rewrite Ea, Eb.
      assert (lexcmp (oe_sha1 a0) (oe_sha1 b0) <> 0); [|lia]. intros E%lexcmp_eq.
      assert (i = j) as ->.
      { rewrite NoDup_alt in Hnd. apply (Hnd i j (oe_sha1 a0)); rewrite list_lookup_fmap; [by rewrite Ha0|]. rewrite Hb0. by rewrite E. }
      assert (Hnds : NoDup sorted_by_sha) by (rewrite Hperm; apply NoDup_seq).
      rewrite NoDup_alt in Hnds. specialize (Hnds _ _ _ Hi Hj). lia.
    + unfold sorted_index. pose proof (omap_length_le (fun i => objects' !! i) sorted_by_sha) as Hle.
      apply Permutation_length in Hperm. rewrite length_seq in Hperm. lia.
  - intros i e He. assert (Hi : i ∈ sorted_by_sha).
    { rewrite Hperm. apply elem_of_seq. apply lookup_lt_Some in He. lia. }
    apply list_elem_of_lookup in Hi as [k Hk]. exists k. by rewrite Hlk, Hk.
  - intros k e He. destruct (Hin _ _ He) as (i&_&Hi). by exists i.
Qed.

(** ** Finding and unpacking every object *)

Lemma unpack_written objects objects' idx pack :
  packable objects -> same_objects objects objects' -> Z.of_nat (length pack) < 2 ^ 32 ->
  (forall i e, objects' !! i = Some e ->
     exists p, object_payload objects e = Ret p /\ at_offset pack (oe_offset e) (entry_bytes p)) ->
  (forall i e, objects' !! i = Some e -> find_pack_entry_one idx (oe_sha1 e) = Ret (Some (oe_offset e))) ->
  forall n i e type data, objects' !! i = Some e -> oe_depth e = Z.of_nat n -> readable e type data ->
    unpack_entry_gently (fun _ => true) (S n) idx pack (oe_offset e) = io_ret (Some (type, data)).
Proof.
  intros Hpk Hs Hlen Hat Hfind n. pose proof (packable_same _ _ Hs Hpk) as Hpk'.
  induction n as [|n IH]; intros i e type data He Hd Hr; destruct (Hat _ _ He) as (p&Hp&Hatp);
    rewrite (payload_same _ objects' _ e Hs eq_refl) in Hp; destruct (payload_correct _ _ _ _ Hpk' He Hp) as [Hok Hspec];
    pose proof (pk_delta _ Hpk' _ _ He) as Hdok; destruct p as [[[t size] base] buf];
    destruct Hok as (Ht&Hsz&Hsz2&Hbok&Hbase); destruct Hspec as (t'&data'&Hr'&Hspec); unfold delta_ok in Hdok;
    (assert (t' = type /\ data' = data) as [-> ->] by (destruct Hr as (E&_), Hr' as (E'&_); rewrite E in E'; by injection E'));
    destruct (oe_delta e) as [d|] eqn:Ed.
  - destruct Hdok as (b&_&_&?&?). lia.
  - destruct Hspec as (->&->&->). cbn [entry_bytes default] in Hatp. rewrite Hsz in Hatp.
    destruct Hr as (_&Hk&_&Hl). by apply (unpack_plain _ _ _ _ _ (oe_type e) type (-1) data); [|lia|lia|].
  - destruct Hspec as (b&bt&bdata&Hb&Hrb&->&->&Hpatch). destruct Hdok as (b'&Hb'&Hty&Hdep&_).
    rewrite Hb in Hb'. injection Hb' as <-. cbn [entry_bytes default] in Hatp. rewrite Hsz in Hatp.
    assert (bt = type) as -> by (destruct Hr as (_&Hk&_), Hrb as (_&Hkb&_); rewrite Hty in Hkb; congruence).
    eapply (unpack_delta _ _ _ _ _ (oe_sha1 b) (oe_offset b) bdata type (-1) buf data);
      [done|lia|apply Hbase|exact Hatp|by eapply Hfind|by eapply IH; [|lia|]|done].
  - lia.
Qed.

(** A chain visits objects of every smaller depth. *)
Lemma chain_positions objects (Hpk : packable objects) n i e :
  objects !! i = Some e -> oe_depth e = Z.of_nat n ->
  exists ps, length ps = S n /\ NoDup ps /\
    Forall (fun j => exists b, objects !! j = Some b /\ 0 <= oe_depth b <= Z.of_nat n) ps.
Proof.
  revert i e; induction n as [|n IH]; intros i e He Hd.
  - exists [i]. split; [done|]. split; [apply NoDup_singleton|]. constructor; [|constructor]. exists e. split; [done|lia].
  - pose proof (pk_delta _ Hpk _ _ He) as Hdl. unfold delta_ok in Hdl. destruct (oe_delta e) as [d|]; [|lia].
    destruct Hdl as (b&Hb&_&Hdb&_). destruct (IH d b Hb) as (ps&Hl&Hnd&HF); [lia|].
    exists (i :: ps). split; [cbn; lia|]. split.
    + constructor; [|done]. intros Hin. rewrite Forall_forall in HF. destruct (HF _ Hin) as (b'&Hb'&Hr).
      rewrite He in Hb'. injection Hb' as <-. lia.
    + constructor; [exists e; split; [done|lia]|]. eapply Forall_impl; [exact HF|]. intros j (b'&Hb'&Hr).
      exists b'. split; [done|lia].
Qed.

Lemma depth_lt_length objects (Hpk : packable objects) i e :
  objects !! i = Some e -> (Z.to_nat (oe_depth e) < length objects)%nat.
Proof.
  intros He. destruct (Z.lt_ge_cases (oe_depth e) 0) as [Hneg|Hpos].
  { apply lookup_lt_Some in He. lia. }
  destruct (chain_positions objects Hpk (Z.to_nat (oe_depth e)) i e He ltac:(lia)) as (ps&Hl&Hnd&HF).
  assert (Hle : (length ps <= length (seq 0 (length objects)))%nat).
  { apply submseteq_length, NoDup_submseteq; [done|]. intros j Hj. rewrite Forall_forall in HF.
    destruct (HF _ Hj) as (b&Hb&_). apply elem_of_seq. apply lookup_lt_Some in Hb. lia. }
  rewrite length_seq in Hle. lia.
Qed.

Lemma idx_answer_unique l e j r :
  idx_ok l -> l !! j = Some e -> idx_answer l (oe_sha1 e) r -> r = Some (oe_offset e).
Proof.
  intros Hl He [(j'&e'&He'&Hn&->)|[Hno _]]; [|by destruct (Hno _ _ He)].
  destruct (Nat.lt_trichotomy j j') as [Hlt|[->|Hlt]].
  - pose proof (StronglySorted_lookup _ _ _ _ _ _ (idx_sorted _ Hl) He He' Hlt) as Hc. cbv beta in Hc. rewrite Hn, lexcmp_refl in Hc. lia.
  - congruence.
  - pose proof (StronglySorted_lookup _ _ _ _ _ _ (idx_sorted _ Hl) He' He Hlt) as Hc. cbv beta in Hc. rewrite Hn, lexcmp_refl in Hc. lia.
Qed.

Lemma pack_recovers ws ws' objects sorted_by_sha pack sha objects' idx :
  packable objects -> (forall i e, objects !! i = Some e -> oe_offset e = 0) -> NoDup (map oe_sha1 objects) ->
  create_sorted_list (fun a b _ _ => sha1_sort a b) objects sorted_by_sha ->
  1064 + 24 * Z.of_nat (length objects) < 2 ^ 31 ->
  write_pack_file ws objects = io_ret (pack, sha, objects') -> Z.of_nat (length pack) < 2 ^ 32 ->
  write_index_file ws' (sorted_index objects' sorted_by_sha) sha = io_ret idx ->
  same_objects objects objects' /\
  check_packed_git_idx (Some idx) = Ret 0 /\ num_packed_objects idx = Z.of_nat (length objects) /\
  forall i e, objects' !! i = Some e ->
    (Z.to_nat (oe_depth e) < length objects)%nat /\
    find_pack_entry_one idx (oe_sha1 e) = Ret (Some (oe_offset e)) /\
    forall type data, readable e type data ->
      unpack_entry_gently (fun _ => true) (S (Z.to_nat (oe_depth e))) idx pack (oe_offset e) = io_ret (Some (type, data)).
Proof.
  intros Hpk Hz Hnd Hsorted Hsmall Hwp Hlen Hwi.
  destruct (write_pack_file_spec _ _ _ _ _ Hpk Hz Hwp Hlen) as (m&Hpack&Hsha&Hmok&Hs&Hent).
  pose proof (packable_same _ _ Hs Hpk) as Hpk'.
  destruct (sorted_index_ok _ _ _ Hpk Hs Hnd Hsorted) as (Hidx&Hcover&_); [|done|].
  { intros i e He. destruct (Hent _ _ He) as [Ho _]. rewrite Hpack, length_app in Hlen. lia. }
  assert (Hsl : length sha = 20%nat /\ bytes_ok sha).
  { rewrite Hsha. split; [by apply length_fips_sha1|by apply fips_sha1_ok]. }
  apply write_index_file_contents in Hwi as ->; [|done|apply Hsl].
  assert (Htl : length (Fips.sha1 (idx_body (sorted_index objects' sorted_by_sha) sha)) = 20%nat)
    by (apply length_fips_sha1, idx_body_ok; [done|apply Hsl]).
  split; [done|]. split; [apply check_packed_git_idx_correct; [done|apply Hsl|done]|].
  split.
  { rewrite num_packed_objects_correct by (done || apply Hsl). unfold sorted_index. destruct Hsorted as [Hperm _].
    rewrite omap_length_total; [by rewrite Hperm, length_seq|]. rewrite Hperm, (same_objects_length _ _ Hs).
    apply Forall_seq. lia. }
  assert (Hfind : forall i e, objects' !! i = Some e -> find_pack_entry_one
    (idx_body (sorted_index objects' sorted_by_sha) sha ++ Fips.sha1 (idx_body (sorted_index objects' sorted_by_sha) sha))
    (oe_sha1 e) = Ret (Some (oe_offset e))).
  { intros i e He. destruct (Hcover _ _ He) as [k Hk]. pose proof (pk_name _ Hpk' _ _ He) as [Hn1 Hn2].
    destruct (find_pack_entry_one_correct _ sha (Fips.sha1 (idx_body (sorted_index objects' sorted_by_sha) sha))
      Hidx (proj1 Hsl) Htl (oe_sha1 e) Hn1 Hn2) as (r&->&Hr); [right; by exists k, e|].
    by rewrite (idx_answer_unique _ _ _ _ Hidx Hk Hr). }
  intros i e He. split; [rewrite (same_objects_length _ _ Hs); by apply (depth_lt_length objects' Hpk' i)|].
  split; [by eapply Hfind|]. intros type data Hr.
  assert (Hdep : 0 <= oe_depth e).
  { pose proof (pk_delta _ Hpk' _ _ He) as Hd. unfold delta_ok in Hd. destruct (oe_delta e); [destruct Hd as (?&?&?&?&?)|]; lia. }
  eapply (unpack_written objects objects'); [done|done|done| |exact Hfind|exact He|by rewrite Z2Nat.id|done].
  intros j e' He'. by destruct (Hent _ _ He').
Qed.

(** ** Termination

    When the writes succeed, [write_pack_file] returns: [write_one] follows a
    delta chain only through objects that were not yet written, so its
    recursion is bounded by their number. *)

(** [k] more bytes can be written. *)
Definition room (f : sha1file) (k : nat) : Prop :=
  exists n, full_writes n f /\ (length (f_buffer f) < SHA1FILE_BUFFER)%nat /\
    (length (f_buffer f) + k < SHA1FILE_BUFFER * S n)%nat.

Lemma sha1write_room f buf k :
  room f (length buf + k) -> exists f', sha1write f buf = io_ret f' /\ room f' k.
Proof.
  intros (n&Hw&Hr&Hk). destruct (sha1write_loop_total (length buf) n f buf Hw Hr) as (f'&n'&E&Hw'&Hr'&Hl); [lia|lia|].
  exists f'. split; [done|]. exists n'. split; [done|]. split; [done|]. rewrite Nat.mul_succ_r in *. lia.
Qed.

Definition unwritten (objects : list object_entry) : nat := length (filter (fun e => oe_offset e = 0) objects).

Lemma unwritten_insert objects i e o :
  objects !! i = Some e -> oe_offset e = 0 -> o <> 0 -> unwritten objects = S (unwritten (<[i := set_offset e o]> objects)).
Proof.
  intros Hi He Ho. unfold unwritten. apply list_elem_of_split_length in Hi as (l1&l2&->&->).
  rewrite insert_app_r_alt, Nat.sub_diag by lia. cbn [insert list_insert].
  rewrite !filter_app, !length_app, filter_cons_True, filter_cons_False by done. cbn [length]. lia.
Qed.

Lemma write_object_room f objects i e p k :
  packable objects -> objects !! i = Some e -> object_payload objects e = Ret p -> room f (length (entry_bytes p) + k) ->
  exists f', write_object f objects e = io_ret (f', Z.of_nat (length (entry_bytes p))) /\ room f' k.
Proof.
  intros Hp He Hpay Hroom. destruct (payload_correct _ _ _ _ Hp He Hpay) as [Hok _].
  pose proof (entry_bytes_bound _ Hok) as Hbound. destruct p as [[[type size] base] buf].
  destruct Hok as (Ht&Hs&Hsz&Hbok&Hbase). cbn [entry_bytes] in *. rewrite !length_app in Hroom, Hbound |- *.
  unfold PackWrite.write_object. rewrite Hpay. cbn [io_bind]. rewrite encode_header_eq by lia. cbn [io_bind].
  rewrite <- !Nat.add_assoc in Hroom. destruct (sha1write_room _ _ _ Hroom) as (f1&->&Hr1). cbn [io_bind io_ret].
  assert (exists f2, match base with Some base => sha1write f1 (take 20 base) | None => io_ret f1 end = io_ret f2 /\
    room f2 (length (deflate (-1) [buf]) + k)) as (f2&->&Hr2).
  { destruct base as [b|]; [|by exists f1]. destruct Hbase as [Hbl _]. rewrite take_ge by lia.
    cbn [default id] in Hr1. by apply sha1write_room. }
  cbn [io_bind io_ret]. unfold sha1write_compressed. cbv zeta.
  rewrite (u32_small size) by lia. rewrite Hs, Nat2Z.id, (take_ge buf) by lia.
  rewrite (u32_small (Z.of_nat (length (deflate _ _)))) by (change (2 ^ 30) with (4 * 2 ^ 28) in *; lia).
  rewrite Nat2Z.id, take_ge by lia. destruct (sha1write_room _ _ _ Hr2) as (f3&->&Hr3). cbn [io_bind io_ret].
  exists f3. split; [|done]. do 3 f_equal.
  assert (Hb20 : match base with Some _ => 20 | None => 0 end = Z.of_nat (length (default [] base)))
    by (destruct base; [destruct Hbase; simpl; lia|done]).
  rewrite Hb20, u32_small; rewrite <- ?Hs; change (2 ^ 32) with (4 * 2 ^ 30); lia.
Qed.

(** A bound on the bytes of one entry. *)
Definition ENTRY_MAX : nat := Z.to_nat (2 ^ 30).

Lemma room_weaken f k k' : (k' <= k)%nat -> room f k -> room f k'.
Proof. intros Hk (n&H1&H2&H3). exists n. split; [done|]. split; [done|lia]. Qed.

Section Termination.
Context (objs0 : list object_entry) (Hpk : packable objs0).
Context (Hpay : forall i e, objs0 !! i = Some e -> exists p, object_payload objs0 e = Ret p).

Lemma write_one_total fuel f objects i offset k :
  same_objects objs0 objects -> (i < length objects)%nat -> (unwritten objects <= fuel)%nat -> 0 < offset ->
  offset + Z.of_nat (unwritten objects) * 2 ^ 30 < 2 ^ 64 -> room f (unwritten objects * ENTRY_MAX + k) ->
  exists f' objects' offset', write_one fuel f objects i offset = io_ret (f', objects', offset') /\
    same_objects objs0 objects' /\ 0 < offset' /\
    offset' + Z.of_nat (unwritten objects') * 2 ^ 30 < 2 ^ 64 /\ room f' (unwritten objects' * ENTRY_MAX + k).
Proof.
  revert f objects i offset; induction fuel as [|fuel IH]; intros f objects i offset Hs Hi Hfuel Ho Hoff Hr;
    cbn [PackWrite.write_one]; destruct (lookup_lt_is_Some_2 objects i Hi) as [e He]; rewrite He;
    destruct (Z.eqb_spec (oe_offset e) 0) as [Ez|]; cbn [negb]; try (by exists f, objects, offset).
  { pose proof (unwritten_insert _ _ _ 1 He Ez ltac:(lia)). lia. }
  pose proof (unwritten_insert _ _ _ offset He Ez ltac:(lia)) as Hu.
  pose proof (same_objects_insert _ _ i e offset Hs He) as Hs'.
  destruct (same_objects_lookup _ _ _ _ (same_objects_sym _ _ Hs) He) as (e0&He0&Hc).
  rewrite (write_object_same _ _ objs0 _ e0); [|by apply same_objects_sym|done].
  destruct (Hpay _ _ He0) as [p Hp]. destruct (payload_correct _ _ _ _ Hpk He0 Hp) as [Hpok _].
  pose proof (entry_bytes_bound _ Hpok) as Hb. set (U := unwritten (<[i:=set_offset e offset]> objects)) in *.
  destruct (write_object_room f objs0 i e0 p (U * ENTRY_MAX + k) Hpk He0 Hp) as (f1&->&Hr1).
  { eapply room_weaken; [|exact Hr]. rewrite Hu. unfold ENTRY_MAX. lia. }
  cbn [io_bind io_ret]. rewrite u64_small by lia.
  destruct (oe_delta e) as [d|] eqn:Ed.
  - destruct (IH f1 (<[i:=set_offset e offset]> objects) d (offset + Z.of_nat (length (entry_bytes p))))
      as (f'&o'&off'&E&HH); [done| |unfold U in *; lia|lia|unfold U in *; lia|done|by exists f', o', off'].
    rewrite length_insert. pose proof (pk_delta _ (packable_same _ _ Hs Hpk) _ _ He) as Hd. unfold delta_ok in Hd.
    rewrite Ed in Hd. destruct Hd as (b&Hb'&_). by eapply lookup_lt_Some.
  - eexists _, _, _. split; [done|]. split; [done|]. split; [lia|]. split; [unfold U in *; lia|done].
Qed.

Lemma write_all_total todo f objects offset k :
  same_objects objs0 objects -> Forall (fun i => (i < length objs0)%nat) todo -> 0 < offset ->
  offset + Z.of_nat (unwritten objects) * 2 ^ 30 < 2 ^ 64 -> room f (unwritten objects * ENTRY_MAX + k) ->
  exists f' objects' offset', write_all todo f objects offset = io_ret (f', objects', offset') /\ room f' k.
Proof.
  intros Hs HF; revert f objects offset Hs; induction HF as [|i todo Hi HF IH]; intros f objects offset Hs Ho Hoff Hr;
    cbn [PackWrite.write_all].
  { exists f, objects, offset. split; [done|]. eapply room_weaken; [|exact Hr]. lia. }
  pose proof (same_objects_length _ _ Hs) as Hl.
  assert (Hu : (unwritten objects <= length objects)%nat) by apply length_filter.
  destruct (write_one_total (length objects) f objects i offset k Hs ltac:(lia) Hu Ho Hoff Hr) as (f1&o1&off1&->&Hs1&Ho1&Hoff1&Hr1).
  cbn [io_bind io_ret]. by apply IH.
Qed.

(** writing a pack ends: when every object can be read and compressed
    and the writes succeed, [write_pack_file] returns; the recursion of
    [write_one] along a delta chain visits no object twice. *)
Theorem write_pack_file_total :
  Z.of_nat (length objs0) < 2 ^ 32 ->
  exists n r, write_pack_file (replicate n (WOk (SHA1FILE_BUFFER - 1))) objs0 = io_ret r.
Proof.
  intros Hlen. set (k := (length objs0 * ENTRY_MAX + 3 * SHA1FILE_BUFFER)%nat).
  assert (HB : (0 < SHA1FILE_BUFFER)%nat) by (unfold SHA1FILE_BUFFER; lia).
  exists (12 + k)%nat. set (f0 := sha1fd (replicate (12 + k) (WOk (SHA1FILE_BUFFER - 1)))).
  assert (Hroom : room f0 (length (pack_header (length objs0)) + k)).
  { exists (12 + k)%nat. split; [done|]. split; [done|]. unfold pack_header. rewrite !length_app, !length_be_encode.
    cbn [f0 sha1fd f_buffer length]. nia. }
  unfold PackWrite.write_pack_file. fold f0. destruct (sha1write_room _ _ _ Hroom) as (f1&E1&Hr1). rewrite E1.
  cbn [io_bind io_ret]. apply (sha1write_holds _ _ _ _ (sha1fd_holds _)) in E1. rewrite app_nil_l in E1.
  assert (Hu : (unwritten objs0 <= length objs0)%nat) by apply length_filter.
  destruct (write_all_total (seq 0 (length objs0)) f1 objs0 12 (3 * SHA1FILE_BUFFER)) as (f2&o2&off2&E2&Hr2).
  - done.
  - apply Forall_seq. lia.
  - lia.
  - change (2 ^ 64) with (2 ^ 32 * 2 ^ 32). change (2 ^ 32) with (4 * 2 ^ 30) in *. nia.
  - eapply room_weaken; [|exact Hr1]. unfold k. apply Nat.add_le_mono_r, Nat.mul_le_mono_r. done.
  - rewrite E2. cbn [io_bind io_ret]. destruct (write_all_grows _ _ _ _ _ _ _ _ _ Hpk E1 eq_refl E2) as (m&Hm&Hmok&_).
    destruct Hr2 as (n&Hw&Hb&Hn).
    assert (Hok : bytes_ok (pack_header (length objs0) ++ m)).
    { apply bytes_ok_app_2; [|done]. unfold pack_header. apply bytes_ok_app_2; [|apply bytes_ok_app_2]; apply be_encode_bytes_ok. }
    destruct (sha1close_total n f2 _ Hw ltac:(nia) Hm Hok) as [[sha f3] E3]. rewrite E3. by eexists.
Qed.

End Termination.

End Roundtrip.
