(* ===== verification/PackDeltas.v ===== *)
(** * Delta chains, and the whole of pack-objects

    [find_deltas] (PackWrite.v) assigns delta bases through a sliding window
    over the sorted objects.  Here it is proved to return, to change nothing
    but the delta fields, and to build chains that follow the type, end at an
    object stored whole and are no longer than the depth asked for.  With
    PackRoundtrip.v this gives the round trip of the program: every object
    on standard input comes out of the pack and its index again. *)

From stdpp Require Import base list numbers strings sorting sets.
From Stdlib Require Import ZArith Lia.
From S2P Require Import Prelude.
From S2P Require Import Sha1.
From S2P Require Import Hex.
From S2P Require Import PktLine.
From S2P Require Import Delta.
From S2P Require Import DiffDelta.
From S2P Require Import CsumFile.
From S2P Require Import PackIndex.
From S2P Require Import Zlib.
From S2P Require Import PackEntry.
From S2P Require Import CString.
From S2P Require Import PackWrite.
From S2P Require Import PackRoundtrip.

Section Deltas.
Context (malloc_ok : nat -> Z -> bool).
Context (read_sha1_file : bytes -> outcome (option (bytes * bytes))).
Context (max_depth : Z).

(** An entry but for its delta. *)
Definition skeleton (e : object_entry) : bytes * Z * Z * Z * Z :=
  (oe_sha1 e, oe_size e, oe_offset e, oe_hash e, oe_type e).

(** The store has the object, with the recorded size. *)
Definition has_data (e : object_entry) (data : bytes) : Prop :=
  (exists type, read_sha1_file (oe_sha1 e) = Ret (Some (type, data))) /\
  oe_size e = Z.of_nat (length data) /\ bytes_ok data /\ Z.of_nat (length data) < 2 ^ 28.

(** The delta of the entry at [i] when the objects in [before] have been
    visited and [cur] is being visited. *)
Definition chain_ok (objects : list object_entry) (before : list nat) (cur : option nat) (i : nat) (e : object_entry) : Prop :=
  match oe_delta e with
  | None => oe_depth e = 0
  | Some d => (i ∈ before \/ cur = Some i) /\ d ∈ before /\ 2 <= oe_delta_size e < 2 ^ 28 /\ 0 < oe_depth e <= max_depth /\
      exists b, objects !! d = Some b /\ oe_type b = oe_type e /\ oe_depth e = oe_depth b + 1
  end.

Record chains (objs0 objects : list object_entry) (before : list nat) (cur : option nat) : Prop := {
  ch_skeleton : map skeleton objs0 = map skeleton objects;
  ch_data : forall i e, objects !! i = Some e -> exists data, has_data e data;
  ch_chain : forall i e, objects !! i = Some e -> chain_ok objects before cur i e;
}.

(** The window holds visited objects with their data, but for the slot of the
    current one. *)
Definition window_ok (objects : list object_entry) (before : list nat) (idx : option nat) (array : list (option unpacked)) : Prop :=
  forall k m, array !! k = Some (Some m) -> Some k <> idx ->
    fst m ∈ before /\ exists e, objects !! fst m = Some e /\ has_data e (snd m).

Lemma skeleton_lookup objs objs' i e :
  map skeleton objs = map skeleton objs' -> objs !! i = Some e -> exists e', objs' !! i = Some e' /\ skeleton e = skeleton e'.
Proof.
  intros E Hi. apply (f_equal (.!! i)) in E. rewrite !list_lookup_fmap, Hi in E.
  destruct (objs' !! i) as [e'|]; [|discriminate E]. exists e'. split; [done|]. exact (inj Some _ _ E).
Qed.

Lemma skeleton_data e e' data : skeleton e = skeleton e' -> has_data e data -> has_data e' data.
Proof. unfold skeleton, has_data. intros [= -> -> _ _ _]. done. Qed.

Lemma window_skeleton objs objs' before idx array :
  map skeleton objs = map skeleton objs' -> window_ok objs before idx array -> window_ok objs' before idx array.
Proof.
  intros E Hw k m Hk Hne. destruct (Hw k m Hk Hne) as (Hin&e&He&Hd). split; [done|].
  destruct (skeleton_lookup _ _ _ _ E He) as (e'&He'&Es). exists e'. split; [done|]. by eapply skeleton_data.
Qed.

(** What a delta between two objects in the store costs. *)
Lemma diff_delta_size from to max_size delta :
  bytes_ok to -> Z.of_nat (length from) < 2 ^ 31 -> Z.of_nat (length to) < 2 ^ 28 -> max_size <> 0 ->
  diff_delta malloc_ok from to max_size = Ret (Some delta) -> 4 <= Z.of_nat (length delta) <= max_size.
Proof.
  intros Hb Hf Ht Hm E. destruct (diff_delta_ops malloc_ok from to max_size Hb Hf Ht) as (r&E'&Hr).
  rewrite E in E'. injection E' as <-. destruct Hr as (ops&->&Hops&_&Ha&Hne&Hmax).
  pose proof (encode_delta_min _ _ _ Ha Hne Hops). specialize (Hmax Hm). lia.
Qed.

Lemma set_delta_skeleton e b s d : skeleton (set_delta e b s d) = skeleton e.
Proof. done. Qed.

Lemma chains_step objs0 objects before c e b old delta_size :
  chains objs0 objects before (Some c) -> c ∉ before -> objects !! c = Some e ->
  old ∈ before -> objects !! old = Some b -> oe_type b = oe_type e -> oe_depth b < max_depth ->
  2 <= delta_size < 2 ^ 28 ->
  chains objs0 (<[c := set_delta e old delta_size (oe_depth b + 1)]> objects) before (Some c).
Proof.
  intros [Hsk Hdata Hch] Hc He Hold Hb Hty Hdep Hds.
  assert (Hne : old <> c) by (by intros ->).
  assert (Hbase : forall d b', d ∈ before -> objects !! d = Some b' ->
    <[c := set_delta e old delta_size (oe_depth b + 1)]> objects !! d = Some b').
  { intros d b' Hd Hb'. rewrite list_lookup_insert_ne; [done|]. by intros ->. }
  assert (Hdep0 : 0 <= oe_depth b).
  { pose proof (Hch _ _ Hb) as H. unfold chain_ok in H. destruct (oe_delta b); [destruct H as (_&_&_&?&_)|]; lia. }
  split.
  - rewrite list_fmap_insert, set_delta_skeleton, Hsk. symmetry. apply list_insert_id. by rewrite list_lookup_fmap, He.
  - intros i e' Hi. apply lookup_insert_cases in Hi as [[-> ->]|[_ Hi]]; [|by apply (Hdata i)].
    destruct (Hdata _ _ He) as [data Hd]. exists data. by apply (skeleton_data e).
  - intros i e' Hi. apply lookup_insert_cases in Hi as [[-> ->]|[Hic Hi]].
    + unfold chain_ok. cbn [oe_delta set_delta oe_delta_size oe_depth oe_type]. split_and!; [by right|done|lia|lia|lia|lia|].
      exists b. split; [by apply Hbase|done].
    + pose proof (Hch _ _ Hi) as H. unfold chain_ok in *. destruct (oe_delta e') as [d|]; [|done].
      destruct H as (H1&H2&H3&H4&b'&Hb'&H5). split_and!; try done; try lia. exists b'. split; [by apply Hbase|done].
Qed.

Lemma try_delta_chains objs0 objects before c data old :
  chains objs0 objects before (Some c) -> c ∉ before ->
  (exists e, objects !! c = Some e /\ has_data e data) ->
  fst old ∈ before -> (exists b, objects !! fst old = Some b /\ has_data b (snd old)) ->
  exists r objects', try_delta malloc_ok objects (c, data) old max_depth = Ret (r, objects') /\
    chains objs0 objects' before (Some c).
Proof.
  intros Hch Hc (e&He&Hed) Hin (b&Hb&Hbd). unfold try_delta. cbn [fst snd]. rewrite He, Hb.
  assert (Hstop : forall r : Z, exists r' objects', Ret (r, objects) = Ret (r', objects') /\ chains objs0 objects' before (Some c))
    by (intros r; by exists r, objects).
  destruct (Z.eqb_spec (oe_type e) (oe_type b)) as [Hty|]; cbn [negb]; [|apply Hstop].
  destruct (Z.ltb_spec (oe_size e) 50) as [|Hsz]; [apply Hstop|]. cbv zeta.
  set (sizediff := if oe_size e <? oe_size b then _ else _).
  destruct (oe_size e / 8 <? sizediff); [apply Hstop|].
  destruct (Z.leb_spec max_depth (oe_depth b)) as [|Hdep]; [apply Hstop|].
  set (max_size := match oe_delta e with Some _ => _ | None => _ end).
  assert (Hmax : 1 <= max_size < 2 ^ 28).
  { pose proof (ch_chain _ _ _ _ Hch _ _ He) as H. unfold chain_ok in H. unfold max_size.
    destruct (oe_delta e); [destruct H as (_&_&?&_); lia|]. destruct Hed as (_&Hes&_&Hel). dm_lia. }
  destruct (u64 max_size <=? sizediff); [apply Hstop|].
  destruct Hed as (_&_&Hok&Hlen), Hbd as (_&_&_&Hblen).
  destruct (diff_delta_ops malloc_ok (snd old) data max_size Hok ltac:(lia) Hlen) as (d&Ed&_). rewrite Ed, bind_Ret.
  destruct d as [delta|]; [|apply Hstop]. apply diff_delta_size in Ed; [|done|lia|lia|lia].
  eexists _, _. split; [done|]. apply chains_step; (done || lia).
Qed.

Lemma try_window_chains j window idx array data objs0 objects before c :
  (j <= window)%nat -> (idx < window)%nat -> length array = window ->
  chains objs0 objects before (Some c) -> c ∉ before ->
  (exists e, objects !! c = Some e /\ has_data e data) -> window_ok objects before (Some idx) array ->
  exists objects', try_window malloc_ok j window idx array (c, data) max_depth objects = Ret objects' /\
    chains objs0 objects' before (Some c).
Proof.
  intros Hj Hidx Hlen Hch Hc. revert objects Hch.
  induction j as [|[|j] IH]; intros objects Hch Hcd Hw; [by exists objects..|].
  cbn [try_window]. cbv zeta. set (other := if (window <=? idx + S j)%nat then _ else _).
  assert (Ho : (other < window)%nat /\ other <> idx).
  { unfold other. destruct (Nat.leb_spec window (idx + S j)); lia. }
  destruct (lookup_lt_is_Some_2 array other) as [[m|] Hm]; [lia| |rewrite Hm; by exists objects].
  rewrite Hm. destruct (Hw _ _ Hm) as (Hin&b&Hb&Hbd); [intros [= E]; lia|].
  destruct (try_delta_chains _ _ _ _ data m Hch Hc Hcd Hin ltac:(by exists b)) as (r&objects'&->&Hch').
  rewrite bind_Ret. destruct (r <? 0); [by exists objects'|].
  assert (Hsk : map skeleton objects = map skeleton objects') by (by rewrite <- (ch_skeleton _ _ _ _ Hch), <- (ch_skeleton _ _ _ _ Hch')).
  apply IH; [lia|done| |by eapply window_skeleton].
  destruct Hcd as (e&He&Hd). destruct (skeleton_lookup _ _ _ _ Hsk He) as (e'&He'&Es).
  exists e'. split; [done|]. by eapply skeleton_data.
Qed.

Lemma chains_enter objs0 objects before c : chains objs0 objects before None -> chains objs0 objects before (Some c).
Proof.
  intros [H1 H2 H3]. split; [done|done|]. intros i e Hi. specialize (H3 _ _ Hi). unfold chain_ok in *.
  destruct (oe_delta e); [|done]. destruct H3 as ([?|?]&H3); [|done]. split; [by left|done].
Qed.

Lemma chains_leave objs0 objects before c : chains objs0 objects before (Some c) -> chains objs0 objects (c :: before) None.
Proof.
  intros [H1 H2 H3]. split; [done|done|]. intros i e Hi. specialize (H3 _ _ Hi). unfold chain_ok in *.
  destruct (oe_delta e) as [d|]; [|done]. destruct H3 as (Hi'&Hd&Hrest). split; [|split; [by right|done]].
  left. destruct Hi' as [?|[= ->]]; [by right|by left].
Qed.

Lemma find_deltas_loop_chains todo window idx array objs0 objects before :
  (idx < window)%nat -> length array = window -> NoDup (todo ++ before) ->
  Forall (fun i => (i < length objects)%nat) todo ->
  chains objs0 objects before None -> window_ok objects before None array ->
  exists objects', find_deltas_loop malloc_ok read_sha1_file todo window idx array max_depth objects = Ret objects' /\
    chains objs0 objects' (rev todo ++ before) None.
Proof.
  revert idx array objects before; induction todo as [|i todo IH]; intros idx array objects before Hidx Hlen Hnd HF Hch Hw.
  { by exists objects. }
  apply Forall_cons in HF as [Hi HF]. cbn [find_deltas_loop].
  destruct (lookup_lt_is_Some_2 objects i Hi) as [e He]. rewrite He.
  destruct (ch_data _ _ _ _ Hch _ _ He) as [data Hd]. pose proof Hd as ((type&Hr)&Hsz&_). rewrite Hr, bind_Ret.
  rewrite (proj2 (Z.eqb_eq _ _)) by done. cbn [negb]. rewrite (proj2 (Nat.ltb_lt _ _)) by lia. cbn [negb].
  apply NoDup_cons in Hnd as [Hni Hnd]. assert (Hib : i ∉ before) by set_solver.
  set (array' := <[idx := Some (i, data)]> array).
  assert (Hw1 : window_ok objects before (Some idx) array').
  { intros k m Hk Hne. unfold array' in Hk. rewrite list_lookup_insert_ne in Hk by congruence. by apply (Hw k). }
  destruct (try_window_chains window window idx array' data objs0 objects before i) as (objects'&->&Hch');
    [lia|done|unfold array'; by rewrite length_insert|by apply chains_enter|done|by exists e|done|].
  rewrite bind_Ret. cbv zeta.
  assert (Hsk : map skeleton objects = map skeleton objects') by (by rewrite <- (ch_skeleton _ _ _ _ Hch), <- (ch_skeleton _ _ _ _ Hch')).
  destruct (IH (if (window <=? S idx)%nat then 0%nat else S idx) array' objects' (i :: before)) as (r&Hr'&Hchr).
  - destruct (Nat.leb_spec window (S idx)); lia.
  - unfold array'. by rewrite length_insert.
  - rewrite (Permutation_app_comm todo (i :: before)). cbn [app]. rewrite (Permutation_app_comm before todo). by constructor.
  - apply (f_equal length) in Hsk. rewrite !length_map in Hsk. by rewrite <- Hsk.
  - by apply chains_leave.
  - apply (window_skeleton objects); [done|]. intros k m Hk _. unfold array' in Hk.
    destruct (decide (k = idx)) as [->|Hne].
    + assert (E : array' !! idx = Some (Some (i, data))) by (apply list_lookup_insert_eq; lia).
      unfold array' in E. rewrite Hk in E. injection E as ->. split; [by left|]. by exists e.
    + rewrite list_lookup_insert_ne in Hk by done. destruct (Hw k m Hk) as [Hin Hm]; [done|]. split; [by right|done].
  - exists r. split; [done|]. cbn [rev]. by rewrite <- app_assoc.
Qed.

(** The array as [get_object_details] leaves it. *)
Definition fresh (objects : list object_entry) : Prop :=
  forall i e, objects !! i = Some e -> oe_delta e = None /\ oe_depth e = 0 /\ oe_offset e = 0 /\ oe_delta_size e = 0.

Lemma fresh_chains objects :
  fresh objects -> (forall i e, objects !! i = Some e -> exists data, has_data e data) -> chains objects objects [] None.
Proof.
  intros Hf Hd. split; [done|done|]. intros i e He. destruct (Hf _ _ He) as (E1&E2&_). unfold chain_ok. by rewrite E1.
Qed.

Lemma find_deltas_chains objects sorted window :
  fresh objects -> (forall i e, objects !! i = Some e -> exists data, has_data e data) ->
  sorted ≡ₚ seq 0 (length objects) -> (0 < window)%nat ->
  exists objects', find_deltas malloc_ok read_sha1_file sorted window max_depth objects = Ret objects' /\
    exists before, chains objects objects' before None.
Proof.
  intros Hf Hd Hp Hw. unfold find_deltas.
  assert (Hrev : rev sorted ≡ₚ seq 0 (length objects)) by (rewrite <- Hp; symmetry; apply Permutation_rev).
  destruct (find_deltas_loop_chains (rev sorted) window 0 (replicate window None) objects objects []) as (r&Hr&Hch).
  - done.
  - by rewrite length_replicate.
  - rewrite app_nil_r, Hrev. apply NoDup_seq.
  - rewrite Hrev. apply Forall_seq. lia.
  - by apply fresh_chains.
  - intros k m Hk _. apply lookup_replicate in Hk as [[=] _].
  - exists r. split; [done|]. by eexists.
Qed.

(** [find_deltas] returns for every array of readable objects and every
    order of visiting them: it changes nothing but the delta fields, and the
    delta chains it builds stay within one object type, have a base whose
    depth is one less, end at an object stored whole, and are never longer
    than the [--depth] limit (so no chain is cyclic). *)
Theorem find_deltas_bounded (objects : list object_entry) (sorted : list nat) (window : nat) :
  fresh objects -> (forall i e, objects !! i = Some e -> exists data, has_data e data) ->
  sorted ≡ₚ seq 0 (length objects) -> (0 < window)%nat ->
  exists objects', find_deltas malloc_ok read_sha1_file sorted window max_depth objects = Ret objects' /\
    map skeleton objects' = map skeleton objects /\
    forall i e, objects' !! i = Some e ->
      match oe_delta e with
      | None => oe_depth e = 0
      | Some d => 0 < oe_depth e <= max_depth /\
          exists b, objects' !! d = Some b /\ oe_type b = oe_type e /\ oe_depth e = oe_depth b + 1
      end.
Proof.
  intros Hf Hd Hp Hw. destruct (find_deltas_chains objects sorted window Hf Hd Hp Hw) as (r&Hr&before&Hch).
  exists r. split; [done|]. split; [by rewrite (ch_skeleton _ _ _ _ Hch)|]. intros i e He.
  pose proof (ch_chain _ _ _ _ Hch _ _ He) as H. unfold chain_ok in H. destruct (oe_delta e); [|done].
  by destruct H as (_&_&_&?&?).
Qed.

End Deltas.

(** ** The program *)

(** What pack-objects needs of the object store: the type and the size that
    [sha1_object_info] reports are those of the object [read_sha1_file]
    returns. *)
Class ObjectSource (read_sha1_file : bytes -> outcome (option (bytes * bytes)))
    (sha1_object_info : bytes -> outcome (option (bytes * Z))) : Prop := {
  source_agrees sha1 type size :
    length sha1 = 20%nat -> bytes_ok sha1 -> sha1_object_info sha1 = Ret (Some (type, size)) ->
    exists data, read_sha1_file sha1 = Ret (Some (type, data)) /\ size = Z.of_nat (length data) /\
      bytes_ok data /\ size < 2 ^ 28;
}.

Section Program.
Context `{ZlibLaws} (malloc_ok : nat -> Z -> bool).
Context (read_sha1_file : bytes -> outcome (option (bytes * bytes))).
Context (sha1_object_info : bytes -> outcome (option (bytes * Z))).
Context (has_sha1_pack : bytes -> bool).
Context {Hsource : ObjectSource read_sha1_file sha1_object_info}.


(** An entry as [add_object_entry] makes it. *)
Definition entry_new (e : object_entry) : Prop :=
  length (oe_sha1 e) = 20%nat /\ bytes_ok (oe_sha1 e) /\
  oe_delta e = None /\ oe_depth e = 0 /\ oe_offset e = 0 /\ oe_delta_size e = 0.

Lemma get_sha1_hex_name hex s : get_sha1_hex hex = Ret (0, s) -> length s = 20%nat /\ bytes_ok s.
Proof. unfold get_sha1_hex. rewrite get_sha1_hex_loop_spec. by intros (t&d&rest&->&?&?&_). Qed.

Lemma read_object_list_new incremental lines objects ctx objects' ctx' :
  Forall entry_new objects ->
  read_object_list has_sha1_pack incremental lines objects ctx = Ret (objects', ctx') -> Forall entry_new objects'.
Proof.
  revert objects ctx; induction lines as [|line lines IH]; intros objects ctx Hn; cbn [read_object_list].
  { by intros [= <- _]. }
  intros ([bad sha1]&Hh&Hr)%bind_Ret_inv. destruct (Z.eqb_spec bad 0) as [->|]; [|done]. cbn [negb] in Hr.
  apply get_sha1_hex_name in Hh as [Hl Hok]. unfold add_object_entry in Hr.
  destruct (incremental && has_sha1_pack sha1); (eapply IH; [|exact Hr]); [done|].
  apply Forall_app. split; [done|]. constructor; [|constructor]. by split_and!.
Qed.

Definition entry_known (e : object_entry) : Prop :=
  entry_new e /\ exists type data, readable read_sha1_file e type data /\ oe_size e = Z.of_nat (length data).

Lemma check_object_known e e' :
  entry_new e -> check_object sha1_object_info e = Ret e' -> entry_known e' /\ oe_sha1 e' = oe_sha1 e.
Proof.
  intros Hn. unfold check_object. intros ([[type size]|]&Hi&Hc)%bind_Ret_inv; [|done].
  destruct (source_agrees _ _ _ (proj1 Hn) (proj1 (proj2 Hn)) Hi) as (data&Hr&Hsz&Hok&Hlt).
  assert (Hgo : forall k, kind_name k = Some type -> e' = set_type e k size -> entry_known e' /\ oe_sha1 e' = oe_sha1 e).
  { intros k Hk ->. split; [|done]. split; [exact Hn|]. exists type, data. split; [|done]. split_and!; [done|done|done|lia]. }
  repeat (case_bool_decide as E; [injection Hc as <-; eapply Hgo; [|done]; by rewrite E|]; clear E). done.
Qed.

Lemma get_object_details_known objects objects' :
  Forall entry_new objects -> get_object_details sha1_object_info objects = Ret objects' ->
  Forall entry_known objects' /\ map oe_sha1 objects' = map oe_sha1 objects.
Proof.
  intros Hn; revert objects'; induction Hn as [|e objects He Hn IH]; intros objects'; cbn [get_object_details].
  { by intros [= <-]. }
  intros (e'&Hc&(rest&Hr&[= <-])%bind_Ret_inv)%bind_Ret_inv.
  apply check_object_known in Hc as [Hk Hs]; [|done]. destruct (IH _ Hr) as [HF HS].
  split; [by constructor|]. cbn. by rewrite Hs, HS.
Qed.

Lemma known_fresh objects : Forall entry_known objects -> fresh objects.
Proof.
  intros HF i e He. rewrite Forall_lookup in HF. destruct (HF _ _ He) as [(_&_&?&?&?&?) _]. done.
Qed.

Lemma known_data objects i e : Forall entry_known objects -> objects !! i = Some e -> exists data, has_data read_sha1_file e data.
Proof.
  intros HF He. rewrite Forall_lookup in HF. destruct (HF _ _ He) as [_ (type&data&(Hr&_&Hok&Hl)&Hsz)].
  exists data. split_and!; [by exists type|done|done|lia].
Qed.

(** Whatever [find_deltas] has done, the array can be written. *)
Lemma chains_packable max_depth objs0 objects before :
  Forall entry_known objs0 -> chains read_sha1_file max_depth objs0 objects before None ->
  packable read_sha1_file objects /\ (forall i e, objects !! i = Some e -> oe_offset e = 0).
Proof.
  intros HF [Hsk _ Hch].
  assert (Hback : forall i e, objects !! i = Some e -> exists e0, objs0 !! i = Some e0 /\ skeleton e = skeleton e0).
  { intros i e He. by apply (skeleton_lookup objects). }
  rewrite Forall_lookup in HF. split; [split|]; intros i e He; destruct (Hback _ _ He) as (e0&He0&Es);
    destruct (HF _ _ He0) as [(Hl&Hok&_&_&Hoff&_) (type&data&Hr&Hsz)]; injection Es as E1 E2 E3 E4 E5.
  - exists type, data. unfold readable in *. by rewrite E1, E5.
  - by rewrite E1.
  - pose proof (Hch _ _ He) as H1. unfold chain_ok in H1. unfold delta_ok. destruct (oe_delta e) as [d|]; [|done].
    destruct H1 as (_&_&_&Hd&b&Hb&Ht&Hdep). exists b. split_and!; [done|done|done|lia].
  - pose proof (Hch _ _ He) as H1. unfold chain_ok in H1. destruct (oe_delta e) as [d|] eqn:Ed.
    + destruct H1 as (_&_&?&_). lia.
    + done.
  - by rewrite E3.
Qed.

(** The array between the details and the writing of the pack. *)
Lemma deltas_packable max_depth objs1 objects sorted window :
  Forall entry_known objs1 -> sorted ≡ₚ seq 0 (length objs1) ->
  (if negb (window =? 0)%nat && negb (max_depth =? 0)
   then find_deltas malloc_ok read_sha1_file sorted (S window) max_depth objs1 else Ret objs1) = Ret objects ->
  packable read_sha1_file objects /\ (forall i e, objects !! i = Some e -> oe_offset e = 0) /\
  map skeleton objs1 = map skeleton objects.
Proof.
  intros HF Hp Hd. assert (exists before, chains read_sha1_file max_depth objs1 objects before None) as [before Hch].
  { pose proof (known_data objs1) as Hkd. pose proof (known_fresh _ HF) as Hfr.
    destruct (negb _ && negb _).
    - destruct (find_deltas_chains malloc_ok read_sha1_file max_depth objs1 sorted (S window)) as (r&Hr&Hb);
        [done|intros; by eapply Hkd|done|lia|]. rewrite Hd in Hr. by injection Hr as ->.
    - injection Hd as <-. exists []. apply fresh_chains; [done|]. intros; by eapply Hkd. }
  destruct (chains_packable _ _ _ _ HF Hch) as [H1 H2]. split_and!; [done|done|by destruct Hch].
Qed.

(** What the program writes: the array it has chosen deltas for, as a pack,
    and an index of it. *)
Lemma pack_objects_written (incremental non_empty : bool) (window : nat) (depth : Z) (lines : list bytes)
    (sorted_by_sha sorted_by_type : list nat) (ws_pack ws_idx : list wr)
    (objs : list object_entry) (ctx : SHA_CTX) (objs1 : list object_entry)
    (pack idx list_sha1 : bytes) (objs2 : list object_entry) :
  read_object_list has_sha1_pack incremental lines [] SHA1_Init = Ret (objs, ctx) ->
  get_object_details sha1_object_info objs = Ret objs1 ->
  create_sorted_list (fun a b _ _ => sha1_sort a b) objs1 sorted_by_sha ->
  create_sorted_list type_size_sort objs1 sorted_by_type ->
  pack_objects malloc_ok read_sha1_file sha1_object_info has_sha1_pack incremental non_empty window depth lines
    sorted_by_sha sorted_by_type ws_pack ws_idx = io_ret (Some (pack, idx, objs2, list_sha1)) ->
  exists objects sha, packable read_sha1_file objects /\ (forall i e, objects !! i = Some e -> oe_offset e = 0) /\
    map oe_sha1 objects = map oe_sha1 objs /\
    create_sorted_list (fun a b _ _ => sha1_sort a b) objects sorted_by_sha /\
    write_pack_file malloc_ok read_sha1_file ws_pack objects = io_ret (pack, sha, objs2) /\
    write_index_file ws_idx (sorted_index objs2 sorted_by_sha) sha = io_ret idx.
Proof.
  intros Hrl Hgd Hsha Htype Hpo. unfold pack_objects in Hpo. rewrite Hrl in Hpo. cbn [io_bind] in Hpo.
  revert Hpo. generalize (fst (SHA1_Final ctx)) as list_sha1'. intros list_sha1' Hpo.
  destruct (non_empty && _); [done|]. rewrite Hgd in Hpo. cbn [io_bind] in Hpo.
  destruct (if negb (window =? 0)%nat && negb (depth =? 0)
    then find_deltas malloc_ok read_sha1_file sorted_by_type (S window) depth objs1 else Ret objs1)
    as [objs1'| |] eqn:Hd; [|done..].
  apply io_bind_inv in Hpo as ([[pack' sha] objs2']&Hwp&Hpo). apply io_bind_inv in Hpo as (idx'&Hwi&Hpo).
  injection Hpo as -> -> -> _.
  apply read_object_list_new in Hrl as Hnew; [|constructor].
  destruct (get_object_details_known _ _ Hnew Hgd) as [Hknown Hnames].
  destruct (deltas_packable _ _ _ _ _ Hknown (proj1 Htype) Hd) as (Hpk&Hoff&Hsk).
  assert (Hl2 : length objs1 = length objs1') by (apply (f_equal length) in Hsk; by rewrite !length_map in Hsk).
  exists objs1', sha. split_and!; [done|done| | |done|done].
  - rewrite <- Hnames. apply (f_equal (map (fun k => k.1.1.1.1))) in Hsk. rewrite !map_map in Hsk. symmetry. exact Hsk.
  - destruct Hsha as [Hp Hs]. split; [by rewrite <- Hl2|]. apply StronglySorted_by_lookup. intros k1 k2 i j Hk Hi Hj a b Ha Hb.
    pose proof (StronglySorted_lookup _ _ _ _ _ _ Hs Hi Hj Hk) as Hij. cbv beta in Hij. destruct (skeleton_lookup _ _ _ _ (eq_sym Hsk) Ha) as (a0&Ha0&Ea).
    destruct (skeleton_lookup _ _ _ _ (eq_sym Hsk) Hb) as (b0&Hb0&Eb). specialize (Hij _ _ Ha0 Hb0).
    injection Ea as Ea _ _ _ _. injection Eb as Eb _ _ _ _. unfold sha1_sort in *. by rewrite Ea, Eb.
Qed.

Lemma pack_objects_recovers (incremental non_empty : bool) (window : nat) (depth : Z) (lines : list bytes)
    (sorted_by_sha sorted_by_type : list nat) (ws_pack ws_idx : list wr)
    (objs : list object_entry) (ctx : SHA_CTX) (objs1 : list object_entry)
    (pack idx list_sha1 : bytes) (objs2 : list object_entry) :
  read_object_list has_sha1_pack incremental lines [] SHA1_Init = Ret (objs, ctx) ->
  get_object_details sha1_object_info objs = Ret objs1 ->
  create_sorted_list (fun a b _ _ => sha1_sort a b) objs1 sorted_by_sha ->
  create_sorted_list type_size_sort objs1 sorted_by_type ->
  NoDup (map oe_sha1 objs) -> 1064 + 24 * Z.of_nat (length objs) < 2 ^ 31 ->
  pack_objects malloc_ok read_sha1_file sha1_object_info has_sha1_pack incremental non_empty window depth lines
    sorted_by_sha sorted_by_type ws_pack ws_idx = io_ret (Some (pack, idx, objs2, list_sha1)) ->
  Z.of_nat (length pack) < 2 ^ 32 ->
  check_packed_git_idx (Some idx) = Ret 0 /\ num_packed_objects idx = Z.of_nat (length objs) /\
  forall i e, objs !! i = Some e ->
    exists offset n type data,
      read_sha1_file (oe_sha1 e) = Ret (Some (type, data)) /\
      find_pack_entry_one idx (oe_sha1 e) = Ret (Some offset) /\ (n < length objs)%nat /\
      unpack_entry_gently (fun _ => true) (S n) idx pack offset = io_ret (Some (type, data)).
Proof.
  intros Hrl Hgd Hsha Htype Hnd Hsmall Hpo Hlen.
  destruct (pack_objects_written _ _ _ _ _ _ _ _ _ _ _ _ _ _ _ _ Hrl Hgd Hsha Htype Hpo)
    as (objs1'&sha&Hpk&Hoff&Hnames'&Hsorted&Hwp&Hwi).
  assert (Hl : length objs1' = length objs) by (apply (f_equal length) in Hnames'; by rewrite !length_map in Hnames').
  destruct (pack_recovers malloc_ok read_sha1_file _ _ _ _ _ _ _ _ Hpk Hoff ltac:(by rewrite Hnames') Hsorted ltac:(lia) Hwp Hlen Hwi)
    as (Hsame&Hcheck&Hnum&Hrec).
  split; [done|]. split; [by rewrite Hnum, Hl|]. intros i e He.
  assert (Hi : (map oe_sha1 objs1') !! i = Some (oe_sha1 e)) by (by rewrite Hnames', list_lookup_fmap, He).
  rewrite list_lookup_fmap in Hi. destruct (objs1' !! i) as [e1|] eqn:He1; [|done]. injection Hi as Hi.
  destruct (same_objects_lookup _ _ _ _ Hsame He1) as (e2&He2&Hc). apply clear_fields in Hc as (Hn2&_).
  destruct (pk_read _ _ (packable_same _ _ _ Hsame Hpk) _ _ He2) as (type&data&Hr).
  destruct (Hrec _ _ He2) as (Hlt&Hfind&Hunp). specialize (Hunp _ _ Hr).
  rewrite <- Hn2, Hi in Hfind. destruct Hr as (Hr&_). rewrite <- Hn2, Hi in Hr.
  exists (oe_offset e2), (Z.to_nat (oe_depth e2)), type, data.
  split; [exact Hr|]. split; [exact Hfind|]. split; [lia|exact Hunp].
Qed.

(** C1. the packs of git-pack-objects are complete: when the program, given
    names of which no two are the same, ends having written a pack and its
    index, the index passes the reader's check and every object that was named
    on standard input is found through it and unpacked, through whatever chain
    of deltas was chosen, as exactly the type and contents the object store has
    for it.  This holds for every window, depth, order chosen by [qsort],
    schedule of partial writes and failure of [malloc] while deltas are
    searched, for packs of less than 2^32 bytes and indexes of less than 2^31.
    The program does not look for names given twice; an object named twice can
    become a delta against itself, as [named_twice] shows. *)
Theorem pack_objects_roundtrip (incremental non_empty : bool) (window : nat) (depth : Z) (lines : list bytes)
    (sorted_by_sha sorted_by_type : list nat) (ws_pack ws_idx : list wr)
    (objs : list object_entry) (ctx : SHA_CTX) (objs1 : list object_entry)
    (pack idx list_sha1 : bytes) (objs2 : list object_entry) :
  read_object_list has_sha1_pack incremental lines [] SHA1_Init = Ret (objs, ctx) ->
  get_object_details sha1_object_info objs = Ret objs1 ->
  create_sorted_list (fun a b _ _ => sha1_sort a b) objs1 sorted_by_sha ->
  create_sorted_list type_size_sort objs1 sorted_by_type ->
  NoDup (map oe_sha1 objs) -> 1064 + 24 * Z.of_nat (length objs) < 2 ^ 31 ->
  pack_objects malloc_ok read_sha1_file sha1_object_info has_sha1_pack incremental non_empty window depth lines
    sorted_by_sha sorted_by_type ws_pack ws_idx = io_ret (Some (pack, idx, objs2, list_sha1)) ->
  Z.of_nat (length pack) < 2 ^ 32 ->
  check_packed_git_idx (Some idx) = Ret 0 /\
  forall i e, objs !! i = Some e ->
    exists offset fuel type data,
      read_sha1_file (oe_sha1 e) = Ret (Some (type, data)) /\
      find_pack_entry_one idx (oe_sha1 e) = Ret (Some offset) /\
      unpack_entry_gently (fun _ => true) fuel idx pack offset = io_ret (Some (type, data)).
Proof.
  intros Hrl Hgd Hsha Htype Hnd Hsmall Hpo Hlen.
  destruct (pack_objects_recovers _ _ _ _ _ _ _ _ _ _ _ _ _ _ _ _ Hrl Hgd Hsha Htype Hnd Hsmall Hpo Hlen) as (Hc&_&Hall).
  split; [exact Hc|]. intros i e He. destruct (Hall i e He) as (offset&n&type&data&H1&H2&_&H3).
  exists offset, (S n), type, data. split; [exact H1|]. split; [exact H2|exact H3].
Qed.

End Program.

(** ** A run

    Two blobs that share most of their contents, packed with the codec of
    Zlib.v: the smaller is stored as a delta against the larger. *)

Module Demo.

Definition text : bytes := str "It is a truth universally acknowledged, that a single man in possession of a good fortune, must be in want of a wife.".
Definition name1 : bytes := replicate 20 17.
Definition name2 : bytes := replicate 20 203.
Definition data1 : bytes := text.
Definition data2 : bytes := text ++ str " J. A.".

Definition read (sha1 : bytes) : outcome (option (bytes * bytes)) :=
  if bool_decide (sha1 = name1) then Ret (Some (str "blob", data1))
  else if bool_decide (sha1 = name2) then Ret (Some (str "blob", data2))
  else Ret None.

Definition info (sha1 : bytes) : outcome (option (bytes * Z)) :=
  match read sha1 with
  | Ret (Some (type, data)) => Ret (Some (type, Z.of_nat (length data)))
  | _ => Ret None
  end.

Definition lines : list bytes := [sha1_to_hex name1 ++ str " pride" ++ [10]; sha1_to_hex name2 ++ str " pride" ++ [10]].
Definition writes : list wr := [WOk 100; WIntr; WOk 4000; WOk 4000; WOk 4000; WOk 0].

Definition objs : list object_entry :=
  match read_object_list (fun _ => false) false lines [] SHA1_Init with Ret (o, _) => o | _ => [] end.
Definition ctx : SHA_CTX :=
  match read_object_list (fun _ => false) false lines [] SHA1_Init with Ret (_, c) => c | _ => SHA1_Init end.
Definition objs1 : list object_entry := match get_object_details info objs with Ret o => o | _ => [] end.

Definition run : io (option (bytes * bytes * list object_entry * bytes)) :=
  pack_objects (H := Stored.stored) (fun _ _ => true) read info (fun _ => false) false false 10 10 lines
    [0; 1]%nat [0; 1]%nat writes writes.

Definition result : bytes * bytes * list object_entry * bytes :=
  match run with Some (Ret (Some r)) => r | _ => ([], [], [], []) end.

Example run_uses_a_delta : map oe_delta (result.1.2) = [Some 1%nat; None].
Proof. vm_compute. reflexivity. Qed.

#[export] Instance read_agrees : ObjectSource read info.
Proof.
  split. intros sha1 type size _ _. unfold info, read.
  assert (Hok : bytes_ok data1 /\ bytes_ok data2) by (split; apply (bool_decide_unpack _); vm_compute; exact I).
  case_bool_decide; [|case_bool_decide; [|done]]; intros E; vm_compute in E; injection E as <- <-;
    (eexists; split; [reflexivity|]; split; [vm_compute; reflexivity|]; split; [apply Hok|vm_compute; reflexivity]).
Qed.

Lemma sorted_check (cmp : object_entry -> object_entry -> nat -> nat -> Z) a b :
  cmp a b 0%nat 1%nat <= 0 -> create_sorted_list cmp [a; b] [0; 1]%nat.
Proof.
  intros Hc. split; [done|]. repeat constructor. by intros x y [= <-] [= <-].
Qed.

End Demo.

Lemma pack_objects_roundtrip_witness :
  check_packed_git_idx (Some (Demo.result.1.1.2)) = Ret 0 /\
  forall i e, Demo.objs !! i = Some e ->
    exists offset fuel type data,
      Demo.read (oe_sha1 e) = Ret (Some (type, data)) /\
      find_pack_entry_one (Demo.result.1.1.2) (oe_sha1 e) = Ret (Some offset) /\
      unpack_entry_gently (H := Stored.stored) (fun _ => true) fuel (Demo.result.1.1.2) (Demo.result.1.1.1) offset =
        io_ret (Some (type, data)).
Proof.
  apply (pack_objects_roundtrip (H := Stored.stored) (H0 := Stored.stored_laws) (fun _ _ => true) Demo.read Demo.info (fun _ => false) (Hsource := Demo.read_agrees) false false 10 10
    Demo.lines [0; 1]%nat [0; 1]%nat Demo.writes Demo.writes Demo.objs Demo.ctx Demo.objs1
    (Demo.result.1.1.1) (Demo.result.1.1.2) (Demo.result.2) (Demo.result.1.2)).
  - vm_compute. reflexivity.
  - vm_compute. reflexivity.
  - refine (Demo.sorted_check _ _ _ _). vm_compute. discriminate.
  - refine (Demo.sorted_check _ _ _ _). vm_compute. discriminate.
  - apply (bool_decide_unpack _). vm_compute. exact I.
  - vm_compute. reflexivity.
  - vm_compute. reflexivity.
  - vm_compute. reflexivity.
Defined.

Lemma find_deltas_bounded_witness :
  exists objects', find_deltas (fun _ _ => true) Demo.read [0; 1]%nat 11 10 Demo.objs1 = Ret objects' /\
    map skeleton objects' = map skeleton Demo.objs1 /\
    forall i e, objects' !! i = Some e ->
      match oe_delta e with
      | None => oe_depth e = 0
      | Some d => 0 < oe_depth e <= 10 /\
          exists b, objects' !! d = Some b /\ oe_type b = oe_type e /\ oe_depth e = oe_depth b + 1
      end.
Proof.
  apply (find_deltas_bounded (fun _ _ => true) Demo.read 10 Demo.objs1 [0; 1]%nat 11).
  - intros [|[|i]] e He; vm_compute in He; injection He as <- || discriminate He; repeat split; reflexivity.
  - intros i e He. eapply (known_data Demo.read Demo.objs1); [|exact He].
    eapply (get_object_details_known Demo.read Demo.info (Hsource := Demo.read_agrees) Demo.objs); [|vm_compute; reflexivity].
    eapply (read_object_list_new (fun _ => false) false Demo.lines [] SHA1_Init _ Demo.ctx); [constructor|vm_compute; reflexivity].
  - reflexivity.
  - lia.
Defined.

Lemma write_pack_file_total_witness :
  exists n r, write_pack_file (H := Stored.stored) (fun _ _ => true) Demo.read
    (replicate n (WOk (SHA1FILE_BUFFER - 1))) Demo.objs1 = io_ret r.
Proof.
  assert (Hk : Forall (entry_known Demo.read) Demo.objs1).
  { eapply (get_object_details_known Demo.read Demo.info (Hsource := Demo.read_agrees) Demo.objs); [|vm_compute; reflexivity].
    eapply (read_object_list_new (fun _ => false) false Demo.lines [] SHA1_Init _ Demo.ctx); [constructor|vm_compute; reflexivity]. }
  apply (write_pack_file_total (H := Stored.stored) (H0 := Stored.stored_laws) (fun _ _ => true) Demo.read Demo.objs1).
  - refine (proj1 (chains_packable Demo.read 10 Demo.objs1 Demo.objs1 [] Hk _)). apply fresh_chains.
    + by apply (known_fresh Demo.read).
    + intros i e He. by eapply known_data.
  - intros [|[|i]] e He; vm_compute in He; injection He as <- || discriminate He; eexists; vm_compute; reflexivity.
  - vm_compute. reflexivity.
Defined.

(** ** An object named twice

    Both entries have the name of the object, and the first is a delta against
    the second; the name of the base is the entry's own. *)

(** A delta that the index finds for the name of its own base is followed for
    ever. *)
Lemma own_base_loops `{Zlib} malloc_ok idx pack offset o size d :
  unpack_object_header pack offset = Ret (o, OBJ_DELTA, size) ->
  20 <= Z.of_nat (length pack) - o ->
  inflate_entry pack (o + 20) (Z.of_nat (length pack) - o - 20) size = Some d ->
  find_pack_entry_one idx (slice (Z.to_nat o) 20 pack) = Ret (Some offset) ->
  forall fuel, unpack_entry_gently malloc_ok fuel idx pack offset = None.
Proof.
  intros Hh Hl Hi Hf. induction fuel as [|fuel IH]; [done|]. cbn [unpack_entry_gently]. rewrite Hh. cbn [io_bind].
  rewrite Z.eqb_refl. unfold unpack_delta_entry. rewrite (proj2 (Z.ltb_ge _ _)) by lia.
  rewrite Hi, Hf. cbn [io_bind]. by rewrite IH.
Qed.

Module Twice.

Definition lines : list bytes := [sha1_to_hex Demo.name1 ++ [10]; sha1_to_hex Demo.name1 ++ [10]].

(** [qsort] may leave the two equal names in either order. *)
Definition result : bytes * bytes * list object_entry * bytes := Eval vm_compute in
  match pack_objects (H := Stored.stored) (fun _ _ => true) Demo.read Demo.info (fun _ => false) false false 10 10 lines
    [1; 0]%nat [0; 1]%nat Demo.writes Demo.writes with Some (Ret (Some r)) => r | _ => ([], [], [], []) end.

Definition pack : bytes := result.1.1.1.
Definition idx : bytes := result.1.1.2.

End Twice.

Example named_twice :
  map oe_delta (Twice.result.1.2) = [Some 1%nat; None] /\
  find_pack_entry_one Twice.idx Demo.name1 = Ret (Some 12) /\
  forall fuel, unpack_entry_gently (H := Stored.stored) (fun _ => true) fuel Twice.idx Twice.pack 12 = None.
Proof.
  split; [reflexivity|]. split; [vm_compute; reflexivity|].
  destruct (unpack_object_header Twice.pack 12) as [[[o kind] size]| |] eqn:Hh; vm_compute in Hh; try discriminate Hh.
  injection Hh as <- <- <-.
  eapply (own_base_loops (H := Stored.stored)); [vm_compute; reflexivity|vm_compute; discriminate|vm_compute; reflexivity|vm_compute; reflexivity].
Qed.
