(* ===== verification/PackStore.v ===== *)
(** * From loose objects to packs

    The composition of the object store (ObjectStore.v) with pack-objects
    (PackWrite.v): a store of loose objects is a source pack-objects can work
    from, and a store that has only the resulting pack reads every packed
    object exactly as the loose store did. *)

From stdpp Require Import base list numbers strings gmap.
From Stdlib Require Import ZArith Lia.
From S2P Require Import Prelude.
From S2P Require Import Sha1.
From S2P Require Import Hex.
From S2P Require Import PktLine.
From S2P Require Import Delta.
From S2P Require Import CsumFile.
From S2P Require Import PackIndex.
From S2P Require Import Zlib.
From S2P Require Import ObjectHeader.
From S2P Require Import PackEntry.
From S2P Require Import CString.
From S2P Require Import PackWrite.
From S2P Require Import PackRoundtrip.
From S2P Require Import PackDeltas.
From S2P Require Import ObjectStore.

(** A call that ends. *)
Definition ended {A} (m : io A) : outcome A := match m with Some o => o | None => Ub end.

(** ** More fuel does not change a finished unpacking *)

Lemma unpack_entry_gently_mono `{Zlib} mok fuel fuel' idx pack offset r :
  unpack_entry_gently mok fuel idx pack offset = io_ret r -> (fuel <= fuel')%nat ->
  unpack_entry_gently mok fuel' idx pack offset = io_ret r.
Proof.
  revert fuel' offset r; induction fuel as [|fuel IH]; intros fuel' offset r Hr Hle; [done|].
  destruct fuel' as [|fuel']; [lia|]. cbn [unpack_entry_gently] in *.
  destruct (unpack_object_header pack offset) as [[[off kind] size]| |]; [|done..]. cbn [io_bind] in *.
  destruct (kind =? OBJ_DELTA); [|done]. unfold unpack_delta_entry in *.
  destruct (_ <? 20); [done|]. destruct (inflate_entry _ _ _ _) as [delta|]; [|done].
  destruct (find_pack_entry_one _ _) as [[base|]| |]; [|done..]. cbn [io_bind] in *.
  apply io_bind_inv in Hr as (b&Hb&Hr). rewrite (IH fuel' base b Hb ltac:(lia)). done.
Qed.

(** ** The loose store as a source of objects *)

Section Repack.
Context `{ZlibLaws} (sys : os) (flag : bool) (db : odb).
Context (Hopens : opens sys) (Hloose : loose_only db).

Definition loose_read (sha1 : bytes) : outcome (option (bytes * bytes)) :=
  ended (read_sha1_file sys (fun _ => true) flag db sha1).
Definition loose_info (sha1 : bytes) : outcome (option (bytes * Z)) :=
  ended (sha1_object_info sys flag db sha1).
Definition loose_has_pack (sha1 : bytes) : bool :=
  match has_sha1_pack db sha1 with Ret b => b | _ => false end.

#[export] Instance loose_source : ObjectSource loose_read loose_info.
Proof.
  split. intros sha1 type size Hl Hok Hi. unfold loose_info in Hi.
  destruct (find_sha1_file db sha1) as [path|] eqn:Ef.
  - destruct (proj2 Hloose sha1 path Hl Hok Ef) as (lv&t&d&Hc&Hobj&Hsz).
    destruct (read_loose sys (fun _ => true) flag db sha1 path lv t d Hopens Ef Hc Hobj) as [Hr Hinfo].
    rewrite Hinfo in Hi. cbn in Hi. injection Hi as <- <-. exists d. unfold loose_read. rewrite Hr.
    split; [reflexivity|]. split; [reflexivity|]. split; [apply Hobj|exact Hsz].
  - unfold sha1_object_info in Hi. rewrite map_file_none in Hi by exact Ef. rewrite (proj1 Hloose) in Hi.
    cbn in Hi. discriminate Hi.
Qed.

(** A store that has nothing but the pack. *)
Definition packed_store (dir idx pack : bytes) : odb :=
  {| object_dir := dir; alternates := []; files := ∅; packs := [(idx, pack)] |}.

Lemma packed_find dir idx pack sha1 : find_sha1_file (packed_store dir idx pack) sha1 = None.
Proof.
  unfold find_sha1_file. cbn [object_dir alternates packed_store]. change (prepare_alt_odb []) with (@nil bytes).
  cbn [find_in files packed_store]. rewrite lookup_empty. reflexivity.
Qed.

(** C2. repacking loses nothing: let pack-objects run on a store of loose
    objects, with a list of names of which no two are the same, and put the
    pack and the index it wrote in place of the loose files; then
    [has_sha1_file] finds every object that was named, and [read_sha1_file]
    returns for it what it returned before.  (An object named twice may not be
    readable any more: [named_twice] of PackDeltas.v.) *)
Theorem repack_preserves_objects (malloc_ok : nat -> Z -> bool) (incremental non_empty : bool) (window : nat) (depth : Z)
    (lines : list bytes) (sorted_by_sha sorted_by_type : list nat) (ws_pack ws_idx : list wr)
    (objs : list object_entry) (ctx : SHA_CTX) (objs1 : list object_entry)
    (pack idx list_sha1 dir : bytes) (objs2 : list object_entry) :
  read_object_list loose_has_pack incremental lines [] SHA1_Init = Ret (objs, ctx) ->
  get_object_details loose_info objs = Ret objs1 ->
  create_sorted_list (fun a b _ _ => sha1_sort a b) objs1 sorted_by_sha ->
  create_sorted_list type_size_sort objs1 sorted_by_type ->
  NoDup (map oe_sha1 objs) -> 1064 + 24 * Z.of_nat (length objs) < 2 ^ 31 ->
  pack_objects malloc_ok loose_read loose_info loose_has_pack incremental non_empty window depth lines
    sorted_by_sha sorted_by_type ws_pack ws_idx = io_ret (Some (pack, idx, objs2, list_sha1)) ->
  Z.of_nat (length pack) < 2 ^ 32 ->
  forall i e, objs !! i = Some e ->
    has_sha1_file (packed_store dir idx pack) (oe_sha1 e) = Ret true /\
    exists o, read_sha1_file sys (fun _ => true) flag db (oe_sha1 e) = io_ret (Some o) /\
      read_sha1_file sys (fun _ => true) flag (packed_store dir idx pack) (oe_sha1 e) = io_ret (Some o).
Proof.
  intros Hrl Hgd Hsha Htype Hnd Hsmall Hpo Hlen i e He.
  destruct (pack_objects_recovers malloc_ok loose_read loose_info loose_has_pack _ _ _ _ _ _ _ _ _ _ _ _ _ _ _ _ Hrl Hgd Hsha Htype Hnd Hsmall Hpo Hlen) as (_&Hnum&Hall).
  destruct (Hall i e He) as (offset&n&type&data&Hread&Hfind&Hn&Hunp).
  pose proof (packed_find dir idx pack (oe_sha1 e)) as Hnone. split.
  - unfold has_sha1_file, has_sha1_pack. rewrite Hnone. cbn [packs packed_store find_pack_entry]. by rewrite Hfind.
  - exists (type, data). split.
    + unfold loose_read in Hread. destruct (read_sha1_file sys _ flag db (oe_sha1 e)) as [o|]; [|done].
      cbn in Hread. by rewrite Hread.
    + unfold read_sha1_file. rewrite map_file_none by done. unfold read_packed_sha1. cbn [packs packed_store find_pack_entry].
      rewrite Hfind. cbn [io_bind mbind outcome_bind]. unfold unpack_entry, chain_fuel. rewrite Hnum, Nat2Z.id.
      by rewrite (unpack_entry_gently_mono _ _ (S (length objs)) _ _ _ _ Hunp) by lia.
Qed.

End Repack.

(** ** A run

    The two objects of [Demo], stored as loose files. *)

Module RepackDemo.

Definition dir : bytes := str ".git/objects".

Definition db : odb := {| object_dir := dir; alternates := [];
  files := <[object_path dir Demo.name1 := loose_file (H := Stored.stored) 9 (str "blob") Demo.data1]>
           (<[object_path dir Demo.name2 := loose_file (H := Stored.stored) 9 (str "blob") Demo.data2]> ∅);
  packs := [] |}.

Lemma data_ok d : d = Demo.data1 \/ d = Demo.data2 -> object_ok (str "blob") d /\ Z.of_nat (length d) < 2 ^ 28.
Proof.
  intros [-> | ->]; (split; [|vm_compute; reflexivity]); split; try exact blob_type_ok;
    (split; [apply not_elem_check; reflexivity|]); (split; [apply (bool_decide_unpack _); vm_compute; exact I|vm_compute; reflexivity]).
Qed.

Lemma packed_db_loose : loose_only (H := Stored.stored) db.
Proof.
  split; [reflexivity|]. intros sha1 path _ _ Hf. apply find_in_path in Hf as (d&c&_&_&Hc0). pose proof Hc0 as Hc.
  cbn [files db] in Hc. apply lookup_insert_Some in Hc as [[_ <-]|[_ Hc]].
  - exists 9, (str "blob"), Demo.data1. destruct (data_ok Demo.data1) as [H1 H2]; [by left|]. split; [exact Hc0|exact (conj H1 H2)].
  - apply lookup_insert_Some in Hc as [[_ <-]|[_ Hc]]; [|by rewrite lookup_empty in Hc].
    exists 9, (str "blob"), Demo.data2. destruct (data_ok Demo.data2) as [H1 H2]; [by right|]. split; [exact Hc0|exact (conj H1 H2)].
Qed.

Abbreviation read := (loose_read (H := Stored.stored) StoreDemo.sys true db).
Abbreviation info := (loose_info (H := Stored.stored) StoreDemo.sys true db).

Definition objs1 : list object_entry := match get_object_details info Demo.objs with Ret o => o | _ => [] end.

Definition result : bytes * bytes * list object_entry * bytes :=
  match pack_objects (H := Stored.stored) (fun _ _ => true) read info (loose_has_pack db) false false 10 10 Demo.lines
    [0; 1]%nat [0; 1]%nat Demo.writes Demo.writes with Some (Ret (Some r)) => r | _ => ([], [], [], []) end.

End RepackDemo.

Lemma repack_preserves_objects_witness :
  length Demo.objs = 2%nat /\
  forall i e, Demo.objs !! i = Some e ->
    has_sha1_file (packed_store RepackDemo.dir (RepackDemo.result.1.1.2) (RepackDemo.result.1.1.1)) (oe_sha1 e) = Ret true /\
    exists o, read_sha1_file (H := Stored.stored) StoreDemo.sys (fun _ => true) true RepackDemo.db (oe_sha1 e) = io_ret (Some o) /\
      read_sha1_file (H := Stored.stored) StoreDemo.sys (fun _ => true) true
        (packed_store RepackDemo.dir (RepackDemo.result.1.1.2) (RepackDemo.result.1.1.1)) (oe_sha1 e) = io_ret (Some o).
Proof.
  split; [vm_compute; reflexivity|].
  apply (repack_preserves_objects (H := Stored.stored) (H0 := Stored.stored_laws) StoreDemo.sys true RepackDemo.db
    (fun p => eq_refl) RepackDemo.packed_db_loose (fun _ _ => true) false false 10 10
    Demo.lines [0; 1]%nat [0; 1]%nat Demo.writes Demo.writes Demo.objs Demo.ctx RepackDemo.objs1
    (RepackDemo.result.1.1.1) (RepackDemo.result.1.1.2) (RepackDemo.result.2) RepackDemo.dir (RepackDemo.result.1.2)).
  - vm_compute. reflexivity.
  - vm_compute. reflexivity.
  - refine (Demo.sorted_check _ _ _ _). vm_compute. discriminate.
  - refine (Demo.sorted_check _ _ _ _). vm_compute. discriminate.
  - apply (bool_decide_unpack _). vm_compute. exact I.
  - vm_compute. reflexivity.
  - vm_compute. reflexivity.
  - vm_compute. reflexivity.
Defined.
