(* ===== verification/ObjectDB.v ===== *)
(** * The object database, as its clients see it

    [write-tree], [read-tree] and the parsers of objects use the store of
    ObjectStore.v through [has_sha1_file], [read_sha1_file] and
    [write_sha1_file] only.  [ObjectDB] is that interface, [ObjectDBLaws] what
    it promises for a set of objects whose names do not collide, and
    [odb_laws] shows that the store of loose files and packs keeps the
    promise. *)

From stdpp Require Import base list numbers strings gmap.
From Stdlib Require Import ZArith Lia.
From S2P Require Import Prelude.
From S2P Require Import Sha1.
From S2P Require Import Hex.
From S2P Require Import CsumFile.
From S2P Require Import Zlib.
From S2P Require Import ObjectHeader.
From S2P Require Import CString.
From S2P Require Import ObjectStore.

(** [db_write db buf type] writes the whole of [buf]; it returns the value of
    the call, the name of the object and the new store.  [db_nul] tells whether
    a NUL stands behind the contents [db_read] returns. *)
Class ObjectDB (D : Type) := {
  db_has : D -> bytes -> outcome bool;
  db_read : D -> bytes -> io (option (bytes * bytes));
  db_nul : D -> bytes -> bool;
  db_write : D -> bytes -> bytes -> outcome (Z * bytes * D);
}.

Definition sha1_ok (sha1 : bytes) : Prop := length sha1 = 20%nat /\ bytes_ok sha1.

#[export] Instance sha1_ok_dec sha1 : Decision (sha1_ok sha1).
Proof. unfold sha1_ok. apply _. Defined.

(** An object is a type and its contents. *)
Definition db_holds {D} `{ObjectDB D} (s : D) (o : bytes * bytes) : Prop :=
  db_has s (object_name o.1 o.2) = Ret true /\ db_read s (object_name o.1 o.2) = io_ret (Some o).

(** What writing one of [objs] does, in a store where [inv] holds. *)
Class ObjectDBLaws {D} `{ObjectDB D} (inv : D -> Prop) (objs : list (bytes * bytes)) : Prop := {
  db_name_inj : forall o o', o ∈ objs -> o' ∈ objs -> object_name o.1 o.2 = object_name o'.1 o'.2 -> o = o';
  db_name_ok : forall o, o ∈ objs -> sha1_ok (object_name o.1 o.2);
  db_known : forall s o, inv s -> o ∈ objs -> db_has s (object_name o.1 o.2) = Ret false \/ db_holds s o;
  db_write_ok : forall s o, inv s -> o ∈ objs -> exists s',
    db_write s o.2 o.1 = Ret (0, object_name o.1 o.2, s') /\ inv s' /\ db_holds s' o /\
    forall n, sha1_ok n -> n <> object_name o.1 o.2 -> db_has s' n = db_has s n /\ db_read s' n = db_read s n;
}.

Section Client.
Context {D} `{ObjectDBLaws D inv objs}.

(** Nothing is lost by a write. *)
Lemma db_write_keeps s o : inv s -> o ∈ objs -> exists s',
  db_write s o.2 o.1 = Ret (0, object_name o.1 o.2, s') /\ inv s' /\ db_holds s' o /\
  (forall n, sha1_ok n -> db_has s n = Ret true -> db_has s' n = Ret true) /\
  (forall o', o' ∈ objs -> db_holds s o' -> db_holds s' o').
Proof.
  intros Hi Ho. destruct (db_write_ok s o Hi Ho) as (s'&Hw&Hi'&Hh&Hrest). exists s'. split_and!; try done.
  - intros n Hn Hhas. destruct (decide (n = object_name o.1 o.2)) as [->|Hne]; [apply Hh|].
    destruct (Hrest n Hn Hne) as [-> _]. done.
  - intros o' Ho' Hh'. destruct (decide (object_name o'.1 o'.2 = object_name o.1 o.2)) as [E|Hne].
    + by rewrite (db_name_inj o' o Ho' Ho E).
    + destruct (Hrest _ (db_name_ok o' Ho') Hne) as [E1 E2]. unfold db_holds. by rewrite E1, E2.
Qed.

End Client.

(** ** The store of ObjectStore.v *)

Section OdbLaws.
Context `{ZlibLaws} (sys : os) (malloc_ok : Z -> bool) (flag : bool).

#[export] Instance odb_db : ObjectDB odb := {
  db_has := has_sha1_file;
  db_read := read_sha1_file sys malloc_ok flag;
  db_nul := read_nul sys flag;
  db_write db buf type := write_sha1_file sys db buf (Z.of_nat (length buf)) type;
}.

(** Every system call succeeds, and links can be made. *)
Definition sys_works : Prop :=
  (forall p, open_plain sys p = true) /\ (forall p, open_enoent sys p = true) /\ mkstemp_ok sys = true /\
  write_whole sys = true /\ forall p, link_to sys p = LinkOk.

(** Objects the format can carry, no two of them with the same name. *)
Definition no_collisions (objs : list (bytes * bytes)) : Prop :=
  (forall o, o ∈ objs -> object_ok o.1 o.2) /\
  forall o o', o ∈ objs -> o' ∈ objs -> object_name o.1 o.2 = object_name o'.1 o'.2 -> o = o'.

(** A store where each of [objs] is missing or can be read. *)
Definition odb_inv (objs : list (bytes * bytes)) (db : odb) : Prop :=
  odb_ok db /\ forall o, o ∈ objs ->
    db_has db (object_name o.1 o.2) = Ret false \/ db_holds db o.

Lemma has_unchanged db sha1 contents n :
  odb_ok db -> sha1_ok sha1 -> sha1_ok n -> n <> sha1 ->
  has_sha1_file (set_file db (object_path (object_dir db) sha1) contents) n = has_sha1_file db n.
Proof. intros Hdb [Hl Hok] [Hl' Hok'] Hne. unfold has_sha1_file, has_sha1_pack. by rewrite find_set_file_other. Qed.

Lemma read_other db sha1 contents n :
  odb_ok db -> sha1_ok sha1 -> sha1_ok n -> n <> sha1 ->
  read_sha1_file sys malloc_ok flag (set_file db (object_path (object_dir db) sha1) contents) n =
  read_sha1_file sys malloc_ok flag db n.
Proof.
  intros Hdb [Hl Hok] [Hl' Hok'] Hne. apply read_unchanged; [by apply find_set_file_other|].
  intros p Hp ->. unfold find_sha1_file in Hp. apply find_in_path in Hp as (d&c&Hd&E&_).
  apply object_path_inj in E; try done; [by apply (dir_ok db)|].
  destruct Hdb as [Hd0 Ha]. apply elem_of_cons in Hd as [->|Hd]; [done|]. rewrite Forall_forall in Ha. by apply Ha.
Qed.

Lemma object_name_sha1_ok o objs : no_collisions objs -> o ∈ objs -> sha1_ok (object_name o.1 o.2).
Proof.
  intros [Hok _] Ho. destruct (Hok o Ho) as (Ht&_&Hd&Hl). split; [by apply object_name_length|apply fips_sha1_ok].
Qed.

Lemma odb_write objs db o :
  sys_works -> no_collisions objs -> odb_inv objs db -> o ∈ objs -> exists db',
    db_write db o.2 o.1 = Ret (0, object_name o.1 o.2, db') /\ odb_inv objs db' /\ db_holds db' o /\
    forall n, sha1_ok n -> n <> object_name o.1 o.2 -> db_has db' n = db_has db n /\ db_read db' n = db_read db n.
Proof.
  intros (Hop&Hen&Hmk&Hwr&Hln) Hnc [Hdb Hall] Ho. pose proof (object_name_sha1_ok o objs Hnc Ho) as Hsha.
  pose proof Hnc as [Hok Hinj]. destruct (Hall o Ho) as [Hno|Hyes].
  2:{ exists db. cbn [db_write odb_db]. rewrite (write_sha1_file_result sys db o.1 o.2 true (Hok o Ho) Hdb (proj1 Hyes)).
      split; [done|]. split; [split; done|]. split; [done|]. intros n _ _. done. }
  set (path := object_path (object_dir db) (object_name o.1 o.2)).
  exists (set_file db path (loose_file 9 o.1 o.2)). cbn [db_write odb_db].
  rewrite (write_sha1_file_result sys db o.1 o.2 false (Hok o Ho) Hdb Hno). unfold write_result. fold path.
  rewrite Hen, Hmk, Hwr, Hln. cbn [negb andb].
  assert (Hrest : forall n, sha1_ok n -> n <> object_name o.1 o.2 ->
    db_has (set_file db path (loose_file 9 o.1 o.2)) n = db_has db n /\
    db_read (set_file db path (loose_file 9 o.1 o.2)) n = db_read db n).
  { intros n Hn Hne. split; [by apply has_unchanged|by apply read_other]. }
  assert (Hh : db_holds (set_file db path (loose_file 9 o.1 o.2)) o).
  { split; cbn [db_has db_read odb_db].
    - unfold has_sha1_file, path. by rewrite find_set_file_same.
    - destruct (read_loose sys malloc_ok flag (set_file db path (loose_file 9 o.1 o.2)) (object_name o.1 o.2) path 9 o.1 o.2)
        as [-> _]; [done|apply find_set_file_same| |by apply Hok|by destruct o].
      cbn [files set_file]. by rewrite lookup_insert_eq. }
  split; [done|]. split; [|done]. split; [by destruct Hdb|]. intros o' Ho'.
  destruct (decide (object_name o'.1 o'.2 = object_name o.1 o.2)) as [E|Hne]; [rewrite (Hinj o' o Ho' Ho E); by right|].
  destruct (Hrest _ (object_name_sha1_ok o' objs Hnc Ho') Hne) as [E1 E2]. unfold db_holds. rewrite E1, E2. by apply Hall.
Qed.

Lemma odb_laws objs : sys_works -> no_collisions objs -> ObjectDBLaws (odb_inv objs) objs.
Proof.
  intros Hsys Hnc. split.
  - apply Hnc.
  - intros o Ho. by apply (object_name_sha1_ok o objs).
  - intros s o Hi Ho. by apply (proj2 Hi).
  - intros s o Hi Ho. by apply odb_write.
Qed.

End OdbLaws.
