(* ===== verification/Tree.v ===== *)
(** * Trees and the index (write-tree.c, tree.c)

    [write_tree] turns the sorted entries of the index into tree objects, one
    per directory; [read_tree] walks the tree objects and adds their files to
    an index.  [tree_of] is the format both agree on: the contents of the tree
    object of a directory, its files and the contents of the trees below it.
    The database is any [ObjectDB]; buffer sizes are those of the code, the
    [int] lengths of names and trees are below 2^31. *)

From stdpp Require Import base list numbers strings sorting.
From Stdlib Require Import ZArith Lia.
From S2P Require Import Prelude.
From S2P Require Import CsumFile.
From S2P Require Import CString.
From S2P Require Import ObjectHeader.
From S2P Require Import CacheEntry.
From S2P Require Import Index.
From S2P Require Import IndexFile.
From S2P Require Import ObjectDB.

(** ** Code: write-tree.c *)

Section Code.
Context {D} `{ObjectDB D}.

Definition check_valid_sha1 (db : D) (sha1 : bytes) : outcome Z :=
  ret ← db_has db sha1; Ret (if (ret : bool) then 0 else -1).

(** [alloc_nr] of an [unsigned long]. *)
Definition alloc_nr_ul (x : Z) : Z := u64 ((x + 16) * 3) / 2.

(** [sprintf(buffer + offset, "%o %.*s", ...)], a NUL and the 20 bytes. *)
Definition tree_entry (mode : Z) (name sha1 : bytes) : bytes := numeral 8 mode ++ [32] ++ name ++ [0] ++ sha1.

(** One iteration of the loop, or one call, per unit of fuel.  [cachep] has
    [maxentries] elements; [size] and [buffer] are the tree being made.
    Returns [nr], [returnsha1] and the database; the value of
    [write_sha1_file] is dropped.  [exit(1)] is [Die]. *)
Fixpoint write_tree (fuel : nat) (db : D) (cachep : list cache_entry) (nr : Z) (base : bytes) (size : Z) (buffer : bytes)
    : io (Z * bytes * D) :=
  match fuel with
  | O => None
  | S fuel =>
      let finish :=
        r <- Some (db_write db buffer (str "tree")) ;;
        let '(_, returnsha1, db) := r in io_ret (nr, returnsha1, db) in
      match cachep !! Z.to_nat nr with
      | None => finish
      | Some ce =>
          let pathname := ce_name ce in
          let pathlen := ce_namelen ce in
          let baselen := length base in
          if (pathlen <=? Z.of_nat baselen) || negb (memcmp baselen base pathname =? 0) then finish
          else
            let filename := drop baselen pathname in
            e <- match strchr filename 47 with
                 | Some k =>
                     r <- write_tree fuel db (drop (Z.to_nat nr) cachep) 0 (take (baselen + k + 1) pathname) 8192 [] ;;
                     let '(subdir_written, subdir_sha1, db) := r in
                     io_ret (nr + subdir_written - 1, S_IFDIR, Z.of_nat (baselen + k), subdir_sha1, db)
                 | None => io_ret (nr, ce_mode ce, pathlen, ce_sha1 ce, db)
                 end ;;
            let '(nr, mode, pathlen, sha1, db) := e in
            valid <- Some (check_valid_sha1 db sha1) ;;
            if valid <? 0 then Some Die
            else
              let entrylen := pathlen - Z.of_nat baselen in
              let need := Z.of_nat (length buffer) + entrylen + 100 in
              let size := if size <? need then alloc_nr_ul need else size in
              let entry := tree_entry mode (take (Z.to_nat entrylen) filename) sha1 in
              if size <? Z.of_nat (length (buffer ++ entry)) then Some Ub
              else write_tree fuel db cachep (nr + 1) base size (buffer ++ entry)
      end
  end.

(** The loops of [main] that count what is wrong, up to 11. *)
Fixpoint count_funny {A} (test : A -> bool) (l : list A) (funny : Z) : Z :=
  match l with
  | [] => funny
  | x :: l => if test x then (if 10 <? funny + 1 then funny + 1 else count_funny test l (funny + 1))
              else count_funny test l funny
  end.

Definition ce_unmerged (ce : cache_entry) : bool := negb (Z.land (ce_flags ce) (Z.lnot CE_NAMEMASK) =? 0).

(** "You have both [this] and [next]". *)
Definition path_and_file (names : bytes * bytes) : bool :=
  let '(this_name, next_name) := names in
  (length this_name <? length next_name)%nat && (memcmp (length this_name) this_name next_name =? 0) &&
  (name_char next_name (length this_name) =? 47).

Definition adjacent {A} (l : list A) : list (A * A) := zip l (tail l).

(** Enough for [write_tree]: see [write_tree_spec]. *)
Definition tree_fuel (cache : list cache_entry) : nat := S (sum_list_with (fun ce => length (ce_name ce)) cache).

(** [main] of write-tree.c on the index file; returns the name it prints. *)
Definition write_tree_main (db : D) (file : option bytes) : io (bytes * D) :=
  r <- Some (read_cache None file) ;;
  let '(entries, i) := r in
  if entries <? 0 then Some Die
  else
    let cache := match i with Some i => active_cache i | None => [] end in
    if negb (count_funny ce_unmerged cache 0 =? 0) then Some Die
    else if negb (count_funny path_and_file (adjacent (map ce_name cache)) 0 =? 0) then Some Die
    else
      r <- write_tree (tree_fuel cache) db cache 0 [] 8192 [] ;;
      let '(nr, sha1, db) := r in
      if negb (nr =? entries) then Some Die else io_ret (sha1, db).

(** ** Code: tree.c *)

(** The entry [read_one_entry] makes: everything it does not set is 0. *)
Definition tree_ce (path sha1 : bytes) (mode stage : Z) : cache_entry :=
  {| ce_ctime := {| sec := 0; nsec := 0 |}; ce_mtime := {| sec := 0; nsec := 0 |}; ce_dev := 0; ce_ino := 0;
     ce_mode := create_ce_mode mode; ce_uid := 0; ce_gid := 0; ce_st_size := 0; ce_sha1 := sha1;
     ce_flags := create_ce_flags (Z.of_nat (length path)) stage; ce_name := path |}.

Definition read_one_entry (i : index) (sha1 base pathname : bytes) (mode stage : Z) : outcome (Z * index) :=
  add_cache_entry i (tree_ce (base ++ pathname) sha1 mode stage) (Z.lor ADD_CACHE_OK_TO_ADD ADD_CACHE_SKIP_DFCHECK).

(** [buffer] holds the [size] bytes left; a NUL follows them.  When there is no
    space, [path] is [NULL + 1]. *)
Fixpoint read_tree_recursive (fuel : nat) (db : D) (i : index) (buffer base : bytes) (stage : Z) : io (Z * index) :=
  match fuel with
  | O => None
  | S fuel =>
      if (length buffer =? 0)%nat then io_ret (0, i)
      else
        let len := (length (cstr buffer) + 1)%nat in
        if (length buffer <? len + 20)%nat then io_ret (-1, i)
        else
          match sscanf_o buffer with
          | None => io_ret (-1, i)
          | Some mode =>
              let sha1 := slice len 20 buffer in
              let rest := drop (len + 20) buffer in
              match strchr buffer 32 with
              | None => Some Ub
              | Some k =>
                  let path := cstr (drop (k + 1) buffer) in
                  if S_ISDIR mode then
                    elt <- db_read db sha1 ;;
                    match elt with
                    | None => io_ret (-1, i)
                    | Some (elttype, eltbuf) =>
                        if negb (bool_decide (cstr elttype = str "tree")) then io_ret (-1, i)
                        else
                          r <- read_tree_recursive fuel db i eltbuf (base ++ path ++ [47]) stage ;;
                          let '(retval, i) := r in
                          if negb (retval =? 0) then io_ret (-1, i)
                          else read_tree_recursive fuel db i rest base stage
                    end
                  else
                    r <- Some (read_one_entry i sha1 base path mode stage) ;;
                    let '(ret, i) := r in
                    if ret <? 0 then io_ret (-1, i) else read_tree_recursive fuel db i rest base stage
              end
          end
  end.

Definition read_tree (fuel : nat) (db : D) (i : index) (buffer : bytes) (stage : Z) : io (Z * index) :=
  read_tree_recursive fuel db i buffer [] stage.

End Code.

(** ** The format *)

(** A file of the index: its path, mode and object. *)
Abbreviation leaf := (bytes * Z * bytes)%type.
Definition leaf_path (l : leaf) : bytes := l.1.1.
Definition ce_leaf (ce : cache_entry) : leaf := (ce_name ce, ce_mode ce, ce_sha1 ce).
Definition leaf_ce (stage : Z) (l : leaf) : cache_entry := tree_ce l.1.1 l.2 l.1.2 stage.

(** A component of a path. *)
Definition component (name : bytes) : Prop := 47 ∉ name /\ 0 ∉ name.

(** In the directory [base], which ends in ['/'] unless it is the root. *)
Definition inside (base path : bytes) : Prop := base `prefix_of` path /\ (length base < length path)%nat.

#[export] Instance inside_dec base path : Decision (inside base path).
Proof. unfold inside. apply _. Defined.

(** The files of a directory end here. *)
Definition stops (base : bytes) (es : list leaf) : Prop :=
  match es with [] => True | e :: _ => ~ inside base (leaf_path e) end.

Definition tree_type : bytes := str "tree".

(** [tree_of base es buf objs]: the tree object with contents [buf] stands for
    the files [es] of the directory [base]; [objs] are the contents of the
    trees of its subdirectories, at all depths. *)
Inductive tree_of : bytes -> list leaf -> bytes -> list bytes -> Prop :=
| tree_nil base : tree_of base [] [] []
| tree_file base name mode sha1 es buf objs :
    name <> [] -> component name -> tree_of base es buf objs ->
    tree_of base ((base ++ name, mode, sha1) :: es) (tree_entry mode name sha1 ++ buf) objs
| tree_dir base name sub sbuf sobjs es buf objs :
    component name -> sub <> [] -> tree_of (base ++ name ++ [47]) sub sbuf sobjs ->
    stops (base ++ name ++ [47]) es -> tree_of base es buf objs ->
    tree_of base (sub ++ es) (tree_entry S_IFDIR name (object_name tree_type sbuf) ++ buf) (sobjs ++ sbuf :: objs).

(** How far the paths go below [base]: bounds the steps of both loops. *)
Definition depth_below (base : bytes) (es : list leaf) : nat :=
  sum_list_with (fun e => length (leaf_path e) - length base)%nat es.

Lemma tree_of_inside base es buf objs : tree_of base es buf objs -> Forall (fun e => inside base (leaf_path e)) es.
Proof.
  induction 1 as [|base name mode sha1 es buf objs Hne Hc _ IH|base name sub sbuf sobjs es buf objs Hc Hne _ IHs _ _ IH].
  - constructor.
  - constructor; [|done]. split; [by apply prefix_app_r|]. unfold leaf_path; cbn. rewrite length_app. destruct name; [done|simpl; lia].
  - apply Forall_app. split; [|done]. eapply Forall_impl; [exact IHs|]. intros e [Hp Hl]. split.
    + etrans; [|exact Hp]. by apply prefix_app_r.
    + rewrite !length_app in Hl. simpl in Hl. lia.
Qed.

Lemma depth_below_app base l k : depth_below base (l ++ k) = (depth_below base l + depth_below base k)%nat.
Proof. unfold depth_below. apply sum_list_with_app. Qed.

Lemma depth_below_deeper base d es :
  d <> [] -> es <> [] -> Forall (fun e => inside (base ++ d) (leaf_path e)) es ->
  (S (depth_below (base ++ d) es) <= depth_below base es)%nat.
Proof.
  intros Hd Hne HF. assert (Hl : (1 <= length d)%nat) by (destruct d; [done|simpl; lia]).
  assert (Hle : forall l, Forall (fun e => inside (base ++ d) (leaf_path e)) l ->
    (length l + depth_below (base ++ d) l <= depth_below base l)%nat).
  { induction 1 as [|e l [_ He] _ IH]; [done|]. cbn [depth_below sum_list_with length].
    fold (depth_below (base ++ d) l) (depth_below base l). rewrite length_app in He |- *. lia. }
  destruct es; [done|]. specialize (Hle _ HF). simpl in *. lia.
Qed.

(** ** [write_tree] writes the trees of the format *)

Record entry_ok (ce : cache_entry) : Prop := {
  entry_wf : ce_wf ce;
  entry_mode : 0 <= ce_mode ce < 2 ^ 32;
  entry_sha1 : sha1_ok (ce_sha1 ce);
}.

#[export] Instance entry_ok_dec ce : Decision (entry_ok ce).
Proof.
  refine (cast_if (decide (ce_wf ce /\ 0 <= ce_mode ce < 2 ^ 32 /\ sha1_ok (ce_sha1 ce)))).
  - by split; tauto.
  - by intros []; tauto.
Defined.

Lemma base_check ce base :
  ce_wf ce ->
  (ce_namelen ce <=? Z.of_nat (length base)) || negb (memcmp (length base) base (ce_name ce) =? 0) =
  negb (bool_decide (inside base (ce_name ce))).
Proof.
  intros Hwf. rewrite wf_namelen by done. unfold inside. destruct (Z.leb_spec (Z.of_nat (length (ce_name ce))) (Z.of_nat (length base))).
  - rewrite bool_decide_false; [done|lia].
  - cbn [orb]. f_equal. destruct (Z.eqb_spec (memcmp (length base) base (ce_name ce)) 0) as [E|E].
    + apply memcmp_prefix in E; [|lia]. rewrite bool_decide_true; [done|]. split; [done|lia].
    + rewrite bool_decide_false; [done|]. intros [Hp _]. apply E, memcmp_prefix; [lia|done].
Qed.

Lemma numeral8_length n : 0 <= n < 2 ^ 32 -> (length (numeral 8 n) <= 33)%nat.
Proof.
  intros Hn. unfold numeral. assert (Hl : Z.log2 n < 33).
  { destruct (Z.eq_dec n 0) as [->|]; [done|]. apply Z.log2_lt_pow2; lia. }
  enough (Hd : forall fuel m, (length (digits 8 fuel m) <= S fuel)%nat) by (specialize (Hd (Z.to_nat (Z.log2 n)) n); lia).
  clear. induction fuel as [|fuel IH]; intros m; cbn [digits]; [simpl; lia|].
  destruct (m <? 8); [simpl; lia|]. rewrite length_app. specialize (IH (m / 8)). simpl. lia.
Qed.

Lemma tree_entry_length mode name sha1 :
  0 <= mode < 2 ^ 32 -> length sha1 = 20%nat -> (length (tree_entry mode name sha1) < length name + 100)%nat.
Proof. intros Hm Hs. pose proof (numeral8_length mode Hm). unfold tree_entry. rewrite !length_app, Hs. simpl. lia. Qed.

Lemma alloc_nr_ul_grows x : 0 <= x < 2 ^ 61 -> x <= alloc_nr_ul x.
Proof. intros Hx. unfold alloc_nr_ul. rewrite u64_small by lia. dm_lia. Qed.

Section WriteTree.
Context {D} `{ObjectDBLaws D inv universe}.

(** What was there is still there. *)
Definition keeps (s s' : D) : Prop :=
  (forall n, sha1_ok n -> db_has s n = Ret true -> db_has s' n = Ret true) /\
  (forall o, o ∈ universe -> db_holds s o -> db_holds s' o).

#[local] Instance keeps_preorder : PreOrder keeps.
Proof.
  split; [by split|]. intros a b c [H1 H2] [H3 H4]. split; [intros n Hn Ha|intros o Ho Ha].
  - by apply H3, H1.
  - by apply H4, H2.
Qed.

(** The end of the loop. *)
Definition tree_done (nr : Z) (db : D) (buffer : bytes) : io (Z * bytes * D) :=
  r <- Some (db_write db buffer (str "tree")) ;;
  let '(_, returnsha1, db) := r in io_ret (nr, returnsha1, db).

Lemma write_tree_done db nr buffer :
  inv db -> (tree_type, buffer) ∈ universe -> exists db',
    tree_done nr db buffer = io_ret (nr, object_name tree_type buffer, db') /\ inv db' /\
    db_holds db' (tree_type, buffer) /\ keeps db db'.
Proof.
  intros Hi Hu. destruct (db_write_keeps db (tree_type, buffer) Hi Hu) as (db'&Hw&Hi'&Hh&Hk). exists db'.
  unfold tree_done. cbn [fst snd] in Hw. change (str "tree") with tree_type. rewrite Hw. done.
Qed.

Lemma write_tree_stop fuel db cachep nr base size buffer :
  Forall ce_wf cachep -> stops base (map ce_leaf (drop (Z.to_nat nr) cachep)) ->
  write_tree (S fuel) db cachep nr base size buffer = tree_done nr db buffer.
Proof.
  intros HF Hst. cbn [write_tree]. destruct (cachep !! Z.to_nat nr) as [ce|] eqn:E; [|done].
  rewrite (drop_S _ _ _ E) in Hst. cbn in Hst.
  rewrite base_check by (by eapply Forall_lookup_1). by rewrite bool_decide_false.
Qed.

(** Appending the entry of a file or directory [name]; the buffer has been
    made large enough. *)
Lemma write_tree_room (buffer name sha1 : bytes) (mode size : Z) :
  0 <= mode < 2 ^ 32 -> length sha1 = 20%nat -> Z.of_nat (length buffer + length name) < 2 ^ 60 ->
  let need := Z.of_nat (length buffer) + Z.of_nat (length name) + 100 in
  ((if size <? need then alloc_nr_ul need else size) <? Z.of_nat (length (buffer ++ tree_entry mode name sha1))) = false.
Proof.
  intros Hm Hs Hl need. pose proof (tree_entry_length mode name sha1 Hm Hs). rewrite length_app. apply Z.ltb_ge.
  pose proof (alloc_nr_ul_grows need ltac:(lia)). destruct (Z.ltb_spec size need); lia.
Qed.

Lemma write_tree_file fuel db cachep nr base size buffer ce name :
  cachep !! Z.to_nat nr = Some ce -> entry_ok ce -> ce_name ce = base ++ name -> name <> [] -> component name ->
  db_has db (ce_sha1 ce) = Ret true -> Z.of_nat (length buffer + length name) < 2 ^ 60 ->
  exists size', write_tree (S fuel) db cachep nr base size buffer =
    write_tree fuel db cachep (nr + 1) base size' (buffer ++ tree_entry (ce_mode ce) name (ce_sha1 ce)).
Proof.
  intros E [Hwf Hm [Hs _]] En Hne [Hc _] Hhas Hl. cbn [write_tree]. rewrite E, base_check, bool_decide_true; [| |done].
  2:{ rewrite En. split; [by apply prefix_app_r|]. rewrite length_app. destruct name; [done|simpl; lia]. }
  cbn [negb]. rewrite En, drop_app_length, strchr_none by done. cbn [io_bind io_ret].
  unfold check_valid_sha1. rewrite Hhas. cbn [io_bind io_ret mbind outcome_bind]. change (0 <? 0) with false. cbv iota zeta.
  rewrite (wf_namelen ce Hwf), En, length_app.
  replace (Z.of_nat (length base + length name) - Z.of_nat (length base)) with (Z.of_nat (length name)) by lia.
  rewrite Nat2Z.id, (take_ge name) by lia. rewrite write_tree_room by done. by eexists.
Qed.

Lemma write_tree_dir fuel db cachep nr base size buffer ce name rest n subdir_sha1 db' :
  cachep !! Z.to_nat nr = Some ce -> ce_wf ce -> ce_name ce = base ++ name ++ 47 :: rest -> component name ->
  write_tree fuel db (drop (Z.to_nat nr) cachep) 0 (base ++ name ++ [47]) 8192 [] = io_ret (n, subdir_sha1, db') ->
  db_has db' subdir_sha1 = Ret true -> length subdir_sha1 = 20%nat -> Z.of_nat (length buffer + length name) < 2 ^ 60 ->
  exists size', write_tree (S fuel) db cachep nr base size buffer =
    write_tree fuel db' cachep (nr + n) base size' (buffer ++ tree_entry S_IFDIR name subdir_sha1).
Proof.
  intros E Hwf En [Hc Hz] Hsub Hhas Hs Hl. cbn [write_tree]. rewrite E, base_check, bool_decide_true; [| |done].
  2:{ rewrite En. split; [by apply prefix_app_r|]. rewrite !length_app. simpl. lia. }
  cbn [negb]. rewrite En, drop_app_length, strchr_app by done.
  replace (take (length base + length name + 1) (base ++ name ++ 47 :: rest)) with (base ++ name ++ [47]).
  2:{ replace (base ++ name ++ 47 :: rest) with ((base ++ name ++ [47]) ++ rest) by (by rewrite <- !app_assoc).
      rewrite take_app_length'; [done|]. rewrite !length_app. simpl. lia. }
  rewrite Hsub. cbn [io_bind io_ret]. unfold check_valid_sha1. rewrite Hhas. cbn [io_bind io_ret mbind outcome_bind].
  change (0 <? 0) with false. cbv iota zeta.
  replace (Z.of_nat (length base + length name) - Z.of_nat (length base)) with (Z.of_nat (length name)) by lia.
  rewrite Nat2Z.id, take_app_length, write_tree_room by done.
  replace (nr + n - 1 + 1) with (nr + n) by lia. by eexists.
Qed.

(** The whole of [write_tree] for the trees of a directory: it consumes the
    files of the directory, stores every tree below it and ends by storing its
    own. *)
Definition writes (base : bytes) (es : list leaf) (buf : bytes) (objs : list bytes) : Prop :=
  forall fuel db pre es' rest nr size buffer,
    nr = Z.of_nat (length pre) -> map ce_leaf es' = es -> stops base (map ce_leaf rest) ->
    Forall ce_wf (pre ++ es' ++ rest) -> Forall entry_ok es' ->
    (depth_below base es < fuel)%nat -> inv db -> Forall (fun o => (tree_type, o) ∈ universe) objs ->
    Forall (fun ce => db_has db (ce_sha1 ce) = Ret true) es' ->
    Z.of_nat (length buffer + length buf) < 2 ^ 60 -> Forall (fun o => Z.of_nat (length o) < 2 ^ 60) objs ->
    exists db', write_tree fuel db (pre ++ es' ++ rest) nr base size buffer =
                  tree_done (nr + Z.of_nat (length es')) db' (buffer ++ buf) /\
      inv db' /\ Forall (fun o => db_holds db' (tree_type, o)) objs /\ keeps db db'.

Lemma writes_nil base : writes base [] [] [].
Proof.
  intros fuel db pre es' rest nr size buffer -> Hes Hstop Hwf Hok Hfuel Hi Hu Hhas Hl Hls; destruct fuel as [|fuel]; [lia|].
  apply map_eq_nil in Hes as ->. exists db. rewrite app_nil_r. split; [|done]. cbn [app length] in *.
  rewrite write_tree_stop; [by rewrite Z.add_0_r|done|]. by rewrite Nat2Z.id, drop_app_length.
Qed.

Lemma writes_file base name mode sha1 es buf objs :
  name <> [] -> component name -> writes base es buf objs ->
  writes base ((base ++ name, mode, sha1) :: es) (tree_entry mode name sha1 ++ buf) objs.
Proof.
  intros Hne Hc IH.
  intros fuel db pre es' rest nr size buffer -> Hes Hstop Hwf Hok Hfuel Hi Hu Hhas Hl Hls; destruct fuel as [|fuel]; [lia|].
  destruct es' as [|ce es']; [done|]. injection Hes as En Em Es Hes. apply Forall_cons in Hok as [Hce Hok].
  apply Forall_cons in Hhas as [Hh Hhas]. rewrite <- Em, <- Es in *. rewrite length_app in Hl.
  assert (Hn : (length name <= length (tree_entry (ce_mode ce) name (ce_sha1 ce)))%nat)
    by (unfold tree_entry; rewrite !length_app; lia).
  destruct (write_tree_file fuel db (pre ++ (ce :: es') ++ rest) (Z.of_nat (length pre)) base size buffer ce name)
    as (size'&->); try done; [by rewrite Nat2Z.id, lookup_app_r, Nat.sub_diag by lia|lia|].
  replace (pre ++ (ce :: es') ++ rest) with ((pre ++ [ce]) ++ es' ++ rest) in * by (by rewrite <- app_assoc).
  destruct (IH fuel db (pre ++ [ce]) es' rest (Z.of_nat (length pre) + 1) size'
    (buffer ++ tree_entry (ce_mode ce) name (ce_sha1 ce))) as (db'&->&Hi'&Ho'&Hk); try done.
  + rewrite length_app. simpl. lia.
  + unfold depth_below in *. cbn [sum_list_with leaf_path fst] in Hfuel. rewrite length_app in Hfuel.
    destruct name; [done|]. simpl in Hfuel. lia.
  + rewrite length_app in *. lia.
  + exists db'. split; [|done]. rewrite <- app_assoc. f_equal. simpl. lia.
Qed.

Lemma writes_dir base name sub sbuf sobjs es buf objs :
  component name -> sub <> [] -> tree_of (base ++ name ++ [47]) sub sbuf sobjs ->
  writes (base ++ name ++ [47]) sub sbuf sobjs -> stops (base ++ name ++ [47]) es -> writes base es buf objs ->
  writes base (sub ++ es) (tree_entry S_IFDIR name (object_name tree_type sbuf) ++ buf) (sobjs ++ sbuf :: objs).
Proof.
  intros Hc Hsub Hts IHs Hst IH.
  intros fuel db pre es' rest nr size buffer -> Hes Hstop Hwf Hok Hfuel Hi Hu Hhas Hl Hls; destruct fuel as [|fuel]; [lia|].
  apply map_eq_app in Hes as (sub'&es1&->&<-&<-).
  apply Forall_app in Hok as [Hok1 Hok2], Hhas as [Hh1 Hh2]. apply Forall_app in Hu as [Hu1 Hu2], Hls as [Hl1 Hl2].
  apply Forall_cons in Hu2 as [Hus Hu2], Hl2 as [Hlsb Hl2]. rewrite length_app in Hl.
  pose proof (tree_of_inside _ _ _ _ Hts) as Hin. destruct sub' as [|ce sub']; [done|].
  assert (Hpath : exists r, ce_name ce = base ++ name ++ 47 :: r).
  { cbn [map] in Hin. apply Forall_cons in Hin as [[[r Hr] _] _]. exists r. unfold leaf_path, ce_leaf in Hr. cbn in Hr.
    by rewrite Hr, <- !app_assoc. }
  destruct Hpath as [r Hr].
  rewrite depth_below_app in Hfuel.
  pose proof (depth_below_deeper base (name ++ [47]) _ ltac:(by destruct name) Hsub Hin) as Hdeep.
  assert (Hn : (length name <= length (tree_entry S_IFDIR name (object_name tree_type sbuf)))%nat)
    by (unfold tree_entry; rewrite !length_app; lia).
  assert (Hstop1 : stops (base ++ name ++ [47]) (map ce_leaf (es1 ++ rest))).
  { destruct es1 as [|e1 es1]; [|done]. cbn [app map]. destruct rest as [|e rest]; [done|]. cbn in Hstop |- *.
    intros [Hp Hlt]. apply Hstop. split; [etrans; [|exact Hp]; by apply prefix_app_r|].
    rewrite !length_app in Hlt. lia. }
  destruct (IHs fuel db [] (ce :: sub') (es1 ++ rest) 0 8192 []) as (db1&Hw1&Hi1&Ho1&Hk1); try done.
  { cbn [app]. apply Forall_app in Hwf as [_ Hwf]. by rewrite <- app_assoc in Hwf. }
  { lia. }
  cbn [app length] in Hw1. destruct (write_tree_done db1 (0 + Z.of_nat (S (length sub'))) sbuf Hi1 Hus) as (db2&Hd2&Hi2&Hh2'&Hk2).
  rewrite Hd2 in Hw1.
  rewrite <- app_assoc.
  destruct (write_tree_dir fuel db (pre ++ (ce :: sub') ++ es1 ++ rest) (Z.of_nat (length pre)) base size buffer ce name r
    (0 + Z.of_nat (S (length sub'))) (object_name tree_type sbuf) db2) as (size'&->).
  + by rewrite Nat2Z.id, lookup_app_r, Nat.sub_diag by lia.
  + apply Forall_cons in Hok1 as [Hce _]. apply Hce.
  + done.
  + done.
  + rewrite Nat2Z.id, drop_app_length. exact Hw1.
  + apply Hh2'.
  + apply (db_name_ok (tree_type, sbuf) Hus).
  + lia.
  + rewrite (app_assoc pre).
    destruct (IH fuel db2 (pre ++ ce :: sub') es1 rest (Z.of_nat (length pre) + (0 + Z.of_nat (S (length sub')))) size'
      (buffer ++ tree_entry S_IFDIR name (object_name tree_type sbuf))) as (db'&->&Hi'&Ho'&Hk'); try done.
    * rewrite length_app. simpl. lia.
    * by rewrite <- !app_assoc in Hwf |- *.
    * lia.
    * eapply Forall_impl; [apply Forall_and; split; [exact Hh2|exact Hok2]|]. intros e [He Hoke].
      apply Hk2, Hk1; [apply Hoke|apply Hoke|done].
    * rewrite length_app in *. lia.
    * exists db'. split; [rewrite <- app_assoc; f_equal; rewrite length_app; simpl; lia|]. split; [done|]. split; [|by etrans; [etrans|]; [exact Hk1|..]].
      apply Forall_app. split; [|constructor; [by apply Hk'|done]].
      eapply Forall_impl; [apply Forall_and; split; [exact Ho1|exact Hu1]|]. intros o [Ho Huo]. by apply Hk', Hk2.
Qed.

Lemma write_tree_spec base es buf objs : tree_of base es buf objs -> writes base es buf objs.
Proof.
  induction 1; [apply writes_nil|by apply writes_file|by apply writes_dir].
Qed.

End WriteTree.

(** ** [read_tree] reads them back *)

(** The modes [create_ce_mode] makes. *)
Definition git_mode (mode : Z) : Prop := mode = 0x81a4 \/ mode = 0x81ed \/ mode = S_IFLNK.

#[export] Instance git_mode_dec mode : Decision (git_mode mode).
Proof. unfold git_mode. apply _. Defined.

Lemma git_mode_canonical mode : git_mode mode -> create_ce_mode mode = mode /\ S_ISDIR mode = false /\ 0 <= mode < 2 ^ 32.
Proof. by intros [->|[->| ->]]. Qed.

(** [new] can be added to [cache]: no two keys are the same, and a merged entry
    has its name for itself. *)
Record fits (cache new : list cache_entry) : Prop := {
  fits_wf : Forall ce_wf new;
  fits_keys : NoDup (map ce_key (cache ++ new));
  fits_merged : forall x y, x ∈ cache ++ new -> y ∈ new -> ce_stage y = 0 -> ce_key x <> ce_key y -> ce_name x <> ce_name y;
}.

Lemma fits_step cache n1 n2 cache' : fits cache (n1 ++ n2) -> cache' ≡ₚ cache ++ n1 -> fits cache' n2.
Proof.
  intros [Hw Hk Hm] E. apply Forall_app in Hw as [_ Hw]. split; [done|..].
  - rewrite E, <- app_assoc. exact Hk.
  - intros x y. rewrite E, <- app_assoc. intros Hx Hy. apply Hm; [done|]. rewrite elem_of_app. by right.
Qed.

Lemma fits_app_l cache n1 n2 : fits cache (n1 ++ n2) -> fits cache n1.
Proof.
  intros [Hw Hk Hm]. rewrite app_assoc in Hk, Hm. apply Forall_app in Hw as [Hw _]. rewrite map_app in Hk. split; [done|by apply NoDup_app in Hk as [? _]|].
  intros x y Hx Hy. apply Hm; rewrite elem_of_app; by left.
Qed.

(** Adding an entry whose key is not there yet. *)
Lemma add_tree_entry i ce :
  index_ok (active_cache i) -> fits (active_cache i) [ce] -> active_nr i <= active_alloc i -> active_nr i < 2 ^ 30 -> exists i',
    add_cache_entry i ce (Z.lor ADD_CACHE_OK_TO_ADD ADD_CACHE_SKIP_DFCHECK) = Ret (0, i') /\
    active_cache i' ≡ₚ active_cache i ++ [ce] /\ index_ok (active_cache i') /\ active_nr i' <= active_alloc i'.
Proof.
  intros Hok [Hwf Hk Hm] Ha Hn. apply Forall_cons in Hwf as [Hce _].
  assert (Hnew : forall e, e ∈ active_cache i -> ce_key e <> ce_key ce).
  { intros e He E. rewrite map_app in Hk. apply NoDup_app in Hk as (_&Hk&_). apply (Hk (ce_key e)); [by apply list_elem_of_fmap_2|]. rewrite E. by left. }
  destruct (add_cache_entry_cases i ce (Z.lor ADD_CACHE_OK_TO_ADD ADD_CACHE_SKIP_DFCHECK)) as
    [(l1&e&l2&Ec&Ek&_)|(l1&l2&l2'&i1&ok&Ec&Hsp&El2&Ei1&Eal&Hadd&->)]; [done|done| |].
  - exfalso. apply (Hnew e); [rewrite Ec; by apply elem_of_middle|done].
  - rewrite Hadd by done. assert (l2' = l2) as ->.
    { rewrite El2. destruct (Z.eqb_spec (ce_stage ce) 0) as [E0|]; [|done]. apply filter_all. apply Forall_forall. intros e He.
      assert (Hin : e ∈ active_cache i) by (rewrite Ec; apply elem_of_app; by right).
      apply Hm; [apply elem_of_app; by left|by left|done|by apply Hnew]. }
    unfold add_new_entry.
    change (negb (Z.land (Z.lor ADD_CACHE_OK_TO_ADD ADD_CACHE_SKIP_DFCHECK) ADD_CACHE_SKIP_DFCHECK =? 0)) with true. cbv iota.
    assert (Enr : active_nr i1 = active_nr i) by (unfold active_nr; by rewrite Ei1, Ec).
    destruct (insert_at_spec i1 l1 l2 ce) as (i'&->&Ei'&Hal); [done|lia..|].
    exists i'. split; [done|]. rewrite Ei', Ec. rewrite Ec in Hok. split; [|split; [by apply index_ok_insert|done]].
    rewrite <- app_assoc. apply Permutation_app_head. apply Permutation_cons_append.
Qed.

Definition leaf_ok (l : leaf) : Prop := git_mode l.1.2 /\ length l.2 = 20%nat.

#[export] Instance leaf_ok_dec l : Decision (leaf_ok l).
Proof. unfold leaf_ok. apply _. Defined.

Lemma numeral8_chars mode c : 0 <= mode -> c < 48 -> c ∉ numeral 8 mode.
Proof.
  intros Hm Hc Hin. destruct (numeral_spec 8 ltac:(lia) mode Hm) as [_ (HF&_)]. rewrite Forall_forall in HF.
  specialize (HF c Hin). apply is_digit_iff in HF. lia.
Qed.

(** What the loop of [read_tree_recursive] sees of an entry. *)
Lemma tree_entry_fields mode name sha1 rest :
  0 <= mode < 2 ^ 32 -> component name -> length sha1 = 20%nat ->
  let buffer := tree_entry mode name sha1 ++ rest in
  let len := (length (cstr buffer) + 1)%nat in
  (length buffer =? 0)%nat = false /\ (length buffer <? len + 20)%nat = false /\ sscanf_o buffer = Some mode /\
  slice len 20 buffer = sha1 /\ drop (len + 20) buffer = rest /\
  exists k, strchr buffer 32 = Some k /\ cstr (drop (k + 1) buffer) = name.
Proof.
  intros Hm [_ Hz] Hs. cbv zeta.
  assert (E : tree_entry mode name sha1 ++ rest = numeral 8 mode ++ 32 :: name ++ 0 :: sha1 ++ rest)
    by (unfold tree_entry; by rewrite <- !app_assoc).
  set (pre := numeral 8 mode ++ 32 :: name).
  assert (E' : tree_entry mode name sha1 ++ rest = (pre ++ [0]) ++ sha1 ++ rest)
    by (unfold pre; rewrite E; by rewrite <- !app_assoc).
  assert (Hpre : cstr (tree_entry mode name sha1 ++ rest) = pre).
  { rewrite E', <- app_assoc. cbn [app]. apply cstr_app. unfold pre. apply not_elem_of_app.
    split; [apply numeral8_chars; lia|]. by apply not_elem_of_cons. }
  rewrite Hpre. assert (Hlen : (length pre + 1)%nat = length (pre ++ [0])) by (by rewrite length_app).
  split_and!.
  - rewrite E', !length_app. apply Nat.eqb_neq. simpl. lia.
  - rewrite E', !length_app, Hs. apply Nat.ltb_ge. simpl. lia.
  - rewrite E. by apply sscanf_o_numeral.
  - rewrite E', Hlen. by apply slice_app_mid.
  - rewrite E', Hlen, <- Hs, <- length_app, app_assoc. by rewrite drop_app_length.
  - exists (length (numeral 8 mode)). split.
    + rewrite E. apply strchr_app; apply numeral8_chars; lia.
    + rewrite E. replace (numeral 8 mode ++ 32 :: name ++ 0 :: sha1 ++ rest) with ((numeral 8 mode ++ [32]) ++ name ++ 0 :: sha1 ++ rest)
        by (by rewrite <- !app_assoc).
      rewrite drop_app_length' by (by rewrite length_app). by apply cstr_app.
Qed.

Section ReadTree.
Context {D} `{ObjectDB D}.

(** [read_tree_recursive] adds the files of a tree at their places. *)
Definition reads (base : bytes) (es : list leaf) (buf : bytes) (objs : list bytes) : Prop :=
  forall fuel (db : D) i stage,
    (depth_below base es < fuel)%nat -> Forall (fun o => db_holds db (tree_type, o)) objs ->
    Forall leaf_ok es -> index_ok (active_cache i) -> fits (active_cache i) (map (leaf_ce stage) es) ->
    active_nr i <= active_alloc i -> Z.of_nat (length (active_cache i ++ map (leaf_ce stage) es)) < 2 ^ 30 ->
    Forall (fun o => length (object_name tree_type o) = 20%nat) objs ->
    exists i', read_tree_recursive fuel db i buf base stage = io_ret (0, i') /\
      active_cache i' ≡ₚ active_cache i ++ map (leaf_ce stage) es /\ index_ok (active_cache i') /\ active_nr i' <= active_alloc i'.

Lemma reads_nil base : reads base [] [] [].
Proof.
  intros [|fuel] db i stage Hf _ _ Hi _ Ha _ _; [lia|]. exists i. cbn. by rewrite app_nil_r.
Qed.

Lemma reads_file base name mode sha1 es buf objs :
  name <> [] -> component name -> reads base es buf objs ->
  reads base ((base ++ name, mode, sha1) :: es) (tree_entry mode name sha1 ++ buf) objs.
Proof.
  intros Hne Hc IH [|fuel] db i stage Hf Ho Hl Hi Hfit Ha Hn Hnames; [lia|]. apply Forall_cons in Hl as [[Hm Hs] Hl].
  cbn [fst snd] in Hm, Hs. destruct (git_mode_canonical mode Hm) as (Hcm&Hdir&Hr).
  destruct (tree_entry_fields mode name sha1 buf Hr Hc Hs) as (F1&F2&F3&F4&F5&k&F6&F7).
  cbn [read_tree_recursive]. rewrite F1, F2, F3, F6, F4, F5, F7, Hdir. unfold read_one_entry.
  set (ce := tree_ce (base ++ name) sha1 mode stage). cbn [map] in Hfit, Hn |- *. change (leaf_ce stage (base ++ name, mode, sha1)) with ce in Hfit, Hn |- *.
  change (ce :: map (leaf_ce stage) es) with ([ce] ++ map (leaf_ce stage) es) in Hfit, Hn |- *. rewrite app_assoc in Hn |- *.
  destruct (add_tree_entry i ce) as (i1&->&Ei1&Hi1&Ha1); [done|by apply fits_app_l in Hfit|done| |].
  - unfold active_nr. rewrite !length_app in Hn. cbn in Hn. lia.
  - cbn [io_bind io_ret]. change (0 <? 0) with false. cbv iota. destruct (IH fuel db i1 stage) as (i2&->&Ei2&Hi2&Ha2); try done.
    + unfold depth_below in *. cbn [sum_list_with leaf_path fst] in Hf. rewrite length_app in Hf.
      destruct name; [done|]. simpl in Hf. lia.
    + by apply (fits_step _ _ _ _ Hfit).
    + by rewrite length_app, Ei1, <- length_app.
    + exists i2. split; [done|]. split; [|done]. by rewrite Ei2, Ei1.
Qed.

Lemma reads_dir base name sub sbuf sobjs es buf objs :
  component name -> sub <> [] -> tree_of (base ++ name ++ [47]) sub sbuf sobjs ->
  reads (base ++ name ++ [47]) sub sbuf sobjs -> reads base es buf objs ->
  reads base (sub ++ es) (tree_entry S_IFDIR name (object_name tree_type sbuf) ++ buf) (sobjs ++ sbuf :: objs).
Proof.
  intros Hc Hsub Hts IHs IH [|fuel] db i stage Hf Ho Hl Hi Hfit Ha Hn Hnames; [lia|].
  apply Forall_app in Ho as [Ho1 Ho2], Hl as [Hl1 Hl2], Hnames as [Hn1 Hn2].
  apply Forall_cons in Ho2 as [[_ Hread] Ho2], Hn2 as [Hname Hn2]. rewrite map_app in Hfit, Hn |- *. rewrite app_assoc in Hn |- *.
  destruct (tree_entry_fields S_IFDIR name (object_name tree_type sbuf) buf ltac:(done) Hc Hname) as (F1&F2&F3&F4&F5&k&F6&F7).
  cbn [read_tree_recursive]. rewrite F1, F2, F3, F6, F4, F5, F7. change (S_ISDIR S_IFDIR) with true. cbv iota.
  cbn [fst snd] in Hread. rewrite Hread. cbn [io_bind io_ret]. change (cstr tree_type) with (str "tree").
  rewrite bool_decide_true by done. cbn [negb]. rewrite depth_below_app in Hf.
  pose proof (depth_below_deeper base (name ++ [47]) _ ltac:(by destruct name) Hsub (tree_of_inside _ _ _ _ Hts)) as Hdeep.
  destruct (IHs fuel db i stage) as (i1&->&Ei1&Hi1&Ha1); try done.
  - lia.
  - by apply fits_app_l in Hfit.
  - rewrite length_app in Hn. lia.
  - cbn [io_bind io_ret]. change (negb (0 =? 0)) with false. cbv iota.
    destruct (IH fuel db i1 stage) as (i2&->&Ei2&Hi2&Ha2); try done.
    + lia.
    + by apply (fits_step _ _ _ _ Hfit).
    + by rewrite length_app, Ei1, <- length_app.
    + exists i2. split; [done|]. split; [|done]. by rewrite Ei2, Ei1.
Qed.

Lemma read_tree_spec base es buf objs : tree_of base es buf objs -> reads base es buf objs.
Proof. induction 1; [apply reads_nil|by apply reads_file|by apply reads_dir]. Qed.

End ReadTree.

(** ** Every index has its trees *)

(** A path [write_tree] can store: it does not end in ['/']. *)
Definition tree_path (path : bytes) : Prop := path <> [] /\ 0 ∉ path /\ last path <> Some 47.

#[export] Instance tree_path_dec path : Decision (tree_path path).
Proof. unfold tree_path. apply _. Defined.

Lemma longest_prefix {A} (P : A -> Prop) `{forall x, Decision (P x)} (l : list A) :
  exists l1 l2, l = l1 ++ l2 /\ Forall P l1 /\ match l2 with [] => True | x :: _ => ~ P x end.
Proof.
  induction l as [|x l (l1&l2&->&H1&H2)]; [by exists [], []|]. destruct (decide (P x)).
  - exists (x :: l1), l2. split_and!; [done|by constructor|done].
  - by exists [], (x :: l1 ++ l2).
Qed.

Lemma tree_of_total base es :
  Forall (fun e => inside base (leaf_path e) /\ tree_path (leaf_path e)) es -> exists buf objs, tree_of base es buf objs.
Proof.
  remember (depth_below base es) as n eqn:Hn. revert base es Hn. induction n as [n IH] using lt_wf_ind. intros base es -> HF.
  destruct es as [|[[p mode] sha1] es]; [by exists [], []; constructor|].
  pose proof HF as HF0. apply Forall_cons in HF as [[[[t Et] Hl] (_&Hz&Hlast)] HF]. unfold leaf_path in *. cbn [fst] in *. subst p.
  rewrite length_app in Hl. assert (Ht : t <> []) by (intros ->; simpl in Hl; lia). apply not_elem_of_app in Hz as [_ Hz].
  destruct (decide (47 ∈ t)) as [Hin|Hin].
  - apply list_elem_of_split_l in Hin as (name&r&->&Hname). apply not_elem_of_app in Hz as [Hz1 _].
    assert (Hr : r <> []).
    { intros ->. apply Hlast. by rewrite app_assoc, last_snoc. }
    destruct (longest_prefix (fun e => inside (base ++ name ++ [47]) (leaf_path e)) ((base ++ name ++ 47 :: r, mode, sha1) :: es))
      as (sub&rest&E&Hsub&Hrest).
    assert (Hne : sub <> []).
    { intros ->. cbn [app] in E. subst rest. apply Hrest. unfold leaf_path. cbn [fst]. split.
      - exists r. by rewrite <- !app_assoc.
      - rewrite !length_app. destruct r; [done|]. simpl. lia. }
    rewrite E in HF0, IH |- *. apply Forall_app in HF0 as [F1 F2].
    pose proof (depth_below_deeper base (name ++ [47]) sub ltac:(by destruct name) Hne Hsub) as Hdeep. rewrite depth_below_app in IH.
    destruct (IH (depth_below (base ++ name ++ [47]) sub) ltac:(lia) _ _ eq_refl) as (sbuf&sobjs&Hs).
    { apply Forall_forall. intros e He. rewrite Forall_forall in Hsub, F1. split; [by apply Hsub|by apply F1]. }
    destruct (IH (depth_below base rest) ltac:(lia) base rest eq_refl F2) as (buf&objs&Hb).
    eexists _, _. by eapply tree_dir.
  - destruct (IH (depth_below base es)) with (base := base) (es := es) as (buf&objs&Hb); [|done|done|].
    + cbn [depth_below sum_list_with]. fold (depth_below base es). unfold leaf_path. cbn [fst]. rewrite length_app. lia.
    + eexists _, _. by apply tree_file.
Qed.

(** ** The checks of [main] *)

Lemma count_funny_0 {A} (test : A -> bool) l : Forall (fun x => test x = false) l -> count_funny test l 0 = 0.
Proof. induction 1 as [|x l Hx _ IH]; [done|]. cbn [count_funny]. by rewrite Hx. Qed.

Lemma merged_not_funny ce : ce_wf ce -> ce_stage ce = 0 -> ce_unmerged ce = false.
Proof.
  intros [Hf Hl _] Hs. unfold ce_unmerged. rewrite Hf, Hs, Z.mul_0_r, Z.add_0_r.
  rewrite <- Z.ldiff_land. change CE_NAMEMASK with (Z.ones 12). rewrite Z.ldiff_ones_r_low; [done|lia|].
  destruct (Z.eq_dec (Z.of_nat (length (ce_name ce))) 0) as [->|]; [done|]. apply Z.log2_lt_pow2; lia.
Qed.

Lemma path_and_file_under a b : path_and_file (a, b) = true <-> under a b.
Proof.
  rewrite under_iff. cbn [path_and_file]. rewrite !andb_true_iff, Nat.ltb_lt, !Z.eqb_eq. split.
  - intros [[H1 H2] H3]. apply memcmp_prefix in H2; [done|lia].
  - intros (H1&H2&H3). split; [split; [done|]|done]. apply memcmp_prefix; [lia|done].
Qed.

Lemma adjacent_elem {A} (l : list A) x y : (x, y) ∈ adjacent l -> x ∈ l /\ y ∈ l.
Proof.
  unfold adjacent. intros Hin. split; [by eapply elem_of_zip_l|]. apply elem_of_zip_r in Hin. destruct l; [done|]. by right.
Qed.

Lemma no_conflict_not_funny cache :
  df_ok cache -> Forall (fun ce => ce_stage ce = 0) cache ->
  count_funny path_and_file (adjacent (map ce_name cache)) 0 = 0.
Proof.
  intros Hdf Hst. apply count_funny_0, Forall_forall. intros [a b] Hin. apply adjacent_elem in Hin as [Ha Hb].
  apply list_elem_of_fmap in Ha as (p&->&Hp), Hb as (q&->&Hq). apply not_true_iff_false. rewrite path_and_file_under.
  intros Hu. apply (Hdf p q Hp Hq). rewrite Forall_forall in Hst. split; [|done]. by rewrite (Hst p Hp), (Hst q Hq).
Qed.

(** ** Round trip *)

Lemma leaf_ce_wf stage l : 0 <= stage < 4 -> (length (leaf_path l) < 4096)%nat ->
  ce_wf (leaf_ce stage l) /\ ce_flags (leaf_ce stage l) = Z.of_nat (length (leaf_path l)) + 4096 * stage.
Proof.
  intros Hs Hl. unfold leaf_path in Hl.
  assert (Hf : ce_flags (leaf_ce stage l) = Z.of_nat (length (leaf_path l)) + 4096 * stage).
  { cbn [ce_flags leaf_ce tree_ce]. apply create_ce_flags_eq; [unfold leaf_path; lia|done]. }
  assert (Hst : ce_stage (leaf_ce stage l) = stage).
  { unfold ce_stage. rewrite land_stagemask, Hf. unfold leaf_path. rewrite Z.mul_comm, Z.div_add, Z.div_small, Z.add_0_l, Z.mod_small by lia. done. }
  split; [|done]. split; [by rewrite Hf, Hst|done|by rewrite Hst].
Qed.

Lemma leaf_ce_stage stage l : 0 <= stage < 4 -> (length (leaf_path l) < 4096)%nat -> ce_stage (leaf_ce stage l) = stage.
Proof.
  intros Hs Hl. destruct (leaf_ce_wf stage l Hs Hl) as [Hwf Hf]. pose proof (wf_flags _ Hwf) as E. rewrite Hf in E.
  change (ce_name (leaf_ce stage l)) with (leaf_path l) in E. lia.
Qed.

(** A merged index stays in order when its files are taken to another stage. *)
Lemma index_ok_restage stage cache :
  0 <= stage < 4 -> index_ok cache -> Forall (fun ce => ce_stage ce = 0) cache ->
  index_ok (map (leaf_ce stage) (map ce_leaf cache)).
Proof.
  intros Hs [Hwf Hsort] Hst. rewrite map_map. induction Hsort as [|ce cache Hsort IH HF]; [by split; constructor|].
  apply Forall_cons in Hwf as [Hce Hwf], Hst as [Hce0 Hst]. destruct (IH Hwf Hst) as [Hw Hso].
  assert (Hlf : forall c, ce_wf c -> ce_wf (leaf_ce stage (ce_leaf c)) /\
    ce_flags (leaf_ce stage (ce_leaf c)) = Z.of_nat (length (ce_name c)) + 4096 * stage).
  { intros c Hc. apply leaf_ce_wf; [done|]. by apply (wf_len c). }
  split; [constructor; [by apply Hlf|done]|]. cbn [map]. constructor; [done|]. apply Forall_map.
  apply Forall_forall. intros d Hd. rewrite Forall_forall in HF, Hwf, Hst. specialize (HF d Hd).
  unfold ce_lt, kcmp, ce_key in *. cbn [fst snd] in *. change (ce_name (leaf_ce stage (ce_leaf ce))) with (ce_name ce).
  change (ce_name (leaf_ce stage (ce_leaf d))) with (ce_name d). destruct (Z.eqb_spec (lexcmp (ce_name ce) (ce_name d)) 0) as [E|]; [|done].
  apply lexcmp_eq in E. rewrite (wf_flags ce Hce), (wf_flags d (Hwf d Hd)), Hce0, (Hst d Hd), E, Z.ltb_irrefl in HF. lia.
Qed.

(** An index is determined by its entries. *)
Lemma index_ok_unique l k : index_ok l -> index_ok k -> l ≡ₚ k -> l = k.
Proof.
  intros [_ H1] [_ H2]. apply (StronglySorted_unique_strong ce_lt); [|done|done]. unfold ce_lt. intros x y _ _ Hxy Hyx.
  rewrite kcmp_opp in Hyx. lia.
Qed.

Lemma index_ok_keys cache : index_ok cache -> NoDup (map ce_key cache).
Proof.
  intros [_ Hs]. induction Hs as [|ce cache Hs IH HF]; [constructor|]. cbn [map]. constructor; [|done].
  intros (x&E&Hx)%list_elem_of_fmap. rewrite Forall_forall in HF. by apply (ce_key_lt_ne ce x (HF x Hx)).
Qed.

Lemma merged_names x y : ce_wf x -> ce_wf y -> ce_stage x = ce_stage y -> ce_key x <> ce_key y -> ce_name x <> ce_name y.
Proof. intros Hx Hy Hs Hk E. apply Hk. unfold ce_key. by rewrite (wf_flags x Hx), (wf_flags y Hy), Hs, E. Qed.

Lemma fits_empty stage l : index_ok (map (leaf_ce stage) l) -> 0 <= stage < 4 -> fits [] (map (leaf_ce stage) l).
Proof.
  intros Hok Hs. pose proof Hok as [Hwf _]. split; [done|by apply index_ok_keys|]. rewrite Forall_forall in Hwf.
  assert (Hst : forall x, x ∈ map (leaf_ce stage) l -> ce_stage x = stage).
  { intros x Hx. pose proof Hx as (t&->&_)%list_elem_of_fmap. apply leaf_ce_stage; [done|]. by apply (wf_len _ (Hwf _ Hx)). }
  intros x y Hx Hy _ Hk. apply merged_names; auto. by rewrite (Hst x Hx), (Hst y Hy).
Qed.

Lemma read_entries_count n m off l : read_entries n m off = Ret l -> length l = n.
Proof.
  revert off l; induction n as [|n IH]; intros off l; cbn [read_entries]; [by intros [= <-]|]. intros E.
  apply bind_Ret_inv in E as (ce&_&E). apply bind_Ret_inv in E as (rest&Hr&E). injection E as <-. simpl. by rewrite (IH _ _ Hr).
Qed.

Lemma read_cache_count m nr i :
  bytes_ok m -> read_cache None (Some m) = Ret (nr, Some i) -> nr = Z.of_nat (length (active_cache i)).
Proof.
  intros Hm. unfold read_cache. destruct (_ <? _)%nat; [done|]. destruct (_ <? 0); [done|]. intros E.
  apply bind_Ret_inv in E as (l&Hl&E). injection E as <- <-. cbn [active_cache]. rewrite (read_entries_count _ _ _ _ Hl).
  pose proof (be_decode_range (slice 8 4 m) ltac:(unfold slice; auto with bytes)) as Hr. lia.
Qed.

(** An index git can store as a tree: sorted, merged, without conflicts, its
    objects in the database. *)
Record storable {D} `{ObjectDB D} (db : D) (cache : list cache_entry) : Prop := {
  st_index : index_ok cache;
  st_df : df_ok cache;
  st_merged : Forall (fun ce => ce_stage ce = 0) cache;
  st_entries : Forall entry_ok cache;
  st_leaves : Forall leaf_ok (map ce_leaf cache);
  st_paths : Forall (fun ce => tree_path (ce_name ce)) cache;
  st_objects : Forall (fun ce => db_has db (ce_sha1 ce) = Ret true) cache;
  st_few : Z.of_nat (length cache) < 2 ^ 30;
}.

Definition empty_index : index := {| active_cache := []; active_alloc := 0; active_cache_changed := false |}.

Lemma storable_tree {D} `{ObjectDB D} (db : D) cache :
  storable db cache -> exists buf objs, tree_of [] (map ce_leaf cache) buf objs.
Proof.
  intros [_ _ _ _ _ Hp _ _]. apply tree_of_total, Forall_map. eapply Forall_impl; [exact Hp|]. intros ce Hce.
  split; [|done]. split; [apply prefix_nil|]. destruct Hce as [Hne _]. unfold leaf_path, ce_leaf; cbn. destruct (ce_name ce); [done|simpl; lia].
Qed.

Lemma depth_below_root cache : depth_below [] (map ce_leaf cache) = sum_list_with (fun ce => length (ce_name ce)) cache.
Proof. induction cache as [|ce cache IH]; [done|]. unfold depth_below in *. cbn [map sum_list_with]. rewrite IH. unfold leaf_path. cbn [ce_leaf fst length]. lia. Qed.

Lemma write_read_tree_laws {D} `{ObjectDBLaws D inv universe} (db : D) file nr i buf objs :
  bytes_ok file -> read_cache None (Some file) = Ret (nr, Some i) -> storable db (active_cache i) -> inv db ->
  tree_of [] (map ce_leaf (active_cache i)) buf objs -> universe = map (pair tree_type) (buf :: objs) ->
  Forall (fun o => Z.of_nat (length o) < 2 ^ 60) (buf :: objs) ->
  exists db', write_tree_main db (Some file) = io_ret (object_name tree_type buf, db') /\ inv db' /\
    Forall (fun o => db_holds db' (tree_type, o)) (buf :: objs) /\
    forall stage fuel, 0 <= stage < 4 -> (tree_fuel (active_cache i) <= fuel)%nat -> exists i',
      read_tree fuel db' empty_index buf stage = io_ret (0, i') /\
      active_cache i' = map (leaf_ce stage) (map ce_leaf (active_cache i)).
Proof.
  intros Hfile Hrc [Hix Hdf Hm He Hl Hp Ho Hf] Hi Ht Hu Hsz. set (cache := active_cache i) in *.
  assert (Huo : forall o, o ∈ buf :: objs -> (tree_type, o) ∈ universe).
  { intros o Hin. rewrite Hu. by apply list_elem_of_fmap_2. }
  apply Forall_cons in Hsz as [Hszb Hszo]. pose proof Hix as [Hwf Hsort].
  destruct (write_tree_spec _ _ _ _ Ht (tree_fuel cache) db [] cache [] 0 8192 []) as (db1&Hw&Hi1&Ho1&Hk1); try done.
  { by rewrite app_nil_r. }
  { rewrite depth_below_root. unfold tree_fuel. lia. }
  { apply Forall_forall. intros o Hin. apply Huo. by right. }
  destruct (write_tree_done db1 (0 + Z.of_nat (length cache)) buf Hi1 (Huo buf ltac:(by left))) as (db2&Hd&Hi2&Hh2&Hk2).
  exists db2. split; [|split; [done|]].
  - unfold write_tree_main. rewrite Hrc. cbn [io_bind]. pose proof (read_cache_count _ _ _ Hfile Hrc) as ->. fold cache.
    destruct (Z.ltb_spec (Z.of_nat (length cache)) 0); [lia|].
    rewrite (count_funny_0 ce_unmerged), no_conflict_not_funny by
      (done || (apply Forall_forall; intros ce Hce; rewrite Forall_forall in Hwf, Hm; apply merged_not_funny; auto)).
    cbn [app] in Hw. rewrite app_nil_r in Hw. rewrite Hw, Hd. cbn [io_bind io_ret negb]. change (negb (0 =? 0)) with false. cbv iota.
    by rewrite Z.add_0_l, Z.eqb_refl.
  - assert (Hall : Forall (fun o => db_holds db2 (tree_type, o)) objs).
    { apply Forall_forall. intros o Hin. apply Hk2; [apply Huo; by right|]. rewrite Forall_forall in Ho1. by apply Ho1. }
    split; [by constructor|]. intros stage fuel Hst Hfuel. unfold read_tree.
    pose proof (index_ok_restage stage cache Hst Hix Hm) as Hok.
    destruct (read_tree_spec _ _ _ _ Ht fuel db2 empty_index stage) as (i'&Hr&Ei&Hi'&_); try done.
    + rewrite depth_below_root. unfold tree_fuel in Hfuel. lia.
    + split; constructor.
    + by apply fits_empty.
    + cbn [active_cache empty_index app]. by rewrite !length_map.
    + apply Forall_forall. intros o Hin. apply (db_name_ok (tree_type, o)), Huo. by right.
    + exists i'. split; [done|]. by apply index_ok_unique.
Qed.
