(* ===== verification/TreeStore.v ===== *)
(** * Trees in the object store

    The round trip of Tree.v for the store of ObjectStore.v, and runs of
    [write_tree] on small indexes. *)

From stdpp Require Import base list numbers strings gmap.
From Stdlib Require Import ZArith Lia.
From S2P Require Import Prelude.
From S2P Require Import Sha1.
From S2P Require Import CsumFile.
From S2P Require Import CString.
From S2P Require Import Zlib.
From S2P Require Import ObjectHeader.
From S2P Require Import CacheEntry.
From S2P Require Import Index.
From S2P Require Import IndexFile.
From S2P Require Import ObjectStore.
From S2P Require Import ObjectDB.
From S2P Require Import Tree.

Section TreeStore.
Context `{ZlibLaws} (sys : os) (malloc_ok : Z -> bool) (flag : bool).

#[local] Instance store : ObjectDB odb := odb_db sys malloc_ok flag.

(** C5. an index survives its trees: for the index in [file], when the
    system calls work and no two of its trees collide, [git-write-tree] checks
    the index, stores one tree object per directory and prints the name of the
    root; reading that object and giving its contents to [read_tree] yields an
    index with exactly the same paths, modes and objects, at any stage. *)
Theorem write_read_tree (db : odb) (file : bytes) (nr : Z) (i : index) (buf : bytes) (objs : list bytes) :
  sys_works sys -> bytes_ok file -> read_cache None (Some file) = Ret (nr, Some i) -> storable db (active_cache i) ->
  tree_of [] (map ce_leaf (active_cache i)) buf objs ->
  no_collisions (map (pair tree_type) (buf :: objs)) ->
  odb_inv sys malloc_ok flag (map (pair tree_type) (buf :: objs)) db ->
  exists db', write_tree_main db (Some file) = io_ret (object_name tree_type buf, db') /\
    read_sha1_file sys malloc_ok flag db' (object_name tree_type buf) = io_ret (Some (tree_type, buf)) /\
    forall stage fuel, 0 <= stage < 4 -> (tree_fuel (active_cache i) <= fuel)%nat -> exists i',
      read_tree fuel db' empty_index buf stage = io_ret (0, i') /\
      active_cache i' = map (leaf_ce stage) (map ce_leaf (active_cache i)).
Proof.
  intros Hsys Hfile Hrc Hst Ht Hnc Hinv.
  pose proof (odb_laws sys malloc_ok flag _ Hsys Hnc) as Hlaws.
  destruct (write_read_tree_laws db file nr i buf objs Hfile Hrc Hst Hinv Ht eq_refl) as (db'&Hw&_&Hall&Hr).
  { apply Forall_forall. intros o Ho. destruct Hnc as [Hok _].
    destruct (Hok (tree_type, o) (list_elem_of_fmap_2 _ _ _ Ho)) as (_&_&_&Hl). cbn in Hl. lia. }
  exists db'. split; [exact Hw|]. split; [|exact Hr]. apply Forall_cons in Hall as [[_ Hroot] _]. exact Hroot.
Qed.

End TreeStore.

(** ** A run *)

Module TreeDemo.

Definition dir : bytes := str ".git/objects".
Definition blob : bytes := object_name (str "blob") blob_hi.

Definition db : odb := {| object_dir := dir; alternates := [];
  files := <[object_path dir blob := loose_file (H := Stored.stored) 9 (str "blob") blob_hi]> ∅; packs := [] |}.

Definition entry (name : string) (mode : Z) : cache_entry :=
  {| ce_ctime := {| sec := 1; nsec := 0 |}; ce_mtime := {| sec := 1; nsec := 0 |}; ce_dev := 1; ce_ino := 1;
     ce_mode := mode; ce_uid := 0; ce_gid := 0; ce_st_size := 3; ce_sha1 := blob;
     ce_flags := create_ce_flags (Z.of_nat (length (str name))) 0; ce_name := str name |}.

Definition cache : list cache_entry := [entry "a" 0x81a4; entry "d-x" 0x81a4; entry "d/b" 0x81ed; entry "d/e/c" 0xa000].

Definition file : bytes := match write_cache (fun _ => true) cache with Ret (Some f) => f | _ => [] end.

Definition result : index := {| active_cache := cache; active_alloc := alloc_nr 4; active_cache_changed := false |}.

(** The trees of [d/e], [d] and the root. *)
Definition tree_e : bytes := tree_entry 0xa000 (str "c") blob.
Definition tree_d : bytes := tree_entry 0x81ed (str "b") blob ++ tree_entry S_IFDIR (str "e") (object_name tree_type tree_e).
Definition root : bytes :=
  tree_entry 0x81a4 (str "a") blob ++ tree_entry 0x81a4 (str "d-x") blob ++
  tree_entry S_IFDIR (str "d") (object_name tree_type tree_d).

Definition objs : list bytes := [tree_e; tree_d].

Lemma trees : tree_of [] (map ce_leaf cache) root objs.
Proof.
  assert (Hc : forall n, forallb (fun y => negb (y =? 47)) n = true -> forallb (fun y => negb (y =? 0)) n = true -> component n).
  { intros n H1 H2. split; by apply not_elem_check. }
  unfold root. rewrite <- (app_nil_r (tree_entry S_IFDIR (str "d") _)).
  apply (tree_file [] (str "a")); [done|by apply Hc|]. apply (tree_file [] (str "d-x")); [done|by apply Hc|].
  apply (tree_dir [] (str "d") [ce_leaf (entry "d/b" 0x81ed); ce_leaf (entry "d/e/c" 0xa000)] tree_d [tree_e] [] [] []);
    [by apply Hc|done| |done|constructor].
  unfold tree_d. rewrite <- (app_nil_r (tree_entry S_IFDIR (str "e") _)).
  apply (tree_file (str "d/") (str "b")); [done|by apply Hc|].
  apply (tree_dir (str "d/") (str "e") [ce_leaf (entry "d/e/c" 0xa000)] tree_e [] [] [] []); [by apply Hc|done| |done|constructor].
  unfold tree_e. rewrite <- (app_nil_r (tree_entry _ _ _)). apply (tree_file (str "d/e/") (str "c")); [done|by apply Hc|constructor].
Qed.

Lemma no_tree_collisions : no_collisions (map (pair tree_type) (root :: objs)).
Proof.
  split.
  - intros o Ho. apply list_elem_of_fmap in Ho as (t&->&Ht).
    assert (Hok : bytes_ok t /\ Z.of_nat (length t) < 2 ^ 30).
    { revert t Ht. apply Forall_forall, (bool_decide_unpack _). vm_compute. exact I. }
    split; [split; [vm_compute; lia|split; [apply str_bytes_ok|apply not_elem_check; reflexivity]]|].
    split; [apply not_elem_check; reflexivity|exact Hok].
  - assert (Hi : Forall (fun o => Forall (fun o' : bytes * bytes => object_name o.1 o.2 = object_name o'.1 o'.2 -> o = o')
      (map (pair tree_type) (root :: objs))) (map (pair tree_type) (root :: objs))).
    { apply (bool_decide_unpack _). vm_compute. exact I. }
    intros o o' Ho Ho'. rewrite Forall_forall in Hi. specialize (Hi o Ho). rewrite Forall_forall in Hi. by apply Hi.
Qed.

Lemma not_stored : odb_inv (H := Stored.stored) StoreDemo.sys (fun _ => true) false (map (pair tree_type) (root :: objs)) db.
Proof.
  split; [split; [apply not_elem_check; reflexivity|constructor]|]. intros o Ho. left. revert o Ho.
  apply Forall_forall. repeat (constructor; [vm_compute; reflexivity|]). constructor.
Qed.

Lemma cache_storable : storable (H := store (H := Stored.stored) StoreDemo.sys (fun _ => true) false) db cache.
Proof.
  split.
  - split; [apply (bool_decide_unpack _); vm_compute; exact I|].
    repeat (constructor; [|repeat (constructor; [vm_compute; reflexivity|]); constructor]). constructor.
  - assert (Hd : Forall (fun p => Forall (fun q => ~ below p q) cache) cache) by (apply (bool_decide_unpack _); vm_compute; exact I).
    intros p q Hp Hq. rewrite Forall_forall in Hd. specialize (Hd p Hp). rewrite Forall_forall in Hd. by apply Hd.
  - apply (bool_decide_unpack _); vm_compute; exact I.
  - apply (bool_decide_unpack _); vm_compute; exact I.
  - apply (bool_decide_unpack _); vm_compute; exact I.
  - apply (bool_decide_unpack _); vm_compute; exact I.
  - repeat (constructor; [vm_compute; reflexivity|]). constructor.
  - reflexivity.
Qed.

End TreeDemo.

Lemma write_read_tree_witness :

  exists db', write_tree_main (H := store (H := Stored.stored) StoreDemo.sys (fun _ => true) false) TreeDemo.db (Some TreeDemo.file) = io_ret (object_name tree_type TreeDemo.root, db') /\
    read_sha1_file (H := Stored.stored) StoreDemo.sys (fun _ => true) false db' (object_name tree_type TreeDemo.root) =
      io_ret (Some (tree_type, TreeDemo.root)) /\
    forall stage fuel, 0 <= stage < 4 -> (tree_fuel (active_cache TreeDemo.result) <= fuel)%nat -> exists i',
      read_tree (H := store (H := Stored.stored) StoreDemo.sys (fun _ => true) false) fuel db' empty_index TreeDemo.root stage = io_ret (0, i') /\
    active_cache i' = map (leaf_ce stage) (map ce_leaf (active_cache TreeDemo.result)).
Proof.
  apply (write_read_tree (H := Stored.stored) (H0 := Stored.stored_laws) StoreDemo.sys (fun _ => true) false TreeDemo.db TreeDemo.file 4
    TreeDemo.result TreeDemo.root TreeDemo.objs).
  - split; [reflexivity|]. split; [reflexivity|]. split; [reflexivity|]. split; reflexivity.
  - apply (bool_decide_unpack _). vm_compute. exact I.
  - vm_compute. reflexivity.
  - exact TreeDemo.cache_storable.
  - exact TreeDemo.trees.
  - exact TreeDemo.no_tree_collisions.
  - exact TreeDemo.not_stored.
Defined.

(** ** What the checks of [git-write-tree] miss *)

Module TreeMisses.

(** [a] and [a/c] conflict, but [a-b] sorts between them: the comment in
    write-tree.c says the conflicting entry "would immediately follow". *)
Definition conflict : list cache_entry := [TreeDemo.entry "a" 0x81a4; TreeDemo.entry "a-b" 0x81a4; TreeDemo.entry "a/c" 0x81a4].

Definition conflict_file : bytes := match write_cache (fun _ => true) conflict with Ret (Some f) => f | _ => [] end.

(** A system that cannot create files: [link] fails. *)
Definition full_disk : os := {| open_noatime := fun _ => false; open_plain := fun _ => true; open_enoent := fun _ => true;
  mkstemp_ok := true; write_whole := true; link_to := fun _ => LinkFail; rename_ok := false |}.

Definition one_file : bytes :=
  match write_cache (fun _ => true) [TreeDemo.entry "a" 0x81a4] with Ret (Some f) => f | _ => [] end.

End TreeMisses.

(** The index is sorted, two of its entries conflict, [git-write-tree] accepts
    it and writes a tree with two entries named [a]. *)
Example write_tree_misses_conflict :
  below (TreeDemo.entry "a" 0x81a4) (TreeDemo.entry "a/c" 0x81a4) /\
  count_funny path_and_file (adjacent (map ce_name TreeMisses.conflict)) 0 = 0 /\
  let sub := tree_entry 0x81a4 (str "c") TreeDemo.blob in
  let root := tree_entry 0x81a4 (str "a") TreeDemo.blob ++ tree_entry 0x81a4 (str "a-b") TreeDemo.blob ++
              tree_entry S_IFDIR (str "a") (object_name tree_type sub) in
  (r <- write_tree_main (H := store (H := Stored.stored) StoreDemo.sys (fun _ => true) false)
    TreeDemo.db (Some TreeMisses.conflict_file) ;; io_ret (fst r)) = io_ret (object_name tree_type root).
Proof.
  split; [apply (bool_decide_unpack _); vm_compute; exact I|]. split; vm_compute; reflexivity.
Qed.

(** The value of [write_sha1_file] is dropped: when the root tree cannot be
    stored, its name is printed all the same. *)
Example write_tree_drops_failure :
  exists sha1 db', write_tree_main (H := store (H := Stored.stored) TreeMisses.full_disk (fun _ => true) false)
    TreeDemo.db (Some TreeMisses.one_file) = io_ret (sha1, db') /\ has_sha1_file db' sha1 = Ret false.
Proof. eexists _, _. split; [vm_compute; reflexivity|]. vm_compute. reflexivity. Qed.
