(* ===== verification/Objects.v ===== *)
(** * Objects in memory (object.c, blob.c, tree.c, commit.c, tag.c)

    Every object the program touches is a [struct object] at the head of a
    [struct blob], [tree], [commit] or [tag].  The heap is the list of those
    structures, an address is a position in it; [objs] is the table of
    addresses sorted by name that [find_object] searches.  Reading an address
    that was never allocated, or a structure through the wrong type, is
    undefined.  [util] is a pointer the topological sort of commits uses. *)

From stdpp Require Import base list numbers strings sorting relations.
From Stdlib Require Import ZArith Lia.
From S2P Require Import Prelude.
From S2P Require Import Hex.
From S2P Require Import CsumFile.
From S2P Require Import CString.
From S2P Require Import ObjectHeader.
From S2P Require Import CacheEntry.
From S2P Require Import Index.
From S2P Require Import ObjectDB.

(** ** Data *)

(** The pointers [blob_type], [tree_type], [commit_type] and [tag_type]. *)
Inductive otype := OBlob | OTree | OCommit | OTag.

#[export] Instance otype_eq_dec : EqDecision otype.
Proof. solve_decision. Defined.

Definition type_name (t : otype) : bytes :=
  match t with OBlob => str "blob" | OTree => str "tree" | OCommit => str "commit" | OTag => str "tag" end.

(** [item] is [NULL] when its name is that of an object of another type. *)
Record tree_entry_list := {
  te_directory : bool;
  te_executable : bool;
  te_symlink : bool;
  te_mode : Z;
  te_name : bytes;
  te_item : option nat;
}.

Record commit := {
  date : Z;
  parents : list nat;
  tree : option nat;
  buffer : option bytes;
}.

Record tag := {
  tagged : option nat;
  tag_name : option bytes; (* the field [tag] *)
}.

(** What follows [struct object]. *)
Inductive body :=
| Blob
| Tree (entries : list tree_entry_list)
| Commit (c : commit)
| Tag (t : tag).

Definition body_type (b : body) : otype :=
  match b with Blob => OBlob | Tree _ => OTree | Commit _ => OCommit | Tag _ => OTag end.

(** The memory of [xmalloc] after [memset]. *)
Definition fresh_body (t : otype) : body :=
  match t with
  | OBlob => Blob
  | OTree => Tree []
  | OCommit => Commit {| date := 0; parents := []; tree := None; buffer := None |}
  | OTag => Tag {| tagged := None; tag_name := None |}
  end.

Record object := {
  o_parsed : bool;
  o_used : bool;
  o_flags : Z;
  o_sha1 : bytes;
  o_type : option otype;
  o_refs : list nat;
  o_util : option nat;
  o_body : body;
}.

Record objects := {
  heap : list object;
  objs : list nat;
  obj_allocs : Z;
}.

Definition no_objects : objects := {| heap := []; objs := []; obj_allocs := 0 |}.

(** ** Code: access *)

Definition get (st : objects) (p : nat) : outcome object :=
  match heap st !! p with Some o => Ret o | None => Ub end.

Definition set (st : objects) (p : nat) (o : object) : objects :=
  {| heap := <[p := o]> (heap st); objs := objs st; obj_allocs := obj_allocs st |}.

Definition set_parsed (o : object) : object :=
  {| o_parsed := true; o_used := o_used o; o_flags := o_flags o; o_sha1 := o_sha1 o; o_type := o_type o;
     o_refs := o_refs o; o_util := o_util o; o_body := o_body o |}.
Definition set_used (o : object) : object :=
  {| o_parsed := o_parsed o; o_used := true; o_flags := o_flags o; o_sha1 := o_sha1 o; o_type := o_type o;
     o_refs := o_refs o; o_util := o_util o; o_body := o_body o |}.
Definition set_flags (o : object) (flags : Z) : object :=
  {| o_parsed := o_parsed o; o_used := o_used o; o_flags := flags; o_sha1 := o_sha1 o; o_type := o_type o;
     o_refs := o_refs o; o_util := o_util o; o_body := o_body o |}.
Definition set_type (o : object) (t : otype) : object :=
  {| o_parsed := o_parsed o; o_used := o_used o; o_flags := o_flags o; o_sha1 := o_sha1 o; o_type := Some t;
     o_refs := o_refs o; o_util := o_util o; o_body := o_body o |}.
Definition set_refs (o : object) (refs : list nat) : object :=
  {| o_parsed := o_parsed o; o_used := o_used o; o_flags := o_flags o; o_sha1 := o_sha1 o; o_type := o_type o;
     o_refs := refs; o_util := o_util o; o_body := o_body o |}.
Definition set_body (o : object) (b : body) : object :=
  {| o_parsed := o_parsed o; o_used := o_used o; o_flags := o_flags o; o_sha1 := o_sha1 o; o_type := o_type o;
     o_refs := o_refs o; o_util := o_util o; o_body := b |}.

Definition set_util (o : object) (u : option nat) : object :=
  {| o_parsed := o_parsed o; o_used := o_used o; o_flags := o_flags o; o_sha1 := o_sha1 o; o_type := o_type o;
     o_refs := o_refs o; o_util := u; o_body := o_body o |}.

Definition get_commit (st : objects) (p : nat) : outcome commit :=
  o ← get st p; match o_body o with Commit c => Ret c | _ => Ub end.

(** ** Code: the table (object.c) *)

Definition nr_objs (st : objects) : Z := Z.of_nat (length (objs st)).

Definition obj_sha1 (st : objects) (p : nat) : bytes :=
  match heap st !! p with Some o => o_sha1 o | None => [] end.

Definition find_cmp (st : objects) (sha1 : bytes) (next : Z) : Z :=
  match objs st !! Z.to_nat next with Some p => memcmp 20 sha1 (obj_sha1 st p) | None => 0 end.

Definition find_object (st : objects) (sha1 : bytes) : Z := bsearch (find_cmp st sha1) 0 (nr_objs st).

Definition lookup_object (st : objects) (sha1 : bytes) : option nat :=
  let pos := find_object st sha1 in
  if 0 <=? pos then objs st !! Z.to_nat pos else None.

(** [created_object] on the structure just allocated: returns its address.
    The table has room for [obj_allocs] pointers. *)
Definition created_object (st : objects) (sha1 : bytes) (b : body) : outcome (nat * objects) :=
  let pos := find_object st sha1 in
  let obj := {| o_parsed := false; o_used := false; o_flags := 0; o_sha1 := take 20 sha1; o_type := None;
                o_refs := []; o_util := None; o_body := b |} in
  if 0 <=? pos then Die
  else
    let pos := Z.to_nat (- pos - 1) in
    let allocs := if obj_allocs st =? nr_objs st then i32 ((obj_allocs st + 16) * 3) / 2 else obj_allocs st in
    if allocs <=? nr_objs st then Ub
    else
      let p := length (heap st) in
      Ret (p, {| heap := heap st ++ [obj]; objs := take pos (objs st) ++ p :: drop pos (objs st); obj_allocs := allocs |}).

Definition add_ref (st : objects) (refer target : nat) : outcome objects :=
  r ← get st refer;
  if bool_decide (target ∈ o_refs r) then Ret st
  else
    t ← get st target;
    let st := set st target (set_used t) in
    r ← get st refer;
    Ret (set st refer (set_refs r (o_refs r ++ [target]))).

(** [while (p)] over the references. *)
Fixpoint mark_refs (mark : objects -> nat -> io objects) (st : objects) (p : list nat) : io objects :=
  match p with
  | [] => io_ret st
  | item :: next => st <- mark st item ;; mark_refs mark st next
  end.

(** One call per unit of fuel. *)
Fixpoint mark_reachable (fuel : nat) (st : objects) (obj : nat) (mask : Z) : io objects :=
  match fuel with
  | O => None
  | S fuel =>
      o <- Some (get st obj) ;;
      if negb (Z.land (o_flags o) mask =? 0) then io_ret st
      else mark_refs (fun st item => mark_reachable fuel st item mask)
             (set st obj (set_flags o (Z.lor (o_flags o) mask))) (o_refs o)
  end.

(** ** Code: looking up an object of a type *)

(** [lookup_blob], [lookup_tree], [lookup_commit] and [lookup_tag] are the same
    code for four types. *)
Definition lookup_typed (t : otype) (st : objects) (sha1 : bytes) : outcome (option nat * objects) :=
  match lookup_object st sha1 with
  | None =>
      '(p, st) ← created_object st sha1 (fresh_body t);
      o ← get st p;
      Ret (Some p, set st p (set_type o t))
  | Some p =>
      o ← get st p;
      let '(o, st) := match o_type o with None => let o := set_type o t in (o, set st p o) | Some _ => (o, st) end in
      Ret (if bool_decide (o_type o = Some t) then Some p else None, st)
  end.

Definition lookup_blob : objects -> bytes -> outcome (option nat * objects) := lookup_typed OBlob.
Definition lookup_tree : objects -> bytes -> outcome (option nat * objects) := lookup_typed OTree.
Definition lookup_commit : objects -> bytes -> outcome (option nat * objects) := lookup_typed OCommit.
Definition lookup_tag : objects -> bytes -> outcome (option nat * objects) := lookup_typed OTag.

Definition lookup_object_type (st : objects) (sha1 type : bytes) : outcome (option nat * objects) :=
  if bool_decide (type = str "blob") then lookup_blob st sha1
  else if bool_decide (type = str "tree") then lookup_tree st sha1
  else if bool_decide (type = str "commit") then lookup_commit st sha1
  else if bool_decide (type = str "tag") then lookup_tag st sha1
  else Ret (None, st).

(** [if (obj) add_ref(&item->object, obj);] *)
Definition add_ref_opt (st : objects) (item : nat) (obj : option nat) : outcome objects :=
  match obj with Some p => add_ref st item p | None => Ret st end.

(** ** Code: blobs *)

Definition parse_blob_buffer (st : objects) (item : nat) : outcome (Z * objects) :=
  o ← get st item; Ret (0, set st item (set_parsed o)).

(** ** Code: trees *)

Definition S_IXUSR : Z := 0x40.

(** The loop over [bufptr]: [size] bytes are left, and a NUL may follow them.
    The call of [strlen] looks for the end of the string the others stop at. *)
Fixpoint parse_tree_entries (fuel : nat) (st : objects) (item : nat) (size : nat) (bufptr : bytes) : outcome (Z * objects) :=
  match fuel with
  | O => Ub
  | S fuel =>
      if (size =? 0)%nat then Ret (0, st)
      else
        strlen ← strlen_mem bufptr;
        let len := (1 + strlen)%nat in
        match strchr bufptr 32, sscanf_o (cstr bufptr) with
        | Some k, Some mode =>
            if (size <? len + 20)%nat then Ret (-1, st)
            else
              let file_sha1 := slice len 20 bufptr in
              let directory := S_ISDIR mode in
              '(obj, st) ← (if directory then lookup_tree st file_sha1 else lookup_blob st file_sha1);
              let entry := {| te_directory := directory; te_executable := negb (Z.land mode S_IXUSR =? 0);
                              te_symlink := S_ISLNK mode; te_mode := mode; te_name := cstr (drop (k + 1) bufptr);
                              te_item := obj |} in
              st ← add_ref_opt st item obj;
              o ← get st item;
              match o_body o with
              | Tree entries =>
                  parse_tree_entries fuel (set st item (set_body o (Tree (entries ++ [entry])))) item
                    (size - (len + 20)) (drop (len + 20) bufptr)
              | _ => Ub
              end
        | _, _ => Ret (-1, st)
        end
  end.

Definition parse_tree_buffer (nul : bool) (st : objects) (item : nat) (buffer : bytes) : outcome (Z * objects) :=
  o ← get st item;
  if o_parsed o then Ret (0, st)
  else parse_tree_entries (S (length buffer)) (set st item (set_parsed o)) item (length buffer) (buffer ++ nul_byte nul).

(** ** Code: commits *)

(** [while ( *buf++ != c)]: what follows the first [c]. *)
Fixpoint after (c : Z) (buf : bytes) : outcome bytes :=
  match buf with
  | [] => Ub
  | x :: buf => if x =? c then Ret buf else after c buf
  end.

Definition parse_commit_date (buf : bytes) : outcome Z :=
  c ← memcmp_mem (str "author") buf;
  if negb (c =? 0) then Ret 0
  else
    buf ← after 10 buf;
    c ← memcmp_mem (str "committer") buf;
    if negb (c =? 0) then Ret 0
    else
      buf ← after 62 buf;
      date ← strtoul_mem 10 buf;
      Ret (if date =? 2 ^ 64 - 1 then 0 else date).

Definition with_commit (st : objects) (item : nat) (f : commit -> commit) : outcome objects :=
  o ← get st item;
  match o_body o with Commit c => Ret (set st item (set_body o (Commit (f c)))) | _ => Ub end.

Definition set_tree (t : option nat) (c : commit) : commit :=
  {| date := date c; parents := parents c; tree := t; buffer := buffer c |}.
Definition add_parent (p : nat) (c : commit) : commit :=
  {| date := date c; parents := parents c ++ [p]; tree := tree c; buffer := buffer c |}.
Definition set_date (d : Z) (c : commit) : commit :=
  {| date := d; parents := parents c; tree := tree c; buffer := buffer c |}.
Definition set_buffer (b : bytes) (c : commit) : commit :=
  {| date := date c; parents := parents c; tree := tree c; buffer := Some b |}.

(** The loop over the parents: returns what follows their lines. *)
Fixpoint parse_parents (fuel : nat) (st : objects) (item : nat) (bufptr : bytes) : outcome (bytes * objects) :=
  match fuel with
  | O => Ub
  | S fuel =>
      c ← memcmp_mem (str "parent ") bufptr;
      if negb (c =? 0) then Ret (bufptr, st)
      else
        '(bad, parent) ← get_sha1_hex (drop 7 bufptr);
        if negb (bad =? 0) then Ret (bufptr, st)
        else
          '(new_parent, st) ← lookup_commit st parent;
          st ← match new_parent with
               | Some p => st ← with_commit st item (add_parent p); add_ref st item p
               | None => Ret st
               end;
          parse_parents fuel st item (drop 48 bufptr)
  end.

(** A tree line that is not 40 digits leaves [parent] uninitialised. *)
Definition parse_commit_buffer (nul : bool) (st : objects) (item : nat) (buf : bytes) : outcome (Z * objects) :=
  o ← get st item;
  if o_parsed o then Ret (0, st)
  else
    let st := set st item (set_parsed o) in
    let bufptr := buf ++ nul_byte nul in
    '(bad, parent) ← get_sha1_hex (drop 5 bufptr);
    if negb (bad =? 0) then Ub
    else
      '(t, st) ← lookup_tree st parent;
      st ← with_commit st item (set_tree t);
      st ← add_ref_opt st item t;
      '(bufptr, st) ← parse_parents (S (length buf)) st item (drop 46 bufptr);
      date ← parse_commit_date bufptr;
      st ← with_commit st item (set_date date);
      Ret (0, st).

(** ** Code: tags *)

Definition set_tag (name : bytes) (t : option nat) : tag := {| tagged := t; tag_name := Some name |}.

(** [data] is [size] bytes and what stands behind them. *)
Definition parse_tag_buffer (nul : bool) (st : objects) (item : nat) (buf : bytes) : outcome (Z * objects) :=
  o ← get st item;
  if o_parsed o then Ret (0, st)
  else
    let st := set st item (set_parsed o) in
    let data := buf ++ nul_byte nul in
    if (length buf <? 64)%nat then Ret (-1, st)
    else if negb (memcmp 7 (str "object ") data =? 0) then Ret (-1, st)
    else
      '(bad, object) ← get_sha1_hex (drop 7 data);
      if negb (bad =? 0) then Ret (-1, st)
      else if negb (memcmp 6 (10 :: str "type ") (drop 47 data) =? 0) then Ret (-1, st)
      else
        let type_line := drop 48 data in
        tl ← strchr_mem type_line 10;
        match tl with
        | None => Ret (-1, st)
        | Some tl =>
            let tag_line := drop (tl + 1) type_line in
            c ← memcmp_mem (str "tag ") tag_line;
            if negb (c =? 0) then Ret (-1, st)
            else
              sl ← strchr_mem tag_line 10;
              match sl with
              | None => Ret (-1, st)
              | Some sl =>
                  let typelen := (tl + 1 - 6)%nat in
                  if (20 <=? typelen)%nat then Ret (-1, st)
                  else
                    let type := cstr (take typelen (drop 5 type_line)) in
                    let taglen := (sl + 1 - 5)%nat in
                    let name := cstr (take taglen (drop 4 tag_line)) in
                    '(t, st) ← lookup_object_type st object type;
                    o ← get st item;
                    match o_body o with
                    | Tag _ =>
                        st ← add_ref_opt (set st item (set_body o (Tag (set_tag name t)))) item t;
                        Ret (0, st)
                    | _ => Ub
                    end
              end
        end.

(** ** Code: reading objects from the database *)

Section Parse.
Context {D} `{ObjectDB D} (db : D).

(** The address a parser works on: [NULL] is dereferenced. *)
Definition non_null (p : option nat) : outcome nat := match p with Some p => Ret p | None => Ub end.

(** [parse_object] after the object has been read; the values of the parsers
    are dropped, and so is that of [check_sha1_signature] but for a message. *)
Definition parse_typed (nul : bool) (st : objects) (sha1 type buf : bytes) : outcome (option nat * objects) :=
  if bool_decide (type = str "blob") then
    '(p, st) ← lookup_blob st sha1;
    p ← non_null p;
    '(_, st) ← parse_blob_buffer st p;
    Ret (Some p, st)
  else if bool_decide (type = str "tree") then
    '(p, st) ← lookup_tree st sha1;
    p ← non_null p;
    '(_, st) ← parse_tree_buffer nul st p buf;
    Ret (Some p, st)
  else if bool_decide (type = str "commit") then
    '(p, st) ← lookup_commit st sha1;
    p ← non_null p;
    '(_, st) ← parse_commit_buffer nul st p buf;
    o ← get st p;
    match o_body o with
    | Commit c => st ← match buffer c with None => with_commit st p (set_buffer buf) | Some _ => Ret st end; Ret (Some p, st)
    | _ => Ub
    end
  else if bool_decide (type = str "tag") then
    '(p, st) ← lookup_tag st sha1;
    p ← non_null p;
    '(_, st) ← parse_tag_buffer nul st p buf;
    Ret (Some p, st)
  else Ret (None, st).

Definition parse_object (st : objects) (sha1 : bytes) : io (option nat * objects) :=
  r <- db_read db sha1 ;;
  match r with
  | None => io_ret (None, st)
  | Some (type, buf) =>
      _ <- Some (check_sha1_signature sha1 buf (Z.of_nat (length buf)) (cstr type)) ;;
      Some (parse_typed (db_nul db sha1) st sha1 (cstr type) buf)
  end.

(** [parse_blob], [parse_tree], [parse_commit] and [parse_tag] read the object
    unless it is parsed; [parse] is the parser of the buffer. *)
Definition parse_item (t : otype) (parse : bool -> objects -> nat -> bytes -> outcome (Z * objects)) (st : objects) (item : nat)
    : io (Z * objects) :=
  o <- Some (get st item) ;;
  if o_parsed o then io_ret (0, st)
  else
    r <- db_read db (o_sha1 o) ;;
    match r with
    | None => io_ret (-1, st)
    | Some (type, buf) =>
        if negb (bool_decide (cstr type = type_name t)) then io_ret (-1, st)
        else Some (parse (db_nul db (o_sha1 o)) st item buf)
    end.

Definition parse_blob : objects -> nat -> io (Z * objects) := parse_item OBlob (fun _ st item _ => parse_blob_buffer st item).
Definition parse_tree : objects -> nat -> io (Z * objects) := parse_item OTree parse_tree_buffer.
Definition parse_tag : objects -> nat -> io (Z * objects) := parse_item OTag parse_tag_buffer.

(** [parse_commit] keeps the buffer. *)
Definition parse_commit : objects -> nat -> io (Z * objects) :=
  parse_item OCommit (fun nul st item buf =>
    '(ret, st) ← parse_commit_buffer nul st item buf;
    if ret =? 0 then st ← with_commit st item (set_buffer buf); Ret (0, st) else Ret (ret, st)).

Definition check_commit (st : objects) (obj : nat) : outcome (option nat) :=
  o ← get st obj; Ret (if bool_decide (o_type o = Some OCommit) then Some obj else None).

Definition lookup_commit_reference (st : objects) (sha1 : bytes) : io (option nat * objects) :=
  r <- parse_object st sha1 ;;
  let '(p, st) := r in
  match p with
  | None => io_ret (None, st)
  | Some obj =>
      o <- Some (get st obj) ;;
      obj <- (if bool_decide (o_type o = Some OTag) then
                match o_body o with Tag t => Some (non_null (tagged t)) | _ => Some Ub end
              else io_ret obj) ;;
      c <- Some (check_commit st obj) ;;
      io_ret (c, st)
  end.

End Parse.

(** ** Reachability *)

Section Marking.
Context (mask : Z) (Hmask : mask <> 0).

Definition marked (st : objects) (x : nat) : Prop := exists o, heap st !! x = Some o /\ Z.land (o_flags o) mask <> 0.

#[export] Instance marked_dec st x : Decision (marked st x).
Proof.
  unfold marked. destruct (heap st !! x) as [o|]; [|right; by intros (?&?&_)].
  destruct (decide (Z.land (o_flags o) mask <> 0)); [left; by exists o|right; by intros (?&[= <-]&?)].
Defined.

Definition edge (st : objects) (x y : nat) : Prop := exists o, heap st !! x = Some o /\ y ∈ o_refs o.

(** No reference dangles. *)
Definition refs_ok (st : objects) : Prop := forall x y, edge st x y -> (y < length (heap st))%nat.

(** Some objects not marked before have been. *)
Definition mark_step (o o' : object) : Prop :=
  o' = o \/ (Z.land (o_flags o) mask = 0 /\ o' = set_flags o (Z.lor (o_flags o) mask)).
Definition marks (st st' : objects) : Prop :=
  Forall2 mark_step (heap st) (heap st') /\ objs st' = objs st /\ obj_allocs st' = obj_allocs st.

Definition white (st : objects) : nat := length (filter (fun o => Z.land (o_flags o) mask = 0) (heap st)).

Lemma land_lor_mask f : Z.land (Z.lor f mask) mask <> 0.
Proof.
  replace (Z.land (Z.lor f mask) mask) with mask; [done|]. apply Z.bits_inj'. intros n Hn.
  rewrite Z.land_spec, Z.lor_spec. by destruct (Z.testbit f n), (Z.testbit mask n).
Qed.

Lemma mark_step_trans a b c : mark_step a b -> mark_step b c -> mark_step a c.
Proof.
  intros [->|[H1 ->]]; [done|]. intros [->|[H2 _]]; [by right|]. cbn [o_flags set_flags] in H2. by apply land_lor_mask in H2.
Qed.

#[local] Instance marks_preorder : PreOrder marks.
Proof.
  split; [intros st; split; [|done]; apply Forall_Forall2_diag, Forall_forall; intros; by left|].
  intros a b c (H1&E1&F1) (H2&E2&F2). split; [|by rewrite E2, F2]. clear -H1 H2 Hmask.
  revert H2; generalize (heap c). induction H1 as [|x y l k Hxy _ IH]; intros l'; [done|]. intros H. inversion H; subst.
  constructor; [by eapply mark_step_trans|by apply IH].
Qed.

Lemma marks_lookup st st' x o : marks st st' -> heap st !! x = Some o -> exists o', heap st' !! x = Some o' /\ mark_step o o'.
Proof. intros (HF&_) Hx. destruct (Forall2_lookup_l _ _ _ _ _ HF Hx) as (o'&?&?). eauto. Qed.

Lemma marks_edge st st' x y : marks st st' -> edge st' x y <-> edge st x y.
Proof.
  intros (HF&_). split; intros (o&Hx&Hy).
  - destruct (Forall2_lookup_r _ _ _ _ _ HF Hx) as (o'&Hx'&[->|[_ ->]]); exists o'; auto.
  - destruct (Forall2_lookup_l _ _ _ _ _ HF Hx) as (o'&Hx'&[->|[_ ->]]); eexists; eauto.
Qed.

Lemma marks_mono st st' x : marks st st' -> marked st x -> marked st' x.
Proof.
  intros Hm (o&Hx&Hf). destruct (marks_lookup _ _ _ _ Hm Hx) as (o'&Hx'&[->|[H0 _]]); [by exists o|done].
Qed.

Lemma marks_length st st' : marks st st' -> length (heap st') = length (heap st).
Proof. intros (HF&_). symmetry. by eapply Forall2_length. Qed.

Lemma marks_refs_ok st st' : marks st st' -> refs_ok st -> refs_ok st'.
Proof. intros Hm Hr x y Hxy. rewrite (marks_length _ _ Hm). apply (Hr x y). by apply (marks_edge st st'). Qed.

Lemma marks_white st st' : marks st st' -> (white st' <= white st)%nat.
Proof.
  intros (HF&_). unfold white. induction HF as [|o o' l l' Ho _ IH]; [done|]. rewrite !filter_cons.
  destruct Ho as [->|[H0 ->]].
  - destruct (decide (Z.land (o_flags o) mask = 0)); simpl; lia.
  - rewrite (decide_True _ _ H0), decide_False by (cbn [o_flags set_flags]; apply land_lor_mask). simpl. lia.
Qed.

(** Marking one object. *)
Lemma mark_one st x o :
  heap st !! x = Some o -> Z.land (o_flags o) mask = 0 ->
  let st' := set st x (set_flags o (Z.lor (o_flags o) mask)) in
  marks st st' /\ marked st' x /\ (white st' < white st)%nat /\ forall y, y <> x -> marked st' y -> marked st y.
Proof.
  intros Hx H0 st'. pose proof (lookup_lt_Some _ _ _ Hx) as Hlt. split_and!.
  - split; [|done]. cbn [heap set st']. apply Forall2_same_length_lookup. rewrite length_insert. split; [done|].
    intros i a b Ha Hb. destruct (decide (i = x)) as [->|Hne].
    + rewrite list_lookup_insert_eq in Hb by done. simplify_eq. by right.
    + rewrite list_lookup_insert_ne in Hb by done. simplify_eq. by left.
  - exists (set_flags o (Z.lor (o_flags o) mask)). cbn [heap set st']. rewrite list_lookup_insert_eq by done.
    split; [done|apply land_lor_mask].
  - unfold white. cbn [heap set st']. rewrite insert_take_drop by done.
    rewrite <- (take_drop_middle (heap st) x o Hx) at 3. rewrite !filter_app, !length_app, !filter_cons.
    rewrite (decide_True _ _ H0), decide_False by (cbn [o_flags set_flags]; apply land_lor_mask). simpl. lia.
  - intros y Hne (o'&Hy&Hf). cbn [heap set st'] in Hy. rewrite list_lookup_insert_ne in Hy by done. by exists o'.
Qed.

(** After a call for each of [roots]: they are marked, and what is newly marked
    is reachable from one of them and has its references marked. *)
Definition marked_from (st st' : objects) (roots : list nat) : Prop :=
  marks st st' /\ Forall (marked st') roots /\
  forall y, marked st' y -> ~ marked st y -> (exists r, r ∈ roots /\ rtc (edge st) r y) /\ forall z, edge st y z -> marked st' z.

Lemma rtc_marks st st' x y : marks st st' -> rtc (edge st') x y -> rtc (edge st) x y.
Proof. intros Hm. apply rtc_subrel. intros a b Hab. by apply (marks_edge st st'). Qed.

Lemma mark_refs_spec mark st p fuel :
  (forall st x, refs_ok st -> (x < length (heap st))%nat -> (white st < fuel)%nat ->
    exists st', mark st x = io_ret st' /\ marked_from st st' [x]) ->
  refs_ok st -> Forall (fun x => x < length (heap st))%nat p -> (white st < fuel)%nat ->
  exists st', mark_refs mark st p = io_ret st' /\ marked_from st st' p.
Proof.
  intros IH. revert st; induction p as [|x p IHp]; intros st Hr Hp Hw.
  - exists st. split; [done|]. split; [done|]. split; [constructor|]. done.
  - apply Forall_cons in Hp as [Hx Hp]. destruct (IH st x Hr Hx Hw) as (st1&E1&Hm1&Hx1&Hn1).
    apply Forall_cons in Hx1 as [Hx1 _].
    pose proof (marks_white _ _ Hm1). destruct (IHp st1) as (st2&E2&Hm2&Hp2&Hn2).
    + by apply (marks_refs_ok st).
    + by rewrite (marks_length _ _ Hm1).
    + lia.
    + exists st2. cbn [mark_refs]. rewrite E1. cbn [io_bind io_ret]. split; [done|]. split; [by etrans|].
      split; [constructor; [by apply (marks_mono st1)|done]|]. intros y Hy Hny.
      destruct (decide (marked st1 y)) as [Hy1|Hy1].
      * destruct (Hn1 y Hy1 Hny) as [(r&Hr1&Hpath) Hz]. split; [exists r; split; [|done]; set_solver|].
        intros z Hzy. by apply (marks_mono st1), Hz.
      * destruct (Hn2 y Hy Hy1) as [(r&Hr2&Hpath) Hz]. split; [exists r; split; [by right|by apply (rtc_marks st st1)]|].
        intros z Hzy. apply Hz. by apply (marks_edge st st1).
Qed.

Lemma mark_reachable_from fuel st x :
  refs_ok st -> (x < length (heap st))%nat -> (white st < fuel)%nat ->
  exists st', mark_reachable fuel st x mask = io_ret st' /\ marked_from st st' [x].
Proof.
  revert st x; induction fuel as [|fuel IH]; intros st x Hr Hx Hw; [lia|]. cbn [mark_reachable].
  destruct (lookup_lt_is_Some_2 _ _ Hx) as [o Ho]. unfold get. rewrite Ho. cbn [io_bind].
  destruct (Z.eqb_spec (Z.land (o_flags o) mask) 0) as [H0|H0]; cbn [negb].
  2:{ exists st. split; [done|]. split; [done|]. split; [constructor; [by exists o|constructor]|]. done. }
  destruct (mark_one st x o Ho H0) as (Hm1&Hx1&Hw1&Hother). set (st1 := set st x _) in *.
  destruct (mark_refs_spec (fun st item => mark_reachable fuel st item mask) st1 (o_refs o) fuel IH) as (st2&E2&Hm2&Hp2&Hn2).
  - by apply (marks_refs_ok st).
  - apply Forall_forall. intros y Hy. rewrite (marks_length _ _ Hm1). apply (Hr x y). by exists o.
  - lia.
  - exists st2. split; [done|]. split; [by etrans|]. split; [constructor; [by apply (marks_mono st1)|constructor]|].
    intros y Hy Hny. destruct (decide (y = x)) as [->|Hne].
    + split; [exists x; split; [by left|constructor]|]. intros z (o'&Ho'&Hz). simplify_eq. rewrite Forall_forall in Hp2. by apply Hp2.
    + assert (Hny1 : ~ marked st1 y) by (intros Hc; by apply Hny, Hother).
      destruct (Hn2 y Hy Hny1) as [(r&Hr2&Hpath) Hz]. split.
      * exists x. split; [by left|]. apply rtc_l with r; [by exists o|by apply (rtc_marks st st1)].
      * intros z Hzy. apply Hz. by apply (marks_edge st st1).
Qed.

End Marking.

(** C33. [mark_reachable] marks exactly what it should: it returns on every
    graph of objects, cyclic or not, it changes nothing but the mask bits of
    objects that had none of them, and when the objects marked before were
    closed under references (none were, or earlier calls marked them), an
    object is marked afterwards if and only if it was before or is reachable
    from [obj]. *)
Theorem mark_reachable_spec (mask : Z) (st : objects) (obj : nat) :
  mask <> 0 -> refs_ok st -> (obj < length (heap st))%nat ->
  (forall x y, marked mask st x -> edge st x y -> marked mask st y) ->
  exists st', mark_reachable (S (length (heap st))) st obj mask = io_ret st' /\ marks mask st st' /\
    forall x, marked mask st' x <-> marked mask st x \/ rtc (edge st) obj x.
Proof.
  intros Hmask Hr Hx Hcl. destruct (mark_reachable_from mask Hmask (S (length (heap st))) st obj Hr Hx) as (st'&E&Hm&Hobj&Hn).
  { unfold white. pose proof (length_filter (fun o => Z.land (o_flags o) mask = 0) (heap st)). lia. }
  apply Forall_cons in Hobj as [Hobj _]. exists st'. split; [done|]. split; [done|]. intros x. split.
  - intros Hx'. destruct (decide (marked mask st x)) as [Hy|Hy]; [by left|].
    right. destruct (Hn x Hx' Hy) as [(r&Hr'&Hp) _]. apply list_elem_of_singleton in Hr' as ->. done.
  - intros [Hy|Hp]; [by apply (marks_mono mask st st')|]. clear Hx Hr.
    revert x Hp. apply rtc_ind_r; [done|]. intros y z _ Hyz IH.
    destruct (decide (marked mask st y)) as [Hy|Hy]; [by apply (marks_mono mask st st'), (Hcl y)|by apply (Hn y)].
Qed.

(** ** The table *)

Definition typed (st : objects) (t : otype) (p : nat) : Prop := exists o, heap st !! p = Some o /\ o_type o = Some t.

Definition body_ok (st : objects) (b : body) : Prop :=
  match b with
  | Blob => True
  | Tree es => Forall (fun e => forall p, te_item e = Some p -> typed st (if te_directory e then OTree else OBlob) p) es
  | Commit c => Forall (typed st OCommit) (parents c) /\ forall p, tree c = Some p -> typed st OTree p
  | Tag t => forall p, tagged t = Some p -> (p < length (heap st))%nat
  end.

Record object_wf (st : objects) (o : object) : Prop := {
  wf_sha1 : length (o_sha1 o) = 20%nat;
  wf_type : o_type o = Some (body_type (o_body o));
  wf_refs : Forall (fun p => p < length (heap st))%nat (o_refs o);
  wf_nodup : NoDup (o_refs o);
  wf_body : body_ok st (o_body o);
}.

Definition sha1_lt (st : objects) (p q : nat) : Prop := lexcmp (obj_sha1 st p) (obj_sha1 st q) < 0.

(** Every object is in the table once, in the order of names; its type is that
    of the structure it heads, and its pointers lead to objects of the types
    the code takes them for. *)
Record objects_ok (st : objects) : Prop := {
  ok_perm : objs st ≡ₚ seq 0 (length (heap st));
  ok_sorted : StronglySorted (sha1_lt st) (objs st);
  ok_room : nr_objs st <= obj_allocs st;
  ok_objs : forall p o, heap st !! p = Some o -> object_wf st o;
}.

(** Objects stay where they are, with their names and types. *)
Definition same_kind (o o' : object) : Prop :=
  o_sha1 o' = o_sha1 o /\ o_type o' = o_type o /\ body_type (o_body o') = body_type (o_body o).
Definition extends (st st' : objects) : Prop :=
  forall p o, heap st !! p = Some o -> exists o', heap st' !! p = Some o' /\ same_kind o o'.

#[export] Instance extends_preorder : PreOrder extends.
Proof.
  split; [intros st p o Hp; exists o; by repeat split|]. intros a b c H1 H2 p o Hp.
  destruct (H1 p o Hp) as (o1&Hp1&E1&F1&G1). destruct (H2 p o1 Hp1) as (o2&Hp2&E2&F2&G2). exists o2.
  split; [done|]. repeat split; congruence.
Qed.

Lemma extends_typed st st' t p : extends st st' -> typed st t p -> typed st' t p.
Proof. intros He (o&Hp&Ht). destruct (He p o Hp) as (o'&Hp'&_&E&_). exists o'. split; [done|congruence]. Qed.

Lemma extends_length st st' : extends st st' -> (length (heap st) <= length (heap st'))%nat.
Proof.
  intros He. destruct (decide (length (heap st) = 0)%nat) as [->|Hn]; [lia|].
  destruct (lookup_lt_is_Some_2 (heap st) (length (heap st) - 1) ltac:(lia)) as [o Ho].
  destruct (He _ _ Ho) as (o'&Ho'&_). apply lookup_lt_Some in Ho'. lia.
Qed.

Lemma extends_body st st' b : extends st st' -> body_ok st b -> body_ok st' b.
Proof.
  intros He. pose proof (extends_length _ _ He). destruct b as [|es|c|t]; cbn [body_ok]; [done|..].
  - intros HF. eapply Forall_impl; [exact HF|]. intros e Hp p Ep. apply (extends_typed st); auto.
  - intros [HF Ht]. split; [eapply Forall_impl; [exact HF|]; intros p; by apply extends_typed|].
    intros p Ep. apply (extends_typed st); auto.
  - intros Hp p Ep. specialize (Hp p Ep). lia.
Qed.

Lemma extends_wf st st' o : extends st st' -> object_wf st o -> object_wf st' o.
Proof.
  intros He [H1 H2 H3 H4 H5]. split; [done..| |done|by apply (extends_body st)].
  eapply Forall_impl; [exact H3|]. intros p Hp. cbv beta in *. pose proof (extends_length _ _ He). lia.
Qed.

Section Table.
Context (st : objects) (Hok : objects_ok st).

Lemma table_elem p : p ∈ objs st <-> (p < length (heap st))%nat.
Proof. rewrite (ok_perm st Hok), elem_of_seq. lia. Qed.

Lemma table_sha1 p : p ∈ objs st -> exists o, heap st !! p = Some o /\ obj_sha1 st p = o_sha1 o /\ length (o_sha1 o) = 20%nat.
Proof.
  intros Hp. apply table_elem in Hp. destruct (lookup_lt_is_Some_2 _ _ Hp) as [o Ho]. exists o. unfold obj_sha1. rewrite Ho.
  split_and!; [done..|]. by apply (wf_sha1 st), (ok_objs st Hok p).
Qed.

(** Where the search ends: at the object of that name, or where it belongs. *)
Lemma find_object_spec sha1 : length sha1 = 20%nat ->
  (exists l1 p l2, objs st = l1 ++ p :: l2 /\ find_object st sha1 = Z.of_nat (length l1) /\ obj_sha1 st p = sha1) \/
  (exists l1 l2, objs st = l1 ++ l2 /\ find_object st sha1 = - Z.of_nat (length l1) - 1 /\
    Forall (fun p => lexcmp (obj_sha1 st p) sha1 < 0) l1 /\ Forall (fun p => lexcmp sha1 (obj_sha1 st p) < 0) l2).
Proof.
  intros Hl.
  destruct (bsearch_list (fun p => lexcmp sha1 (obj_sha1 st p)) (find_cmp st sha1) (objs st))
    as [(l1&p&l2&E&Er&Ek)|(l1&l2&E&Er&H1&H2)].
  - intros i p Hp. unfold find_cmp. rewrite Nat2Z.id, Hp. apply list_elem_of_lookup_2 in Hp.
    destruct (table_sha1 p Hp) as (o&_&->&Ho). by apply memcmp_full.
  - eapply StronglySorted_mono; [|exact (ok_sorted st Hok)]. intros a b Hlt Ha. unfold sha1_lt in Hlt.
    destruct (Z.eq_dec (lexcmp sha1 (obj_sha1 st a)) 0) as [E|]; [apply lexcmp_eq in E; by rewrite E|].
    apply (lexcmp_trans _ (obj_sha1 st a)); lia.
  - left. exists l1, p, l2. split; [done|]. split; [done|]. symmetry. by apply lexcmp_eq.
  - right. exists l1, l2. split; [done|]. split; [done|]. split; [|done].
    eapply Forall_impl; [exact H1|]. intros p Hp. cbv beta in Hp. rewrite lexcmp_opp. lia.
Qed.

(** The table maps each name to its object. *)
Lemma lookup_object_iff sha1 p : length sha1 = 20%nat ->
  lookup_object st sha1 = Some p <-> exists o, heap st !! p = Some o /\ o_sha1 o = sha1.
Proof.
  intros Hl. unfold lookup_object.
  destruct (find_object_spec sha1 Hl) as [(l1&q&l2&E&->&Eq)|(l1&l2&E&->&H1&H2)].
  - destruct (Z.leb_spec 0 (Z.of_nat (length l1))); [|lia]. rewrite Nat2Z.id, E, lookup_app_r, Nat.sub_diag by lia. cbn.
    destruct (table_sha1 q) as (o&Ho&Es&_); [rewrite E; by apply elem_of_middle|]. split.
    + intros [= <-]. exists o. split; congruence.
    + intros (o'&Ho'&Es'). assert (Hp : p ∈ objs st) by (apply table_elem; by eapply lookup_lt_Some).
      apply list_elem_of_lookup in Hp as [i Hi]. assert (Hj : objs st !! length l1 = Some q) by (by rewrite E, lookup_app_r, Nat.sub_diag by lia).
      assert (Esame : obj_sha1 st p = obj_sha1 st q) by (unfold obj_sha1 in *; rewrite Ho' in *; congruence).
      destruct (Nat.lt_trichotomy i (length l1)) as [Hlt|[->|Hlt]]; [|congruence|]; exfalso.
      * pose proof (StronglySorted_lookup _ _ _ _ _ _ (ok_sorted st Hok) Hi Hj Hlt) as Hs. unfold sha1_lt in Hs.
        rewrite Esame, lexcmp_refl in Hs. lia.
      * pose proof (StronglySorted_lookup _ _ _ _ _ _ (ok_sorted st Hok) Hj Hi Hlt) as Hs. unfold sha1_lt in Hs.
        rewrite Esame, lexcmp_refl in Hs. lia.
  - destruct (Z.leb_spec 0 (- Z.of_nat (length l1) - 1)); [lia|]. split; [done|]. intros (o&Ho&Es). exfalso.
    assert (Hp : p ∈ objs st) by (apply table_elem; by eapply lookup_lt_Some). rewrite E in Hp.
    assert (Esh : obj_sha1 st p = sha1) by (unfold obj_sha1; by rewrite Ho).
    rewrite Forall_forall in H1, H2. apply elem_of_app in Hp as [Hp|Hp]; [specialize (H1 p Hp)|specialize (H2 p Hp)];
      cbv beta in *; rewrite Esh, lexcmp_refl in *; lia.
Qed.

End Table.

Lemma set_lookup st p o q : (p < length (heap st))%nat ->
  heap (set st p o) !! q = if decide (q = p) then Some o else heap st !! q.
Proof.
  intros Hp. cbn [heap set]. destruct (decide (q = p)) as [->|]; [by rewrite list_lookup_insert_eq|by rewrite list_lookup_insert_ne].
Qed.

(** Changing an object in place. *)
Lemma set_extends st p o o' : heap st !! p = Some o -> same_kind o o' -> extends st (set st p o').
Proof.
  intros Hp Hk q a Hq. rewrite set_lookup by (by eapply lookup_lt_Some). destruct (decide (q = p)) as [->|]; simplify_eq.
  - by exists o'.
  - exists a. by repeat split.
Qed.

Lemma set_ok st p o o' :
  objects_ok st -> heap st !! p = Some o -> same_kind o o' ->
  Forall (fun q => q < length (heap st))%nat (o_refs o') -> NoDup (o_refs o') -> body_ok st (o_body o') ->
  objects_ok (set st p o').
Proof.
  intros Hok Hp Hk Hr Hnd Hb. pose proof (set_extends st p o o' Hp Hk) as He. pose proof (lookup_lt_Some _ _ _ Hp) as Hlt.
  assert (Hlen : length (heap (set st p o')) = length (heap st)) by apply length_insert.
  assert (Hsha : forall q, obj_sha1 (set st p o') q = obj_sha1 st q).
  { intros q. unfold obj_sha1. rewrite set_lookup by done. destruct (decide (q = p)) as [->|]; [|done]. rewrite Hp. apply Hk. }
  split.
  - rewrite Hlen. apply (ok_perm st Hok).
  - eapply StronglySorted_mono; [|exact (ok_sorted st Hok)]. intros a b. unfold sha1_lt. by rewrite !Hsha.
  - apply (ok_room st Hok).
  - intros q a Hq. rewrite set_lookup in Hq by done. destruct (decide (q = p)) as [->|].
    + injection Hq as <-. destruct (ok_objs st Hok p o Hp) as [W1 W2 _ _ _]. destruct Hk as (E1&E2&E3). split.
      * congruence.
      * congruence.
      * by rewrite Hlen.
      * done.
      * by apply (extends_body st).
    + by apply (extends_wf st), (ok_objs st Hok q).
Qed.

(** A new object of type [t] at the end of the heap. *)
Definition new_object (t : otype) (sha1 : bytes) : object :=
  {| o_parsed := false; o_used := false; o_flags := 0; o_sha1 := sha1; o_type := Some t; o_refs := []; o_util := None;
     o_body := fresh_body t |}.

Lemma fresh_body_type t : body_type (fresh_body t) = t.
Proof. by destruct t. Qed.

Lemma fresh_body_ok st t : body_ok st (fresh_body t).
Proof. destruct t; cbn; [done|constructor|split; [constructor|done]|done]. Qed.

Lemma snoc_extends (st st' : objects) o : heap st' = heap st ++ [o] -> extends st st'.
Proof. intros E p a Hp. exists a. rewrite E, lookup_app_l by (by eapply lookup_lt_Some). by repeat split. Qed.

Lemma prefix_extends (st st' : objects) : heap st `prefix_of` heap st' -> extends st st'.
Proof. intros Hp p a Ha. exists a. split; [by eapply prefix_lookup_Some|]. by repeat split. Qed.

(** The names in the table never change. *)
Lemma extends_sha1 st st' p : extends st st' -> (p < length (heap st))%nat -> obj_sha1 st' p = obj_sha1 st p.
Proof.
  intros He Hp. destruct (lookup_lt_is_Some_2 _ _ Hp) as [o Ho]. destruct (He p o Ho) as (o'&Ho'&Hk&_).
  unfold obj_sha1. by rewrite Ho, Ho'.
Qed.

Lemma new_object_ok st st' t sha1 l1 l2 :
  objects_ok st -> length sha1 = 20%nat -> objs st = l1 ++ l2 -> heap st' = heap st ++ [new_object t sha1] ->
  objs st' = l1 ++ length (heap st) :: l2 -> nr_objs st' <= obj_allocs st' ->
  Forall (fun p => lexcmp (obj_sha1 st p) sha1 < 0) l1 -> Forall (fun p => lexcmp sha1 (obj_sha1 st p) < 0) l2 ->
  objects_ok st'.
Proof.
  intros Hok Hl E Eh Eo Hroom H1 H2. pose proof (snoc_extends _ _ _ Eh) as He.
  assert (Hnew : obj_sha1 st' (length (heap st)) = sha1).
  { unfold obj_sha1. by rewrite Eh, lookup_app_r, Nat.sub_diag by lia. }
  assert (Hin : forall p, p ∈ l1 ++ l2 -> obj_sha1 st' p = obj_sha1 st p).
  { intros p Hp. apply extends_sha1; [done|]. apply (table_elem st Hok). by rewrite E. }
  pose proof (ok_sorted st Hok) as Hs. rewrite E in Hs. apply StronglySorted_app in Hs as (Hx&S1&S2).
  assert (Hmono : forall l, StronglySorted (sha1_lt st) l -> (forall p, p ∈ l -> p ∈ l1 ++ l2) -> StronglySorted (sha1_lt st') l).
  { induction 1 as [|a l _ IH HF]; intros Hsub; constructor; [apply IH; intros; apply Hsub; by right|].
    apply Forall_forall. intros b Hb. rewrite Forall_forall in HF. unfold sha1_lt.
    rewrite !Hin by (apply Hsub; set_solver). by apply HF. }
  split.
  - rewrite Eo, Eh, length_app. cbn [length]. rewrite Nat.add_1_r, seq_S, <- Permutation_middle, <- E, (ok_perm st Hok).
    by rewrite Permutation_app_comm.
  - rewrite Eo. apply StronglySorted_app. split; [|split].
    + intros a b Ha Hb. unfold sha1_lt. apply elem_of_cons in Hb as [->|Hb].
      * rewrite Hnew, Hin by (apply elem_of_app; by left). rewrite Forall_forall in H1. by apply H1.
      * rewrite !Hin by (apply elem_of_app; auto). by apply Hx.
    + apply Hmono; [done|]. intros p Hp. apply elem_of_app. by left.
    + constructor; [apply Hmono; [done|]; intros p Hp; apply elem_of_app; by right|]. apply Forall_forall. intros b Hb.
      unfold sha1_lt. rewrite Hnew, Hin by (apply elem_of_app; by right). rewrite Forall_forall in H2. by apply H2.
  - done.
  - intros p o Hp. rewrite Eh in Hp. apply lookup_app_Some in Hp as [Hp|[_ Hp]].
    + by apply (extends_wf st), (ok_objs st Hok p).
    + apply list_lookup_singleton_Some in Hp as [_ <-]. split; [done|by cbn; rewrite fresh_body_type|constructor|constructor|].
      apply fresh_body_ok.
Qed.

(** What a lookup of type [t] returns, and the state it leaves. *)
Definition looked_up (t : otype) (st : objects) (sha1 : bytes) (r : option nat) (st' : objects) : Prop :=
  objects_ok st' /\ heap st `prefix_of` heap st' /\ (length (heap st') <= S (length (heap st)))%nat /\
  match r with
  | Some p => typed st' t p /\ obj_sha1 st' p = sha1 /\ (st' = st \/ lookup_object st sha1 = None)
  | None => st' = st /\ exists p t', lookup_object st sha1 = Some p /\ typed st t' p /\ t' <> t
  end.

Lemma lookup_typed_ok t st sha1 :
  objects_ok st -> length sha1 = 20%nat -> Z.of_nat (length (heap st)) < 2 ^ 28 ->
  exists r st', lookup_typed t st sha1 = Ret (r, st') /\ looked_up t st sha1 r st'.
Proof.
  intros Hok Hl Hsmall. unfold lookup_typed. destruct (lookup_object st sha1) as [p|] eqn:El.
  - pose proof El as El0. apply (lookup_object_iff st Hok sha1 p Hl) in El0 as (o&Ho&Es). unfold get. rewrite Ho, bind_Ret.
    pose proof (wf_type st o (ok_objs st Hok p o Ho)) as Ht. rewrite Ht. eexists _, _. split; [done|].
    split; [done|]. split; [done|]. split; [lia|]. case_bool_decide as E.
    + split; [exists o; split; congruence|]. split; [unfold obj_sha1; by rewrite Ho|by left].
    + split; [done|]. eexists p, _. split; [done|]. split; [by exists o|]. congruence.
  - assert (Hnone : forall p o, heap st !! p = Some o -> o_sha1 o <> sha1).
    { intros p o Ho Es. enough (lookup_object st sha1 = Some p) by congruence. apply (lookup_object_iff st Hok); eauto. }
    destruct (find_object_spec st Hok sha1 Hl) as [(l1&p&l2&E&_&Ep)|(l1&l2&E&Er&H1&H2)].
    { exfalso. destruct (table_sha1 st Hok p) as (o&Ho&Eo&_); [rewrite E; by apply elem_of_middle|]. apply (Hnone p o Ho). congruence. }
    assert (Hnr : nr_objs st = Z.of_nat (length (heap st))).
    { unfold nr_objs. by rewrite (ok_perm st Hok), length_seq. }
    pose proof (ok_room st Hok) as Hroom.
    unfold created_object. rewrite Er. destruct (Z.leb_spec 0 (- Z.of_nat (length l1) - 1)); [lia|].
    set (allocs := if obj_allocs st =? nr_objs st then _ else _).
    assert (Hal : nr_objs st < allocs).
    { unfold allocs. destruct (Z.eqb_spec (obj_allocs st) (nr_objs st)) as [Ea|]; [|lia]. rewrite i32_small by lia. dm_lia. }
    destruct (Z.leb_spec allocs (nr_objs st)); [lia|]. rewrite bind_Ret. unfold get at 1. cbn [heap].
    rewrite lookup_app_r, Nat.sub_diag by lia. cbn [lookup list_lookup]. rewrite bind_Ret. rewrite (take_ge sha1) by lia.
    replace (Z.to_nat (- (- Z.of_nat (length l1) - 1) - 1)) with (length l1) by lia.
    rewrite E, take_app_length, drop_app_length. unfold set. cbn [heap objs obj_allocs].
    rewrite insert_app_r_alt, Nat.sub_diag by lia. cbn [list_insert insert].
    set (st' := {| heap := heap st ++ _; objs := _; obj_allocs := _ |}).
    assert (Eh : heap st' = heap st ++ [new_object t sha1]) by done.
    assert (Hok' : objects_ok st').
    { apply (new_object_ok st st' t sha1 l1 l2); try done. unfold nr_objs. cbn [objs obj_allocs st'].
      unfold nr_objs in Hal. rewrite E in Hal. rewrite length_app in *. simpl. lia. }
    exists (Some (length (heap st))), st'. split; [done|]. split; [done|]. split; [rewrite Eh; by apply prefix_app_r|].
    split; [rewrite Eh, length_app; simpl; lia|].
    assert (Hget : heap st' !! length (heap st) = Some (new_object t sha1)) by (by rewrite Eh, lookup_app_r, Nat.sub_diag by lia).
    split; [by exists (new_object t sha1)|]. split; [unfold obj_sha1; by rewrite Hget|by right].
Qed.

(** The only object a lookup can make has the name and type asked for. *)
Lemma looked_up_new t st sha1 r st' q o :
  objects_ok st -> length sha1 = 20%nat -> looked_up t st sha1 r st' ->
  heap st' !! q = Some o -> (length (heap st) <= q)%nat -> o_sha1 o = sha1 /\ o_type o = Some t.
Proof.
  intros Hok Hl (Hok'&Hpre&Hlen&Hr) Hq Hge. pose proof (lookup_lt_Some _ _ _ Hq) as Hlt.
  destruct r as [p|]; [|destruct Hr as [-> _]; lia]. destruct Hr as ((op&Hop&Htp)&Hsp&[->|Hnone]); [lia|].
  unfold obj_sha1 in Hsp. rewrite Hop in Hsp. assert (Hp : (length (heap st) <= p)%nat).
  { apply Nat.nlt_ge. intros Hp. destruct (lookup_lt_is_Some_2 _ _ Hp) as [o0 Ho0].
    pose proof (prefix_lookup_Some _ _ _ _ Ho0 Hpre). enough (lookup_object st sha1 = Some p) by congruence.
    apply (lookup_object_iff st Hok); [done|]. exists o0. split; congruence. }
  apply lookup_lt_Some in Hop as Hp2. assert (p = q) as -> by lia. split; congruence.
Qed.

(** Lookups of a name the new objects do not have. *)
Lemma lookup_object_same st st' s :
  objects_ok st -> objects_ok st' -> extends st st' -> length s = 20%nat ->
  (forall q o, heap st' !! q = Some o -> (length (heap st) <= q)%nat -> o_sha1 o <> s) ->
  lookup_object st' s = lookup_object st s.
Proof.
  intros Hok Hok' He Hl Hnew. apply option_eq. intros q. rewrite (lookup_object_iff st' Hok'), (lookup_object_iff st Hok) by done.
  split; intros (o&Ho&Hs).
  - destruct (decide (q < length (heap st))%nat) as [Hq|Hq]; [|exfalso; apply (Hnew q o Ho); [lia|done]].
    destruct (lookup_lt_is_Some_2 _ _ Hq) as [o0 Ho0]. destruct (He q o0 Ho0) as (o1&Ho1&Hk&_). exists o0. split; [done|]. congruence.
  - destruct (He q o Ho) as (o1&Ho1&Hk&_). exists o1. split; [done|]. congruence.
Qed.

(** C36. the table of objects is a map from names to objects: in a consistent
    state, looking a name up as type [t] returns; it yields the object of that
    name, making one of type [t] if there was none, or [NULL] exactly when the
    name belongs to an object of another type.  The state stays consistent,
    the objects there were are unchanged, the same name leads to the same
    address from then on, and no other name is affected. *)
Theorem lookup_typed_spec (t : otype) (st : objects) (sha1 : bytes) :
  objects_ok st -> length sha1 = 20%nat -> Z.of_nat (length (heap st)) < 2 ^ 28 ->
  exists r st', lookup_typed t st sha1 = Ret (r, st') /\ looked_up t st sha1 r st' /\
    (forall p, r = Some p -> lookup_object st' sha1 = Some p) /\
    forall s, length s = 20%nat -> s <> sha1 -> lookup_object st' s = lookup_object st s.
Proof.
  intros Hok Hl Hsmall. destruct (lookup_typed_ok t st sha1 Hok Hl Hsmall) as (r&st'&Er&Hlu). exists r, st'.
  split; [done|]. split; [done|]. pose proof Hlu as (Hok'&Hpre&_&Hr). split.
  - intros p ->. destruct Hr as ((o&Ho&_)&Hs&_). apply (lookup_object_iff st' Hok'); [done|]. exists o. split; [done|].
    unfold obj_sha1 in Hs. by rewrite Ho in Hs.
  - intros s Hls Hne. apply lookup_object_same; try done; [by apply prefix_extends|]. intros q o Hq Hge E.
    destruct (looked_up_new _ _ _ _ _ _ _ Hok Hl Hlu Hq Hge) as [E' _]. congruence.
Qed.

(** ** A run *)

Module ObjDemo.

Definition name (n : Z) : bytes := replicate 20 n.

(** Three objects; the first two refer to each other. *)
Definition obj (n : Z) (t : otype) (refs : list nat) : object :=
  {| o_parsed := false; o_used := false; o_flags := 0; o_sha1 := name n; o_type := Some t; o_refs := refs; o_util := None;
     o_body := fresh_body t |}.
Definition st : objects := {| heap := [obj 5 OCommit [1%nat]; obj 7 OTag [0%nat]; obj 6 OBlob []]; objs := [0; 2; 1]%nat; obj_allocs := 24 |}.

Lemma st_ok : objects_ok st.
Proof.
  split.
  - apply (bool_decide_unpack _). vm_compute. exact I.
  - repeat (constructor; [|repeat (constructor; [vm_compute; reflexivity|]); constructor]). constructor.
  - vm_compute. discriminate.
  - intros p o Hp. assert (Hin : o ∈ heap st) by (by eapply list_elem_of_lookup_2). clear Hp. revert o Hin. apply Forall_forall.
    repeat constructor; set_solver || (simpl; lia) || done.
Qed.

End ObjDemo.

Lemma mark_reachable_spec_witness :
  exists st', mark_reachable 4 ObjDemo.st 1 6 = io_ret st' /\ marks 6 ObjDemo.st st' /\
    forall x, marked 6 st' x <-> marked 6 ObjDemo.st x \/ rtc (edge ObjDemo.st) 1%nat x.
Proof.
  apply (mark_reachable_spec 6 ObjDemo.st 1).
  - discriminate.
  - intros x y (o&Hx&Hy). assert (Hin : o ∈ heap ObjDemo.st) by (by eapply list_elem_of_lookup_2).
    cbn [heap ObjDemo.st] in Hin. rewrite !elem_of_cons in Hin. destruct Hin as [->|[->|[->|Hin]]]; [set_solver by lia..|]. by apply not_elem_of_nil in Hin.
  - vm_compute. lia.
  - intros x y (o&Hx&Hf). exfalso. assert (Hin : o ∈ heap ObjDemo.st) by (by eapply list_elem_of_lookup_2).
    cbn [heap ObjDemo.st] in Hin. rewrite !elem_of_cons in Hin. destruct Hin as [->|[->|[->|Hin]]]; [by apply Hf..|]. by apply not_elem_of_nil in Hin.
Defined.

Lemma lookup_typed_spec_witness :
  exists r st', lookup_typed OTree ObjDemo.st (ObjDemo.name 4) = Ret (r, st') /\ looked_up OTree ObjDemo.st (ObjDemo.name 4) r st' /\
    (forall p, r = Some p -> lookup_object st' (ObjDemo.name 4) = Some p) /\
    forall s, length s = 20%nat -> s <> ObjDemo.name 4 -> lookup_object st' s = lookup_object ObjDemo.st s.
Proof. apply (lookup_typed_spec OTree ObjDemo.st (ObjDemo.name 4) ObjDemo.st_ok); vm_compute; reflexivity. Defined.
