(* ===== verification/ObjectParse.v ===== *)
(** * Parsing objects: safety and exactness

    What the parsers of Objects.v do to a consistent state: those of trees
    and tags accept any bytes; that of commits needs a commit; all of them
    keep the state consistent, and on the formats written by [git-write-tree]
    and [git-commit-tree] they produce what was written. *)

From stdpp Require Import base list numbers strings sorting.
From Stdlib Require Import ZArith Lia.
From S2P Require Import Prelude.
From S2P Require Import Hex.
From S2P Require Import CsumFile.
From S2P Require Import CString.
From S2P Require Import ObjectHeader.
From S2P Require Import CacheEntry.
From S2P Require Import Index.
From S2P Require Import ObjectDB.
From S2P Require Import Tree.
From S2P Require Import Objects.

(** ** Small steps *)

Lemma get_lookup st p o : heap st !! p = Some o -> get st p = Ret o.
Proof. intros E. unfold get. by rewrite E. Qed.

(** From [st] to [st'] without new objects and without a change of bodies. *)
Definition touched (st st' : objects) : Prop :=
  objects_ok st' /\ length (heap st') = length (heap st) /\
  forall p o, heap st !! p = Some o -> exists o', heap st' !! p = Some o' /\ same_kind o o' /\ o_body o' = o_body o /\ o_parsed o' = o_parsed o.

Lemma touched_extends st st' : touched st st' -> extends st st'.
Proof. intros (_&_&H) p o Hp. destruct (H p o Hp) as (o'&?&?&_). eauto. Qed.

Lemma add_ref_ok st a b :
  objects_ok st -> (a < length (heap st))%nat -> (b < length (heap st))%nat -> exists st', add_ref st a b = Ret st' /\ touched st st'.
Proof.
  intros Hok Ha Hb. destruct (lookup_lt_is_Some_2 _ _ Ha) as [oa Hoa], (lookup_lt_is_Some_2 _ _ Hb) as [ob Hob].
  unfold add_ref, get. rewrite Hoa, bind_Ret. case_bool_decide as Hin.
  { exists st. split; [done|]. split; [done|]. split; [done|]. intros p o Hp. exists o. by repeat split. }
  rewrite Hob, bind_Ret. assert (Hk1 : same_kind ob (set_used ob)) by (by repeat split).
  destruct (ok_objs st Hok b ob Hob) as [_ _ Wr Wn Wb].
  pose proof (set_ok st b ob (set_used ob) Hok Hob Hk1 Wr Wn Wb) as Hok1.
  pose proof (set_extends st b ob (set_used ob) Hob Hk1) as He1. set (st1 := set st b (set_used ob)) in *.
  assert (Hlen : length (heap st1) = length (heap st)) by apply length_insert.
  destruct (lookup_lt_is_Some_2 (heap st1) a ltac:(lia)) as [o1 Ho1]. rewrite Ho1, bind_Ret.
  assert (Hrefs : o_refs o1 = o_refs oa /\ o_body o1 = o_body oa /\ o_parsed o1 = o_parsed oa).
  { pose proof Ho1 as E. unfold st1 in E. rewrite set_lookup in E by done. destruct (decide (a = b)) as [->|]; simplify_eq; done. }
  destruct Hrefs as (Hrefs&Hbody&Hparsed).
  assert (Hk2 : same_kind o1 (set_refs o1 (o_refs o1 ++ [b]))) by (by repeat split).
  destruct (ok_objs st1 Hok1 a o1 Ho1) as [_ _ Wr1 Wn1 Wb1].
  exists (set st1 a (set_refs o1 (o_refs o1 ++ [b]))). split; [done|]. split; [|split].
  - apply (set_ok st1 a o1); try done; cbn [o_refs set_refs].
    + apply Forall_app. split; [done|]. constructor; [lia|constructor].
    + apply NoDup_app. split; [done|]. split; [|by apply NoDup_singleton]. intros x Hx Hx'.
      apply list_elem_of_singleton in Hx' as ->. apply Hin. by rewrite <- Hrefs.
  - cbn [heap set]. by rewrite length_insert.
  - intros p o Hp. rewrite set_lookup by lia. destruct (decide (p = a)) as [->|].
    + rewrite Hoa in Hp. injection Hp as <-. eexists. split; [done|]. destruct (He1 a oa Hoa) as (o1'&Ho1'&Hk).
      rewrite Ho1 in Ho1'. injection Ho1' as <-. split; [done|]. done.
    + unfold st1. rewrite set_lookup by done. destruct (decide (p = b)) as [->|]; simplify_eq; [by eexists|]. exists o. by repeat split.
Qed.

(** Changing the body of an object into another of the same type. *)
Lemma set_body_ok st p o b :
  objects_ok st -> heap st !! p = Some o -> body_type b = body_type (o_body o) -> body_ok st b ->
  objects_ok (set st p (set_body o b)) /\ extends st (set st p (set_body o b)).
Proof.
  intros Hok Hp Ht Hb. assert (Hk : same_kind o (set_body o b)) by (by repeat split). destruct (ok_objs st Hok p o Hp) as [_ _ Wr Wn _].
  split; [by apply (set_ok st p o)|by apply (set_extends st p o)].
Qed.

Lemma set_parsed_ok st p o :
  objects_ok st -> heap st !! p = Some o ->
  objects_ok (set st p (set_parsed o)) /\ extends st (set st p (set_parsed o)).
Proof.
  intros Hok Hp. assert (Hk : same_kind o (set_parsed o)) by (by repeat split). destruct (ok_objs st Hok p o Hp) as [_ _ Wr Wn Wb].
  split; [by apply (set_ok st p o)|by apply (set_extends st p o)].
Qed.

Lemma set_length st p o : length (heap (set st p o)) = length (heap st).
Proof. apply length_insert. Qed.

Lemma typed_body st t p : objects_ok st -> typed st t p -> exists o, heap st !! p = Some o /\ o_type o = Some t /\ body_type (o_body o) = t.
Proof.
  intros Hok (o&Hp&Ht). exists o. split; [done|]. split; [done|]. pose proof (wf_type st o (ok_objs st Hok p o Hp)). congruence.
Qed.

Lemma typed_lt st t p : typed st t p -> (p < length (heap st))%nat.
Proof. intros (o&Hp&_). by eapply lookup_lt_Some. Qed.

Lemma add_ref_opt_ok st item obj :
  objects_ok st -> (item < length (heap st))%nat -> (forall p, obj = Some p -> (p < length (heap st))%nat) ->
  exists st', add_ref_opt st item obj = Ret st' /\ touched st st'.
Proof.
  intros Hok Hi Hobj. destruct obj as [p|]; cbn [add_ref_opt]; [apply add_ref_ok; auto|].
  exists st. split; [done|]. split; [done|]. split; [done|]. intros q o Hq. exists o. by repeat split.
Qed.

(** A consistent state with at most [n] objects more. *)
Definition grows (n : nat) (st st' : objects) : Prop :=
  objects_ok st' /\ extends st st' /\ (length (heap st') <= n + length (heap st))%nat.

Lemma grows_trans n m a b c : grows n a b -> grows m b c -> grows (n + m) a c.
Proof. intros (_&E1&L1) (Hok&E2&L2). split; [done|]. split; [by etrans|lia]. Qed.

Lemma grows_refl st : objects_ok st -> grows 0 st st.
Proof. by intros Hok. Qed.

Lemma grows_le n m a b : (n <= m)%nat -> grows n a b -> grows m a b.
Proof. intros Hnm (Hok&He&Hl). split; [done|]. split; [done|lia]. Qed.

Lemma touched_grows st st' : touched st st' -> grows 0 st st'.
Proof. intros Ht. pose proof (touched_extends _ _ Ht). destruct Ht as (Hok&Hl&_). split; [done|]. split; [done|lia]. Qed.

Lemma looked_up_grows t st sha1 r st' : looked_up t st sha1 r st' -> grows 1 st st'.
Proof. intros (Hok&Hp&Hl&_). split; [done|]. split; [by apply prefix_extends|lia]. Qed.

Definition body_at (st : objects) (p : nat) (b : body) : Prop := exists o, heap st !! p = Some o /\ o_body o = b.

Lemma looked_up_body t st sha1 r st' p b : looked_up t st sha1 r st' -> body_at st p b -> body_at st' p b.
Proof. intros (_&Hp&_) (o&Ho&Hb). exists o. split; [by eapply prefix_lookup_Some|done]. Qed.

Lemma touched_body st st' p b : touched st st' -> body_at st p b -> body_at st' p b.
Proof. intros (_&_&Ht) (o&Ho&<-). destruct (Ht p o Ho) as (o'&Ho'&_&Hb&_). by exists o'. Qed.

Lemma set_body_at st p o b : (p < length (heap st))%nat -> body_at (set st p (set_body o b)) p b.
Proof. intros Hp. eexists. rewrite set_lookup by done. rewrite decide_True by done. done. Qed.

Lemma body_at_lt st p b : body_at st p b -> (p < length (heap st))%nat.
Proof. intros (o&Ho&_). by eapply lookup_lt_Some. Qed.

Lemma set_parsed_grows st p o b :
  objects_ok st -> heap st !! p = Some o -> o_body o = b ->
  grows 0 st (set st p (set_parsed o)) /\ length (heap (set st p (set_parsed o))) = length (heap st) /\ body_at (set st p (set_parsed o)) p b.
Proof.
  intros Hok Hp Hb. destruct (set_parsed_ok st p o Hok Hp) as [Hok1 He1].
  split; [split; [done|]; split; [done|]; rewrite set_length; lia|]. split; [apply set_length|].
  exists (set_parsed o). rewrite set_lookup, decide_True by (done || by eapply lookup_lt_Some). done.
Qed.

(** What a lookup returns can be pointed to. *)
Lemma looked_up_typed t st sha1 r st' p : looked_up t st sha1 r st' -> r = Some p -> typed st' t p.
Proof. intros (_&_&_&Hr) ->. apply Hr. Qed.

(** ** Trees *)

Lemma tree_entry_step st item es t sha1 (mk : option nat -> tree_entry_list) :
  objects_ok st -> body_at st item (Tree es) -> length sha1 = 20%nat -> Z.of_nat (length (heap st)) < 2 ^ 28 ->
  (forall r, te_item (mk r) = r /\ t = if te_directory (mk r) then OTree else OBlob) ->
  exists r st1 st2 o, lookup_typed t st sha1 = Ret (r, st1) /\ looked_up t st sha1 r st1 /\
    add_ref_opt st1 item r = Ret st2 /\ get st2 item = Ret o /\ o_body o = Tree es /\
    grows 1 st (set st2 item (set_body o (Tree (es ++ [mk r])))) /\ extends st1 (set st2 item (set_body o (Tree (es ++ [mk r])))) /\
    body_at (set st2 item (set_body o (Tree (es ++ [mk r])))) item (Tree (es ++ [mk r])).
Proof.
  intros Hok Hb Hl Hsmall Hmk. destruct (lookup_typed_ok t st sha1 Hok Hl Hsmall) as (r&st1&Er&Hlu).
  pose proof (looked_up_grows _ _ _ _ _ Hlu) as Hg1. pose proof (looked_up_body _ _ _ _ _ _ _ Hlu Hb) as Hb1.
  pose proof Hg1 as (Hok1&_&_).
  destruct (add_ref_opt_ok st1 item r Hok1 (body_at_lt _ _ _ Hb1)) as (st2&Ea&Ht).
  { intros p ->. eapply typed_lt, looked_up_typed; [exact Hlu|done]. }
  pose proof (touched_body _ _ _ _ Ht Hb1) as (o&Ho&Hbo). pose proof (touched_grows _ _ Ht) as Hg2. pose proof Hg2 as (Hok2&He2&_).
  exists r, st1, st2, o. unfold get. rewrite Ho. split_and!; try done.
  - assert (Hbok : body_ok st2 (Tree (es ++ [mk r]))).
    { cbn [body_ok]. apply Forall_app. split.
      - pose proof (wf_body _ _ (ok_objs st2 Hok2 item o Ho)) as Hw. by rewrite Hbo in Hw.
      - constructor; [|constructor]. intros p Hp. destruct (Hmk r) as [Hi Ht']. rewrite <- Ht'. rewrite Hi in Hp.
        apply (extends_typed st1); [done|]. by eapply looked_up_typed. }
    destruct (set_body_ok st2 item o (Tree (es ++ [mk r])) Hok2 Ho) as [Hok3 He3]; [by rewrite Hbo|done|].
    apply (grows_le (1 + (0 + 0))); [lia|]. eapply grows_trans; [exact Hg1|]. eapply grows_trans; [exact Hg2|].
    split; [done|]. split; [done|]. rewrite set_length. lia.
  - etrans; [exact He2|]. apply (set_extends st2 item o); [done|]. repeat split. by rewrite Hbo.
  - apply set_body_at. by eapply lookup_lt_Some.
Qed.

(** Any bytes, if a NUL stands behind them. *)
Lemma parse_tree_entries_ok fuel st item es size buf :
  objects_ok st -> body_at st item (Tree es) -> 0 ∈ buf -> 0 ∈ drop size buf -> (size < fuel)%nat -> (size < length buf)%nat ->
  Z.of_nat (length (heap st) + size) < 2 ^ 28 ->
  exists r st', parse_tree_entries fuel st item size buf = Ret (r, st') /\ (r = 0 \/ r = -1) /\ grows size st st'.
Proof.
  revert st es size buf; induction fuel as [|fuel IH]; intros st es size buf Hok Hb H0 Hd Hf Hlb Hsmall; [lia|]. cbn [parse_tree_entries].
  destruct (Nat.eqb_spec size 0) as [E|E].
  { exists 0, st. split; [done|]. split; [by left|]. rewrite E. by apply grows_refl. }
  assert (Hbad : exists r st', Ret (-1, st) = Ret (r, st') /\ (r = 0 \/ r = -1) /\ grows size st st').
  { exists (-1), st. split; [done|]. split; [by right|]. apply (grows_le 0); [lia|]. by apply grows_refl. }
  rewrite strlen_mem_nul, bind_Ret by done. cbv zeta.
  destruct (strchr buf 32) as [k|]; [|done]. destruct (sscanf_o (cstr buf)) as [mode|]; [|done].
  destruct (Nat.ltb_spec size (1 + length (cstr buf) + 20)) as [Hlt|Hge]; [done|]. clear Hbad.
  set (len := (1 + length (cstr buf))%nat) in *.
  assert (Hsl : length (slice len 20 buf) = 20%nat) by (rewrite length_slice; lia).
  destruct (tree_entry_step st item es (if S_ISDIR mode then OTree else OBlob) (slice len 20 buf)
    (fun obj => {| te_directory := S_ISDIR mode; te_executable := negb (Z.land mode S_IXUSR =? 0);
                   te_symlink := S_ISLNK mode; te_mode := mode; te_name := cstr (drop (k + 1) buf); te_item := obj |}))
    as (r&st1&st2&o&Er&_&Ea&Eg&Ebo&Hg&_&Hb3); [done|done|done|lia|done|].
  replace (if S_ISDIR mode then lookup_tree st (slice len 20 buf) else lookup_blob st (slice len 20 buf))
    with (lookup_typed (if S_ISDIR mode then OTree else OBlob) st (slice len 20 buf)) by (by destruct (S_ISDIR mode)).
  rewrite Er, bind_Ret. cbv beta iota. rewrite Ea, bind_Ret, Eg, bind_Ret, Ebo.
  set (st3 := set st2 item _) in *. pose proof Hg as (Hok3&_&Hlen3).
  assert (Hd' : drop (size - (len + 20)) (drop (len + 20) buf) = drop size buf) by (rewrite drop_drop; f_equal; lia).
  destruct (IH st3 _ (size - (len + 20))%nat (drop (len + 20) buf) Hok3 Hb3) as (r'&st'&E'&Hr'&Hg').
  - rewrite <- Hd' in Hd. rewrite <- (take_drop (size - (len + 20)) (drop (len + 20) buf)). apply elem_of_app. by right.
  - by rewrite Hd'.
  - lia.
  - rewrite length_drop. lia.
  - lia.
  - exists r', st'. split; [done|]. split; [done|]. apply (grows_le (1 + (size - (len + 20)))); [lia|]. by eapply grows_trans.
Qed.

Lemma slice_more off n (l r : bytes) : (off + n <= length l)%nat -> slice off n (l ++ r) = slice off n l.
Proof. intros Hl. unfold slice. rewrite drop_app_le by lia. apply take_app_le. rewrite length_drop. lia. Qed.

(** Without one the result is the same, or a string is read past the end. *)
Lemma parse_tree_entries_more fuel st item size buf r : (size <= length buf)%nat ->
  parse_tree_entries fuel st item size buf = Ub \/
  parse_tree_entries fuel st item size buf = parse_tree_entries fuel st item size (buf ++ r).
Proof.
  revert st size buf; induction fuel as [|fuel IH]; intros st size buf Hl; [by left|]. cbn [parse_tree_entries].
  destruct (size =? 0)%nat; [by right|]. destruct (decide (0 ∈ buf)) as [H0|H0]; [|left; by rewrite strlen_mem_none].
  rewrite !strlen_mem_nul, !bind_Ret, cstr_more, strchr_more by (done || (apply elem_of_app; by left)). cbv zeta.
  destruct (strchr buf 32) as [k|] eqn:Ek; [|by right]. destruct (sscanf_o (cstr buf)) as [mode|]; [|by right].
  destruct (Nat.ltb_spec size (1 + length (cstr buf) + 20)); [by right|].
  rewrite (slice_more (1 + length (cstr buf)) 20 buf r) by lia.
  assert (Hk : (k + 1 <= length buf)%nat).
  { pose proof (strchr_mem_nul buf 32 H0) as E. rewrite Ek in E. apply strchr_mem_lt in E. lia. }
  rewrite (drop_app_le buf r (k + 1)), (cstr_more (drop (k + 1) buf)) by (done || by apply (strchr_nul_behind buf 32)).
  rewrite (drop_app_le buf r (1 + length (cstr buf) + 20)) by lia.
  destruct (if S_ISDIR mode then _ else _) as [[obj st1]| |]; cbn [mbind outcome_bind]; [|by right..].
  destruct (add_ref_opt st1 item obj) as [st2| |]; cbn [mbind outcome_bind]; [|by right..].
  destruct (get st2 item) as [o| |]; cbn [mbind outcome_bind]; [|by right..]. destruct (o_body o); try by right.
  apply IH. rewrite length_drop. lia.
Qed.

Lemma parse_tree_buffer_ok st item buf :
  objects_ok st -> typed st OTree item -> Z.of_nat (length (heap st) + length buf) < 2 ^ 28 ->
  exists r st', parse_tree_buffer true st item buf = Ret (r, st') /\ (r = 0 \/ r = -1) /\ grows (length buf) st st'.
Proof.
  intros Hok Ht Hsmall. destruct (typed_body st OTree item Hok Ht) as (o&Ho&_&Hbt). destruct (o_body o) as [|es| |] eqn:Hbo; try done.
  unfold parse_tree_buffer, get. rewrite Ho, bind_Ret. destruct (o_parsed o).
  { exists 0, st. split; [done|]. split; [by left|]. apply (grows_le 0); [lia|]. by apply grows_refl. }
  destruct (set_parsed_grows st item o (Tree es) Hok Ho Hbo) as (Hg1&Hlen1&Hb1).
  destruct (parse_tree_entries_ok (S (length buf)) (set st item (set_parsed o)) item es (length buf) (buf ++ nul_byte true)) as (r&st'&E&Hr&Hg);
    [apply Hg1|done|apply elem_of_app; right; by left|rewrite drop_app_length; by left|lia|rewrite length_app; cbn; lia|lia|].
  exists r, st'. split; [done|]. split; [done|]. by apply (grows_trans 0 (length buf) st (set st item (set_parsed o))).
Qed.

Lemma parse_tree_buffer_unended st item buf :
  parse_tree_buffer false st item buf = Ub \/ parse_tree_buffer false st item buf = parse_tree_buffer true st item buf.
Proof.
  unfold parse_tree_buffer. destruct (get st item) as [o| |]; cbn [mbind outcome_bind]; [|by right..]. destruct (o_parsed o); [by right|].
  cbn [nul_byte]. rewrite app_nil_r. by apply parse_tree_entries_more.
Qed.

(** ** Tags *)

Lemma lookup_object_type_ok st sha1 type :
  objects_ok st -> length sha1 = 20%nat -> Z.of_nat (length (heap st)) < 2 ^ 28 ->
  exists r st', lookup_object_type st sha1 type = Ret (r, st') /\ grows 1 st st' /\ heap st `prefix_of` heap st' /\
    forall p, r = Some p -> (p < length (heap st'))%nat.
Proof.
  intros Hok Hl Hsmall. unfold lookup_object_type.
  assert (Hlu : forall t, exists r st', lookup_typed t st sha1 = Ret (r, st') /\ grows 1 st st' /\ heap st `prefix_of` heap st' /\
    forall p, r = Some p -> (p < length (heap st'))%nat).
  { intros t. destruct (lookup_typed_ok t st sha1 Hok Hl Hsmall) as (r&st'&E&Hlu). exists r, st'. split; [done|].
    split; [by eapply looked_up_grows|]. split; [by apply Hlu|]. intros p ->. by eapply typed_lt, looked_up_typed. }
  repeat case_bool_decide; try apply Hlu. exists None, st. split; [done|]. split; [apply (grows_le 0); [lia|by apply grows_refl]|]. done.
Qed.

Lemma parse_tag_buffer_ok st item buf :
  objects_ok st -> typed st OTag item -> Z.of_nat (length (heap st)) < 2 ^ 28 ->
  exists r st', parse_tag_buffer true st item buf = Ret (r, st') /\ (r = 0 \/ r = -1) /\ grows 1 st st'.
Proof.
  intros Hok Ht Hsmall. destruct (typed_body st OTag item Hok Ht) as (o&Ho&_&Hbt). destruct (o_body o) as [| | |tg] eqn:Hbo; try done.
  assert (Hb0 : body_at st item (Tag tg)) by (by exists o).
  unfold parse_tag_buffer. rewrite (get_lookup _ _ _ Ho), bind_Ret. destruct (o_parsed o).
  { exists 0, st. split; [done|]. split; [by left|]. apply (grows_le 0); [lia|]. by apply grows_refl. }
  destruct (set_parsed_grows st item o (Tag tg) Hok Ho Hbo) as (Hg1&Hlen1&Hb1). set (st1 := set st item (set_parsed o)) in *.
  pose proof Hg1 as (Hok1&_&_).
  assert (Hbad : exists r st', Ret (-1, st1) = Ret (r, st') /\ (r = 0 \/ r = -1) /\ grows 1 st st').
  { exists (-1), st1. split; [done|]. split; [by right|]. by apply (grows_le 0); [lia|]. }
  destruct (Nat.ltb_spec (length buf) 64) as [Hlt|Hge]; [done|]. destruct (_ =? 0); cbn [negb]; [|done].
  cbn [nul_byte]. assert (H0 : 0 ∈ drop 48 (buf ++ [0])).
  { rewrite drop_app_le by lia. apply elem_of_app. right. by left. }
  destruct (get_sha1_hex_total (drop 7 (buf ++ [0]))) as (bad&obj&->&Hobj); [rewrite length_drop, length_app; simpl; lia|].
  rewrite bind_Ret. destruct (Z.eqb_spec bad 0) as [Ebad|]; cbn [negb]; [|done]. specialize (Hobj Ebad).
  destruct (_ =? 0); cbn [negb]; [|done]. rewrite (strchr_mem_nul (drop 48 (buf ++ [0])) 10 H0), bind_Ret.
  destruct (strchr _ 10) as [tl|] eqn:Etl; [|done]. pose proof (strchr_nul_behind _ 10 tl ltac:(done) H0 Etl) as H1.
  rewrite memcmp_mem_nul, bind_Ret by (apply (bool_decide_unpack _); vm_compute; exact I) || done.
  destruct (_ =? 0); cbn [negb]; [|done]. rewrite (strchr_mem_nul (drop (tl + 1) (drop 48 (buf ++ [0]))) 10 H1), bind_Ret.
  destruct (strchr (drop (tl + 1) _) 10) as [sl|]; [|done]. cbv zeta. destruct (20 <=? _)%nat; [done|]. clear Hbad.
  match goal with |- context [lookup_object_type st1 obj ?type] =>
    destruct (lookup_object_type_ok st1 obj type Hok1 Hobj) as (r&st2&->&Hg2&Hpre&Hr) end; [unfold st1; by rewrite set_length|].
  rewrite bind_Ret. cbv beta iota. destruct Hb1 as (o1&Ho1&Hbo1). pose proof (prefix_lookup_Some _ _ _ _ Ho1 Hpre) as Ho2.
  rewrite (get_lookup _ _ _ Ho2), bind_Ret, Hbo1. pose proof Hg2 as (Hok2&_&_).
  match goal with |- context [set_tag ?name r] =>
    destruct (set_body_ok st2 item o1 (Tag (set_tag name r)) Hok2 Ho2) as [Hok3 He3]; [by rewrite Hbo1|exact Hr|];
    set (st3 := set st2 item (set_body o1 (Tag (set_tag name r)))) in * end.
  destruct (add_ref_opt_ok st3 item r Hok3) as (st4&->&Ht4).
  { unfold st3. rewrite set_length. by eapply lookup_lt_Some. }
  { intros p Hp. unfold st3. rewrite set_length. by apply Hr. }
  rewrite bind_Ret. exists 0, st4. split; [done|]. split; [by left|].
  apply (grows_trans 0 1 st st1); [done|]. apply (grows_trans 1 0 st1 st2); [done|]. apply (grows_trans 0 0 st2 st3); [|by apply touched_grows].
  split; [done|]. split; [done|]. unfold st3. rewrite set_length. lia.
Qed.

(** What is read of the buffer of a tag, and of one with a NUL behind it. *)
Lemma get_sha1_hex_loop_more n hex r acc : (2 * n <= length hex)%nat ->
  get_sha1_hex_loop n (hex ++ r) acc = get_sha1_hex_loop n hex acc.
Proof.
  revert hex acc; induction n as [|n IH]; intros hex acc Hl; [done|]. destruct hex as [|a [|b hex]]; cbn in Hl; [lia|lia|].
  cbn [get_sha1_hex_loop app]. by rewrite IH by lia.
Qed.

Lemma get_sha1_hex_more hex r : (40 <= length hex)%nat -> get_sha1_hex (hex ++ r) = get_sha1_hex hex.
Proof. intros Hl. apply get_sha1_hex_loop_more. lia. Qed.

Lemma memcmp_nul_behind n a b : memcmp n a (b ++ [0]) = memcmp n a b.
Proof. revert a b; induction n as [|n IH]; intros a b; [done|]. destruct b as [|y b]; cbn; [done|]. by rewrite IH. Qed.

Lemma take_drop_more off n (l r : bytes) : (off + n <= length l)%nat \/ n = O -> take n (drop off (l ++ r)) = take n (drop off l).
Proof. intros [Hl| ->]; [by apply slice_more|done]. Qed.

Lemma parse_tag_buffer_unended st item buf :
  parse_tag_buffer false st item buf = Ub \/ parse_tag_buffer false st item buf = parse_tag_buffer true st item buf.
Proof.
  unfold parse_tag_buffer. destruct (get st item) as [o| |]; cbn [mbind outcome_bind]; [|by right..]. destruct (o_parsed o); [by right|].
  cbn [nul_byte]. rewrite app_nil_r. destruct (Nat.ltb_spec (length buf) 64); [by right|].
  rewrite memcmp_nul_behind. destruct (negb (memcmp 7 _ _ =? 0)); [by right|].
  rewrite (drop_app_le buf [0] 7), get_sha1_hex_more by (rewrite ?length_drop; lia).
  destruct (get_sha1_hex (drop 7 buf)) as [[bad obj]| |]; cbn [mbind outcome_bind]; [|by right..]. destruct (negb (bad =? 0)); [by right|].
  rewrite (drop_app_le buf [0] 47), memcmp_nul_behind by lia. destruct (negb (memcmp 6 _ _ =? 0)); [by right|].
  rewrite (drop_app_le buf [0] 48) by lia. set (type_line := drop 48 buf).
  destruct (strchr_mem_more type_line [0] 10) as [-> | ->]; [by left|].
  destruct (strchr_mem type_line 10) as [[tl|]| |] eqn:Etl; cbn [mbind outcome_bind]; [|by right..]. apply strchr_mem_lt in Etl.
  rewrite (drop_app_le type_line [0] (tl + 1)) by lia. set (tag_line := drop (tl + 1) type_line).
  destruct (memcmp_mem_more (str "tag ") tag_line [0]) as [-> | ->]; [by left|].
  destruct (memcmp_mem (str "tag ") tag_line) as [c| |]; cbn [mbind outcome_bind]; [|by right..]. destruct (negb (c =? 0)); [by right|].
  destruct (strchr_mem_more tag_line [0] 10) as [-> | ->]; [by left|].
  destruct (strchr_mem tag_line 10) as [[sl|]| |] eqn:Esl; cbn [mbind outcome_bind]; [|by right..]. apply strchr_mem_lt in Esl.
  right. rewrite (take_drop_more 5 (tl + 1 - 6) type_line [0]), (take_drop_more 4 (sl + 1 - 5) tag_line [0]) by lia. done.
Qed.

Lemma parse_blob_buffer_ok st item :
  objects_ok st -> typed st OBlob item -> exists st', parse_blob_buffer st item = Ret (0, st') /\ grows 0 st st'.
Proof.
  intros Hok (o&Ho&_). unfold parse_blob_buffer, get. rewrite Ho, bind_Ret. eexists. split; [done|].
  destruct (set_parsed_ok st item o Hok Ho) as [Hok1 He1]. split; [done|]. split; [done|]. rewrite set_length. lia.
Qed.


(** ** Commits *)

Definition parent_line (sha1 : bytes) : bytes := str "parent " ++ sha1_to_hex sha1 ++ [10].

(** The text of a commit: [who] ends before ['>'], [rest] is what follows the
    date. *)
Definition commit_text (tree : bytes) (ps : list bytes) (author who : bytes) (date : Z) (rest : bytes) : bytes :=
  str "tree " ++ sha1_to_hex tree ++ [10] ++ concat (map parent_line ps) ++
  str "author " ++ author ++ [10] ++ str "committer " ++ who ++ str "> " ++ numeral 10 date ++ [32] ++ rest.

(** The name is not that of an object of another type. *)
Definition free_for (t : otype) (st : objects) (sha1 : bytes) : Prop :=
  forall p t', lookup_object st sha1 = Some p -> typed st t' p -> t' = t.

Lemma free_for_extends t st st' s :
  objects_ok st -> objects_ok st' -> extends st st' -> length s = 20%nat -> free_for t st s ->
  (forall q o, heap st' !! q = Some o -> (length (heap st) <= q)%nat -> o_sha1 o = s -> o_type o = Some t) -> free_for t st' s.
Proof.
  intros Hok Hok' He Hl Hfree Hnew p t' Hp (o&Ho&Ht). apply (lookup_object_iff st' Hok') in Hp as (o'&Ho'&Hs); [|done].
  rewrite Ho in Ho'. injection Ho' as <-. destruct (decide (p < length (heap st))%nat) as [Hlt|Hge].
  - destruct (lookup_lt_is_Some_2 _ _ Hlt) as [o0 Ho0]. destruct (He p o0 Ho0) as (o1&Ho1&E1&E2&_).
    rewrite Ho in Ho1. injection Ho1 as <-. apply (Hfree p).
    + apply (lookup_object_iff st Hok); [done|]. exists o0. split; congruence.
    + exists o0. split; congruence.
  - specialize (Hnew p o Ho ltac:(lia) Hs). congruence.
Qed.

Lemma looked_up_free t st sha1 r st' :
  free_for t st sha1 -> looked_up t st sha1 r st' -> exists p, r = Some p /\ typed st' t p /\ obj_sha1 st' p = sha1.
Proof.
  intros Hfree (_&_&_&Hr). destruct r as [p|]; [|exfalso; destruct Hr as (_&p&t'&Hp&Ht&Hne); by apply Hne, (Hfree p)].
  exists p. by destruct Hr as (?&?&_).
Qed.

Lemma with_commit_ok st item c f :
  objects_ok st -> body_at st item (Commit c) -> body_ok st (Commit (f c)) ->
  exists st', with_commit st item f = Ret st' /\ grows 0 st st' /\ length (heap st') = length (heap st) /\ body_at st' item (Commit (f c)).
Proof.
  intros Hok (o&Ho&Hb) Hbok. unfold with_commit. rewrite (get_lookup _ _ _ Ho), bind_Ret, Hb. eexists. split; [done|].
  destruct (set_body_ok st item o (Commit (f c)) Hok Ho) as [Hok' He]; [by rewrite Hb|done|].
  split; [split; [done|]; split; [done|]; rewrite set_length; lia|]. split; [apply set_length|].
  apply set_body_at. by eapply lookup_lt_Some.
Qed.

(** *** What parsing a commit leaves alone

    Every object keeps its name, type and flags; only [item] gets another body
    or becomes parsed; new objects are unparsed and without flags, of the types
    and names in [N]. *)
Definition kept (item q : nat) (o o' : object) : Prop :=
  o_sha1 o' = o_sha1 o /\ o_type o' = o_type o /\ o_flags o' = o_flags o /\ (o_parsed o = true -> o_parsed o' = true) /\
  (q <> item -> o_parsed o' = o_parsed o /\ o_body o' = o_body o).

Definition unknown (N : otype -> bytes -> Prop) (o : object) : Prop :=
  o_flags o = 0 /\ o_parsed o = false /\ exists t, o_type o = Some t /\ o_body o = fresh_body t /\ N t (o_sha1 o).

Definition frame (item : nat) (N : otype -> bytes -> Prop) (st st' : objects) : Prop :=
  (forall q o, heap st !! q = Some o -> exists o', heap st' !! q = Some o' /\ kept item q o o') /\
  (forall q o, heap st' !! q = Some o -> (length (heap st) <= q)%nat -> unknown N o).

Lemma kept_refl item q o : kept item q o o.
Proof. by repeat split. Qed.

Lemma kept_trans item q a b c : kept item q a b -> kept item q b c -> kept item q a c.
Proof.
  intros (A1&A2&A3&A4&A5) (B1&B2&B3&B4&B5). split_and!; try congruence; [auto|].
  intros Hne. destruct (A5 Hne), (B5 Hne). split; congruence.
Qed.

Lemma frame_refl item N st : frame item N st st.
Proof.
  split; [intros q o Hq; exists o; split; [done|apply kept_refl]|]. intros q o Hq Hge. apply lookup_lt_Some in Hq. lia.
Qed.

Lemma frame_trans item N a b c : (item < length (heap a))%nat -> frame item N a b -> frame item N b c -> frame item N a c.
Proof.
  intros Hi [A1 A2] [B1 B2]. split.
  - intros q o Hq. destruct (A1 q o Hq) as (o1&Hq1&H1). destruct (B1 q o1 Hq1) as (o2&Hq2&H2). exists o2. split; [done|].
    by eapply kept_trans.
  - intros q o Hq Hge. destruct (decide (q < length (heap b))%nat) as [Hlt|Hnlt]; [|by apply (B2 q); [|lia]].
    destruct (lookup_lt_is_Some_2 _ _ Hlt) as [o1 Hq1]. destruct (A2 q o1 Hq1 Hge) as (F&P&t&T&B&HN).
    destruct (B1 q o1 Hq1) as (o2&Hq2&K1&K2&K3&_&K5). rewrite Hq in Hq2. injection Hq2 as <-. destruct K5 as [K5 K6]; [lia|].
    split; [congruence|]. split; [congruence|]. exists t. split_and!; congruence.
Qed.

Lemma frame_weaken item (N N' : otype -> bytes -> Prop) st st' : (forall t s, N t s -> N' t s) -> frame item N st st' -> frame item N' st st'.
Proof. intros HN [A B]. split; [done|]. intros q o Hq Hge. destruct (B q o Hq Hge) as (?&?&t&?&?&?). split_and!; [done..|]. exists t. auto. Qed.

Lemma frame_length item N st st' : frame item N st st' -> (length (heap st) <= length (heap st'))%nat.
Proof.
  intros [A _]. destruct (length (heap st)) as [|n] eqn:E; [lia|]. destruct (lookup_lt_is_Some_2 (heap st) n) as [o Ho]; [lia|].
  destruct (A n o Ho) as (o'&Ho'&_). apply lookup_lt_Some in Ho'. lia.
Qed.

Lemma set_frame item N st q o o' :
  heap st !! q = Some o -> kept item q o o' -> frame item N st (set st q o').
Proof.
  intros Hq Hk. pose proof (lookup_lt_Some _ _ _ Hq) as Hlt. split.
  - intros x ox Hx. rewrite set_lookup by done. destruct (decide (x = q)) as [->|]; [|exists ox; split; [done|apply kept_refl]].
    rewrite Hq in Hx. injection Hx as <-. by exists o'.
  - intros x ox Hx Hge. apply lookup_lt_Some in Hx. rewrite set_length in Hx. lia.
Qed.

Lemma lookup_typed_frame item t st sha1 r st' :
  objects_ok st -> length sha1 = 20%nat -> lookup_typed t st sha1 = Ret (r, st') -> frame item (fun t' s => t' = t /\ s = sha1) st st'.
Proof.
  intros Hok Hl. unfold lookup_typed. destruct (lookup_object st sha1) as [p|].
  - intros (o&Ho&E)%bind_Ret_inv. unfold get in Ho. destruct (heap st !! p) as [o'|] eqn:Hp; [|done]. injection Ho as <-.
    rewrite (wf_type st o' (ok_objs st Hok p o' Hp)) in E. injection E as _ <-. apply frame_refl.
  - intros ([p st1]&Hc&E)%bind_Ret_inv. unfold created_object in Hc. cbv zeta in Hc.
    destruct (0 <=? _); [done|]. destruct (_ <=? nr_objs st); [done|]. injection Hc as <- <-. unfold get in E. cbn [heap] in E.
    rewrite lookup_app_r, Nat.sub_diag in E by lia. cbn [lookup list_lookup] in E. rewrite bind_Ret in E. injection E as _ <-.
    split; unfold set; cbn [heap].
    + intros q o Hq. exists o. rewrite list_lookup_insert_ne by (apply lookup_lt_Some in Hq; lia).
      split; [by apply lookup_app_l_Some|apply kept_refl].
    + intros q o Hq Hge. assert (q = length (heap st)) as ->.
      { apply lookup_lt_Some in Hq. rewrite length_insert, length_app in Hq. cbn in Hq. lia. }
      rewrite list_lookup_insert_eq in Hq by (rewrite length_app; cbn; lia). injection Hq as <-.
      split; [done|]. split; [done|]. exists t. split_and!; try done. cbn. by rewrite take_ge by lia.
Qed.

Lemma with_commit_frame item N st f st' : with_commit st item f = Ret st' -> frame item N st st'.
Proof.
  unfold with_commit. intros (o&Ho&E)%bind_Ret_inv. unfold get in Ho. destruct (heap st !! item) as [o'|] eqn:Hp; [|done]. injection Ho as ->.
  destruct (o_body o); try done. injection E as <-. apply (set_frame _ _ _ _ o); [done|]. by repeat split.
Qed.

Lemma add_ref_frame item N st a b st' : (item < length (heap st))%nat -> add_ref st a b = Ret st' -> frame item N st st'.
Proof.
  intros Hi. unfold add_ref. intros (o&Ho&E)%bind_Ret_inv. case_bool_decide; [injection E as <-; apply frame_refl|].
  apply bind_Ret_inv in E as (ob&Hob&E). apply bind_Ret_inv in E as (o1&Ho1&E). injection E as <-.
  unfold get in Hob, Ho1. destruct (heap st !! b) as [ob'|] eqn:Hb; [|done]. injection Hob as ->.
  destruct (heap (set st b (set_used ob)) !! a) as [o1'|] eqn:Ha; [|done]. injection Ho1 as ->.
  apply (frame_trans _ _ _ (set st b (set_used ob))); [done|apply (set_frame _ _ _ _ ob); [done|by repeat split]|].
  apply (set_frame _ _ _ _ o1); [done|by repeat split].
Qed.

(** Looking up a tree or parent, entering it into the commit with [f] and
    adding the reference. *)
Lemma link_object t (f : nat -> commit -> commit) st item c s :
  (forall st p, body_ok st (Commit c) -> typed st t p -> body_ok st (Commit (f p c))) ->
  objects_ok st -> body_at st item (Commit c) -> length s = 20%nat -> Z.of_nat (length (heap st)) < 2 ^ 28 -> free_for t st s ->
  exists p st1 st2 st3, lookup_typed t st s = Ret (Some p, st1) /\ with_commit st1 item (f p) = Ret st2 /\
    add_ref st2 item p = Ret st3 /\ grows 1 st st3 /\ body_at st3 item (Commit (f p c)) /\
    typed st3 t p /\ obj_sha1 st3 p = s /\ frame item (fun t' s' => t' = t /\ s' = s) st st3 /\
    forall t' s', length s' = 20%nat -> (s' = s -> t' = t) -> free_for t' st s' -> free_for t' st3 s'.
Proof.
  intros Hf Hok Hb Hl Hsmall Hfree. destruct (lookup_typed_ok t st s Hok Hl Hsmall) as (r&st1&Er&Hlu).
  destruct (looked_up_free _ _ _ _ _ Hfree Hlu) as (p&->&Htp&Hsp). pose proof (looked_up_grows _ _ _ _ _ Hlu) as Hg1. pose proof Hg1 as (Hok1&He1&_).
  pose proof (looked_up_body _ _ _ _ _ _ _ Hlu Hb) as Hb1. pose proof Hb1 as (o1&Ho1&Ebo1).
  destruct (with_commit_ok st1 item c (f p) Hok1 Hb1) as (st2&E2&Hg2&Hlen2&Hb2).
  { apply Hf; [|done]. rewrite <- Ebo1. apply (wf_body _ _ (ok_objs st1 Hok1 item o1 Ho1)). }
  pose proof Hg2 as (Hok2&He2&_).
  destruct (add_ref_ok st2 item p Hok2) as (st3&E3&Ht3); [by eapply body_at_lt|rewrite Hlen2; by eapply typed_lt|].
  pose proof (touched_grows _ _ Ht3) as Hg3. pose proof Hg3 as (Hok3&He3&_). assert (He13 : extends st1 st3) by (by etrans).
  exists p, st1, st2, st3. split_and!; try done.
  - apply (grows_trans 1 0 st st1); [done|]. by apply (grows_trans 0 0 st1 st2).
  - by apply (touched_body st2).
  - by apply (extends_typed st1).
  - rewrite <- Hsp. apply extends_sha1; [done|by eapply typed_lt].
  - pose proof (lookup_typed_frame item _ _ _ _ _ Hok Hl Er) as F1. pose proof (body_at_lt _ _ _ Hb) as Hi.
    apply (frame_trans _ _ _ st1); [done|done|]. apply frame_length in F1 as L1.
    apply (frame_trans _ _ _ st2); [lia|by eapply with_commit_frame|]. apply (add_ref_frame _ _ _ item p); [lia|done].
  - intros t' s' Hl' Hsame Hf'. apply (free_for_extends t' st); try done; [by etrans|]. intros q o Hq Hge Es.
    destruct Ht3 as (_&Hlen3&_). assert (Hq1 : (q < length (heap st1))%nat) by (apply lookup_lt_Some in Hq; lia).
    destruct (lookup_lt_is_Some_2 _ _ Hq1) as [oq Hoq]. destruct (looked_up_new _ _ _ _ _ _ _ Hok Hl Hlu Hoq Hge) as [Esh Ht].
    destruct (He13 q oq Hoq) as (o'&Ho'&Es'&Et&_). rewrite Hq in Ho'. injection Ho' as <-. rewrite Et, Ht. f_equal. symmetry. apply Hsame. congruence.
Qed.

Lemma add_parent_body c st p : body_ok st (Commit c) -> typed st OCommit p -> body_ok st (Commit (add_parent p c)).
Proof. intros [Hps Ht] Hp. split; [|done]. apply Forall_app. split; [done|]. by constructor. Qed.

Lemma set_tree_body c st p : body_ok st (Commit c) -> typed st OTree p -> body_ok st (Commit (set_tree (Some p) c)).
Proof. intros [Hps _] Hp. split; [done|]. by intros q [= <-]. Qed.

Lemma memcmp_same n (l r : bytes) : n = length l -> memcmp n (l ++ r) l = 0.
Proof. intros ->. apply memcmp_eq; [rewrite length_app; lia|lia|]. by rewrite take_app_length, take_ge by lia. Qed.

Lemma parse_parents_ok ps : forall fuel st item c rest,
  objects_ok st -> body_at st item (Commit c) -> Forall sha1_ok ps -> Forall (free_for OCommit st) ps ->
  Z.of_nat (length (heap st) + length ps) < 2 ^ 28 -> (length ps < fuel)%nat ->
  (exists v, memcmp_mem (str "parent ") rest = Ret v /\ v <> 0) ->
  exists st' new, parse_parents fuel st item (concat (map parent_line ps) ++ rest) = Ret (rest, st') /\
    grows (length ps) st st' /\ frame item (fun t s => t = OCommit /\ s ∈ ps) st st' /\
    body_at st' item (Commit {| date := date c; parents := parents c ++ new; tree := tree c; buffer := buffer c |}) /\
    Forall2 (fun s p => typed st' OCommit p /\ obj_sha1 st' p = s) ps new.
Proof.
  induction ps as [|s ps IH]; intros [|fuel] st item c rest Hok Hb Hps Hfree Hsmall Hfuel Hrest; try (simpl in Hfuel; lia).
  - cbn [map concat app parse_parents length]. destruct Hrest as (v&->&Hv). rewrite bind_Ret.
    destruct (Z.eqb_spec v 0); [done|]. cbn [negb]. exists st, []. split; [done|].
    split; [by apply grows_refl|]. split; [apply frame_refl|]. rewrite app_nil_r. split; [by destruct c|constructor].
  - apply Forall_cons in Hps as [[Hl Hby] Hps], Hfree as [Hf Hfree]. cbn [map concat].
    assert (E : (parent_line s ++ concat (map parent_line ps)) ++ rest =
      str "parent " ++ sha1_to_hex s ++ 10 :: (concat (map parent_line ps) ++ rest)).
    { unfold parent_line. by rewrite <- !app_assoc. }
    rewrite E. cbn [parse_parents]. rewrite memcmp_mem_starts, bind_Ret. cbn [Z.eqb negb]. rewrite (drop_app_length' (str "parent ") _ 7) by done.
    rewrite get_sha1_hex_roundtrip by done. rewrite bind_Ret. cbn [Z.eqb negb].
    unfold lookup_commit. destruct (link_object OCommit add_parent st item c s (add_parent_body c) Hok Hb Hl ltac:(lia) Hf) as (p&st1&st2&st3&->&E2&E3&Hg3&Hb3&Htp&Hsp&Hfr&Hkeep).
    rewrite bind_Ret. cbv beta iota. rewrite E2, bind_Ret, E3, bind_Ret.
    replace (drop 48 (str "parent " ++ sha1_to_hex s ++ 10 :: (concat (map parent_line ps) ++ rest))) with (concat (map parent_line ps) ++ rest).
    2:{ replace (str "parent " ++ sha1_to_hex s ++ 10 :: (concat (map parent_line ps) ++ rest))
          with ((str "parent " ++ sha1_to_hex s ++ [10]) ++ concat (map parent_line ps) ++ rest) by (by rewrite <- !app_assoc).
        rewrite drop_app_length'; [done|]. rewrite !length_app, length_sha1_to_hex by done. done. }
    pose proof Hg3 as (Hok3&_&Hlen3).
    destruct (IH fuel st3 item (add_parent p c) rest Hok3 Hb3 Hps) as (st'&new&E'&Hg'&Hfr'&Hb'&Hnew); try done.
    + apply Forall_forall. intros s' Hs'. rewrite Forall_forall in Hfree, Hps. apply Hkeep; [by apply Hps|done|by apply Hfree].
    + simpl in Hsmall. lia.
    + simpl in Hfuel. lia.
    + exists st', (p :: new). split; [done|]. split; [by apply (grows_trans 1 (length ps) st st3)|]. split.
      { apply (frame_trans _ _ _ st3); [by eapply body_at_lt| |].
        - eapply frame_weaken; [|exact Hfr]. intros t' s' [-> ->]. split; [done|by left].
        - eapply frame_weaken; [|exact Hfr']. intros t' s' [-> ?]. split; [done|by right]. }
      cbn [date parents tree buffer add_parent] in Hb'. rewrite <- app_assoc in Hb'. split; [done|]. constructor; [|done].
      destruct Hg' as (_&He'&_). split; [by apply (extends_typed st3)|]. rewrite <- Hsp. apply extends_sha1; [done|by eapply typed_lt].
Qed.

(** The date behind the parents. *)
Lemma after_app c l r : c ∉ l -> after c (l ++ c :: r) = Ret r.
Proof.
  induction l as [|x l IH]; intros Hc; cbn [app after]; [by rewrite Z.eqb_refl|]. apply not_elem_of_cons in Hc as [Hc ?].
  destruct (Z.eqb_spec x c); [congruence|]. by apply IH.
Qed.

Lemma parse_commit_date_ok author who d rest :
  10 ∉ author -> 62 ∉ who -> 0 <= d < 2 ^ 64 - 1 ->
  parse_commit_date (str "author " ++ author ++ [10] ++ str "committer " ++ who ++ str "> " ++ numeral 10 d ++ [32] ++ rest) = Ret d.
Proof.
  intros Ha Hw Hd. unfold parse_commit_date. change (str "author ") with (str "author" ++ [32]).
  rewrite <- app_assoc, memcmp_mem_starts, bind_Ret. cbn [Z.eqb negb].
  replace (str "author" ++ [32] ++ author ++ [10] ++ str "committer " ++ who ++ str "> " ++ numeral 10 d ++ [32] ++ rest)
    with ((str "author " ++ author) ++ 10 :: (str "committer " ++ who ++ str "> " ++ numeral 10 d ++ [32] ++ rest))
    by (by rewrite <- !app_assoc).
  rewrite after_app. 2:{ apply not_elem_of_app. split; [apply not_elem_check; reflexivity|done]. }
  rewrite bind_Ret. change (str "committer ") with (str "committer" ++ [32]). rewrite <- app_assoc, memcmp_mem_starts, bind_Ret. cbn [Z.eqb negb].
  replace (str "committer" ++ [32] ++ who ++ str "> " ++ numeral 10 d ++ [32] ++ rest)
    with ((str "committer " ++ who) ++ 62 :: (32 :: numeral 10 d ++ 32 :: rest)) by (by rewrite <- !app_assoc).
  rewrite after_app. 2:{ apply not_elem_of_app. split; [apply not_elem_check; reflexivity|done]. }
  rewrite bind_Ret. replace (strtoul_mem 10 (32 :: numeral 10 d ++ 32 :: rest)) with (Ret d).
  - rewrite bind_Ret. destruct (Z.eqb_spec d (2 ^ 64 - 1)); [lia|done].
  - symmetry. destruct (numeral_spec 10 ltac:(lia) d ltac:(lia)) as [_ (HF&Hne&_)].
    pose proof (strtoul_numeral 10 d 32 rest ltac:(lia) ltac:(lia) eq_refl) as E. unfold strtoul_mem, strtoul in *.
    change (skip_spaces (32 :: numeral 10 d ++ 32 :: rest)) with (skip_spaces (numeral 10 d ++ 32 :: rest)).
    destruct (scan_digits 10 (numeral 10 d) (32 :: rest) ltac:(lia) HF Hne) as [Es Esg]. rewrite Es, Esg in *. cbn [snd].
    rewrite span_digits_app in * by done. destruct (numeral 10 d) as [|x ds]; [done|]. cbn [fst]. by injection E as ->.
Qed.

(** The same, for the walks through history. *)
Lemma parse_commit_buffer_exact (nul : bool) (st : objects) (item : nat) (o : object) (c : commit) (tree_sha1 : bytes) (ps : list bytes)
    (author who : bytes) (d : Z) (rest : bytes) :
  objects_ok st -> heap st !! item = Some o -> o_body o = Commit c -> o_parsed o = false ->
  sha1_ok tree_sha1 -> free_for OTree st tree_sha1 -> Forall sha1_ok ps -> Forall (free_for OCommit st) ps -> tree_sha1 ∉ ps ->
  Z.of_nat (length (heap st) + length ps) + 1 < 2 ^ 28 -> 10 ∉ author -> 62 ∉ who -> 0 <= d < 2 ^ 64 - 1 ->
  exists st' t new, parse_commit_buffer nul st item (commit_text tree_sha1 ps author who d rest) = Ret (0, st') /\
    grows (1 + length ps) st st' /\
    body_at st' item (Commit {| date := d; parents := parents c ++ new; tree := Some t; buffer := buffer c |}) /\
    typed st' OTree t /\ obj_sha1 st' t = tree_sha1 /\ Forall2 (fun s p => typed st' OCommit p /\ obj_sha1 st' p = s) ps new /\
    (exists o', heap st' !! item = Some o' /\ o_parsed o' = true) /\
    frame item (fun t s => t = OTree /\ s = tree_sha1 \/ t = OCommit /\ s ∈ ps) st st'.
Proof.
  intros Hok Ho Hbo Hunp [Htl Htb] Hft Hps Hfp Hnt Hsmall Ha Hw Hd. unfold parse_commit_buffer.
  rewrite (get_lookup _ _ _ Ho), bind_Ret, Hunp. destruct (set_parsed_grows st item o (Commit c) Hok Ho Hbo) as (Hg1&Hlen1&Hb1).
  set (st1 := set st item (set_parsed o)) in *. pose proof Hg1 as (Hok1&He1&_).
  assert (Hkeep1 : forall t s, length s = 20%nat -> free_for t st s -> free_for t st1 s).
  { intros t s Hls Hf. apply (free_for_extends t st); try done. intros q oq Hq Hge _. apply lookup_lt_Some in Hq. lia. }
  set (tail := str "author " ++ author ++ [10] ++ str "committer " ++ who ++ str "> " ++ numeral 10 d ++ [32] ++ rest ++ nul_byte nul).
  replace (commit_text tree_sha1 ps author who d rest ++ nul_byte nul)
    with ((str "tree " ++ sha1_to_hex tree_sha1 ++ [10]) ++ concat (map parent_line ps) ++ tail)
    by (unfold commit_text, tail; by rewrite <- !app_assoc).
  replace (drop 5 _) with (sha1_to_hex tree_sha1 ++ [10] ++ concat (map parent_line ps) ++ tail)
    by (rewrite <- !app_assoc; by rewrite (drop_app_length' (str "tree ") _ 5)).
  rewrite get_sha1_hex_roundtrip by done. rewrite bind_Ret. cbn [Z.eqb negb]. unfold lookup_tree.
  destruct (link_object OTree (fun p => set_tree (Some p)) st1 item c tree_sha1 (set_tree_body c) Hok1 Hb1 Htl) as
    (t&st2&st3&st4&->&E3&E4&Hg4&Hb4&Htt&Hst&Hfr4&Hkeep); [rewrite Hlen1; lia|by apply Hkeep1|].
  rewrite bind_Ret. cbv beta iota. rewrite E3, bind_Ret. cbn [add_ref_opt]. rewrite E4, bind_Ret. pose proof Hg4 as (Hok4&He4&Hlen4).
  rewrite (drop_app_length' _ (concat (map parent_line ps) ++ tail) 46) by (rewrite !length_app, length_sha1_to_hex by done; done).
  destruct (parse_parents_ok ps (S (length (commit_text tree_sha1 ps author who d rest))) st4 item (set_tree (Some t) c) tail)
    as (st5&new&->&Hg5&Hfr5&Hb5&Hnew); try done.
  - apply Forall_forall. intros s Hs. rewrite Forall_forall in Hfp, Hps. destruct (Hps s Hs) as [Hls _].
    apply Hkeep; [done|by intros ->|by apply Hkeep1, Hfp].
  - lia.
  - unfold commit_text. rewrite !length_app.
    assert (Hlp : (length ps <= length (concat (map parent_line ps)))%nat).
    { clear. induction ps as [|s ps IH]; [done|]. cbn [map concat]. rewrite length_app. unfold parent_line at 1. rewrite !length_app. simpl. lia. }
    lia.
  - eexists. unfold tail. split; [reflexivity|discriminate].
  - rewrite bind_Ret. cbv beta iota. unfold tail. rewrite parse_commit_date_ok by done. rewrite bind_Ret.
    pose proof Hg5 as (Hok5&He5&_). pose proof Hb5 as (o5&Ho5&Ebo5). pose proof (wf_body _ _ (ok_objs st5 Hok5 item o5 Ho5)) as Hw5. rewrite Ebo5 in Hw5.
    destruct (with_commit_ok st5 item _ (set_date d) Hok5 Hb5) as (st6&E6&Hg6&_&Hb6); [exact Hw5|]. rewrite E6, bind_Ret.
    pose proof Hg6 as (_&He6&_). assert (He46 : extends st4 st6) by (by etrans).
    exists st6, t, new. split; [done|]. split.
    { apply (grows_le (0 + (1 + (length ps + 0)))); [lia|]. eapply grows_trans; [exact Hg1|]. eapply grows_trans; [exact Hg4|].
      by eapply grows_trans. }
    split; [exact Hb6|]. split; [by apply (extends_typed st4)|]. split.
    { rewrite <- Hst. apply extends_sha1; [done|by eapply typed_lt]. }
    split.
    { eapply Forall2_impl; [exact Hnew|]. intros s p [Hp Hs]. split; [by apply (extends_typed st5)|].
      rewrite <- Hs. apply extends_sha1; [done|by eapply typed_lt]. }
    pose proof (lookup_lt_Some _ _ _ Ho) as Hi. apply frame_length in Hfr4 as L4. apply frame_length in Hfr5 as L5.
    assert (Hfr : frame item (fun t s => t = OTree /\ s = tree_sha1 \/ t = OCommit /\ s ∈ ps) st1 st6).
    { apply (frame_trans _ _ _ st4); [lia|eapply frame_weaken; [|exact Hfr4]; intros t' s' [-> ->]; by left|].
      apply (frame_trans _ _ _ st5); [lia|eapply frame_weaken; [|exact Hfr5]; intros t' s' [-> ?]; by right|].
      by eapply with_commit_frame. }
    split.
    + destruct (proj1 Hfr item (set_parsed o)) as (o'&Ho'&_&_&_&Hp'&_); [by unfold st1; rewrite set_lookup, decide_True|].
      exists o'. split; [done|by apply Hp'].
    + apply (frame_trans _ _ _ st1); [done|apply (set_frame _ _ _ _ o); [done|by repeat split]|done].
Qed.

(** C34. a commit is parsed exactly: for the text of a commit in a consistent
    state where its tree and parents are not known as something else,
    [parse_commit_buffer], whether or not a NUL stands behind the buffer,
    returns 0 and the commit has that tree, exactly those
    parents in that order behind any it had, and the committer's date; tree and
    parents are objects of their types, the state stays consistent, and nothing
    else changes: no other object's contents, no flags, and the only new
    objects are those of the tree and the parents, unparsed. *)
Theorem parse_commit_buffer_spec (nul : bool) (st : objects) (item : nat) (o : object) (c : commit) (tree_sha1 : bytes) (ps : list bytes)
    (author who : bytes) (d : Z) (rest : bytes) :
  objects_ok st -> heap st !! item = Some o -> o_body o = Commit c -> o_parsed o = false ->
  sha1_ok tree_sha1 -> free_for OTree st tree_sha1 -> Forall sha1_ok ps -> Forall (free_for OCommit st) ps -> tree_sha1 ∉ ps ->
  Z.of_nat (length (heap st) + length ps) + 1 < 2 ^ 28 -> 10 ∉ author -> 62 ∉ who -> 0 <= d < 2 ^ 64 - 1 ->
  exists st' t new, parse_commit_buffer nul st item (commit_text tree_sha1 ps author who d rest) = Ret (0, st') /\
    grows (1 + length ps) st st' /\
    body_at st' item (Commit {| date := d; parents := parents c ++ new; tree := Some t; buffer := buffer c |}) /\
    typed st' OTree t /\ obj_sha1 st' t = tree_sha1 /\ Forall2 (fun s p => typed st' OCommit p /\ obj_sha1 st' p = s) ps new /\
    (exists o', heap st' !! item = Some o' /\ o_parsed o' = true) /\
    frame item (fun t s => t = OTree /\ s = tree_sha1 \/ t = OCommit /\ s ∈ ps) st st'.
Proof. apply parse_commit_buffer_exact. Qed.

(** ** Runs *)


(** The contents of a tag and of a tree that do not end their strings.  When
    they were unpacked from a delta, [strchr] and [strlen] read past the buffer;
    otherwise they find the NUL, and the objects are refused. *)
Definition endless_tag : bytes := str "object " ++ replicate 40 97 ++ 10 :: str "type " ++ replicate 20 97.
Definition endless_tree : bytes := str "100644 name".

Example delta_overread :
  (parse_typed false ObjDemo.st (ObjDemo.name 9) (str "tag") endless_tag = Ub /\
   exists st', parse_typed true ObjDemo.st (ObjDemo.name 9) (str "tag") endless_tag = Ret (Some 3%nat, st')) /\
  (parse_typed false ObjDemo.st (ObjDemo.name 9) (str "tree") endless_tree = Ub /\
   exists st', parse_typed true ObjDemo.st (ObjDemo.name 9) (str "tree") endless_tree = Ret (Some 3%nat, st')).
Proof. repeat split; try eexists; vm_compute; reflexivity. Qed.

Lemma parse_commit_buffer_spec_witness :
  exists st' t new, parse_commit_buffer false ObjDemo.st 0
      (commit_text (ObjDemo.name 4) [ObjDemo.name 3; ObjDemo.name 5] (str "A <a> 7") (str "C <c") 1121000000 (str "+0200")) = Ret (0, st') /\
    grows 3 ObjDemo.st st' /\
    body_at st' 0 (Commit {| date := 1121000000; parents := [] ++ new; tree := Some t; buffer := None |}) /\
    typed st' OTree t /\ obj_sha1 st' t = ObjDemo.name 4 /\
    Forall2 (fun s p => typed st' OCommit p /\ obj_sha1 st' p = s) [ObjDemo.name 3; ObjDemo.name 5] new /\
    (exists o', heap st' !! 0%nat = Some o' /\ o_parsed o' = true) /\
    frame 0 (fun t s => t = OTree /\ s = ObjDemo.name 4 \/ t = OCommit /\ s ∈ [ObjDemo.name 3; ObjDemo.name 5]) ObjDemo.st st'.
Proof.
  assert (Hok : forall n, 0 <= n < 256 -> sha1_ok (ObjDemo.name n)).
  { intros n Hn. split; [reflexivity|]. apply Forall_replicate. exact Hn. }
  assert (Hnone : forall t n, lookup_object ObjDemo.st (ObjDemo.name n) = None -> free_for t ObjDemo.st (ObjDemo.name n)).
  { intros t n E p t' Hp. rewrite E in Hp. discriminate. }
  apply (parse_commit_buffer_spec false ObjDemo.st 0 (ObjDemo.obj 5 OCommit [1%nat]) {| date := 0; parents := []; tree := None; buffer := None |}).
  - exact ObjDemo.st_ok.
  - reflexivity.
  - reflexivity.
  - reflexivity.
  - apply Hok. lia.
  - apply Hnone. vm_compute. reflexivity.
  - constructor; [apply Hok; lia|]. constructor; [apply Hok; lia|constructor].
  - constructor; [apply Hnone; vm_compute; reflexivity|]. constructor; [|constructor]. intros p t' Hp (o&Ho&Ht).
    assert (E : lookup_object ObjDemo.st (ObjDemo.name 5) = Some 0%nat) by (vm_compute; reflexivity). rewrite E in Hp.
    injection Hp as <-. cbn in Ho. injection Ho as <-. cbn in Ht. congruence.
  - apply (bool_decide_unpack _). vm_compute. exact I.
  - vm_compute. reflexivity.
  - apply not_elem_check. reflexivity.
  - apply not_elem_check. reflexivity.
  - lia.
Defined.

(** A name first seen as that of a blob, in a tree for instance, whose object
    turns out to be a tree: [lookup_tree] returns [NULL], and [parse_object]
    hands it to [parse_tree_buffer]. *)
Example parse_object_null :
  typed ObjDemo.st OBlob 2 /\ parse_typed true ObjDemo.st (ObjDemo.name 6) (str "tree") [] = Ub.
Proof. split; [by eexists|]. vm_compute. reflexivity. Qed.
