(* ===== verification/Commit.v ===== *)
(** * Lists of commits (commit.c)

    A [struct commit_list] is the list of the addresses in it; a pointer to a
    pointer to one is the list before and after.  [insert_by_date] and
    [sort_by_date] order commits by date, [pop_most_recent_commit] walks
    history with them, [sort_in_topological_order] puts every commit before its
    parents, counting the edges between the commits of the list in an array
    of [struct sort_node]. *)

From stdpp Require Import base list numbers strings sorting relations.
From Stdlib Require Import ZArith Lia.
From S2P Require Import Prelude.
From S2P Require Import CsumFile.
From S2P Require Import Index.
From S2P Require Import ObjectDB.
From S2P Require Import Objects.

(** ** Code *)

Definition commit_list_insert (item : nat) (list_p : list nat) : list nat := item :: list_p.

(** [while ((p = *pp) != NULL)] up to the place of [item], whose date is
    [item_date]. *)
Fixpoint insert_loop (st : objects) (item : nat) (item_date : Z) (p : list nat) : outcome (list nat) :=
  match p with
  | [] => Ret (commit_list_insert item [])
  | x :: next =>
      c ← get_commit st x;
      if date c <? item_date then Ret (commit_list_insert item p)
      else rest ← insert_loop st item item_date next; Ret (x :: rest)
  end.

Definition insert_by_date (st : objects) (item : nat) (l : list nat) : outcome (list nat) :=
  match l with
  | [] => Ret (commit_list_insert item [])
  | _ => c ← get_commit st item; insert_loop st item (date c) l
  end.

Fixpoint sort_by_date_loop (st : objects) (l ret : list nat) : outcome (list nat) :=
  match l with
  | [] => Ret ret
  | x :: next => ret ← insert_by_date st x ret; sort_by_date_loop st next ret
  end.

Definition sort_by_date (st : objects) (l : list nat) : outcome (list nat) := sort_by_date_loop st l [].

Definition pop_commit (stack : list nat) : option nat * list nat :=
  match stack with [] => (None, []) | top :: next => (Some top, next) end.

Definition count_parents (st : objects) (p : nat) : outcome Z :=
  c ← get_commit st p; Ret (Z.of_nat (length (parents c))).

Section Walk.
Context {D} `{ObjectDB D} (db : D).

(** [while (parents)]: the value of [parse_commit] is dropped. *)
Fixpoint pop_parents (st : objects) (ps l : list nat) (mark : Z) : io (objects * list nat) :=
  match ps with
  | [] => io_ret (st, l)
  | p :: ps =>
      r <- parse_commit db st p ;;
      let st := snd r in
      o <- Some (get st p) ;;
      if Z.land (o_flags o) mark =? 0 then
        let st := set st p (set_flags o (Z.lor (o_flags o) mark)) in
        l <- Some (insert_by_date st p l) ;;
        pop_parents st ps l mark
      else pop_parents st ps l mark
  end.

(** [*list] must not be [NULL]. *)
Definition pop_most_recent_commit (st : objects) (l : list nat) (mark : Z) : io (nat * objects * list nat) :=
  match l with
  | [] => Some Ub
  | ret :: next =>
      c <- Some (get_commit st ret) ;;
      r <- pop_parents st (parents c) next mark ;;
      let '(st, l) := r in io_ret (ret, st, l)
  end.

End Walk.

(** ** Code: the topological sort *)

(** A [struct sort_node]: [indegree] and [list_item], the position of the list
    element it stands for.  A [util] pointer is a position in [nodes]. *)
Abbreviation sort_node := (Z * nat)%type.

Definition get_util (st : objects) (p : nat) : outcome (option nat) := o ← get st p; Ret (o_util o).

(** [next->item->object.util = next_nodes; next_nodes++;] *)
Fixpoint link_nodes (st : objects) (l : list nat) (i : nat) : outcome objects :=
  match l with
  | [] => Ret st
  | x :: next => o ← get st x; link_nodes (set st x (set_util o (Some i))) next (S i)
  end.

Definition add_indegree (k : Z) (n : sort_node) : sort_node := (u32 (fst n + k), snd n).

(** [if (pn) pn->indegree++;] over the parents. *)
Fixpoint count_edges (st : objects) (nodes : list sort_node) (ps : list nat) : outcome (list sort_node) :=
  match ps with
  | [] => Ret nodes
  | p :: ps =>
      pn ← get_util st p;
      count_edges st (match pn with Some i => alter (add_indegree 1) i nodes | None => nodes end) ps
  end.

Fixpoint indegrees (st : objects) (nodes : list sort_node) (l : list nat) : outcome (list sort_node) :=
  match l with
  | [] => Ret nodes
  | x :: next => c ← get_commit st x; nodes ← count_edges st nodes (parents c); indegrees st nodes next
  end.

Definition get_node (nodes : list sort_node) (u : option nat) : outcome sort_node :=
  match u with
  | Some i => match nodes !! i with Some n => Ret n | None => Ub end
  | None => Ub
  end.

(** The tips go to the front of [work]. *)
Fixpoint find_tips (st : objects) (nodes : list sort_node) (l work : list nat) : outcome (list nat) :=
  match l with
  | [] => Ret work
  | x :: next =>
      u ← get_util st x;
      node ← get_node nodes u;
      find_tips st nodes next (if fst node =? 0 then commit_list_insert x work else work)
  end.

(** [pn->indegree--; if (!pn->indegree) commit_list_insert(parent, &work);] *)
Fixpoint release_parents (st : objects) (nodes : list sort_node) (ps work : list nat) : outcome (list sort_node * list nat) :=
  match ps with
  | [] => Ret (nodes, work)
  | p :: ps =>
      pn ← get_util st p;
      match pn with
      | None => release_parents st nodes ps work
      | Some i =>
          let nodes := alter (add_indegree (-1)) i nodes in
          node ← get_node nodes (Some i);
          release_parents st nodes ps (if fst node =? 0 then commit_list_insert p work else work)
      end
  end.

(** [while (work)]: [out] are the list elements linked so far. *)
Fixpoint emit (fuel : nat) (st : objects) (nodes : list sort_node) (work out : list nat) : io (list nat * objects) :=
  match fuel with
  | O => None
  | S fuel =>
      match pop_commit work with
      | (None, _) => io_ret (out, st)
      | (Some work_item, work) =>
          u <- Some (get_util st work_item) ;;
          c <- Some (get_commit st work_item) ;;
          r <- Some (release_parents st nodes (parents c) work) ;;
          let '(nodes, work) := r in
          node <- Some (get_node nodes u) ;;
          o <- Some (get st work_item) ;;
          emit fuel (set st work_item (set_util o None)) nodes work (out ++ [snd node])
      end
  end.

(** When nothing is emitted [*list] is not assigned. *)
Definition sort_in_topological_order (st : objects) (l : list nat) : io (list nat * objects) :=
  let nodes := imap (fun i _ => (0, i)) l in
  st <- Some (link_nodes st l 0) ;;
  nodes <- Some (indegrees st nodes l) ;;
  work <- Some (find_tips st nodes l []) ;;
  r <- emit (S (length l)) st nodes work [] ;;
  let '(out, st) := r in
  io_ret (match out with [] => l | _ => omap (fun i => l !! i) out end, st).

(** ** The topological sort is one *)

Definition upd {A} (f : nat -> A) (x : nat) (v : A) : nat -> A := fun y => if decide (y = x) then v else f y.

(** How often [y] is in a list. *)
Definition occ (y : nat) (l : list nat) : Z := Z.of_nat (length (filter (fun z => z = y) l)).

Lemma occ_cons y x l : occ y (x :: l) = (if decide (x = y) then 1 else 0) + occ y l.
Proof. unfold occ. rewrite filter_cons. destruct (decide (x = y)); cbn [length]; lia. Qed.

Lemma occ_app y l k : occ y (l ++ k) = occ y l + occ y k.
Proof. unfold occ. rewrite filter_app, length_app. lia. Qed.

Lemma occ_nonneg y l : 0 <= occ y l.
Proof. unfold occ. lia. Qed.

Lemma occ_pos y l : 0 < occ y l <-> y ∈ l.
Proof.
  induction l as [|x l IH]; [split; intros Hn; [done|by apply not_elem_of_nil in Hn]|].
  rewrite occ_cons, elem_of_cons, <- IH. pose proof (occ_nonneg y l).
  destruct (decide (x = y)) as [->|Hne]; split; intros Hy; [by left|lia|right; lia|destruct Hy as [->|?]; [done|lia]].
Qed.

Lemma occ_length y l : occ y l <= Z.of_nat (length l).
Proof. unfold occ. pose proof (length_filter (fun z => z = y) l). lia. Qed.

#[export] Instance occ_proper y : Proper (Permutation ==> eq) (occ y).
Proof. intros L K HP. unfold occ. by rewrite HP. Qed.

Section Topological.
(** The commits [l] of the history [st0], no [util] in use. *)
Context (st0 : objects) (l : list nat).

Definition parents_of (x : nat) : list nat :=
  match heap st0 !! x with Some o => match o_body o with Commit c => parents c | _ => [] end | None => [] end.

Context (Hnodup : NoDup l).
Context (Hcommits : forall x, x ∈ l -> exists o c, heap st0 !! x = Some o /\ o_body o = Commit c /\
  forall p, p ∈ parents c -> (p < length (heap st0))%nat).

(** The state with [util] pointers [f]. *)
Definition with_utils (f : nat -> option nat) : objects :=
  {| heap := imap (fun p o => set_util o (f p)) (heap st0); objs := objs st0; obj_allocs := obj_allocs st0 |}.

Lemma with_utils_ext f g : (forall p, (p < length (heap st0))%nat -> f p = g p) -> with_utils f = with_utils g.
Proof.
  intros Hfg. unfold with_utils. f_equal. apply list_eq. intros p. rewrite !list_lookup_imap.
  destruct (heap st0 !! p) as [o|] eqn:E; [|done]. cbn. by rewrite Hfg by (by eapply lookup_lt_Some).
Qed.

Lemma get_with f p : (p < length (heap st0))%nat ->
  exists o, heap st0 !! p = Some o /\ get (with_utils f) p = Ret (set_util o (f p)).
Proof.
  intros Hp. destruct (lookup_lt_is_Some_2 _ _ Hp) as [o Ho]. exists o. split; [done|].
  unfold get. cbn [heap with_utils]. by rewrite list_lookup_imap, Ho.
Qed.

Lemma get_util_with f p : (p < length (heap st0))%nat -> get_util (with_utils f) p = Ret (f p).
Proof. intros Hp. unfold get_util. destruct (get_with f p Hp) as (o&_&->). done. Qed.

Lemma set_util_with f p o u : heap st0 !! p = Some o ->
  set (with_utils f) p (set_util (set_util o (f p)) u) = with_utils (upd f p u).
Proof.
  intros Ho. unfold set, with_utils. cbn [heap objs obj_allocs]. f_equal. pose proof (lookup_lt_Some _ _ _ Ho) as Hlt.
  apply list_eq. intros q. destruct (decide (q = p)) as [->|Hne].
  - rewrite list_lookup_insert_eq by (by rewrite length_imap). rewrite list_lookup_imap, Ho. unfold upd. cbn. by rewrite decide_True.
  - rewrite list_lookup_insert_ne by done. rewrite !list_lookup_imap. unfold upd.
    destruct (heap st0 !! q); [|done]. cbn. by rewrite decide_False.
Qed.

Lemma get_commit_with f x : x ∈ l -> exists c, get_commit (with_utils f) x = Ret c /\ parents c = parents_of x.
Proof.
  intros Hx. destruct (Hcommits x Hx) as (o&c&Ho&Hb&_). exists c. unfold get_commit.
  destruct (get_with f x) as (o'&Ho'&->); [by eapply lookup_lt_Some|]. rewrite Ho in Ho'. injection Ho' as <-.
  rewrite bind_Ret. cbn [o_body set_util]. rewrite Hb. split; [done|]. unfold parents_of. by rewrite Ho, Hb.
Qed.

Lemma parents_range x p : x ∈ l -> p ∈ parents_of x -> (p < length (heap st0))%nat.
Proof. intros Hx. destruct (Hcommits x Hx) as (o&c&Ho&Hb&Hp). unfold parents_of. rewrite Ho, Hb. apply Hp. Qed.

Lemma in_range x : x ∈ l -> (x < length (heap st0))%nat.
Proof. intros Hx. destruct (Hcommits x Hx) as (o&c&Ho&_). by eapply lookup_lt_Some. Qed.

(** The array whose degrees are [D]. *)
Definition nodes_of (D : nat -> Z) : list sort_node := imap (fun i x => (D x, i)) l.

Lemma nodes_of_ext D E : (forall x, x ∈ l -> D x = E x) -> nodes_of D = nodes_of E.
Proof.
  intros HDE. apply list_eq. intros i. unfold nodes_of. rewrite !list_lookup_imap. destruct (l !! i) as [x|] eqn:Ex; [|done].
  cbn. by rewrite HDE by (by eapply list_elem_of_lookup_2).
Qed.

Lemma nodes_lookup D i x : l !! i = Some x -> nodes_of D !! i = Some (D x, i).
Proof. intros Hi. unfold nodes_of. by rewrite list_lookup_imap, Hi. Qed.

Lemma nodes_alter D i x k : l !! i = Some x -> alter (add_indegree k) i (nodes_of D) = nodes_of (upd D x (u32 (D x + k))).
Proof.
  intros Hi. apply list_eq. intros j. destruct (decide (j = i)) as [->|Hne].
  - rewrite list_lookup_alter_eq, !(nodes_lookup _ i x Hi). unfold upd. by rewrite decide_True.
  - rewrite list_lookup_alter_ne by done. unfold nodes_of. rewrite !list_lookup_imap. destruct (l !! j) as [y|] eqn:Ej; [|done].
    cbn. unfold upd. rewrite decide_False; [done|]. intros ->. apply Hne. by eapply NoDup_lookup.
Qed.

(** [util] of the commits [U] not emitted yet points to their nodes. *)
Definition utils_ok (f : nat -> option nat) (U : list nat) : Prop :=
  forall p, match f p with Some i => l !! i = Some p /\ p ∈ U | None => p ∉ U end.

Lemma utils_in f U p : utils_ok f U -> p ∈ U -> exists i, f p = Some i /\ l !! i = Some p.
Proof. intros Hf Hp. specialize (Hf p). destruct (f p) as [i|]; [exists i; split; [done|apply Hf]|done]. Qed.

Lemma utils_out f U p : utils_ok f U -> p ∉ U -> f p = None.
Proof. intros Hf Hp. specialize (Hf p). destruct (f p) as [i|]; [by destruct Hf|done]. Qed.

Lemma link_nodes_ok f xs ys :
  l = ys ++ xs -> utils_ok f ys -> exists f', link_nodes (with_utils f) xs (length ys) = Ret (with_utils f') /\ utils_ok f' l.
Proof.
  revert f ys; induction xs as [|x xs IH]; intros f ys E Hf; cbn [link_nodes].
  - exists f. split; [done|]. by rewrite E, app_nil_r.
  - assert (Hx : x ∈ l) by (rewrite E; apply elem_of_middle).
    destruct (get_with f x (in_range x Hx)) as (o&Ho&->). rewrite bind_Ret, set_util_with by done.
    replace (S (length ys)) with (length (ys ++ [x])) by (rewrite length_app; simpl; lia).
    apply IH; [by rewrite E, <- app_assoc|]. intros p. unfold upd. destruct (decide (p = x)) as [->|Hne].
    + split; [rewrite E, lookup_app_r, Nat.sub_diag by lia; done|]. apply elem_of_app. right. by left.
    + specialize (Hf p). destruct (f p) as [i|].
      * split; [apply Hf|]. apply elem_of_app. by left; apply Hf.
      * rewrite not_elem_of_app, list_elem_of_singleton. done.
Qed.

(** Edges from the commits [xs]. *)
Definition edges (xs : list nat) : list nat := flat_map parents_of xs.

Lemma upd_degree f U (D : nat -> Z) p i k x :
  utils_ok f U -> f p = Some i -> 0 <= D p + k < 2 ^ 32 -> upd D p (u32 (D p + k)) x = D x + (if decide (p = x) then k else 0).
Proof.
  intros _ _ Hk. unfold upd. destruct (decide (x = p)) as [->|Hne]; [rewrite decide_True, u32_small by done; done|].
  rewrite decide_False by congruence. lia.
Qed.

Lemma count_edges_ok f U ps : utils_ok f U -> (forall x, x ∈ l -> x ∈ U) -> forall D,
  Forall (fun p => p < length (heap st0))%nat ps -> (forall x, 0 <= D x /\ D x + occ x ps < 2 ^ 32) ->
  exists D', count_edges (with_utils f) (nodes_of D) ps = Ret (nodes_of D') /\ forall x, x ∈ U -> D' x = D x + occ x ps.
Proof.
  intros Hf HU. induction ps as [|p ps IH]; intros D Hps HD; cbn [count_edges].
  - exists D. split; [done|]. intros x _. unfold occ. simpl. lia.
  - apply Forall_cons in Hps as [Hp Hps]. rewrite get_util_with, bind_Ret by done. pose proof (Hf p) as Hfp.
    destruct (f p) as [i|] eqn:Efp.
    + destruct Hfp as [Hi Hin]. rewrite (nodes_alter D i p 1 Hi).
      destruct (HD p) as [Hp0 Hp1]. rewrite occ_cons, decide_True in Hp1 by done. pose proof (occ_nonneg p ps).
      destruct (IH (upd D p (u32 (D p + 1))) Hps) as (D'&E'&HD').
      * intros x. destruct (HD x) as [Hx0 Hx1]. rewrite occ_cons in Hx1. rewrite (upd_degree f U D p i 1 x Hf Efp) by lia.
        destruct (decide (p = x)); lia.
      * exists D'. split; [done|]. intros x Hx. rewrite (HD' x Hx), occ_cons, (upd_degree f U D p i 1 x Hf Efp) by lia. lia.
    + destruct (IH D Hps) as (D'&E'&HD').
      * intros x. destruct (HD x) as [Hx0 Hx1]. rewrite occ_cons in Hx1. destruct (decide (p = x)); lia.
      * exists D'. split; [done|]. intros x Hx. rewrite (HD' x Hx), occ_cons, decide_False; [lia|]. by intros ->.
Qed.

Lemma indegrees_ok f xs : utils_ok f l -> forall D,
  (forall x, x ∈ xs -> x ∈ l) -> (forall x, 0 <= D x /\ D x + occ x (edges xs) < 2 ^ 32) ->
  exists D', indegrees (with_utils f) (nodes_of D) xs = Ret (nodes_of D') /\ forall x, x ∈ l -> D' x = D x + occ x (edges xs).
Proof.
  intros Hf. induction xs as [|x xs IH]; intros D Hxs HD; cbn [indegrees].
  - exists D. split; [done|]. intros x _. unfold occ. simpl. lia.
  - assert (Hx : x ∈ l) by (apply Hxs; by left). destruct (get_commit_with f x Hx) as (c&->&Hc). rewrite bind_Ret, Hc.
    cbn [edges flat_map] in HD |- *. fold (edges xs) in HD |- *.
    destruct (count_edges_ok f l (parents_of x) Hf (fun _ H => H) D) as (D1&->&HD1).
    + apply Forall_forall. intros p. by apply parents_range.
    + intros y. destruct (HD y) as [H0 H1]. rewrite occ_app in H1. pose proof (occ_nonneg y (edges xs)). lia.
    + rewrite bind_Ret. set (D2 := fun y => if decide (y ∈ l) then D1 y else 0).
      rewrite (nodes_of_ext D1 D2) by (intros y Hy; unfold D2; by rewrite decide_True).
      destruct (IH D2) as (D'&->&HD').
      * intros y Hy. apply Hxs. by right.
      * intros y. destruct (HD y) as [H0 H1]. rewrite occ_app in H1. pose proof (occ_nonneg y (parents_of x)). unfold D2.
        destruct (decide (y ∈ l)) as [Hy|Hy]; [rewrite (HD1 y Hy); lia|lia].
      * exists D'. split; [done|]. intros y Hy. rewrite (HD' y Hy), occ_app. unfold D2. rewrite decide_True, (HD1 y Hy) by done. lia.
Qed.

Lemma get_node_ok f U D x : utils_ok f U -> x ∈ U -> exists i, f x = Some i /\ l !! i = Some x /\ get_node (nodes_of D) (f x) = Ret (D x, i).
Proof.
  intros Hf Hx. destruct (utils_in f U x Hf Hx) as (i&Ei&Hi). exists i. split; [done|]. split; [done|]. rewrite Ei. cbn [get_node].
  by rewrite (nodes_lookup D i x Hi).
Qed.

Lemma find_tips_ok f D xs : utils_ok f l -> (forall x, x ∈ xs -> x ∈ l) -> forall work,
  find_tips (with_utils f) (nodes_of D) xs work = Ret (rev (filter (fun x => D x = 0) xs) ++ work).
Proof.
  intros Hf. induction xs as [|x xs IH]; intros Hxs work; cbn [find_tips]; [done|]. assert (Hx : x ∈ l) by (apply Hxs; by left).
  rewrite get_util_with, bind_Ret by (by apply in_range). destruct (get_node_ok f l D x Hf Hx) as (i&_&_&->). rewrite bind_Ret. cbn [fst].
  rewrite IH by (intros y Hy; apply Hxs; by right). rewrite filter_cons. destruct (Z.eqb_spec (D x) 0) as [E|E].
  - rewrite decide_True by done. unfold commit_list_insert. cbn [rev]. by rewrite <- app_assoc.
  - by rewrite decide_False.
Qed.

(** The parents whose last edge goes are put to work, once each. *)
Lemma release_parents_ok f U ps : utils_ok f U -> forall D work,
  Forall (fun p => p < length (heap st0))%nat ps -> (forall x, x ∈ U -> 0 <= D x < 2 ^ 32 /\ occ x ps <= D x) ->
  NoDup work -> (forall x, x ∈ work -> ~ (x ∈ U /\ 0 < D x)) ->
  exists D' work', release_parents (with_utils f) (nodes_of D) ps work = Ret (nodes_of D', work') /\
    (forall x, x ∈ U -> D' x = D x - occ x ps) /\ NoDup work' /\
    forall x, x ∈ work' <-> x ∈ work \/ (x ∈ U /\ 0 < D x /\ D' x = 0).
Proof.
  intros Hf. induction ps as [|p ps IH]; intros D work Hps HD Hnd Hw; cbn [release_parents].
  - exists D, work. split; [done|]. split; [intros x _; unfold occ; simpl; lia|]. split; [done|]. intros x. split; [by left|].
    intros [?|(_&?&?)]; [done|lia].
  - apply Forall_cons in Hps as [Hp Hps]. rewrite get_util_with, bind_Ret by done. pose proof (Hf p) as Hfp.
    destruct (f p) as [i|] eqn:Efp.
    + destruct Hfp as [Hi Hin]. rewrite (nodes_alter D i p (-1) Hi).
      destruct (HD p Hin) as [Hr Ho]. rewrite occ_cons, decide_True in Ho by done. pose proof (occ_nonneg p ps).
      set (D1 := upd D p (u32 (D p + -1))).
      assert (HD1 : forall x, D1 x = D x + (if decide (p = x) then -1 else 0)).
      { intros x. apply (upd_degree f U D p i (-1) x Hf Efp). lia. }
      unfold get_node. rewrite (nodes_lookup D1 i p Hi), bind_Ret. cbn [fst]. pose proof (HD1 p) as Hp1. rewrite decide_True in Hp1 by done.
      assert (Hpre : forall x, x ∈ U -> 0 <= D1 x < 2 ^ 32 /\ occ x ps <= D1 x).
      { intros x Hx. destruct (HD x Hx) as [H1 H2]. rewrite occ_cons in H2. rewrite HD1. destruct (decide (p = x)) as [->|]; lia. }
      assert (Hpw : p ∉ work) by (intros Hc; apply (Hw p Hc); split; [done|lia]).
      destruct (IH D1 (if D1 p =? 0 then commit_list_insert p work else work) Hps Hpre) as (D'&work'&->&HD'&Hnd'&Hw').
      * destruct (D1 p =? 0); [by constructor|done].
      * intros x Hx [HxU HxD]. rewrite HD1 in HxD.
        assert (Hxw : x ∈ work \/ (x = p /\ D1 p = 0)).
        { destruct (Z.eqb_spec (D1 p) 0); [|by left]. apply elem_of_cons in Hx as [->|Hx]; [by right|by left]. }
        destruct Hxw as [Hxw|[-> E0]]; [|rewrite decide_True in HxD by done; lia].
        apply (Hw x Hxw). split; [done|]. destruct (decide (p = x)); lia.
      * exists D', work'. split; [done|]. split.
        { intros x Hx. rewrite (HD' x Hx), HD1, occ_cons. destruct (decide (p = x)); lia. }
        split; [done|]. intros x. rewrite Hw'. clear IH Hw'.
        destruct (Z.eqb_spec (D1 p) 0) as [E0|E0].
        -- unfold commit_list_insert. rewrite elem_of_cons. specialize (HD1 x). split.
           ++ intros [[->|?]|(HxU&HxD&E')]; [|by left|right; split; [done|]; split; [|done]; destruct (decide (p = x)); lia].
              right. split; [done|]. split; [lia|]. rewrite (HD' p Hin). lia.
           ++ intros [?|(HxU&HxD&E')]; [by left; right|]. destruct (decide (p = x)) as [->|]; [by left; left|].
              right. split; [done|]. split; [lia|done].
        -- specialize (HD1 x). split; (intros [?|(HxU&HxD&E')]; [by left|right; split; [done|]; split; [|done]]).
           ++ destruct (decide (p = x)); lia.
           ++ destruct (decide (p = x)) as [->|]; lia.
    + destruct (IH D work Hps) as (D'&work'&->&HD'&Hnd'&Hw').
      * intros x Hx. destruct (HD x Hx) as [H1 H2]. rewrite occ_cons, decide_False in H2; [lia|]. by intros ->.
      * done.
      * done.
      * exists D', work'. split; [done|]. split; [|done]. intros x Hx. rewrite (HD' x Hx), occ_cons, decide_False; [lia|]. by intros ->.
Qed.

Definition before (O : list nat) (c p : nat) : Prop := exists O1 O2, O = O1 ++ O2 /\ c ∈ O1 /\ p ∈ O2.

(** Every commit stands before its parents. *)
Definition children_first (O : list nat) : Prop := forall c p, c ∈ l -> p ∈ parents_of c -> p ∈ O -> before O c p.

Lemma children_first_snoc O x U :
  O ++ x :: U ≡ₚ l -> x ∉ edges (x :: U) -> children_first O -> children_first (O ++ [x]).
Proof.
  intros HP Hx HO c p Hc Hp Hin. apply elem_of_app in Hin as [Hin|Hin].
  - destruct (HO c p Hc Hp Hin) as (O1&O2&->&H1&H2). exists O1, (O2 ++ [x]). split; [by rewrite app_assoc|]. split; [done|].
    apply elem_of_app. by left.
  - apply list_elem_of_singleton in Hin as ->. exists O, [x]. split; [done|]. split; [|by left].
    rewrite <- HP in Hc. apply elem_of_app in Hc as [Hc|Hc]; [done|]. exfalso. apply Hx. unfold edges.
    apply list_elem_of_In, in_flat_map. exists c. by rewrite <- !list_elem_of_In.
Qed.

Context (rank : nat -> nat) (Hacyclic : forall c p, c ∈ l -> p ∈ parents_of c -> p ∈ l -> (rank p < rank c)%nat).

Lemma no_children U : U <> [] -> (forall x, x ∈ U -> x ∈ l) -> exists x, x ∈ U /\ x ∉ edges U.
Proof.
  intros Hne Hsub. assert (Hmax : exists x, x ∈ U /\ forall y, y ∈ U -> (rank y <= rank x)%nat).
  { clear Hsub Hacyclic. induction U as [|a U IH]; [done|]. destruct U as [|b U].
    - exists a. split; [by left|]. intros y Hy. apply list_elem_of_singleton in Hy as ->. done.
    - destruct IH as (x&Hx&Hm); [done|]. destruct (Nat.le_gt_cases (rank a) (rank x)).
      + exists x. split; [by right|]. intros y Hy. apply elem_of_cons in Hy as [->|Hy]; [done|by apply Hm].
      + exists a. split; [by left|]. intros y Hy. apply elem_of_cons in Hy as [->|Hy]; [done|]. specialize (Hm y Hy). lia. }
  destruct Hmax as (x&Hx&Hm). exists x. split; [done|]. intros Hin. apply list_elem_of_In, in_flat_map in Hin as (c&Hc&Hp).
  rewrite <- list_elem_of_In in Hc, Hp. specialize (Hm c Hc). specialize (Hacyclic c x (Hsub c Hc) Hp (Hsub x Hx)). lia.
Qed.

(** What holds around the loop: [U] is what is left, [work] what is left and
    has no children left. *)
Record emit_inv (f : nat -> option nat) (D : nat -> Z) (U work O : list nat) : Prop := {
  ei_utils : utils_ok f U;
  ei_perm : O ++ U ≡ₚ l;
  ei_degree : forall x, x ∈ U -> D x = occ x (edges U);
  ei_nodup : NoDup work;
  ei_work : forall x, x ∈ work <-> x ∈ U /\ D x = 0;
  ei_order : children_first O;
}.

#[local] Instance edges_proper : Proper (Permutation ==> Permutation) edges.
Proof. intros U V. apply Permutation_flat_map. Qed.

Lemma emit_step f D x work O U :
  Z.of_nat (length (edges l)) < 2 ^ 32 -> emit_inv f D (x :: U) (x :: work) O ->
  exists D' work', release_parents (with_utils f) (nodes_of D) (parents_of x) work = Ret (nodes_of D', work') /\
    emit_inv (upd f x None) D' U work' (O ++ [x]).
Proof.
  intros Hsmall [Hf HP HD Hnd Hw Hord]. apply NoDup_cons in Hnd as [Hxw Hnd].
  assert (HndU : NoDup (x :: U)).
  { assert (Hn : NoDup (O ++ x :: U)) by (by rewrite HP). by apply NoDup_app in Hn as (_&_&Hn). }
  apply NoDup_cons in HndU as [HxU HndU]. assert (Hxl : x ∈ l) by (rewrite <- HP; apply elem_of_middle).
  assert (Hocc : forall y, y ∈ x :: U -> D y = occ y (parents_of x) + occ y (edges U)).
  { intros y Hy. rewrite (HD y Hy). cbn [edges flat_map]. by rewrite occ_app. }
  assert (Hx0 : D x = 0) by (apply (Hw x); by left).
  assert (Hbound : forall y, y ∈ x :: U -> D y < 2 ^ 32).
  { intros y Hy. rewrite (HD y Hy). pose proof (occ_length y (edges (x :: U))). rewrite <- HP in Hsmall.
    unfold edges in Hsmall. rewrite flat_map_app, length_app in Hsmall. fold (edges (x :: U)) in Hsmall. lia. }
  destruct (release_parents_ok f (x :: U) (parents_of x) Hf D work) as (D'&work'&E&HD'&Hnd'&Hw'); try done.
  - apply Forall_forall. intros p. by apply parents_range.
  - intros y Hy. pose proof (Hocc y Hy). pose proof (Hbound y Hy). pose proof (occ_nonneg y (parents_of x)).
    pose proof (occ_nonneg y (edges U)). lia.
  - intros y Hy [_ Hpos]. assert (Hy' : y ∈ x :: work) by (by right). apply (Hw y) in Hy' as [_ ?]. lia.
  - exists D', work'. split; [done|]. split.
    + intros p. unfold upd. destruct (decide (p = x)) as [->|Hne]; [done|]. specialize (Hf p). destruct (f p) as [i|].
      * split; [apply Hf|]. destruct Hf as [_ Hin]. by apply elem_of_cons in Hin as [->|?].
      * intros Hin. apply Hf. by right.
    + rewrite <- HP, <- app_assoc. done.
    + intros y Hy. rewrite (HD' y) by (by right). rewrite (Hocc y) by (by right). lia.
    + done.
    + intros y. rewrite Hw'. pose proof (occ_nonneg y (parents_of x)). pose proof (occ_nonneg y (edges U)). split.
      * intros [Hy|(Hy&Hpos&E0)].
        -- assert (Hy' : y ∈ x :: work) by (by right). apply (Hw y) in Hy' as [HyU Hy0].
           rewrite (HD' y HyU). pose proof (Hocc y HyU). apply elem_of_cons in HyU as [->|HyU]; [done|]. split; [done|lia].
        -- apply elem_of_cons in Hy as [->|Hy]; [lia|done].
      * intros [Hy E0]. assert (HyU : y ∈ x :: U) by (by right). destruct (decide (D y = 0)) as [Hz|Hz].
        -- left. assert (Hy' : y ∈ x :: work) by (by apply Hw). apply elem_of_cons in Hy' as [->|?]; done.
        -- right. split; [done|]. split; [|done]. pose proof (Hocc y HyU). lia.
    + eapply children_first_snoc; [exact HP| |done]. rewrite <- occ_pos, <- (HD x) by (by left). lia.
Qed.

Lemma emit_ok fuel : forall f D U work out O,
  Z.of_nat (length (edges l)) < 2 ^ 32 -> (length U < fuel)%nat -> emit_inv f D U work O -> omap (fun i => l !! i) out = O ->
  exists out', emit fuel (with_utils f) (nodes_of D) work out = io_ret (out', with_utils (fun _ => None)) /\
    omap (fun i => l !! i) out' ≡ₚ l /\ children_first (omap (fun i => l !! i) out').
Proof.
  induction fuel as [|fuel IH]; intros f D U work out O Hsmall Hfuel Hi HO; [lia|]. cbn [emit]. destruct work as [|x work]; cbn [pop_commit].
  - assert (U = []) as ->.
    { destruct (decide (U = [])) as [|Hne]; [done|]. exfalso. destruct (no_children U Hne) as (x&Hx&Hno).
      - intros y Hy. rewrite <- (ei_perm _ _ _ _ _ Hi). apply elem_of_app. by right.
      - enough (Hin : x ∈ @nil nat) by (by apply not_elem_of_nil in Hin). apply (ei_work _ _ _ _ _ Hi). split; [done|].
        rewrite (ei_degree _ _ _ _ _ Hi x Hx). rewrite <- occ_pos in Hno. pose proof (occ_nonneg x (edges U)). lia. }
    exists out. destruct Hi as [Hf HP _ _ _ Hord]. rewrite app_nil_r in HP. rewrite HO. split; [|done].
    rewrite (with_utils_ext f (fun _ => None)); [done|]. intros p _. apply (utils_out f [] p Hf). apply not_elem_of_nil.
  - assert (HxU : x ∈ U) by (apply (ei_work _ _ _ _ _ Hi x); by left).
    apply elem_of_Permutation in HxU as [U' HU]. assert (Hi' : emit_inv f D (x :: U') (x :: work) O).
    { destruct Hi as [Hf HP HD Hnd Hw Hord]. split; [| |intros y| |intros y|]; try done.
      - intros p. specialize (Hf p). destruct (f p); by rewrite <- HU.
      - by rewrite <- HU.
      - rewrite <- HU. apply HD.
      - rewrite <- HU. apply Hw. }
    pose proof (ei_perm _ _ _ _ _ Hi') as HP'. assert (Hxl : x ∈ l) by (rewrite <- HP'; apply elem_of_middle).
    destruct (emit_step f D x work O U' Hsmall Hi') as (D'&work'&Er&Hi2).
    rewrite get_util_with by (by apply in_range). cbn [io_bind]. destruct (get_commit_with f x Hxl) as (c&->&Hc). cbn [io_bind].
    rewrite Hc, Er. cbn [io_bind].
    destruct (get_node_ok f (x :: U') D' x (ei_utils _ _ _ _ _ Hi') ltac:(by left)) as (i&Ei&Hil&->). cbn [io_bind].
    destruct (get_with f x (in_range x Hxl)) as (o&Ho&->). cbn [io_bind]. rewrite set_util_with by done. cbn [snd].
    apply (IH (upd f x None) D' U' work' (out ++ [i]) (O ++ [x])); [done| |done|].
    + apply Permutation_length in HU. simpl in HU. lia.
    + rewrite omap_app, HO. cbn [omap list_omap]. by rewrite Hil.
Qed.

Lemma elem_of_rev (x : nat) k : x ∈ rev k <-> x ∈ k.
Proof. by rewrite !list_elem_of_In, <- in_rev. Qed.

Lemma tips_inv f D :
  utils_ok f l -> (forall x, x ∈ l -> D x = occ x (edges l)) ->
  emit_inv f D l (rev (filter (fun x => D x = 0) l) ++ []) [].
Proof.
  intros Hf HD. rewrite app_nil_r. split; [done|done|done| | |].
  - rewrite <- (Permutation_rev (filter (fun x => D x = 0) l)). by apply NoDup_filter.
  - intros x. rewrite elem_of_rev, list_elem_of_filter. tauto.
  - intros c p _ _ Hp. by apply not_elem_of_nil in Hp.
Qed.

Lemma sort_ok :
  Z.of_nat (length (edges l)) < 2 ^ 32 -> exists l',
    sort_in_topological_order (with_utils (fun _ => None)) l = io_ret (l', with_utils (fun _ => None)) /\
    l' ≡ₚ l /\ children_first l'.
Proof.
  intros Hsmall. unfold sort_in_topological_order.
  destruct (link_nodes_ok (fun _ => None) l []) as (f&El&Hf); [done|intros p; apply not_elem_of_nil|]. cbn [length] in El. rewrite El. cbn [io_bind].
  change (imap (fun i _ => (0, i)) l) with (nodes_of (fun _ => 0)).
  destruct (indegrees_ok f l Hf (fun _ => 0)) as (D&->&HD); [done|intros x; pose proof (occ_length x (edges l)); lia|]. cbn [io_bind].
  rewrite find_tips_ok by done. cbn [io_bind].
  destruct (emit_ok (S (length l)) f D l _ [] [] Hsmall (Nat.lt_succ_diag_r _) (tips_inv f D Hf HD) eq_refl) as (out&->&HP&Ho).
  cbn [io_bind]. destruct out as [|i out]; [|by eexists]. exists l. split; [done|]. split; [done|].
  cbn [omap list_omap] in HP. intros c p Hc. rewrite <- HP in Hc. by apply not_elem_of_nil in Hc.
Qed.

End Topological.

Lemma before_trans O a b c : NoDup O -> before O a b -> before O b c -> before O a c.
Proof.
  intros Hnd (O1&O2&->&Ha&Hb) (P1&P2&E&Hb'&Hc).
  apply app_eq_inv in E as [(k&->&->)|(k&->&->)].
  - exfalso. apply NoDup_app in Hnd as (_&Hd&_). apply (Hd b); [apply elem_of_app; by left|done].
  - exists (O1 ++ k), P2. split; [by rewrite app_assoc|]. split; [apply elem_of_app; by left|done].
Qed.

(** [p] is a parent of [c], both in the list. *)
Definition linked (st : objects) (l : list nat) (c p : nat) : Prop := c ∈ l /\ p ∈ parents_of st c /\ p ∈ l.

(** C32. For a list of distinct commits whose history has no cycle, no [util]
    being in use, [sort_in_topological_order] returns the same commits in an
    order in which every commit stands before all that is reachable from it
    through commits of the list, and leaves all objects as they were.  That is
    what commit.h promises when the list has all commits between two of its
    own; when one is missing, the order may be the other way round
    ([missing_link]), though commit.h does not ask for it. *)
Theorem sort_in_topological_order_spec (st : objects) (l : list nat) (rank : nat -> nat) :
  (forall p o, heap st !! p = Some o -> o_util o = None) -> NoDup l ->
  (forall x, x ∈ l -> exists o c, heap st !! x = Some o /\ o_body o = Commit c /\ forall p, p ∈ parents c -> (p < length (heap st))%nat) ->
  (forall c p, c ∈ l -> p ∈ parents_of st c -> p ∈ l -> (rank p < rank c)%nat) ->
  Z.of_nat (length (edges st l)) < 2 ^ 32 ->
  exists l', sort_in_topological_order st l = io_ret (l', st) /\ l' ≡ₚ l /\
    forall c a, tc (linked st l) c a -> before l' c a.
Proof.
  intros Hutil Hnd Hc Hrank Hsmall.
  assert (Est : with_utils st (fun _ => None) = st).
  { destruct st as [h t a]. unfold with_utils. cbn [heap objs obj_allocs] in *. f_equal. apply list_eq. intros p.
    rewrite list_lookup_imap. destruct (h !! p) as [o|] eqn:Eo; [|done]. cbn. specialize (Hutil p o Eo). destruct o; cbn in *. by rewrite Hutil. }
  destruct (sort_ok st l Hnd Hc rank Hrank Hsmall) as (l'&E&HP&Ho). rewrite Est in E. exists l'. split; [done|]. split; [done|].
  assert (Hone : forall c p, linked st l c p -> before l' c p) by (intros c p (Hcl&Hp&Hpl); apply Ho; [done..|]; by rewrite HP).
  assert (Hnd' : NoDup l') by (by rewrite HP). intros c a. induction 1 as [c a Hca|c b a Hcb _ IH]; [by apply Hone|].
  eapply before_trans; [done|by apply Hone|exact IH].
Qed.

(** ** Sorting by date *)

Definition date_of (st : objects) (x : nat) : Z :=
  match heap st !! x with Some o => match o_body o with Commit c => date c | _ => 0 end | None => 0 end.

Definition is_commit (st : objects) (x : nat) : Prop := exists o c, heap st !! x = Some o /\ o_body o = Commit c.

Lemma get_commit_ok st x : is_commit st x -> exists c, get_commit st x = Ret c /\ date c = date_of st x.
Proof. intros (o&c&Ho&Hb). exists c. unfold get_commit, get, date_of. by rewrite Ho, bind_Ret, Hb. Qed.

(** Newest first. *)
Definition newer (st : objects) (x y : nat) : Prop := date_of st y <= date_of st x.

(** The place [insert_by_date] finds: behind everything as new as [item]. *)
Lemma insert_by_date_ok st item l :
  is_commit st item -> Forall (is_commit st) l -> exists l1 l2,
    l = l1 ++ l2 /\ insert_by_date st item l = Ret (l1 ++ item :: l2) /\
    Forall (fun x => date_of st item <= date_of st x) l1 /\ match l2 with [] => True | x :: _ => date_of st x < date_of st item end.
Proof.
  intros Hi Hl. assert (Hloop : exists l1 l2, l = l1 ++ l2 /\ insert_loop st item (date_of st item) l = Ret (l1 ++ item :: l2) /\
    Forall (fun x => date_of st item <= date_of st x) l1 /\ match l2 with [] => True | x :: _ => date_of st x < date_of st item end).
  { induction Hl as [|x l Hx Hl (l1&l2&->&E&H1&H2)]; [by exists [], []|]. cbn [insert_loop].
    destruct (get_commit_ok st x Hx) as (c&->&Hd). rewrite bind_Ret, Hd. destruct (Z.ltb_spec (date_of st x) (date_of st item)).
    - by exists [], (x :: l1 ++ l2).
    - exists (x :: l1), l2. rewrite E. split; [done|]. split; [done|]. split; [by constructor|done]. }
  destruct Hloop as (l1&l2&E&Hloop&H1&H2). exists l1, l2. split; [done|]. split; [|done]. unfold insert_by_date.
  destruct l as [|y l]; [|destruct (get_commit_ok st item Hi) as (c&->&Hd); by rewrite bind_Ret, Hd].
  symmetry in E. by apply app_nil in E as [-> ->].
Qed.

Lemma insert_by_date_sorted st item l l' :
  is_commit st item -> Forall (is_commit st) l -> StronglySorted (newer st) l -> insert_by_date st item l = Ret l' ->
  StronglySorted (newer st) l' /\ l' ≡ₚ item :: l /\
  forall d, filter (fun x => date_of st x = d) l' = filter (fun x => date_of st x = d) (l ++ [item]).
Proof.
  intros Hi Hl Hs E. destruct (insert_by_date_ok st item l Hi Hl) as (l1&l2&->&E'&H1&H2). rewrite E' in E. injection E as <-.
  apply StronglySorted_app in Hs as (Hx&S1&S2).
  assert (H2' : Forall (fun x => date_of st x < date_of st item) l2).
  { destruct l2 as [|x l2]; [done|]. constructor; [done|]. apply StronglySorted_inv in S2 as [_ HF].
    eapply Forall_impl; [exact HF|]. intros y Hy. unfold newer in Hy. cbv beta. lia. }
  split; [|split].
  - apply StronglySorted_app. split; [|split; [done|constructor; [done|]]].
    + intros a b Ha Hb. apply elem_of_cons in Hb as [->|Hb]; [|by apply Hx]. rewrite Forall_forall in H1. by apply H1.
    + eapply Forall_impl; [exact H2'|]. intros y Hy. unfold newer. cbv beta in Hy. lia.
  - by rewrite <- Permutation_middle.
  - intros d. rewrite !filter_app, filter_cons, filter_cons, filter_nil, <- app_assoc. f_equal.
    destruct (decide (date_of st item = d)) as [Ed|]; [|by rewrite app_nil_r].
    assert (En : filter (fun x => date_of st x = d) l2 = []).
    { clear -H2' Ed. induction H2' as [|x l2 Hx _ IH]; [done|]. by rewrite filter_cons, decide_False by lia. }
    by rewrite En.
Qed.

(** [sort_by_date] sorts stably, newest first: for a list of commits it
    returns the same commits in descending order of date, and those with the
    same date in the order they had. *)
Theorem sort_by_date_spec (st : objects) (l : list nat) :
  Forall (is_commit st) l -> exists l', sort_by_date st l = Ret l' /\ l' ≡ₚ l /\ StronglySorted (newer st) l' /\
    forall d, filter (fun x => date_of st x = d) l' = filter (fun x => date_of st x = d) l.
Proof.
  intros Hl. unfold sort_by_date.
  enough (Hloop : forall ret, Forall (is_commit st) ret -> StronglySorted (newer st) ret -> exists l',
    sort_by_date_loop st l ret = Ret l' /\ l' ≡ₚ ret ++ l /\ StronglySorted (newer st) l' /\
    forall d, filter (fun x => date_of st x = d) l' = filter (fun x => date_of st x = d) (ret ++ l)).
  { apply (Hloop []); constructor. }
  induction Hl as [|x l Hx Hl IH]; intros ret Hr Hs; cbn [sort_by_date_loop].
  - exists ret. by rewrite app_nil_r.
  - destruct (insert_by_date_ok st x ret Hx Hr) as (l1&l2&_&E&_). rewrite E, bind_Ret.
    destruct (insert_by_date_sorted st x ret _ Hx Hr Hs E) as (Hs'&HP'&Hf').
    destruct (IH (l1 ++ x :: l2)) as (l'&El&HP&Hso&Hfi); [by rewrite HP'; constructor|done|]. exists l'. split; [done|].
    split; [rewrite HP, HP'; by rewrite <- Permutation_middle|]. split; [done|]. intros d. rewrite Hfi, filter_app, Hf', <- filter_app.
    by rewrite <- app_assoc.
Qed.

(** ** A run *)

Module CommitDemo.

Definition node (n : Z) (d : Z) (ps : list nat) : object :=
  {| o_parsed := true; o_used := false; o_flags := 0; o_sha1 := replicate 20 n; o_type := Some OCommit; o_refs := ps; o_util := None;
     o_body := Commit {| date := d; parents := ps; tree := None; buffer := None |} |}.

(** A merge of two children of a root. *)
Definition st : objects :=
  {| heap := [node 1 10 []; node 2 20 [0%nat]; node 3 20 [0%nat]; node 4 30 [1; 2]%nat]; objs := [0; 1; 2; 3]%nat; obj_allocs := 24 |}.

Lemma commits x : x ∈ [0; 1; 2; 3]%nat -> exists o c, heap st !! x = Some o /\ o_body o = Commit c /\
  forall p, p ∈ parents c -> (p < length (heap st))%nat /\ (p < x)%nat.
Proof.
  revert x. apply Forall_forall. repeat (constructor; [eexists _, _; split; [reflexivity|split; [reflexivity|]];
    intros p Hp; cbn in Hp |- *; rewrite ?elem_of_cons in Hp; destruct_or?; subst; try lia; by apply not_elem_of_nil in Hp|]). constructor.
Qed.

End CommitDemo.

Example topological_ex :
  sort_in_topological_order CommitDemo.st [0; 1; 2; 3]%nat = io_ret ([3; 2; 1; 0]%nat, CommitDemo.st).
Proof. vm_compute. reflexivity. Qed.

(** A commit, its parent and its grandparent, of which the list has the first
    and the last: the grandparent comes first. *)
Example missing_link :
  let st := {| heap := [CommitDemo.node 1 10 []; CommitDemo.node 2 20 [0%nat]; CommitDemo.node 3 30 [1%nat]]; objs := [0; 1; 2]%nat; obj_allocs := 24 |} in
  sort_in_topological_order st [2; 0]%nat = io_ret ([0; 2]%nat, st).
Proof. vm_compute. reflexivity. Qed.

Lemma sort_in_topological_order_spec_witness :
  exists l', sort_in_topological_order CommitDemo.st [0; 1; 2; 3]%nat = io_ret (l', CommitDemo.st) /\ l' ≡ₚ [0; 1; 2; 3]%nat /\
    forall c a, tc (linked CommitDemo.st [0; 1; 2; 3]%nat) c a -> before l' c a.
Proof.
  apply (sort_in_topological_order_spec CommitDemo.st [0; 1; 2; 3]%nat (fun x => x)).
  - intros p o Hp. assert (Hin : o ∈ heap CommitDemo.st) by (by eapply list_elem_of_lookup_2). clear Hp. revert o Hin.
    apply Forall_forall. repeat (constructor; [reflexivity|]). constructor.
  - apply (bool_decide_unpack _). vm_compute. exact I.
  - intros x Hx. destruct (CommitDemo.commits x Hx) as (o&c&Ho&Hb&Hp). exists o, c. split; [exact Ho|]. split; [exact Hb|].
    intros p Hin. apply (Hp p Hin).
  - intros c p Hc Hp _. destruct (CommitDemo.commits c Hc) as (o&cm&Ho&Hb&Hps). unfold parents_of in Hp. rewrite Ho, Hb in Hp. apply (Hps p Hp).
  - vm_compute. reflexivity.
Defined.

Lemma sort_by_date_spec_witness :
  exists l', sort_by_date CommitDemo.st [0; 1; 2; 3]%nat = Ret l' /\ l' ≡ₚ [0; 1; 2; 3]%nat /\ StronglySorted (newer CommitDemo.st) l' /\
    forall d, filter (fun x => date_of CommitDemo.st x = d) l' = filter (fun x => date_of CommitDemo.st x = d) [0; 1; 2; 3]%nat.
Proof.
  apply (sort_by_date_spec CommitDemo.st [0; 1; 2; 3]%nat). apply Forall_forall. intros x Hx.
  destruct (CommitDemo.commits x Hx) as (o&c&Ho&Hb&_). by exists o, c.
Defined.
