(* ===== verification/Unpack.v ===== *)
(** * Unpacking a pack that arrives on standard input (test_git/unpack-objects.c)

    git-unpack-objects reads a pack through a buffer of 4096 bytes, inflates
    one object after the other and stores it; a delta whose base is not in the
    store yet waits in [delta_list] until the base is written.

    [read] and [write] follow schedules as in PktLine.v; zlib is the class
    [ZStream]; the object store is the class [ObjectDB].  A [memcpy] whose source
    and destination overlap is undefined, as the C standard has it. *)

From stdpp Require Import base list numbers strings sets.
From Stdlib Require Import ZArith Lia.
From S2P Require Import Prelude.
From S2P Require Import Sha1.
From S2P Require Import PktLine.
From S2P Require Import Delta.
From S2P Require Import CsumFile.
From S2P Require Import Zlib.
From S2P Require Import PackEntry.
From S2P Require Import ObjectDB.
From S2P Require Import PackWrite.

(** [s_done] is [buffer[0 .. offset)], [s_avail] the [len] bytes behind it;
    [s_in] is what has not been read yet and [s_rs] the results of the reads
    to come. *)
Record stream := {
  s_done : bytes;
  s_avail : bytes;
  s_ctx : SHA_CTX;
  s_in : bytes;
  s_rs : list rdc;
}.

Record delta_info := {
  di_base_sha1 : bytes;
  di_size : Z;
  di_delta : bytes;
}.

(** [sizeof(buffer)] *)
Definition BUFFER : nat := Z.to_nat 4096.

Section Unpack.
Context `{Zst : ZStream} (malloc_ok : Z -> bool).
Context {D : Type} `{Odb : ObjectDB D}.

(** ** Code: the input *)

(** [do { ... } while (len < min)]; the buffer starts with [avail]. *)
Fixpoint fill_loop (rs : list rdc) (inp avail : bytes) (min : nat) : io (bytes * bytes * list rdc) :=
  match rs with
  | [] => None
  | ROk k :: rs =>
      let ret := (S k `min` ((BUFFER - length avail) `min` length inp))%nat in
      match ret with
      | O => Some Die
      | _ =>
          let avail := avail ++ take ret inp in
          let inp := drop ret inp in
          if (length avail <? min)%nat then fill_loop rs inp avail min else io_ret (avail, inp, rs)
      end
  | RIntr :: rs => fill_loop rs inp avail min
  | RErr :: _ => Some Die
  end.

(** [eof] is never set.  The pointer returned is that of the first byte of
    [s_avail]. *)
Definition fill (min : nat) (s : stream) : io stream :=
  if (min <=? length (s_avail s))%nat then io_ret s
  else if (BUFFER <? min)%nat then Some Die
  else
    let offset := length (s_done s) in
    if (0 <? offset)%nat && (offset <? length (s_avail s))%nat then Some Ub
    else
      let ctx := if (0 <? offset)%nat then SHA1_Update (s_ctx s) (s_done s) (Z.of_nat offset) else s_ctx s in
      r <- fill_loop (s_rs s) (s_in s) (s_avail s) min ;;
      let '(avail, inp, rs) := r in
      io_ret {| s_done := []; s_avail := avail; s_ctx := ctx; s_in := inp; s_rs := rs |}.

Definition use (n : nat) (s : stream) : outcome stream :=
  if (length (s_avail s) <? n)%nat then Die
  else Ret {| s_done := s_done s ++ take n (s_avail s); s_avail := drop n (s_avail s); s_ctx := s_ctx s;
              s_in := s_in s; s_rs := s_rs s |}.

(** One byte read through the pointer [fill(1)] returns, and [use(1)]. *)
Definition next_byte (s : stream) : io (Z * stream) :=
  s <- fill 1 s ;;
  match s_avail s with
  | [] => Some Ub
  | c :: _ => s <- Some (use 1 s) ;; io_ret (c, s)
  end.

(** The [for (;;)] loop; [out] is what has been inflated.  Every iteration
    that goes on has consumed a byte of the input or written one of the
    output. *)
Fixpoint get_data_loop (fuel : nat) (z : zstream) (s : stream) (out : bytes) (avail_out : nat) (size : Z)
    : io (stream * bytes) :=
  match fuel with
  | O => None
  | S fuel =>
      let '(ret, n, o, z) := inflate_stream z (s_avail s) avail_out in
      s <- Some (use n s) ;;
      let out := out ++ o in
      if (Z.of_nat (length out) =? size) && bool_decide (ret = Z_STREAM_END) then io_ret (s, out)
      else if negb (bool_decide (ret = Z_OK)) then Some Die
      else
        s <- fill 1 s ;;
        get_data_loop fuel z s out (avail_out - length o) size
  end.

Definition get_data (size : Z) (s : stream) : io (stream * bytes) :=
  s <- fill 1 s ;;
  let avail_out := Z.to_nat (u32 size) in
  get_data_loop (S (length (s_avail s) + length (s_in s) + avail_out)) inflateInit s [] avail_out size.

(** ** Code: deltas that wait for their base *)

(** The first entry of [delta_list] for a base, and the list without it. *)
Fixpoint take_info (sha1 : bytes) (l : list delta_info) : option (delta_info * list delta_info) :=
  match l with
  | [] => None
  | info :: l =>
      if memcmp 20 (di_base_sha1 info) sha1 =? 0 then Some (info, l)
      else match take_info sha1 l with Some (i, rest) => Some (i, info :: rest) | None => None end
  end.

(** [added] is [added_object]. *)
Definition write_object (added : D * list delta_info -> bytes -> bytes -> bytes -> io (D * list delta_info))
    (st : D * list delta_info) (buf : bytes) (type : bytes) : io (D * list delta_info) :=
  r <- Some (db_write (fst st) buf type) ;;
  let '(ret, sha1, db) := r in
  if ret <? 0 then Some Die else added (db, snd st) sha1 type buf.

Definition resolve_delta (added : D * list delta_info -> bytes -> bytes -> bytes -> io (D * list delta_info))
    (st : D * list delta_info) (type base delta : bytes) (delta_size : Z) : io (D * list delta_info) :=
  r <- Some (patch_delta malloc_ok base delta delta_size) ;;
  match r with
  | None => Some Die
  | Some result => write_object added st result type
  end.

(** After an entry was resolved the search starts again at the head of the
    list, which is shorter by one at least. *)
Fixpoint added_object (fuel : nat) (st : D * list delta_info) (sha1 type data : bytes) : io (D * list delta_info) :=
  match take_info sha1 (snd st) with
  | None => io_ret st
  | Some (info, rest) =>
      match fuel with
      | O => None
      | S fuel =>
          st <- resolve_delta (added_object fuel) (fst st, rest) type data (di_delta info) (di_size info) ;;
          added_object fuel st sha1 type data
      end
  end.

Definition added (st : D * list delta_info) : bytes -> bytes -> bytes -> io (D * list delta_info) :=
  added_object (length (snd st)) st.

(** ** Code: one object *)

Definition unpack_non_delta_entry (dry_run : bool) (kind size : Z) (s : stream) (st : D * list delta_info)
    : io (stream * (D * list delta_info)) :=
  r <- get_data size s ;;
  let '(s, buf) := r in
  match kind_name kind with
  | None => Some Die
  | Some type =>
      st <- (if dry_run then io_ret st else write_object added st buf type) ;;
      io_ret (s, st)
  end.

Definition unpack_delta_entry (dry_run : bool) (delta_size : Z) (s : stream) (st : D * list delta_info)
    : io (stream * (D * list delta_info)) :=
  s <- fill 20 s ;;
  let base_sha1 := take 20 (s_avail s) in
  s <- Some (use 20 s) ;;
  r <- get_data delta_size s ;;
  let '(s, delta_data) := r in
  if dry_run then io_ret (s, st)
  else
    has <- Some (db_has (fst st) base_sha1) ;;
    if negb has then
      io_ret (s, (fst st, {| di_base_sha1 := base_sha1; di_size := delta_size; di_delta := delta_data |} :: snd st))
    else
      base <- db_read (fst st) base_sha1 ;;
      match base with
      | None => Some Die
      | Some (type, base) =>
          st <- resolve_delta added st type base delta_data delta_size ;;
          io_ret (s, st)
      end.

(** [while (c & 0x80)]: the fuel covers the shifts 4 to 32; an [int] shifted
    by 32 has no meaning. *)
Fixpoint size_loop (fuel : nat) (s : stream) (c size shift : Z) : io (stream * Z) :=
  if Z.land c 0x80 =? 0 then io_ret (s, size)
  else
    match fuel with
    | O => Some Ub
    | S fuel =>
        r <- next_byte s ;;
        let '(c, s) := r in
        if 32 <=? shift then Some Ub
        else size_loop fuel s c (u64 (size + u64 (i32 (Z.shiftl (Z.land c 0x7f) shift)))) (shift + 7)
    end.

Definition unpack_one (dry_run : bool) (s : stream) (st : D * list delta_info) : io (stream * (D * list delta_info)) :=
  r <- next_byte s ;;
  let '(c, s) := r in
  let type := Z.land (Z.shiftr c 4) 7 in
  r <- size_loop 5 s c (Z.land c 15) 4 ;;
  let '(s, size) := r in
  if type =? OBJ_DELTA then unpack_delta_entry dry_run size s st
  else if bool_decide (kind_name type = None) then Some Die
  else unpack_non_delta_entry dry_run type size s st.

(** ** Code: the whole pack *)

(** [for (i = 0; i < nr_objects; i++)] with [n] objects to come. *)
Fixpoint unpack_loop (n : nat) (i : Z) (dry_run : bool) (s : stream) (st : D * list delta_info)
    : io (stream * (D * list delta_info)) :=
  match n with
  | O => io_ret (s, st)
  | S n =>
      r <- unpack_one dry_run s st ;;
      if i + 1 <? 2 ^ 31 then unpack_loop n (i + 1) dry_run (fst r) (snd r) else Some Ub
  end.

Definition unpack_all (dry_run : bool) (s : stream) (db : D) : io (stream * D) :=
  s <- fill 12 s ;;
  let hdr := take 12 (s_avail s) in
  let version := be_decode (slice 4 4 hdr) in
  let nr_objects := be_decode (slice 8 4 hdr) in
  if negb (be_decode (slice 0 4 hdr) =? PACK_SIGNATURE) then Some Die
  else if negb (version =? PACK_VERSION) then Some Die
  else
    s <- Some (use 12 s) ;;
    r <- unpack_loop (Z.to_nat nr_objects) 0 dry_run s (db, []) ;;
    let '(s, (db, delta_list)) := r in
    if bool_decide (delta_list = []) then io_ret (s, db) else Some Die.

(** The options: [(dry_run, quiet)]. *)
Fixpoint unpack_args (args : list bytes) (dry_run quiet : bool) : outcome (bool * bool) :=
  match args with
  | [] => Ret (dry_run, quiet)
  | arg :: args =>
      if bool_decide (arg = str "-n") then unpack_args args true quiet
      else if bool_decide (arg = str "-q") then unpack_args args dry_run true
      else Die
  end.

(** The rest of the buffer goes to standard output; an error ends the loop
    only. *)
Fixpoint out_loop (ws : list wr) (buf out : bytes) : io bytes :=
  match buf with
  | [] => io_ret out
  | _ =>
      match ws with
      | [] => None
      | WOk k :: ws => let ret := (S k `min` length buf)%nat in out_loop ws (drop ret buf) (out ++ take ret buf)
      | WZero :: _ => io_ret out
      | WIntr :: ws => out_loop ws buf out
      | WErr :: _ => io_ret out
      end
  end.

(** [main]: the store and what was written to standard output. *)
Definition unpack_objects (args : list bytes) (rs : list rdc) (ws : list wr) (inp : bytes) (db : D) : io (D * bytes) :=
  a <- Some (unpack_args args false false) ;;
  r <- unpack_all (fst a) {| s_done := []; s_avail := []; s_ctx := SHA1_Init; s_in := inp; s_rs := rs |} db ;;
  let '(s, db) := r in
  let '(sha1, ctx) := SHA1_Final (SHA1_Update (s_ctx s) (s_done s) (Z.of_nat (length (s_done s)))) in
  s <- fill 20 {| s_done := s_done s; s_avail := s_avail s; s_ctx := ctx; s_in := s_in s; s_rs := s_rs s |} ;;
  if negb (memcmp 20 (s_avail s) sha1 =? 0) then Some Die
  else
    s <- Some (use 20 s) ;;
    out <- out_loop ws (s_avail s) [] ;;
    io_ret (db, out).


(** ** Reading

    What the buffer and the schedule stand for: [C] has been consumed, [R] is
    still to come, and the reads to come will deliver it. *)

Definition is_rok (r : rdc) : bool := match r with ROk _ => true | _ => false end.

(** The size of a piece that is never moved onto itself: [fill] moves fewer
    than 20 bytes, and as many at least have been used then. *)
Definition PIECE : nat := 40.

Definition is_piece (r : rdc) : bool := match r with ROk k => (PIECE <=? S k)%nat | _ => true end.

(** A [read] that returns has a piece of the stream ready, unless the stream
    ends. *)
Definition delivers (rs : list rdc) (n : nat) : Prop :=
  RErr ∉ rs /\ Forall (fun r => is_piece r = true) rs /\
  (n <= length (List.filter is_rok rs))%nat.

Record reading (s : stream) (C R : bytes) : Prop := {
  rd_hash : exists P, C = P ++ s_done s /\ s_ctx s = foldl sha_byte SHA1_Init P;
  rd_pending : s_avail s ++ s_in s = R;
  rd_room : (length (s_done s) + length (s_avail s) <= BUFFER)%nat;
  rd_live : delivers (s_rs s) (length (s_in s));
  rd_piece : s_in s = [] \/ s_done s ++ s_avail s = [] \/ (PIECE <= length (s_done s) + length (s_avail s))%nat;
}.

Lemma BUFFER_Z : Z.of_nat BUFFER = 4096.
Proof. unfold BUFFER. lia. Qed.

Lemma fill_loop_delivers rs inp avail min :
  delivers rs (length inp) -> (length avail < min)%nat -> (min <= 20)%nat -> (min <= length avail + length inp)%nat ->
  exists avail' inp' rs', fill_loop rs inp avail min = io_ret (avail', inp', rs') /\
    avail' ++ inp' = avail ++ inp /\ (min <= length avail' <= BUFFER)%nat /\ delivers rs' (length inp') /\
    (inp' = [] \/ (PIECE <= length avail')%nat).
Proof.
  pose proof BUFFER_Z. unfold PIECE.
  revert inp avail; induction rs as [|[k| |] rs IH]; intros inp avail (Herr&Hk&Hok) Hlt Hm Hl; cbn in Hok; [lia| | |].
  3:{ exfalso. apply Herr. by left. }
  2:{ cbn [fill_loop]. apply Forall_cons in Hk as [_ Hk]. apply IH; [|done..]. split; [set_solver|done]. }
  apply Forall_cons in Hk as [Hp%Nat.leb_le Hk]. unfold PIECE in Hp.
  cbn [fill_loop]. set (ret := (S k `min` _)%nat).
  assert (Hr : (1 <= ret <= length inp /\ length avail + ret <= BUFFER /\ (ret = length inp \/ 40 <= ret))%nat) by (unfold ret; lia).
  destruct ret as [|ret'] eqn:Er; [lia|]. rewrite <- Er in *. clear Er.
  assert (Hl' : length (avail ++ take ret inp) = (length avail + ret)%nat) by (rewrite length_app, length_take; lia).
  assert (Hd : delivers rs (length (drop ret inp))) by (split; [set_solver|split; [done|rewrite length_drop; lia]]).
  assert (E : (avail ++ take ret inp) ++ drop ret inp = avail ++ inp) by (by rewrite <- app_assoc, take_drop).
  destruct (Nat.ltb_spec (length (avail ++ take ret inp)) min).
  - destruct (IH _ (avail ++ take ret inp) Hd) as (a&i&r&->&E'&H'); [lia|lia|rewrite length_drop; lia|]. exists a, i, r. by rewrite E', E.
  - exists (avail ++ take ret inp), (drop ret inp), rs. split_and!; [done|done|lia|lia|done..|].
    destruct Hr as (_&_&[->|]); [left; by rewrite drop_ge|right; lia].
Qed.

Lemma fill_reading s C R min :
  reading s C R -> (min <= 20)%nat -> (min <= length R)%nat ->
  exists s', fill min s = io_ret s' /\ reading s' C R /\ (min <= length (s_avail s'))%nat.
Proof.
  intros Hs Hm HR. unfold fill. pose proof BUFFER_Z.
  destruct (Nat.leb_spec min (length (s_avail s))) as [|Hlt]; [by exists s|].
  rewrite (proj2 (Nat.ltb_ge _ _)) by lia. cbv zeta. destruct Hs as [(P&HC&Hctx) Hp Hroom Hlive Hpc].
  assert (Hl : (min <= length (s_avail s) + length (s_in s))%nat) by (by rewrite <- length_app, Hp).
  assert (Hno : (0 <? length (s_done s))%nat && (length (s_done s) <? length (s_avail s))%nat = false).
  { unfold PIECE in Hpc. apply andb_false_iff. rewrite !Nat.ltb_ge.
    destruct Hpc as [Hi|[Hd|Hpc]]; [rewrite Hi in Hl; cbn in Hl; lia|apply app_eq_nil in Hd as [-> _]; left; cbn; lia|right; lia]. }
  rewrite Hno. destruct (fill_loop_delivers _ _ _ _ Hlive Hlt Hm Hl) as (a&i&r&->&E&Ha&Hd&Hpa). cbn [io_bind io_ret].
  eexists. split; [done|]. split; [|cbn; lia]. split; cbn [s_done s_avail s_ctx s_in s_rs]; [|by rewrite E|cbn [length]; lia|done|destruct Hpa; [by left|right; right; cbn [length]; lia]].
  exists C. split; [by rewrite app_nil_r|].
  destruct (Nat.ltb_spec 0 (length (s_done s))) as [|Hz].
  - rewrite SHA1_Update_all by lia. by rewrite Hctx, HC, foldl_app.
  - destruct (s_done s); [|cbn in Hz; lia]. by rewrite HC, app_nil_r.
Qed.

Lemma use_reading s C x R :
  reading s C (x ++ R) -> (length x <= length (s_avail s))%nat ->
  exists s', use (length x) s = Ret s' /\ reading s' (C ++ x) R.
Proof.
  intros [(P&HC&Hctx) Hp Hroom Hlive Hpc] Hx. unfold use. rewrite (proj2 (Nat.ltb_ge _ _)) by done.
  assert (E : take (length x) (s_avail s) = x /\ drop (length x) (s_avail s) ++ s_in s = R).
  { apply (f_equal (take (length x))) in Hp as H1. apply (f_equal (drop (length x))) in Hp as H2.
    rewrite take_app_le, take_app_length in H1 by done. by rewrite drop_app_le, drop_app_length in H2. }
  destruct E as [E1 E2]. eexists. split; [done|]. rewrite E1.
  split; cbn [s_done s_avail s_ctx s_in s_rs]; [|done| |done|].
  - exists P. by rewrite HC, <- app_assoc.
  - rewrite length_app, length_drop. lia.
  - rewrite length_app, length_drop. destruct Hpc as [|[E|]]; [by left| |right; right; lia].
    apply app_eq_nil in E as [Ed Ea]. rewrite Ea in Hx. destruct x; [|cbn in Hx; lia]. right; left. by rewrite Ed, Ea.
Qed.

Lemma next_byte_reading s C c R :
  reading s C (c :: R) -> exists s', next_byte s = io_ret (c, s') /\ reading s' (C ++ [c]) R.
Proof.
  intros Hs. unfold next_byte. pose proof BUFFER_Z.
  destruct (fill_reading s C (c :: R) 1 Hs) as (s1&->&Hs1&Ha); [lia|cbn [length]; lia|]. cbn [io_bind io_ret].
  destruct (s_avail s1) as [|c' a] eqn:Ea; [cbn in Ha; lia|].
  assert (c' = c) as -> by (pose proof (rd_pending _ _ _ Hs1) as E; rewrite Ea in E; by injection E).
  destruct (use_reading s1 C [c] R Hs1) as (s2&Hu&Hs2); [rewrite Ea; cbn [length]; lia|]. cbn [length] in Hu.
  rewrite Hu. by exists s2.
Qed.

(** The header of an object is read from the stream as it is from a pack. *)
Lemma size_loop_agrees fuel pack off s C c size shift off' size' :
  reading s C (drop (Z.to_nat off) pack) -> 0 <= off ->
  unpack_size_loop fuel pack off c size shift = Ret (off', size') ->
  exists s' x, size_loop fuel s c size shift = io_ret (s', size') /\ off <= off' /\
    drop (Z.to_nat off) pack = x ++ drop (Z.to_nat off') pack /\ reading s' (C ++ x) (drop (Z.to_nat off') pack).
Proof.
  revert off s C c size shift; induction fuel as [|fuel IH]; intros off s C c size shift Hs Hoff;
    cbn [unpack_size_loop size_loop]; destruct (Z.land c 0x80 =? 0); try done;
    try (intros [= <- <-]; exists s, []; split_and!; [done|lia|done|by rewrite app_nil_r]).
  destruct (Z.leb_spec (Z.of_nat (length pack)) off) as [|Hlt]; [done|].
  intros (c'&Hc&Hrest)%bind_Ret_inv. unfold rd in Hc. rewrite bool_decide_true in Hc by done.
  destruct (pack !! Z.to_nat off) as [x|] eqn:Ex; [|done]. injection Hc as ->.
  rewrite (drop_S pack c' (Z.to_nat off)) in Hs |- * by done.
  destruct (next_byte_reading s C c' _ Hs) as (s1&->&Hs1). cbn [io_bind io_ret].
  destruct (32 <=? shift); [done|]. replace (S (Z.to_nat off)) with (Z.to_nat (off + 1)) in * by lia.
  destruct (IH _ _ _ _ _ _ Hs1 ltac:(lia) Hrest) as (s2&y&->&Hle&E&Hs2). exists s2, (c' :: y).
  rewrite <- app_assoc in Hs2. split_and!; [done|lia|by rewrite E|exact Hs2].
Qed.

(** The header of an entry and what is done with it. *)
Definition one_header (s : stream) : io (Z * Z * stream) :=
  r <- next_byte s ;;
  let '(c, s) := r in
  r <- size_loop 5 s c (Z.land c 15) 4 ;;
  io_ret (Z.land (Z.shiftr c 4) 7, snd r, fst r).

Lemma one_header_reading s C type size R :
  1 <= type <= 7 -> 0 <= size < 2 ^ 31 -> reading s C (object_hdr type size ++ R) ->
  exists s', one_header s = io_ret (type, size, s') /\ reading s' (C ++ object_hdr type size) R.
Proof.
  intros Ht Hz Hs. pose proof (unpack_object_header_eq [] type size R Ht Hz) as Hu. cbn [app length Nat.add] in Hu.
  pose proof (object_hdr_nonempty type size) as Hne. remember (object_hdr type size) as hdr eqn:Eh. clear Eh.
  destruct hdr as [|c t]; [cbn in Hne; lia|]. cbn [app] in *. unfold unpack_object_header in Hu.
  rewrite (proj2 (Z.leb_gt _ _)) in Hu by (cbn [length]; lia). change (rd (c :: t ++ R) (Z.of_nat 0)) with (Ret c) in Hu.
  rewrite bind_Ret in Hu. apply bind_Ret_inv in Hu as ([off sz]&Hl&Hu). injection Hu as -> <- ->.
  unfold one_header. destruct (next_byte_reading s C c (t ++ R) Hs) as (s1&->&Hs1). cbn [io_bind io_ret].
  destruct (size_loop_agrees 5 (c :: t ++ R) 1 s1 (C ++ [c]) c _ _ _ _ Hs1 ltac:(lia) Hl) as (s2&x&->&_&E&Hs2).
  exists s2. split; [done|]. rewrite Nat2Z.id in Hs2, E. cbn [length drop] in Hs2, E. rewrite drop_app_length in Hs2, E.
  change (drop (Z.to_nat 1) (c :: t ++ R)) with (t ++ R) in E. apply app_inv_tail in E as <-.
  by rewrite <- app_assoc in Hs2.
Qed.

Context {Zl : Zlib} {Zsl : ZStreamLaws}.

Lemma get_data_loop_reading fuel z x m s C R out avail_out size :
  expects z x m -> reading s C (x ++ R) -> (1 <= length (s_avail s))%nat ->
  (length m <= avail_out)%nat -> Z.of_nat (length out + length m) = size -> (length x <= fuel)%nat ->
  exists s', get_data_loop fuel z s out avail_out size = io_ret (s', out ++ m) /\ reading s' (C ++ x) R.
Proof.
  revert z x m s C out avail_out; induction fuel as [|fuel IH]; intros z x m s C out avail_out Hz Hs Ha Hm Hsize Hf.
  { apply expects_more in Hz. destruct x; [done|cbn in Hf; lia]. }
  cbn [get_data_loop]. pose proof (rd_pending _ _ _ Hs) as Hp.
  destruct (Nat.le_gt_cases (length x) (length (s_avail s))) as [Hle|Hgt].
  - assert (E : s_avail s = x ++ drop (length x) (s_avail s)).
    { apply (f_equal (take (length x))) in Hp. rewrite take_app_le, take_app_length in Hp by done. by rewrite <- Hp at 1; rewrite take_drop. }
    destruct (inflate_stream_end z x m (drop (length x) (s_avail s)) avail_out Hz Hm) as [z' Hi].
    rewrite <- E in Hi. rewrite Hi. destruct (use_reading s C x R Hs Hle) as (s'&->&Hs'). cbn [io_bind].
    rewrite length_app, (proj2 (Z.eqb_eq _ _)) by lia. rewrite bool_decide_true by done. by exists s'.
  - assert (E : s_avail s = take (length (s_avail s)) x).
    { apply (f_equal (take (length (s_avail s)))) in Hp. by rewrite take_app_length, take_app_le in Hp by lia. }
    destruct (inflate_stream_part z x m (length (s_avail s)) avail_out Hz ltac:(lia) Hm) as (o&m'&z'&->&Hi&Hz').
    rewrite <- E in Hi. rewrite Hi. rewrite <- (take_drop (length (s_avail s)) x), <- E, <- app_assoc in Hs.
    destruct (use_reading s C _ _ Hs) as (s1&->&Hs1); [done|]. cbn [io_bind]. rewrite length_app in *.
    rewrite (bool_decide_false (Z_OK = Z_STREAM_END)), andb_false_r, bool_decide_true by done. cbn [negb].
    assert (Hne : (1 <= length (drop (length (s_avail s)) x))%nat) by (rewrite length_drop; lia).
    destruct (fill_reading s1 _ _ 1 Hs1) as (s2&->&Hs2&Ha2); [lia|rewrite length_app; lia|].
    cbn [io_bind io_ret].
    destruct (IH z' (drop (length (s_avail s)) x) m' s2 (C ++ s_avail s) (out ++ o) (avail_out - length o)%nat) as (s'&->&Hs');
      [done|done|lia|lia|rewrite length_app; lia|rewrite length_drop; lia|].
    exists s'. rewrite <- !app_assoc in *. split; [done|]. rewrite E in Hs' at 1. by rewrite take_drop in Hs'.
Qed.

Lemma get_data_reading s C level buf R :
  reading s C (deflate level [buf] ++ R) -> Z.of_nat (length buf) < 2 ^ 32 ->
  exists s', get_data (Z.of_nat (length buf)) s = io_ret (s', buf) /\ reading s' (C ++ deflate level [buf]) R.
Proof.
  intros Hs Hl. pose proof (expects_init level [buf]) as He. cbn [concat] in He. rewrite app_nil_r in He.
  pose proof (expects_more _ _ _ He) as Hne. unfold get_data. pose proof BUFFER_Z.
  destruct (fill_reading s _ _ 1 Hs) as (s1&->&Hs1&Ha); [lia|rewrite length_app; destruct (deflate level [buf]); [done|cbn; lia]|].
  cbn [io_bind io_ret]. cbv zeta. rewrite u32_small, Nat2Z.id by lia.
  destruct (get_data_loop_reading (S (length (s_avail s1) + length (s_in s1) + length buf)) inflateInit (deflate level [buf]) buf s1 C R [] (length buf) (Z.of_nat (length buf)))
    as (s2&->&Hs2); [done..|lia|done| |by exists s2].
  pose proof (rd_pending _ _ _ Hs1) as Hp. apply (f_equal length) in Hp. rewrite !length_app in Hp. lia.
Qed.

End Unpack.
