(* ===== verification/UnpackStore.v ===== *)
(** * From a pack on standard input to the object store

    Proofs about Unpack.v: the entries of a pack are read from the stream
    however the reads split it; every object is stored, in whatever order
    deltas and bases arrive; what git-pack-objects wrote, git-unpack-objects
    stores. *)

From stdpp Require Import base list numbers strings sets.
From Stdlib Require Import ZArith Lia.
From S2P Require Import Prelude.
From S2P Require Import Sha1.
From S2P Require Import Hex.
From S2P Require Import PktLine.
From S2P Require Import Delta.
From S2P Require Import CsumFile.
From S2P Require Import PackIndex.
From S2P Require Import Zlib.
From S2P Require Import ObjectHeader.
From S2P Require Import PackEntry.
From S2P Require Import ObjectStore.
From S2P Require Import ObjectDB.
From S2P Require Import PackWrite.
From S2P Require Import PackRoundtrip.
From S2P Require Import PackDeltas.
From S2P Require Import Unpack.

(** ** The entries of the stream *)

Section Entries.
Context {Zl : Zlib} {Zst : ZStream} {Zsl : ZStreamLaws} {D : Type} {Odb : ObjectDB D} (malloc_ok : Z -> bool) (dry_run : bool).

Abbreviation payload := (Z * Z * option bytes * bytes)%type.
Abbreviation added := (added malloc_ok).
Abbreviation unpack_one := (unpack_one malloc_ok dry_run).
Abbreviation unpack_loop := (unpack_loop malloc_ok).

(** What is done with the contents of an entry. *)
Definition store_payload (st : D * list delta_info) (p : payload) : io (D * list delta_info) :=
  let '(type, size, base, buf) := p in
  if dry_run then io_ret st
  else
    match base with
    | None => match kind_name type with Some t => write_object added st buf t | None => Some Die end
    | Some b =>
        has <- Some (db_has (fst st) b) ;;
        if negb has then io_ret (fst st, {| di_base_sha1 := b; di_size := size; di_delta := buf |} :: snd st)
        else
          base <- db_read (fst st) b ;;
          match base with
          | None => Some Die
          | Some (type, base) => resolve_delta malloc_ok added st type base buf size
          end
    end.

Fixpoint store_all (st : D * list delta_info) (ps : list payload) : io (D * list delta_info) :=
  match ps with
  | [] => io_ret st
  | p :: ps => st <- store_payload st p ;; store_all st ps
  end.

(** An entry as [write_object] of pack-objects writes it. *)
Definition typed (p : payload) : Prop :=
  let '(type, size, base, buf) := p in
  match base with None => kind_name type <> None | Some _ => type = OBJ_DELTA end.

Lemma io_bind_assoc {A B C} (m : io A) (f : A -> io B) (g : B -> io C) :
  (b <- (a <- m ;; f a) ;; g b) = (a <- m ;; b <- f a ;; g b).
Proof. by destruct m as [[]|]. Qed.

Lemma io_bind_eta {A B} (m : io A) (f g : A -> io B) : (forall a, f a = g a) -> io_bind m f = io_bind m g.
Proof. intros E. destruct m as [[]|]; cbn; auto. Qed.

Lemma unpack_one_header s st : unpack_one s st =
  (h <- one_header s ;;
   let '(type, size, s) := h in
   if type =? OBJ_DELTA then unpack_delta_entry malloc_ok dry_run size s st
   else if bool_decide (kind_name type = None) then Some Die
   else unpack_non_delta_entry malloc_ok dry_run type size s st).
Proof.
  unfold Unpack.unpack_one, one_header. rewrite io_bind_assoc. apply io_bind_eta. intros [c s'].
  rewrite io_bind_assoc. apply io_bind_eta. by intros [s'' size].
Qed.

Lemma unpack_one_reading s C R p st :
  payload_ok p -> typed p -> reading s C (entry_bytes p ++ R) ->
  exists s', unpack_one s st = (st <- store_payload st p ;; io_ret (s', st)) /\ reading s' (C ++ entry_bytes p) R.
Proof.
  destruct p as [[[type size] base] buf]. intros (Ht&Hsz&Hlt&Hok&Hb) Hty Hs. cbn [entry_bytes typed] in *.
  rewrite unpack_one_header. rewrite <- app_assoc in Hs.
  destruct (one_header_reading s C type size _ Ht ltac:(lia) Hs) as (s1&->&Hs1). cbn [io_bind io_ret].
  destruct base as [b|].
  - subst type. rewrite Z.eqb_refl. unfold unpack_delta_entry. destruct Hb as [Hbl Hbok]. cbn [default id] in Hs1 |- *.
    rewrite <- app_assoc in Hs1. pose proof BUFFER_Z.
    destruct (fill_reading s1 _ _ 20 Hs1) as (s2&->&Hs2&Ha); [lia|rewrite length_app; lia|]. cbn [io_bind io_ret].
    assert (Eb : take 20 (s_avail s2) = b).
    { pose proof (rd_pending _ _ _ Hs2) as Hp. apply (f_equal (take 20)) in Hp.
      by rewrite take_app_le, take_app_length' in Hp by lia. }
    rewrite Eb. destruct (use_reading s2 _ b _ Hs2 ltac:(lia)) as (s3&Hu&Hs3). rewrite Hbl in Hu. rewrite Hu. cbn [io_bind].
    subst size. destruct (get_data_reading s3 _ (-1) buf R Hs3 ltac:(lia)) as (s4&->&Hs4). cbn [io_bind io_ret].
    exists s4. rewrite <- !app_assoc in *. split; [|done]. unfold store_payload.
    destruct dry_run; [done|]. destruct (db_has (fst st) b) as [[]| |]; cbn [io_bind negb]; [|done..].
    rewrite io_bind_assoc. apply io_bind_eta. by intros [[t bd]|].
  - destruct (kind_name type) as [t|] eqn:Ek; [|done]. apply kind_name_range in Ek as Hr.
    rewrite (proj2 (Z.eqb_neq _ _)) by (unfold OBJ_DELTA; lia). rewrite bool_decide_false by done.
    unfold unpack_non_delta_entry. subst size. cbn [default app] in Hs1 |- *.
    destruct (get_data_reading s1 _ (-1) buf R Hs1 ltac:(lia)) as (s2&->&Hs2). cbn [io_bind io_ret].
    rewrite Ek. exists s2. rewrite <- !app_assoc in *. split; [|done]. unfold store_payload. rewrite Ek. by destruct dry_run.
Qed.

Lemma unpack_loop_reading ps i s C R st :
  Forall payload_ok ps -> Forall typed ps -> i + Z.of_nat (length ps) < 2 ^ 31 ->
  reading s C (concat (map entry_bytes ps) ++ R) ->
  exists s', unpack_loop (length ps) i dry_run s st = (st <- store_all st ps ;; io_ret (s', st)) /\
    reading s' (C ++ concat (map entry_bytes ps)) R.
Proof.
  intros Hok; revert i s C st; induction Hok as [|p ps Hp Hok IH]; intros i s C st Hty Hi Hs; cbn [length Unpack.unpack_loop map concat store_all] in *.
  { exists s. by rewrite app_nil_r. }
  apply Forall_cons in Hty as [Htp Hty]. rewrite <- app_assoc in Hs.
  destruct (unpack_one_reading s C _ p st Hp Htp Hs) as (s1&->&Hs1). rewrite !io_bind_assoc.
  destruct (store_payload st p) as [[st1| |]|] eqn:Es; cbn [io_bind].
  2-4: destruct (IH (i + 1) s1 (C ++ entry_bytes p) st Hty ltac:(lia) Hs1) as (s2&_&Hs2); exists s2; by rewrite app_assoc.
  cbn [io_ret io_bind fst snd]. rewrite (proj2 (Z.ltb_lt _ _)) by lia.
  destruct (IH (i + 1) s1 (C ++ entry_bytes p) st1 Hty ltac:(lia) Hs1) as (s2&->&Hs2). exists s2. by rewrite app_assoc.
Qed.

Lemma store_all_dry st ps : dry_run = true -> store_all st ps = io_ret st.
Proof.
  intros E. induction ps as [|[[[t z] b] buf] ps IH]; [done|]. cbn [store_all]. unfold store_payload. rewrite E. exact IH.
Qed.

End Entries.

(** ** Every object is stored

    The entries of a pack are numbered: [obj i] is the object entry [i]
    stands for, [pay i] what the pack holds for it, [base i] the entry it is a
    delta against. *)

Section Store.
Context {D : Type} {inv : D -> Prop} {objs : list (bytes * bytes)} {Odb : ObjectDB D} {Laws : ObjectDBLaws inv objs}.
Context (obj : nat -> bytes * bytes) (pay : nat -> Z * Z * option bytes * bytes) (base : nat -> option nat).
Context (rank : nat -> nat) (order : list nat).

Abbreviation mok := (fun _ : Z => true).
Abbreviation name i := (object_name (obj i).1 (obj i).2).

(** Entry [i] makes its object, directly or out of its base. *)
Definition entry_makes (i : nat) : Prop :=
  obj i ∈ objs /\
  match base i with
  | None => exists type size, pay i = (type, size, None, (obj i).2) /\ kind_name type = Some (obj i).1
  | Some d => d ∈ order /\ (rank d < rank i)%nat /\ (obj d).1 = (obj i).1 /\
      exists size delta, pay i = (OBJ_DELTA, size, Some (name d), delta) /\
        patch_delta mok (obj d).2 delta size = Ret (Some (obj i).2)
  end.

Context (Hplan : forall i, i ∈ order -> entry_makes i).

Definition info_of (i : nat) : delta_info :=
  let '(_, size, b, buf) := pay i in {| di_base_sha1 := default [] b; di_size := size; di_delta := buf |}.

(** Entries that wait for a base. *)
Definition deltas (Q : list nat) : Prop := forall q, q ∈ Q -> q ∈ order /\ base q <> None.

Lemma obj_in i : i ∈ order -> obj i ∈ objs.
Proof. intros Hi. by apply (Hplan i Hi). Qed.

Lemma delta_base q : q ∈ order -> base q <> None -> exists d, base q = Some d /\ d ∈ order /\
  di_base_sha1 (info_of q) = name d /\ (obj d).1 = (obj q).1 /\ (rank d < rank q)%nat /\
  patch_delta mok (obj d).2 (di_delta (info_of q)) (di_size (info_of q)) = Ret (Some (obj q).2).
Proof.
  intros Hq Hb. destruct (Hplan q Hq) as [_ Hm]. destruct (base q) as [d|]; [|done]. exists d.
  destruct Hm as (Hd&Hr&Ht&size&delta&Hp&Hpatch). unfold info_of. rewrite Hp. cbn [di_base_sha1 di_delta di_size default id]. done.
Qed.

Lemma memcmp_names i j : i ∈ order -> j ∈ order -> (memcmp 20 (name i) (name j) =? 0) = true <-> name i = name j.
Proof.
  intros Hi Hj. destruct (db_name_ok _ (obj_in i Hi)) as [Li _], (db_name_ok _ (obj_in j Hj)) as [Lj _].
  rewrite memcmp_full by done. rewrite Z.eqb_eq. apply lexcmp_0.
Qed.

Lemma take_info_spec i Q : i ∈ order -> deltas Q ->
  match take_info (name i) (map info_of Q) with
  | None => forall q d, q ∈ Q -> base q = Some d -> name d <> name i
  | Some (info, rest) => exists Q1 q Q2 d, Q = Q1 ++ q :: Q2 /\ info = info_of q /\ rest = map info_of (Q1 ++ Q2) /\
      base q = Some d /\ name d = name i
  end.
Proof.
  intros Hi. induction Q as [|q Q IH]; intros HQ; cbn [map take_info]; [intros q d Hq; by apply elem_of_nil in Hq|].
  destruct (HQ q) as [Hq Hb]; [by left|]. destruct (delta_base q Hq Hb) as (d&Ed&Hd&En&_). rewrite En.
  destruct (memcmp 20 (name d) (name i) =? 0) eqn:Ec.
  - apply memcmp_names in Ec; [|done..]. by exists [], q, Q, d.
  - assert (Hne : name d <> name i) by (intros E; apply (memcmp_names d i Hd Hi) in E; congruence).
    specialize (IH (fun q' Hq' => HQ q' ltac:(by right))).
    destruct (take_info (name i) (map info_of Q)) as [[info rest]|].
    + destruct IH as (Q1&q'&Q2&d'&->&->&->&H'). by exists (q :: Q1), q', Q2, d'.
    + intros q' d' [->|Hq']%elem_of_cons Hd'; [|by eapply IH]. rewrite Ed in Hd'. by injection Hd' as <-.
Qed.

(** What [added_object] leaves: entries still waiting are among those that
    waited, none for the object just added or for one added on the way. *)
Record resolved (i : nat) (db : D) (Q : list nat) (db' : D) (Q' : list nat) : Prop := {
  rs_inv : inv db';
  rs_length : (length Q' <= length Q)%nat;
  rs_sub : forall q, q ∈ Q' -> q ∈ Q;
  rs_keeps : forall o, o ∈ objs -> db_holds db o -> db_holds db' o;
  rs_stored : forall q, q ∈ Q -> q ∈ Q' \/ db_holds db' (obj q);
  rs_waits : forall q d, q ∈ Q' -> base q = Some d ->
    name d <> name i /\ (db_has db' (name d) = Ret true -> db_has db (name d) = Ret true);
}.

Lemma added_object_resolves fuel db Q i :
  inv db -> deltas Q -> i ∈ order -> (length Q <= fuel)%nat ->
  exists db' Q', added_object mok fuel (db, map info_of Q) (name i) (obj i).1 (obj i).2 = io_ret (db', map info_of Q') /\
    resolved i db Q db' Q'.
Proof.
  revert db Q i; induction fuel as [|fuel IH]; intros db Q i Hinv HQ Hi Hf; cbn [added_object fst snd];
    pose proof (take_info_spec i Q Hi HQ) as Ht; destruct (take_info (name i) (map info_of Q)) as [[info rest]|].
  1: { destruct Ht as (Q1&q&Q2&d&->&_). rewrite length_app in Hf. cbn in Hf. lia. }
  1,3: exists db, Q; split; [done|]; split; [done|done|done|done|by left|]; intros q d Hq Hd; split; [by eapply Ht|done].
  destruct Ht as (Q1&q&Q2&d&->&->&->&Hd&En).
  assert (Hin : q ∈ Q1 ++ q :: Q2) by (rewrite elem_of_app; right; left).
  assert (HQ' : deltas (Q1 ++ Q2)) by (intros q' Hq'; apply HQ; set_solver).
  rewrite length_app in Hf. cbn [length] in Hf.
  destruct (HQ q Hin) as [Hq Hb]. destruct (delta_base q Hq Hb) as (d'&Hd'&Hdo&_&Ety&_&Hpatch).
  rewrite Hd in Hd'. injection Hd' as <-.
  assert (Eo : obj d = obj i) by (apply db_name_inj; [by apply obj_in..|done]). rewrite Eo in Ety, Hpatch.
  unfold resolve_delta. rewrite Hpatch. cbn [io_bind]. unfold write_object. cbn [fst snd]. rewrite Ety.
  destruct (db_write_keeps db (obj q) Hinv (obj_in q Hq)) as (db1&Hw&Hinv1&Hh1&_&Hkeep1).
  destruct (db_write_ok db (obj q) Hinv (obj_in q Hq)) as (db1'&Hw'&_&_&Hother). rewrite Hw in Hw'. injection Hw' as <-.
  rewrite Hw. cbn [io_bind]. change (0 <? 0) with false. cbv iota.
  destruct (IH db1 (Q1 ++ Q2) q Hinv1 HQ' Hq) as (db2&Q'&->&H2); [rewrite length_app; lia|]. cbn [io_bind io_ret].
  destruct H2 as [Hinv2 Hl2 Hs2 Hk2 Hst2 Hw2]. rewrite length_app in Hl2.
  destruct (IH db2 Q' i Hinv2) as (db3&Q''&HE&H3); [intros q' Hq'; by apply HQ', Hs2|done|lia|].
  rewrite Ety in HE. exists db3, Q''. split; [exact HE|]. destruct H3 as [Hinv3 Hl3 Hs3 Hk3 Hst3 Hw3]. split.
  - done.
  - rewrite length_app. cbn [length]. lia.
  - intros q' Hq'. specialize (Hs2 _ (Hs3 _ Hq')). set_solver.
  - intros o Ho Hh. by apply Hk3, Hk2, Hkeep1.
  - intros q' [Hq'|[->|Hq']%elem_of_cons]%elem_of_app.
    + destruct (Hst2 q') as [|Hh]; [set_solver|by apply Hst3|]. right. apply Hk3; [|done]. apply obj_in. apply HQ. set_solver.
    + right. apply Hk3, Hk2; [by apply obj_in..|done].
    + destruct (Hst2 q') as [|Hh]; [set_solver|by apply Hst3|]. right. apply Hk3; [|done]. apply obj_in. apply HQ. set_solver.
  - intros q' e Hq' He. destruct (Hw3 q' e Hq' He) as [Hn3 Hb3]. split; [done|]. intros Hh.
    destruct (Hw2 q' e (Hs3 _ Hq') He) as [Hn2 Hb2]. specialize (Hb2 (Hb3 Hh)).
    destruct (Hother (name e)) as [<- _]; [|done|done]. apply db_name_ok, obj_in.
    destruct (HQ' q') as [Hqo Hqb]; [by apply Hs2, Hs3|]. destruct (delta_base q' Hqo Hqb) as (e'&He'&Heo&_). congruence.
Qed.

(** The entries in [P] have been read: each is stored or waits, and what
    waits has no base in the store. *)
Record progress (P : list nat) (db : D) (Q : list nat) : Prop := {
  pg_inv : inv db;
  pg_deltas : deltas Q;
  pg_missing : forall q d, q ∈ Q -> base q = Some d -> db_has db (name d) = Ret false;
  pg_done : forall i, i ∈ P -> i ∈ order /\ (i ∈ Q \/ db_holds db (obj i));
}.

Lemma base_in q d : q ∈ order -> base q = Some d -> d ∈ order.
Proof. intros Hq Hd. destruct (delta_base q Hq) as (d'&Hd'&Hin&_); [by rewrite Hd|]. congruence. Qed.

Lemma write_progress P db Q i :
  progress P db Q -> i ∈ order ->
  exists db' Q', write_object (added mok) (db, map info_of Q) (obj i).2 (obj i).1 = io_ret (db', map info_of Q') /\
    progress (i :: P) db' Q'.
Proof.
  intros [Hinv HQ Hm Hd] Hi. unfold write_object. cbn [fst snd].
  destruct (db_write_ok db (obj i) Hinv (obj_in i Hi)) as (db1&Hw&Hinv1&Hh1&Hother).
  destruct (db_write_keeps db (obj i) Hinv (obj_in i Hi)) as (db1'&Hw'&_&_&_&Hkeep). rewrite Hw in Hw'. injection Hw' as <-.
  rewrite Hw. cbn [io_bind]. change (0 <? 0) with false. cbv iota. unfold added. cbn [snd]. rewrite length_map.
  destruct (added_object_resolves (length Q) db1 Q i Hinv1 HQ Hi) as (db2&Q'&->&H2); [done|].
  exists db2, Q'. split; [done|]. destruct H2 as [Hinv2 Hl2 Hs2 Hk2 Hst2 Hw2].
  assert (HQ' : deltas Q') by (intros q Hq; by apply HQ, Hs2). split; [done|done| |].
  - intros q d Hq Hb. destruct (HQ' q Hq) as [Hqo _]. pose proof (base_in q d Hqo Hb) as Hdo.
    destruct (db_known db2 (obj d) Hinv2 (obj_in d Hdo)) as [|[Hyes _]]; [done|]. exfalso.
    destruct (Hw2 q d Hq Hb) as [Hne Hback]. specialize (Hback Hyes).
    destruct (Hother (name d)) as [E _]; [by apply db_name_ok, obj_in|done|]. rewrite E, (Hm q d) in Hback; [done|by apply Hs2|done].
  - intros j [->|Hj]%elem_of_cons; [split; [done|]; right; apply Hk2; [by apply obj_in|done]|].
    destruct (Hd j Hj) as [Hjo [Hq|Hh]]; (split; [done|]); [by apply Hst2|].
    right. apply Hk2; [by apply obj_in|]. apply Hkeep; [by apply obj_in|done].
Qed.

Lemma store_payload_progress P db Q i :
  progress P db Q -> i ∈ order ->
  exists db' Q', store_payload mok false (db, map info_of Q) (pay i) = io_ret (db', map info_of Q') /\
    progress (i :: P) db' Q'.
Proof.
  intros Hp Hi. pose proof (Hplan i Hi) as [Hin Hm]. destruct (base i) as [d|] eqn:Ed.
  - destruct Hm as (Hd&_&Ety&size&delta&Epay&Hpatch). rewrite Epay. cbn [store_payload fst snd].
    destruct (db_known db (obj d) (pg_inv _ _ _ Hp) (obj_in d Hd)) as [Hno|[Hyes Hread]].
    + rewrite Hno. cbn [io_bind negb]. exists db, (i :: Q).
      split; [cbn [map]; unfold info_of at 2; by rewrite Epay|]. destruct Hp as [Hinv HQ Hms Hdn]. split; [done| | |].
      * intros q [->|Hq]%elem_of_cons; [split; [done|by rewrite Ed]|by apply HQ].
      * intros q d' [->|Hq]%elem_of_cons Hd'; [rewrite Ed in Hd'; by injection Hd' as <-|by apply (Hms q)].
      * intros j [->|Hj]%elem_of_cons; [split; [done|]; left; by left|]. destruct (Hdn j Hj) as [? [?|?]]; (split; [done|]); [left; by right|by right].
    + rewrite Hyes. cbn [io_bind negb]. rewrite Hread. destruct (obj d) as [td bd] eqn:Eo. cbn [io_bind io_ret fst snd] in *. unfold resolve_delta. rewrite Hpatch. cbn [io_bind].
      rewrite Ety. by apply write_progress.
  - destruct Hm as (type&size&Epay&Hk). rewrite Epay. cbn [store_payload]. rewrite Hk. by apply write_progress.
Qed.

Lemma store_all_progress l P db Q :
  progress P db Q -> Forall (fun i => i ∈ order) l ->
  exists db' Q', store_all mok false (db, map info_of Q) (map pay l) = io_ret (db', map info_of Q') /\
    progress (rev l ++ P) db' Q'.
Proof.
  intros Hp HF; revert P db Q Hp; induction HF as [|i l Hi HF IH]; intros P db Q Hp; cbn [map store_all rev].
  { by exists db, Q. }
  destruct (store_payload_progress P db Q i Hp Hi) as (db1&Q1&->&Hp1). cbn [io_bind io_ret].
  destruct (IH _ _ _ Hp1) as (db2&Q2&->&Hp2). exists db2, Q2. by rewrite <- app_assoc.
Qed.

(** When every entry has been read none waits: the base of one of least rank
    would be stored. *)
Lemma progress_done P db Q : progress P db Q -> (forall i, i ∈ order -> i ∈ P) ->
  Q = [] /\ forall i, i ∈ order -> db_holds db (obj i).
Proof.
  intros [Hinv HQ Hm Hd] Hall.
  assert (Hh : forall n i, (rank i < n)%nat -> i ∈ order -> db_holds db (obj i)).
  { induction n as [|n IH]; intros i Hr Hi; [lia|]. destruct (Hd i (Hall i Hi)) as [_ [Hq|]]; [|done]. exfalso.
    destruct (HQ i Hq) as [_ Hb]. destruct (delta_base i Hi Hb) as (d&Ed&Hdo&_&_&Hlt&_).
    destruct (IH d ltac:(lia) Hdo) as [Hyes _]. by rewrite (Hm i d Hq Ed) in Hyes. }
  assert (Hhold : forall i, i ∈ order -> db_holds db (obj i)) by (intros i Hi; by apply (Hh (S (rank i))); [lia|]).
  split; [|done]. destruct Q as [|q Q]; [done|]. exfalso. destruct (HQ q) as [Hqo Hb]; [by left|].
  destruct (delta_base q Hqo Hb) as (d&Ed&Hdo&_). destruct (Hhold d Hdo) as [Hyes _]. rewrite (Hm q d) in Hyes; [done|by left|done].
Qed.

Lemma store_all_stores db :
  inv db -> exists db', store_all mok false (db, []) (map pay order) = io_ret (db', []) /\ inv db' /\
    forall i, i ∈ order -> db_holds db' (obj i).
Proof.
  intros Hinv. assert (H0 : progress [] db []).
  { split; [done|intros q Hq|intros q d Hq|intros i Hi]; by apply elem_of_nil in Hq || by apply elem_of_nil in Hi. }
  destruct (store_all_progress order [] db [] H0) as (db'&Q&Hs&Hp); [by apply Forall_forall|].
  destruct (progress_done _ _ _ Hp) as [-> Hh]; [intros i Hi; rewrite app_nil_r; by rewrite <- Permutation_rev|].
  exists db'. split; [exact Hs|]. split; [apply Hp|done].
Qed.

End Store.

(** ** What pack-objects wrote is stored *)

(** Every write to come takes something, and there are [n] of them. *)
Definition is_wok (w : wr) : bool := match w with WOk _ => true | _ => false end.
Definition accepts (ws : list wr) (n : nat) : Prop :=
  WErr ∉ ws /\ WZero ∉ ws /\ (n <= length (List.filter is_wok ws))%nat.

Lemma out_loop_accepts ws buf out : accepts ws (length buf) -> out_loop ws buf out = io_ret (out ++ buf).
Proof.
  revert buf out; induction ws as [|w ws IH]; intros buf out (He&Hz&Hn).
  { destruct buf; [by rewrite app_nil_r|cbn in Hn; lia]. }
  destruct buf as [|c buf]; [cbn [out_loop]; by rewrite app_nil_r|].
  set (b := c :: buf) in *. assert (Hb : (1 <= length b)%nat) by (cbn; lia).
  destruct w as [k| | |]; [|exfalso; apply Hz; by left| |exfalso; apply He; by left].
  - cbn [List.filter is_wok length] in Hn. set (ret := (S k `min` length b)%nat). assert (Hr : (1 <= ret <= length b)%nat) by (unfold ret; lia).
    change (out_loop (WOk k :: ws) b out) with (out_loop ws (drop ret b) (out ++ take ret b)).
    rewrite IH; [by rewrite <- app_assoc, take_drop|]. split; [set_solver|]. split; [set_solver|]. rewrite length_drop. lia.
  - change (out_loop (WIntr :: ws) b out) with (out_loop ws b out). apply IH. split; [set_solver|]. split; [set_solver|done].
Qed.

Section Transfer.
Context {Zl : Zlib} {Zlaws : ZlibLaws} {Zst : ZStream} {Zsl : ZStreamLaws}.
Context (malloc_ok : nat -> Z -> bool).
Context (read_sha1_file : bytes -> outcome (option (bytes * bytes))).

(** The store the pack was made from keeps every object under its name. *)
Definition well_named : Prop := forall sha1 type data,
  read_sha1_file sha1 = Ret (Some (type, data)) -> object_name type data = sha1.

Context (Hnamed : well_named).

(** The object of a name. *)
Definition obj_at (sha1 : bytes) : bytes * bytes :=
  match read_sha1_file sha1 with Ret (Some o) => o | _ => ([], []) end.

Section Pack.
Context (objects : list object_entry) (Hpk : packable read_sha1_file objects).

Definition obj_of (i : nat) : bytes * bytes :=
  match objects !! i with Some e => obj_at (oe_sha1 e) | None => ([], []) end.

Definition payload_of (i : nat) : Z * Z * option bytes * bytes :=
  match objects !! i with
  | Some e => match object_payload malloc_ok read_sha1_file objects e with Ret p => p | _ => (0, 0, None, []) end
  | None => (0, 0, None, [])
  end.

Definition base_of (i : nat) : option nat := objects !! i ≫= oe_delta.
Definition rank_of (i : nat) : nat := match objects !! i with Some e => Z.to_nat (oe_depth e) | None => 0 end.

(** The objects of the array. *)
Definition pack_contents : list (bytes * bytes) := map obj_at (map oe_sha1 objects).

Lemma obj_of_eq i e type data : objects !! i = Some e -> readable read_sha1_file e type data -> obj_of i = (type, data).
Proof. intros He (Hr&_). unfold obj_of, obj_at. by rewrite He, Hr. Qed.

Lemma entry_makes_object order i p :
  order ≡ₚ seq 0 (length objects) -> entry_payload malloc_ok read_sha1_file objects i p ->
  payload_of i = p /\ payload_ok p /\ typed p /\ entry_makes (objs := pack_contents) obj_of payload_of base_of rank_of order i.
Proof.
  intros Hord (e&He&Hp). destruct (payload_correct malloc_ok read_sha1_file _ _ _ _ Hpk He Hp) as [Hok Hspec].
  assert (Epay : payload_of i = p) by (unfold payload_of; by rewrite He, Hp). split; [done|]. split; [done|].
  destruct p as [[[type size] base] buf]. destruct Hspec as (tname&data&Hr&Hspec). pose proof (obj_of_eq _ _ _ _ He Hr) as Eobj.
  assert (Hin : obj_of i ∈ pack_contents).
  { unfold pack_contents, obj_of. rewrite He. apply list_elem_of_fmap. exists (oe_sha1 e). split; [done|].
    apply list_elem_of_fmap. exists e. split; [done|]. by eapply list_elem_of_lookup_2. }
  pose proof (pk_delta _ _ Hpk _ _ He) as Hd. unfold delta_ok in Hd.
  assert (Ebase : base_of i = oe_delta e) by (unfold base_of; by rewrite He).
  unfold entry_makes. rewrite Ebase. destruct (oe_delta e) as [d|].
  - destruct Hspec as (b&bt&bdata&Hb&Hrb&->&->&Hpatch). split; [done|]. split; [done|].
    destruct Hd as (b'&Hb'&Ety&Edep&Hdep). rewrite Hb in Hb'. injection Hb' as <-.
    pose proof (obj_of_eq _ _ _ _ Hb Hrb) as Ebobj. rewrite Ebobj, Eobj. cbn [fst snd]. split_and!.
    + rewrite Hord. apply elem_of_seq. apply lookup_lt_Some in Hb. lia.
    + unfold rank_of. rewrite He, Hb. lia.
    + destruct Hr as (_&Hk&_), Hrb as (_&Hkb&_). congruence.
    + exists size, buf. rewrite (Hnamed _ _ _ (proj1 Hrb)). split; [done|].
      destruct Hok as (_&->&_). done.
  - destruct Hspec as (->&->&->). split; [cbn; destruct Hr as (_&->&_); done|]. split; [done|]. rewrite Eobj.
    exists (oe_type e), size. split; [done|]. apply Hr.
Qed.

Context {D : Type} {inv : D -> Prop} {Odb : ObjectDB D} {Laws : ObjectDBLaws inv pack_contents}.

Lemma unpack_all_stores dry_run ps order s R db :
  order ≡ₚ seq 0 (length objects) -> Forall2 (entry_payload malloc_ok read_sha1_file objects) order ps ->
  Z.of_nat (length objects) < 2 ^ 31 -> inv db ->
  reading s [] (pack_header (length objects) ++ concat (map entry_bytes ps) ++ R) ->
  exists s' db', unpack_all (fun _ => true) dry_run s db = io_ret (s', db') /\
    (if dry_run then db' = db else inv db' /\ forall i, i ∈ order -> db_holds db' (obj_of i)) /\
    reading s' (pack_header (length objects) ++ concat (map entry_bytes ps)) R.
Proof.
  intros Hord HF Hn Hinv Hs. pose proof BUFFER_Z. pose proof (pack_header_length (length objects)) as Hhl.
  assert (Hall : Forall2 (fun i p => payload_of i = p /\ payload_ok p /\ typed p /\
    entry_makes (objs := pack_contents) obj_of payload_of base_of rank_of order i) order ps).
  { eapply Forall2_impl; [exact HF|]. intros i p Hip. by apply entry_makes_object. }
  assert (Eps : map payload_of order = ps) by (clear -Hall; induction Hall as [|i p ? ? [Ei _] _ IH]; [done|]; cbn; by rewrite Ei, IH).
  assert (Hok : Forall payload_ok ps /\ Forall typed ps).
  { clear -Hall. induction Hall as [|i p ? ? (_&Hok&Hty&_) _ [IH1 IH2]]; [done|]. split; by constructor. }
  assert (Hplan : forall i, i ∈ order -> entry_makes (objs := pack_contents) obj_of payload_of base_of rank_of order i).
  { intros i Hi. apply list_elem_of_lookup in Hi as [k Hk]. destruct (Forall2_lookup_l _ _ _ _ _ Hall Hk) as (p&_&H'). apply H'. }
  assert (Hlen : length ps = length objects).
  { rewrite <- Eps, length_map, Hord. apply length_seq. }
  unfold unpack_all. destruct (fill_reading s _ _ 12 Hs) as (s1&->&Hs1&Ha); [lia|rewrite length_app; lia|].
  cbn [io_bind io_ret]. assert (Eh : take 12 (s_avail s1) = pack_header (length objects)).
  { pose proof (rd_pending _ _ _ Hs1) as Hp. apply (f_equal (take 12)) in Hp. by rewrite take_app_le, take_app_length' in Hp by lia. }
  rewrite Eh. assert (Ef : be_decode (slice 0 4 (pack_header (length objects))) = PACK_SIGNATURE /\
    be_decode (slice 4 4 (pack_header (length objects))) = PACK_VERSION /\
    be_decode (slice 8 4 (pack_header (length objects))) = Z.of_nat (length objects)).
  { split; [reflexivity|]. split; [reflexivity|].
    change (slice 8 4 (pack_header (length objects))) with (be_encode 4 (Z.of_nat (length objects))).
    rewrite be_decode_encode. apply Z.mod_small. change (256 ^ Z.of_nat 4) with (2 ^ 32). lia. }
  destruct Ef as (->&->&->). rewrite !Z.eqb_refl, Nat2Z.id. cbn [negb].
  destruct (use_reading s1 _ _ _ Hs1) as (s2&Hu&Hs2); [lia|]. rewrite Hhl in Hu. rewrite Hu. cbn [io_bind].
  rewrite app_nil_l in Hs2. rewrite <- Hlen.
  destruct (unpack_loop_reading (fun _ => true) dry_run ps 0 s2 _ R (db, []) (proj1 Hok) (proj2 Hok) ltac:(lia) Hs2) as (s3&->&Hs3).
  rewrite Hlen. destruct dry_run.
  { rewrite store_all_dry by done. cbn [io_bind io_ret]. rewrite bool_decide_true by done. by exists s3, db. }
  destruct (store_all_stores obj_of payload_of base_of rank_of order Hplan db Hinv) as (db'&Hst&Hinv'&Hh).
  rewrite Eps in Hst. change (map (info_of payload_of) []) with (@nil delta_info) in Hst. rewrite Hst. cbn [io_bind io_ret].
  rewrite bool_decide_true by done. by exists s3, db'.
Qed.

Lemma unpack_objects_stores args quiet dry_run rs ws_pack ws pack sha objects' tail db :
  (forall i e, objects !! i = Some e -> oe_offset e = 0) ->
  write_pack_file malloc_ok read_sha1_file ws_pack objects = io_ret (pack, sha, objects') ->
  Z.of_nat (length pack) < 2 ^ 32 -> Z.of_nat (length objects) < 2 ^ 31 ->
  inv db -> unpack_args args false false = Ret (dry_run, quiet) ->
  delivers rs (length (pack ++ tail)) -> accepts ws (length tail) ->
  exists db' out rest, unpack_objects (fun _ => true) args rs ws (pack ++ tail) db = io_ret (db', out) /\
    tail = out ++ rest /\
    (if dry_run then db' = db else forall i e, objects !! i = Some e -> db_holds db' (obj_of i)).
Proof.
  intros Hz Hw Hlen Hn Hinv Hargs Hrs [Hwe [Hwz Hwn]]. pose proof BUFFER_Z.
  destruct (write_pack_file_entries _ _ _ _ _ _ _ Hpk Hz Hw Hlen) as (order&ps&Hord&HF&Hm). cbv zeta in Hm.
  set (m := pack_header (length objects) ++ concat (map entry_bytes ps)) in *. destruct Hm as [Hmok ->].
  assert (Hsl : length (Fips.sha1 m) = 20%nat) by (by apply length_fips_sha1).
  set (s0 := {| s_done := []; s_avail := []; s_ctx := SHA1_Init; s_in := (m ++ Fips.sha1 m) ++ tail; s_rs := rs |}).
  assert (Hs0 : reading s0 [] (pack_header (length objects) ++ concat (map entry_bytes ps) ++ Fips.sha1 m ++ tail)).
  { split; cbn [s_done s_avail s_ctx s_in s_rs s0]; [by exists []|unfold m; by rewrite <- !app_assoc|cbn; lia|done|by right; left]. }
  destruct (unpack_all_stores dry_run ps order s0 _ db Hord HF Hn Hinv Hs0) as (s1&db'&Hu&Hdb&Hs1). fold m in Hs1.
  unfold unpack_objects. rewrite Hargs. cbn [io_bind fst]. fold s0. rewrite Hu. cbn [io_bind io_ret].
  destruct Hs1 as [(P&HC&Hctx) Hp Hroom Hlive Hpc].
  rewrite SHA1_Update_all by (clear -Hroom H; lia). rewrite Hctx, <- foldl_app, <- HC, SHA1_Final_stream by done.
  set (s2 := {| s_done := s_done s1; s_avail := s_avail s1; s_ctx := SHA1_Init; s_in := s_in s1; s_rs := s_rs s1 |}).
  assert (Hs2 : reading s2 (s_done s1) (Fips.sha1 m ++ tail)) by (split; [by exists []|done..]).
  destruct (fill_reading s2 _ _ 20 Hs2) as (s3&->&Hs3&Ha); [lia|rewrite length_app; lia|]. cbn [io_bind io_ret].
  assert (Et : take 20 (s_avail s3) = Fips.sha1 m).
  { pose proof (rd_pending _ _ _ Hs3) as Hp3. apply (f_equal (take 20)) in Hp3. by rewrite take_app_le, take_app_length' in Hp3 by lia. }
  rewrite (proj2 (memcmp_eq 20 (s_avail s3) (Fips.sha1 m) Ha ltac:(lia))); [|by rewrite Et, take_ge by lia]. cbn [negb Z.eqb].
  destruct (use_reading s3 _ _ _ Hs3) as (s4&Huse&Hs4); [lia|]. rewrite Hsl in Huse. rewrite Huse. cbn [io_bind].
  pose proof (rd_pending _ _ _ Hs4) as Hp4. rewrite (out_loop_accepts ws (s_avail s4) []).
  2: { split; [done|]. split; [done|]. rewrite <- Hp4, length_app in Hwn. lia. }
  cbn [io_bind io_ret app]. exists db', (s_avail s4), (s_in s4). split; [done|]. split; [done|].
  destruct dry_run; [done|]. destruct Hdb as [_ Hdb]. intros i e He. apply Hdb. rewrite Hord. apply elem_of_seq.
  apply lookup_lt_Some in He. lia.
Qed.

End Pack.

Context (sha1_object_info : bytes -> outcome (option (bytes * Z))) (has_sha1_pack : bytes -> bool).
Context {Hsource : ObjectSource read_sha1_file sha1_object_info}.

(** C3. objects survive the transfer from one store to another: what
    git-pack-objects writes on reading a list of names, git-unpack-objects
    stores, in whatever store it runs (one that may have some of the objects
    already), whatever deltas were chosen, and however [read] splits the
    stream into pieces of 40 bytes or more (the last may be shorter).  With
    shorter pieces [fill] may call [memcpy] on overlapping memory, as
    [fill_overlaps] shows.  The program ends; every object named can be read
    from the new store as the old one has it; what follows the pack in the
    buffer is passed on.  With [-n] nothing is stored.  The pack has less than
    2^32 bytes, the new store's memory and files do not fail, and no two of
    the objects have the same SHA-1. *)
Theorem transfer_objects (sys : os) (flag : bool) (db : odb) (args : list bytes) (quiet dry_run : bool)
    (rs : list rdc) (ws : list wr) (tail : bytes)
    (incremental non_empty : bool) (window : nat) (depth : Z) (lines : list bytes)
    (sorted_by_sha sorted_by_type : list nat) (ws_pack ws_idx : list wr)
    (objs : list object_entry) (ctx : SHA_CTX) (objs1 : list object_entry)
    (pack idx list_sha1 : bytes) (objs2 : list object_entry) :
  read_object_list has_sha1_pack incremental lines [] SHA1_Init = Ret (objs, ctx) ->
  get_object_details sha1_object_info objs = Ret objs1 ->
  create_sorted_list (fun a b _ _ => sha1_sort a b) objs1 sorted_by_sha ->
  create_sorted_list type_size_sort objs1 sorted_by_type ->
  pack_objects malloc_ok read_sha1_file sha1_object_info has_sha1_pack incremental non_empty window depth lines
    sorted_by_sha sorted_by_type ws_pack ws_idx = io_ret (Some (pack, idx, objs2, list_sha1)) ->
  Z.of_nat (length pack) < 2 ^ 32 -> Z.of_nat (length objs) < 2 ^ 31 ->
  let contents := map obj_at (map oe_sha1 objs) in
  sys_works sys -> no_collisions contents -> odb_inv sys (fun _ => true) flag contents db ->
  unpack_args args false false = Ret (dry_run, quiet) ->
  delivers rs (length (pack ++ tail)) -> accepts ws (length tail) ->
  exists db' out rest,
    unpack_objects (Odb := odb_db sys (fun _ => true) flag) (fun _ => true) args rs ws (pack ++ tail) db = io_ret (db', out) /\
    tail = out ++ rest /\
    if dry_run then db' = db
    else forall i e, objs !! i = Some e ->
      exists o, read_sha1_file (oe_sha1 e) = Ret (Some o) /\
        has_sha1_file db' (oe_sha1 e) = Ret true /\
        ObjectStore.read_sha1_file sys (fun _ => true) flag db' (oe_sha1 e) = io_ret (Some o).
Proof.
  intros Hrl Hgd Hsha Htype Hpo Hlen Hn contents Hsys Hnc Hinv Hargs Hrs Hws.
  destruct (pack_objects_written malloc_ok read_sha1_file sha1_object_info has_sha1_pack _ _ _ _ _ _ _ _ _ _ _ _ _ _ _ _ Hrl Hgd Hsha Htype Hpo)
    as (objects&sha&Hpk&Hoff&Hnames&_&Hwp&_).
  pose proof (odb_laws sys (fun _ => true) flag contents Hsys Hnc) as Hlaws.
  assert (Econt : contents = pack_contents objects) by (unfold contents, pack_contents; by rewrite Hnames).
  assert (Hl : length objects = length objs) by (apply (f_equal length) in Hnames; by rewrite !length_map in Hnames).
  rewrite Econt in Hinv, Hlaws.
  destruct (unpack_objects_stores objects Hpk (Laws := Hlaws) args quiet dry_run rs ws_pack ws pack sha objs2 tail db)
    as (db'&out&rest&Hu&Ht&Hdb); try done; [lia|].
  exists db', out, rest. split; [done|]. split; [done|]. destruct dry_run; [done|]. intros i e He.
  assert (Hi : map oe_sha1 objects !! i = Some (oe_sha1 e)) by (by rewrite Hnames, list_lookup_fmap, He).
  rewrite list_lookup_fmap in Hi. destruct (objects !! i) as [e1|] eqn:He1; [|done]. injection Hi as Hi.
  destruct (Hdb i e1 He1) as [Hhas Hread]. destruct (pk_read _ _ Hpk _ _ He1) as (type&data&Hr).
  rewrite (obj_of_eq objects _ _ _ _ He1 Hr) in Hhas, Hread. destruct Hr as (Hr&_). cbn [fst snd] in Hhas, Hread.
  rewrite (Hnamed _ _ _ Hr), Hi in Hhas, Hread. rewrite Hi in Hr. by exists (type, data).
Qed.

End Transfer.

(** ** A run

    The two texts of [Demo] under their real names go from one store to
    another, over reads that split the stream anywhere. *)

Module UnpackDemo.

Definition name1 : bytes := Eval vm_compute in object_name (str "blob") Demo.data1.
Definition name2 : bytes := Eval vm_compute in object_name (str "blob") Demo.data2.

Definition read (sha1 : bytes) : outcome (option (bytes * bytes)) :=
  if bool_decide (sha1 = name1) then Ret (Some (str "blob", Demo.data1))
  else if bool_decide (sha1 = name2) then Ret (Some (str "blob", Demo.data2))
  else Ret None.

Definition info (sha1 : bytes) : outcome (option (bytes * Z)) :=
  match read sha1 with
  | Ret (Some (type, data)) => Ret (Some (type, Z.of_nat (length data)))
  | _ => Ret None
  end.

Definition lines : list bytes := [sha1_to_hex name1 ++ [10]; sha1_to_hex name2 ++ [10]].
Definition listed : list object_entry * SHA_CTX :=
  match read_object_list (fun _ => false) false lines [] SHA1_Init with Ret r => r | _ => ([], SHA1_Init) end.
Definition objs1 : list object_entry := match get_object_details info (fst listed) with Ret o => o | _ => [] end.
Definition by_sha : list nat := if lexcmp name1 name2 <? 0 then [0; 1]%nat else [1; 0]%nat.

Definition result : bytes * bytes * list object_entry * bytes :=
  match pack_objects (H := Stored.stored) (fun _ _ => true) read info (fun _ => false) false false 10 10 lines
    by_sha [0; 1]%nat Demo.writes Demo.writes with Some (Ret (Some r)) => r | _ => ([], [], [], []) end.

Definition pack : bytes := Eval vm_compute in result.1.1.1.

(** 47 bytes, an interruption, 40 bytes, 70 bytes, and 40 at a time. *)
Definition reads : list rdc := [ROk 46; RIntr; ROk 39; ROk 69] ++ replicate 600 (ROk 39).

Definition run (args : list bytes) (rs : list rdc) (input : bytes) : io (odb * bytes) :=
  unpack_objects (Zst := Stored.stored_stream) (Odb := odb_db (H := Stored.stored) StoreDemo.sys (fun _ => true) false)
    (fun _ => true) args rs [WOk 1; WIntr; WOk 9; WOk 9; WOk 9] input StoreDemo.db.

#[export] Instance read_agrees : ObjectSource read info.
Proof.
  split. intros sha1 type size _ _. unfold info, read.
  assert (Hok : bytes_ok Demo.data1 /\ bytes_ok Demo.data2) by (split; apply (bool_decide_unpack _); vm_compute; exact I).
  case_bool_decide; [|case_bool_decide; [|done]]; intros E; vm_compute in E; injection E as <- <-;
    (eexists; split; [reflexivity|]; split; [vm_compute; reflexivity|]; split; [apply Hok|vm_compute; reflexivity]).
Qed.

Lemma named : well_named read.
Proof.
  intros sha1 type data. unfold read.
  case_bool_decide as E1; [|case_bool_decide as E2; [|done]]; intros [= <- <-]; subst sha1; vm_compute; reflexivity.
Qed.

Definition contents : list (bytes * bytes) := [(str "blob", Demo.data1); (str "blob", Demo.data2)].

Lemma contents_distinct : no_collisions contents.
Proof.
  split.
  - intros o Ho. assert (Hd : o.1 = str "blob" /\ (o.2 = Demo.data1 \/ o.2 = Demo.data2)).
    { apply elem_of_cons in Ho as [->|Ho]; [by split; [|left]|]. apply elem_of_cons in Ho as [->|Ho]; [by split; [|right]|].
      by apply elem_of_nil in Ho. }
    destruct Hd as [-> Hd].
    assert (Hok : bytes_ok o.2 /\ Z.of_nat (length o.2) < 2 ^ 30).
    { destruct Hd as [-> | ->]; (split; [apply (bool_decide_unpack _); vm_compute; exact I|vm_compute; reflexivity]). }
    split; [split; [vm_compute; lia|split; [apply str_bytes_ok|apply not_elem_check; reflexivity]]|].
    split; [apply not_elem_check; reflexivity|exact Hok].
  - assert (Hi : Forall (fun o => Forall (fun o' : bytes * bytes => object_name o.1 o.2 = object_name o'.1 o'.2 -> o = o')
      contents) contents).
    { apply (bool_decide_unpack _). vm_compute. exact I. }
    intros o o' Ho Ho'. rewrite Forall_forall in Hi. specialize (Hi o Ho). rewrite Forall_forall in Hi. by apply Hi.
Qed.

Lemma none_stored : odb_inv (H := Stored.stored) StoreDemo.sys (fun _ => true) false contents StoreDemo.db.
Proof.
  split; [exact StoreDemo.db_ok|]. intros o Ho. left. revert o Ho.
  apply Forall_forall. repeat (constructor; [vm_compute; reflexivity|]). constructor.
Qed.

Lemma sorted_by_sha : create_sorted_list (fun a b _ _ => sha1_sort a b) objs1 by_sha.
Proof.
  assert (E : by_sha = [1; 0]%nat /\ seq 0 (length objs1) = [0; 1]%nat) by (vm_compute; split; reflexivity).
  destruct E as [Eb Es]. split; [rewrite Eb, Es; apply perm_swap|]. rewrite Eb.
  constructor; [constructor; [constructor|constructor]|]. constructor; [|constructor].
  intros a b Ha Hb. vm_compute in Ha, Hb. injection Ha as <-. injection Hb as <-. vm_compute. discriminate.
Qed.

End UnpackDemo.

(** The pack really holds a delta, and both objects arrive. *)
Example unpack_run :
  map (fun e => bool_decide (oe_delta e = None)) (UnpackDemo.result.1.2) = [false; true] /\
  match UnpackDemo.run [] UnpackDemo.reads (UnpackDemo.pack ++ str "rest") with
  | Some (Ret (db, out)) => has_sha1_file db UnpackDemo.name1 = Ret true /\ has_sha1_file db UnpackDemo.name2 = Ret true
  | _ => False
  end.
Proof. split; [vm_compute; reflexivity|]. vm_compute. split; reflexivity. Qed.

(** [memcpy] is called on overlapping memory when [read] returns a short piece
    in an unlucky place: 29 bytes, of which 17 wait for the rest of a name. *)
Example fill_overlaps :
  UnpackDemo.run [] [ROk 28; ROk 3000] UnpackDemo.pack = Some Ub.
Proof. vm_compute. reflexivity. Qed.

Lemma transfer_objects_witness :
  exists db' out rest,
    UnpackDemo.run [str "-q"] UnpackDemo.reads (UnpackDemo.pack ++ str "rest") = io_ret (db', out) /\
    str "rest" = out ++ rest /\
    forall i e, fst UnpackDemo.listed !! i = Some e ->
      exists o, UnpackDemo.read (oe_sha1 e) = Ret (Some o) /\ has_sha1_file db' (oe_sha1 e) = Ret true /\
        ObjectStore.read_sha1_file (H := Stored.stored) StoreDemo.sys (fun _ => true) false db' (oe_sha1 e) = io_ret (Some o).
Proof.
  assert (Hc : map (obj_at UnpackDemo.read) (map oe_sha1 (fst UnpackDemo.listed)) = UnpackDemo.contents) by (vm_compute; reflexivity).
  apply (transfer_objects (Zlaws := Stored.stored_laws) (Zsl := Stored.stored_stream_laws) (fun _ _ => true) UnpackDemo.read
    UnpackDemo.named UnpackDemo.info (fun _ => false) (Hsource := UnpackDemo.read_agrees) StoreDemo.sys false StoreDemo.db
    [str "-q"] true false UnpackDemo.reads [WOk 1; WIntr; WOk 9; WOk 9; WOk 9] (str "rest") false false 10 10 UnpackDemo.lines
    UnpackDemo.by_sha [0; 1]%nat Demo.writes Demo.writes (fst UnpackDemo.listed) (snd UnpackDemo.listed) UnpackDemo.objs1
    UnpackDemo.pack (UnpackDemo.result.1.1.2) (UnpackDemo.result.2) (UnpackDemo.result.1.2)).
  - vm_compute. reflexivity.
  - vm_compute. reflexivity.
  - exact UnpackDemo.sorted_by_sha.
  - refine (Demo.sorted_check _ _ _ _). vm_compute. discriminate.
  - vm_compute. reflexivity.
  - vm_compute. reflexivity.
  - vm_compute. reflexivity.
  - split; [reflexivity|]. split; [reflexivity|]. split; [reflexivity|]. split; reflexivity.
  - rewrite Hc. exact UnpackDemo.contents_distinct.
  - rewrite Hc. exact UnpackDemo.none_stored.
  - reflexivity.
  - split; [apply (bool_decide_unpack _); vm_compute; exact I|]. split; [apply (bool_decide_unpack _); vm_compute; exact I|vm_compute; lia].
  - split; [apply (bool_decide_unpack _); vm_compute; exact I|]. split; [apply (bool_decide_unpack _); vm_compute; exact I|vm_compute; lia].
Defined.
