(* ===== verification/PackUse.v ===== *)
(** * The packs of a repository and their windows (test_git/sha1_file.c)

    [prepare_packed_git] lists the packs of the object directories;
    [use_packed_git] maps a pack into memory when an object of it is read and
    unmaps others when more than [PACK_MAX_SZ] has been mapped;
    [unuse_packed_git] gives it back.  ObjectStore.v has the packs as bytes;
    here the list [packed_git] is a list of structures, a pointer to one its
    position, and reading through the windows is shown to be reading the
    bytes. *)

From stdpp Require Import base list numbers strings.
From Stdlib Require Import ZArith Lia.
From S2P Require Import Prelude.
From S2P Require Import Sha1.
From S2P Require Import CsumFile.
From S2P Require Import PackIndex.
From S2P Require Import Zlib.
From S2P Require Import PackEntry.
From S2P Require Import CString.
From S2P Require Import ObjectStore.
From S2P Require Import PackDeltas.

Record packed_git := {
  pg_index : bytes;
  pg_size : Z;
  pg_base : option bytes;
  pg_last_used : Z;
  pg_use_cnt : Z;
  pg_name : bytes;
}.

(** The static variables: the list [packed_git], [pack_used_ctr],
    [pack_mapped] and [run_once]. *)
Record pack_state := {
  pg_list : list packed_git;
  pack_used_ctr : Z;
  pack_mapped : Z;
  run_once : bool;
}.

Definition no_packs : pack_state := {| pg_list := []; pack_used_ctr := 0; pack_mapped := 0; run_once := false |}.

Definition pg_set_base (p : packed_git) (b : option bytes) : packed_git :=
  {| pg_index := pg_index p; pg_size := pg_size p; pg_base := b; pg_last_used := pg_last_used p;
     pg_use_cnt := pg_use_cnt p; pg_name := pg_name p |}.

Definition pg_set_used (p : packed_git) (last cnt : Z) : packed_git :=
  {| pg_index := pg_index p; pg_size := pg_size p; pg_base := pg_base p; pg_last_used := last;
     pg_use_cnt := cnt; pg_name := pg_name p |}.

Definition set_list (st : pack_state) (l : list packed_git) : pack_state :=
  {| pg_list := l; pack_used_ctr := pack_used_ctr st; pack_mapped := pack_mapped st; run_once := run_once st |}.

Definition PACK_MAX_SZ : Z := 2 ^ 26.
Definition PATH_MAX : Z := 4096.

(** A directory entry: its name, and the bytes of [struct dirent] in front of
    it. *)
Record dirent := {
  d_before : bytes;
  d_name : bytes;
}.

(** ** Code: mapping *)

(** The loop over the list; [lru] is a position and its [pack_last_used]. *)
Fixpoint find_lru (i : nat) (l : list packed_git) (lru : option (nat * Z)) : option nat :=
  match l with
  | [] => fst <$> lru
  | p :: l =>
      if negb (pg_use_cnt p =? 0) || bool_decide (pg_base p = None) then find_lru (S i) l lru
      else
        match lru with
        | None => find_lru (S i) l (Some (i, pg_last_used p))
        | Some (_, last) => find_lru (S i) l (if pg_last_used p <? last then Some (i, pg_last_used p) else lru)
        end
  end.

Definition unuse_one_packed_git (st : pack_state) : bool * pack_state :=
  match find_lru 0 (pg_list st) None with
  | None => (false, st)
  | Some i => (true, set_list st (alter (fun p => pg_set_base p None) i (pg_list st)))
  end.

(** [while (PACK_MAX_SZ < pack_mapped && unuse_one_packed_git())]: every
    iteration unmaps a pack, so there are no more of them than packs. *)
Fixpoint unuse_loop (fuel : nat) (st : pack_state) : pack_state :=
  match fuel with
  | O => st
  | S fuel =>
      if PACK_MAX_SZ <? pack_mapped st then
        let '(more, st) := unuse_one_packed_git st in if more then unuse_loop fuel st else st
      else st
  end.

Definition unuse_packed_git (st : pack_state) (i : nat) : outcome pack_state :=
  match pg_list st !! i with
  | None => Ub
  | Some p => Ret (set_list st (<[i := pg_set_used p (pg_last_used p) (u32 (pg_use_cnt p - 1))]> (pg_list st)))
  end.

(** [open_file] is what an open file can be mapped to, [stat_regular] the size
    of a regular file; a file can be there and not be readable. *)
Section PackUse.
Context (open_file : bytes -> option bytes) (mmap_ok : bytes -> bool) (stat_regular : bytes -> option Z).
Context (readdir : bytes -> option (list dirent)).

(** The file is opened and mapped; a file of size 0 cannot be. *)
Definition map_pack (p : packed_git) : outcome bytes :=
  match open_file (pg_name p) with
  | None => Die
  | Some file =>
      if negb (Z.of_nat (length file) =? pg_size p) then Die
      else if (length file =? 0)%nat || negb (mmap_ok (pg_name p)) then Die
      else
        a ← map_read (pg_index p) (Z.of_nat (length (pg_index p)) - 40) 20;
        b ← map_read file (pg_size p - 20) 20;
        if memcmp 20 a b =? 0 then Ret file else Die
  end.

Definition use_packed_git (st : pack_state) (i : nat) : outcome pack_state :=
  match pg_list st !! i with
  | None => Ub
  | Some p =>
      st ← match pg_base p with
           | Some _ => Ret st
           | None =>
               let st := {| pg_list := pg_list st; pack_used_ctr := pack_used_ctr st;
                            pack_mapped := u64 (pack_mapped st + pg_size p); run_once := run_once st |} in
               let st := unuse_loop (S (length (pg_list st))) st in
               map ← map_pack p;
               Ret (set_list st (alter (fun p => pg_set_base p (Some map)) i (pg_list st)))
           end;
      if negb (pack_used_ctr st + 1 <? 2 ^ 31) then Ub
      else
        Ret {| pg_list := alter (fun p => pg_set_used p (u32 (pack_used_ctr st)) (u32 (pg_use_cnt p + 1))) i (pg_list st);
               pack_used_ctr := pack_used_ctr st + 1; pack_mapped := pack_mapped st; run_once := run_once st |}
  end.

(** ** Code: finding the packs *)

(** [path] is in a buffer of [room] bytes. *)
Definition add_packed_git (room : Z) (path : bytes) : outcome (option packed_git) :=
  r ← check_packed_git_idx (open_file path);
  if negb (r =? 0) then Ret None
  else
    match open_file path with
    | None => Ret None
    | Some idx =>
        if (length path <? 4)%nat || (room <? Z.of_nat (length path) + 2) then Ub
        else
          let path := take (length path - 4) path ++ str ".pack" in
          match stat_regular path with
          | None => Ret None
          | Some st_size =>
              Ret (Some {| pg_index := idx; pg_size := st_size; pg_base := None;
                           pg_last_used := 0; pg_use_cnt := 0; pg_name := path |})
          end
    end.

(** [strcmp(de->d_name + namelen - 4, ".idx")], which starts in front of a
    short name. *)
Definition is_idx (de : dirent) : outcome bool :=
  let namelen := length (d_name de) in
  if (4 <=? namelen)%nat then Ret (bool_decide (cstr (drop (namelen - 4) (d_name de)) = str ".idx"))
  else
    let back := (4 - namelen)%nat in
    if (length (d_before de) <? back)%nat then Ub
    else Ret (bool_decide (cstr (drop (length (d_before de) - back) (d_before de) ++ d_name de) = str ".idx")).

(** [while ((de = readdir(dir)) != NULL)] *)
Fixpoint readdir_loop (path : bytes) (entries : list dirent) (l : list packed_git) : outcome (list packed_git) :=
  match entries with
  | [] => Ret l
  | de :: entries =>
      b ← is_idx de;
      if negb b then readdir_loop path entries l
      else
        let file := path ++ d_name de in
        if PATH_MAX <? Z.of_nat (length file) + 1 then Ub
        else
          p ← add_packed_git PATH_MAX file;
          readdir_loop path entries (match p with None => l | Some p => p :: l end)
  end.

Definition prepare_packed_git_one (objdir : bytes) (l : list packed_git) : outcome (list packed_git) :=
  let path := objdir ++ str "/pack" in
  if PATH_MAX <? Z.of_nat (length path) + 1 then Ub
  else
    match readdir path with
    | None => Ret l
    | Some entries => readdir_loop (path ++ str "/") entries l
    end.

Fixpoint prepare_alternates (dirs : list bytes) (l : list packed_git) : outcome (list packed_git) :=
  match dirs with
  | [] => Ret l
  | dir :: dirs => l ← prepare_packed_git_one dir l; prepare_alternates dirs l
  end.

Definition prepare_packed_git (objdir alternates : bytes) (st : pack_state) : outcome pack_state :=
  if run_once st then Ret st
  else
    l ← prepare_packed_git_one objdir (pg_list st);
    l ← prepare_alternates (prepare_alt_odb alternates) l;
    Ret {| pg_list := l; pack_used_ctr := pack_used_ctr st; pack_mapped := pack_mapped st; run_once := true |}.

(** ** Code: reading *)

Section Reading.
Context `{Zlib} (malloc_ok : Z -> bool) (objdir alternates : bytes).

(** The position of the pack and the offset in it. *)
Fixpoint find_in_packs (i : nat) (l : list packed_git) (sha1 : bytes) : outcome (option (nat * Z)) :=
  match l with
  | [] => Ret None
  | p :: l =>
      r ← find_pack_entry_one (pg_index p) sha1;
      match r with Some offset => Ret (Some (i, offset)) | None => find_in_packs (S i) l sha1 end
  end.

(** [find_pack_entry], [unpack_entry] and [read_packed_sha1] *)
Definition find_pack_entry_used (st : pack_state) (sha1 : bytes) : outcome (pack_state * option (nat * Z)) :=
  st ← prepare_packed_git objdir alternates st;
  e ← find_in_packs 0 (pg_list st) sha1;
  Ret (st, e).

Definition unpack_entry_used (st : pack_state) (i : nat) (offset : Z) : io (pack_state * (bytes * bytes)) :=
  st <- Some (use_packed_git st i) ;;
  match pg_list st !! i with
  | Some {| pg_index := idx; pg_base := Some pack |} =>
      r <- unpack_entry_gently malloc_ok (chain_fuel idx) idx pack offset ;;
      st <- Some (unuse_packed_git st i) ;;
      match r with None => Some Die | Some o => io_ret (st, o) end
  | _ => Some Ub
  end.

Definition read_packed_used (st : pack_state) (sha1 : bytes) : io (pack_state * option (bytes * bytes)) :=
  r <- Some (find_pack_entry_used st sha1) ;;
  let '(st, e) := r in
  match e with
  | None => io_ret (st, None)
  | Some (i, offset) => r <- unpack_entry_used st i offset ;; io_ret (fst r, Some (snd r))
  end.

End Reading.

End PackUse.

(** ** Which packs are unmapped *)

(** A mapped pack that nobody uses. *)
Definition idle (p : packed_git) : Prop := pg_use_cnt p = 0 /\ pg_base p <> None.

#[export] Instance idle_dec p : Decision (idle p).
Proof. unfold idle. apply _. Defined.

Definition evict (p : packed_git) : packed_git := if decide (idle p) then pg_set_base p None else p.

Lemma idle_test p : negb (pg_use_cnt p =? 0) || bool_decide (pg_base p = None) = negb (bool_decide (idle p)).
Proof.
  unfold idle. destruct (Z.eqb_spec (pg_use_cnt p) 0); repeat case_bool_decide; naive_solver.
Qed.

Lemma alter_lookup {A} (f : A -> A) (l : list A) (i : nat) x : l !! i = Some x -> alter f i l = <[i := f x]> l.
Proof. intros Hi. rewrite list_insert_alter. apply list_alter_ext; [|done]. intros y Hy. congruence. Qed.

Lemma find_lru_spec i l lru :
  match find_lru i l lru with
  | None => lru = None /\ Forall (fun p => ~ idle p) l
  | Some j =>
      (exists last, lru = Some (j, last) /\ Forall (fun p => idle p -> last <= pg_last_used p) l) \/
      (exists k p, j = (i + k)%nat /\ l !! k = Some p /\ idle p /\
        Forall (fun q => idle q -> pg_last_used p <= pg_last_used q) l /\
        forall j' last, lru = Some (j', last) -> pg_last_used p < last)
  end.
Proof.
  revert i lru; induction l as [|p l IH]; intros i lru; cbn [find_lru].
  { destruct lru as [[j last]|]; cbn; [left; by exists last|done]. }
  rewrite idle_test. destruct (decide (idle p)) as [Hp|Hp];
    [rewrite bool_decide_true by done|rewrite bool_decide_false by done]; cbn [negb].
  2:{ specialize (IH (S i) lru). destruct (find_lru (S i) l lru) as [j|].
      - destruct IH as [(last&->&HF)|(k&q&->&Hk&Hq&HF&Hlt)]; [left; exists last; split; [done|]; by constructor|].
        right. exists (S k), q. split_and!; [lia|done|done|by constructor|done].
      - destruct IH as [-> HF]. split; [done|]. by constructor. }
  assert (Hnew : forall last, (forall j' last', lru = Some (j', last') -> pg_last_used p < last') -> last = pg_last_used p ->
    match find_lru (S i) l (Some (i, last)) with
    | None => lru = None /\ Forall (fun p => ~ idle p) (p :: l)
    | Some j =>
        (exists last, lru = Some (j, last) /\ Forall (fun p => idle p -> last <= pg_last_used p) (p :: l)) \/
        (exists k q, j = (i + k)%nat /\ (p :: l) !! k = Some q /\ idle q /\
          Forall (fun q' => idle q' -> pg_last_used q <= pg_last_used q') (p :: l) /\
          forall j' last, lru = Some (j', last) -> pg_last_used q < last)
    end).
  { intros last Hlast ->. specialize (IH (S i) (Some (i, pg_last_used p))).
    destruct (find_lru (S i) l (Some (i, pg_last_used p))) as [j|]; [|by destruct IH]. right.
    destruct IH as [(last&[= <- <-]&HF)|(k&q&->&Hk&Hq&HF&Hlt)].
    - exists 0%nat, p. split_and!; [lia|done|done|by constructor|done].
    - specialize (Hlt _ _ eq_refl). exists (S k), q. split_and!; [lia|done|done|constructor; [lia|done]|].
      intros j' last E. specialize (Hlast _ _ E). lia. }
  destruct lru as [[j0 last0]|]; [|by apply Hnew].
  destruct (Z.ltb_spec (pg_last_used p) last0); [apply Hnew; [|done]; intros j' last' [= <- <-]; lia|].
  specialize (IH (S i) (Some (j0, last0))). destruct (find_lru (S i) l (Some (j0, last0))) as [j|]; [|by destruct IH].
  destruct IH as [(last&[= <- <-]&HF)|(k&q&->&Hk&Hq&HF&Hlt)]; [left; exists last0; split; [done|]; by constructor|].
  right. exists (S k), q. specialize (Hlt _ _ eq_refl). split_and!; [lia|done|done|constructor; [lia|done]|].
  intros j' last [= <- <-]. lia.
Qed.

(** [unuse_one_packed_git] unmaps the least recently used of the idle packs,
    and fails exactly when there is none. *)
Lemma unuse_one_packed_git_lru st :
  match unuse_one_packed_git st with
  | (false, st') => st' = st /\ Forall (fun p => ~ idle p) (pg_list st)
  | (true, st') => exists i p, pg_list st !! i = Some p /\ idle p /\
      Forall (fun q => idle q -> pg_last_used p <= pg_last_used q) (pg_list st) /\
      st' = set_list st (<[i := pg_set_base p None]> (pg_list st))
  end.
Proof.
  unfold unuse_one_packed_git. pose proof (find_lru_spec 0 (pg_list st) None) as Hs.
  destruct (find_lru 0 (pg_list st) None) as [j|]; [|by destruct Hs].
  destruct Hs as [(last&?&_)|(k&p&->&Hk&Hp&HF&_)]; [done|]. exists k, p. split_and!; [done|done|done|].
  cbn [Nat.add]. by rewrite (alter_lookup _ _ _ _ Hk).
Qed.

Lemma evict_idle p : idle p -> evict (pg_set_base p None) = evict p.
Proof.
  intros Hp. unfold evict. rewrite (decide_True _ _ Hp), decide_False by (by intros [_ ?]). done.
Qed.

Lemma evict_none l : Forall (fun p => ~ idle p) l -> map evict l = l.
Proof. induction 1 as [|p l Hp _ IH]; [done|]. cbn. rewrite IH. unfold evict. by rewrite decide_False. Qed.

Lemma idle_count l i p : l !! i = Some p -> idle p ->
  length (filter idle l) = S (length (filter idle (<[i := pg_set_base p None]> l))).
Proof.
  intros Hi Hp. apply list_elem_of_split_length in Hi as (l1&l2&->&->).
  rewrite insert_app_r_alt, Nat.sub_diag by lia. cbn [insert list_insert].
  rewrite !filter_app, !length_app, filter_cons_True, filter_cons_False by (done || by intros [_ ?]). cbn [length]. lia.
Qed.

(** Unmapping does not lower [pack_mapped], so once it exceeds the limit the
    loop goes on until no idle pack is left. *)
Lemma unuse_loop_spec fuel st :
  (length (filter idle (pg_list st)) < fuel)%nat ->
  unuse_loop fuel st = if PACK_MAX_SZ <? pack_mapped st then set_list st (map evict (pg_list st)) else st.
Proof.
  revert st; induction fuel as [|fuel IH]; intros st Hf; [lia|]. cbn [unuse_loop].
  destruct (PACK_MAX_SZ <? pack_mapped st) eqn:Em; [|done].
  pose proof (unuse_one_packed_git_lru st) as Hu. destruct (unuse_one_packed_git st) as [[] st'].
  - destruct Hu as (i&p&Hi&Hp&_&->). rewrite (idle_count _ _ _ Hi Hp) in Hf.
    rewrite IH by (cbn [set_list pg_list]; lia). cbn [set_list pack_mapped pg_list]. rewrite Em. unfold set_list. cbn. f_equal.
    rewrite list_fmap_insert, evict_idle by done. apply list_insert_id. by rewrite list_lookup_fmap, Hi.
  - destruct Hu as [-> HF]. rewrite evict_none by done. by destruct st.
Qed.

Section Proofs.
Context (open_file : bytes -> option bytes) (mmap_ok : bytes -> bool) (stat_regular : bytes -> option Z).
Context (readdir : bytes -> option (list dirent)).

Abbreviation map_pack := (map_pack open_file mmap_ok).
Abbreviation use_packed_git := (use_packed_git open_file mmap_ok).

Lemma evict_self p : pg_base p = None -> evict p = p.
Proof. intros Hp. unfold evict. by rewrite decide_False by (by intros [_ ?]). Qed.

(** [use_packed_git] maps a pack that is not mapped yet, counts the use
    and gives the pack the newest time stamp.  The other packs are left
    alone unless this makes the sum of everything ever mapped exceed 64 MiB:
    then every pack that is mapped and not in use is unmapped, and no other. *)
Theorem use_packed_git_spec (st : pack_state) (i : nat) (p : packed_git) (file : bytes) :
  pg_list st !! i = Some p -> map_pack p = Ret file -> pack_used_ctr st + 1 < 2 ^ 31 ->
  let maps := bool_decide (pg_base p = None) in
  let mapped := if maps then u64 (pack_mapped st + pg_size p) else pack_mapped st in
  exists st', use_packed_git st i = Ret st' /\
    pack_used_ctr st' = pack_used_ctr st + 1 /\ pack_mapped st' = mapped /\ run_once st' = run_once st /\
    length (pg_list st') = length (pg_list st) /\
    pg_list st' !! i = Some (pg_set_used (pg_set_base p (Some (default file (pg_base p))))
      (u32 (pack_used_ctr st)) (u32 (pg_use_cnt p + 1))) /\
    forall j q, j <> i -> pg_list st !! j = Some q ->
      pg_list st' !! j = Some (if maps && (PACK_MAX_SZ <? mapped) && bool_decide (idle q) then pg_set_base q None else q).
Proof.
  intros Hi Hmap Hctr. unfold PackUse.use_packed_git. rewrite Hi. destruct (pg_base p) as [b|] eqn:Eb; cbv zeta.
  - rewrite bool_decide_false by done. rewrite bind_Ret, (proj2 (Z.ltb_lt _ _)) by done. cbn [negb].
    eexists. split; [done|]. cbn [pg_list pack_used_ctr pack_mapped run_once default id]. split_and!; [done..|by rewrite length_alter| |].
    + rewrite list_lookup_alter_eq, Hi. cbn. unfold pg_set_used, pg_set_base. cbn. by rewrite Eb.
    + intros j q Hj Hq. by rewrite list_lookup_alter_ne by done.
  - rewrite bool_decide_true by done. rewrite unuse_loop_spec by (cbn [pg_list]; apply le_n_S, length_filter).
    rewrite Hmap, bind_Ret, bind_Ret. cbn [pack_mapped pg_list pack_used_ctr andb].
    set (mapped := u64 (pack_mapped st + pg_size p)). set (st1 := if PACK_MAX_SZ <? mapped then _ else _).
    assert (H1 : pack_used_ctr st1 = pack_used_ctr st /\ pack_mapped st1 = mapped /\ run_once st1 = run_once st /\
      pg_list st1 = if PACK_MAX_SZ <? mapped then map evict (pg_list st) else pg_list st) by (unfold st1; by destruct (_ <? _)).
    destruct H1 as (Ec&Em&Er&El). cbn [set_list pack_used_ctr]. rewrite Ec, (proj2 (Z.ltb_lt _ _)) by done. cbn [negb].
    eexists. split; [done|]. cbn [pg_list pack_used_ctr pack_mapped run_once set_list]. split_and!; [done|done|done| | |].
    + rewrite !length_alter, El. destruct (_ <? _); [by rewrite length_map|done].
    + rewrite El, list_lookup_alter_eq, list_lookup_alter_eq. destruct (PACK_MAX_SZ <? mapped).
      * rewrite list_lookup_fmap, Hi. cbn. by rewrite evict_self.
      * by rewrite Hi.
    + intros j q Hj Hq. rewrite El, list_lookup_alter_ne, list_lookup_alter_ne by done. destruct (PACK_MAX_SZ <? mapped); cbn [andb].
      * rewrite list_lookup_fmap, Hq. cbn. unfold evict. by destruct (decide (idle q)); [rewrite bool_decide_true|rewrite bool_decide_false].
      * done.
Qed.

(** ** Reading through the windows is reading the packs *)

(** [p] is the pack whose index and contents are [v]; it may be mapped. *)
Record backed (p : packed_git) (v : bytes * bytes) : Prop := {
  bk_index : pg_index p = fst v;
  bk_map : map_pack p = Ret (snd v);
  bk_base : pg_base p = None \/ pg_base p = Some (snd v);
  bk_count : 0 <= pg_use_cnt p < 2 ^ 32;
}.

Definition mirrors (st : pack_state) (v : list (bytes * bytes)) : Prop := Forall2 backed (pg_list st) v.

Lemma backed_used p v last : backed p v -> backed (pg_set_used p last (pg_use_cnt p)) v.
Proof. by intros []. Qed.

Lemma u32_back c : 0 <= c < 2 ^ 32 -> u32 (u32 (c + 1) - 1) = c.
Proof. intros Hc. unfold u32. rewrite Zminus_mod_idemp_l, Z.add_simpl_r. by apply Z.mod_small. Qed.

(** A use and the end of it leave the same packs. *)
Lemma use_unuse st v i p pv :
  mirrors st v -> pg_list st !! i = Some p -> v !! i = Some pv -> pack_used_ctr st + 1 < 2 ^ 31 ->
  exists st1 p1 st2, use_packed_git st i = Ret st1 /\ pg_list st1 !! i = Some p1 /\
    pg_index p1 = fst pv /\ pg_base p1 = Some (snd pv) /\
    unuse_packed_git st1 i = Ret st2 /\ mirrors st2 v /\
    pack_used_ctr st2 = pack_used_ctr st + 1 /\ run_once st2 = run_once st.
Proof.
  intros Hm Hi Hv Hctr. destruct (Forall2_lookup_lr _ _ _ _ _ _ Hm Hi Hv) as [Hidx Hmap Hbase Hcnt].
  destruct (use_packed_git_spec st i p (snd pv) Hi Hmap Hctr) as (st1&Huse&Hc1&_&Hr1&Hl1&Hp1&Hrest). cbv zeta in Hrest.
  assert (Eb : default (snd pv) (pg_base p) = snd pv) by (by destruct Hbase as [-> | ->]). rewrite Eb in Hp1.
  set (p1 := pg_set_used _ _ _) in Hp1.
  exists st1, p1, (set_list st1 (<[i := pg_set_used p1 (pg_last_used p1) (u32 (pg_use_cnt p1 - 1))]> (pg_list st1))).
  split; [done|]. split; [done|]. split; [done|]. split; [done|].
  split; [unfold unuse_packed_git; by rewrite Hp1|]. split; [|done].
  apply Forall2_same_length_lookup_2; cbn [set_list pg_list].
  - by rewrite length_insert, Hl1, (Forall2_length _ _ _ Hm).
  - intros j q vj Hq Hvj. destruct (decide (j = i)) as [->|Hj].
    + rewrite Hv in Hvj. injection Hvj as <-. rewrite list_lookup_insert_eq in Hq by (by eapply lookup_lt_Some). injection Hq as <-.
      cbn [pg_set_used pg_set_base pg_use_cnt p1]. rewrite u32_back by done. by split; [| |right|].
    + rewrite list_lookup_insert_ne in Hq by done. destruct (Forall2_lookup_r _ _ _ _ _ Hm Hvj) as (q0&Hq0&Hb).
      rewrite (Hrest _ _ Hj Hq0) in Hq. injection Hq as <-. destruct (_ && _ && _); [|done].
      destruct Hb. by split; [| |left|].
Qed.

Lemma find_in_packs_spec l v i sha1 : Forall2 backed l v ->
  match find_pack_entry v sha1 with
  | Ret None => find_in_packs i l sha1 = Ret None
  | Ret (Some (idx, pack, offset)) => exists k, find_in_packs i l sha1 = Ret (Some ((i + k)%nat, offset)) /\ v !! k = Some (idx, pack)
  | Die => find_in_packs i l sha1 = Die
  | Ub => find_in_packs i l sha1 = Ub
  end.
Proof.
  intros HF. revert i; induction HF as [|p [idx pack] l v Hp HF IH]; intros i; cbn [find_pack_entry find_in_packs]; [done|].
  rewrite (bk_index _ _ Hp). cbn [fst]. destruct (find_pack_entry_one idx sha1) as [[offset|]| |]; cbn [mbind outcome_bind]; [|..|done|done].
  - exists 0%nat. by rewrite Nat.add_0_r.
  - specialize (IH (S i)). destruct (find_pack_entry v sha1) as [[[[idx' pack'] offset]|]| |]; try done.
    destruct IH as (k&->&Hk). exists (S k). split; [by rewrite Nat.add_succ_r|done].
Qed.

Context `{Zlib} (malloc_ok : Z -> bool) (objdir alternates : bytes).

Abbreviation read_packed_used := (read_packed_used open_file mmap_ok stat_regular readdir malloc_ok objdir alternates).

Lemma read_packed_used_spec st db sha1 :
  mirrors st (packs db) -> run_once st = true -> pack_used_ctr st + 1 < 2 ^ 31 ->
  match read_packed_sha1 malloc_ok db sha1 with
  | Some (Ret r) => exists st', read_packed_used st sha1 = io_ret (st', r) /\ mirrors st' (packs db) /\
      run_once st' = true /\ pack_used_ctr st' <= pack_used_ctr st + 1
  | Some Die => read_packed_used st sha1 = Some Die
  | Some Ub => read_packed_used st sha1 = Some Ub
  | None => read_packed_used st sha1 = None
  end.
Proof.
  intros Hm Hr Hctr. unfold PackUse.read_packed_used, find_pack_entry_used, prepare_packed_git. rewrite Hr.
  rewrite bind_Ret. unfold read_packed_sha1. pose proof (find_in_packs_spec _ _ 0 sha1 Hm) as Hf.
  destruct (find_pack_entry (packs db) sha1) as [[[[idx pack] offset]|]| |].
  2-4: rewrite Hf; cbn; try done; exists st; split_and!; (done || lia).
  destruct Hf as (k&->&Hv). cbn [Nat.add mbind outcome_bind io_bind].
  destruct (Forall2_lookup_r _ _ _ _ _ Hm Hv) as (p&Hi&_).
  destruct (use_unuse st _ k p (idx, pack) Hm Hi Hv Hctr) as (st1&p1&st2&Huse&Hp1&Eidx&Ebase&Hun&Hm2&Hc2&Hr2).
  unfold unpack_entry_used, unpack_entry. rewrite Huse. cbn [io_bind]. rewrite Hp1.
  destruct p1 as [idx1 size1 base1 last1 cnt1 name1]. cbn [pg_index pg_base fst snd] in *. subst idx1 base1.
  destruct (unpack_entry_gently malloc_ok (chain_fuel idx) idx pack offset) as [[r| |]|]; cbn [io_bind]; [|done..].
  rewrite Hun. cbn [io_bind]. destruct r as [o|]; [|done]. cbn [io_bind io_ret fst snd].
  exists st2. split_and!; [done|done|by rewrite Hr2|lia].
Qed.

(** Any number of reads, one after the other; through the windows and from
    the packs. *)
Fixpoint read_many (st : pack_state) (shas : list bytes) : io (list (option (bytes * bytes))) :=
  match shas with
  | [] => io_ret []
  | sha1 :: shas => r <- read_packed_used st sha1 ;; rs <- read_many (fst r) shas ;; io_ret (snd r :: rs)
  end.

Fixpoint read_direct (db : odb) (shas : list bytes) : io (list (option (bytes * bytes))) :=
  match shas with
  | [] => io_ret []
  | sha1 :: shas => r <- read_packed_sha1 malloc_ok db sha1 ;; rs <- read_direct db shas ;; io_ret (r :: rs)
  end.

Lemma read_many_direct st db shas :
  mirrors st (packs db) -> run_once st = true -> pack_used_ctr st + Z.of_nat (length shas) < 2 ^ 31 ->
  read_many st shas = read_direct db shas.
Proof.
  revert st; induction shas as [|sha1 shas IH]; intros st Hm Hr Hctr; cbn [read_many read_direct length] in *; [done|].
  pose proof (read_packed_used_spec st db sha1 Hm Hr ltac:(lia)) as Hs.
  destruct (read_packed_sha1 malloc_ok db sha1) as [[r| |]|]; [|by rewrite Hs..].
  destruct Hs as (st'&->&Hm'&Hr'&Hc'). cbn [io_bind io_ret fst snd]. rewrite (IH st') by (done || lia). done.
Qed.

(** ** The list of packs *)

(** A pack as [add_packed_git] makes it. *)
Definition unmapped (p : packed_git) : Prop := pg_base p = None /\ pg_use_cnt p = 0.

Lemma add_packed_git_unmapped room path p :
  add_packed_git open_file stat_regular room path = Ret (Some p) -> unmapped p.
Proof.
  unfold add_packed_git. intros (r&_&Ha)%bind_Ret_inv. destruct (negb _); [done|].
  destruct (open_file path) as [idx|]; [|done]. destruct (_ || _); [done|]. cbv zeta in Ha.
  destruct (stat_regular _); [|done]. by injection Ha as <-.
Qed.

Lemma readdir_loop_unmapped path entries l l' :
  readdir_loop open_file stat_regular path entries l = Ret l' -> Forall unmapped l -> Forall unmapped l'.
Proof.
  revert l; induction entries as [|de entries IH]; intros l; cbn [readdir_loop]; [by intros [= <-]|].
  intros (b&_&Hb)%bind_Ret_inv Hl. destruct (negb b); [by eapply IH|]. cbv zeta in Hb. destruct (_ <? _); [done|].
  apply bind_Ret_inv in Hb as (p&Hp&Hb). eapply IH; [exact Hb|]. destruct p as [p|]; [|done].
  constructor; [by eapply add_packed_git_unmapped|done].
Qed.

Lemma prepare_one_unmapped dir l l' :
  prepare_packed_git_one open_file stat_regular readdir dir l = Ret l' -> Forall unmapped l -> Forall unmapped l'.
Proof.
  unfold prepare_packed_git_one. cbv zeta. destruct (_ <? _); [done|]. destruct (readdir _) as [entries|].
  - apply readdir_loop_unmapped.
  - by intros [= <-].
Qed.

Lemma prepare_alternates_unmapped dirs l l' :
  prepare_alternates open_file stat_regular readdir dirs l = Ret l' -> Forall unmapped l -> Forall unmapped l'.
Proof.
  revert l; induction dirs as [|dir dirs IH]; intros l; cbn [prepare_alternates]; [by intros [= <-]|].
  intros (l1&H1&H2)%bind_Ret_inv Hl. eapply IH; [exact H2|]. by eapply prepare_one_unmapped.
Qed.

(** C40. the windows are transparent: when the packs found in the object
    directories can be mapped and match their indexes, any sequence of reads
    through [use_packed_git] and [unuse_packed_git], whatever is unmapped
    meanwhile, returns (or dies) exactly as reading from the bytes of the
    packs, in the order [prepare_packed_git] lists them. *)
Theorem read_packed_windows (st : pack_state) (shas : list bytes) (db : odb) :
  prepare_packed_git open_file stat_regular readdir objdir alternates no_packs = Ret st ->
  Forall2 (fun p v => pg_index p = fst v /\ map_pack p = Ret (snd v)) (pg_list st) (packs db) ->
  Z.of_nat (length shas) < 2 ^ 31 ->
  read_many no_packs shas = read_direct db shas.
Proof.
  intros Hprep Hpacks Hlen.
  assert (Hst : Forall unmapped (pg_list st) /\ pack_used_ctr st = 0 /\ run_once st = true).
  { unfold prepare_packed_git in Hprep. cbn [no_packs run_once pg_list] in Hprep.
    apply bind_Ret_inv in Hprep as (l1&H1&Hprep). apply bind_Ret_inv in Hprep as (l2&H2&[= <-]). cbn. split; [|done].
    eapply prepare_alternates_unmapped; [exact H2|]. by eapply prepare_one_unmapped. }
  destruct Hst as (Hun&Hc&Hr).
  assert (Hm : mirrors st (packs db)).
  { unfold mirrors. clear -Hun Hpacks. induction Hpacks as [|p v l k [Hi Hmp] _ IH]; [constructor|].
    apply Forall_cons in Hun as [[Hb Hu] Hun]. constructor; [|by apply IH]. split; [done|done|by left|lia]. }
  destruct shas as [|sha1 shas]; [done|].
  assert (E : read_packed_used no_packs sha1 = read_packed_used st sha1).
  { unfold PackUse.read_packed_used, find_pack_entry_used. rewrite Hprep, bind_Ret.
    unfold prepare_packed_git. by rewrite Hr, bind_Ret. }
  rewrite <- (read_many_direct st db) by (done || lia). cbn [read_many]. by rewrite E.
Qed.

End Proofs.

(** ** A run

    The pack of [Demo] in the directory of packs, next to the entries every
    directory has. *)

Module WindowDemo.

Definition objdir : bytes := str ".git/objects".
Definition pack : bytes := Eval vm_compute in Demo.result.1.1.1.
Definition idx : bytes := Eval vm_compute in Demo.result.1.1.2.

Definition open_file (path : bytes) : option bytes :=
  if bool_decide (path = objdir ++ str "/pack/pack-1.idx") then Some idx
  else if bool_decide (path = objdir ++ str "/pack/pack-1.pack") then Some pack
  else None.

(** The inode, the offset, the length and the type in front of a name. *)
Definition entry (name : string) : dirent := {| d_before := replicate 18 0 ++ [8]; d_name := str name |}.

Definition readdir (path : bytes) : option (list dirent) :=
  if bool_decide (path = objdir ++ str "/pack") then
    Some [entry "."; entry ".."; entry "pack-1.pack"; entry "pack-1.idx"; entry "pack-2.idx"]
  else None.

Definition stat_regular (path : bytes) : option Z := (fun f => Z.of_nat (length f)) <$> open_file path.

Definition state : pack_state :=
  match prepare_packed_git open_file stat_regular readdir objdir (str "/alt") no_packs with Ret st => st | _ => no_packs end.

Definition db : odb := {| object_dir := objdir; alternates := str "/alt"; files := ∅; packs := [(idx, pack)] |}.

(** Two packs of which the first is mapped and idle, after 64 MiB have been
    mapped. *)
Definition the_pack : packed_git := {| pg_index := idx; pg_size := Z.of_nat (length pack); pg_base := None; pg_last_used := 0;
  pg_use_cnt := 0; pg_name := objdir ++ str "/pack/pack-1.pack" |}.
Definition busy_state : pack_state := {| pg_list := [pg_set_base the_pack (Some pack); the_pack]; pack_used_ctr := 1;
  pack_mapped := PACK_MAX_SZ; run_once := true |}.

End WindowDemo.

Example prepare_finds_one : length (pg_list WindowDemo.state) = 1%nat.
Proof. vm_compute. reflexivity. Qed.

Lemma use_packed_git_spec_witness :
  exists st', use_packed_git WindowDemo.open_file (fun _ => true) WindowDemo.busy_state 1 = Ret st' /\
    pg_list st' !! 0%nat = Some WindowDemo.the_pack /\
    pg_list st' !! 1%nat = Some (pg_set_used (pg_set_base WindowDemo.the_pack (Some WindowDemo.pack)) 1 1).
Proof.
  destruct (use_packed_git_spec WindowDemo.open_file (fun _ => true) WindowDemo.busy_state 1 WindowDemo.the_pack
    WindowDemo.pack) as (st'&Hu&_&_&_&_&Hp&Hrest); [reflexivity|vm_compute; reflexivity|vm_compute; reflexivity|].
  exists st'. split; [exact Hu|]. split; [|rewrite Hp; vm_compute; reflexivity].
  rewrite (Hrest 0%nat (pg_set_base WindowDemo.the_pack (Some WindowDemo.pack))); [vm_compute; reflexivity|discriminate|reflexivity].
Defined.

Lemma read_packed_windows_witness :
  read_many (H := Stored.stored) WindowDemo.open_file (fun _ => true) WindowDemo.stat_regular WindowDemo.readdir (fun _ => true)
    WindowDemo.objdir (str "/alt") no_packs [Demo.name1; Demo.name2; replicate 20 0; Demo.name1] =
  read_direct (H := Stored.stored) (fun _ => true) WindowDemo.db [Demo.name1; Demo.name2; replicate 20 0; Demo.name1].
Proof.
  apply (read_packed_windows (H := Stored.stored) WindowDemo.open_file (fun _ => true) WindowDemo.stat_regular WindowDemo.readdir
    (fun _ => true) WindowDemo.objdir (str "/alt") WindowDemo.state).
  - vm_compute. reflexivity.
  - apply Forall2_cons. split; [split; vm_compute; reflexivity|]. apply Forall2_nil. exact I.
  - vm_compute. reflexivity.
Defined.
