(* ===== verification/Entry.v ===== *)
(** * Checking out (entry.c, checkout-cache.c)

    [checkout_entry] puts the object of an index entry into the working tree:
    the file that is there is compared and removed, the directories are made,
    the blob is written.  The file system is a class of the system calls the
    code makes, [FileSystem]; a call that changes it returns the new one. *)

From stdpp Require Import base list numbers strings gmap sorting.
From Stdlib Require Import ZArith Lia.
From S2P Require Import Prelude.
From S2P Require Import CsumFile.
From S2P Require Import CString.
From S2P Require Import CacheEntry.
From S2P Require Import Index.
From S2P Require Import IndexFile.
From S2P Require Import ObjectDB.

(** ** The system calls *)

Inductive errno := ENOENT | EEXIST | EISDIR | EOTHER.

Inductive sys (A : Type) := SysOk (a : A) | SysErr (e : errno).
Arguments SysOk {A} a.
Arguments SysErr {A} e.

Definition sys_ok {A} (r : sys A) : bool := match r with SysOk _ => true | SysErr _ => false end.

#[export] Instance errno_eq_dec : EqDecision errno.
Proof. solve_decision. Defined.

(** [fs_creat] is [open] with [O_WRONLY | O_TRUNC | O_CREAT]; [fs_write] writes
    to the file just opened at that path and returns what [write] does;
    [fs_readdir] gives the names [readdir] yields after [opendir]. *)
Class FileSystem (W : Type) := {
  fs_lstat : W -> bytes -> sys stat;
  fs_stat : W -> bytes -> sys stat;
  fs_readdir : W -> bytes -> sys (list bytes);
  fs_mkdir : W -> bytes -> Z -> sys unit * W;
  fs_unlink : W -> bytes -> sys unit * W;
  fs_rmdir : W -> bytes -> sys unit * W;
  fs_creat : W -> bytes -> Z -> sys unit * W;
  fs_write : W -> bytes -> bytes -> Z * W;
  fs_symlink : W -> bytes -> bytes -> sys unit * W
}.

(** [struct checkout]; [base_dir_len] is the length of [base_dir]. *)
Record checkout := {
  base_dir : bytes;
  force : bool;
  quiet : bool;
  not_new : bool;
  refresh_cache : bool
}.

Definition PATH_MAX : nat := 4096.
Definition MAXPATHLEN : nat := 4096.

Section Code.
Context {W} {FS : FileSystem W} {D} {DB : ObjectDB D} (db : D) (state : checkout).

(** ** Code: entry.c *)

(** The [while] loop from [slash]; each round moves [slash] right. *)
Fixpoint create_dirs_loop (fuel : nat) (w : W) (path : bytes) (slash : nat) : outcome W :=
  match fuel with
  | O => Ub
  | S fuel =>
      match strchr (drop (S slash) path) 47 with
      | None => Ret w
      | Some k =>
          let len := (S slash + k)%nat in
          let buf := take len path in
          match fs_mkdir w buf 0x1ff with
          | (SysOk _, w) => create_dirs_loop fuel w path len
          | (SysErr e, w) =>
              if bool_decide (e = EEXIST) then
                let '(again, w) :=
                  if (length (base_dir state) <? len)%nat && force state then
                    match fs_unlink w buf with
                    | (SysOk _, w) => let '(r, w) := fs_mkdir w buf 0x1ff in (sys_ok r, w)
                    | (SysErr _, w) => (false, w)
                    end
                  else (false, w) in
                if again then create_dirs_loop fuel w path len
                else
                  match fs_stat w buf with
                  | SysOk st => if S_ISDIR (st_mode st) then create_dirs_loop fuel w path len else Die
                  | SysErr _ => Die
                  end
              else Die
          end
      end
  end.

Definition create_directories (w : W) (path : bytes) : outcome W := create_dirs_loop (S (length path)) w path 0.

(** [readdir]'s names for the directory itself and its parent. *)
Definition dot_name (d_name : bytes) : bool :=
  (name_char d_name 0 =? 46) &&
  ((name_char d_name 1 =? 0) || ((name_char d_name 1 =? 46) && (name_char d_name 2 =? 0))).

(** [while ((de = readdir(dir)) != NULL)]; [pathbuf] has [PATH_MAX] bytes. *)
Fixpoint remove_names (remove : W -> bytes -> io W) (w : W) (path : bytes) (names : list bytes) : io W :=
  match names with
  | [] => io_ret w
  | d_name :: names =>
      if dot_name d_name then remove_names remove w path names
      else
        let pathbuf := path ++ 47 :: d_name in
        if (PATH_MAX <=? length pathbuf)%nat then Some Ub
        else
          match fs_lstat w pathbuf with
          | SysErr _ => Some Die
          | SysOk st =>
              if S_ISDIR (st_mode st) then w <- remove w pathbuf ;; remove_names remove w path names
              else
                match fs_unlink w pathbuf with
                | (SysOk _, w) => remove_names remove w path names
                | (SysErr _, _) => Some Die
                end
          end
  end.

(** One directory level per unit of fuel. *)
Fixpoint remove_subtree (fuel : nat) (w : W) (path : bytes) : io W :=
  match fuel with
  | O => None
  | S fuel =>
      match fs_readdir w path with
      | SysErr _ => Some Die
      | SysOk names =>
          if (PATH_MAX <=? length path)%nat then Some Ub
          else
            w <- remove_names (remove_subtree fuel) w path names ;;
            match fs_rmdir w path with
            | (SysOk _, w) => io_ret w
            | (SysErr _, _) => Some Die
            end
      end
  end.

(** 0777 and 0666 are octal.  [true]: a descriptor.  A path has fewer than
    [PATH_MAX] levels. *)
Definition create_file (w : W) (path : bytes) (mode : Z) : io (bool * W) :=
  let mode := if negb (Z.land mode 0x40 =? 0) then 0x1ff else 0x1b6 in
  match fs_creat w path mode with
  | (SysOk _, w) => io_ret (true, w)
  | (SysErr e, w) =>
      if bool_decide (e = EISDIR) && force state then
        w <- remove_subtree PATH_MAX w path ;;
        let '(fd, w) := fs_creat w path mode in io_ret (sys_ok fd, w)
      else io_ret (false, w)
  end.

(** The tail of [write_entry]: when [lstat] fails, [st] was never set. *)
Definition refresh_entry (w : W) (ce : cache_entry) : outcome cache_entry :=
  if refresh_cache state then
    match fs_lstat w (ce_name ce) with
    | SysOk st => Ret (fill_stat_cache_info ce st)
    | SysErr _ => Ub
    end
  else Ret ce.

Definition written_entry (w : W) (ce : cache_entry) : io (Z * cache_entry * W) :=
  ce <- Some (refresh_entry w ce) ;; io_ret (0, ce, w).

(** [char target[1024]] takes the whole object and a NUL. *)
Definition write_entry (w : W) (ce : cache_entry) (path : bytes) : io (Z * cache_entry * W) :=
  obj <- db_read db (ce_sha1 ce) ;;
  match obj with
  | None => io_ret (-1, ce, w)
  | Some (type, new) =>
      if negb (bool_decide (cstr type = str "blob")) then io_ret (-1, ce, w)
      else if Z.land (ce_mode ce) S_IFMT =? S_IFREG then
        r <- create_file w path (ce_mode ce) ;;
        let '(fd, w) := r in
        if negb fd then io_ret (-1, ce, w)
        else
          let '(wrote, w) := fs_write w path new in
          if negb (wrote =? Z.of_nat (length new)) then io_ret (-1, ce, w) else written_entry w ce
      else if Z.land (ce_mode ce) S_IFMT =? S_IFLNK then
        if (1024 <=? length new)%nat then Some Ub
        else
          match fs_symlink w (cstr new) path with
          | (SysErr _, w) => io_ret (-1, ce, w)
          | (SysOk _, w) => written_entry w ce
          end
      else io_ret (-1, ce, w)
  end.

(** From [create_directories] on. *)
Definition checkout_new (w : W) (ce : cache_entry) (path : bytes) : io (Z * cache_entry * W) :=
  w <- Some (create_directories w path) ;; write_entry w ce path.

(** [static char path[MAXPATHLEN+1]]. *)
Definition checkout_entry (w : W) (ce : cache_entry) : io (Z * cache_entry * W) :=
  let path := base_dir state ++ ce_name ce in
  if (MAXPATHLEN <? length path)%nat then Some Ub
  else
    match fs_lstat w path with
    | SysOk st =>
        changed <- Some (ce_match_stat ce st) ;;
        if changed =? 0 then io_ret (0, ce, w)
        else if negb (force state) then io_ret (0, ce, w)
        else let '(_, w) := fs_unlink w path in checkout_new w ce path
    | SysErr _ => if not_new state then io_ret (0, ce, w) else checkout_new w ce path
    end.

(** ** Code: checkout-cache.c *)

(** An entry is checked out through the pointer in [active_cache]. *)
Definition checkout_file (w : W) (cache : list cache_entry) (name : bytes) : io (Z * list cache_entry * W) :=
  let pos := cache_name_pos cache name (Z.of_nat (length name)) in
  if pos <? 0 then io_ret (-1, cache, w)
  else
    match cache !! Z.to_nat pos with
    | None => Some Ub
    | Some ce =>
        r <- checkout_entry w ce ;;
        let '(ret, ce, w) := r in io_ret (ret, <[Z.to_nat pos := ce]> cache, w)
    end.

(** The [for] loop from the entries [l] on; [done] are those behind. *)
Fixpoint checkout_all_loop (w : W) (behind l : list cache_entry) : io (Z * list cache_entry * W) :=
  match l with
  | [] => io_ret (0, behind, w)
  | ce :: l =>
      if negb (ce_stage ce =? 0) then checkout_all_loop w (behind ++ [ce]) l
      else
        r <- checkout_entry w ce ;;
        let '(ret, ce, w) := r in
        if ret <? 0 then io_ret (-1, behind ++ ce :: l, w) else checkout_all_loop w (behind ++ [ce]) l
  end.

Definition checkout_all (w : W) (cache : list cache_entry) : io (Z * list cache_entry * W) :=
  checkout_all_loop w [] cache.

End Code.

Section Main.
Context {W} {FS : FileSystem W} {D} {DB : ObjectDB D} (db : D).
Context (hold_ok commit_ok : bool) (write_ok : nat -> bool).

(** The locals and globals of [main]; [newfd] says whether the lock on the
    index is held. *)
Record locals := { state : checkout; force_filename : bool; newfd : bool }.

Definition with_state (l : locals) (c : checkout) : locals :=
  {| state := c; force_filename := force_filename l; newfd := newfd l |}.

Definition set_refresh (c : checkout) (r : bool) : checkout :=
  {| base_dir := base_dir c; force := force c; quiet := quiet c; not_new := not_new c; refresh_cache := r |}.

(** [if (state.base_dir_len)]: under a prefix the index is not updated. *)
Definition prefix_guard (l : locals) : locals :=
  if (0 <? length (base_dir (state l)))%nat then
    {| state := set_refresh (state l) false; force_filename := force_filename l;
       newfd := if refresh_cache (state l) then false else newfd l |}
  else l.

(** One option; [None]: the argument is a file name. *)
Definition main_option (l : locals) (arg : bytes) : option (outcome locals) :=
  let c := state l in
  if force_filename l then None
  else if bool_decide (arg = str "--") then Some (Ret {| state := c; force_filename := true; newfd := newfd l |})
  else if bool_decide (arg = str "-f") then
    Some (Ret (with_state l {| base_dir := base_dir c; force := true; quiet := quiet c; not_new := not_new c; refresh_cache := refresh_cache c |}))
  else if bool_decide (arg = str "-q") then
    Some (Ret (with_state l {| base_dir := base_dir c; force := force c; quiet := true; not_new := not_new c; refresh_cache := refresh_cache c |}))
  else if bool_decide (arg = str "-n") then
    Some (Ret (with_state l {| base_dir := base_dir c; force := force c; quiet := quiet c; not_new := true; refresh_cache := refresh_cache c |}))
  else if bool_decide (arg = str "-u") then
    Some (if newfd l || hold_ok then Ret {| state := set_refresh c true; force_filename := false; newfd := true |} else Die)
  else if memcmp 9 arg (str "--prefix=") =? 0 then
    Some (Ret (with_state l {| base_dir := drop 9 arg; force := force c; quiet := quiet c; not_new := not_new c; refresh_cache := refresh_cache c |}))
  else None.

Fixpoint main_args (l : locals) (w : W) (cache : list cache_entry) (args : list bytes) : io (locals * list cache_entry * W) :=
  match args with
  | [] => io_ret (l, cache, w)
  | arg :: args =>
      if negb (force_filename l) && bool_decide (arg = str "-a") then
        r <- checkout_all db (state l) w cache ;;
        let '(_, cache, w) := r in main_args l w cache args
      else
        match main_option l arg with
        | Some o => l <- Some o ;; main_args l w cache args
        | None =>
            let l := prefix_guard l in
            r <- checkout_file db (state l) w cache arg ;;
            let '(_, cache, w) := r in main_args l w cache args
        end
  end.

(** The result: what is committed as the new index, if anything. *)
Definition checkout_main (w : W) (file : option bytes) (args : list bytes) : io (option bytes * W) :=
  r <- Some (read_cache None file) ;;
  let '(nr, i) := r in
  if nr <? 0 then Some Die
  else
    let cache := match i with Some i => active_cache i | None => [] end in
    let start := {| base_dir := []; force := false; quiet := false; not_new := false; refresh_cache := false |} in
    m <- main_args {| state := start; force_filename := false; newfd := false |} w cache args ;;
    let '(l, cache, w) := m in
    if newfd l then
      f <- Some (write_cache write_ok cache) ;;
      match f with
      | Some new => if commit_ok then io_ret (Some new, w) else Some Die
      | None => Some Die
      end
    else io_ret (None, w).

End Main.

(** ** What the system promises *)

Inductive node := File (contents : bytes) | Link (target : bytes) | Dir.

#[export] Instance node_eq_dec : EqDecision node.
Proof. solve_decision. Defined.

(** Paths that name a place in the directory tree as it is, without "//", "."
    and "..". *)
Definition absolute (p : bytes) : bool := bool_decide (head p = Some 47).
Definition steps (p : bytes) : list bytes := components (match p with 47 :: p' => p' | _ => p end).
Definition plain (p : bytes) : Prop := 0 ∉ p /\ Forall (fun c => c ∉ [[]; str "."; str ".."]) (steps p).

(** [d] is one of the directories of [path]. *)
Definition dir_of (path d : bytes) : Prop := exists len, (0 < len)%nat /\ path !! len = Some 47 /\ d = take len path.

(** [node_at w p] is what the directory tree has at the plain path [p]
    ([None]: nothing), no link being followed.  A path is direct when none of
    its directories is a symbolic link: it then leads to its own place. *)
Section Places.
Context {W : Type} (node_at : W -> bytes -> option node).

Record direct (w : W) (p : bytes) : Prop := {
  di_plain : plain p;
  di_dirs : forall d t, dir_of p d -> node_at w d <> Some (Link t);
}.

(** Two names for different places. *)
Definition elsewhere (p q : bytes) : Prop := plain q /\ absolute q = absolute p /\ q <> p.

End Places.

(** What the calls do at a direct path, as the manual pages of path resolution
    and of the calls have it: one that succeeds did its work there, one that
    fails nothing, and neither touches another place.  Through a path that
    leads over a symbolic link a call may change any place; nothing is said of
    that.  A file is written just after [open] has made it, when it has no
    second name. *)
Class FileSystemLaws (W : Type) `{FileSystem W} (node_at : W -> bytes -> option node) : Prop := {
  lstat_node : forall w p st, direct node_at w p -> fs_lstat w p = SysOk st -> is_Some (node_at w p);
  mkdir_node : forall w p m, direct node_at w p ->
    node_at (fs_mkdir w p m).2 p = if sys_ok (fs_mkdir w p m).1 then Some Dir else node_at w p;
  mkdir_frame : forall w p m q, direct node_at w p -> elsewhere p q -> node_at (fs_mkdir w p m).2 q = node_at w q;
  unlink_node : forall w p, direct node_at w p ->
    node_at (fs_unlink w p).2 p = if sys_ok (fs_unlink w p).1 then None else node_at w p;
  unlink_frame : forall w p q, direct node_at w p -> elsewhere p q -> node_at (fs_unlink w p).2 q = node_at w q;
  creat_new : forall w p m, direct node_at w p -> node_at w p = None ->
    node_at (fs_creat w p m).2 p = if sys_ok (fs_creat w p m).1 then Some (File []) else None;
  creat_isdir : forall w p m, direct node_at w p -> node_at w p = None -> (fs_creat w p m).1 <> SysErr EISDIR;
  creat_frame : forall w p m q, direct node_at w p -> node_at w p = None -> elsewhere p q ->
    node_at (fs_creat w p m).2 q = node_at w q;
  write_new : forall w p m buf, direct node_at w p -> node_at w p = None -> (fs_creat w p m).1 = SysOk tt ->
    (fs_write (fs_creat w p m).2 p buf).1 = Z.of_nat (length buf) ->
    node_at (fs_write (fs_creat w p m).2 p buf).2 p = Some (File buf);
  write_frame : forall w p m buf q, direct node_at w p -> node_at w p = None -> (fs_creat w p m).1 = SysOk tt -> elsewhere p q ->
    node_at (fs_write (fs_creat w p m).2 p buf).2 q = node_at w q;
  symlink_node : forall w t p, direct node_at w p ->
    node_at (fs_symlink w t p).2 p = if sys_ok (fs_symlink w t p).1 then Some (Link t) else node_at w p;
  symlink_frame : forall w t p q, direct node_at w p -> elsewhere p q -> node_at (fs_symlink w t p).2 q = node_at w q
}.

(** ** Checking out into an empty place *)

Lemma strchr_lookup s c k : strchr s c = Some k -> s !! k = Some c.
Proof.
  revert k; induction s as [|x s IH]; intros k; cbn [strchr]; [done|].
  destruct (Z.eqb_spec x c) as [->|]; [by intros [= <-]|]. destruct (x =? 0); [done|].
  destruct (strchr s c) as [j|] eqn:E; cbn; [|done]. intros [= <-]. cbn. by apply IH.
Qed.

Lemma take_dir path d len : path !! len = Some 47 -> d = take len path -> path = d ++ 47 :: drop (S len) path.
Proof. intros Hl ->. rewrite <- (take_drop len path) at 1. by rewrite (drop_S path 47). Qed.

Lemma dir_of_app path d : dir_of path d <-> d <> [] /\ exists r, path = d ++ 47 :: r.
Proof.
  split.
  - intros (len&Hpos&Hl&E). pose proof (lookup_lt_Some _ _ _ Hl). split.
    + intros ->. apply (f_equal length) in E. rewrite length_take in E. cbn in E. lia.
    + eexists. by apply (take_dir path d len).
  - intros (Hne&r&->). exists (length d). split; [destruct d; [done|cbn; lia]|].
    split; [by rewrite list_lookup_middle|by rewrite take_app_length].
Qed.

Lemma dir_of_prefix path d : d <> [] /\ (d ++ [47]) `prefix_of` path <-> dir_of path d.
Proof. rewrite dir_of_app. split; intros (Hd&r&E); (split; [done|]; exists r); rewrite E; by rewrite <- app_assoc. Qed.

#[export] Instance dir_of_dec path d : Decision (dir_of path d).
Proof. destruct (decide (d <> [] /\ (d ++ [47]) `prefix_of` path)); [left|right]; by rewrite <- dir_of_prefix. Defined.

Lemma steps_rel p : absolute p = false -> steps p = components p.
Proof.
  unfold absolute, steps. intros H. apply bool_decide_eq_false in H. destruct p as [|c p]; [done|]. cbn in H.
  repeat match goal with |- context [match ?c with _ => _ end] => is_var c; destruct c end; done.
Qed.

Lemma steps_abs p : absolute p = true -> exists p', p = 47 :: p' /\ steps p = components p'.
Proof. unfold absolute. intros H%bool_decide_eq_true. destruct p as [|c p]; [done|]. injection H as ->. by exists p. Qed.

Lemma steps_inj p q : absolute q = absolute p -> steps q = steps p -> q = p.
Proof.
  intros Ha. destruct (absolute p) eqn:Ep.
  - destruct (steps_abs p Ep) as (p'&->&->), (steps_abs q Ha) as (q'&->&->). by intros ->%components_inj.
  - rewrite !steps_rel by done. apply components_inj.
Qed.

(** What is before some of the steps is a directory. *)
Lemma steps_dir p k r : plain p -> steps p = k ++ r -> k <> [] -> r <> [] -> exists d, dir_of p d /\ steps d = k.
Proof.
  intros [_ HF] E Hk Hr. destruct (absolute p) eqn:Ep.
  - destruct (steps_abs p Ep) as (p'&->&E'). rewrite E' in E. destruct (components_split p' k r E Hk Hr) as (a&b&->&Ha).
    exists (47 :: a). split; [|done]. apply dir_of_app. split; [done|]. by exists b.
  - pose proof E as E'. rewrite steps_rel in E by done. destruct (components_split p k r E Hk Hr) as (a&b&->&Ha).
    assert (Hne : a <> []).
    { intros ->. rewrite E', <- Ha in HF. apply Forall_app in HF as [HF _]. apply Forall_cons in HF as [HF _]. apply HF, list_elem_of_here. }
    exists a. split; [apply dir_of_app; split; [done|by exists b]|]. rewrite steps_rel; [done|]. by destruct a.
Qed.

Lemma steps_app d r : d <> [] -> steps (d ++ 47 :: r) = steps d ++ components r.
Proof.
  intros Hd. destruct d as [|c d]; [done|]. destruct (absolute (c :: d)) eqn:E.
  - destruct (steps_abs _ E) as (d'&[= -> ->]&->). apply components_app.
  - rewrite !steps_rel by done. apply (components_app (c :: d)).
Qed.

(** The directories of a plain path are plain and lead from the same place. *)
Lemma plain_dir path d : plain path -> dir_of path d -> plain d /\ absolute d = absolute path.
Proof.
  intros [H0 HF] (Hne&r&->)%dir_of_app. pose proof (steps_app d r Hne) as Es.
  rewrite Es in HF. apply Forall_app in HF as [HF _]. split; [|by destruct d]. split; [|done]. intros Hin. apply H0, elem_of_app. by left.
Qed.

Lemma dir_of_trans path d e : dir_of path d -> dir_of d e -> dir_of path e.
Proof.
  intros (Hd&r&->)%dir_of_app (He&r'&->)%dir_of_app. apply dir_of_app. split; [done|]. exists (r' ++ 47 :: r). by rewrite <- app_assoc.
Qed.

Lemma dir_of_neq path d : dir_of path d -> d <> path.
Proof.
  intros (_&r&->)%dir_of_app E. apply (f_equal length) in E. rewrite length_app in E. cbn in E. lia.
Qed.

Section Complete.
Context {W} {FS : FileSystem W} {node_at : W -> bytes -> option node} {FL : FileSystemLaws W node_at}.
Context {D} {DB : ObjectDB D} (db : D) (state : checkout).

(** Of the places below the same root as the entries, only those in [P] have
    changed. *)
Definition others_kept (P : bytes -> Prop) (w w' : W) : Prop :=
  forall q, plain q -> absolute q = absolute (base_dir state) -> ~ P q -> node_at w' q = node_at w q.

Lemma others_kept_trans (P : bytes -> Prop) a b c : others_kept P a b -> others_kept P b c -> others_kept P a c.
Proof. intros H1 H2 q Hp Ha Hq. by rewrite (H2 q Hp Ha Hq), (H1 q Hp Ha Hq). Qed.

Lemma others_kept_weaken (P Q : bytes -> Prop) a b : (forall q, P q -> Q q) -> others_kept P a b -> others_kept Q a b.
Proof. intros HPQ HP q Hpl Ha Hq. apply HP; [done..|]. intros Hp. apply Hq, HPQ, Hp. Qed.

Lemma others_kept_at (P : bytes -> Prop) w w' p : P p -> absolute p = absolute (base_dir state) ->
  (forall q, elsewhere p q -> node_at w' q = node_at w q) -> others_kept P w w'.
Proof. intros Hp Ha Hf q Hpl Hq Hn. apply Hf. split; [done|]. split; [congruence|]. by intros ->. Qed.

Lemma direct_dir w path d : direct node_at w path -> dir_of path d -> direct node_at w d.
Proof.
  intros [Hp Hd] Hdir. split; [by apply (plain_dir path d)|]. intros e t He. apply Hd. by eapply dir_of_trans.
Qed.

(** A path stays direct when the only directory of it that has changed is not
    a link now. *)
Lemma direct_step w w' path p :
  direct node_at w path -> dir_of path p -> (forall q, elsewhere p q -> node_at w' q = node_at w q) ->
  (node_at w' p = node_at w p \/ forall t, node_at w' p <> Some (Link t)) -> direct node_at w' path.
Proof.
  intros [Hpl Hd] Hp Hf Hn. split; [done|]. intros d t Hdir. destruct (plain_dir path d Hpl Hdir) as [Hpd Had].
  destruct (plain_dir path p Hpl Hp) as [_ Hap]. destruct (decide (d = p)) as [->|Hne].
  - destruct Hn as [->|]; [by apply Hd|done].
  - rewrite Hf; [by apply Hd|]. split; [done|]. split; [congruence|done].
Qed.

(** A step of [create_directories]: done at a directory of [path]. *)
Definition dir_step (path : bytes) (w w' : W) : Prop := direct node_at w' path /\ others_kept (dir_of path) w w'.

Lemma dir_step_trans path a b c : dir_step path a b -> dir_step path b c -> dir_step path a c.
Proof. intros [_ H1] [H2 H3]. split; [done|]. by eapply others_kept_trans. Qed.

Lemma mkdir_step w path d m : direct node_at w path -> absolute path = absolute (base_dir state) -> dir_of path d ->
  dir_step path w (fs_mkdir w d m).2.
Proof.
  intros Hp Ha Hd. pose proof (direct_dir _ _ _ Hp Hd) as Hdd. destruct (plain_dir path d (di_plain _ _ _ Hp) Hd) as [_ Had]. split.
  - apply (direct_step w _ path d); [done|done|intros q; by apply mkdir_frame|]. rewrite mkdir_node by done.
    destruct (sys_ok _); [by right|by left].
  - apply (others_kept_at _ _ _ d); [done|congruence|]. intros q. by apply mkdir_frame.
Qed.

Lemma unlink_step w path d : direct node_at w path -> absolute path = absolute (base_dir state) -> dir_of path d ->
  dir_step path w (fs_unlink w d).2.
Proof.
  intros Hp Ha Hd. pose proof (direct_dir _ _ _ Hp Hd) as Hdd. destruct (plain_dir path d (di_plain _ _ _ Hp) Hd) as [_ Had]. split.
  - apply (direct_step w _ path d); [done|done|intros q; by apply unlink_frame|]. rewrite unlink_node by done.
    destruct (sys_ok _); [by right|by left].
  - apply (others_kept_at _ _ _ d); [done|congruence|]. intros q. by apply unlink_frame.
Qed.

Lemma create_dirs_kept fuel w path slash :
  direct node_at w path -> absolute path = absolute (base_dir state) ->
  (slash <= length path)%nat -> (length path < slash + fuel)%nat ->
  create_dirs_loop state fuel w path slash = Die \/
  exists w', create_dirs_loop state fuel w path slash = Ret w' /\ dir_step path w w'.
Proof.
  revert w slash; induction fuel as [|fuel IH]; intros w slash Hw Ha Hs Hf; [lia|]. cbn [create_dirs_loop].
  destruct (strchr (drop (S slash) path) 47) as [k|] eqn:Ek; [|right; by exists w].
  apply strchr_lookup in Ek. rewrite lookup_drop in Ek. set (len := (S slash + k)%nat) in *.
  assert (Hsl : (slash < len)%nat) by lia. clearbody len.
  pose proof (lookup_lt_Some _ _ _ Ek) as Hlen.
  assert (Hd : dir_of path (take len path)) by (exists len; split; [lia|done]).
  assert (Hnext : forall w1, dir_step path w w1 -> create_dirs_loop state fuel w1 path len = Die \/
    exists w', create_dirs_loop state fuel w1 path len = Ret w' /\ dir_step path w w').
  { intros w1 H1. destruct (IH w1 len (proj1 H1) Ha ltac:(lia) ltac:(lia)) as [->|(w'&->&Hw')]; [by left|right].
    exists w'. split; [done|]. by eapply dir_step_trans. }
  pose proof (mkdir_step w path (take len path) 0x1ff Hw Ha Hd) as Hm1.
  destruct (fs_mkdir w (take len path) 0x1ff) as [[[]|e] w1]; cbn in Hm1; [by apply Hnext|].
  case_bool_decide; [|by left].
  set (t := if (_ && _) then _ else _).
  assert (Ht : dir_step path w t.2).
  { subst t. destruct (_ && _); [|exact Hm1]. pose proof (unlink_step w1 path (take len path) (proj1 Hm1) Ha Hd) as Hu.
    destruct (fs_unlink w1 (take len path)) as [[[]|e'] w2]; cbn in Hu |- *; [|by eapply dir_step_trans].
    pose proof (mkdir_step w2 path (take len path) 0x1ff (proj1 Hu) Ha Hd) as Hm.
    destruct (fs_mkdir w2 (take len path) 0x1ff) as [r w3]. cbn in Hm |- *.
    eapply dir_step_trans; [exact Hm1|]. by eapply dir_step_trans. }
  destruct t as [[] w2]; cbn in Ht; [by apply Hnext|].
  destruct (fs_stat w2 (take len path)) as [st|]; [|by left]. destruct (S_ISDIR (st_mode st)); [by apply Hnext|by left].
Qed.

(** What an entry's blob looks like in the working tree. *)
Definition blob_node (ce : cache_entry) (blob : bytes) : node :=
  if Z.land (ce_mode ce) S_IFMT =? S_IFREG then File blob else Link (cstr blob).

(** An object that fits. *)
Definition blob_of (ce : cache_entry) (blob : bytes) : Prop :=
  db_read db (ce_sha1 ce) = io_ret (Some (str "blob", blob)) /\
  (Z.land (ce_mode ce) S_IFMT = S_IFLNK -> (length blob < 1024)%nat).

(** Checking out is done, failed with -1, or ended the process. *)
Definition checked_out {A} (P : Z -> A -> W -> Prop) (r : io (Z * A * W)) : Prop :=
  r = Some Die \/ exists ret a w, r = io_ret (ret, a, w) /\ (ret = 0 \/ ret = -1) /\ P ret a w.

Lemma written_ok w ce : refresh_cache state = false -> written_entry state w ce = io_ret (0, ce, w).
Proof. intros Hr. unfold written_entry, refresh_entry. by rewrite Hr. Qed.

(** Where an entry is written: nothing is there, and the path leads to its own
    place, below the same root as the prefix. *)
Definition free_at (w : W) (path : bytes) : Prop :=
  direct node_at w path /\ absolute path = absolute (base_dir state) /\ node_at w path = None.

Definition at_path (path : bytes) : bytes -> Prop := fun q => q = path.

Lemma direct_other w w' path : direct node_at w path -> absolute path = absolute (base_dir state) ->
  others_kept (at_path path) w w' -> direct node_at w' path.
Proof.
  intros [Hp Hd] Ha Hk. split; [done|]. intros d t Hdir. destruct (plain_dir path d Hp Hdir) as [Hpd Had].
  rewrite Hk; [by apply Hd|done|congruence|by apply dir_of_neq].
Qed.

Lemma write_entry_kept w ce path blob : refresh_cache state = false -> free_at w path -> blob_of ce blob ->
  checked_out (fun ret ce' w' => ce' = ce /\ others_kept (at_path path) w w' /\
    (ret = 0 -> node_at w' path = Some (blob_node ce blob))) (write_entry db state w ce path).
Proof.
  intros Hr (Hd&Ha&Hw) [Hb Hl]. unfold write_entry, blob_node. rewrite Hb. cbn [io_bind io_ret].
  rewrite bool_decide_true by done. cbn [negb].
  assert (Hkept : forall w', (forall q, elsewhere path q -> node_at w' q = node_at w q) -> others_kept (at_path path) w w')
    by (intros w'; by apply others_kept_at).
  assert (Hfail : forall w', others_kept (at_path path) w w' ->
    checked_out (fun ret ce' w' => ce' = ce /\ others_kept (at_path path) w w' /\
      (ret = 0 -> node_at w' path = Some (if Z.land (ce_mode ce) S_IFMT =? S_IFREG then File blob else Link (cstr blob))))
      (io_ret (-1, ce, w'))).
  { intros w' H'. right. exists (-1), ce, w'. split; [done|]. split; [by right|]. done. }
  destruct (Z.eqb_spec (Z.land (ce_mode ce) S_IFMT) S_IFREG) as [Em|].
  - unfold create_file. set (mode := if negb (_ =? 0) then _ else _).
    pose proof (fun q => creat_frame w path mode q Hd Hw) as Hcf. pose proof (creat_isdir w path mode Hd Hw) as Hdir.
    pose proof (write_new w path mode blob Hd Hw) as Hww. pose proof (fun q => write_frame w path mode blob q Hd Hw) as Hwf.
    destruct (fs_creat w path mode) as [[[]|e] w1]; cbn [fst snd] in *.
    + cbn [io_bind io_ret negb]. specialize (Hww eq_refl). destruct (fs_write w1 path blob) as [wrote w2]; cbn [fst snd] in *.
      assert (Hk : others_kept (at_path path) w w2) by (apply Hkept; intros q Hq; by apply Hwf).
      destruct (Z.eqb_spec wrote (Z.of_nat (length blob))) as [E|]; cbn [negb]; [|by apply Hfail].
      rewrite written_ok by done. right. exists 0, ce, w2. split; [done|]. split; [by left|]. split_and!; [done..|]. intros _. by apply Hww.
    + case_bool_decide as He; [congruence|]. cbn [andb io_bind io_ret negb].
      apply Hfail, Hkept. intros q Hq. by apply Hcf.
  - destruct (Z.eqb_spec (Z.land (ce_mode ce) S_IFMT) S_IFLNK) as [Em|]; [|by apply Hfail; apply Hkept].
    specialize (Hl Em). destruct (Nat.leb_spec 1024 (length blob)); [lia|].
    pose proof (fun q => symlink_frame w (cstr blob) path q Hd) as Hsf. pose proof (symlink_node w (cstr blob) path Hd) as Hs.
    destruct (fs_symlink w (cstr blob) path) as [[[]|e] w1]; cbn [fst snd sys_ok] in *; [|apply Hfail, Hkept; intros q Hq; by apply Hsf].
    rewrite written_ok by done. right. exists 0, ce, w1. split; [done|]. split; [by left|]. split_and!; [done| |done].
    apply Hkept. intros q Hq. by apply Hsf.
Qed.

Lemma checkout_entry_kept w ce blob : let path := base_dir state ++ ce_name ce in
  refresh_cache state = false -> not_new state = false -> (length path <= MAXPATHLEN)%nat ->
  free_at w path -> blob_of ce blob ->
  checked_out (fun ret ce' w' => ce' = ce /\ direct node_at w' path /\ others_kept (fun q => q = path \/ dir_of path q) w w' /\
    (ret = 0 -> node_at w' path = Some (blob_node ce blob))) (checkout_entry db state w ce).
Proof.
  intros path Hr Hn Hl (Hd&Ha&Hw) Hb. unfold checkout_entry. fold path. destruct (Nat.ltb_spec MAXPATHLEN (length path)); [lia|].
  destruct (fs_lstat w path) as [st|e] eqn:Es.
  { apply lstat_node in Es as [n En]; [congruence|done]. }
  rewrite Hn. unfold checkout_new, create_directories.
  destruct (create_dirs_kept (S (length path)) w path 0 Hd Ha ltac:(lia) ltac:(lia)) as [->|(w1&->&Hd1&H1)]; [by left|]. cbn [io_bind].
  assert (Hw1 : free_at w1 path).
  { split; [done|]. split; [done|]. rewrite H1; [done|apply Hd|done|]. intros Hdir. by apply (dir_of_neq path path). }
  destruct (write_entry_kept w1 ce path blob Hr Hw1 Hb) as [->|(ret&ce'&w2&->&Hret&->&H2&H3)]; [by left|right].
  exists ret, ce, w2. split; [done|]. split; [done|]. split; [done|]. split; [by eapply direct_other|]. split; [|done].
  eapply others_kept_trans; (eapply others_kept_weaken; [|done]); intros q; [by right|by left].
Qed.

Definition entry_path (ce : cache_entry) : bytes := base_dir state ++ ce_name ce.

(** An entry's path is neither the path nor a directory of another's. *)
Lemma apart cache p q : index_ok cache -> df_ok cache -> p ∈ cache -> q ∈ cache -> ce_stage p = 0 -> ce_stage q = 0 ->
  p <> q -> ~ (entry_path p = entry_path q \/ dir_of (entry_path q) (entry_path p)).
Proof.
  intros Hok Hdf Hp Hq Sp Sq Hne. pose proof (proj1 Hok) as Hwf. rewrite Forall_forall in Hwf. unfold entry_path. intros [E|(len&_&Hlen&E)].
  - apply app_inv_head in E. apply Hne.
    apply (index_key_inj cache); [done..|]. unfold ce_key. f_equal; [done|].
    rewrite (wf_flags p (Hwf p Hp)), (wf_flags q (Hwf q Hq)), E, Sp, Sq. done.
  - apply (Hdf p q Hp Hq). split; [congruence|]. apply under_iff.
    pose proof (lookup_lt_Some _ _ _ Hlen) as Hl. pose proof (f_equal length E) as El.
    rewrite length_take, !length_app in *. rewrite lookup_app_r in Hlen by lia. rewrite take_app_ge in E by lia.
    apply app_inv_head in E. replace (length (ce_name p)) with (len - length (base_dir state))%nat by lia.
    split; [lia|]. split; [rewrite E; apply prefix_take|]. unfold name_char. by rewrite Hlen.
Qed.

Lemma later_entry cache behind ce l p : index_ok cache -> cache = behind ++ ce :: l -> p ∈ l -> p <> ce.
Proof.
  intros [_ Hs] E Hp ->. apply (ce_lt_irrefl ce). rewrite E in Hs. apply StronglySorted_app in Hs as (_&_&Hs).
  apply StronglySorted_inv in Hs as [_ HF]. rewrite Forall_forall in HF. by apply HF.
Qed.

Definition all_checked_out (blob_for : cache_entry -> bytes) (l : list cache_entry) (w : W) : Prop :=
  forall ce, ce ∈ l -> ce_stage ce = 0 -> node_at w (entry_path ce) = Some (blob_node ce (blob_for ce)).

Definition on_the_way (cache : list cache_entry) (q : bytes) : Prop :=
  exists ce, ce ∈ cache /\ ce_stage ce = 0 /\ (q = entry_path ce \/ dir_of (entry_path ce) q).

(** Checking out one entry leaves the places of the others free, or as they are. *)
Lemma other_entry cache w w' ce p : index_ok cache -> df_ok cache -> ce ∈ cache -> p ∈ cache -> ce_stage ce = 0 -> ce_stage p = 0 ->
  p <> ce -> direct node_at w' (entry_path ce) -> others_kept (fun q => q = entry_path ce \/ dir_of (entry_path ce) q) w w' ->
  direct node_at w (entry_path p) -> absolute (entry_path p) = absolute (base_dir state) ->
  direct node_at w' (entry_path p) /\ node_at w' (entry_path p) = node_at w (entry_path p).
Proof.
  intros Hok Hdf Hce Hp Sce Sp Hne Hd' Hk [Hpl Hdp] Ha. split; [|apply Hk; [done..|by apply (apart cache)]].
  split; [done|]. intros d t Hd. destruct (plain_dir _ d Hpl Hd) as [Hpd Had].
  destruct (decide (d = entry_path ce)) as [->|Hdne].
  { destruct (apart cache ce p Hok Hdf Hce Hp Sce Sp (not_eq_sym Hne)). by right. }
  destruct (decide (dir_of (entry_path ce) d)) as [Hx|Hx]; [by apply Hd'|].
  rewrite Hk; [by apply Hdp|done|congruence|]. by intros [?|?].
Qed.

Lemma checkout_all_loop_kept cache blob_for : index_ok cache -> df_ok cache ->
  refresh_cache state = false -> not_new state = false ->
  (forall ce, ce ∈ cache -> ce_stage ce = 0 -> (length (entry_path ce) <= MAXPATHLEN)%nat /\ blob_of ce (blob_for ce)) ->
  forall l behind w, cache = behind ++ l -> all_checked_out blob_for behind w ->
  (forall ce, ce ∈ cache -> ce_stage ce = 0 -> direct node_at w (entry_path ce) /\ absolute (entry_path ce) = absolute (base_dir state)) ->
  (forall ce, ce ∈ l -> ce_stage ce = 0 -> node_at w (entry_path ce) = None) ->
  checked_out (fun ret cache' w' => cache' = cache /\ others_kept (on_the_way cache) w w' /\
    (ret = 0 -> all_checked_out blob_for cache w')) (checkout_all_loop db state w behind l).
Proof.
  intros Hok Hdf Hr Hn Hb. induction l as [|ce l IH]; intros behind w E Hdone Hdir Hnone; cbn [checkout_all_loop].
  { right. rewrite app_nil_r in E. subst behind. exists 0, cache, w. split; [done|]. split; [by left|]. done. }
  assert (E' : cache = (behind ++ [ce]) ++ l) by (by rewrite <- app_assoc).
  destruct (Z.eqb_spec (ce_stage ce) 0) as [E0|E0]; cbn [negb].
  2:{ apply IH; [done| |done|]; intros p Hp Sp; [|apply Hnone; [by apply elem_of_cons; right|done]].
      apply elem_of_app in Hp as [Hp| ->%list_elem_of_singleton]; [by apply Hdone|done]. }
  assert (Hce : ce ∈ cache) by (rewrite E; apply elem_of_middle).
  destruct (Hb ce Hce E0) as [Hl Hblob].
  assert (Hfree : free_at w (entry_path ce)).
  { destruct (Hdir ce Hce E0). split; [done|]. split; [done|]. apply Hnone; [by apply elem_of_cons; left|done]. }
  destruct (checkout_entry_kept w ce (blob_for ce) Hr Hn Hl Hfree Hblob)
    as [->|(ret&ce'&w1&->&Hret&->&Hd1&Hk&H0)]; [by left|]. cbn [io_bind io_ret].
  assert (Hk' : others_kept (on_the_way cache) w w1).
  { eapply others_kept_weaken; [|exact Hk]. intros q Hq. by exists ce. }
  destruct (Z.ltb_spec ret 0).
  { right. exists (-1), cache, w1. rewrite E. split; [done|]. split; [by right|]. rewrite <- E. done. }
  assert (Hother : forall p, p ∈ cache -> ce_stage p = 0 -> p <> ce ->
    direct node_at w1 (entry_path p) /\ node_at w1 (entry_path p) = node_at w (entry_path p)).
  { intros p Hp Sp Hne. destruct (Hdir p Hp Sp). by apply (other_entry cache w w1 ce). }
  assert (Hdone1 : all_checked_out blob_for (behind ++ [ce]) w1).
  { intros p Hp Sp. destruct (decide (p = ce)) as [->|Hne]; [apply H0; lia|].
    apply elem_of_app in Hp as [Hp|Hp]; [|by apply list_elem_of_singleton in Hp].
    rewrite (proj2 (Hother p ltac:(rewrite E; apply elem_of_app; by left) Sp Hne)). by apply Hdone. }
  assert (Hdir1 : forall p, p ∈ cache -> ce_stage p = 0 ->
    direct node_at w1 (entry_path p) /\ absolute (entry_path p) = absolute (base_dir state)).
  { intros p Hp Sp. split; [|by apply Hdir]. destruct (decide (p = ce)) as [->|Hne]; [done|by apply Hother]. }
  assert (Hnone1 : forall p, p ∈ l -> ce_stage p = 0 -> node_at w1 (entry_path p) = None).
  { intros p Hp Sp. assert (Hin : p ∈ cache) by (rewrite E; apply elem_of_app; right; by apply elem_of_cons; right).
    rewrite (proj2 (Hother p Hin Sp (later_entry cache behind ce l p Hok E Hp))). apply Hnone; [by apply elem_of_cons; right|done]. }
  destruct (IH _ w1 E' Hdone1 Hdir1 Hnone1) as [->|(r&c&w2&->&Hr'&->&Hk2&H2)]; [by left|right].
  exists r, cache, w2. split; [done|]. split; [done|]. split; [done|]. split; [|done]. by eapply others_kept_trans.
Qed.

End Complete.

(** C10. a fresh checkout is complete: for an index in order without
    directory/file conflicts, in a file system where none of its merged entries
    exists and no directory of their paths is a symbolic link, [checkout_all]
    ends; it dies, returns -1, or returns 0 and then every merged entry's path,
    under the prefix, holds exactly its object, as a file or a symbolic link; in
    no case is any other place touched but the directories of these paths, or an
    index entry changed.  The paths have no empty component, "." or "..", and are
    at most [MAXPATHLEN] long; the prefix is empty or leads from the same root
    as what it makes of the names (always, for a name that is not absolute).
    Of paths over symbolic links nothing is said: the calls follow them
    ([through_a_link]). *)
Theorem checkout_all_complete {W} {FS : FileSystem W} {node_at} {FL : FileSystemLaws W node_at} {D} {DB : ObjectDB D}
    (db : D) (state : checkout) (w : W) (cache : list cache_entry) (blob_for : cache_entry -> bytes) :
  index_ok cache -> df_ok cache -> refresh_cache state = false -> not_new state = false ->
  (forall ce, ce ∈ cache -> ce_stage ce = 0 ->
    (length (entry_path state ce) <= MAXPATHLEN)%nat /\ free_at (node_at := node_at) state w (entry_path state ce) /\
    blob_of db ce (blob_for ce)) ->
  checked_out (fun ret cache' w' => cache' = cache /\ others_kept (node_at := node_at) state (on_the_way state cache) w w' /\
    (ret = 0 -> all_checked_out (node_at := node_at) state blob_for cache w')) (checkout_all db state w cache).
Proof.
  intros Hok Hdf Hr Hn Hall. apply checkout_all_loop_kept; try done.
  - intros ce Hce Sce. by destruct (Hall ce Hce Sce) as (?&_&?).
  - by intros ce ?%elem_of_nil.
  - intros ce Hce Sce. by destruct (Hall ce Hce Sce) as (_&(?&?&_)&_).
  - intros ce Hce Sce. by destruct (Hall ce Hce Sce) as (_&(_&_&?)&_).
Qed.

(** ** A file system in memory *)

Module MemFs.

(** The directory tree by the steps that lead to a place; the root, which the
    process works in, is not listed. *)
Abbreviation fs := (gmap (list bytes) node).

Definition at_key (w : fs) (k : list bytes) : option node := if bool_decide (k = []) then Some Dir else w !! k.

(** Path resolution from [k] on: links to directories are followed, a link at
    the end when [follow] is set. *)
Fixpoint walk (fuel : nat) (follow : bool) (w : fs) (k cs : list bytes) : option (list bytes) :=
  match fuel, cs with
  | S fuel, c :: cs =>
      let go k := if bool_decide (cs = []) then Some k else walk fuel follow w k cs in
      if bool_decide (c = [] \/ c = str ".") then go k
      else if bool_decide (c = str "..") then go (removelast k)
      else
        match w !! (k ++ [c]) with
        | Some (Link t) =>
            if follow || negb (bool_decide (cs = [])) then walk fuel follow w (if absolute t then [] else k) (steps t ++ cs)
            else Some (k ++ [c])
        | Some Dir => go (k ++ [c])
        | _ => if bool_decide (cs = []) then Some (k ++ [c]) else None
        end
  | _, _ => None
  end.

Definition namei (follow : bool) (w : fs) (p : bytes) : option (list bytes) := walk (1000 + length p) follow w [] (steps p).

Definition a_stat (n : node) : stat :=
  {| st_mode := match n with File _ => 0x81a4 | Link _ => S_IFLNK | Dir => S_IFDIR end;
     st_ctime := 1; st_mtime := 1; st_dev := 1; st_ino := 1; st_uid := 0; st_gid := 0;
     st_size := match n with File c | Link c => Z.of_nat (length c) | Dir => 0 end |}.

(** A call at the place a path leads to. *)
Definition at_place {A : Type} (follow : bool) (w : fs) (p : bytes) (none : A) (f : list bytes -> option node -> A) : A :=
  match namei follow w p with Some k => f k (at_key w k) | None => none end.

Definition stat_of (follow : bool) (w : fs) (p : bytes) : sys stat :=
  at_place follow w p (SysErr ENOENT) (fun _ n => match n with Some n => SysOk (a_stat n) | None => SysErr ENOENT end).

Definition make (w : fs) (p : bytes) (new : node) : sys unit * fs :=
  at_place false w p (SysErr ENOENT, w) (fun k n =>
    match n with Some _ => (SysErr EEXIST, w) | None => (SysOk tt, <[k := new]> w) end).

(** The names in a directory. *)
Definition children (w : fs) (k : list bytes) : list bytes :=
  omap (fun e => match last e.1 with Some c => if bool_decide (e.1 = k ++ [c]) then Some c else None | None => None end) (map_to_list w).

#[global] Instance mem_fs : FileSystem fs := {
  fs_lstat := stat_of false;
  fs_stat := stat_of true;
  fs_readdir w p := at_place true w p (SysErr ENOENT) (fun k n =>
    match n with Some Dir => SysOk (str "." :: str ".." :: children w k) | _ => SysErr EOTHER end);
  fs_mkdir w p _ := make w p Dir;
  fs_unlink w p := at_place false w p (SysErr ENOENT, w) (fun k n =>
    match n with Some (File _ | Link _) => (SysOk tt, delete k w) | Some Dir => (SysErr EISDIR, w) | None => (SysErr ENOENT, w) end);
  fs_rmdir w p := at_place false w p (SysErr ENOENT, w) (fun k n =>
    match n with Some Dir => if bool_decide (children w k = []) then (SysOk tt, delete k w) else (SysErr EOTHER, w) | _ => (SysErr EOTHER, w) end);
  fs_creat w p _ := at_place true w p (SysErr ENOENT, w) (fun k n =>
    match n with Some Dir => (SysErr EISDIR, w) | _ => (SysOk tt, <[k := File []]> w) end);
  fs_write w p buf := at_place true w p (-1, w) (fun k n =>
    match n with Some (File c) => (Z.of_nat (length buf), <[k := File (c ++ buf)]> w) | _ => (-1, w) end);
  fs_symlink w t p := make w p (Link t)
}.

(** What a plain path names. *)
Definition place (w : fs) (p : bytes) : option node := w !! steps p.

Lemma walk_plain fuel follow w k cs : Forall (fun c => c ∉ [[]; str "."; str ".."]) cs -> cs <> [] ->
  (forall r r', cs = r ++ r' -> r <> [] -> (r' = [] -> follow = true) -> forall t, w !! (k ++ r) <> Some (Link t)) ->
  walk fuel follow w k cs = Some (k ++ cs) \/ walk fuel follow w k cs = None.
Proof.
  revert k cs; induction fuel as [|fuel IH]; intros k cs HF Hne Hl; [by right|]. destruct cs as [|c cs]; [done|]. cbn [walk]. cbv zeta.
  apply Forall_cons in HF as [Hc HF]. rewrite !not_elem_of_cons in Hc. destruct Hc as (H1&H2&H3&_).
  rewrite bool_decide_false by (by intros [?|?]). rewrite bool_decide_false by done.
  assert (Hgo : (if bool_decide (cs = []) then Some (k ++ [c]) else walk fuel follow w (k ++ [c]) cs) = Some (k ++ c :: cs) \/
    (if bool_decide (cs = []) then Some (k ++ [c]) else walk fuel follow w (k ++ [c]) cs) = None).
  { case_bool_decide as E; [subst cs; by left|]. destruct (IH (k ++ [c]) cs HF E) as [->| ->].
    - intros r r' -> Hr Hr'. rewrite <- app_assoc. by apply (Hl (c :: r) r').
    - left. by rewrite <- app_assoc.
    - by right. }
  destruct (w !! (k ++ [c])) as [[b|t|]|] eqn:Ew; [case_bool_decide; [subst cs; by left|by right]| |exact Hgo|case_bool_decide; [subst cs; by left|by right]].
  case_bool_decide as E; [subst cs|]; rewrite ?orb_true_r, ?orb_false_r; cbn [negb].
  - destruct follow; [|by left]. destruct (Hl [c] [] eq_refl ltac:(done) ltac:(done) t Ew).
  - destruct (Hl [c] cs eq_refl ltac:(done) ltac:(done) t Ew).
Qed.

Lemma steps_plain p : plain p -> steps p <> [].
Proof. unfold steps. intros _. apply components_nil. Qed.

Lemma at_place_direct {A : Type} follow w p (none : A) (f : list bytes -> option node -> A) : direct place w p -> (follow = true -> forall t, place w p <> Some (Link t)) ->
  at_place follow w p none f = none \/ at_place follow w p none f = f (steps p) (place w p).
Proof.
  intros [Hp Hd] Hl. unfold at_place, namei.
  destruct (walk_plain (1000 + length p) follow w [] (steps p)) as [->| ->]; [apply Hp|by apply steps_plain| | |by left].
  - intros r r' E Hr Hr' t. destruct (decide (r' = [])) as [->|Hne].
    + rewrite app_nil_r in E. subst r. apply Hl. by apply Hr'.
    + destruct (steps_dir p r r' Hp E Hr Hne) as (d&Hdir&<-). by apply Hd.
  - right. unfold at_key. by rewrite bool_decide_false by (by apply steps_plain).
Qed.

Lemma place_other (f : option node -> option node) w p q : elsewhere p q -> place (partial_alter f (steps p) w) q = place w q.
Proof. intros (_&Ha&Hne). unfold place. apply lookup_partial_alter_ne. intros E. by apply Hne, steps_inj. Qed.

Lemma make_direct w p n : direct place w p ->
  place (make w p n).2 p = (if sys_ok (make w p n).1 then Some n else place w p) /\
  forall q, elsewhere p q -> place (make w p n).2 q = place w q.
Proof.
  intros Hd. unfold make. destruct (at_place_direct false w p (SysErr ENOENT, w)
    (fun k o => match o with Some _ => (SysErr EEXIST, w) | None => (SysOk tt, <[k := n]> w) end) Hd ltac:(done)) as [->| ->]; [done|].
  destruct (place w p) eqn:E; cbn [fst snd sys_ok]; [done|]. split; [unfold place; by rewrite lookup_insert_eq|].
  intros q. apply place_other.
Qed.

(** A call at a direct path: it fails, or is done at its own place. *)
Ltac resolve :=
  match goal with
  | Hd : direct place ?w ?p |- context [at_place ?b ?w ?p ?n ?f] =>
      destruct (at_place_direct b w p n f Hd) as [->| ->]; [try done; congruence|try done|]
  end.

Lemma created_direct w p : direct place w p -> direct place (<[steps p := File []]> w) p.
Proof.
  intros [Hp Hd]. split; [done|]. intros d t Hdir. destruct (plain_dir p d Hp Hdir) as [Hpd Had].
  unfold place. rewrite lookup_insert_ne; [by apply Hd|]. intros E. destruct (dir_of_neq p d Hdir). by apply steps_inj.
Qed.

Lemma write_created w p buf q : direct place w p ->
  let r := at_place true (<[steps p := File []]> w) p (-1, <[steps p := File []]> w) (fun k n =>
    match n with
    | Some (File c) => (Z.of_nat (length buf), <[k := File (c ++ buf)]> (<[steps p := File []]> w))
    | _ => (-1, <[steps p := File []]> w)
    end) in
  (r.1 = Z.of_nat (length buf) -> place r.2 p = Some (File buf)) /\ (elsewhere p q -> place r.2 q = place w q).
Proof.
  intros Hd. pose proof (created_direct w p Hd) as Hd'. set (w' := <[_ := _]> w) in *. cbv zeta.
  assert (Hp : place w' p = Some (File [])) by (unfold place; subst w'; by rewrite lookup_insert_eq).
  assert (Hq : elsewhere p q -> place w' q = place w q) by apply place_other.
  resolve; rewrite ?Hp; cbn [fst snd app].
  - split; [lia|done].
  - split; [intros _; unfold place; by rewrite lookup_insert_eq|]. intros He. rewrite <- Hq by done. by apply place_other.
Qed.

#[global] Instance mem_fs_laws : FileSystemLaws fs place.
Proof.
  split; cbn [fs_lstat fs_mkdir fs_unlink fs_creat fs_write fs_symlink mem_fs].
  - intros w p st Hd. unfold stat_of. resolve. destruct (place w p); [by eexists|done].
  - intros w p _ Hd. apply make_direct, Hd.
  - intros w p _ q Hd. by apply make_direct.
  - intros w p Hd. resolve. destruct (place w p) as [[]|] eqn:E; cbn [fst snd sys_ok]; try done; unfold place; by rewrite lookup_delete_eq.
  - intros w p q Hd Hq. resolve. destruct (place w p) as [[]|] eqn:E; cbn [fst snd]; try done; by apply place_other.
  - intros w p _ Hd Hn. resolve. rewrite Hn. cbn [fst snd sys_ok]. unfold place. by rewrite lookup_insert_eq.
  - intros w p _ Hd Hn. resolve. by rewrite Hn.
  - intros w p _ q Hd Hn Hq. resolve. rewrite Hn. by apply place_other.
  - intros w p _ buf Hd Hn. resolve. rewrite Hn. intros _. by apply (write_created w p buf p).
  - intros w p _ buf q Hd Hn. resolve. rewrite Hn. intros _ Hq. by apply (write_created w p buf q).
  - intros w t p Hd. apply make_direct, Hd.
  - intros w t p q Hd. by apply make_direct.
Qed.

(** A database of two blobs; [long] is 1024 bytes. *)
Definition hello : bytes := str "hello".
Definition db_of (blobs : gmap bytes bytes) : ObjectDB unit := {|
  db_has _ s := Ret (bool_decide (is_Some (blobs !! s)));
  db_read _ s := io_ret (match blobs !! s with Some b => Some (str "blob", b) | None => None end);
  db_nul _ _ := true; db_write d _ _ := Ret (-1, [], d) |}.

Definition name (n : Z) : bytes := replicate 20 n.
Definition blobs : gmap bytes bytes := <[name 1 := hello]> (<[name 2 := str "target"]> (<[name 3 := replicate 1024 65]> ∅)).

Definition entry (path : string) (mode n : Z) : cache_entry :=
  {| ce_ctime := {| sec := 0; nsec := 0 |}; ce_mtime := {| sec := 0; nsec := 0 |}; ce_dev := 0; ce_ino := 0;
     ce_mode := mode; ce_uid := 0; ce_gid := 0; ce_st_size := 0; ce_sha1 := name n;
     ce_flags := create_ce_flags (Z.of_nat (length (str path))) 0; ce_name := str path |}.

Definition cache : list cache_entry := [entry "d/a" 0x81a4 1; entry "d/e/f" 0x81ed 1; entry "l" 0xa000 2].

Definition opts (prefix : string) (refresh : bool) : checkout :=
  {| base_dir := str prefix; force := true; quiet := true; not_new := false; refresh_cache := refresh |}.

Definition blob_for (ce : cache_entry) : bytes := default [] (blobs !! ce_sha1 ce).

Lemma free_in_empty state path :
  (0 ∉ path /\ Forall (fun c => c ∉ [[]; str "."; str ".."]) (steps path)) /\ absolute path = absolute (base_dir state) ->
  free_at (node_at := place) state (∅ : fs) path.
Proof. intros [Hp Ha]. split; [|done]. split; [exact Hp|done]. Qed.

Lemma fresh_returns : match checkout_all (DB := db_of blobs) tt (opts "x/" false) (∅ : fs) cache with
  | Some (Ret (ret, _, _)) => ret =? 0 | _ => false end = true.
Proof. vm_compute. reflexivity. Qed.

End MemFs.

Lemma checkout_all_complete_witness :
  exists w', checkout_all (DB := MemFs.db_of MemFs.blobs) tt (MemFs.opts "x/" false) (∅ : MemFs.fs) MemFs.cache = io_ret (0, MemFs.cache, w') /\
    MemFs.place w' (str "x/d/e/f") = Some (File MemFs.hello) /\ MemFs.place w' (str "x/l") = Some (Link (str "target")).
Proof.
  destruct (checkout_all_complete (DB := MemFs.db_of MemFs.blobs) tt (MemFs.opts "x/" false) (∅ : MemFs.fs) MemFs.cache MemFs.blob_for)
    as [H|(ret&c&w&E&_&->&_&H)].
  - apply (bool_decide_unpack _). vm_compute. exact I.
  - assert (Hd : Forall (fun p => Forall (fun q => ~ below p q) MemFs.cache) MemFs.cache) by (apply (bool_decide_unpack _); vm_compute; exact I).
    intros p q Hp Hq. rewrite Forall_forall in Hd. specialize (Hd p Hp). rewrite Forall_forall in Hd. by apply Hd.
  - done.
  - done.
  - assert (Ha : Forall (fun ce => (length (entry_path (MemFs.opts "x/" false) ce) <= MAXPATHLEN)%nat /\
        free_at (node_at := MemFs.place) (MemFs.opts "x/" false) (∅ : MemFs.fs) (entry_path (MemFs.opts "x/" false) ce) /\
        blob_of (DB := MemFs.db_of MemFs.blobs) tt ce (MemFs.blob_for ce)) MemFs.cache).
    { repeat (constructor; [split; [apply Nat.leb_le; vm_compute; reflexivity|split; [apply MemFs.free_in_empty; apply (bool_decide_unpack _); vm_compute; exact I|
        split; [vm_compute; reflexivity|intros _; apply Nat.ltb_lt; vm_compute; reflexivity]]]|]). constructor. }
    intros ce Hce _. rewrite Forall_forall in Ha. by apply Ha.
  - exfalso. pose proof MemFs.fresh_returns as R. rewrite H in R. discriminate R.
  - exists w. pose proof MemFs.fresh_returns as R. rewrite E in R. apply Z.eqb_eq in R. subst ret. split; [exact E|].
    specialize (H eq_refl). split; [apply (H (MemFs.entry "d/e/f" 0x81ed 1))|apply (H (MemFs.entry "l" 0xa000 2))]; try reflexivity;
      apply (bool_decide_unpack _); vm_compute; exact I.
Defined.

(** A symbolic link whose object has 1024 bytes: [write_entry] writes past the
    end of [target]. *)
Example symlink_overflow :
  checkout_entry (DB := MemFs.db_of MemFs.blobs) tt (MemFs.opts "" false) (∅ : MemFs.fs) (MemFs.entry "l" 0xa000 3) = Some Ub.
Proof. vm_compute. reflexivity. Qed.

(** A directory on the way is a symbolic link: without "-f" the file is made
    where the link leads. *)
Example through_a_link :
  let w : MemFs.fs := <[[str "e"] := Dir]> (<[[str "d"] := Link (str "e")]> ∅) in
  let state := {| base_dir := []; force := false; quiet := false; not_new := false; refresh_cache := false |} in
  match checkout_entry (DB := MemFs.db_of MemFs.blobs) tt state w (MemFs.entry "d/a" 0x81a4 1) with
  | Some (Ret (ret, _, w')) => (ret, MemFs.place w (str "e/a"), MemFs.place w' (str "e/a")) = (0, None, Some (File MemFs.hello))
  | _ => False
  end.
Proof. vm_compute. reflexivity. Qed.

(** "git-checkout-cache -u --prefix=x/ -a": the guard that gives up updating the
    index under a prefix is not on the path of "-a", and the entry is refreshed
    from the file of its plain name; when there is none, from a [struct stat]
    that was never set. *)
Definition prefix_file : bytes := match write_cache (fun _ => true) [MemFs.entry "a" 0x81a4 1] with Ret (Some f) => f | _ => [] end.

Example refresh_ignores_prefix :
  checkout_main (DB := MemFs.db_of MemFs.blobs) tt true true (fun _ => true) (∅ : MemFs.fs) (Some prefix_file)
    [str "-u"; str "--prefix=x/"; str "-a"] = Some Ub /\
  exists w, checkout_main (DB := MemFs.db_of MemFs.blobs) tt true true (fun _ => true) (∅ : MemFs.fs) (Some prefix_file)
    [str "-u"; str "--prefix=x/"; str "a"] = io_ret (None, w).
Proof. split; [vm_compute; reflexivity|]. eexists. vm_compute. reflexivity. Qed.
