(* ===== verification/ReadTree.v ===== *)
(** * Merging trees in the index (read-tree.c)

    [merge_cache] walks the index path by path, in place: the entries of a
    path, one per stage, go to a merge function that writes what becomes of
    them over the part already read.  The array [active_cache] is a list of
    entries, [dst] and [src] are indices into it.  Each pointer occurs once in
    the array and an entry that has been read is looked at again only through
    what was written at [dst], so entries are values. *)

From stdpp Require Import base list numbers strings sorting.
From Stdlib Require Import ZArith Lia.
From S2P Require Import Prelude.
From S2P Require Import CsumFile.
From S2P Require Import CacheEntry.
From S2P Require Import Index.
From S2P Require Import IndexFile.
From S2P Require Import ObjectDB.
From S2P Require Import Entry.

(** ** Code: comparing entries *)

Definition path_matches (a b : cache_entry) : bool :=
  let len := ce_namelen a in
  (ce_namelen b =? len) && (memcmp (Z.to_nat len) (ce_name a) (ce_name b) =? 0).

Definition same (a b : cache_entry) : bool :=
  (ce_mode a =? ce_mode b) && (memcmp 20 (ce_sha1 a) (ce_sha1 b) =? 0).

Definition merge_entries (a b c : option cache_entry) : option cache_entry :=
  match a, b, c with
  | Some a, Some b, Some c =>
      if same b c then Some c else if same a b then Some c else if same a c then Some b else None
  | _, _, _ => None
  end.

Definition set_ce_flags (ce : cache_entry) (flags : Z) : cache_entry :=
  {| ce_ctime := ce_ctime ce; ce_mtime := ce_mtime ce; ce_dev := ce_dev ce; ce_ino := ce_ino ce; ce_mode := ce_mode ce;
     ce_uid := ce_uid ce; ce_gid := ce_gid ce; ce_st_size := ce_st_size ce; ce_sha1 := ce_sha1 ce;
     ce_flags := flags; ce_name := ce_name ce |}.

Definition set_ce_mode (ce : cache_entry) (mode : Z) : cache_entry :=
  {| ce_ctime := ce_ctime ce; ce_mtime := ce_mtime ce; ce_dev := ce_dev ce; ce_ino := ce_ino ce; ce_mode := mode;
     ce_uid := ce_uid ce; ce_gid := ce_gid ce; ce_st_size := ce_st_size ce; ce_sha1 := ce_sha1 ce;
     ce_flags := ce_flags ce; ce_name := ce_name ce |}.

(** [*merge = *old]: the name is not part of the structure. *)
Definition copy_entry (merge old : cache_entry) : cache_entry :=
  {| ce_ctime := ce_ctime old; ce_mtime := ce_mtime old; ce_dev := ce_dev old; ce_ino := ce_ino old; ce_mode := ce_mode old;
     ce_uid := ce_uid old; ce_gid := ce_gid old; ce_st_size := ce_st_size old; ce_sha1 := ce_sha1 old;
     ce_flags := ce_flags old; ce_name := ce_name merge |}.

(** [struct cache_entry *stages[4]]. *)
Record stages := { s0 : option cache_entry; s1 : option cache_entry; s2 : option cache_entry; s3 : option cache_entry }.

Definition no_stages : stages := {| s0 := None; s1 := None; s2 := None; s3 := None |}.

(** [ce_stage] has two bits. *)
Definition set_stage (st : stages) (stage : Z) (ce : cache_entry) : stages :=
  if stage =? 0 then {| s0 := Some ce; s1 := s1 st; s2 := s2 st; s3 := s3 st |}
  else if stage =? 1 then {| s0 := s0 st; s1 := Some ce; s2 := s2 st; s3 := s3 st |}
  else if stage =? 2 then {| s0 := s0 st; s1 := s1 st; s2 := Some ce; s3 := s3 st |}
  else {| s0 := s0 st; s1 := s1 st; s2 := s2 st; s3 := Some ce |}.

(** [*dst = ce]. *)
Definition store (cache : list cache_entry) (dst : nat) (ce : cache_entry) : outcome (list cache_entry) :=
  if (dst <? length cache)%nat then Ret (<[dst := ce]> cache) else Ub.

(** A [merge_fn_t]: the array, the stages of a path, [dst], [next] and [tail];
    the result is the number of entries written, or -1, and the array. *)
Abbreviation merge_fn := (list cache_entry -> stages -> nat -> nat -> nat -> outcome (Z * list cache_entry)).

Section Code.
Context {W} {FS : FileSystem W} (w : W).

(** ** Code: one path *)

(** [errno] is that of [lstat], or 0 when the file has changed. *)
Definition verify_uptodate (ce : cache_entry) : outcome unit :=
  match fs_lstat w (ce_name ce) with
  | SysOk st => changed ← ce_match_stat ce st; if changed =? 0 then Ret tt else Die
  | SysErr e => if bool_decide (e = ENOENT) then Ret tt else Die
  end.

(** What [merged_entry_internal] makes of [merge]. *)
Definition merged_ce (merge : cache_entry) (old : option cache_entry) (allow_dirty : bool) : outcome cache_entry :=
  let merge := set_ce_flags merge (Z.lor (ce_flags merge) CE_UPDATE) in
  merge ←
    match old with
    | Some old =>
        if same old merge then Ret (copy_entry merge old)
        else if negb allow_dirty then _ ← verify_uptodate old; Ret merge
        else Ret merge
    | None => Ret merge
    end;
  Ret (set_ce_flags merge (Z.land (ce_flags merge) (Z.lnot CE_STAGEMASK))).

Definition merged_entry_internal (cache : list cache_entry) (merge : cache_entry) (old : option cache_entry) (dst : nat)
    (allow_dirty : bool) : outcome (Z * list cache_entry) :=
  merge ← merged_ce merge old allow_dirty;
  cache ← store cache dst merge;
  Ret (1, cache).

Definition merged_entry_allow_dirty cache merge old dst := merged_entry_internal cache merge old dst true.
Definition merged_entry cache merge old dst := merged_entry_internal cache merge old dst false.

Definition deleted_entry (cache : list cache_entry) (ce : cache_entry) (old : option cache_entry) (dst : nat)
    : outcome (Z * list cache_entry) :=
  _ ← match old with Some old => verify_uptodate old | None => Ret tt end;
  cache ← store cache dst (set_ce_mode ce 0);
  Ret (1, cache).

(** The comparison of the names of [ce] and of the path. *)
Definition df_clash (path : bytes) (namelen : Z) (ce : cache_entry) : bool :=
  let entlen := ce_namelen ce in
  if namelen =? entlen then false
  else
    let '(len, one, two) := if namelen <? entlen then (namelen, path, ce_name ce) else (entlen, ce_name ce, path) in
    if negb (memcmp (Z.to_nat len) one two =? 0) then false else name_char two (Z.to_nat len) =? 47.

(** The [for] loop; [n] entries are left. *)
Fixpoint df_conflict_loop (n i : nat) (cache : list cache_entry) (path : bytes) (namelen stage : Z) (dst next : nat) : outcome bool :=
  match n with
  | O => Ret false
  | S n =>
      if (dst <=? i)%nat && (i <? next)%nat then df_conflict_loop n (S i) cache path namelen stage dst next
      else
        match cache !! i with
        | None => Ub
        | Some ce =>
            if negb (ce_stage ce =? stage) then df_conflict_loop n (S i) cache path namelen stage dst next
            else if df_clash path namelen ce then Ret true
            else df_conflict_loop n (S i) cache path namelen stage dst next
        end
  end.

Definition causes_df_conflict (cache : list cache_entry) (ce : cache_entry) (stage : Z) (dst next tail : nat) : outcome bool :=
  df_conflict_loop tail 0 cache (ce_name ce) (ce_namelen ce) stage dst next.

(** [!old || same(ce, old)]. *)
Definition none_or_same (ce : cache_entry) (old : option cache_entry) : bool :=
  match old with None => true | Some old => same ce old end.

(** [*dst++ = a] for those of the entries that are there. *)
Fixpoint store_all (cache : list cache_entry) (dst : nat) (l : list (option cache_entry)) (count : Z) : outcome (Z * list cache_entry) :=
  match l with
  | [] => Ret (count, cache)
  | None :: l => store_all cache dst l count
  | Some ce :: l => cache ← store cache dst ce; store_all cache (S dst) l (count + 1)
  end.

(** [threeway_merge] from the check of [old] against [b] on. *)
Definition threeway_regular (cache : list cache_entry) (st : stages) (dst : nat) : outcome (Z * list cache_entry) :=
  let old := s0 st in
  let merge_or_keep :=
    match merge_entries (s1 st) (s2 st) (s3 st) with
    | Some merge => merged_entry cache merge old dst
    | None =>
        _ ← match old with Some old => verify_uptodate old | None => Ret tt end;
        store_all cache dst [s1 st; s2 st; s3 st] 0
    end in
  match old, s2 st with
  | Some _, None => Ret (-1, cache)
  | Some old, Some b => if same old b then merge_or_keep else Ret (-1, cache)
  | None, _ => merge_or_keep
  end.

(** #14ALT *)
Definition threeway_14 (cache : list cache_entry) (st : stages) (dst : nat) : outcome (Z * list cache_entry) :=
  match s1 st, s2 st, s3 st, s0 st with
  | Some a, Some b, Some c, Some old =>
      if same a b && negb (same a c) && same old c then merged_entry_allow_dirty cache c (Some old) dst
      else threeway_regular cache st dst
  | _, _, _, _ => threeway_regular cache st dst
  end.

(** #2ALT or #3ALT: only one of the branches has the path. *)
Definition threeway_one (cache : list cache_entry) (st : stages) (ce : cache_entry) (stage : Z) (dst next tail : nat)
    : outcome (Z * list cache_entry) :=
  conflict ← causes_df_conflict cache ce stage dst next tail;
  if negb conflict && none_or_same ce (s0 st) then merged_entry_allow_dirty cache ce (s0 st) dst
  else threeway_14 cache st dst.

Definition threeway_merge : merge_fn := fun cache st dst next tail =>
  match s1 st, s2 st, s3 st with
  | None, Some b, Some c =>
      if same b c then (* #5ALT *)
        match s0 st with
        | Some old => if same b old then merged_entry_allow_dirty cache b (Some old) dst else Ret (-1, cache)
        | None => merged_entry_allow_dirty cache b None dst
        end
      else threeway_14 cache st dst
  | None, None, Some c => threeway_one cache st c 2 dst next tail
  | None, Some b, None => threeway_one cache st b 3 dst next tail
  | _, _, _ => threeway_14 cache st dst
  end.

Definition twoway_merge : merge_fn := fun cache st dst next tail =>
  match s3 st with
  | Some _ => Ret (-1, cache)
  | None =>
      match s0 st with
      | Some current =>
          let oldtree := s1 st in
          let newtree := s2 st in
          if match oldtree, newtree with
             | None, None => true
             | None, Some n => same current n
             | Some o, Some n => same o n || same current n
             | Some _, None => false
             end
          then cache ← store cache dst current; Ret (1, cache)
          else
            match oldtree, newtree with
            | Some o, None => if same current o then deleted_entry cache o (Some current) dst else Ret (-1, cache)
            | Some o, Some n =>
                if same current o && negb (same current n) then merged_entry cache n (Some current) dst else Ret (-1, cache)
            | None, _ => Ret (-1, cache)
            end
      | None =>
          match s2 st, s1 st with
          | Some newtree, _ => merged_entry cache newtree None dst
          | None, Some oldtree => deleted_entry cache oldtree None dst
          | None, None => Ub
          end
      end
  end.

Definition oneway_merge : merge_fn := fun cache st dst next tail =>
  match s2 st, s3 st, s1 st, s0 st with
  | Some _, _, _, _ | _, Some _, _, _ => Ret (-1, cache)
  | None, None, None, _ => Ret (0, cache)
  | None, None, Some a, Some old =>
      if same old a then cache ← store cache dst old; Ret (1, cache) else merged_entry cache a None dst
  | None, None, Some a, None => merged_entry cache a None dst
  end.

(** ** Code: the index *)

(** The [for (;;)] that gathers a path, from [ce] at [src].  [*++src] is read
    before the count is looked at. *)
Fixpoint gather (nr : nat) (cache : list cache_entry) (alloc : Z) (src : nat) (name ce : cache_entry) (st : stages)
    : outcome (nat * nat * stages) :=
  match nr with
  | O => Ub
  | S nr =>
      let st := set_stage st (ce_stage ce) ce in
      let src := S src in
      if alloc <=? Z.of_nat src then Ub
      else if (nr =? 0)%nat then Ret (src, nr, st)
      else
        match cache !! src with
        | None => Ub
        | Some ce => if path_matches ce name then gather nr cache alloc src name ce st else Ret (src, nr, st)
        end
  end.

(** [while (nr)]: each round reads at least one entry.  The result is the
    array and [dst], which is [active_nr] then. *)
Fixpoint merge_loop (fuel : nat) (fn : merge_fn) (cache : list cache_entry) (alloc : Z) (src nr dst tail : nat)
    : outcome (list cache_entry * nat) :=
  match nr with
  | O => Ret (cache, dst)
  | S _ =>
      match fuel with
      | O => Ub
      | S fuel =>
          match cache !! src with
          | None => Ub
          | Some ce =>
              '(src, nr, st) ← gather nr cache alloc src ce ce no_stages;
              '(entries, cache) ← fn cache st dst src tail;
              if entries <? 0 then Die
              else merge_loop fuel fn cache alloc src nr (dst + Z.to_nat entries) tail
          end
      end
  end.

(** The static [state] of [check_updates]. *)
Definition update_state : checkout := {| base_dir := []; force := true; quiet := true; not_new := false; refresh_cache := true |}.

Context {D} {DB : ObjectDB D} (db : D) (update : bool).

(** [while (nr--)], from the entries [src] on. *)
Fixpoint check_updates (w : W) (src : list cache_entry) : io (list cache_entry * W) :=
  match src with
  | [] => io_ret ([], w)
  | ce :: src =>
      r <-
        (if ce_mode ce =? 0 then io_ret (ce, if update then (fs_unlink w (ce_name ce)).2 else w)
         else if negb (Z.land (ce_flags ce) CE_UPDATE =? 0) then
           let ce := set_ce_flags ce (Z.land (ce_flags ce) (Z.lnot CE_UPDATE)) in
           if update then r <- checkout_entry db update_state w ce ;; let '(_, ce, w) := r in io_ret (ce, w)
           else io_ret (ce, w)
         else io_ret (ce, w)) ;;
      let '(ce, w) := r in
      r <- check_updates w src ;;
      let '(rest, w) := r in io_ret (ce :: rest, w)
  end.

(** The entries behind [active_nr] are no part of the index. *)
Definition merge_cache (i : index) (fn : merge_fn) : io (index * W) :=
  let nr := length (active_cache i) in
  r <- Some (merge_loop nr fn (active_cache i) (active_alloc i) 0 nr 0 nr) ;;
  let '(cache, active_nr) := r in
  r <- check_updates w (take active_nr cache) ;;
  let '(cache, w) := r in
  io_ret ({| active_cache := cache; active_alloc := active_alloc i; active_cache_changed := active_cache_changed i |}, w).

End Code.

(** The [for] loop of [read_cache_unmerged]; the result is the array, [dst] and
    [deleted]. *)
Fixpoint unmerged_loop (n i dst : nat) (cache : list cache_entry) (deleted : Z) : outcome (list cache_entry * Z) :=
  match n with
  | O => Ret (cache, deleted)
  | S n =>
      match cache !! i with
      | None => Ub
      | Some ce =>
          if negb (ce_stage ce =? 0) then unmerged_loop n (S i) dst cache (deleted + 1)
          else
            cache ← (if negb (deleted =? 0) then store cache dst ce else Ret cache);
            unmerged_loop n (S i) (S dst) cache deleted
      end
  end.

(** The value of [read_cache] is dropped; [i] is the index before. *)
Definition read_cache_unmerged (i : option index) (file : option bytes) : outcome (Z * option index) :=
  '(_, i) ← read_cache i file;
  match i with
  | None => Ret (0, None)
  | Some i =>
      '(cache, deleted) ← unmerged_loop (length (active_cache i)) 0 0 (active_cache i) 0;
      let nr := Z.to_nat (active_nr i - deleted) in
      Ret (deleted, Some {| active_cache := take nr cache; active_alloc := active_alloc i;
                            active_cache_changed := active_cache_changed i |})
  end.

(** The first loop of [setup_emu23]: stage 2 becomes stage 3. *)
Definition hoist (ce : cache_entry) : cache_entry :=
  if ce_stage ce =? 2 then set_ce_flags ce (create_ce_flags (ce_namelen ce) 3) else ce.

(** The [while] loop over the entries of a name. *)
Fixpoint skip_name (n i : nat) (cache : list cache_entry) (ce : cache_entry) : nat :=
  match n with
  | O => i
  | S n =>
      match cache !! i with
      | None => i
      | Some e =>
          if (ce_namelen e =? ce_namelen ce) && (memcmp (Z.to_nat (ce_namelen ce)) (ce_name e) (ce_name ce) =? 0)
          then skip_name n (S i) cache ce else i
      end
  end.

(** The second loop, from position [i]. *)
Fixpoint emu23_loop (fuel : nat) (i : nat) (ix : index) : io index :=
  match fuel with
  | O => None
  | S fuel =>
      match active_cache ix !! i with
      | None => io_ret ix
      | Some ce =>
          if 1 <? ce_stage ce then emu23_loop fuel (S i) ix
          else
            let stage2 := set_ce_flags ce (create_ce_flags (ce_namelen ce) 2) in
            r <- Some (add_cache_entry ix stage2 ADD_CACHE_OK_TO_ADD) ;;
            let '(ret, ix) := r in
            if ret <? 0 then Some Die
            else emu23_loop fuel (skip_name (length (active_cache ix)) i (active_cache ix) ce) ix
      end
  end.

Definition setup_emu23 (ix : index) : io index :=
  emu23_loop (S (2 * length (active_cache ix))) 0
    {| active_cache := map hoist (active_cache ix); active_alloc := active_alloc ix; active_cache_changed := active_cache_changed ix |}.

(** ** The merge without the array

    What a merge function does to the list [R] of the entries written so far,
    the stages of a path and the entries behind it: [Some ws] when it writes
    [ws], [None] when it returns -1. *)

Definition verdict : Type := outcome (option (list cache_entry)).
Abbreviation path_fn := (list cache_entry -> stages -> list cache_entry -> verdict).

(** The entries [span_path] takes off are those of a path at the front. *)
Fixpoint span_path (name : bytes) (l : list cache_entry) : list cache_entry * list cache_entry :=
  match l with
  | [] => ([], [])
  | ce :: k => if bool_decide (ce_name ce = name) then let '(g, rest) := span_path name k in (ce :: g, rest) else ([], l)
  end.

Definition stages_from (st : stages) (g : list cache_entry) : stages := foldl (fun st ce => set_stage st (ce_stage ce) ce) st g.
Definition stages_of (g : list cache_entry) : stages := stages_from no_stages g.

(** The stages of a path anywhere in a list. *)
Definition path_stages (l : list cache_entry) (p : bytes) : stages := stages_of (filter (fun ce => ce_name ce = p) l).

Fixpoint merge_paths (fuel : nat) (f : path_fn) (R l : list cache_entry) : outcome (list cache_entry) :=
  match l with
  | [] => Ret R
  | ce :: _ =>
      match fuel with
      | O => Ub
      | S fuel =>
          let '(g, rest) := span_path (ce_name ce) l in
          r ← f R (stages_of g) rest;
          match r with None => Die | Some ws => merge_paths fuel f (R ++ ws) rest end
      end
  end.

Definition stage_list (st : stages) : list cache_entry := omap id [s0 st; s1 st; s2 st; s3 st].

(** What a verdict does to the array [R ++ gap ++ rest]. *)
Definition effect (r : verdict) (R gap rest : list cache_entry) : outcome (Z * list cache_entry) :=
  match r with
  | Ret (Some ws) => Ret (Z.of_nat (length ws), R ++ ws ++ drop (length ws) gap ++ rest)
  | Ret None => Ret (-1, R ++ gap ++ rest) | Die => Die | Ub => Ub
  end.

(** A verdict that writes no more than there were stages. *)
Definition fits (n : nat) (r : verdict) : Prop := forall ws, r = Ret (Some ws) -> (length ws <= n)%nat.

(** A merge function of the code does in the array what [f] says. *)
Definition implements (fn : merge_fn) (f : path_fn) : Prop := forall R gap rest st,
  (length (stage_list st) <= length gap)%nat -> stage_list st <> [] ->
  fn (R ++ gap ++ rest) st (length R) (length R + length gap)%nat (length (R ++ gap ++ rest)) = effect (f R st rest) R gap rest /\
  fits (length (stage_list st)) (f R st rest).

Lemma span_path_app name l : l = (span_path name l).1 ++ (span_path name l).2.
Proof.
  induction l as [|ce l IH]; [done|]. cbn [span_path]. case_bool_decide; [|done].
  destruct (span_path name l) as [g rest]. cbn in *. by rewrite IH.
Qed.

Lemma span_path_names name l : Forall (fun ce => ce_name ce = name) (span_path name l).1.
Proof.
  induction l as [|ce l IH]; [constructor|]. cbn [span_path]. case_bool_decide; [|constructor].
  destruct (span_path name l) as [g rest]. by constructor.
Qed.

Lemma span_path_head name l ce k : (span_path name l).2 = ce :: k -> ce_name ce <> name.
Proof.
  induction l as [|x l IH]; [done|]. cbn [span_path]. case_bool_decide as E; [|by intros [= <- <-]].
  destruct (span_path name l) as [g rest]. done.
Qed.

(** ** The array *)

Lemma path_matches_wf a b : ce_wf a -> ce_wf b -> path_matches a b = bool_decide (ce_name a = ce_name b).
Proof.
  intros Ha Hb. pose proof (ce_same_name_iff a b Ha Hb) as Hi. change (path_matches a b) with (ce_same_name a b).
  case_bool_decide as E; destruct (ce_same_name a b); try done; [by apply Hi in E|]. by destruct E; apply Hi.
Qed.

Lemma gather_app k : forall g cache alloc pre name st ce rest,
  cache = pre ++ ce :: g ++ rest -> Z.of_nat (length cache) < alloc ->
  ce_wf name -> Forall ce_wf (g ++ rest) -> Forall (fun e => ce_name e = ce_name name) g ->
  (forall e k, rest = e :: k -> ce_name e <> ce_name name) -> k = length g ->
  gather (S (length g + length rest)) cache alloc (length pre) name ce st =
    Ret ((length pre + S (length g))%nat, length rest, stages_from st (ce :: g)).
Proof.
  induction k as [|k IH]; intros g cache alloc pre name st ce rest E Ha Hn Hwf Hg Hr Hk; cbn [gather].
  - destruct g; [|done]. cbn [length app] in *. pose proof (f_equal length E) as El. rewrite length_app in El. cbn in El.
    destruct (Z.leb_spec alloc (Z.of_nat (S (length pre)))); [lia|].
    destruct rest as [|e rest]; cbn [length Nat.eqb Nat.add] in *; [by rewrite Nat.add_1_r|].
    rewrite E. replace (S (length pre)) with (length (pre ++ [ce])) by (rewrite length_app; cbn; lia).
    replace (pre ++ ce :: e :: rest) with ((pre ++ [ce]) ++ e :: rest) by (by rewrite <- app_assoc).
    rewrite list_lookup_middle by done. rewrite path_matches_wf; [|by inversion Hwf|done].
    rewrite bool_decide_false by (by eapply Hr). rewrite length_app. cbn. do 2 f_equal.
  - destruct g as [|e g]; [done|]. cbn [length app] in *. pose proof (f_equal length E) as El. rewrite length_app in El.
    cbn [length] in El. destruct (Z.leb_spec alloc (Z.of_nat (S (length pre)))); [lia|]. cbn [Nat.eqb Nat.add].
    assert (E' : cache = (pre ++ [ce]) ++ e :: g ++ rest) by (by rewrite <- app_assoc).
    replace (S (length pre)) with (length (pre ++ [ce])) by (rewrite length_app; cbn; lia).
    rewrite E' at 1. rewrite list_lookup_middle by done.
    apply Forall_cons in Hg as [He Hg], Hwf as [We Hwf]. rewrite path_matches_wf, bool_decide_true by done.
    rewrite (IH g cache alloc (pre ++ [ce]) name _ e rest); [|done..|lia]. rewrite length_app. cbn. do 3 f_equal. lia.
Qed.

Lemma stages_from_some st g : g <> [] \/ stage_list st <> [] -> stage_list (stages_from st g) <> [].
Proof.
  revert st; induction g as [|ce g IH]; intros st Hs; cbn [stages_from foldl].
  { by destruct Hs. }
  apply IH. right. unfold set_stage, stage_list. destruct st as [[] [] [] []]; repeat case_match; done.
Qed.

Lemma stages_from_length st g : (length (stage_list (stages_from st g)) <= length (stage_list st) + length g)%nat.
Proof.
  revert st; induction g as [|ce g IH]; intros st; cbn [stages_from foldl length]; [lia|]. etrans; [apply IH|].
  assert (H : (length (stage_list (set_stage st (ce_stage ce) ce)) <= S (length (stage_list st)))%nat).
  { unfold set_stage, stage_list. destruct st as [[] [] [] []]; repeat case_match; cbn; lia. }
  lia.
Qed.

(** The first path of a list, as [span_path] takes it off. *)
Lemma first_path ce l : exists g rest, span_path (ce_name ce) (ce :: l) = (ce :: g, rest) /\ l = g ++ rest /\
  Forall (fun e => ce_name e = ce_name ce) g /\ (forall e k, rest = e :: k -> ce_name e <> ce_name ce).
Proof.
  cbn [span_path]. rewrite bool_decide_true by done. pose proof (span_path_app (ce_name ce) l) as Ha.
  pose proof (span_path_names (ce_name ce) l) as Hn. pose proof (span_path_head (ce_name ce) l) as Hh.
  destruct (span_path (ce_name ce) l) as [g rest]. exists g, rest. by split_and!.
Qed.

Lemma merge_loop_paths fn f alloc : implements fn f -> forall fuel R gap l,
  Forall ce_wf l -> Z.of_nat (length (R ++ gap ++ l)) < alloc -> (length l <= fuel)%nat ->
  match merge_paths fuel f R l with
  | Ret R' => exists rest, merge_loop fuel fn (R ++ gap ++ l) alloc (length R + length gap) (length l) (length R) (length (R ++ gap ++ l)) =
      Ret (R' ++ rest, length R')
  | r => merge_loop fuel fn (R ++ gap ++ l) alloc (length R + length gap) (length l) (length R) (length (R ++ gap ++ l)) =
      match r with Die => Die | _ => Ub end
  end.
Proof.
  intros Hfn. induction fuel as [|fuel IH]; intros R gap l Hwf Hal Hf.
  { destruct l; [|cbn in Hf; lia]. cbn. exists gap. by rewrite app_nil_r. }
  destruct l as [|ce l]; [cbn; exists gap; by rewrite app_nil_r|].
  destruct (first_path ce l) as (g&rest&Es&El&Hg&Hr). cbn [merge_paths length]. rewrite Es.
  cbn [merge_loop]. assert (Ec : R ++ gap ++ ce :: l = (R ++ gap) ++ ce :: g ++ rest) by (by rewrite El, <- app_assoc).
  assert (Hh : (R ++ gap ++ ce :: l) !! (length R + length gap)%nat = Some ce) by (rewrite Ec, <- length_app; by apply list_lookup_middle).
  apply Forall_cons in Hwf as [Wce Hwf]. rewrite El in Hwf.
  assert (Hga : gather (S (length l)) (R ++ gap ++ ce :: l) alloc (length R + length gap)%nat ce ce no_stages =
    Ret ((length (R ++ gap) + S (length g))%nat, length rest, stages_of (ce :: g))).
  { replace (S (length l)) with (S (length g + length rest)) by (by rewrite El, length_app). rewrite <- (length_app R gap).
    by apply (gather_app (length g)). }
  rewrite Hh, Hga.
  cbn [mbind outcome_bind]. set (gap' := gap ++ ce :: g).
  assert (Eg : R ++ gap ++ ce :: l = R ++ gap' ++ rest) by (unfold gap'; by rewrite El, <- !app_assoc).
  assert (Hsl : (length (R ++ gap) + S (length g) = length R + length gap')%nat) by (unfold gap'; rewrite !length_app; cbn; lia).
  rewrite Hsl, Eg. destruct (Hfn R gap' rest (stages_of (ce :: g))) as [-> Hws].
  { etrans; [apply stages_from_length|]. unfold gap'. rewrite length_app. cbn. lia. }
  { apply stages_from_some. by left. }
  destruct (f R (stages_of (ce :: g)) rest) as [[ws|]| |]; cbn [mbind outcome_bind effect]; try done.
  specialize (Hws ws eq_refl). destruct (Z.ltb_spec (Z.of_nat (length ws)) 0); [lia|]. rewrite Nat2Z.id.
  assert (Hle : (length ws <= length gap')%nat).
  { etrans; [exact Hws|]. etrans; [apply stages_from_length|]. unfold gap'. rewrite length_app. cbn. lia. }
  specialize (IH (R ++ ws) (drop (length ws) gap') rest).
  assert (E' : (R ++ ws) ++ drop (length ws) gap' ++ rest = R ++ ws ++ drop (length ws) gap' ++ rest) by (by rewrite <- app_assoc).
  assert (EL : length ((R ++ ws) ++ drop (length ws) gap' ++ rest) = length (R ++ gap' ++ rest)).
  { rewrite E', !length_app, length_drop. lia. }
  rewrite EL, E' in IH. rewrite Eg in Hal.
  replace (length (R ++ ws) + length (drop (length ws) gap'))%nat with (length R + length gap')%nat in IH by (rewrite length_app, length_drop; lia).
  replace (length (R ++ ws)) with (length R + length ws)%nat in IH by (by rewrite length_app).
  apply IH; [by apply Forall_app in Hwf as [_ ?]|done|]. cbn in Hf. rewrite El, length_app in Hf. lia.
Qed.

(** ** The merge functions without the array *)

Section Paths.
Context {W} {FS : FileSystem W} (w : W).

Definition merged (merge : cache_entry) (old : option cache_entry) (allow_dirty : bool) : verdict :=
  m ← merged_ce w merge old allow_dirty; Ret (Some [m]).

Definition uptodate_opt (old : option cache_entry) : outcome unit :=
  match old with Some old => verify_uptodate w old | None => Ret tt end.

Definition deleted (ce : cache_entry) (old : option cache_entry) : verdict :=
  _ ← uptodate_opt old; Ret (Some [set_ce_mode ce 0]).

(** An entry of [stage] among [l] is a directory of [ce] or lies below it. *)
Definition df_conflict (l : list cache_entry) (ce : cache_entry) (stage : Z) : bool :=
  existsb (fun e => (ce_stage e =? stage) && df_clash (ce_name ce) (ce_namelen ce) e) l.

Definition regular (st : stages) : verdict :=
  let merge_or_keep :=
    match merge_entries (s1 st) (s2 st) (s3 st) with
    | Some m => merged m (s0 st) false
    | None => _ ← uptodate_opt (s0 st); Ret (Some (omap id [s1 st; s2 st; s3 st]))
    end in
  match s0 st, s2 st with
  | Some _, None => Ret None
  | Some old, Some b => if same old b then merge_or_keep else Ret None
  | None, _ => merge_or_keep
  end.

Definition case_14 (st : stages) : verdict :=
  match s1 st, s2 st, s3 st, s0 st with
  | Some a, Some b, Some c, Some old =>
      if same a b && negb (same a c) && same old c then merged c (Some old) true else regular st
  | _, _, _, _ => regular st
  end.

Definition case_one (l : list cache_entry) (st : stages) (ce : cache_entry) (stage : Z) : verdict :=
  if negb (df_conflict l ce stage) && none_or_same ce (s0 st) then merged ce (s0 st) true else case_14 st.

Definition threeway : path_fn := fun R st rest =>
  match s1 st, s2 st, s3 st with
  | None, Some b, Some c =>
      if same b c then if none_or_same b (s0 st) then merged b (s0 st) true else Ret None else case_14 st
  | None, None, Some c => case_one (R ++ rest) st c 2
  | None, Some b, None => case_one (R ++ rest) st b 3
  | _, _, _ => case_14 st
  end.

Definition twoway : path_fn := fun _ st _ =>
  match s3 st, s0 st, s1 st, s2 st with
  | Some _, _, _, _ => Ret None
  | None, None, _, Some n => merged n None false
  | None, None, Some o, None => deleted o None
  | None, None, None, None => Ub
  | None, Some i, None, None => Ret (Some [i])
  | None, Some i, None, Some n => if same i n then Ret (Some [i]) else Ret None
  | None, Some i, Some o, None => if same i o then deleted o (Some i) else Ret None
  | None, Some i, Some o, Some n =>
      if same o n || same i n then Ret (Some [i]) else if same i o then merged n (Some i) false else Ret None
  end.

Definition oneway : path_fn := fun _ st _ =>
  match s2 st, s3 st, s1 st, s0 st with
  | Some _, _, _, _ | _, Some _, _, _ => Ret None
  | None, None, None, _ => Ret (Some [])
  | None, None, Some a, Some old => if same old a then Ret (Some [old]) else merged a None false
  | None, None, Some a, None => merged a None false
  end.

Lemma store_gap R gap rest x : gap <> [] -> store (R ++ gap ++ rest) (length R) x = Ret (R ++ [x] ++ drop 1 gap ++ rest).
Proof.
  intros Hg. destruct gap as [|y gap]; [done|]. unfold store. rewrite length_app. cbn [length app].
  destruct (Nat.ltb_spec (length R) (length R + S (length (gap ++ rest)))); [|lia].
  by rewrite insert_app_r_alt, Nat.sub_diag by lia.
Qed.

Lemma store_all_gap l : forall R gap rest count, (length (omap id l) <= length gap)%nat ->
  store_all (R ++ gap ++ rest) (length R) l count =
    Ret (count + Z.of_nat (length (omap id l)), R ++ omap id l ++ drop (length (omap id l)) gap ++ rest).
Proof.
  induction l as [|[x|] l IH]; intros R gap rest count Hl; cbn [store_all omap list_omap id length drop app] in *.
  - do 2 f_equal. lia.
  - rewrite store_gap by (destruct gap; [cbn in Hl; lia|done]). cbn [mbind outcome_bind].
    replace (R ++ [x] ++ drop 1 gap ++ rest) with ((R ++ [x]) ++ drop 1 gap ++ rest) by (by rewrite <- app_assoc).
    replace (S (length R)) with (length (R ++ [x])) by (rewrite length_app; cbn; lia).
    rewrite IH by (rewrite length_drop; lia). rewrite drop_drop, <- app_assoc. do 2 f_equal. lia.
  - by apply IH.
Qed.

Lemma df_loop_look cache path namelen stage dst next k : forall pre post n, cache = pre ++ k ++ post ->
  (length (pre ++ k) <= dst)%nat \/ (next <= length pre)%nat ->
  df_conflict_loop (length k + n) (length pre) cache path namelen stage dst next =
    if existsb (fun e => (ce_stage e =? stage) && df_clash path namelen e) k then Ret true
    else df_conflict_loop n (length (pre ++ k)) cache path namelen stage dst next.
Proof.
  induction k as [|e k IH]; intros pre post n E Hi; cbn [length Nat.add existsb].
  { by rewrite app_nil_r. }
  assert (He : cache !! length pre = Some e) by (rewrite E; by apply list_lookup_middle).
  cbn [df_conflict_loop]. rewrite He.
  rewrite length_app in Hi. cbn [length] in Hi.
  destruct (Nat.leb_spec dst (length pre)), (Nat.ltb_spec (length pre) next); cbn [andb]; try lia;
    (replace (S (length pre)) with (length (pre ++ [e])) by (rewrite length_app; cbn; lia);
     rewrite (IH (pre ++ [e]) post n); [|by rewrite E, <- app_assoc|rewrite !length_app; cbn; lia];
     rewrite <- app_assoc; cbn [app]; destruct (ce_stage e =? stage); cbn [negb andb orb]; [|done];
     by destruct (df_clash path namelen e)).
Qed.

Lemma df_loop_skip cache path namelen stage dst next n : forall k i, (dst <= i)%nat -> (i + k <= next)%nat ->
  df_conflict_loop (k + n) i cache path namelen stage dst next = df_conflict_loop n (i + k) cache path namelen stage dst next.
Proof.
  induction k as [|k IH]; intros i H1 H2; cbn [Nat.add]; [by rewrite Nat.add_0_r|]. cbn [df_conflict_loop].
  destruct (Nat.leb_spec dst i), (Nat.ltb_spec i next); try lia. cbn [andb]. rewrite IH by lia. f_equal. lia.
Qed.

(** The array without the gap is what is looked at. *)
Lemma causes_df_conflict_gap R gap rest ce stage :
  causes_df_conflict (R ++ gap ++ rest) ce stage (length R) (length R + length gap) (length (R ++ gap ++ rest)) =
    Ret (df_conflict (R ++ rest) ce stage).
Proof.
  unfold causes_df_conflict, df_conflict. rewrite existsb_app, !length_app.
  rewrite (df_loop_look _ _ _ _ _ _ R [] (gap ++ rest)) by (done || (left; cbn; lia)).
  destruct (existsb _ R); [done|]. cbn [app orb]. rewrite df_loop_skip by lia.
  replace (length rest) with (length rest + 0)%nat by lia. rewrite <- (length_app R gap).
  rewrite (df_loop_look _ _ _ _ _ _ rest (R ++ gap) []) by (rewrite ?app_nil_r, <- ?app_assoc; (done || right; rewrite length_app; lia)).
  cbn [df_conflict_loop]. by destruct (existsb _ rest).
Qed.

End Paths.

(** Each merge function of the code implements its counterpart. *)
Section Implements.
Context {W} {FS : FileSystem W} (w : W).

Ltac store_one := rewrite store_gap by (intros ->; cbn in *; lia); cbn [mbind outcome_bind length].

Lemma merged_entry_gap R gap rest m old d : gap <> [] ->
  merged_entry_internal w (R ++ gap ++ rest) m old (length R) d =
    effect (merged w m old d) R gap rest.
Proof.
  intros Hg. unfold merged_entry_internal, merged. destruct (merged_ce w m old d); cbn [mbind outcome_bind]; [|done..].
  rewrite store_gap by done. done.
Qed.

Lemma merged_length m old d ws : merged w m old d = Ret (Some ws) -> length ws = 1%nat.
Proof. unfold merged. destruct (merged_ce w m old d); cbn; [|done..]. by intros [= <-]. Qed.

Lemma deleted_entry_gap R gap rest ce old : gap <> [] ->
  deleted_entry w (R ++ gap ++ rest) ce old (length R) =
    effect (deleted w ce old) R gap rest.
Proof.
  intros Hg. unfold deleted_entry, deleted. change (match old with Some o => _ | None => _ end) with (uptodate_opt w old).
  destruct (uptodate_opt w old); cbn [mbind outcome_bind]; [|done..]. by rewrite store_gap.
Qed.

Lemma deleted_length ce old ws : deleted w ce old = Ret (Some ws) -> length ws = 1%nat.
Proof. unfold deleted. destruct (uptodate_opt w old); cbn; [|done..]. by intros [= <-]. Qed.

Lemma gap_nonempty (st : stages) (gap : list cache_entry) : (length (stage_list st) <= length gap)%nat -> stage_list st <> [] -> gap <> [].
Proof. intros Hl Hn ->. destruct (stage_list st); [done|]. cbn in Hl. lia. Qed.

Lemma fits_merged n m old d : (0 < n)%nat -> fits n (merged w m old d).
Proof. intros Hn ws H. apply merged_length in H. lia. Qed.

Lemma fits_deleted n ce old : (0 < n)%nat -> fits n (deleted w ce old).
Proof. intros Hn ws H. apply deleted_length in H. lia. Qed.

Lemma fits_one n x : (0 < n)%nat -> fits n (Ret (Some [x])).
Proof. intros Hn ws [= <-]. cbn. lia. Qed.

Lemma fits_none n : fits n (Ret None).
Proof. by intros ws [=]. Qed.

Lemma twoway_implements : implements (twoway_merge w) (twoway w).
Proof.
  intros R gap rest [o0 o1 o2 o3] Hl Hn. pose proof (gap_nonempty _ _ Hl Hn) as Hg.
  unfold twoway_merge, twoway, merged_entry. cbn [s0 s1 s2 s3].
  assert (Hs : forall x, (cache ← store (R ++ gap ++ rest) (length R) x; Ret (1, cache)) = effect (Ret (Some [x])) R gap rest).
  { intros x. by rewrite store_gap. }
  set (st := {| s0 := o0; s1 := o1; s2 := o2; s3 := o3 |}) in *.
  assert (Hpos : (0 < length (stage_list st))%nat) by (destruct (stage_list st); [done|cbn; lia]).
  assert (Hf := fun m old d => fits_merged _ m old d Hpos). assert (Hd := fun ce old => fits_deleted _ ce old Hpos).
  assert (Hone := fun x => fits_one _ x Hpos). assert (Hnone := fits_none (length (stage_list st))).
  destruct o3 as [x3|]; [by split|].
  destruct o0 as [i|], o1 as [o|], o2 as [n|]; rewrite ?Hs, ?(merged_entry_gap _ _ _ _ _ _ Hg), ?(deleted_entry_gap _ _ _ _ _ Hg);
    try (split; [done|]; auto; fail).
  - destruct (same o n), (same i n); cbn [orb negb andb]; rewrite ?andb_true_r, ?andb_false_r, ?Hs; try (by split; auto).
    destruct (same i o); rewrite ?(merged_entry_gap _ _ _ _ _ _ Hg); by split; auto.
  - destruct (same i o); rewrite ?(deleted_entry_gap _ _ _ _ _ Hg); by split; auto.
  - destruct (same i n); rewrite ?Hs; by split; auto.
  - by destruct Hn.
Qed.

Lemma oneway_implements : implements (oneway_merge w) (oneway w).
Proof.
  intros R gap rest [o0 o1 o2 o3] Hl Hn. pose proof (gap_nonempty _ _ Hl Hn) as Hg.
  set (st := {| s0 := o0; s1 := o1; s2 := o2; s3 := o3 |}) in *.
  assert (Hpos : (0 < length (stage_list st))%nat) by (destruct (stage_list st); [done|cbn; lia]).
  assert (Hf := fun m old d => fits_merged _ m old d Hpos). assert (Hone := fun x => fits_one _ x Hpos).
  unfold oneway_merge, oneway, merged_entry. cbn [s0 s1 s2 s3 st].
  destruct o2, o3; try (split; [done|]; apply fits_none).
  destruct o1 as [a|]; [|split; [done|]; intros ws [= <-]; cbn; lia].
  destruct o0 as [old|]; [destruct (same old a)|]; rewrite ?(merged_entry_gap _ _ _ _ _ _ Hg); (split; [|by auto]); [|done..].
  by rewrite store_gap.
Qed.

Lemma regular_gap R gap rest st : (length (stage_list st) <= length gap)%nat -> stage_list st <> [] ->
  threeway_regular w (R ++ gap ++ rest) st (length R) = effect (regular w st) R gap rest /\ fits (length (stage_list st)) (regular w st).
Proof.
  intros Hl Hn. pose proof (gap_nonempty _ _ Hl Hn) as Hg.
  assert (Hpos : (0 < length (stage_list st))%nat) by (destruct (stage_list st); [done|cbn; lia]).
  assert (Hlen : (length (omap id [s1 st; s2 st; s3 st]) <= length (stage_list st))%nat).
  { unfold stage_list. cbn [omap list_omap id]. destruct (s0 st); cbn [length]; lia. }
  assert (Hk : (_ ← uptodate_opt w (s0 st); store_all (R ++ gap ++ rest) (length R) [s1 st; s2 st; s3 st] 0) =
    effect (_ ← uptodate_opt w (s0 st); Ret (Some (omap id [s1 st; s2 st; s3 st]))) R gap rest).
  { destruct (uptodate_opt w (s0 st)); cbn [mbind outcome_bind]; [|done..]. rewrite store_all_gap by lia. done. }
  assert (Hkf : fits (length (stage_list st)) (_ ← uptodate_opt w (s0 st); Ret (Some (omap id [s1 st; s2 st; s3 st])))).
  { intros ws. destruct (uptodate_opt w (s0 st)); cbn [mbind outcome_bind]; [|done..]. by intros [= <-]. }
  unfold threeway_regular, regular, merged_entry.
  fold (uptodate_opt w (s0 st)).
  destruct (merge_entries (s1 st) (s2 st) (s3 st)) as [m|]; rewrite ?(merged_entry_gap _ _ _ _ _ _ Hg);
    (destruct (s0 st) as [old|]; [destruct (s2 st) as [b|]; [destruct (same old b)|]|]);
    (split; [done|]); auto using fits_merged, fits_none.
Qed.

Lemma case_14_gap R gap rest st : (length (stage_list st) <= length gap)%nat -> stage_list st <> [] ->
  threeway_14 w (R ++ gap ++ rest) st (length R) = effect (case_14 w st) R gap rest /\ fits (length (stage_list st)) (case_14 w st).
Proof.
  intros Hl Hn. pose proof (gap_nonempty _ _ Hl Hn) as Hg.
  assert (Hpos : (0 < length (stage_list st))%nat) by (destruct (stage_list st); [done|cbn; lia]).
  pose proof (regular_gap R gap rest st Hl Hn) as Hr. unfold threeway_14, case_14, merged_entry_allow_dirty.
  destruct (s1 st) as [a|]; [|done]. destruct (s2 st) as [b|]; [|done]. destruct (s3 st) as [c|]; [|done].
  destruct (s0 st) as [old|]; [|done]. destruct (_ && _); [|done].
  rewrite (merged_entry_gap _ _ _ _ _ _ Hg). split; [done|]. by apply fits_merged.
Qed.

Lemma threeway_implements : implements (threeway_merge w) (threeway w).
Proof.
  intros R gap rest st Hl Hn. pose proof (gap_nonempty _ _ Hl Hn) as Hg.
  assert (Hpos : (0 < length (stage_list st))%nat) by (destruct (stage_list st); [done|cbn; lia]).
  pose proof (case_14_gap R gap rest st Hl Hn) as H14.
  assert (Hone : forall ce stage, threeway_one w (R ++ gap ++ rest) st ce stage (length R) (length R + length gap) (length (R ++ gap ++ rest)) =
      effect (case_one w (R ++ rest) st ce stage) R gap rest /\ fits (length (stage_list st)) (case_one w (R ++ rest) st ce stage)).
  { intros ce stage. unfold threeway_one, case_one. rewrite causes_df_conflict_gap. cbn [mbind outcome_bind].
    destruct (_ && _); [|done]. unfold merged_entry_allow_dirty. rewrite (merged_entry_gap _ _ _ _ _ _ Hg).
    split; [done|]. by apply fits_merged. }
  unfold threeway_merge, threeway, merged_entry_allow_dirty, none_or_same.
  destruct (s1 st); [done|]. destruct (s2 st) as [b|], (s3 st) as [c|]; try done. destruct (same b c); [|done].
  destruct (s0 st) as [old|]; [destruct (same b old)|]; rewrite ?(merged_entry_gap _ _ _ _ _ _ Hg); (split; [done|]);
    auto using fits_merged, fits_none.
Qed.

End Implements.
