(* ===== verification/MergeTrees.v ===== *)
(** * What a merge of trees gives (read-tree.c)

    The result of [merge_cache] on an index in order, path by path: for two
    trees the table of Documentation/git-read-tree.txt, for three trees the
    three-way merge of modes and objects; no entry of the index is lost, and
    merged entries make no directory/file conflicts. *)

From stdpp Require Import base list numbers strings sorting.
From Stdlib Require Import ZArith Lia.
From S2P Require Import Prelude.
From S2P Require Import CsumFile.
From S2P Require Import CacheEntry.
From S2P Require Import Index.
From S2P Require Import IndexFile.
From S2P Require Import ObjectDB.
From S2P Require Import Entry.
From S2P Require Import ReadTree.

(** ** Flags *)

(** [check_updates] without [-u]: what becomes of an entry. *)
Definition settle (ce : cache_entry) : cache_entry :=
  if ce_mode ce =? 0 then ce
  else if negb (Z.land (ce_flags ce) CE_UPDATE =? 0) then set_ce_flags ce (Z.land (ce_flags ce) (Z.lnot CE_UPDATE)) else ce.

Lemma check_updates_settle {W} {FS : FileSystem W} {D} {DB : ObjectDB D} (db : D) (w : W) l :
  check_updates db false w l = io_ret (map settle l, w).
Proof.
  induction l as [|ce l IH]; [done|]. cbn [check_updates map]. unfold settle.
  destruct (ce_mode ce =? 0); [|destruct (negb _)]; cbn [io_bind io_ret]; by rewrite IH.
Qed.

(** The entries [write_cache] writes. *)
Definition live (l : list cache_entry) : list cache_entry := filter (fun ce => ce_mode ce <> 0) l.

Lemma settle_name ce : ce_name (settle ce) = ce_name ce.
Proof. unfold settle. by repeat case_match. Qed.

Lemma settle_mode ce : ce_mode (settle ce) = ce_mode ce.
Proof. unfold settle. by repeat case_match. Qed.

Lemma settle_sha1 ce : ce_sha1 (settle ce) = ce_sha1 ce.
Proof. unfold settle. by repeat case_match. Qed.

Lemma settle_namelen ce : ce_namelen (settle ce) = ce_namelen ce.
Proof.
  unfold settle, ce_namelen. repeat case_match; try done. cbn [set_ce_flags ce_flags].
  rewrite (Z.land_comm (ce_flags ce)), Z.land_assoc. by change (Z.land CE_NAMEMASK (Z.lnot CE_UPDATE)) with CE_NAMEMASK.
Qed.

Lemma settle_stage ce : ce_stage (settle ce) = ce_stage ce.
Proof.
  unfold settle, ce_stage. repeat case_match; try done. cbn [set_ce_flags ce_flags].
  rewrite (Z.land_comm (ce_flags ce)), Z.land_assoc. by change (Z.land CE_STAGEMASK (Z.lnot CE_UPDATE)) with CE_STAGEMASK.
Qed.

Lemma settle_wf ce : ce_wf ce -> settle ce = ce.
Proof.
  intros [Hf Hl Hs]. unfold settle. destruct (ce_mode ce =? 0); [done|].
  destruct (Z.eqb_spec (Z.land (ce_flags ce) CE_UPDATE) 0) as [|Hne]; [done|]. exfalso. apply Hne.
  apply Z.bits_inj'. intros i Hi. rewrite Z.land_spec, Z.bits_0. change CE_UPDATE with (2 ^ 14). rewrite Z.pow2_bits_eqb by done.
  destruct (Z.eqb_spec 14 i) as [<-|]; [|by rewrite andb_false_r].
  rewrite <- (Z.mod_small (ce_flags ce) (2 ^ 14)) by (rewrite Hf; lia). by rewrite Z.mod_pow2_bits_high by lia.
Qed.

(** A merged entry: the fields of [ce], its stage and its bit cleared. *)
Definition to_stage0 (ce : cache_entry) : cache_entry := set_ce_flags ce (Z.of_nat (length (ce_name ce))).

Lemma to_stage0_stage ce : (length (ce_name ce) < 4096)%nat -> ce_stage (to_stage0 ce) = 0.
Proof. intros Hl. unfold ce_stage, to_stage0. cbn [set_ce_flags ce_flags]. rewrite land_stagemask, Z.div_small by lia. done. Qed.

Lemma to_stage0_wf ce : (length (ce_name ce) < 4096)%nat -> ce_wf (to_stage0 ce).
Proof. intros Hl. pose proof (to_stage0_stage ce Hl) as Hs. split; rewrite ?Hs; cbn [to_stage0 set_ce_flags ce_name ce_flags]; lia. Qed.

Lemma set_set_flags ce f g : set_ce_flags (set_ce_flags ce f) g = set_ce_flags ce g.
Proof. done. Qed.

Lemma settle_merged ce : ce_wf ce -> ce_mode ce <> 0 ->
  settle (set_ce_flags ce (Z.land (Z.lor (ce_flags ce) CE_UPDATE) (Z.lnot CE_STAGEMASK))) = to_stage0 ce.
Proof.
  intros [Hf Hl Hs] Hm. unfold settle. cbn [set_ce_flags ce_mode ce_flags]. destruct (Z.eqb_spec (ce_mode ce) 0); [done|].
  set (f := Z.land _ (Z.lnot CE_STAGEMASK)).
  assert (Hu : Z.land f CE_UPDATE = CE_UPDATE).
  { unfold f. rewrite <- Z.land_assoc. change (Z.land (Z.lnot CE_STAGEMASK) CE_UPDATE) with CE_UPDATE.
    apply Z.bits_inj'. intros i Hi. rewrite Z.land_spec, Z.lor_spec. by destruct (Z.testbit (ce_flags ce) i), (Z.testbit CE_UPDATE i). }
  rewrite Hu. cbn [Z.eqb negb CE_UPDATE]. unfold to_stage0. rewrite set_set_flags. f_equal. unfold f.
  rewrite <- Z.land_assoc, Z.land_lor_distr_l. change (Z.land CE_UPDATE _) with 0. rewrite Z.lor_0_r.
  rewrite <- (Z.mod_small (ce_flags ce) (2 ^ 14)) by (rewrite Hf; lia). rewrite <- Z.land_ones, <- Z.land_assoc by lia.
  change (Z.land (Z.ones 14) _) with (Z.ones 12). rewrite Z.land_ones, Hf by lia.
  change (2 ^ 12) with 4096. rewrite Z.mul_comm, Z.mod_add by lia. apply Z.mod_small. lia.
Qed.

(** When the entry of the index is the same, it is taken over. *)
Lemma settle_copied ce old : ce_wf old -> ce_stage old = 0 -> ce_name old = ce_name ce ->
  settle (set_ce_flags (copy_entry ce old) (Z.land (ce_flags old) (Z.lnot CE_STAGEMASK))) = old.
Proof.
  intros Hw Hs Hn. assert (E : set_ce_flags (copy_entry ce old) (Z.land (ce_flags old) (Z.lnot CE_STAGEMASK)) = old).
  { destruct Hw as [Hf Hl _]. rewrite Hs in Hf.
    assert (Ef : Z.land (ce_flags old) (Z.lnot CE_STAGEMASK) = ce_flags old).
    { rewrite <- (Z.mod_small (ce_flags old) (2 ^ 12)) at 1 by lia. rewrite <- Z.land_ones, <- Z.land_assoc by lia.
      change (Z.land (Z.ones 12) (Z.lnot CE_STAGEMASK)) with (Z.ones 12). rewrite Z.land_ones by lia. apply Z.mod_small. lia. }
    rewrite Ef. unfold copy_entry, set_ce_flags. rewrite <- Hn. by destruct old. }
  rewrite E. by apply settle_wf.
Qed.

(** ** The walk over the paths of an index *)

(** A path [p] of an index in order: its entries [g] and what is before and
    behind. *)
Record path_at (cache : list cache_entry) (p : bytes) (before g rest : list cache_entry) : Prop := {
  pa_split : cache = before ++ g ++ rest;
  pa_some : g <> [];
  pa_names : Forall (fun e => ce_name e = p) g;
  pa_before : Forall (fun e => lexcmp (ce_name e) p < 0) before;
  pa_rest : Forall (fun e => lexcmp p (ce_name e) < 0) rest
}.

Lemma name_lt a b : ce_lt a b -> ce_name a <> ce_name b -> lexcmp (ce_name a) (ce_name b) < 0.
Proof. intros Hlt Hne. pose proof (ce_lt_names a b Hlt). destruct (Z.eq_dec (lexcmp (ce_name a) (ce_name b)) 0) as [E|]; [by apply lexcmp_eq in E|lia]. Qed.

Lemma lexcmp_lt_ne a b : lexcmp a b < 0 -> a <> b.
Proof. intros H ->. rewrite lexcmp_refl in H. lia. Qed.

Lemma first_path_at before ce l g rest : StronglySorted ce_lt (ce :: l) -> l = g ++ rest ->
  Forall (fun e => ce_name e = ce_name ce) g -> (forall e k, rest = e :: k -> ce_name e <> ce_name ce) ->
  Forall (fun e => lexcmp (ce_name e) (ce_name ce) < 0) before ->
  path_at (before ++ ce :: l) (ce_name ce) before (ce :: g) rest.
Proof.
  intros Hs El Hg Hr Hb. split; [by rewrite El|done|by constructor|done|].
  destruct rest as [|e rest]; [constructor|]. rewrite El in Hs. apply StronglySorted_inv in Hs as [Hs HF].
  apply Forall_app in HF as [_ HF]. apply Forall_cons in HF as [He _].
  apply StronglySorted_app in Hs as (_&_&Hs). apply StronglySorted_inv in Hs as [_ HF].
  assert (Hlt : lexcmp (ce_name ce) (ce_name e) < 0) by (apply name_lt; [done|]; intros E; by apply (Hr e rest)).
  constructor; [done|]. eapply Forall_impl; [exact HF|]. intros x Hx. eapply lexcmp_lt_le; [done|]. by apply ce_lt_names.
Qed.

Lemma merge_paths_walk (f : path_fn) cache (I : list cache_entry -> list cache_entry -> Prop) : StronglySorted ce_lt cache ->
  (forall p before g rest R ws, path_at cache p before g rest -> I before R -> f R (stages_of g) rest = Ret (Some ws) ->
    I (before ++ g) (R ++ ws)) ->
  forall fuel l before R, cache = before ++ l -> (length l <= fuel)%nat ->
  (forall d e, d ∈ before -> e ∈ l -> lexcmp (ce_name d) (ce_name e) < 0) -> I before R ->
  match merge_paths fuel f R l with
  | Ret R' => I cache R'
  | Die => exists p before g rest R, path_at cache p before g rest /\ I before R /\
      (f R (stages_of g) rest = Ret None \/ f R (stages_of g) rest = Die)
  | Ub => exists p before g rest R, path_at cache p before g rest /\ I before R /\ f R (stages_of g) rest = Ub
  end.
Proof.
  intros Hs Hstep. induction fuel as [|fuel IH]; intros l before R E Hf Hb HI.
  { destruct l; [|cbn in Hf; lia]. cbn. rewrite E, app_nil_r. done. }
  destruct l as [|ce l]; [cbn; rewrite E, app_nil_r; done|].
  destruct (first_path ce l) as (g&rest&Es&El&Hg&Hr). cbn [merge_paths]. rewrite Es.
  assert (Hsl : StronglySorted ce_lt (ce :: l)) by (rewrite E in Hs; by apply StronglySorted_app in Hs as (_&_&Hs)).
  assert (Hp : path_at cache (ce_name ce) before (ce :: g) rest).
  { rewrite E. apply first_path_at; try done. apply Forall_forall. intros d Hd. apply Hb; [done|]. by apply elem_of_cons; left. }
  destruct (f R (stages_of (ce :: g)) rest) as [[ws|]| |] eqn:Ef; cbn [mbind outcome_bind].
  - apply IH with (before := before ++ ce :: g).
    + rewrite E, El, <- app_assoc. done.
    + cbn in Hf. rewrite El, length_app in Hf. lia.
    + intros d e Hd He. destruct Hp as [_ _ Hn Hbf Hre]. rewrite Forall_forall in Hn, Hbf, Hre. specialize (Hre e He).
      apply elem_of_app in Hd as [Hd|Hd]; [|by rewrite (Hn d Hd)].
      eapply lexcmp_lt_le; [by apply Hbf|]. lia.
    + by eapply Hstep.
  - exists (ce_name ce), before, (ce :: g), rest, R. split; [done|]. split; [done|]. by left.
  - exists (ce_name ce), before, (ce :: g), rest, R. split; [done|]. split; [done|]. by right.
  - by exists (ce_name ce), before, (ce :: g), rest, R.
Qed.

(** ** The stages of a path *)

Definition get_stage (st : stages) (k : Z) : option cache_entry :=
  if k =? 0 then s0 st else if k =? 1 then s1 st else if k =? 2 then s2 st else s3 st.

Lemma stage_range ce : 0 <= ce_stage ce < 4.
Proof. unfold ce_stage. rewrite land_stagemask. apply Z.mod_pos_bound. lia. Qed.

Lemma get_set_stage st ce k : 0 <= k < 4 ->
  get_stage (set_stage st (ce_stage ce) ce) k = if ce_stage ce =? k then Some ce else get_stage st k.
Proof.
  intros Hk. pose proof (stage_range ce). unfold get_stage, set_stage. set (s := ce_stage ce) in *.
  assert (Hs : s = 0 \/ s = 1 \/ s = 2 \/ s = 3) by lia. assert (Hk' : k = 0 \/ k = 1 \/ k = 2 \/ k = 3) by lia.
  destruct Hs as [->|[->|[->| ->]]], Hk' as [->|[->|[->| ->]]]; done.
Qed.

Lemma get_stages_from g : forall st k e, 0 <= k < 4 -> get_stage (stages_from st g) k = Some e ->
  (e ∈ g /\ ce_stage e = k) \/ get_stage st k = Some e.
Proof.
  induction g as [|ce g IH]; intros st k e Hk; cbn [stages_from foldl]; [by right|]. intros H.
  destruct (IH _ k e Hk H) as [[He Hs]|Hst]; [left; split; [by apply elem_of_cons; right|done]|].
  rewrite get_set_stage in Hst by done. destruct (Z.eqb_spec (ce_stage ce) k) as [Ek|]; [|by right].
  left. injection Hst as <-. split; [by apply elem_of_cons; left|done].
Qed.

Lemma get_stages_some g : forall st k e, 0 <= k < 4 -> (e ∈ g /\ ce_stage e = k) \/ get_stage st k = Some e ->
  is_Some (get_stage (stages_from st g) k).
Proof.
  induction g as [|ce g IH]; intros st k e Hk; cbn [stages_from foldl].
  - intros [[He _]|H]; [by apply elem_of_nil in He|by exists e].
  - intros [[[->|He]%elem_of_cons Hs]|H].
    + apply (IH _ k ce Hk). right. rewrite get_set_stage by done. by destruct (Z.eqb_spec (ce_stage ce) k).
    + apply (IH _ k e Hk). by left.
    + destruct (decide (ce_stage ce = k)) as [Ek|Hne].
      * apply (IH _ k ce Hk). right. rewrite get_set_stage by done. by destruct (Z.eqb_spec (ce_stage ce) k).
      * apply (IH _ k e Hk). right. rewrite get_set_stage by done. by destruct (Z.eqb_spec (ce_stage ce) k).
Qed.

(** The entry of an index at a path and stage. *)
Lemma path_stages_spec cache p k e : index_ok cache -> 0 <= k < 4 ->
  get_stage (path_stages cache p) k = Some e <-> e ∈ cache /\ ce_name e = p /\ ce_stage e = k.
Proof.
  intros Hok Hk. unfold path_stages, stages_of. set (g := filter _ cache).
  assert (Hin : forall x, x ∈ g <-> ce_name x = p /\ x ∈ cache) by (intros x; unfold g; by rewrite list_elem_of_filter).
  assert (Hempty : get_stage no_stages k = None) by (unfold get_stage; by repeat case_match).
  split.
  - intros H. apply get_stages_from in H as [[He Hs]|H]; [|congruence|done]. apply Hin in He. tauto.
  - intros (He&Hn&Hs). destruct (get_stages_some g no_stages k e Hk) as [x Hx]; [left; split; [by apply Hin|done]|].
    rewrite Hx. f_equal. apply get_stages_from in Hx as [[Hx Sx]|Hx]; [|congruence|done]. apply Hin in Hx as [Nx Hx].
    apply (index_key_inj cache); [done..|]. pose proof (proj1 Hok) as Hwf. rewrite Forall_forall in Hwf.
    unfold ce_key. rewrite (wf_flags x (Hwf x Hx)), (wf_flags e (Hwf e He)), Nx, Sx, Hn, Hs. done.
Qed.

Lemma path_at_filter cache p before g rest : path_at cache p before g rest -> filter (fun e => ce_name e = p) cache = g.
Proof.
  intros [-> _ Hn Hb Hr]. rewrite !filter_app.
  assert (Hnone : forall l, Forall (fun e => ce_name e <> p) l -> filter (fun e => ce_name e = p) l = []).
  { intros l Hl. induction Hl; [done|]. by rewrite filter_cons_False. }
  rewrite (Hnone before), (Hnone rest), app_nil_r.
  - by apply filter_all.
  - eapply Forall_impl; [exact Hr|]. intros e He E. apply lexcmp_lt_ne in He. done.
  - eapply Forall_impl; [exact Hb|]. intros e He E. apply lexcmp_lt_ne in He. done.
Qed.

Lemma path_at_stages cache p before g rest : path_at cache p before g rest -> stages_of g = path_stages cache p.
Proof. intros H. unfold path_stages. by rewrite (path_at_filter _ _ _ _ _ H). Qed.

(** ** The result of a merge *)

Section Result.
Context {W} {FS : FileSystem W} {D} {DB : ObjectDB D} (db : D) (w : W).

Lemma merge_cache_paths fn f i : implements fn f -> index_ok (active_cache i) -> active_nr i < active_alloc i ->
  merge_cache w db false i fn =
    match merge_paths (length (active_cache i)) f [] (active_cache i) with
    | Ret R => io_ret ({| active_cache := map settle R; active_alloc := active_alloc i; active_cache_changed := active_cache_changed i |}, w)
    | Die => Some Die
    | Ub => Some Ub
    end.
Proof.
  intros Hfn [Hwf _] Hal. unfold merge_cache.
  pose proof (merge_loop_paths fn f (active_alloc i) Hfn (length (active_cache i)) [] [] (active_cache i) Hwf Hal ltac:(lia)) as H.
  cbn [app length Nat.add] in H. destruct (merge_paths _ f [] (active_cache i)) as [R| |]; [|by rewrite H..].
  destruct H as [rest ->]. cbn [io_bind]. by rewrite take_app_length, check_updates_settle.
Qed.

(** What has been written for the paths [before]: in order, nothing of other
    paths. *)
Definition ordered (before R : list cache_entry) : Prop :=
  index_ok (live (map settle R)) /\ forall e, e ∈ R -> exists d, d ∈ before /\ ce_name d = ce_name e.

Lemma live_app l k : live (l ++ k) = live l ++ live k.
Proof. apply filter_app. Qed.

Lemma live_settle_name R e : e ∈ live (map settle R) -> exists x, x ∈ R /\ ce_name x = ce_name e.
Proof.
  intros He. apply list_elem_of_filter in He as [_ He]. apply list_elem_of_fmap in He as (x&->&Hx).
  exists x. by rewrite settle_name.
Qed.

Lemma names_ce_lt a b : lexcmp (ce_name a) (ce_name b) < 0 -> ce_lt a b.
Proof. intros H. unfold ce_lt, kcmp. cbn. destruct (Z.eqb_spec (lexcmp (ce_name a) (ce_name b)) 0); lia. Qed.

Lemma ordered_step cache p before g rest R ws : path_at cache p before g rest -> ordered before R ->
  Forall (fun e => ce_name e = p) ws -> index_ok (live (map settle ws)) -> ordered (before ++ g) (R ++ ws).
Proof.
  intros [_ Hg Hn Hb _] [Ho Hsrc] Hws Hok. rewrite Forall_forall in Hn, Hb, Hws. split.
  - rewrite map_app, live_app. destruct Ho as [W1 S1], Hok as [W2 S2]. split; [by apply Forall_app|].
    apply StronglySorted_app. split; [|done]. intros x y Hx Hy. apply names_ce_lt.
    apply live_settle_name in Hx as (x'&Hx&<-), Hy as (y'&Hy&<-). rewrite (Hws y' Hy).
    destruct (Hsrc x' Hx) as (d&Hd&<-). by apply Hb.
  - intros e He. apply elem_of_app in He as [He|He].
    + destruct (Hsrc e He) as (d&Hd&E). exists d. split; [apply elem_of_app; by left|done].
    + destruct g as [|d g]; [done|]. exists d. split; [apply elem_of_app; right; by apply elem_of_cons; left|].
      rewrite (Hws e He). apply Hn. by apply elem_of_cons; left.
Qed.

Definition entries_at (l : list cache_entry) (p : bytes) : list cache_entry := filter (fun e => ce_name e = p) l.

Lemma entries_at_app l k p : entries_at (l ++ k) p = entries_at l p ++ entries_at k p.
Proof. apply filter_app. Qed.

Lemma entries_at_none l p : (forall e, e ∈ l -> ce_name e <> p) -> entries_at l p = [].
Proof.
  induction l as [|e l IH]; intros Hl; [done|]. unfold entries_at. rewrite filter_cons_False.
  - apply IH. intros x Hx. apply Hl. by apply elem_of_cons; right.
  - apply Hl. by apply elem_of_cons; left.
Qed.

Lemma entries_at_all l p : Forall (fun e => ce_name e = p) l -> entries_at l p = l.
Proof. apply filter_all. Qed.

(** [expected p] is what the walk leaves of each path it has passed. *)
Definition leaves (cache : list cache_entry) (expected : bytes -> list cache_entry -> Prop) (before R : list cache_entry) : Prop :=
  forall p, ((exists d, d ∈ before /\ ce_name d = p) -> expected p (entries_at R p)) /\
            ((forall d, d ∈ before -> ce_name d <> p) -> entries_at R p = []).

Lemma leaves_step cache expected p before g rest R ws : path_at cache p before g rest -> ordered before R ->
  leaves cache expected before R -> Forall (fun e => ce_name e = p) ws -> expected p ws -> leaves cache expected (before ++ g) (R ++ ws).
Proof.
  intros [_ Hg Hn Hb _] [_ Hsrc] Hl Hws He q. rewrite Forall_forall in Hn, Hb. rewrite entries_at_app.
  assert (HRp : entries_at R p = []).
  { apply entries_at_none. intros e Hin. destruct (Hsrc e Hin) as (d&Hd&<-). apply lexcmp_lt_ne, Hb, Hd. }
  assert (Hws' : forall q', q' <> p -> entries_at ws q' = []).
  { intros q' Hq. apply entries_at_none. rewrite Forall_forall in Hws. intros e Hin. rewrite (Hws e Hin). congruence. }
  split.
  - intros (d&Hd&E). destruct (decide (q = p)) as [->|Hne]; [by rewrite HRp, (entries_at_all ws p Hws)|].
    rewrite (Hws' q Hne), app_nil_r. apply Hl. apply elem_of_app in Hd as [Hd|Hd]; [by exists d|]. rewrite (Hn d Hd) in E. congruence.
  - intros Hnone. destruct g as [|d g]; [done|].
    assert (Hne : q <> p).
    { intros ->. apply (Hnone d); [apply elem_of_app; right; by apply elem_of_cons; left|]. apply Hn. by apply elem_of_cons; left. }
    rewrite (Hws' q Hne), app_nil_r. apply Hl. intros x Hx. apply Hnone, elem_of_app. by left.
Qed.

(** A merge path by path: when every path either fails or leaves what is
    expected of it, so does the merge; [I] may say more about what has been
    written. *)
Lemma merge_cache_walk fn f i (expected : bytes -> list cache_entry -> Prop) (bad : bytes -> Prop)
    (I : list cache_entry -> list cache_entry -> Prop) :
  implements fn f -> index_ok (active_cache i) -> active_nr i < active_alloc i -> I [] [] ->
  (forall p before g rest R, path_at (active_cache i) p before g rest -> ordered before R -> I before R ->
    (bad p /\ (f R (stages_of g) rest = Ret None \/ f R (stages_of g) rest = Die)) \/
    exists ws, f R (stages_of g) rest = Ret (Some ws) /\ Forall (fun e => ce_name e = p) ws /\
      index_ok (live (map settle ws)) /\ expected p ws /\ I (before ++ g) (R ++ ws)) ->
  (merge_cache w db false i fn = Some Die /\ exists p, bad p) \/
  exists R, merge_cache w db false i fn =
      io_ret ({| active_cache := map settle R; active_alloc := active_alloc i; active_cache_changed := active_cache_changed i |}, w) /\
    index_ok (live (map settle R)) /\ I (active_cache i) R /\
    forall p, ((exists d, d ∈ active_cache i /\ ce_name d = p) -> expected p (entries_at R p)) /\
              ((forall d, d ∈ active_cache i -> ce_name d <> p) -> entries_at R p = []).
Proof.
  intros Hfn Hok Hal HI Hpath. rewrite (merge_cache_paths fn f i Hfn Hok Hal).
  pose proof (merge_paths_walk f (active_cache i) (fun before R => ordered before R /\ leaves (active_cache i) expected before R /\ I before R)
    (proj2 Hok)) as Hwalk.
  specialize (fun H => Hwalk H (length (active_cache i)) (active_cache i) [] [] eq_refl (le_n _)).
  assert (H0 : forall d e, d ∈ [] -> e ∈ active_cache i -> lexcmp (ce_name d) (ce_name e) < 0) by (by intros d e ?%elem_of_nil).
  assert (HI0 : ordered [] [] /\ leaves (active_cache i) expected [] [] /\ I [] []).
  { split; [split; [split; constructor|by intros e ?%elem_of_nil]|]. split; [|done]. intros p.
    split; [by intros (d&?%elem_of_nil&_)|done]. }
  specialize (fun H => Hwalk H H0 HI0).
  assert (Hstep : forall p before g rest R ws, path_at (active_cache i) p before g rest ->
    ordered before R /\ leaves (active_cache i) expected before R /\ I before R -> f R (stages_of g) rest = Ret (Some ws) ->
    ordered (before ++ g) (R ++ ws) /\ leaves (active_cache i) expected (before ++ g) (R ++ ws) /\ I (before ++ g) (R ++ ws)).
  { intros p before g rest R ws Hp (Ho&Hl&Hi) Hr.
    destruct (Hpath p before g rest R Hp Ho Hi) as [(_&[E|E])|(ws'&E&Hn&Hok'&He&Hi')]; rewrite Hr in E; try done.
    injection E as <-. split_and!; [by eapply ordered_step|by eapply leaves_step|done]. }
  specialize (Hwalk Hstep).
  destruct (merge_paths _ _ [] _) as [R'| |]; [right|left|exfalso].
  - destruct Hwalk as ([Ho _]&Hl&Hi). exists R'. by split_and!.
  - split; [done|]. destruct Hwalk as (p&before&g&rest&R&Hp&(Ho&_&Hi)&Hbad). exists p.
    destruct (Hpath p before g rest R Hp Ho Hi) as [(Hfail&_)|(ws&E&_)]; [done|]. rewrite E in Hbad. by destruct Hbad.
  - destruct Hwalk as (p&before&g&rest&R&Hp&(Ho&_&Hi)&Hbad).
    destruct (Hpath p before g rest R Hp Ho Hi) as [(_&[E|E])|(ws&E&_)]; by rewrite E in Hbad.
Qed.

Lemma path_stages_none cache p : (forall d, d ∈ cache -> ce_name d <> p) -> path_stages cache p = no_stages.
Proof. intros H. unfold path_stages. change (filter _ cache) with (entries_at cache p). by rewrite entries_at_none. Qed.

(** A path that is there has an entry. *)
Lemma path_at_some cache p before g rest : path_at cache p before g rest -> stage_list (path_stages cache p) <> [].
Proof. intros Hp. rewrite <- (path_at_stages _ _ _ _ _ Hp). apply stages_from_some. left. apply Hp. Qed.

End Result.

(** ** Two-tree merges: the table of Documentation/git-read-tree.txt *)

(** What an entry is about: its mode and its object. *)
Definition content (ce : cache_entry) : Z * bytes := (ce_mode ce, ce_sha1 ce).

Inductive fate := Nothing | KeepIndex | UseM | RemovePath | Fail.

(** The rules by number: [I] the index, [H] the old tree, [M] the new one. *)
Definition carry_forward (clean : bool) (I H M : option (Z * bytes)) : fate :=
  match I, H, M with
  | None, None, None => (* 0 *) Nothing
  | None, _, Some _ => (* 1, 3 *) UseM
  | None, Some _, None => (* 2 *) RemovePath
  | Some _, None, None => (* 4, 5 *) KeepIndex
  | Some i, None, Some m => (* 6, 7; 8, 9 *) if bool_decide (i = m) then KeepIndex else Fail
  | Some i, Some h, None => (* 10; 11, 12, 13 *) if clean && bool_decide (i = h) then RemovePath else Fail
  | Some i, Some h, Some m =>
      if bool_decide (h = m) then (* 14, 15 *) KeepIndex
      else if bool_decide (i = m) then (* 18, 19 *) KeepIndex
      else if clean && bool_decide (i = h) then (* 20 *) UseM
      else (* 16, 17, 21 *) Fail
  end.

Section TwoWay.
Context {W} {FS : FileSystem W} (w : W).

(** The file of an entry is as the index says, or there is none. *)
Definition clean (ce : cache_entry) : bool :=
  match fs_lstat w (ce_name ce) with
  | SysOk st => match ce_match_stat ce st with Ret changed => changed =? 0 | _ => false end
  | SysErr e => bool_decide (e = ENOENT)
  end.

Lemma verify_uptodate_clean ce : verify_uptodate w ce = if clean ce then Ret tt else Die.
Proof.
  unfold verify_uptodate, clean. destruct (fs_lstat w (ce_name ce)) as [st|e]; [|by case_bool_decide].
  destruct (ce_match_stat ce st) as [c| |] eqn:E; cbn [mbind outcome_bind]; [by destruct (c =? 0)|done|].
  unfold ce_match_stat in E. destruct (_ =? S_IFREG); [done|]. by destruct (_ =? S_IFLNK).
Qed.

Definition fields_ok (ce : cache_entry) : Prop := ce_mode ce <> 0 /\ length (ce_sha1 ce) = 20%nat.

Lemma same_content a b : fields_ok a -> fields_ok b -> same a b = bool_decide (content a = content b).
Proof.
  intros [_ Ha] [_ Hb]. unfold same, content.
  rewrite (memcmp_full 20) by done.
  destruct (Z.eqb_spec (ce_mode a) (ce_mode b)), (Z.eqb_spec (lexcmp (ce_sha1 a) (ce_sha1 b)) 0) as [El|El]; cbn [andb];
    case_bool_decide as E; try done.
  - apply lexcmp_eq in El. exfalso. apply E. congruence.
  - injection E as _ E. rewrite E, lexcmp_refl in El. done.
  - by injection E.
  - by injection E.
Qed.

(** The fate of a path, from the entries at its stages. *)
Definition path_fate (st : stages) : fate :=
  carry_forward (match s0 st with Some i => clean i | None => true end) (content <$> s0 st) (content <$> s1 st) (content <$> s2 st).

Definition fate_entries (st : stages) : list cache_entry :=
  match path_fate st with
  | KeepIndex => option_list (s0 st)
  | UseM => option_list (to_stage0 <$> s2 st)
  | _ => []
  end.

(** The entries a path may have. *)
Definition stage_ok (p : bytes) (st : stages) : Prop := forall k e, 0 <= k < 4 -> get_stage st k = Some e ->
  ce_name e = p /\ ce_stage e = k /\ ce_wf e /\ fields_ok e.

Lemma settle_live e : ce_wf e -> fields_ok e -> live (map settle [e]) = [e].
Proof. intros Hw [Hm _]. cbn [map]. rewrite settle_wf by done. unfold live. by rewrite filter_cons_True. Qed.

Lemma merged_new m : ce_wf m -> fields_ok m -> exists x, merged w m None false = Ret (Some [x]) /\ ce_name x = ce_name m /\
  live (map settle [x]) = [to_stage0 m].
Proof.
  intros Hw [Hm _]. unfold merged, merged_ce. cbn [mbind outcome_bind]. eexists. split; [done|]. split; [done|].
  cbn [map]. rewrite set_set_flags. cbn [set_ce_flags ce_flags]. rewrite settle_merged by done. unfold live.
  by rewrite filter_cons_True.
Qed.

Lemma twoway_path R rest st p : stage_ok p st -> s3 st = None ->
  match path_fate st with
  | Nothing => s0 st = None /\ s1 st = None /\ s2 st = None
  | Fail => twoway w R st rest = Ret None \/ twoway w R st rest = Die
  | _ => exists ws, twoway w R st rest = Ret (Some ws) /\ Forall (fun e => ce_name e = p) ws /\ live (map settle ws) = fate_entries st
  end.
Proof.
  intros Hst H3. pose proof (Hst 0) as H0. pose proof (Hst 1) as H1. pose proof (Hst 2) as H2. cbn in H0, H1, H2.
  unfold fate_entries, path_fate, twoway. destruct st as [o0 o1 o2 o3]. cbn [s0 s1 s2 s3] in *. subst o3.
  assert (Hdel : forall o, ce_name o = p -> Forall (fun e => ce_name e = p) [set_ce_mode o 0] /\ live (map settle [set_ce_mode o 0]) = []).
  { intros o Ho. split; [by repeat constructor|]. cbn [map]. unfold live. rewrite filter_cons_False; [done|].
    rewrite settle_mode. intros Hn. by apply Hn. }
  destruct o0 as [i|].
  - destruct (H0 i) as (Ni&_&Wi&Fi); [lia|done|].
    assert (Hkeep : exists ws, Ret (Some [i]) = @Ret (option (list cache_entry)) (Some ws) /\ Forall (fun e => ce_name e = p) ws /\
      live (map settle ws) = option_list (Some i)).
    { exists [i]. split; [done|]. split; [by repeat constructor|]. by apply settle_live. }
    destruct o1 as [h|]; [destruct (H1 h) as (Nh&_&Wh&Fh); [lia|done|]|]; (destruct o2 as [m|]; [destruct (H2 m) as (Nm&_&Wm&Fm); [lia|done|]|]);
      cbn [fmap option_fmap option_map carry_forward]; rewrite ?same_content by done.
    + case_bool_decide as E1; cbn [orb]; [done|]. case_bool_decide as E2; cbn [orb]; [done|].
      case_bool_decide as E3; [|rewrite andb_false_r; by left].
      unfold merged, merged_ce. cbn [mbind outcome_bind negb]. rewrite same_content, bool_decide_false by done.
      rewrite verify_uptodate_clean. destruct (clean i); cbn [mbind outcome_bind andb]; [|by right].
      destruct (merged_new m Wm Fm) as (x&Ex&Nx&Lx). unfold merged, merged_ce in Ex. cbn [mbind outcome_bind] in Ex. injection Ex as <-.
      eexists. split; [done|]. split; [|exact Lx]. repeat constructor. by rewrite <- Nm.
    + case_bool_decide as E1; [|rewrite andb_false_r; by left]. unfold deleted, uptodate_opt. rewrite verify_uptodate_clean.
      destruct (clean i); cbn [mbind outcome_bind andb]; [|by right]. eexists. split; [done|]. by apply Hdel.
    + case_bool_decide as E1; [done|by left].
    + done.
  - destruct o1 as [h|]; [destruct (H1 h) as (Nh&_&Wh&Fh); [lia|done|]|]; (destruct o2 as [m|]; [destruct (H2 m) as (Nm&_&Wm&Fm); [lia|done|]|]);
      cbn [fmap option_fmap option_map carry_forward]; [| | |done].
    2: { eexists. split; [done|]. by apply Hdel. }
    all: destruct (merged_new m Wm Fm) as (x&Ex&Nx&Lx); exists [x]; split; [done|]; split; [|done]; repeat constructor; congruence.
Qed.

End TwoWay.

Lemma fate_entries_ok {W} {FS : FileSystem W} (w : W) p st : stage_ok p st -> index_ok (fate_entries w st).
Proof.
  intros Hst. unfold fate_entries.
  assert (Hone : forall o : option cache_entry, (forall e, o = Some e -> ce_wf e) -> index_ok (option_list o)).
  { intros [e|] He; cbn; split; [apply Forall_singleton; auto|repeat constructor|constructor|constructor]. }
  assert (Hnil : index_ok []) by (split; constructor).
  destruct (path_fate w st); try done; apply Hone.
  - intros e He. by destruct (Hst 0 e ltac:(lia) He) as (_&_&?&_).
  - intros e (m&Hm&->)%fmap_Some_1. destruct (Hst 2 m ltac:(lia) Hm) as (_&_&Hw&_). apply to_stage0_wf, Hw.
Qed.

Lemma path_stages_ok cache p : index_ok cache -> Forall fields_ok cache -> stage_ok p (path_stages cache p).
Proof.
  intros Hok Hf k e Hk He. apply path_stages_spec in He as (He&Hn&Hs); [|done..]. split; [done|]. split; [done|].
  pose proof (proj1 Hok) as Hw. rewrite Forall_forall in Hw, Hf. split; [by apply Hw|by apply Hf].
Qed.

(** No entry is lost on the way. *)
Lemma live_settle_entries_at R p : entries_at (live (map settle R)) p = live (map settle (entries_at R p)).
Proof.
  induction R as [|e R IH]; [done|]. cbn [map]. unfold entries_at, live in *. rewrite (filter_cons _ (settle e)), (filter_cons _ e).
  destruct (decide (ce_mode (settle e) <> 0)) as [Hm|Hm].
  - rewrite filter_cons, settle_name. destruct (decide (ce_name e = p)); [|exact IH].
    cbn [map]. rewrite filter_cons, decide_True by done. by rewrite IH.
  - destruct (decide (ce_name e = p)); [|exact IH]. cbn [map]. by rewrite filter_cons, decide_False.
Qed.

(** C8. "git-read-tree -m H M" carries the index forward: for an index in order
    with the trees at stages 1 and 2, [merge_cache] with [twoway_merge] ends,
    without undefined behaviour; it dies exactly when some path falls under one of the rules of
    the documentation's table that say "fail", and otherwise the entries that
    are written back are, for every path, exactly those the table names: the
    entry of the index as it was, that of [M] at stage 0, or none; and they are
    in order. *)
Theorem twoway_merge_spec {W} {FS : FileSystem W} {D} {DB : ObjectDB D} (db : D) (w : W) (i : index) :
  index_ok (active_cache i) -> Forall fields_ok (active_cache i) -> active_nr i < active_alloc i ->
  (forall e, e ∈ active_cache i -> ce_stage e <> 3) ->
  let st := path_stages (active_cache i) in
  (merge_cache w db false i (twoway_merge w) = Some Die /\ exists p, path_fate w (st p) = Fail) \/
  (exists i', merge_cache w db false i (twoway_merge w) = io_ret (i', w) /\ index_ok (live (active_cache i')) /\
    forall p, path_fate w (st p) <> Fail /\ entries_at (live (active_cache i')) p = fate_entries w (st p)).
Proof.
  intros Hok Hf Hal H3 st.
  assert (Hst : forall p, stage_ok p (st p) /\ s3 (st p) = None).
  { intros p. split; [by apply path_stages_ok|]. destruct (s3 (st p)) as [e|] eqn:E; [|done].
    destruct (proj1 (path_stages_spec _ p 3 e Hok ltac:(lia)) E) as (He&_&Hs). by destruct (H3 e He). }
  destruct (merge_cache_walk db w _ _ i (fun p ws => path_fate w (st p) <> Fail /\ live (map settle ws) = fate_entries w (st p))
    (fun p => path_fate w (st p) = Fail) (fun _ _ => True) (twoway_implements w) Hok Hal Logic.I) as [[E Hp]|(R&->&Hlive&_&Hl)].
  - intros p before g rest R Hp _ _. rewrite (path_at_stages _ _ _ _ _ Hp). fold (st p). destruct (Hst p) as [Ho H30].
    pose proof (twoway_path w R rest (st p) p Ho H30) as Ht. pose proof (fate_entries_ok w p (st p) Ho) as Hfo.
    destruct (path_fate w (st p)) eqn:E;
      [|destruct Ht as (ws&Hr&Hn&Hl); right; exists ws; split_and!; try done; by rewrite Hl..|by left].
    destruct Ht as (E0&E1&E2). exfalso. apply (path_at_some _ _ _ _ _ Hp). fold (st p). unfold stage_list. by rewrite E0, E1, E2, H30.
  - left. by split.
  - right. eexists. split; [done|]. split; [exact Hlive|]. intros p. cbn [active_cache]. rewrite live_settle_entries_at.
    destruct (decide (Exists (fun d => ce_name d = p) (active_cache i))) as [Hex|Hno].
    + apply Exists_exists in Hex. by apply (proj1 (Hl p)).
    + assert (Hno' : forall d, d ∈ active_cache i -> ce_name d <> p) by (intros d Hd E; apply Hno, Exists_exists; eauto).
      rewrite (proj2 (Hl p) Hno'). unfold st. by rewrite path_stages_none.
Qed.

(** ** Runs *)

Module ReadTreeDemo.

(** An entry of a path and stage for the object [n]. *)
Definition entry (path : string) (stage n : Z) : cache_entry :=
  {| ce_ctime := {| sec := 0; nsec := 0 |}; ce_mtime := {| sec := 0; nsec := 0 |}; ce_dev := 0; ce_ino := 0;
     ce_mode := 0x81a4; ce_uid := 0; ce_gid := 0; ce_st_size := 0; ce_sha1 := replicate 20 n;
     ce_flags := create_ce_flags (Z.of_nat (length (str path))) stage; ce_name := str path |}.

Definition index_of (l : list cache_entry) : index := {| active_cache := l; active_alloc := 100; active_cache_changed := false |}.

(** Kept, taken from [M], removed, added. *)
Definition two : list cache_entry :=
  [entry "a" 0 1; entry "a" 1 2; entry "a" 2 2; entry "b" 0 3; entry "b" 1 3; entry "b" 2 4; entry "c" 0 5; entry "c" 1 5; entry "d" 2 6].

Definition no_files : MemFs.fs := ∅.

Definition db_one : ObjectDB unit := MemFs.db_of ∅.

Definition merge (fn : merge_fn) (l : list cache_entry) : io (list cache_entry) :=
  r <- merge_cache (DB := db_one) no_files tt false (index_of l) fn ;; io_ret (live (active_cache (fst r))).

End ReadTreeDemo.

Lemma twoway_merge_spec_witness :
  exists i', merge_cache (DB := ReadTreeDemo.db_one) ReadTreeDemo.no_files tt false (ReadTreeDemo.index_of ReadTreeDemo.two)
      (twoway_merge ReadTreeDemo.no_files) = io_ret (i', ReadTreeDemo.no_files) /\
    entries_at (live (active_cache i')) (str "b") = [ReadTreeDemo.entry "b" 0 4] /\ entries_at (live (active_cache i')) (str "c") = [].
Proof.
  destruct (twoway_merge_spec (DB := ReadTreeDemo.db_one) tt ReadTreeDemo.no_files (ReadTreeDemo.index_of ReadTreeDemo.two))
    as [(E&_)|(i'&E&_&H)].
  - apply (bool_decide_unpack _). vm_compute. exact Logic.I.
  - repeat (constructor; [split; [discriminate|reflexivity]|]). constructor.
  - vm_compute. reflexivity.
  - apply Forall_forall. repeat (constructor; [discriminate|]). constructor.
  - vm_compute in E. discriminate E.
  - exists i'. split; [exact E|]. split; [destruct (H (str "b")) as [_ ->]|destruct (H (str "c")) as [_ ->]]; vm_compute; reflexivity.
Defined.

(** A file that is only in the index and a directory of the new tree: both end
    up in the merged index, where [write_tree] would make two entries of one
    name. *)
Example twoway_df_conflict :
  ReadTreeDemo.merge (twoway_merge ReadTreeDemo.no_files) [ReadTreeDemo.entry "a" 0 1; ReadTreeDemo.entry "a/b" 2 2] =
    io_ret [ReadTreeDemo.entry "a" 0 1; ReadTreeDemo.entry "a/b" 0 2] /\
  below (ReadTreeDemo.entry "a" 0 1) (ReadTreeDemo.entry "a/b" 0 2).
Proof. split; [vm_compute; reflexivity|]. apply (bool_decide_unpack _). vm_compute. exact Logic.I. Qed.

(** An index that fills its array exactly (24 entries read into an empty one):
    [*++src] reads the pointer behind it. *)
Example merge_overread :
  merge_cache (DB := ReadTreeDemo.db_one) ReadTreeDemo.no_files tt false
    {| active_cache := [ReadTreeDemo.entry "a" 1 1]; active_alloc := 1; active_cache_changed := true |}
    (oneway_merge ReadTreeDemo.no_files) = Some Ub /\
  alloc_nr 0 = 24.
Proof. split; vm_compute; reflexivity. Qed.

(** ** Three-tree merges *)

(** The three-way merge of what [a] has at a path with what the branches [b]
    and [c] made of it: [None] is a conflict. *)
Definition merge3 (a b c : option (Z * bytes)) : option (option (Z * bytes)) :=
  if bool_decide (a = b) then Some c else if bool_decide (a = c) then Some b else if bool_decide (b = c) then Some b else None.

Section ThreeWay.
Context {W} {FS : FileSystem W} (w : W).

Definition stages3 (st : stages) : list cache_entry := omap id [s1 st; s2 st; s3 st].

Definition merge_of (st : stages) : option (option (Z * bytes)) :=
  merge3 (content <$> s1 st) (content <$> s2 st) (content <$> s3 st).

(** The index has what our branch has, and so has the working tree. *)
Definition unchanged (st : stages) (old : cache_entry) : Prop := content <$> s2 st = Some (content old) /\ clean w old = true.

(** Why a merge is refused. *)
Definition refused (st : stages) : Prop := exists old, s0 st = Some old /\ ~ unchanged st old.

(** Both branches have the path, or one has it and the other nothing in its
    way among [l]. *)
Definition no_obstacle (l : list cache_entry) (st : stages) : Prop :=
  (is_Some (s2 st) /\ is_Some (s3 st)) \/
  (exists c, s3 st = Some c /\ df_conflict l c 2 = false) \/ (exists b, s2 st = Some b /\ df_conflict l b 3 = false).

Definition resolved (p : bytes) (st : stages) (l ws : list cache_entry) : Prop := exists m,
  live (map settle ws) = [m] /\ Forall (fun e => ce_name e = p) ws /\ ce_wf m /\ ce_stage m = 0 /\ ce_name m = p /\
  merge_of st = Some (Some (content m)) /\ (forall old, s0 st = Some old -> m = old \/ unchanged st old) /\ no_obstacle l st.

Definition kept (st : stages) (ws : list cache_entry) : Prop :=
  ws = stages3 st /\ (is_Some (s2 st) -> is_Some (s3 st) -> merge_of st = None) /\ (forall old, s0 st = Some old -> unchanged st old).

Definition good3 (p : bytes) (st : stages) (l : list cache_entry) (r : verdict) : Prop :=
  (refused st /\ (r = Ret None \/ r = Die)) \/ exists ws, r = Ret (Some ws) /\ (resolved p st l ws \/ kept st ws).

Section Path.
Context (p : bytes) (st : stages) (l : list cache_entry) (Hst : stage_ok p st).

Lemma stage0_ok old : s0 st = Some old -> ce_name old = p /\ ce_stage old = 0 /\ ce_wf old /\ fields_ok old.
Proof. intros H. by apply (Hst 0); [lia|]. Qed.

(** Merging to [m], one of the stages. *)
Lemma good_merged k m d : 1 <= k < 4 -> get_stage st k = Some m -> merge_of st = Some (Some (content m)) -> no_obstacle l st ->
  (forall old, s0 st = Some old -> content old = content m \/ (d = false /\ content <$> s2 st = Some (content old))) ->
  good3 p st l (merged w m (s0 st) d).
Proof.
  intros Hk Hm Hmerge Hno Hold. destruct (Hst k m ltac:(lia) Hm) as (Nm&_&Wm&Fm). pose proof (proj1 Fm) as Mm.
  set (m0 := to_stage0 m).
  assert (Hm0 : ce_wf m0 /\ ce_stage m0 = 0) by (split; [apply to_stage0_wf|apply to_stage0_stage]; apply Wm).
  unfold merged, merged_ce. cbn [set_ce_flags ce_flags].
  assert (Hnew : forall old', (forall old, s0 st = Some old -> old' = Some old -> unchanged st old) -> s0 st = old' ->
    resolved p st l [set_ce_flags m (Z.land (Z.lor (ce_flags m) CE_UPDATE) (Z.lnot CE_STAGEMASK))]).
  { intros old' Hu E. exists m0. cbn [map]. rewrite settle_merged by done. unfold live. rewrite filter_cons_True by done.
    split_and!; try done; [by repeat constructor|apply Hm0|apply Hm0|]. intros old Ho. right. apply Hu; congruence. }
  destruct (s0 st) as [old|] eqn:E0; cbn [mbind outcome_bind].
  2:{ right. eexists. split; [done|]. left. rewrite set_set_flags. by apply (Hnew None). }
  destruct (stage0_ok old E0) as (No&So&Wo&Fo).
  change (same old (set_ce_flags m (Z.lor (ce_flags m) CE_UPDATE))) with (same old m). rewrite same_content by done.
  case_bool_decide as Ec; cbn [mbind outcome_bind].
  - right. eexists. split; [done|]. left. exists old.
    change (copy_entry (set_ce_flags m (Z.lor (ce_flags m) CE_UPDATE)) old) with (copy_entry m old). cbn [copy_entry ce_flags map].
    rewrite settle_copied by (done || congruence). unfold live. rewrite filter_cons_True by apply Fo.
    split_and!; try done; [by repeat constructor|by rewrite Ec|]. intros old' Ho. rewrite E0 in Ho. injection Ho as <-. by left.
  - destruct (Hold old eq_refl) as [|[-> Hb]]; [done|]. cbn [negb]. rewrite verify_uptodate_clean.
    destruct (clean w old) eqn:Ecl; cbn [mbind outcome_bind].
    + right. eexists. split; [done|]. left. rewrite set_set_flags. apply (Hnew (Some old)); [|done].
      intros old' _ [= <-]. by split.
    + left. split; [|by right]. exists old. split; [done|]. intros [_ Hc]. congruence.
Qed.

(** [merge_entries] is [merge3] on three entries. *)
Lemma merge_entries_merge3 a b c : s1 st = Some a -> s2 st = Some b -> s3 st = Some c ->
  match merge_entries (s1 st) (s2 st) (s3 st) with
  | Some m => merge_of st = Some (Some (content m)) /\ (s2 st = Some m \/ s3 st = Some m)
  | None => merge_of st = None
  end.
Proof.
  intros E1 E2 E3. destruct (Hst 1 a ltac:(lia) E1) as (_&_&_&Fa), (Hst 2 b ltac:(lia) E2) as (_&_&_&Fb), (Hst 3 c ltac:(lia) E3) as (_&_&_&Fc).
  unfold merge_of, merge3. rewrite E1, E2, E3. cbn [merge_entries fmap option_fmap option_map]. rewrite !same_content by done.
  repeat case_bool_decide; try congruence; repeat split; try (by left); try (by right); congruence.
Qed.

Definition both_changed : Prop := s1 st = None -> forall b c, s2 st = Some b -> s3 st = Some c -> content b <> content c.

Lemma good_regular : both_changed -> good3 p st l (regular w st).
Proof.
  intros Hdiff. unfold regular.
  assert (Hgo : (forall old, s0 st = Some old -> content <$> s2 st = Some (content old)) ->
    good3 p st l (match merge_entries (s1 st) (s2 st) (s3 st) with
      | Some m => merged w m (s0 st) false
      | None => _ ← uptodate_opt w (s0 st); Ret (Some (omap id [s1 st; s2 st; s3 st])) end)).
  { intros Hold.
    assert (Hkeep : (is_Some (s2 st) -> is_Some (s3 st) -> merge_of st = None) ->
      good3 p st l (_ ← uptodate_opt w (s0 st); Ret (Some (omap id [s1 st; s2 st; s3 st])))).
    { intros Hn. unfold uptodate_opt. destruct (s0 st) as [old|] eqn:E0; cbn [mbind outcome_bind].
      - rewrite verify_uptodate_clean. destruct (clean w old) eqn:Ec; cbn [mbind outcome_bind].
        + right. eexists. split; [done|]. right. split; [done|]. split; [done|]. intros old' Ho. rewrite E0 in Ho.
          injection Ho as <-. split; [by apply Hold|done].
        + left. split; [|by right]. exists old. split; [done|]. intros [_ Hc]. congruence.
      - right. eexists. split; [done|]. right. split; [done|]. split; [done|]. intros old' Ho. congruence. }
    destruct (decide (is_Some (s1 st) /\ is_Some (s2 st) /\ is_Some (s3 st))) as [([a E1]&[b E2]&[c E3])|Hno].
    - pose proof (merge_entries_merge3 a b c E1 E2 E3) as Hm. destruct (merge_entries (s1 st) (s2 st) (s3 st)) as [m|]; [|by apply Hkeep].
      destruct Hm as [Hm Hk]. assert (Hob : no_obstacle l st) by (left; split; by eexists).
      assert (Ho : forall old, s0 st = Some old -> content old = content m \/ (false = false /\ content <$> s2 st = Some (content old))) by (right; auto).
      destruct Hk as [Hk|Hk]; [by apply (good_merged 2)|by apply (good_merged 3)].
    - assert (Hnone : merge_entries (s1 st) (s2 st) (s3 st) = None).
      { destruct (s1 st), (s2 st), (s3 st); try done. exfalso. apply Hno. split_and!; by eexists. }
      rewrite Hnone. apply Hkeep. intros [b E2] [c E3]. unfold merge_of, merge3. rewrite E2, E3. destruct (s1 st) as [a|] eqn:E1.
      { exfalso. apply Hno. rewrite E2, E3. split_and!; by eexists. }
      cbn [fmap option_fmap option_map]. rewrite !bool_decide_false; try done. intros E. injection E as E. apply (Hdiff E1 b c E2 E3).
      unfold content. congruence. }
  destruct (s0 st) as [old|] eqn:E0; [|by apply Hgo].
  destruct (stage0_ok old E0) as (_&_&_&Fo).
  destruct (s2 st) as [b|] eqn:E2.
  - destruct (Hst 2 b ltac:(lia) E2) as (_&_&_&Fb). rewrite same_content by done. case_bool_decide as Ec.
    + apply Hgo. intros old' [= <-]. cbn. by rewrite Ec.
    + left. split; [|by left]. exists old. split; [done|]. intros [Hc _]. rewrite E2 in Hc. apply (inj Some) in Hc. congruence.
  - left. split; [|by left]. exists old. split; [done|]. intros [Hc _]. by rewrite E2 in Hc.
Qed.

Lemma good_14 : both_changed -> good3 p st l (case_14 w st).
Proof.
  intros Hdiff. pose proof (good_regular Hdiff) as Hr. unfold case_14.
  destruct (s1 st) as [a|] eqn:E1; [|done]. destruct (s2 st) as [b|] eqn:E2; [|done]. destruct (s3 st) as [c|] eqn:E3; [|done].
  destruct (s0 st) as [old|] eqn:E0; [|done].
  destruct (Hst 1 a ltac:(lia) E1) as (_&_&_&Fa), (Hst 2 b ltac:(lia) E2) as (_&_&_&Fb), (Hst 3 c ltac:(lia) E3) as (_&_&_&Fc).
  destruct (stage0_ok old E0) as (_&_&_&Fo). rewrite !same_content by done.
  case_bool_decide as Eab; [|done]. case_bool_decide as Eac; [done|]. case_bool_decide as Eoc; [|done]. cbn [andb negb].
  rewrite <- E0. apply (good_merged 3); [lia|done| |left; split; by eexists|].
  - unfold merge_of, merge3. rewrite E1, E2, E3. cbn. by rewrite bool_decide_true by congruence.
  - intros old' Ho. left. congruence.
Qed.

(** One of the branches has the path. *)
Lemma good_one k ce : both_changed -> (k = 2 \/ k = 3) -> get_stage st k = Some ce -> s1 st = None -> get_stage st (5 - k) = None ->
  good3 p st l (case_one w l st ce (5 - k)).
Proof.
  intros Hdiff Hk Hce E1 Hother. unfold case_one. destruct (df_conflict l ce (5 - k)) eqn:Edf; cbn [negb andb]; [by apply good_14|].
  destruct (none_or_same ce (s0 st)) eqn:En; [|by apply good_14].
  destruct (Hst k ce ltac:(lia) Hce) as (_&_&_&Fc).
  apply (good_merged k); [lia|done| | |].
  - unfold merge_of, merge3. rewrite E1. destruct Hk as [-> | ->]; [change (get_stage st (5 - 2)) with (s3 st) in Hother|change (get_stage st (5 - 3)) with (s2 st) in Hother];
      cbn in Hce; rewrite Hce, Hother; cbn; [|done].
    rewrite bool_decide_false by done. done.
  - right. destruct Hk as [-> | ->]; [right|left]; exists ce; by split.
  - intros old Ho. left. rewrite Ho in En. cbn in En. destruct (stage0_ok old Ho) as (_&_&_&Fo).
    rewrite same_content in En by done. apply bool_decide_eq_true in En. congruence.
Qed.



End Path.

Lemma threeway_path R rest st p : stage_ok p st -> good3 p st (R ++ rest) (threeway w R st rest).
Proof.
  intros Hst. unfold threeway.
  destruct (s1 st) as [a|] eqn:E1; [apply (good_14 p st _ Hst); intros E; congruence|].
  destruct (s2 st) as [b|] eqn:E2, (s3 st) as [c|] eqn:E3.
  - destruct (Hst 2 b ltac:(lia) E2) as (_&_&_&Fb), (Hst 3 c ltac:(lia) E3) as (_&_&_&Fc). rewrite same_content by done.
    case_bool_decide as Ebc; [|apply (good_14 p st _ Hst); intros _ b' c' Eb Ec; congruence].
    assert (Hb : good3 p st (R ++ rest) (merged w b (s0 st) true) \/ none_or_same b (s0 st) = false).
    { destruct (none_or_same b (s0 st)) eqn:En; [left|by right]. apply (good_merged p st _ Hst 2); [lia|done| |left; split; by eexists|].
      - unfold merge_of, merge3. rewrite E1, E2, E3. cbn. rewrite !(bool_decide_false (None = _)) by done.
        rewrite bool_decide_true by (by f_equal). done.
      - intros old Ho. left. rewrite Ho in En. cbn in En. destruct (stage0_ok p st Hst old Ho) as (_&_&_&Fo).
        rewrite same_content in En by done. apply bool_decide_eq_true in En. congruence. }
    destruct (none_or_same b (s0 st)) eqn:En; [by destruct Hb|].
    left. split; [|by left]. destruct (s0 st) as [old|] eqn:E0; [|done]. exists old. split; [done|]. intros [Hc _].
    destruct (stage0_ok p st Hst old E0) as (_&_&_&Fo). cbn in En. rewrite same_content in En by done. apply bool_decide_eq_false in En.
    rewrite E2 in Hc. apply (inj Some) in Hc. congruence.
  - apply (good_one p st _ Hst 2 b); [intros _ b' c' Eb Ec; congruence|by left|done|done|done].
  - apply (good_one p st _ Hst 3 c); [intros _ b' c' Eb Ec; congruence|by right|done|done|done].
  - apply (good_14 p st _ Hst). intros _ b c Eb. congruence.
Qed.

Lemma settle_all l : Forall (fun e => ce_wf e /\ fields_ok e) l -> live (map settle l) = l.
Proof.
  induction 1 as [|e l [Hw [Hm _]] _ IH]; [done|]. cbn [map]. unfold live in *. rewrite settle_wf by done.
  rewrite filter_cons_True by done. by rewrite IH.
Qed.

Lemma stages3_elem st p e : stage_ok p st -> e ∈ stages3 st -> exists k, 1 <= k < 4 /\ get_stage st k = Some e.
Proof.
  intros _ He. unfold stages3 in He. apply list_elem_of_omap in He as ([x|]&Hx&[= ->]).
  rewrite !elem_of_cons in Hx. destruct Hx as [H|[H|[H|H%elem_of_nil]]]; [exists 1|exists 2|exists 3|done]; by (split; [lia|]).
Qed.

Lemma stages3_ok st p : stage_ok p st -> Forall (fun e => ce_name e = p) (stages3 st) /\ index_ok (stages3 st) /\
  live (map settle (stages3 st)) = stages3 st.
Proof.
  intros Hst.
  assert (Hall : Forall (fun e => ce_name e = p /\ ce_wf e /\ fields_ok e) (stages3 st)).
  { apply Forall_forall. intros e He. destruct (stages3_elem st p e Hst He) as (k&Hk&Hg).
    destruct (Hst k e ltac:(lia) Hg) as (?&_&?&?). done. }
  split; [eapply Forall_impl; [exact Hall|]; by intros e (?&_)|]. split.
  - split; [eapply Forall_impl; [exact Hall|]; by intros e (_&?&_)|]. clear Hall.
    assert (Hlt : forall j k a b, 0 <= j < k -> k < 4 -> get_stage st j = Some a -> get_stage st k = Some b -> ce_lt a b).
    { intros j k a b Hj Hk Ha Hb. destruct (Hst j a ltac:(lia) Ha) as (Na&Sa&Wa&_), (Hst k b ltac:(lia) Hb) as (Nb&Sb&Wb&_).
      unfold ce_lt, kcmp, ce_key. cbn [fst snd]. rewrite Na, Nb, lexcmp_refl. cbn [Z.eqb].
      rewrite (wf_flags a Wa), (wf_flags b Wb), Na, Nb, Sa, Sb. destruct (Z.ltb_spec (Z.of_nat (length p) + 4096 * j) (Z.of_nat (length p) + 4096 * k)); lia. }
    unfold stages3. pose proof (Hlt 1 2) as H12. pose proof (Hlt 1 3) as H13. pose proof (Hlt 2 3) as H23. cbn in H12, H13, H23.
    destruct (s1 st) as [a|], (s2 st) as [b|], (s3 st) as [c|]; cbn;
      repeat first [apply SSorted_nil|apply SSorted_cons|apply Forall_nil_2|apply Forall_cons_2]; first [by apply H12|by apply H13|by apply H23].
  - apply settle_all. eapply Forall_impl; [exact Hall|]. by intros e (_&?&?).
Qed.

(** What [merge_cache] leaves of a path: [E] are its entries. *)
Definition path_result (st : stages) (E : list cache_entry) : Prop :=
  kept st E \/
  exists m, E = [m] /\ ce_stage m = 0 /\ merge_of st = Some (Some (content m)) /\
    forall old, s0 st = Some old -> m = old \/ unchanged st old.

Lemma good3_result p st l ws : stage_ok p st -> resolved p st l ws \/ kept st ws ->
  Forall (fun e => ce_name e = p) ws /\ index_ok (live (map settle ws)) /\ path_result st (live (map settle ws)).
Proof.
  intros Hst [(m&Hl&Hn&Hw&Hs&_&Hm&Ho&_)|Hk].
  - rewrite Hl. split; [done|]. split; [split; [by apply Forall_singleton|repeat constructor]|]. right. by exists m.
  - destruct (stages3_ok st p Hst) as (Hn&Hok&Hl). pose proof Hk as [-> _]. rewrite Hl. split; [done|]. split; [done|]. by left.
Qed.

End ThreeWay.

(** C7. three-tree merges resolve what three-way merging resolves, and lose
    nothing: for an index in order with the trees at stages 1, 2 and 3,
    [merge_cache] with [threeway_merge] ends without undefined behaviour.  It
    dies only when some entry of the index is not what our branch (stage 2)
    has, or its file was modified.  Otherwise every path either keeps its three
    stages as they were, which happens with both branches present only when
    they conflict, or becomes one merged entry, whose mode and object are those
    of the three-way merge; an entry of the index is then that entry itself, or
    it was unmodified from our branch. *)
Theorem threeway_merge_spec {W} {FS : FileSystem W} {D} {DB : ObjectDB D} (db : D) (w : W) (i : index) :
  index_ok (active_cache i) -> Forall fields_ok (active_cache i) -> active_nr i < active_alloc i ->
  let st := path_stages (active_cache i) in
  (merge_cache w db false i (threeway_merge w) = Some Die /\ exists p, refused w (st p)) \/
  (exists i', merge_cache w db false i (threeway_merge w) = io_ret (i', w) /\ index_ok (live (active_cache i')) /\
    forall p, path_result w (st p) (entries_at (live (active_cache i')) p)).
Proof.
  intros Hok Hf Hal st.
  assert (Hst : forall p, stage_ok p (st p)) by (intros p; by apply path_stages_ok).
  destruct (merge_cache_walk db w _ _ i (fun p ws => path_result w (st p) (live (map settle ws)))
    (fun p => refused w (st p)) (fun _ _ => True) (threeway_implements w) Hok Hal Logic.I) as [[E Hp]|(R&->&Hlive&_&Hl)].
  - intros p before g rest R Hp _ _. rewrite (path_at_stages _ _ _ _ _ Hp). fold (st p).
    destruct (threeway_path w R rest (st p) p (Hst p)) as [Hbad|(ws&Hr&Hg)]; [by left|right]. exists ws.
    destruct (good3_result w p (st p) _ ws (Hst p) Hg) as (?&?&?). by split_and!.
  - left. by split.
  - right. eexists. split; [done|]. split; [exact Hlive|]. intros p. cbn [active_cache]. rewrite live_settle_entries_at.
    destruct (decide (Exists (fun d => ce_name d = p) (active_cache i))) as [Hex|Hno].
    + apply Exists_exists in Hex. by apply (proj1 (Hl p)).
    + assert (Hno' : forall d, d ∈ active_cache i -> ce_name d <> p) by (intros d Hd E; apply Hno, Exists_exists; eauto).
      rewrite (proj2 (Hl p) Hno'). unfold st. rewrite path_stages_none by done. left. split; [done|]. split; [by intros [? [=]]|by intros ? [=]].
Qed.

(** ** Directory/file conflicts *)

Definition clash (p q : bytes) : Prop := under p q \/ under q p.

Lemma df_clash_spec path e : ce_namelen e = Z.of_nat (length (ce_name e)) ->
  df_clash path (Z.of_nat (length path)) e = true <-> clash path (ce_name e).
Proof.
  intros He. unfold df_clash, clash. rewrite He, !under_iff.
  destruct (Z.eqb_spec (Z.of_nat (length path)) (Z.of_nat (length (ce_name e)))); [split; [done|lia]|].
  assert (Hgo : forall a b : bytes, (length a < length b)%nat ->
    (if negb (memcmp (Z.to_nat (Z.of_nat (length a))) a b =? 0) then false else name_char b (Z.to_nat (Z.of_nat (length a))) =? 47) = true <->
    (length a < length b)%nat /\ a `prefix_of` b /\ name_char b (length a) = 47).
  { intros a b Hab. rewrite Nat2Z.id. pose proof (memcmp_prefix a b ltac:(lia)) as Hm.
    destruct (Z.eqb_spec (memcmp (length a) a b) 0) as [E|E]; cbn [negb]; rewrite ?Z.eqb_eq; [tauto|]. split; [done|]. tauto. }
  destruct (Z.ltb_spec (Z.of_nat (length path)) (Z.of_nat (length (ce_name e)))).
  - rewrite Hgo by lia. split; [by left|]. intros [|[? _]]; [done|lia].
  - rewrite Hgo by lia. split; [by right|]. intros [[? _]|]; [lia|done].
Qed.

Section NoConflict.
Context (cache : list cache_entry) (Hok : index_ok cache) (Hdf : df_ok cache).

(** Tree [k] has the path [p]. *)
Definition has_path (k : Z) (p : bytes) : Prop := exists x, x ∈ cache /\ ce_stage x = k /\ ce_name x = p.

(** None of the entries [l] of tree [k] is in the way of [p]. *)
Definition free_in (l : list cache_entry) (k : Z) (p : bytes) : Prop := forall x, x ∈ l -> ce_stage x = k -> ~ clash p (ce_name x).

(** Where a merged entry comes from; [l] are the entries not yet read. *)
Definition source (l : list cache_entry) (p : bytes) : Prop :=
  (has_path 2 p /\ has_path 3 p) \/ (has_path 3 p /\ free_in l 2 p) \/ (has_path 2 p /\ free_in l 3 p).

Definition conflict_free (before R : list cache_entry) : Prop :=
  (forall e, e ∈ R -> ce_stage e <> 0 -> e ∈ cache) /\ df_ok R /\
  forall rest e, cache = before ++ rest -> e ∈ R -> ce_stage e = 0 -> source rest (ce_name e).

Lemma has_path_clash k p q : has_path k p -> has_path k q -> ~ clash p q.
Proof. intros (x&Hx&Sx&<-) (y&Hy&Sy&<-) [Hu|Hu]; [apply (Hdf x y Hx Hy)|apply (Hdf y x Hy Hx)]; (split; [congruence|done]). Qed.

Lemma under_irrefl p : ~ under p p.
Proof. rewrite under_iff. lia. Qed.

Lemma source_weaken l k p : (forall x, x ∈ k -> x ∈ l) -> source l p -> source k p.
Proof. unfold source, free_in. intros Hlk [?|[[? ?]|[? ?]]]; [by left|right; left; eauto|right; right; eauto]. Qed.

(** Two merged paths do not conflict: [q], not yet read when [p] was merged. *)
Lemma sources_apart l l' p q : source l p -> source l' q ->
  (forall k x, x ∈ cache -> ce_stage x = k -> ce_name x = q -> x ∈ l) -> ~ clash p q.
Proof.
  intros Hp Hq Hin.
  assert (Hfree : forall k, free_in l k p -> has_path k q -> ~ clash p q).
  { intros k Hf (x&Hx&Sx&<-). apply Hf; [|done]. by apply (Hin k). }
  destruct Hp as [[P2 P3]|[[P3 Pf]|[P2 Pf]]], Hq as [[Q2 Q3]|[[Q3 Qf]|[Q2 Qf]]];
    first [by apply (has_path_clash 2)|by apply (has_path_clash 3)|by apply (Hfree 2)|by apply (Hfree 3)].
Qed.

Lemma conflict_free_step p before g rest R L : path_at cache p before g rest -> conflict_free before R ->
  (forall e, e ∈ R -> ce_name e <> p) -> Forall (fun e => ce_name e = p) L ->
  ((forall e, e ∈ L -> e ∈ cache /\ ce_stage e <> 0) \/ (exists m, L = [m] /\ ce_stage m = 0 /\ source rest p)) ->
  conflict_free (before ++ g) (R ++ L).
Proof.
  intros [Ec _ _ Hb _] (HR&HdfR&Hsrc) HRp HL Hcase. rewrite Forall_forall in HL, Hb.
  assert (Hgin : forall k x, x ∈ cache -> ce_stage x = k -> ce_name x = p -> x ∈ g ++ rest).
  { intros k x Hx _ Hn. rewrite Ec in Hx. apply elem_of_app in Hx as [Hx|Hx]; [|done]. by apply Hb, lexcmp_lt_ne in Hx. }
  assert (Hcross : forall x y, x ∈ R -> y ∈ L -> ce_stage x = ce_stage y -> ~ clash (ce_name x) (ce_name y)).
  { intros x y Hx Hy Sxy. destruct Hcase as [Hk|(m&->&Sm&Hm)].
    - destruct (Hk y Hy) as [Hyc Sy]. apply (has_path_clash (ce_stage y)); [|by exists y]. exists x. split; [|done]. apply HR; [done|congruence].
    - apply list_elem_of_singleton in Hy as ->. rewrite (HL m) by (by apply list_elem_of_singleton).
      apply (sources_apart (g ++ rest) rest); [|done|done]. apply Hsrc; [done|done|congruence]. }
  split; [|split].
  - intros e [He|He]%elem_of_app Se; [by apply HR|]. destruct Hcase as [Hk|(m&->&Sm&_)]; [by apply Hk|].
    apply list_elem_of_singleton in He as ->. done.
  - intros x y [Hx|Hx]%elem_of_app [Hy|Hy]%elem_of_app [Sxy Hu].
    + by apply (HdfR x y).
    + apply (Hcross x y); [done|done|congruence|by left].
    + apply (Hcross y x); [done|done|congruence|by right].
    + rewrite (HL x Hx), (HL y Hy) in Hu. by apply under_irrefl in Hu.
  - intros rest' e E He Se. rewrite Ec, <- app_assoc in E. apply app_inv_head, app_inv_head in E as <-.
    apply elem_of_app in He as [He|He].
    + apply (source_weaken (g ++ rest)); [intros x Hx; apply elem_of_app; by right|]. by apply Hsrc.
    + destruct Hcase as [Hk|(m&->&_&Hm)]; [by destruct (Hk e He)|]. apply list_elem_of_singleton in He as ->.
      rewrite (HL m) by (by apply list_elem_of_singleton). done.
Qed.

(** What [no_obstacle] says about the entries not yet read. *)
Lemma no_obstacle_source p before g rest R : path_at cache p before g rest ->
  no_obstacle (R ++ rest) (path_stages cache p) -> source rest p.
Proof.
  intros Hp Hno. pose proof (proj1 Hok) as Hwf. rewrite Forall_forall in Hwf.
  assert (Hst : forall k e, 0 <= k < 4 -> get_stage (path_stages cache p) k = Some e -> e ∈ cache /\ ce_name e = p /\ ce_stage e = k)
    by (intros k e Hk; by apply path_stages_spec).
  assert (Hhas : forall k e, 0 <= k < 4 -> get_stage (path_stages cache p) k = Some e -> has_path k p).
  { intros k e Hk He. destruct (Hst k e Hk He) as (?&?&?). by exists e. }
  assert (Hfree : forall k e, 0 <= k < 4 -> get_stage (path_stages cache p) k = Some e ->
    forall j, df_conflict (R ++ rest) e j = false -> free_in rest j p).
  { intros k e Hk He j Hdfc x Hx Sx Hc. destruct (Hst k e Hk He) as (Hec&Ne&_).
    unfold df_conflict in Hdfc. rewrite existsb_app in Hdfc. apply orb_false_iff in Hdfc as [_ Hdfc].
    enough (existsb (fun x => (ce_stage x =? j) && df_clash (ce_name e) (ce_namelen e) x) rest = true) by congruence.
    apply existsb_exists. exists x. split; [by apply list_elem_of_In|]. rewrite Sx, Z.eqb_refl, (wf_namelen e) by auto.
    cbn [andb]. apply df_clash_spec; [|by rewrite Ne]. apply wf_namelen, Hwf. rewrite (pa_split _ _ _ _ _ Hp), !elem_of_app. by right; right. }
  destruct Hno as [[[b Eb] [c Ec]]|[(c&Ec&Hc)|(b&Eb&Hb)]].
  - left. split; [by apply (Hhas 2 b); [lia|]|by apply (Hhas 3 c); [lia|]].
  - right. left. split; [by apply (Hhas 3 c); [lia|]|by apply (Hfree 3 c ltac:(lia) Ec)].
  - right. right. split; [by apply (Hhas 2 b); [lia|]|by apply (Hfree 2 b ltac:(lia) Eb)].
Qed.

End NoConflict.

(** C9. three-tree merges make no directory/file conflicts: when the entries of
    no stage conflict among themselves, neither do those of the merged index,
    at any stage; in particular not the merged ones, although they may come
    from either branch and the check in [causes_df_conflict] looks only at what
    is unmerged or still to come. *)
Theorem threeway_no_conflicts {W} {FS : FileSystem W} {D} {DB : ObjectDB D} (db : D) (w : W) (i i' : index) :
  index_ok (active_cache i) -> Forall fields_ok (active_cache i) -> df_ok (active_cache i) -> active_nr i < active_alloc i ->
  merge_cache w db false i (threeway_merge w) = io_ret (i', w) -> df_ok (live (active_cache i')).
Proof.
  intros Hok Hf Hdf Hal Hm. set (st := path_stages (active_cache i)).
  assert (Hst : forall p, stage_ok p (st p)) by (intros p; by apply path_stages_ok).
  destruct (merge_cache_walk db w _ _ i (fun _ _ => True) (fun _ => True)
    (fun before R => conflict_free (active_cache i) before (live (map settle R))) (threeway_implements w) Hok Hal) as [[E _]|(R&E&_&HI&_)].
  - split; [by intros e ?%elem_of_nil|]. split; [by intros x y ?%elem_of_nil|by intros rest e _ ?%elem_of_nil].
  - intros p before g rest R Hp Ho HI. rewrite (path_at_stages _ _ _ _ _ Hp). fold (st p).
    destruct (threeway_path w R rest (st p) p (Hst p)) as [[_ Hbad]|(ws&Hr&Hg)]; [by left|right]. exists ws.
    destruct (good3_result w p (st p) _ ws (Hst p) Hg) as (Hn&Hl&_). split_and!; try done.
    rewrite map_app, live_app. apply (conflict_free_step _ Hdf p before g rest); [done|done| | |].
    + intros e He. apply live_settle_name in He as (x&Hx&<-). destruct Ho as [_ Hsrc]. destruct (Hsrc x Hx) as (d&Hd&<-).
      destruct Hp as [_ _ _ Hb _]. rewrite Forall_forall in Hb. by apply lexcmp_lt_ne, Hb.
    + apply Forall_forall. intros e He. apply live_settle_name in He as (x&Hx&<-). rewrite Forall_forall in Hn. by apply Hn.
    + destruct Hg as [(m&Hlm&_&_&Sm&_&_&_&Hno)|Hk].
      * right. exists m. split; [done|]. split; [done|]. by apply (no_obstacle_source _ Hok p before g rest R).
      * left. destruct (stages3_ok (st p) p (Hst p)) as (_&_&Hl3). destruct Hk as [-> _]. rewrite Hl3. intros e He.
        destruct (stages3_elem (st p) p e (Hst p) He) as (k&Hk&Hge). apply path_stages_spec in Hge as (?&_&?); [|done|lia].
        split; [done|lia].
  - rewrite E in Hm. discriminate Hm.
  - rewrite E in Hm. injection Hm as <-. apply HI.
Qed.

Module ThreeDemo.
Import ReadTreeDemo.

(** Resolved: [a] changed by them, [b] added by both, [e] added by them; left
    alone: [c], changed by both, and [d] and [d/x], in each other's way. *)
Definition three : list cache_entry :=
  [entry "a" 0 1; entry "a" 1 1; entry "a" 2 1; entry "a" 3 2; entry "b" 2 3; entry "b" 3 3;
   entry "c" 1 1; entry "c" 2 2; entry "c" 3 3; entry "d" 2 4; entry "d/x" 3 5; entry "e" 3 6].

Definition merged : list cache_entry :=
  [entry "a" 0 2; entry "b" 0 3; entry "c" 1 1; entry "c" 2 2; entry "c" 3 3; entry "d" 2 4; entry "d/x" 3 5; entry "e" 0 6].

Lemma three_ok : index_ok three /\ Forall fields_ok three /\ df_ok three.
Proof.
  split; [apply (bool_decide_unpack _); vm_compute; exact Logic.I|]. split; [repeat (constructor; [split; [discriminate|reflexivity]|]); constructor|].
  assert (Hd : Forall (fun p => Forall (fun q => ~ below p q) three) three) by (apply (bool_decide_unpack _); vm_compute; exact Logic.I).
  intros p q Hp Hq. rewrite Forall_forall in Hd. specialize (Hd p Hp). rewrite Forall_forall in Hd. by apply Hd.
Qed.

End ThreeDemo.

Lemma threeway_merge_spec_witness :
  exists i', merge_cache (DB := ReadTreeDemo.db_one) ReadTreeDemo.no_files tt false (ReadTreeDemo.index_of ThreeDemo.three)
      (threeway_merge ReadTreeDemo.no_files) = io_ret (i', ReadTreeDemo.no_files) /\
    live (active_cache i') = ThreeDemo.merged /\
    path_result ReadTreeDemo.no_files (path_stages ThreeDemo.three (str "c")) (entries_at (live (active_cache i')) (str "c")).
Proof.
  destruct (threeway_merge_spec (DB := ReadTreeDemo.db_one) tt ReadTreeDemo.no_files (ReadTreeDemo.index_of ThreeDemo.three))
    as [(E&_)|(i'&E&_&H)]; [apply ThreeDemo.three_ok|apply ThreeDemo.three_ok|vm_compute; reflexivity|vm_compute in E; discriminate E|].
  exists i'. split; [exact E|]. split; [|apply H]. vm_compute in E. injection E as <-. vm_compute. reflexivity.
Defined.

Lemma threeway_no_conflicts_witness : df_ok ThreeDemo.merged.
Proof.
  destruct (merge_cache (DB := ReadTreeDemo.db_one) ReadTreeDemo.no_files tt false (ReadTreeDemo.index_of ThreeDemo.three)
      (threeway_merge ReadTreeDemo.no_files)) as [[[i' w']| |]|] eqn:E; try (vm_compute in E; discriminate E).
  assert (Ew : w' = ReadTreeDemo.no_files /\ live (active_cache i') = ThreeDemo.merged)
    by (vm_compute in E; injection E as <- <-; split; vm_compute; reflexivity).
  destruct Ew as [-> Ei]. rewrite <- Ei.
  apply (threeway_no_conflicts (DB := ReadTreeDemo.db_one) tt ReadTreeDemo.no_files (ReadTreeDemo.index_of ThreeDemo.three) i');
    [apply ThreeDemo.three_ok|apply ThreeDemo.three_ok|apply ThreeDemo.three_ok|vm_compute; reflexivity|exact E].
Defined.
