(* ===== verification/LockFile.v ===== *)
(** * Processes that share a directory

    What refs.c and index.c do, they do through a few system calls, and other
    processes may run between any two of them.  [proc] is a program as the
    sequence of its calls, [disk] a directory with its files, [exec] what a
    call may answer and do, [step] one call of one of the processes.  Names and
    files are apart: a descriptor leads to its file whatever has become of the
    name it was opened by. *)

From stdpp Require Import base list numbers strings gmap relations.
From Stdlib Require Import ZArith Lia.
From S2P Require Import Prelude.

(** ** System calls *)

Record disk := { names : gmap bytes nat; inodes : list bytes }.

(** [OpenExcl] is [open] with [O_CREAT | O_EXCL], [OpenRead] with [O_RDONLY];
    the descriptor [None] is -1. *)
Inductive call :=
| OpenExcl (path : bytes)
| OpenRead (path : bytes)
| Read (fd : nat) (n : nat)
| Write (fd : option nat) (buf : bytes)
| Close (fd : option nat)
| Unlink (path : bytes)
| Rename (old new : bytes).

Inductive reply := Err | Fd (fd : nat) | Num (n : nat) | Data (buf : bytes) | Fine.

Definition contents (d : disk) (i : nat) : bytes := default [] (inodes d !! i).
Definition file_at (d : disk) (path : bytes) : option bytes := contents d <$> names d !! path.

Definition create (d : disk) (path : bytes) : disk :=
  {| names := <[path := length (inodes d)]> (names d); inodes := inodes d ++ [[]] |}.
Definition append_to (d : disk) (i : nat) (buf : bytes) : disk :=
  {| names := names d; inodes := alter (fun c => c ++ buf) i (inodes d) |}.
Definition remove_name (d : disk) (path : bytes) : disk := {| names := delete path (names d); inodes := inodes d |}.
Definition move_name (d : disk) (old new : bytes) (i : nat) : disk :=
  {| names := <[new := i]> (delete old (names d)); inodes := inodes d |}.

(** Every call may fail and leave everything as it was; reads and writes may
    be partial. *)
Inductive exec : disk -> call -> reply -> disk -> Prop :=
| exec_fail d c : exec d c Err d
| exec_create d p : names d !! p = None -> exec d (OpenExcl p) (Fd (length (inodes d))) (create d p)
| exec_open d p i : names d !! p = Some i -> exec d (OpenRead p) (Fd i) d
| exec_read d i n k : (k <= n)%nat -> exec d (Read i n) (Data (take k (contents d i))) d
| exec_write d i buf k : (k <= length buf)%nat -> exec d (Write (Some i) buf) (Num k) (append_to d i (take k buf))
| exec_close d fd : exec d (Close fd) Fine d
| exec_unlink d p : is_Some (names d !! p) -> exec d (Unlink p) Fine (remove_name d p)
| exec_rename d a b i : names d !! a = Some i -> exec d (Rename a b) Fine (move_name d a b i).

(** ** Programs *)

Inductive proc (A : Type) :=
| Done (a : A)
| Call (c : call) (k : reply -> proc A).
Arguments Done {A} a.
Arguments Call {A} c k.

#[export] Instance proc_ret : MRet proc := @Done.

Fixpoint proc_bind_ {A B} (f : A -> proc B) (p : proc A) : proc B :=
  match p with
  | Done a => f a
  | Call c k => Call c (fun r => proc_bind_ f (k r))
  end.

#[export] Instance proc_bind : MBind proc := fun A B f p => proc_bind_ f p.

(** One call whose answer is dropped. *)
Definition do_call {A} (c : call) (p : proc A) : proc A := Call c (fun _ => p).

(** ** Systems *)

Abbreviation system := (disk * list (proc Z))%type.

Inductive step : system -> system -> Prop :=
| step_call d ps i c k r d' : ps !! i = Some (Call c k) -> exec d c r d' -> step (d, ps) (d', <[i := k r]> ps).

(** An invariant of [step] holds in every reachable state. *)
Lemma reachable_invariant (I : system -> Prop) s s' :
  (forall a b, I a -> step a b -> I b) -> I s -> rtc step s s' -> I s'.
Proof. intros Hs Hi. induction 1 as [|a b c Hab _ IH]; [done|]. by eapply IH, Hs. Qed.

(** ** What a call leaves alone *)

Lemma file_at_create d p q : p <> q -> (forall i, names d !! q = Some i -> (i < length (inodes d))%nat) ->
  file_at (create d p) q = file_at d q.
Proof.
  intros Hpq Hi. unfold file_at, create, contents. cbn [names inodes]. rewrite lookup_insert_ne by done.
  destruct (names d !! q) as [i|] eqn:E; [|done]. cbn. by rewrite lookup_app_l by (by apply Hi).
Qed.

Lemma contents_append_ne d i j buf : i <> j -> contents (append_to d i buf) j = contents d j.
Proof. intros H. unfold contents, append_to. cbn [inodes]. by rewrite list_lookup_alter_ne. Qed.

Lemma contents_append d i buf : (i < length (inodes d))%nat -> contents (append_to d i buf) i = contents d i ++ buf.
Proof.
  intros Hi. unfold contents, append_to. cbn [inodes]. rewrite list_lookup_alter_eq.
  destruct (lookup_lt_is_Some_2 _ _ Hi) as [c ->]. done.
Qed.

Lemma file_at_append_ne d i q buf : names d !! q <> Some i -> file_at (append_to d i buf) q = file_at d q.
Proof.
  intros Hq. unfold file_at. change (names (append_to d i buf)) with (names d). destruct (names d !! q) as [j|]; [|done].
  cbn. rewrite contents_append_ne; [done|congruence].
Qed.

Lemma file_at_remove_ne d p q : p <> q -> file_at (remove_name d p) q = file_at d q.
Proof. intros H. unfold file_at, remove_name. cbn [names]. by rewrite lookup_delete_ne. Qed.

(** Every name leads to a file. *)
Definition disk_ok (d : disk) : Prop := forall p i, names d !! p = Some i -> (i < length (inodes d))%nat.

Lemma exec_ok d c r d' : disk_ok d -> exec d c r d' -> disk_ok d'.
Proof.
  intros Hd He. destruct He; try done; intros q j; cbn.
  - rewrite length_app. cbn. destruct (decide (p = q)) as [->|]; [rewrite lookup_insert_eq; intros [= <-]; lia|].
    rewrite lookup_insert_ne by done. intros Hq. specialize (Hd q j Hq). lia.
  - rewrite length_alter. apply Hd.
  - rewrite lookup_delete_Some. intros [_ Hq]. by eapply Hd.
  - destruct (decide (b = q)) as [->|]; [rewrite lookup_insert_eq; intros [= <-]; by eapply Hd|].
    rewrite lookup_insert_ne, lookup_delete_Some by done. intros [_ Hq]. by eapply Hd.
Qed.

(** ** Running a schedule

    [play] lets the processes of a list make their next call, which is answered
    in full, or, where the flag is [false], fails. *)

Definition answer (ok : bool) (d : disk) (c : call) : reply * disk :=
  if negb ok then (Err, d)
  else
    match c with
    | OpenExcl p => match names d !! p with None => (Fd (length (inodes d)), create d p) | Some _ => (Err, d) end
    | OpenRead p => match names d !! p with Some i => (Fd i, d) | None => (Err, d) end
    | Read i n => (Data (take n (contents d i)), d)
    | Write (Some i) buf => (Num (length buf), append_to d i buf)
    | Write None _ => (Err, d)
    | Close _ => (Fine, d)
    | Unlink p => match names d !! p with Some _ => (Fine, remove_name d p) | None => (Err, d) end
    | Rename a b => match names d !! a with Some i => (Fine, move_name d a b i) | None => (Err, d) end
    end.

Definition play1 (s : system) (x : nat * bool) : system :=
  match s.2 !! x.1 with
  | Some (Call c k) => let (r, d') := answer x.2 s.1 c in (d', <[x.1 := k r]> s.2)
  | _ => s
  end.

Definition play (schedule : list (nat * bool)) (s : system) : system := foldl play1 s schedule.

Lemma answer_exec ok d c : exec d c (answer ok d c).1 (answer ok d c).2.
Proof.
  unfold answer. destruct ok; cbn [negb]; [|constructor].
  destruct c as [p|p|i n|[i|] buf|fd|p|a b]; try (destruct (names d !! _) eqn:E); cbn; try (constructor; eauto; done).
  pose proof (exec_write d i buf (length buf) (le_n _)) as H. by rewrite firstn_all in H.
Qed.

Lemma play_steps schedule s : rtc step s (play schedule s).
Proof.
  revert s. induction schedule as [|[i ok] l IH]; intros [d ps]; [done|]. cbn. etrans; [|apply IH].
  unfold play1. cbn. destruct (ps !! i) as [[|c k]|] eqn:E; [done| |done].
  pose proof (answer_exec ok d c) as Ha. destruct (answer ok d c) as [r d']. cbn in Ha.
  apply rtc_once. by econstructor.
Qed.
