(* ===== verification/Refs.v ===== *)
(** * References (refs.c)

    A reference is a file with a name in hexadecimal and a newline.  It is
    changed under a lock, a file created exclusively, by writing the lock and
    renaming it over the reference.  The functions are programs of LockFile.v.
    [get_refs_directory] is a parameter. *)

From stdpp Require Import base list numbers strings gmap relations.
From Stdlib Require Import ZArith Lia.
From S2P Require Import Prelude.
From S2P Require Import Hex.
From S2P Require Import CString.
From S2P Require Import CacheEntry.
From S2P Require Import ObjectDB.
From S2P Require Import LockFile.

Section Refs.
Context (refs_directory : bytes).

(** ** Code *)

(** [ref] is a string without NUL. *)
Definition check_ref_format (ref : bytes) : Z :=
  if (name_char ref 0 =? 46) || (name_char ref 0 =? 47) then -1
  else
    match strchr ref 47 with
    | None => -1
    | Some middle =>
        if name_char ref (S middle) =? 0 then -1
        else match strchr (drop (S middle) ref) 47 with Some _ => -1 | None => 0 end
    end.

Definition ref_file_name (ref : bytes) : bytes := refs_directory ++ 47 :: ref.
Definition ref_lock_file_name (ref : bytes) : bytes := refs_directory ++ 47 :: ref ++ str ".lock".

(** What [read_ref_file] makes of the 41 bytes it asks for. *)
Definition hex_line (hex : bytes) : option bytes :=
  if (length hex <? 41)%nat then None
  else if negb (name_char hex 40 =? 10) then None
  else match get_sha1_hex hex with Ret (r, sha1) => if r =? 0 then Some sha1 else None | _ => None end.

(** [None] is -1. *)
Definition read_ref_opened (fd : nat) : proc (option bytes) :=
  Call (Read fd 41) (fun r =>
    do_call (Close (Some fd)) (Done (match r with Data hex => hex_line hex | _ => None end))).

Definition read_ref_file (filename : bytes) : proc (option bytes) :=
  Call (OpenRead filename) (fun r => match r with Fd fd => read_ref_opened fd | _ => Done None end).

Definition get_ref_sha1 (ref : bytes) : proc (option bytes) :=
  if negb (check_ref_format ref =? 0) then Done None else read_ref_file (ref_file_name ref).

(** [close(fd); unlink(lock_filename); return error(...)]. *)
Definition drop_lock (lock_filename : bytes) (fd : nat) : proc (option nat) :=
  do_call (Close (Some fd)) (do_call (Unlink lock_filename) (Done None)).

(** [lock_ref_file] once the current value is read; the result is the
    descriptor, or [None] for -1. *)
Definition lock_decide (lock_filename : bytes) (fd : nat) (old_sha1 current : option bytes) : proc (option nat) :=
  match old_sha1, current with
  | Some _, None => drop_lock lock_filename fd
  | Some old, Some cur => if negb (memcmp 20 cur old =? 0) then drop_lock lock_filename fd else Done (Some fd)
  | None, Some _ => drop_lock lock_filename fd
  | None, None => Done (Some fd)
  end.

Definition lock_ref_locked (filename lock_filename : bytes) (old_sha1 : option bytes) (fd : nat) : proc (option nat) :=
  current ← read_ref_file filename; lock_decide lock_filename fd old_sha1 current.

Definition lock_ref_file (filename lock_filename : bytes) (old_sha1 : option bytes) : proc (option nat) :=
  Call (OpenExcl lock_filename) (fun r =>
    match r with Fd fd => lock_ref_locked filename lock_filename old_sha1 fd | _ => Done None end).

Definition lock_ref_sha1 (ref : bytes) (old_sha1 : option bytes) : proc (option nat) :=
  if negb (check_ref_format ref =? 0) then Done None
  else lock_ref_file (ref_file_name ref) (ref_lock_file_name ref) old_sha1.

Definition written (r : reply) (n : nat) : bool := match r with Num k => negb (k <? n)%nat | _ => false end.

Definition write_fails (fd : option nat) : proc Z := do_call (Close fd) (Done (-1)).

(** From the second [write] and from the second [close] on. *)
Definition write_ref_close (filename lock_filename : bytes) (fd : option nat) : proc Z :=
  do_call (Close fd) (do_call (Rename lock_filename filename) (Done 0)).

Definition write_ref_term (filename lock_filename : bytes) (fd : option nat) : proc Z :=
  Call (Write fd [10]) (fun r => if written r 1 then write_ref_close filename lock_filename fd else write_fails fd).

Definition write_ref_file (filename lock_filename : bytes) (fd : option nat) (sha1 : bytes) : proc Z :=
  Call (Write fd (sha1_to_hex sha1)) (fun r =>
    if written r 40 then write_ref_term filename lock_filename fd else write_fails fd).

Definition write_ref_sha1 (ref : bytes) (fd : option nat) (sha1 : bytes) : proc Z :=
  match fd with
  | None => Done (-1)
  | Some _ =>
      if negb (check_ref_format ref =? 0) then Done (-1)
      else write_ref_file (ref_file_name ref) (ref_lock_file_name ref) fd sha1
  end.

(** When the lock cannot be opened, [write_ref_file] is called with -1. *)
Definition write_ref_sha1_unlocked (ref sha1 : bytes) : proc Z :=
  if negb (check_ref_format ref =? 0) then Done (-1)
  else
    Call (OpenExcl (ref_lock_file_name ref)) (fun r =>
      write_ref_file (ref_file_name ref) (ref_lock_file_name ref) (match r with Fd fd => Some fd | _ => None end) sha1).

(** The way pull.c uses them: lock with the value expected, then write. *)
Definition locked_write (ref new : bytes) (p : proc (option nat)) : proc Z :=
  fd ← p; match fd with None => Done (-1) | Some _ => write_ref_sha1 ref fd new end.

Definition update_ref (ref old new : bytes) : proc Z := locked_write ref new (lock_ref_sha1 ref (Some old)).

(** ** Reading a reference *)

Definition ref_line (v : bytes) : bytes := sha1_to_hex v ++ [10].

Lemma length_ref_line v : sha1_ok v -> length (ref_line v) = 41%nat.
Proof. intros [Hl _]. unfold ref_line. rewrite length_app, length_sha1_to_hex by done. done. Qed.

(** A part of the line is no value, the whole line is the one written. *)
Lemma hex_line_take v k : sha1_ok v -> hex_line (take k (ref_line v)) = None \/ hex_line (take k (ref_line v)) = Some v.
Proof.
  intros Hv. pose proof (length_ref_line v Hv) as Hl. destruct (decide (41 <= k)%nat) as [Hk|Hk].
  - right. rewrite take_ge by lia. unfold hex_line. rewrite Hl. cbn [Nat.ltb Nat.leb].
    destruct Hv as [Hv Hb]. pose proof (length_sha1_to_hex v Hv) as H40.
    unfold name_char, ref_line. rewrite lookup_app_r by lia. rewrite H40.
    by rewrite get_sha1_hex_roundtrip by done.
  - left. unfold hex_line. rewrite length_take, Hl. rewrite (proj2 (Nat.ltb_lt _ _)) by lia. done.
Qed.

Lemma memcmp_sha1 a b : sha1_ok a -> sha1_ok b -> memcmp 20 a b = 0 -> a = b.
Proof. intros [Ha _] [Hb _] H. apply memcmp_eq in H; [|lia..]. by rewrite !take_ge in H by lia. Qed.

Lemma ref_lock_neq ref : ref_file_name ref <> ref_lock_file_name ref.
Proof.
  unfold ref_file_name, ref_lock_file_name. intros H%(f_equal length). rewrite !length_app in H. cbn in H.
  rewrite length_app in H. cbn in H. lia.
Qed.

(** ** Updates by several processes *)

Section Updates.
Context (ref : bytes) (ups : list (bytes * bytes)).
Context (Href : check_ref_format ref = 0) (Hups : Forall (fun u => sha1_ok u.1 /\ sha1_ok u.2) ups).

Notation file := (ref_file_name ref).
Notation lock := (ref_lock_file_name ref).

(** [chain v order w]: the updates [order], one after the other, each expecting
    what the one before it wrote, lead from [v] to [w]. *)
Inductive chain : bytes -> list nat -> bytes -> Prop :=
| chain_nil v : chain v [] v
| chain_snoc v order i old new : chain v order old -> ups !! i = Some (old, new) -> chain v (order ++ [i]) new.

(** A process before it has the lock or after it is through. *)
Inductive idle (u : bytes * bytes) : proc Z -> Prop :=
| idle_start : idle u (update_ref ref u.1 u.2)
| idle_done r : idle u (Done r)
| idle_fails fd : idle u (write_fails fd).

Definition reading (u : bytes * bytes) (f : nat) (p : proc (option bytes)) : proc Z :=
  locked_write ref u.2 (current ← p; lock_decide lock f (Some u.1) current).

(** Where the process that has the lock [f] is. *)
Inductive phase :=
| Opening | Reading (j : nat) | ReadClosing (j : nat) (cur : option bytes) | GivingUp | Unlinking
| Writing | Terminating | Closing | Renaming.

Definition phase_code (u : bytes * bytes) (f : nat) (ph : phase) : proc Z :=
  match ph with
  | Opening => reading u f (read_ref_file file)
  | Reading j => reading u f (read_ref_opened j)
  | ReadClosing j cur => reading u f (do_call (Close (Some j)) (Done cur))
  | GivingUp => locked_write ref u.2 (drop_lock lock f)
  | Unlinking => locked_write ref u.2 (do_call (Unlink lock) (Done None))
  | Writing => write_ref_file file lock (Some f) u.2
  | Terminating => write_ref_term file lock (Some f)
  | Closing => write_ref_close file lock (Some f)
  | Renaming => do_call (Rename lock file) (Done 0)
  end.

(** What is so there, while the reference is [v]. *)
Definition phase_inv (d : disk) (f : nat) (v : bytes) (u : bytes * bytes) (ph : phase) : Prop :=
  match ph with
  | Opening => contents d f = []
  | Reading j => contents d f = [] /\ contents d j = ref_line v
  | ReadClosing _ cur => contents d f = [] /\ (cur = None \/ cur = Some v)
  | GivingUp | Unlinking => True
  | Writing => contents d f = [] /\ u.1 = v
  | Terminating => contents d f = sha1_to_hex u.2 /\ u.1 = v
  | Closing | Renaming => contents d f = ref_line u.2 /\ u.1 = v
  end.

Create HintDb refs.
#[local] Hint Constructors idle chain : refs.

(** What one call of the holder comes to: it goes on, or it is through and
    leaves the lock behind, or it has removed the lock, or it has put its value
    in place. *)
Inductive holder_after (d : disk) (f j : nat) (v : bytes) (u : bytes * bytes) : proc Z -> disk -> Prop :=
| after_on ph d' : names d' = names d -> contents d' j = contents d j -> phase_inv d' f v u ph ->
    holder_after d f j v u (phase_code u f ph) d'
| after_stale p d' : names d' = names d -> contents d' j = contents d j -> idle u p -> holder_after d f j v u p d'
| after_free : holder_after d f j v u (Done (-1)) (remove_name d lock)
| after_commit : u.1 = v -> contents d f = ref_line u.2 -> holder_after d f j v u (Done 0) (move_name d lock file f).

#[local] Arguments memcmp : simpl never.
#[local] Arguments lock_decide : simpl never.
#[local] Arguments sha1_to_hex : simpl never.
#[local] Arguments write_ref_sha1 : simpl never.

Lemma after_decide d f j v u cur :
  sha1_ok u.1 -> sha1_ok v -> contents d f = [] -> cur = None \/ cur = Some v ->
  holder_after d f j v u (locked_write ref u.2 (lock_decide lock f (Some u.1) cur)) d.
Proof.
  intros Hu Hv Hf [->| ->]; [by apply (after_on _ _ _ _ _ GivingUp)|].
  unfold lock_decide. destruct (Z.eqb_spec (memcmp 20 v u.1) 0) as [Em|Em]; [|by apply (after_on _ _ _ _ _ GivingUp)].
  apply memcmp_sha1 in Em as ->; [|done..]. cbn. unfold write_ref_sha1. rewrite Href. cbn.
  by apply (after_on _ _ _ _ _ Writing).
Qed.

Lemma after_write d f j v u n buf p q :
  (f < length (inodes d))%nat -> f <> j -> (n <= length buf)%nat ->
  holder_after d f j v u q (append_to d f (take n buf)) \/ (n < length buf)%nat ->
  p = (if written (Num n) (length buf) then q else write_fails (Some f)) ->
  holder_after d f j v u p (append_to d f (take n buf)).
Proof.
  intros Hf Hne Hn Hq ->. unfold written. destruct (Nat.ltb_spec n (length buf)); cbn [negb].
  - apply after_stale; [done|by apply contents_append_ne|constructor].
  - destruct Hq as [Hq|]; [done|lia].
Qed.

Lemma holder_step d f j v u ph c k r d' :
  sha1_ok u.1 -> sha1_ok v -> sha1_ok u.2 -> (f < length (inodes d))%nat ->
  names d !! lock = Some f -> names d !! file = Some j -> f <> j -> contents d j = ref_line v ->
  phase_inv d f v u ph -> phase_code u f ph = Call c k -> exec d c r d' -> holder_after d f j v u (k r) d'.
Proof.
  intros Hu1 Hv Hu2 Hf Hlk Hfl Hne Hj Hph Hc He. pose proof (length_sha1_to_hex u.2 (proj1 Hu2)) as H40.
  destruct ph; cbn in Hph, Hc; injection Hc as <- <-; inversion He; subst; cbn; simplify_eq.
  all: try (apply after_stale; [done..|constructor]).
  all: try by constructor.
  - by apply after_decide; auto.
  - by apply (after_on _ _ _ _ _ (Reading j)).
  - apply (after_on _ _ _ _ _ (ReadClosing _ None)); [done..|]. cbn. naive_solver.
  - apply (after_on _ _ _ _ _ (ReadClosing _ _)); [done..|]. destruct Hph as [? ->]. split; [done|]. by apply hex_line_take.
  - by apply after_decide; naive_solver.
  - by apply after_decide; naive_solver.
  - by apply (after_on _ _ _ _ _ Unlinking).
  - by apply (after_on _ _ _ _ _ Unlinking).
  - eapply (after_write _ _ _ _ _ _ (sha1_to_hex u.2)); [done..| |by rewrite H40].
    destruct (decide (k < 40)%nat); [right; lia|left]. apply (after_on _ _ _ _ _ Terminating); [done|by apply contents_append_ne|].
    cbn. rewrite contents_append, take_ge by lia. by destruct Hph as [-> ->].
  - eapply (after_write _ _ _ _ _ _ [10]); [done..| |done].
    destruct (decide (k < 1)%nat); [right; cbn; lia|left]. apply (after_on _ _ _ _ _ Closing); [done|by apply contents_append_ne|].
    cbn. rewrite contents_append, take_ge by (cbn in *; lia). by destruct Hph as [-> ->].
  - by apply (after_on _ _ _ _ _ Renaming).
  - by apply (after_on _ _ _ _ _ Renaming).
  - apply after_commit; naive_solver.
Qed.

Lemma idle_step d u c k r d' : idle u (Call c k) -> exec d c r d' ->
  (d' = d /\ idle u (k r) /\ k r <> Done 0) \/
  (names d !! lock = None /\ d' = create d lock /\ k r = phase_code u (length (inodes d)) Opening).
Proof.
  intros Hi He. inversion Hi as [E| |fd E]; clear Hi.
  - revert E. unfold update_ref, lock_ref_sha1. rewrite Href. cbn. intros [= <- <-]. inversion He; subst; cbn.
    + left. repeat split; [constructor|done].
    + by right.
  - subst. inversion He; subst; left; (repeat split; [constructor|done]).
Qed.

(** ** The invariant *)

Record base (v0 : bytes) (order : list nat) (v : bytes) (j : nat) (d : disk) (ps : list (proc Z)) : Prop := {
  base_disk : disk_ok d;
  base_length : length ps = length ups;
  base_order : NoDup order;
  base_chain : chain v0 order v;
  base_done : forall i, i ∈ order -> ps !! i = Some (Done 0);
  base_file : names d !! file = Some j;
  base_value : contents d j = ref_line v;
  base_ok : sha1_ok v }.

(** Every process but [ex] is idle; every process but [ex] that reports
    success is in [order]. *)
Definition quiet (ex : option nat) (ps : list (proc Z)) : Prop :=
  forall i u p, Some i <> ex -> ups !! i = Some u -> ps !! i = Some p -> idle u p.
Definition reports (ex : option nat) (order : list nat) (ps : list (proc Z)) : Prop :=
  forall i, Some i <> ex -> ps !! i = Some (Done 0) -> i ∈ order.

Inductive lock_state (order : list nat) (v : bytes) (j : nat) (d : disk) (ps : list (proc Z)) : Prop :=
| lock_free : names d !! lock = None -> quiet None ps -> reports None order ps -> lock_state order v j d ps
| lock_held h f u ph : names d !! lock = Some f -> f <> j -> ups !! h = Some u -> ps !! h = Some (phase_code u f ph) ->
    phase_inv d f v u ph -> quiet (Some h) ps -> reports (Some h) order ps -> lock_state order v j d ps
| lock_stale f : names d !! lock = Some f -> quiet None ps -> lock_state order v j d ps.

Definition inv (v0 : bytes) (s : system) : Prop :=
  exists order v j, base v0 order v j s.1 s.2 /\ lock_state order v j s.1 s.2.

Lemma base_call v0 order v j d ps i p q d' :
  ps !! i = Some p -> p <> Done 0 -> disk_ok d' ->
  names d' !! file = Some j -> contents d' j = contents d j ->
  base v0 order v j d ps -> base v0 order v j d' (<[i := q]> ps).
Proof.
  intros Hp Hn Hd Hf Hc [B1 B2 B3 B4 B5 B6 B7 B8]. split; try done; [by rewrite length_insert| |by rewrite Hc].
  intros m Hm. destruct (decide (i = m)) as [->|]; [|rewrite list_lookup_insert_ne by done; by apply B5].
  apply B5 in Hm. congruence.
Qed.

Lemma quiet_insert ex i p ps : quiet ex ps -> (forall u, ups !! i = Some u -> Some i <> ex -> idle u p) -> quiet ex (<[i := p]> ps).
Proof.
  intros Hq Hi m u q Hm Hu. destruct (decide (i = m)) as [<-|]; [|rewrite list_lookup_insert_ne by done; by apply Hq].
  rewrite list_lookup_insert_Some. intros [(_&<-&_)|[? _]]; [by apply Hi|done].
Qed.

Lemma quiet_weaken ex i p ps u : ups !! i = Some u -> idle u p -> ps !! i = Some p -> quiet (Some i) ps -> quiet ex ps.
Proof.
  intros Hu Hp Hi Hq m u' q Hm Hu' Hm'. destruct (decide (m = i)) as [->|]; [by simplify_eq|].
  apply (Hq m u' q); [congruence|done..].
Qed.

Lemma reports_insert ex i p order ps : reports ex order ps -> p <> Done 0 -> reports ex order (<[i := p]> ps).
Proof.
  intros Hr Hp m Hm. rewrite list_lookup_insert_Some. intros [(_&E&_)|[_ H]]; [congruence|]. by apply Hr.
Qed.

(** One call of a process, the lock being free, held by it or another, or left behind. *)
Lemma inv_idle v0 order v j d ps i u c k r d' ex :
  ups !! i = Some u -> ps !! i = Some (Call c k) -> idle u (Call c k) -> exec d c r d' ->
  base v0 order v j d ps -> quiet ex ps -> reports ex order ps \/ is_Some (names d !! lock) ->
  Some i <> ex -> ex = None \/ is_Some (names d !! lock) ->
  (d' = d /\ base v0 order v j d (<[i := k r]> ps) /\ quiet ex (<[i := k r]> ps) /\
    (reports ex order ps -> reports ex order (<[i := k r]> ps))) \/
  (ex = None /\ lock_state order v j d' (<[i := k r]> ps) /\ base v0 order v j d' (<[i := k r]> ps)).
Proof.
  intros Hu Hp Hi He Hb Hq Hrep Hex Hlk. pose proof (exec_ok _ _ _ _ (base_disk _ _ _ _ _ _ Hb) He) as Hd'.
  destruct (idle_step _ _ _ _ _ _ Hi He) as [(->&Hk&Hk0)|(Hnone&->&Hk)].
  - left. split; [done|]. split_and!; [by eapply base_call; eauto; apply Hb|apply quiet_insert; naive_solver|].
    intros H. by apply reports_insert.
  - right. rewrite Hnone in Hrep, Hlk. destruct Hrep as [Hrep|[? ?]]; [|done]. destruct Hlk as [->|[? ?]]; [|done].
    split; [done|]. pose proof (base_file _ _ _ _ _ _ Hb) as Hf. pose proof (base_disk _ _ _ _ _ _ Hb _ _ Hf) as Hj.
    pose proof (ref_lock_neq ref) as Hne. split.
    + rewrite Hk. apply (lock_held _ _ _ _ _ i (length (inodes d)) u Opening); try done.
      * apply lookup_insert_eq.
      * lia.
      * by eapply list_lookup_insert_eq, lookup_lt_Some.
      * cbn. unfold contents, create. cbn. by rewrite lookup_app_r, Nat.sub_diag by lia.
      * intros m w p Hm Hw. rewrite list_lookup_insert_ne by congruence. by apply Hq.
      * intros m Hm. rewrite list_lookup_insert_ne by congruence. by apply Hrep.
    + eapply base_call; [exact Hp|done|exact Hd'| | |exact Hb].
      * cbn. by rewrite lookup_insert_ne.
      * unfold contents, create. cbn. by rewrite lookup_app_l by lia.
Qed.

Lemma quiet_self i u p ps : ups !! i = Some u -> idle u p -> quiet (Some i) ps -> quiet None (<[i := p]> ps).
Proof.
  intros Hu Hp Hq m w q _ Hw. rewrite list_lookup_insert_Some. intros [(<-&<-&_)|[Hne Hm]]; [by simplify_eq|].
  apply (Hq m); [congruence|done..].
Qed.

Lemma inv_holder v0 order v j d ps h f u ph c k r d' :
  base v0 order v j d ps -> names d !! lock = Some f -> f <> j -> ups !! h = Some u ->
  ps !! h = Some (Call c k) -> phase_code u f ph = Call c k -> phase_inv d f v u ph ->
  quiet (Some h) ps -> reports (Some h) order ps -> exec d c r d' -> inv v0 (d', <[h := k r]> ps).
Proof.
  intros Hb Hlk Hfj Hu Hp Hc Hph Hq Hr He.
  destruct (proj1 (Forall_lookup _ _) Hups _ _ Hu) as [Hu1 Hu2].
  pose proof (exec_ok _ _ _ _ (base_disk _ _ _ _ _ _ Hb) He) as Hd'.
  pose proof (base_file _ _ _ _ _ _ Hb) as Hf. pose proof (base_value _ _ _ _ _ _ Hb) as Hv.
  pose proof (base_disk _ _ _ _ _ _ Hb _ _ Hlk) as Hflt. pose proof (ref_lock_neq ref) as Hne.
  assert (Hlt : (h < length ps)%nat) by (by eapply lookup_lt_Some).
  pose proof (holder_step d f j v u ph c k r d' Hu1 (base_ok _ _ _ _ _ _ Hb) Hu2 Hflt Hlk Hf Hfj Hv Hph Hc He) as Ha.
  inversion Ha as [ph' ? Hn Hcj Hph' E1 E2|p ? Hn Hcj Hi E1 E2|E1 E2|Hold Hnew E1 E2]; subst.
  - exists order, v, j. split; [eapply base_call; [exact Hp|done|exact Hd'| | |exact Hb]; [by cbn; rewrite Hn|done]|].
    cbn. eapply (lock_held _ _ _ _ _ h f u ph'); eauto; [by rewrite Hn|by apply list_lookup_insert_eq| |].
    + intros m w p Hm Hw. rewrite list_lookup_insert_ne by congruence. by apply Hq.
    + intros m Hm. rewrite list_lookup_insert_ne by congruence. by apply Hr.
  - exists order, v, j. split; [eapply base_call; [exact Hp|done|exact Hd'| | |exact Hb]; [by cbn; rewrite Hn|done]|].
    apply (lock_stale _ _ _ _ _ f); [cbn; by rewrite Hn|by eapply quiet_self].
  - exists order, v, j. split; [eapply base_call; [exact Hp|done|exact Hd'| | |exact Hb]; [by cbn; rewrite lookup_delete_ne|done]|].
    apply lock_free; [by cbn; rewrite lookup_delete_eq|eapply quiet_self; eauto; constructor|].
    intros m _. cbn. rewrite list_lookup_insert_Some. intros [(_&?&_)|[? ?]]; [congruence|]. apply Hr; congruence.
  - assert (Hh : h ∉ order). { intros Hh. apply (base_done _ _ _ _ _ _ Hb) in Hh. congruence. }
    exists (order ++ [h]), u.2, f. destruct Hb as [B1 B2 B3 B4 B5 B6 B7 B8]. split; [split; cbn; try done|].
    + by rewrite length_insert.
    + apply NoDup_app. split; [done|]. split; [set_solver|apply NoDup_singleton].
    + eapply chain_snoc; [exact B4|]. rewrite Hu. by destruct u.
    + intros i. rewrite elem_of_app, list_elem_of_singleton. intros [Hi| ->]; [|by apply list_lookup_insert_eq].
      rewrite list_lookup_insert_ne by congruence. by apply B5.
    + by rewrite lookup_insert_eq.
    + apply lock_free; cbn; [by rewrite lookup_insert_ne, lookup_delete_eq|eapply quiet_self; eauto; constructor|].
      intros m _. rewrite list_lookup_insert_Some, elem_of_app, list_elem_of_singleton.
      intros [(->&_)|[? ?]]; [by right|]. left. apply Hr; congruence.
Qed.

Lemma inv_step v0 s s' : inv v0 s -> step s s' -> inv v0 s'.
Proof.
  intros (order&v&j&Hb&Hl) Hs. destruct Hs as [d ps i c k r d' Hp He]. cbn [fst snd] in *.
  destruct (lookup_lt_is_Some_2 ups i) as [u Hu].
  { rewrite <- (base_length _ _ _ _ _ _ Hb). by eapply lookup_lt_Some. }
  destruct Hl as [H1 H2 H3|h f w ph H1 H2 H3 H4 H5 H6 H7|f H1 H2].
  - destruct (inv_idle v0 order v j d ps i u c k r d' None) as [(->&?&?&?)|(_&?&?)]; eauto.
    + exists order, v, j. split; [done|]. by apply lock_free; auto.
    + by exists order, v, j.
  - destruct (decide (i = h)) as [->|Hne].
    { rewrite Hp in H4. injection H4 as H4. rewrite Hu in H3. injection H3 as <-. by eapply inv_holder. }
    destruct (inv_idle v0 order v j d ps i u c k r d' (Some h)) as [(->&?&?&?)|(?&_)]; eauto; try congruence.
    + apply (H6 i); congruence.
    + exists order, v, j. split; [done|]. apply (lock_held _ _ _ _ _ h f w ph); auto. cbn. by rewrite list_lookup_insert_ne.
  - destruct (inv_idle v0 order v j d ps i u c k r d' None) as [(->&?&?&?)|(_&?&?)]; eauto.
    + exists order, v, j. split; [done|]. by eapply lock_stale.
    + by exists order, v, j.
Qed.

Lemma inv_start v0 j d :
  disk_ok d -> names d !! lock = None -> names d !! file = Some j -> contents d j = ref_line v0 -> sha1_ok v0 ->
  inv v0 (d, (fun u => update_ref ref u.1 u.2) <$> ups).
Proof.
  intros Hd Hl Hf Hj Hv. exists [], v0, j. split.
  - split; cbn; try done; [by rewrite length_fmap|constructor|constructor|set_solver].
  - apply lock_free; [done| |].
    + intros i u p _ Hu. cbn. rewrite list_lookup_fmap, Hu. intros [= <-]. constructor.
    + intros i _. cbn. rewrite list_lookup_fmap. destruct (ups !! i); [|done]. cbn.
      unfold update_ref, lock_ref_sha1. by rewrite Href.
Qed.

End Updates.

(** C11. However the calls of any number of processes that lock and write one
    reference interleave, and whichever of the calls fail or are partial: the
    reference has at every moment the value of the last of a sequence of
    updates, each of which found the value the one before it wrote; the
    updates of the sequence reported success, and one that reported success
    and is not among them has left its lock behind. *)
Theorem refs_cas (ref : bytes) (ups : list (bytes * bytes)) (v0 : bytes) (d d' : disk) (ps : list (proc Z)) :
  check_ref_format ref = 0 -> sha1_ok v0 -> Forall (fun u => sha1_ok u.1 /\ sha1_ok u.2) ups ->
  disk_ok d -> names d !! ref_lock_file_name ref = None -> file_at d (ref_file_name ref) = Some (ref_line v0) ->
  rtc step (d, (fun u => update_ref ref u.1 u.2) <$> ups) (d', ps) ->
  exists order v, NoDup order /\ chain ups v0 order v /\ file_at d' (ref_file_name ref) = Some (ref_line v) /\
    (forall i, i ∈ order -> ps !! i = Some (Done 0)) /\
    (forall i, ps !! i = Some (Done 0) -> i ∈ order \/ is_Some (names d' !! ref_lock_file_name ref)).
Proof.
  intros Href Hv Hups Hd Hl Hf Hs. unfold file_at in Hf. destruct (names d !! ref_file_name ref) as [j|] eqn:Ej; [|discriminate Hf]. injection Hf as Hf.
  assert (Hi : inv ref ups v0 (d, (fun u => update_ref ref u.1 u.2) <$> ups)) by (by apply (inv_start _ _ Href Hups v0 j)).
  apply (reachable_invariant (inv ref ups v0)) in Hs as (order&v&j'&Hb&Hlk); [|intros; by eapply inv_step|done]. cbn [fst snd] in *. destruct Hb. exists order, v. split_and!; try done.
  - unfold file_at. rewrite base_file0. cbn. congruence.
  - intros i Hr. destruct Hlk as [H1 H2 H3|h f u ph H1|f H1 H2]; [left; by apply H3|right; by eexists..].
Qed.

End Refs.

(** ** Runs *)

Definition refs_dir : bytes := str ".git/refs".
Definition master : bytes := str "heads/master".
Definition name_of (b : Z) : bytes := replicate 20 b.
Definition disk_of (value : bytes) : disk :=
  {| names := {[ ref_file_name refs_dir master := 0%nat ]}; inodes := [value] |}.
Definition two_updates : list (bytes * bytes) := [(name_of 1, name_of 2); (name_of 1, name_of 3)].
Definition updates_from (value : bytes) : system :=
  (disk_of value, (fun u => update_ref refs_dir master u.1 u.2) <$> two_updates).
Definition result_of (p : proc Z) : option Z := match p with Done r => Some r | Call _ _ => None end.
Definition outcome_of (s : system) : option bytes * list (option Z) * bool :=
  (file_at s.1 (ref_file_name refs_dir master), result_of <$> s.2, bool_decide (is_Some (names s.1 !! ref_lock_file_name refs_dir master))).

(** The second process starts while the first is between reading and writing,
    and again when it is through. *)
Definition race : list (nat * bool) :=
  [(0, true); (0, true); (1, true); (0, true); (0, true); (0, true); (0, true); (0, true); (0, true)]%nat.

Example race_outcome : outcome_of (play race (updates_from (ref_line (name_of 1)))) = (Some (ref_line (name_of 2)), [Some 0; Some (-1)], false).
Proof. vm_compute. reflexivity. Qed.

Lemma name_of_ok b : 0 <= b < 256 -> sha1_ok (name_of b).
Proof. intros Hb. split; [done|]. by apply Forall_replicate. Qed.

Lemma refs_cas_witness : exists order v, NoDup order /\ chain two_updates (name_of 1) order v /\
  file_at (play race (updates_from (ref_line (name_of 1)))).1 (ref_file_name refs_dir master) = Some (ref_line v) /\
  forall i, i ∈ order -> (play race (updates_from (ref_line (name_of 1)))).2 !! i = Some (Done 0).
Proof.
  destruct (refs_cas refs_dir master two_updates (name_of 1) (disk_of (ref_line (name_of 1)))
    (play race (updates_from (ref_line (name_of 1)))).1 (play race (updates_from (ref_line (name_of 1)))).2)
    as (order&v&?&?&?&?&_).
  - reflexivity.
  - by apply name_of_ok.
  - apply Forall_cons; split; [|apply Forall_singleton]; split; by apply name_of_ok.
  - intros p i. cbn. rewrite lookup_insert_Some. intros [[_ <-]|[_ H]]; [cbn; lia|by rewrite lookup_empty in H].
  - reflexivity.
  - reflexivity.
  - rewrite <- surjective_pairing. apply play_steps.
  - eexists _, _. eauto.
Defined.

(** A short write leaves the lock, and no update succeeds any more. *)
Example lock_left_behind :
  outcome_of (play ([(0, true); (0, true); (0, true); (0, true); (0, false); (0, true)] ++ replicate 10 (1, true))%nat
    (updates_from (ref_line (name_of 1)))) = (Some (ref_line (name_of 1)), [Some (-1); Some (-1)], true).
Proof. vm_compute. reflexivity. Qed.

(** The result of [rename] is dropped: success is reported, the reference has
    not changed, the lock is left. *)
Example rename_failure_unreported :
  outcome_of (play ([(0, true); (0, true); (0, true); (0, true); (0, true); (0, true); (0, true); (0, false)])%nat
    (updates_from (ref_line (name_of 1)))) = (Some (ref_line (name_of 1)), [Some 0; None], true).
Proof. vm_compute. reflexivity. Qed.

(** With [old_sha1] a null pointer the reference is to have no value; one whose
    line lacks the newline (which [read_ref] accepts) passes for none and is
    overwritten. *)
Example unreadable_overwritten :
  outcome_of (play (replicate 8 (0, true))%nat
    (disk_of (sha1_to_hex (name_of 1)), [locked_write refs_dir master (name_of 2) (lock_ref_sha1 refs_dir master None)])) =
  (Some (ref_line (name_of 2)), [Some 0], false).
Proof. vm_compute. reflexivity. Qed.
