(* ===== verification/IndexLock.v ===== *)
(** * The lock on the index (index.c)

    A command that changes the index writes a file ["<index>.lock"], created
    exclusively, and renames it over the index.  [cache_file_list], the locks
    that are removed when the program ends, is passed as the list of the
    [lockfile] strings, the last one registered first; a committed or rolled
    back one is empty.  The functions are programs of LockFile.v; that SIGINT
    runs [remove_lock_file] too is not modelled. *)

From stdpp Require Import base list numbers strings gmap relations.
From Stdlib Require Import ZArith Lia.
From S2P Require Import Prelude.
From S2P Require Import LockFile.
From S2P Require Import Refs.

(** ** Code *)

Definition lockfile_of (path : bytes) : bytes := path ++ str ".lock".

Fixpoint remove_lock_file (cache_file_list : list bytes) : proc unit :=
  match cache_file_list with
  | [] => Done tt
  | lockfile :: next => if (length lockfile =? 0)%nat then remove_lock_file next else do_call (Unlink lockfile) (remove_lock_file next)
  end.

(** The descriptor ([None] is -1) and the new [cache_file_list]. *)
Definition hold_index_file_for_update (cache_file_list : list bytes) (path : bytes) : proc (option nat * list bytes) :=
  Call (OpenExcl (lockfile_of path)) (fun r =>
    Done (match r with Fd fd => Some fd | _ => None end, lockfile_of path :: cache_file_list)).

(** [cf] is the position in the list. *)
Definition commit_index_file (cache_file_list : list bytes) (cf : nat) : proc (Z * list bytes) :=
  let lockfile := default [] (cache_file_list !! cf) in
  Call (Rename lockfile (take (length lockfile - 5) lockfile)) (fun r =>
    Done (match r with Fine => 0 | _ => -1 end, <[cf := []]> cache_file_list)).

Definition rollback_index_file (cache_file_list : list bytes) (cf : nat) : proc (list bytes) :=
  let lockfile := default [] (cache_file_list !! cf) in
  let cleared := <[cf := []]> cache_file_list in
  if (length lockfile =? 0)%nat then Done cleared else do_call (Unlink lockfile) (Done cleared).

(** [exit], whose handler is [remove_lock_file], and [die]. *)
Definition exit_with (cache_file_list : list bytes) (status : Z) : proc Z :=
  _ ← remove_lock_file cache_file_list; Done status.
Definition die (cache_file_list : list bytes) : proc Z := exit_with cache_file_list 1.

(** The writes of [write_cache]: each must be complete. *)
Fixpoint write_buffers (fd : option nat) (buffers : list bytes) : proc Z :=
  match buffers with
  | [] => Done 0
  | buf :: buffers => Call (Write fd buf) (fun r => if written r (length buf) then write_buffers fd buffers else Done (-1))
  end.

(** How read-tree.c and update-cache.c use them: hold the lock; compute an
    index; write, commit and end.  [computed] is what comes between: [None] when
    the program dies there, else what update-cache.c calls [has_errors] (always
    [false] in read-tree.c) and the buffers of the new index. *)
Definition finish (has_errors : bool) (commit : Z * list bytes) : proc Z :=
  if negb (commit.1 =? 0) then die commit.2 else exit_with commit.2 (if has_errors then 1 else 0).

Definition write_and_commit (computed : option (bool * list bytes)) (held : option nat * list bytes) : proc Z :=
  match held.1, computed with
  | Some _, Some (has_errors, buffers) =>
      w ← write_buffers held.1 buffers;
      if negb (w =? 0) then die held.2 else commit ← commit_index_file held.2 0; finish has_errors commit
  | _, _ => die held.2
  end.

Definition index_program (path : bytes) (computed : option (bool * list bytes)) : proc Z :=
  held ← hold_index_file_for_update [] path; write_and_commit computed held.

Lemma take_lockfile path : take (length (lockfile_of path) - 5) (lockfile_of path) = path.
Proof. unfold lockfile_of. rewrite length_app. cbn [length str]. rewrite take_app_le by (cbn; lia). apply take_ge. cbn. lia. Qed.

Lemma lockfile_neq path : path <> lockfile_of path.
Proof. unfold lockfile_of. intros H%(f_equal length). rewrite length_app in H. cbn in H. lia. Qed.

(** ** One program, whatever fails *)

Section Single.
Context (path : bytes) (computed : option (bool * list bytes)) (d0 : disk).
Notation lock := (lockfile_of path).

Definition writing (has_errors : bool) (f : nat) (rest : list bytes) : proc Z :=
  w ← write_buffers (Some f) rest;
  if negb (w =? 0) then die [lock] else commit ← commit_index_file [lock] 0; finish has_errors commit.

(** The index is as it was. *)
Definition as_before (d : disk) : Prop := names d !! path = names d0 !! path /\ file_at d path = file_at d0 path.

Inductive program_state : disk -> proc Z -> Prop :=
| at_start : names d0 !! lock = None -> program_state d0 (index_program path computed)
| at_write d e buffers f rest : computed = Some (e, buffers) -> as_before d -> names d !! lock = Some f -> names d !! path <> Some f -> (f < length (inodes d))%nat ->
    contents d f ++ concat rest = concat buffers -> program_state d (writing e f rest)
| at_die d : as_before d -> program_state d (die [lock])
| at_failure d : as_before d -> program_state d (Done 1)
| at_success d e buffers : computed = Some (e, buffers) -> file_at d path = Some (concat buffers) -> names d !! lock = None ->
    program_state d (Done (if e then 1 else 0)).

Lemma as_before_append d f buf : names d !! path <> Some f -> as_before d -> as_before (append_to d f buf).
Proof. intros Hf [H1 H2]. split; [done|]. by rewrite file_at_append_ne. Qed.

Lemma exit_lock status : exit_with [lock] status = do_call (Unlink lock) (Done status).
Proof. unfold exit_with, lockfile_of. cbn. rewrite length_app, Nat.add_comm. done. Qed.

Lemma program_step d p c k r d' :
  disk_ok d -> program_state d p -> p = Call c k -> exec d c r d' -> program_state d' (k r).
Proof.
  intros Hd Hs Hp He. destruct Hs as [Hn|d e buffers f rest Hcomp Hb Hf Hpf Hlt Hc|d Hb|d Hb|d e buffers Hcomp H1 H2]; [| | |done|done].
  - injection Hp as <- <-. inversion He; subst; cbn; [by apply at_die|].
    destruct computed as [[e buffers]|] eqn:Hcomp.
    2:{ apply at_die. pose proof (lockfile_neq path). split; [cbn; by rewrite lookup_insert_ne|]. apply file_at_create; [done|intros; by eapply Hd]. }
    apply (at_write _ e buffers (length (inodes d0)) buffers); cbn; [done|..].
    + pose proof (lockfile_neq path). split; [cbn; by rewrite lookup_insert_ne|]. apply file_at_create; [done|intros; by eapply Hd].
    + apply lookup_insert_eq.
    + rewrite lookup_insert_ne by (symmetry; apply lockfile_neq). intros H%Hd. lia.
    + rewrite length_app. cbn. lia.
    + unfold contents. cbn. by rewrite lookup_app_r, Nat.sub_diag by lia.
  - destruct rest as [|buf rest]; unfold writing in Hp; cbn in Hp; injection Hp as <- <-.
    + rewrite take_lockfile in He. inversion He; subst; cbn.
      * unfold die, exit_with. cbn. by apply at_failure.
      * eapply at_success; cbn; [done| |by rewrite lookup_insert_ne, lookup_delete_eq by apply lockfile_neq].
        simplify_eq. unfold file_at. cbn. rewrite lookup_insert_eq. cbn. cbn in Hc. by rewrite app_nil_r in Hc; rewrite <- Hc.
    + inversion He; subst; cbn beta; unfold written; [by apply at_die|].
      destruct (Nat.ltb_spec k (length buf)); cbn [negb].
      * apply at_die. by apply as_before_append.
      * apply (at_write _ e buffers f rest); [done|by apply as_before_append|done|done|cbn; by rewrite length_alter|].
        rewrite contents_append, take_ge by lia. by rewrite <- app_assoc.
  - unfold die in Hp. rewrite exit_lock in Hp. injection Hp as <- <-. inversion He; subst; apply at_failure; [done|].
    destruct Hb as [Hb1 Hb2]. split; cbn; [by rewrite lookup_delete_ne by (symmetry; apply lockfile_neq)|].
    rewrite file_at_remove_ne; [done|symmetry; apply lockfile_neq].
Qed.

End Single.

(** C12. A command that changes the index, undisturbed by others, makes the new
    index appear as a whole: whichever of its calls fail or are partial, at
    every moment the index file is the old one or all that was to be written.
    A command that dies before it writes leaves the old index, with status 1.
    Any other ends with the new index, no lock and the status that tells of
    errors met on the way, or, when a call failed, with the old index and
    status 1: status 0 means the new index; status 1 the old one, unless
    update-cache.c met an error on the way. *)
Theorem index_update_atomic (path : bytes) (computed : option (bool * list bytes)) (d d' : disk) (ps : list (proc Z)) :
  disk_ok d -> names d !! lockfile_of path = None ->
  rtc step (d, [index_program path computed]) (d', ps) ->
  (file_at d' path = file_at d path \/
   exists e buffers, computed = Some (e, buffers) /\ file_at d' path = Some (concat buffers)) /\
  (forall r, ps = [Done r] ->
     (r = 1 /\ file_at d' path = file_at d path) \/
     exists e buffers, computed = Some (e, buffers) /\ r = (if e then 1 else 0) /\
       file_at d' path = Some (concat buffers) /\ names d' !! lockfile_of path = None).
Proof.
  intros Hd Hn Hs.
  apply (reachable_invariant (fun s => disk_ok s.1 /\ exists p, s.2 = [p] /\ program_state path computed d s.1 p)) in Hs
    as (_&p&E&Hp).
  - cbn in *. subst. destruct Hp as [H|d' e buffers f rest He [_ H]|d' [_ H]|d' [_ H]|d' e buffers He H1 H2]; (split; [eauto|]); intros r Hr.
    + discriminate Hr.
    + by destruct rest.
    + unfold die in Hr. by rewrite exit_lock in Hr.
    + injection Hr as <-. auto.
    + injection Hr as <-. right. by exists e, buffers.
  - intros a b (Ha&p&E&Hp) Hab. destruct Hab as [e ps' i c k r e' Hi He]. cbn [fst snd] in *. subst ps'.
    split; [by eapply exec_ok|]. destruct i as [|i]; [|done]. injection Hi as ->. exists (k r). split; [done|]. by eapply program_step.
  - cbn. split; [done|]. eexists. split; [done|]. by apply at_start.
Qed.

(** ** Runs *)

Definition index_path : bytes := str ".git/index".
Definition old_index : bytes := str "old".
Definition disk_with_index : disk := {| names := {[ index_path := 0%nat ]}; inodes := [old_index] |}.
Definition index_outcome (s : system) : option bytes * list (option Z) * bool :=
  (file_at s.1 index_path, result_of <$> s.2, bool_decide (is_Some (names s.1 !! lockfile_of index_path))).

(** Two buffers written by a refresh that met a stale entry. *)
Definition refreshed : option (bool * list bytes) := Some (true, [str "new"; str " index"]).

Lemma index_update_atomic_witness :
  let s := play (replicate 5 (0%nat, true)) (disk_with_index, [index_program index_path refreshed]) in
  s.2 = [Done 1] /\
  (file_at s.1 index_path = Some old_index \/
   exists e buffers, refreshed = Some (e, buffers) /\ file_at s.1 index_path = Some (concat buffers)).
Proof.
  cbv zeta. split; [vm_compute; reflexivity|].
  refine (proj1 (index_update_atomic index_path refreshed disk_with_index _
    (play (replicate 5 (0%nat, true)) (disk_with_index, [index_program index_path refreshed])).2 _ _ _)).
  - intros p i. cbn. rewrite lookup_insert_Some. intros [[_ <-]|[_ H]]; [cbn; lia|by rewrite lookup_empty in H].
  - reflexivity.
  - rewrite <- surjective_pairing. apply play_steps.
Defined.

(** "git-update-cache --refresh" that meets a stale entry ends with status 1, and
    the new index is in place. *)
Example errors_reported_after_commit :
  index_outcome (play (replicate 5 (0%nat, true)) (disk_with_index, [index_program index_path refreshed])) =
  (Some (str "new index"), [Some 1], false).
Proof. vm_compute. reflexivity. Qed.

(** A program that does not get the lock has registered it all the same, and
    removes it when it dies: the holder's lock is gone. *)
Example lock_removed_by_loser :
  index_outcome (play [(0, true); (1, true); (1, true)]%nat
    (disk_with_index, [index_program index_path (Some (false, [str "A"])); index_program index_path (Some (false, [str "B"]))])) =
  (Some old_index, [None; Some 1], false).
Proof. vm_compute. reflexivity. Qed.

(** So a third program gets the lock, and what it has written so far becomes the
    index when the first one commits, which reports success. *)
Example partial_index_committed :
  index_outcome (play [(0, true); (0, true); (1, true); (1, true); (2, true); (2, true); (0, true)]%nat
    (disk_with_index, [index_program index_path (Some (false, [str "A"])); index_program index_path (Some (false, [str "B"])); index_program index_path (Some (false, [str "C1"; str "C2"]))])) =
  (Some (str "C1"), [Some 0; Some 1; None], false).
Proof. vm_compute. reflexivity. Qed.
