(* ===== verification/Names.v ===== *)
(** * Names: paths, the environment, the names of objects and references

    path.c, gitenv.c, and of sha1_file.c [get_sha1_file], [setup_git_env] and
    [get_sha1]; of refs.c what reads references: [read_ref], [head_ref],
    [do_for_each_ref].  The environment, [opendir], [lstat] and the contents of
    files are functions; a read gives as much of the file as it is asked for. *)

From stdpp Require Import base list numbers strings gmap sorting.
From Stdlib Require Import ZArith Lia.
From S2P Require Import Prelude.
From S2P Require Import Hex.
From S2P Require Import CString.
From S2P Require Import CacheEntry.
From S2P Require Import CsumFile.
From S2P Require Import ObjectDB.
From S2P Require Import Refs.

(** ** Paths *)

Definition PATH_MAX : nat := Z.to_nat 4096.
Definition bad_path : bytes := str "/bad-path/".

Fixpoint skip_slashes (path : bytes) : bytes :=
  match path with
  | c :: rest => if c =? 47 then skip_slashes rest else path
  | [] => []
  end.

(** [!memcmp(path, "./", 2)], with [strncmp] below *)
Definition dot_slash (path : bytes) : bool := memcmp 2 path [46; 47] =? 0.

Definition cleanup_path (path : bytes) : bytes := if dot_slash path then skip_slashes (drop 2 path) else path.

(** The argument of [mkpath] and [git_path] is the text [vsnprintf] makes. *)
Definition mkpath (text : bytes) : bytes :=
  if (PATH_MAX <=? length text)%nat then bad_path else cleanup_path text.

(** ** The environment *)

Section Environment.
Context (getenv : bytes -> option bytes).

Definition bc_name : list (bytes * bytes) := [
  (str "GIT_ALTERNATE_OBJECT_DIRECTORIES", str "SHA1_FILE_DIRECTORIES");
  (str "GIT_AUTHOR_DATE", str "AUTHOR_DATE");
  (str "GIT_AUTHOR_EMAIL", str "AUTHOR_EMAIL");
  (str "GIT_AUTHOR_NAME", str "AUTHOR_NAME");
  (str "GIT_COMMITTER_EMAIL", str "COMMIT_AUTHOR_EMAIL");
  (str "GIT_COMMITTER_NAME", str "COMMIT_AUTHOR_NAME");
  (str "GIT_OBJECT_DIRECTORY", str "SHA1_FILE_DIRECTORY")].

Definition bc_cmp (e : bytes) (next : Z) : Z :=
  match bc_name !! Z.to_nat next with Some b => lexcmp e b.1 | None => 0 end.

Definition gitenv_bc (e : bytes) : outcome (option bytes) :=
  match getenv e with
  | Some _ => Die
  | None =>
      let next := bsearch (bc_cmp e) 0 (Z.of_nat (length bc_name)) in
      if next <? 0 then Ret None
      else match bc_name !! Z.to_nat next with Some b => Ret (getenv b.2) | None => Ub end
  end.

Definition gitenv (e : bytes) : outcome (option bytes) :=
  match getenv e with Some v => Ret (Some v) | None => gitenv_bc e end.

Definition GIT_DIR_ENVIRONMENT : bytes := str "GIT_DIR".
Definition DB_ENVIRONMENT : bytes := str "GIT_OBJECT_DIRECTORY".
Definition INDEX_ENVIRONMENT : bytes := str "GIT_INDEX_FILE".

Definition git_dir : outcome bytes := v ← gitenv GIT_DIR_ENVIRONMENT; Ret (default (str ".git") v).

(** A slash is put behind a non-empty name that does not end in one. *)
Definition with_slash (dir : bytes) : bytes :=
  match last dir with Some c => if c =? 47 then dir else dir ++ [47] | None => dir end.

(** [len] is an [unsigned int]. *)
Definition git_path (text : bytes) : outcome bytes :=
  dir ← git_dir;
  Ret (if (PATH_MAX - 100 <? length dir)%nat then bad_path
       else
         let pathname := with_slash dir ++ text in
         if (PATH_MAX <=? length pathname)%nat then bad_path else cleanup_path pathname).

Record git_env := { git_object_dir : bytes; git_refs_dir : bytes; git_index_file : bytes }.

Definition setup_git_env : outcome git_env :=
  dir ← git_dir;
  object_dir ← gitenv DB_ENVIRONMENT;
  index_file ← gitenv INDEX_ENVIRONMENT;
  Ret {| git_object_dir := default (dir ++ str "/objects") object_dir; git_refs_dir := dir ++ str "/refs";
         git_index_file := default (dir ++ str "/index") index_file |}.

(** ** Names of objects *)

(** The contents of a file that can be opened and read. *)
Context (file : bytes -> option bytes).

Definition read_hex_file (path : bytes) : outcome (option bytes) :=
  match file path with
  | None => Ret None
  | Some text =>
      let buffer := take 60 text in
      if (length buffer <? 40)%nat then Ret None
      else r ← get_sha1_hex buffer; Ret (if r.1 =? 0 then Some r.2 else None)
  end.

Definition get_sha1_file (path : bytes) : outcome (option bytes) := read_hex_file path.

Definition prefix : list bytes := [[]; str "refs"; str "refs/tags"; str "refs/heads"; str "refs/snap"].

Fixpoint get_sha1_prefix (p : list bytes) (name : bytes) : outcome (option bytes) :=
  match p with
  | [] => Ret None
  | p :: rest =>
      pathname ← git_path (p ++ 47 :: name);
      r ← get_sha1_file pathname;
      match r with Some sha1 => Ret (Some sha1) | None => get_sha1_prefix rest name end
  end.

(** The argument is the memory at [str]: [get_sha1_hex] can read behind its NUL. *)
Definition get_sha1 (str : bytes) : outcome (option bytes) :=
  r ← get_sha1_hex str;
  if r.1 =? 0 then Ret (Some r.2) else get_sha1_prefix prefix (cstr str).

(** ** Reading references *)

(** [git_path(refname)]: a name is used as a format; what its directives other
    than [%%] print is not defined. *)
Fixpoint expand (format : bytes) : outcome bytes :=
  match format with
  | [] => Ret []
  | c :: rest =>
      if c =? 37 then
        match rest with
        | c' :: rest => if c' =? 37 then r ← expand rest; Ret (37 :: r) else Ub
        | [] => Ub
        end
      else r ← expand rest; Ret (c :: r)
  end.

Definition git_path_format (format : bytes) : outcome bytes := text ← expand format; git_path text.

Definition read_ref (refname : bytes) : outcome (option bytes) := path ← git_path_format refname; read_hex_file path.

Context {S : Type} (fn : bytes -> bytes -> S -> Z * S).

Definition head_ref (s : S) : outcome (Z * S) :=
  r ← read_ref (str "HEAD"); Ret (match r with Some sha1 => fn (str "HEAD") sha1 s | None => (0, s) end).

Context {D} {DB : ObjectDB D} (db : D) (opendir : bytes -> option (list bytes)) (lstat_is_dir : bytes -> option bool).

(** One name of the directory; [fuel] bounds the depth. *)
Fixpoint do_for_each_ref (fuel : nat) (base : bytes) (s : S) {struct fuel} : outcome (Z * S) :=
  match fuel with
  | O => Ub
  | Datatypes.S fuel =>
      dirname ← git_path_format base;
      match opendir dirname with
      | None => Ret (0, s)
      | Some entries =>
          let base := with_slash (if dot_slash base then drop 2 base else base) in
          (fix readdir_loop (entries : list bytes) (s : S) : outcome (Z * S) :=
             match entries with
             | [] => Ret (0, s)
             | d_name :: rest =>
                 if name_char d_name 0 =? 46 then readdir_loop rest s
                 else if (255 <? length d_name)%nat then readdir_loop rest s
                 else
                   let path := base ++ d_name in
                   name ← git_path_format path;
                   match lstat_is_dir name with
                   | None => readdir_loop rest s
                   | Some true =>
                       r ← do_for_each_ref fuel path s;
                       if negb (r.1 =? 0) then Ret r else readdir_loop rest r.2
                   | Some false =>
                       v ← read_ref path;
                       match v with
                       | None => readdir_loop rest s
                       | Some sha1 =>
                           has ← db_has db sha1;
                           if negb has then readdir_loop rest s
                           else let r := fn path sha1 s in if negb (r.1 =? 0) then Ret r else readdir_loop rest r.2
                       end
                   end
             end) entries s
      end
  end.

Definition for_each_ref (fuel : nat) (s : S) : outcome (Z * S) := do_for_each_ref fuel (str "refs") s.

End Environment.

(** ** Lemmas *)

Lemma bc_name_sorted : StronglySorted (fun x y : bytes * bytes => lexcmp x.1 y.1 < 0) bc_name.
Proof. repeat (constructor; [|repeat (constructor; [vm_compute; reflexivity|]); constructor]). constructor. Qed.

Lemma bc_name_search e :
  let next := bsearch (bc_cmp e) 0 (Z.of_nat (length bc_name)) in
  (exists b, b.1 = e /\ 0 <= next /\ bc_name !! Z.to_nat next = Some b) \/ (e ∉ bc_name.*1 /\ next < 0).
Proof.
  intros next. destruct (bsearch_list (fun b => lexcmp e b.1) (bc_cmp e) bc_name) as [(l1&b&l2&E&Hn&Hc)|(l1&l2&E&Hn&H1&H2)].
  - intros i x Hx. unfold bc_cmp. by rewrite Nat2Z.id, Hx.
  - eapply StronglySorted_mono; [|exact bc_name_sorted]. intros [a ?] [b ?]. cbn. intros Hab Ha.
    destruct (decide (lexcmp e a = 0)) as [->%lexcmp_eq|]; [done|]. eapply lexcmp_trans; [|exact Hab]. lia.
  - left. exists b. apply lexcmp_eq in Hc. split; [done|]. unfold next. rewrite Hn, Nat2Z.id, E. split; [lia|].
    by rewrite lookup_app_r, Nat.sub_diag by lia.
  - right. split; [|unfold next; lia]. rewrite E, fmap_app, elem_of_app. intros [H|H]; apply list_elem_of_fmap in H as (b&->&Hb).
    + rewrite Forall_forall in H1. specialize (H1 b Hb). by rewrite lexcmp_refl in H1.
    + rewrite Forall_forall in H2. specialize (H2 b Hb). by rewrite lexcmp_refl in H2.
Qed.

(** Old names of variables are looked up exactly for the names of the table,
    and only if the new one is not set. *)
Theorem gitenv_spec (getenv : bytes -> option bytes) (e : bytes) :
  gitenv getenv e = Ret (match getenv e with
    | Some v => Some v
    | None => b ← list_to_map (M := gmap bytes bytes) bc_name !! e; getenv b end).
Proof.
  unfold gitenv, gitenv_bc. destruct (getenv e) as [v|]; [done|]. cbv zeta.
  destruct (bc_name_search e) as [(b&He&Hn&Hb)|(He&Hn)].
  - destruct (Z.ltb_spec (bsearch (bc_cmp e) 0 (Z.of_nat (length bc_name))) 0); [lia|]. rewrite Hb.
    rewrite (elem_of_list_to_map_1 bc_name e b.2); [done| |].
    + apply (bool_decide_unpack _). vm_compute. exact I.
    + subst e. rewrite <- surjective_pairing. by eapply list_elem_of_lookup_2.
  - destruct (Z.ltb_spec (bsearch (bc_cmp e) 0 (Z.of_nat (length bc_name))) 0); [|lia].
    by rewrite not_elem_of_list_to_map_1.
Qed.

(** What the text of a reference stands for. *)
Definition ref_value (text : bytes) : option bytes :=
  match read_hex_file (fun _ => Some text) [] with Ret v => v | _ => None end.

Lemma read_hex_file_value file path text : file path = Some text -> read_hex_file file path = Ret (ref_value text).
Proof.
  intros Hf. unfold ref_value, read_hex_file. rewrite Hf. destruct (_ <? 40)%nat eqn:E; [done|]. apply Nat.ltb_ge in E.
  destruct (get_sha1_hex_total (take 60 text) E) as (r&s&->&_). done.
Qed.

Lemma ref_value_spec text v : ref_value text = Some v <->
  exists digits rest, text = digits ++ rest /\ length v = 20%nat /\ bytes_ok v /\ map tolower digits = sha1_to_hex v.
Proof.
  unfold ref_value, read_hex_file. split.
  - destruct (_ <? 40)%nat eqn:E; [done|]. apply Nat.ltb_ge in E.
    destruct (get_sha1_hex (take 60 text)) as [[r s]| |] eqn:Eg; [|done..]. cbn. destruct (Z.eqb_spec r 0) as [->|]; [|done].
    intros [= ->]. apply get_sha1_hex_spec in Eg as (ds&rest&Ht&?&?&?). exists ds, (rest ++ drop 60 text).
    by rewrite app_assoc, <- Ht, take_drop.
  - intros (ds&rest&->&Hl&Hb&Hd). assert (length ds = 40%nat) as H40.
    { rewrite <- (length_map tolower), Hd. by apply length_sha1_to_hex. }
    destruct (Nat.ltb_spec (length (take 60 (ds ++ rest))) 40) as [Hlt|_].
    { rewrite length_take, length_app in Hlt. lia. }
    replace (get_sha1_hex (take 60 (ds ++ rest))) with (Ret (0, v)); [done|]. symmetry.
    apply get_sha1_hex_spec. exists ds, (take 20 rest). rewrite take_app, take_ge, H40 by lia. done.
Qed.

Lemma ref_value_line v : sha1_ok v -> ref_value (ref_line v) = Some v.
Proof.
  intros [Hl Hb]. apply ref_value_spec. exists (sha1_to_hex v), [10]. split; [done|]. split; [done|]. split; [done|].
  unfold sha1_to_hex. rewrite take_ge by lia. by apply map_tolower_nibbles.
Qed.

(** A directory name from which paths are made by adding a slash. *)
Record plain_dir (dir : bytes) : Prop := {
  plain_last : exists c, last dir = Some c /\ c <> 47;
  plain_dot : dot_slash (dir ++ [47]) = false;
  plain_length : (length dir <= PATH_MAX - 100)%nat }.

Lemma with_slash_plain dir c : last dir = Some c -> c <> 47 -> with_slash dir = dir ++ [47].
Proof. intros Hl Hc. unfold with_slash. rewrite Hl. by destruct (Z.eqb_spec c 47). Qed.

Lemma dot_slash_app dir rest : dot_slash (dir ++ [47]) = false -> dot_slash (dir ++ 47 :: rest) = false.
Proof.
  destruct dir as [|a [|b dir]]; [done| |]; intros H; [|exact H]. exact H.
Qed.

Section Paths.
Context (getenv : bytes -> option bytes) (dir : bytes).
Context (Hdir : git_dir getenv = Ret dir) (Hplain : plain_dir dir).

Lemma git_path_plain text : (length dir + length text < PATH_MAX - 1)%nat -> git_path getenv text = Ret (dir ++ 47 :: text).
Proof.
  intros Ht. unfold git_path. rewrite Hdir. destruct Hplain as [(c&Hl&Hc) Hd Hp]. cbn [mbind outcome_bind].
  destruct (Nat.ltb_spec (PATH_MAX - 100) (length dir)); [lia|]. cbv zeta. rewrite (with_slash_plain _ c), <- app_assoc by done.
  destruct (Nat.leb_spec PATH_MAX (length (dir ++ [47] ++ text))) as [Hle|_].
  { rewrite length_app in Hle. cbn [app length] in Hle. lia. }
  unfold cleanup_path. cbn [app]. by rewrite dot_slash_app.
Qed.

Lemma git_path_format_plain text : 37 ∉ text -> (length dir + length text < PATH_MAX - 1)%nat ->
  git_path_format getenv text = Ret (dir ++ 47 :: text).
Proof.
  intros Hp Ht. unfold git_path_format. replace (expand text) with (Ret text); [by apply git_path_plain|]. clear Ht.
  induction text as [|c text IH]; [done|]. cbn [expand]. apply not_elem_of_cons in Hp as [Hc Hp].
  destruct (Z.eqb_spec c 37); [done|]. by rewrite <- IH.
Qed.

End Paths.

(** ** From a reference to its value *)

Lemma get_sha1_prefix_cons getenv file p rest name : get_sha1_prefix getenv file (p :: rest) name =
  (pathname ← git_path getenv (p ++ 47 :: name); r ← get_sha1_file file pathname;
   match r with Some sha1 => Ret (Some sha1) | None => get_sha1_prefix getenv file rest name end).
Proof. done. Qed.

(** What [write_ref_sha1] leaves in the file of a reference is what its name
    stands for: [get_sha1] finds it behind [git_dir/ref] in [git_dir/refs], for
    any name that is not itself read as forty digits, and [read_ref] reads it. *)
Theorem get_sha1_reads_ref (getenv file : bytes -> option bytes) (dir : bytes) (env : git_env) (ref beyond v junk : bytes) :
  git_dir getenv = Ret dir -> plain_dir dir -> (length dir + length ref < PATH_MAX - 6)%nat -> 0 ∉ ref ->
  setup_git_env getenv = Ret env -> sha1_ok v ->
  get_sha1_hex (ref ++ 0 :: beyond) = Ret (-1, junk) ->
  file (dir ++ 47 :: 47 :: ref) = None ->
  file (ref_file_name (git_refs_dir env) ref) = Some (ref_line v) ->
  get_sha1 getenv file (ref ++ 0 :: beyond) = Ret (Some v) /\
  (37 ∉ ref -> read_ref getenv file (str "refs/" ++ ref) = Ret (Some v)).
Proof.
  intros Hdir Hplain Hlen H0 Henv Hv Hhex Hnone Hfile.
  assert (Hname : ref_file_name (git_refs_dir env) ref = dir ++ 47 :: str "refs" ++ 47 :: ref).
  { revert Henv. unfold setup_git_env. rewrite Hdir. cbn. intros Henv.
    apply bind_Ret_inv in Henv as (o&_&Henv). apply bind_Ret_inv in Henv as (i&_&[= <-]). unfold ref_file_name. cbn.
    by rewrite <- app_assoc. }
  rewrite Hname in Hfile. assert (H4 : length (str "refs") = 4%nat) by reflexivity. split.
  - unfold get_sha1. rewrite Hhex. cbn [mbind outcome_bind fst]. change (-1 =? 0) with false. rewrite cstr_app by done.
    unfold prefix. rewrite get_sha1_prefix_cons.
    rewrite (git_path_plain _ dir) by (try done; cbn [length app]; lia). cbn [mbind outcome_bind app].
    unfold get_sha1_file, read_hex_file at 1. rewrite Hnone. cbn [mbind outcome_bind]. rewrite get_sha1_prefix_cons.
    rewrite (git_path_plain _ dir) by (try done; rewrite length_app, H4; cbn [length]; lia). cbn [mbind outcome_bind].
    unfold get_sha1_file. by rewrite (read_hex_file_value _ _ _ Hfile), ref_value_line.
  - intros Hp. unfold read_ref. rewrite (git_path_format_plain _ dir); try done.
    + cbn [mbind outcome_bind]. change (str "refs/" ++ ref) with (str "refs" ++ 47 :: ref).
      by rewrite (read_hex_file_value _ _ _ Hfile), ref_value_line.
    + change (str "refs/" ++ ref) with ([114; 101; 102; 115; 47] ++ ref). rewrite not_elem_of_app. split; [|done].
      apply (bool_decide_unpack _). vm_compute. exact I.
    + change (str "refs" ++ 47 :: ref) with (str "refs/" ++ ref). rewrite length_app. change (length (str "refs/")) with 5%nat. lia.
Qed.

Definition no_env : bytes -> option bytes := fun _ => None.

Lemma get_sha1_reads_ref_witness :
  get_sha1 no_env (fun p => if bool_decide (p = ref_file_name refs_dir master) then Some (ref_line (name_of 7)) else None)
    (master ++ [0]) = Ret (Some (name_of 7)).
Proof.
  refine (proj1 (get_sha1_reads_ref no_env _ (str ".git")
    {| git_object_dir := str ".git/objects"; git_refs_dir := refs_dir; git_index_file := str ".git/index" |}
    master [] (name_of 7) [] _ _ _ _ _ _ _ _ _)).
  - reflexivity.
  - split; [exists 116; split; [reflexivity|lia]|reflexivity|vm_compute; lia].
  - vm_compute. lia.
  - apply (bool_decide_unpack _). vm_compute. exact I.
  - reflexivity.
  - by apply name_of_ok.
  - reflexivity.
  - reflexivity.
  - reflexivity.
Defined.

(** A reference whose name has a percent sign makes [printf] read arguments
    that are not there. *)
Example ref_name_is_format : read_ref no_env (fun _ => None) (str "refs/heads/100%s") = Ub.
Proof. reflexivity. Qed.

(** An even number of digits, and the byte behind the NUL is read. *)
Example get_sha1_reads_behind : get_sha1 no_env (fun _ => None) (str "cafe" ++ [0]) = Ub.
Proof. reflexivity. Qed.

(** ** All references *)

#[warnings="-register-all"]
Inductive ref_tree := RefFile (text : bytes) | RefDir (entries : list (bytes * ref_tree)).

Fixpoint depth (t : ref_tree) : nat :=
  match t with RefFile _ => 0 | RefDir es => S (max_list (map (fun e => depth e.2) es)) end.

Definition visible (name : bytes) : bool := negb (name_char name 0 =? 46) && (length name <=? 255)%nat.

Section Traversal.
Context (getenv file : bytes -> option bytes) (dir : bytes) (opendir : bytes -> option (list bytes))
  (lstat_is_dir : bytes -> option bool) {S : Type} (fn : bytes -> bytes -> S -> Z * S)
  {D} {DB : ObjectDB D} (db : D) (has : bytes -> bool).

(** The references of a tree, in the order of the directories: the files whose
    text starts with the name of an object that is there. *)
Fixpoint refs_in (path : bytes) (t : ref_tree) : list (bytes * bytes) :=
  match t with
  | RefFile text => match ref_value text with Some v => if has v then [(path, v)] else [] | None => [] end
  | RefDir es => flat_map (fun e => if visible e.1 then refs_in (path ++ 47 :: e.1) e.2 else []) es
  end.

(** [fn] on each, until it returns something else than 0. *)
Fixpoint visit (l : list (bytes * bytes)) (s : S) : Z * S :=
  match l with
  | [] => (0, s)
  | (path, v) :: l => let r := fn path v s in if negb (r.1 =? 0) then r else visit l r.2
  end.

Lemma visit_app l1 l2 s : visit (l1 ++ l2) s = let r := visit l1 s in if negb (r.1 =? 0) then r else visit l2 r.2.
Proof.
  revert s. induction l1 as [|[p v] l1 IH]; intros s; [done|]. cbn. destruct (negb ((fn p v s).1 =? 0)) eqn:E; [by rewrite E|].
  apply IH.
Qed.

Record path_ok (path : bytes) : Prop := {
  path_percent : 37 ∉ path;
  path_last : exists c, last path = Some c /\ c <> 47;
  path_dot : dot_slash path = false;
  path_length : (length dir + length path < PATH_MAX - 1)%nat }.

(** The tree is what the system calls show below [git_dir/path]. *)
Inductive mounted : bytes -> ref_tree -> Prop :=
| mounted_file path text : path_ok path -> lstat_is_dir (dir ++ 47 :: path) = Some false ->
    file (dir ++ 47 :: path) = Some text -> mounted path (RefFile text)
| mounted_dir path es : path_ok path -> lstat_is_dir (dir ++ 47 :: path) = Some true ->
    opendir (dir ++ 47 :: path) = Some es.*1 ->
    (forall n t, (n, t) ∈ es -> visible n = true -> mounted (path ++ 47 :: n) t) -> mounted path (RefDir es).

Lemma mounted_path path t : mounted path t -> path_ok path.
Proof. by destruct 1. Qed.

(** [do_for_each_ref] calls [fn] on exactly the references below a directory,
    each with its name and value, in the order of the directory entries, and
    stops at the first call that does not return 0, whose result it returns. *)
Theorem for_each_ref_spec (fuel : nat) (path : bytes) (es : list (bytes * ref_tree)) (s : S) :
  git_dir getenv = Ret dir -> plain_dir dir -> (forall sha1, db_has db sha1 = Ret (has sha1)) ->
  mounted path (RefDir es) -> (depth (RefDir es) <= fuel)%nat ->
  do_for_each_ref getenv file fn db opendir lstat_is_dir fuel path s = Ret (visit (refs_in path (RefDir es)) s).
Proof.
  intros Hdir Hplain Hhas. revert path es s. induction fuel as [|fuel IH]; intros path es s Hm Hd; [cbn in Hd; lia|].
  inversion Hm as [|? ? Hp _ Hopen Hes]; subst. cbn [do_for_each_ref].
  rewrite (git_path_format_plain _ dir) by (try done; apply Hp). cbn [mbind outcome_bind]. rewrite Hopen.
  rewrite (path_dot _ Hp). destruct (path_last _ Hp) as (c&Hl&Hc). rewrite (with_slash_plain _ c) by done.
  assert (Hfuel : Forall (fun e => (depth e.2 <= fuel)%nat) es).
  { cbn [depth] in Hd. apply le_S_n in Hd. apply Forall_forall. intros e He. etrans; [|exact Hd].
    apply max_list_elem_of_le. apply list_elem_of_fmap. by exists e. }
  clear Hm Hopen Hd. revert s. induction es as [|[n t] es IHes]; intros s; [done|].
  apply Forall_cons in Hfuel as [Hn Hfuel]. specialize (IHes (fun n t H => Hes n t (list_elem_of_further _ _ _ H)) Hfuel).
  specialize (Hes n t (list_elem_of_here _ _)). cbn [fmap list_fmap fst]. cbn [refs_in flat_map fst snd] in *.
  unfold visible in *. destruct (name_char n 0 =? 46); cbn [negb andb app] in *; [apply IHes|].
  destruct (Nat.leb_spec (length n) 255) as [Hlen|Hlen]; cbn [app].
  2:{ rewrite (proj2 (Nat.ltb_lt 255 (length n)) Hlen). apply IHes. }
  rewrite (proj2 (Nat.ltb_ge 255 (length n)) Hlen). rewrite <- app_assoc. cbn [app]. specialize (Hes eq_refl).
  pose proof (mounted_path _ _ Hes) as Hp'. rewrite (git_path_format_plain _ dir) by (try done; apply Hp').
  cbn [mbind outcome_bind]. rewrite visit_app. cbv zeta. inversion Hes as [? text _ Hls Hf|? sub _ Hls Hopen Hsub]; subst; rewrite Hls.
  - unfold read_ref. rewrite (git_path_format_plain _ dir) by (try done; apply Hp'). cbn [mbind outcome_bind].
    rewrite (read_hex_file_value _ _ _ Hf). cbn [refs_in]. destruct (ref_value text) as [v|]; [|apply IHes].
    cbn [mbind outcome_bind]. rewrite Hhas. destruct (has v); cbn [negb mbind outcome_bind]; [|apply IHes]. cbn [visit].
    destruct (negb ((fn (path ++ 47 :: n) v s).1 =? 0)) eqn:E; [by rewrite E|apply IHes].
  - cbn [snd] in Hn. rewrite (IH _ sub s Hes Hn). cbn [mbind outcome_bind].
    cbn [refs_in]; unfold visible. match goal with |- context [visit ?l s] => by destruct (negb ((visit l s).1 =? 0)); [|apply IHes] end.
Qed.

End Traversal.

Module RefsDemo.

Definition value : bytes := ref_line (name_of 7).
Definition tree : list (bytes * ref_tree) := [(str "heads", RefDir [(str "master", RefFile value); (str ".hidden", RefFile [])]); (str "junk", RefFile (str "junk"))].
Definition files : gmap bytes bytes := {[ str ".git/refs/heads/master" := value; str ".git/refs/junk" := str "junk" ]}.
Definition dirs : gmap bytes (list bytes) :=
  {[ str ".git/refs" := [str "heads"; str "junk"]; str ".git/refs/heads" := [str "master"; str ".hidden"] ]}.
Definition is_dir (path : bytes) : option bool :=
  if bool_decide (is_Some (dirs !! path)) then Some true else if bool_decide (is_Some (files !! path)) then Some false else None.
Definition db : ObjectDB unit := {| db_has _ _ := Ret true; db_read _ _ := io_ret None; db_nul _ _ := true; db_write _ _ _ := Ret (0, [], tt) |}.
Definition collect (path sha1 : bytes) (s : list bytes) : Z * list bytes := (0, s ++ [path]).

Ltac path_facts := split; [apply (bool_decide_unpack _); vm_compute; exact I|eexists; split; [vm_compute; reflexivity|discriminate]|reflexivity|vm_compute; lia].

Lemma tree_mounted : mounted (fun p => files !! p) (str ".git") (fun p => dirs !! p) is_dir (str "refs") (RefDir tree).
Proof.
  apply mounted_dir; [path_facts|reflexivity|reflexivity|]. unfold tree. intros n t [[= -> ->]|[[= -> ->]|[]%not_elem_of_nil]%elem_of_cons]%elem_of_cons _.
  - apply mounted_dir; [path_facts|reflexivity|reflexivity|].
    intros n t [[= -> ->]|[[= -> ->]|[]%not_elem_of_nil]%elem_of_cons]%elem_of_cons Hv; [|done].
    apply mounted_file; [path_facts|reflexivity|reflexivity].
  - apply mounted_file; [path_facts|reflexivity|reflexivity].
Qed.

End RefsDemo.

Lemma for_each_ref_spec_witness :
  for_each_ref no_env (fun p => RefsDemo.files !! p) RefsDemo.collect (DB := RefsDemo.db) tt (fun p => RefsDemo.dirs !! p)
    RefsDemo.is_dir 2 [] = Ret (0, [str "refs/heads/master"]).
Proof.
  unfold for_each_ref.
  rewrite (for_each_ref_spec no_env (fun p => RefsDemo.files !! p) (str ".git") (fun p => RefsDemo.dirs !! p) RefsDemo.is_dir
    RefsDemo.collect (DB := RefsDemo.db) tt (fun _ => true) 2 (str "refs") RefsDemo.tree []).
  - vm_compute. reflexivity.
  - reflexivity.
  - split; [exists 116; split; [reflexivity|lia]|reflexivity|vm_compute; lia].
  - reflexivity.
  - exact RefsDemo.tree_mounted.
  - vm_compute. lia.
Defined.
