(* ===== verification/ReadTreeMain.v ===== *)
(** * git-read-tree (the [main] of read-tree.c)

    Trees named on the command line are read into the index, one per stage,
    merged if [-m] is given, and the index is written.  The parts are those of
    Names.v, ObjectStore.v, Tree.v, ReadTree.v and IndexFile.v. *)

From stdpp Require Import base list numbers strings gmap.
From Stdlib Require Import ZArith Lia.
From S2P Require Import Prelude.
From S2P Require Import Sha1.
From S2P Require Import Hex.
From S2P Require Import CString.
From S2P Require Import CsumFile.
From S2P Require Import Zlib.
From S2P Require Import ObjectHeader.
From S2P Require Import CacheEntry.
From S2P Require Import Index.
From S2P Require Import IndexFile.
From S2P Require Import ObjectStore.
From S2P Require Import ObjectDB.
From S2P Require Import Tree.
From S2P Require Import TreeStore.
From S2P Require Import Entry.
From S2P Require Import ReadTree.
From S2P Require Import Names.

Section ReadTreeMain.
Context `{ZlibLaws} (sys : os) (malloc_ok : Z -> bool) (flag : bool) (db : odb).
Context {W} {FS : FileSystem W} (getenv file : bytes -> option bytes) (argv_end : bytes).

#[local] Hint Extern 0 (ObjectDB odb) => exact (odb_db sys malloc_ok flag) : typeclass_instances.

(** ** Code *)

(** The index, [None] while [active_cache] is a null pointer. *)
Definition unpack_tree (fuel : nat) (ix : option index) (sha1 : bytes) (stage : Z) : io (Z * option index) :=
  r <- read_object_with_reference sys malloc_ok fuel flag db sha1 (str "tree") ;;
  match r with
  | None => io_ret (-1, ix)
  | Some (_, buffer) =>
      r <- read_tree fuel db (default empty_index ix) buffer stage ;;
      let '(ret, ix) := r in io_ret (ret, Some ix)
  end.

(** The statics [stage] and [update], the locals of [main] and the index. *)
Record rt := { stage : Z; update : bool; merge : bool; emu23 : bool; ix : option index }.

Definition merging (s : rt) : bool := negb (stage s =? 0) || merge s || emu23 s.

(** The three options that start a merge. *)
Definition start_merge (s : rt) (index_file : option bytes) (reset with_emu23 : bool) : outcome rt :=
  if merging s then Die
  else
    r ← read_cache_unmerged (ix s) index_file;
    if negb reset && negb (r.1 =? 0) then Die
    else Ret {| stage := 1; update := update s; merge := true; emu23 := with_emu23; ix := r.2 |}.

(** An argument that is no option; [arg] is followed in memory by a NUL and
    by [argv_end]. *)
Definition name_tree (fuel : nat) (s : rt) (arg : bytes) : io rt :=
  g <- Some (get_sha1 getenv file (arg ++ 0 :: argv_end)) ;;
  match g with
  | None => Some Die
  | Some sha1 =>
      if 3 <? stage s then Some Die
      else
        r <- unpack_tree fuel (ix s) sha1 (stage s) ;;
        let '(ret, i) := r in
        if ret <? 0 then Some Die
        else io_ret {| stage := stage s + 1; update := update s; merge := merge s; emu23 := emu23 s; ix := i |}
  end.

Fixpoint main_args (fuel : nat) (index_file : option bytes) (s : rt) (args : list bytes) : io rt :=
  match args with
  | [] => io_ret s
  | arg :: args =>
      s <- (if bool_decide (arg = str "-u") then
              io_ret {| stage := stage s; update := true; merge := merge s; emu23 := emu23 s; ix := ix s |}
            else if bool_decide (arg = str "--reset") then Some (start_merge s index_file true false)
            else if bool_decide (arg = str "-m") then Some (start_merge s index_file false false)
            else if bool_decide (arg = str "--emu23") then Some (start_merge s index_file false true)
            else name_tree fuel s arg) ;;
      main_args fuel index_file s args
  end.

(** [if (merge)]. *)
Definition merge_trees (w : W) (s : rt) : io (index * W) :=
  let i := default empty_index (ix s) in
  if (stage s <? 2) || (4 <? stage s) then Some Die
  else if emu23 s && negb (stage s =? 3) then Some Die
  else if (stage s =? 3) && emu23 s then
    i <- setup_emu23 i ;; merge_cache w db (update s) i (threeway_merge w)
  else
    merge_cache w db (update s) i
      (if stage s =? 2 then oneway_merge w else if stage s =? 3 then twoway_merge w else threeway_merge w).

(** The new index file and the working tree; [hold_ok] and [commit_ok] say
    whether the index can be locked and the lock renamed. *)
Definition read_tree_main (hold_ok commit_ok : bool) (write_ok : nat -> bool) (fuel : nat) (w : W)
    (index_file : option bytes) (args : list bytes) : io (bytes * W) :=
  if negb hold_ok then Some Die
  else
    s <- main_args fuel index_file {| stage := 0; update := false; merge := false; emu23 := false; ix := None |} args ;;
    if update s && negb (merge s) then Some Die
    else
      r <- (if merge s then merge_trees w s else io_ret (default empty_index (ix s), w)) ;;
      let '(i, w) := r in
      f <- Some (write_cache write_ok (active_cache i)) ;;
      match f with
      | Some new => if commit_ok then io_ret (new, w) else Some Die
      | None => Some Die
      end.

End ReadTreeMain.

(** ** Reading a written tree *)

Lemma leaf_ce_storable stage l :
  0 <= stage < 4 -> leaf_ok l -> (length (leaf_path l) < 4096)%nat -> bytes_ok (leaf_path l) -> bytes_ok l.2 ->
  ce_storable (leaf_ce stage l) /\ ce_mode (leaf_ce stage l) <> 0.
Proof.
  intros Hs [Hm Hl] Hp Hb Hb2. destruct l as [[path mode] sha1]. cbn [fst snd] in *. split.
  - split; [by apply leaf_ce_wf| |done|done].
    destruct Hm as [->|[->| ->]]; (apply (bool_decide_unpack _); vm_compute; exact I).
  - by destruct Hm as [->|[->| ->]].
Qed.

Lemma leaf_ce_leaf stage l : leaf_ok l -> ce_leaf (leaf_ce stage l) = l.
Proof.
  destruct l as [[path mode] sha1]. intros [Hm _]. cbn in Hm. unfold ce_leaf, leaf_ce, tree_ce. cbn [ce_name ce_mode ce_sha1 fst snd].
  by rewrite (proj1 (git_mode_canonical mode Hm)).
Qed.

Lemma restored_storable {D} `{ObjectDB D} (db : D) cache :
  storable db cache -> Forall (fun ce => bytes_ok (ce_name ce)) cache ->
  Forall ce_storable (map (leaf_ce 0) (map ce_leaf cache)) /\ Forall live (map (leaf_ce 0) (map ce_leaf cache)).
Proof.
  intros [_ _ _ He Hl _ _ _] Hn. apply Forall_and. rewrite !Forall_map in *. rewrite Forall_forall in *. intros ce Hce.
  destruct (He ce Hce) as [Hwf _ [_ Hb]]. apply (leaf_ce_storable 0 (ce_leaf ce)); [lia|by apply Hl|apply (wf_len ce Hwf)|by apply Hn|done].
Qed.

Section Restore.
Context `{ZlibLaws} (sys : os) (malloc_ok : Z -> bool) (flag : bool).
Context {W} {FS : FileSystem W} (getenv files : bytes -> option bytes).

#[local] Hint Extern 0 (ObjectDB odb) => exact (odb_db sys malloc_ok flag) : typeclass_instances.

(** The name of a tree alone on the command line. *)
Lemma read_tree_main_one db hold fuel argv_end (w : W) index_file root buf i' wok :
  sha1_ok root -> read_sha1_file sys malloc_ok flag db root = io_ret (Some (tree_type, buf)) ->
  read_tree fuel db empty_index buf 0 = io_ret (0, i') -> (0 < fuel)%nat ->
  read_tree_main sys malloc_ok flag db getenv files argv_end hold true wok fuel w index_file [sha1_to_hex root] =
  if negb hold then Some Die
  else
    f <- Some (write_cache wok (active_cache i')) ;; match f with Some new => io_ret (new, w) | None => Some Die end.
Proof.
  intros [Hl Hb] Hr Ht Hf. unfold read_tree_main. destruct hold; [|done]. cbn [negb main_args].
  pose proof (length_sha1_to_hex root Hl) as H40.
  rewrite !bool_decide_false by (intros E; rewrite E in H40; discriminate H40).
  unfold name_tree. unfold get_sha1. rewrite get_sha1_hex_roundtrip by done. cbn.
  unfold unpack_tree. destruct fuel as [|fuel]; [lia|]. cbn [read_object_with_reference]. rewrite Hr. cbn [io_bind io_ret].
  rewrite bool_decide_true by reflexivity. cbn [io_bind io_ret default]. rewrite Ht. done.
Qed.

(** C6. [git-write-tree] and then [git-read-tree] of the name it prints restore
    the index: the new index file has the same paths, modes and objects in the
    same order, whatever index there was, unless its length leaves fewer than
    20 bytes in the last buffer. *)
Theorem read_tree_restores_index (db : odb) (file : bytes) (nr : Z) (i : index) (buf : bytes) (objs : list bytes) :
  let restored := map (leaf_ce 0) (map ce_leaf (active_cache i)) in
  sys_works sys -> bytes_ok file -> read_cache None (Some file) = Ret (nr, Some i) -> storable db (active_cache i) ->
  Forall (fun ce => bytes_ok (ce_name ce)) (active_cache i) ->
  tree_of [] (map ce_leaf (active_cache i)) buf objs ->
  no_collisions (map (pair tree_type) (buf :: objs)) ->
  odb_inv sys malloc_ok flag (map (pair tree_type) (buf :: objs)) db ->
  Z.of_nat (length (index_body restored)) < 2 ^ 31 -> Z.of_nat (length (index_body restored)) mod 8192 <= 8172 ->
  exists db' root, write_tree_main db (Some file) = io_ret (root, db') /\
    forall fuel argv_end (w : W) index_file, (tree_fuel (active_cache i) <= fuel)%nat -> exists new i',
      read_tree_main sys malloc_ok flag db' getenv files argv_end true true (fun _ => true) fuel w index_file [sha1_to_hex root] =
        io_ret (new, w) /\
      read_cache None (Some new) = Ret (Z.of_nat (length (active_cache i)), Some i') /\
      active_cache i' = restored /\ map ce_leaf (active_cache i') = map ce_leaf (active_cache i).
Proof.
  intros restored Hsys Hfile Hrc Hst Hnames Ht Hnc Hinv Hsize Hmod.
  pose proof (odb_laws sys malloc_ok flag _ Hsys Hnc) as Hlaws.
  destruct (write_read_tree_laws db file nr i buf objs Hfile Hrc Hst Hinv Ht eq_refl) as (db'&Hw&_&Hall&Hr).
  { apply Forall_forall. intros o Ho. destruct Hnc as [Hok _].
    destruct (Hok (tree_type, o) (list_elem_of_fmap_2 _ _ _ Ho)) as (_&_&_&Hl). cbn in Hl. lia. }
  assert (Hname : sha1_ok (object_name tree_type buf)).
  { apply (@db_name_ok _ _ _ _ Hlaws (tree_type, buf)). apply list_elem_of_fmap_2, list_elem_of_here. }
  exists db', (object_name tree_type buf). split; [exact Hw|]. intros fuel argv_end w index_file Hfuel.
  destruct (Hr 0 fuel ltac:(lia) Hfuel) as (i'&Hread&Hi'). fold restored in Hi'.
  assert (Hok : Forall ce_storable restored /\ Forall live restored) by (by eapply restored_storable).
  destruct Hok as [Hcs Hlive].
  assert (Hfl : filter live restored = restored).
  { clear -Hlive. induction Hlive as [|x l Hx _ IH]; [done|]. by rewrite filter_cons_True, IH. }
  assert (Hwc : write_cache (fun _ => true) restored = Ret (Some (index_body restored ++ Fips.sha1 (index_body restored)))).
  { rewrite write_cache_total by (by rewrite ?Hfl). change (8192 - 20) with 8172. by rewrite (proj2 (Z.leb_le _ _) Hmod). }
  apply Forall_cons in Hall as [[_ Hroot] _].
  eexists _, _. split; [|split; [|split]].
  - assert (Hpos : (0 < fuel)%nat) by (unfold tree_fuel in Hfuel; lia).
    rewrite (read_tree_main_one _ _ _ _ _ _ _ buf i' _ Hname Hroot Hread Hpos).
    cbn [negb]. by rewrite Hi', Hwc.
  - rewrite (proj2 (write_cache_read_back _ _ _ ltac:(by rewrite Hfl) Hsize Hwc)), Hfl. unfold restored. by rewrite !length_map.
  - done.
  - cbn [active_cache]. unfold restored. rewrite !map_map. apply map_ext_in. intros ce Hce%list_elem_of_In.
    apply leaf_ce_leaf. pose proof (st_leaves _ _ Hst) as Hls. rewrite Forall_map, Forall_forall in Hls. by apply Hls.
Qed.

End Restore.

Definition no_environment : bytes -> option bytes := fun _ => None.

Lemma read_tree_restores_index_witness :
  exists db' root,
    write_tree_main (H := TreeStore.store (H := Stored.stored) StoreDemo.sys (fun _ => true) false) TreeDemo.db (Some TreeDemo.file) =
      io_ret (root, db') /\
    exists new i', read_tree_main (H := Stored.stored) StoreDemo.sys (fun _ => true) false db' no_environment no_environment []
      true true (fun _ => true) (tree_fuel TreeDemo.cache) (∅ : MemFs.fs) None [sha1_to_hex root] = io_ret (new, ∅) /\
      read_cache None (Some new) = Ret (4, Some i') /\ map ce_leaf (active_cache i') = map ce_leaf TreeDemo.cache.
Proof.
  destruct (read_tree_restores_index (H := Stored.stored) (H0 := Stored.stored_laws) StoreDemo.sys (fun _ => true) false
    no_environment no_environment TreeDemo.db TreeDemo.file 4 TreeDemo.result TreeDemo.root TreeDemo.objs) as (db'&root&Hw&Hr).
  - split; [reflexivity|]. split; [reflexivity|]. split; [reflexivity|]. split; reflexivity.
  - apply (bool_decide_unpack _). vm_compute. exact I.
  - vm_compute. reflexivity.
  - exact TreeDemo.cache_storable.
  - apply (bool_decide_unpack _). vm_compute. exact I.
  - exact TreeDemo.trees.
  - exact TreeDemo.no_tree_collisions.
  - exact TreeDemo.not_stored.
  - vm_compute. reflexivity.
  - vm_compute. discriminate.
  - exists db', root. split; [exact Hw|].
    destruct (Hr (tree_fuel TreeDemo.cache) [] ∅ None (le_n _)) as (new&i'&H1&H2&_&H3).
    exists new, i'. split; [exact H1|]. split; [exact H2|exact H3].
Defined.

(** [read_cache_unmerged] drops the value of [read_cache]: with an index that
    cannot be read, [-m] starts from an empty one. *)
Example unreadable_index_ignored :
  let start := {| stage := 0; update := false; merge := false; emu23 := false; ix := None |} in
  read_cache None (Some (str "damaged")) = Ret (-1, None) /\
  start_merge start (Some (str "damaged")) false false =
    Ret {| stage := 1; update := false; merge := true; emu23 := false; ix := None |}.
Proof. split; vm_compute; reflexivity. Qed.
