(* ===== verification/History.v ===== *)
(** * Walking through history (commit.c over the object database)

    A history is a finite map from the names of commits to what their texts
    say, closed under parents.  While only its commits are looked at, the
    objects in memory stay consistent with it: [parse_commit] and
    [pop_most_recent_commit] succeed and do what the history says. *)

From stdpp Require Import base list numbers strings gmap relations.
From Stdlib Require Import ZArith Lia.
From S2P Require Import Prelude.
From S2P Require Import CsumFile.
From S2P Require Import CString.
From S2P Require Import ObjectHeader.
From S2P Require Import ObjectDB.
From S2P Require Import Objects.
From S2P Require Import ObjectParse.
From S2P Require Import Commit.

Record cinfo := { ci_tree : bytes; ci_parents : list bytes; ci_author : bytes; ci_who : bytes; ci_date : Z; ci_rest : bytes }.

Definition ci_text (ci : cinfo) : bytes :=
  commit_text (ci_tree ci) (ci_parents ci) (ci_author ci) (ci_who ci) (ci_date ci) (ci_rest ci).

Abbreviation history := (gmap bytes cinfo).

Record cinfo_ok (hist : history) (ci : cinfo) : Prop := {
  ci_tree_ok : sha1_ok (ci_tree ci);
  ci_tree_only : hist !! ci_tree ci = None;
  ci_parents_ok : Forall (fun p => sha1_ok p /\ is_Some (hist !! p)) (ci_parents ci);
  ci_author_ok : 10 ∉ ci_author ci;
  ci_who_ok : 62 ∉ ci_who ci;
  ci_date_ok : 0 <= ci_date ci < 2 ^ 64 - 1;
  ci_size : Z.of_nat (length (ci_text ci)) < 2 ^ 64;
  ci_few : Z.of_nat (length (ci_parents ci)) < 2 ^ 20 }.

(** The commits of [hist] are in the database. *)
Record history_ok {D} {DB : ObjectDB D} (db : D) (hist : history) : Prop := {
  hist_names : forall n ci, hist !! n = Some ci -> sha1_ok n;
  hist_infos : forall n ci, hist !! n = Some ci -> cinfo_ok hist ci;
  hist_read : forall n ci, hist !! n = Some ci -> db_read db n = io_ret (Some (str "commit", ci_text ci));
  hist_small : Z.of_nat (size hist) < 2 ^ 20 }.

(** One is a parent of the other; ancestors, a commit itself included. *)
Definition parent_of (hist : history) (n p : bytes) : Prop := exists ci, hist !! n = Some ci /\ p ∈ ci_parents ci.
Definition ancestor (hist : history) : relation bytes := rtc (parent_of hist).

Section Walk.
Context {D} {DB : ObjectDB D} (db : D) (hist : history) (Hh : history_ok db hist).

(** ** Objects in memory that belong to the history *)

Definition known (o : object) : Prop :=
  o_type o = Some OCommit /\ is_Some (hist !! o_sha1 o) \/
  o_type o = Some OTree /\ exists n ci, hist !! n = Some ci /\ ci_tree ci = o_sha1 o.

Definition agrees (st : objects) (o : object) : Prop := forall c ci, o_body o = Commit c -> hist !! o_sha1 o = Some ci ->
  if o_parsed o then date c = ci_date ci /\ Forall2 (fun s p => typed st OCommit p /\ obj_sha1 st p = s) (ci_parents ci) (parents c)
  else parents c = [].

Record in_history (st : objects) : Prop := {
  in_objects : objects_ok st;
  in_known : forall p o, heap st !! p = Some o -> known o;
  in_agrees : forall p o, heap st !! p = Some o -> agrees st o }.

(** [st'] comes later: objects keep names and types and stay parsed. *)
Definition later (st st' : objects) : Prop := forall p o, heap st !! p = Some o -> exists o', heap st' !! p = Some o' /\
  o_sha1 o' = o_sha1 o /\ o_type o' = o_type o /\ (o_parsed o = true -> o_parsed o' = true).

Definition flag_of (st : objects) (p : nat) : Z := match heap st !! p with Some o => o_flags o | None => 0 end.

Definition parsed (st : objects) (p : nat) : Prop := exists o, heap st !! p = Some o /\ o_type o = Some OCommit /\ o_parsed o = true.

#[export] Instance later_preorder : PreOrder later.
Proof.
  split; [intros st p o Hp; by exists o|]. intros a b c H1 H2 p o Hp. destruct (H1 p o Hp) as (o1&Hp1&E1&F1&G1).
  destruct (H2 p o1 Hp1) as (o2&Hp2&E2&F2&G2). exists o2. split_and!; [done|congruence..|auto].
Qed.

Lemma later_typed st st' t p : later st st' -> typed st t p -> typed st' t p.
Proof. intros Hl (o&Hp&Ht). destruct (Hl p o Hp) as (o'&Hp'&_&E&_). exists o'. split; congruence. Qed.

Lemma later_parsed st st' p : later st st' -> parsed st p -> parsed st' p.
Proof. intros Hl (o&Hp&Ht&Hpa). destruct (Hl p o Hp) as (o'&Hp'&_&E&G). exists o'. split_and!; [done|congruence|by apply G]. Qed.

Lemma later_sha1 st st' t p : later st st' -> typed st t p -> obj_sha1 st' p = obj_sha1 st p.
Proof. intros Hl (o&Hp&Ht). destruct (Hl p o Hp) as (o'&Hp'&E&_). unfold obj_sha1. by rewrite Hp, Hp'. Qed.

Lemma parsed_typed st p : parsed st p -> typed st OCommit p.
Proof. intros (o&Hp&Ht&_). by exists o. Qed.

Lemma typed_commit st p : in_history st -> typed st OCommit p -> is_commit st p.
Proof.
  intros Hi (o&Hp&Ht). pose proof (wf_type st o (ok_objs st (in_objects st Hi) p o Hp)) as Hw. rewrite Ht in Hw.
  destruct (o_body o) as [| |c|] eqn:Eb; try discriminate Hw. by exists o, c.
Qed.

Lemma typed_name st p : in_history st -> typed st OCommit p -> exists ci, hist !! obj_sha1 st p = Some ci.
Proof.
  intros Hi (o&Hp&Ht). destruct (in_known st Hi p o Hp) as [[_ [ci Hci]]|[E _]]; [|congruence]. exists ci. unfold obj_sha1. by rewrite Hp.
Qed.

Lemma parsed_commit_body st p : in_history st -> parsed st p -> exists o c, heap st !! p = Some o /\ o_body o = Commit c.
Proof. intros Hi Hp. by apply typed_commit, parsed_typed. Qed.

(** A commit that has been parsed has the parents of the history. *)
Lemma parsed_parents st p : in_history st -> parsed st p -> exists c ci,
  get_commit st p = Ret c /\ hist !! obj_sha1 st p = Some ci /\ date c = ci_date ci /\
  Forall2 (fun s q => typed st OCommit q /\ obj_sha1 st q = s) (ci_parents ci) (parents c).
Proof.
  intros Hi Hp. destruct (typed_name st p Hi (parsed_typed _ _ Hp)) as [ci Hci].
  destruct (typed_commit st p Hi (parsed_typed _ _ Hp)) as (o&c&Ho&Hb). destruct Hp as (o'&Ho'&_&Hpa). rewrite Ho in Ho'. injection Ho' as <-.
  exists c, ci. unfold get_commit, get. rewrite Ho, bind_Ret, Hb. split_and!; try done.
  all: pose proof (in_agrees st Hi p o Ho c ci Hb) as Hag; unfold obj_sha1 in Hci; rewrite Ho in Hci; rewrite Hpa in Hag; by apply Hag.
Qed.

(** ** There are not many objects *)

Definition hist_objects : list bytes := (map_to_list hist).*1 ++ ((fun e => ci_tree e.2) <$> map_to_list hist).

Lemma known_name o : known o -> o_sha1 o ∈ hist_objects.
Proof.
  unfold hist_objects. rewrite elem_of_app. intros [[_ [ci Hci]]|(_&n&ci&Hci&<-)]; apply elem_of_map_to_list in Hci.
  - left. apply list_elem_of_fmap. by exists (o_sha1 o, ci).
  - right. apply list_elem_of_fmap. by exists (n, ci).
Qed.

Lemma heap_length st : in_history st -> (length (heap st) <= 2 * size hist)%nat.
Proof.
  intros Hi. assert (Hle : (length (o_sha1 <$> heap st) <= length hist_objects)%nat).
  { apply submseteq_length, NoDup_submseteq.
    - apply NoDup_alt. intros i j n Hx Hy. rewrite list_lookup_fmap in Hx, Hy.
      destruct (heap st !! i) as [oi|] eqn:Ei; [|done]. destruct (heap st !! j) as [oj|] eqn:Ej; [|done]. injection Hx as Hx. injection Hy as Hy.
      assert (Hl : length n = 20%nat) by (rewrite <- Hx; by apply (wf_sha1 st), (ok_objs st (in_objects st Hi) i)).
      assert (Hfi : lookup_object st n = Some i) by (apply lookup_object_iff; [apply Hi|done|by exists oi]).
      assert (Hfj : lookup_object st n = Some j) by (apply lookup_object_iff; [apply Hi|done|by exists oj]). congruence.
    - intros n (o&->&Ho)%list_elem_of_fmap. apply list_elem_of_lookup in Ho as [p Hp]. by eapply known_name, in_known. }
  rewrite length_fmap in Hle. unfold hist_objects in Hle. rewrite length_app, !length_fmap, length_map_to_list in Hle. lia.
Qed.

(** ** Parsing *)

Lemma agrees_later st st' o : later st st' -> agrees st o -> agrees st' o.
Proof.
  intros Hl Ha c ci Hb Hci. specialize (Ha c ci Hb Hci). destruct (o_parsed o); [|done]. destruct Ha as [Hd HF]. split; [done|].
  eapply Forall2_impl; [exact HF|]. intros n q [Ht Hn]. split; [by eapply later_typed|]. by rewrite (later_sha1 st st' OCommit).
Qed.

Lemma known_typed st n p t : in_history st -> length n = 20%nat -> lookup_object st n = Some p -> typed st t p ->
  exists o, heap st !! p = Some o /\ o_sha1 o = n /\ o_type o = Some t /\ known o.
Proof.
  intros Hi Hl Hp (o&Ho&Ht). apply (lookup_object_iff st (in_objects st Hi)) in Hp as (o'&Ho'&Hn); [|done]. rewrite Ho in Ho'.
  injection Ho' as <-. exists o. split_and!; [done..|]. by apply (in_known st Hi p).
Qed.

Lemma tree_free st n ci : in_history st -> hist !! n = Some ci -> free_for OTree st (ci_tree ci).
Proof.
  intros Hi Hci p t Hp Ht. pose proof (hist_infos db hist Hh n ci Hci) as Hok.
  destruct (known_typed st _ p t Hi (proj1 (ci_tree_ok _ _ Hok)) Hp Ht) as (o&_&Hn&Et&[[E [ci' Hk]]|[E _]]); [|congruence].
  rewrite Hn, (ci_tree_only _ _ Hok) in Hk. discriminate.
Qed.

Lemma commit_free st n : in_history st -> is_Some (hist !! n) -> free_for OCommit st n.
Proof.
  intros Hi [ci Hci] p t Hp Ht. pose proof (hist_names db hist Hh n ci Hci) as [Hl _].
  destruct (known_typed st n p t Hi Hl Hp Ht) as (o&_&Hn&Et&[[E _]|(_&n'&ci'&Hci'&Ek)]); [congruence|].
  pose proof (ci_tree_only _ _ (hist_infos db hist Hh n' ci' Hci')) as Hno. rewrite Ek, Hn, Hci in Hno. discriminate.
Qed.

Lemma new_known o ci n : hist !! n = Some ci ->
  unknown (fun t s => t = OTree /\ s = ci_tree ci \/ t = OCommit /\ s ∈ ci_parents ci) o -> known o.
Proof.
  intros Hci (_&_&t&Ht&_&[[-> E]|[-> Hin]]); [right; split; [done|]; exists n, ci; by rewrite E|left].
  split; [done|]. pose proof (ci_parents_ok _ _ (hist_infos db hist Hh n ci Hci)) as HF. rewrite Forall_forall in HF. by apply HF.
Qed.

(** The parser on a commit not parsed yet. *)
Lemma parse_buffer_new nul st p o c ci :
  in_history st -> heap st !! p = Some o -> o_body o = Commit c -> o_parsed o = false -> hist !! o_sha1 o = Some ci ->
  exists st1 o1 c1, parse_commit_buffer nul st p (ci_text ci) = Ret (0, st1) /\
    heap st1 !! p = Some o1 /\ o_parsed o1 = true /\ o_body o1 = Commit c1 /\ objects_ok st1 /\
    date c1 = ci_date ci /\ Forall2 (fun s q => typed st1 OCommit q /\ obj_sha1 st1 q = s) (ci_parents ci) (parents c1) /\
    frame p (fun t s => t = OTree /\ s = ci_tree ci \/ t = OCommit /\ s ∈ ci_parents ci) st st1.
Proof.
  intros Hi Ho Hb Hp Hci. destruct (hist_infos db hist Hh _ ci Hci) as [C1 C2 C3 C4 C5 C6 _ C7].
  pose proof (heap_length st Hi) as Hlen. pose proof (hist_small db hist Hh) as Hsmall.
  destruct (parse_commit_buffer_exact nul st p o c (ci_tree ci) (ci_parents ci) (ci_author ci) (ci_who ci) (ci_date ci) (ci_rest ci))
    as (st1&t&new&E&Hg&Hb1&_&_&Hnew&(o1&Ho1&Hp1)&Hf); try done.
  - apply Hi.
  - by apply (tree_free st (o_sha1 o)).
  - eapply Forall_impl; [exact C3|]. by intros n [H _].
  - eapply Forall_impl; [exact C3|]. intros n [_ H]. by apply commit_free.
  - intros Hin. rewrite Forall_forall in C3. destruct (C3 _ Hin) as [_ [ci' H]]. congruence.
  - lia.
  - destruct Hb1 as (o1'&Ho1'&Hbo1). rewrite Ho1 in Ho1'. injection Ho1' as <-.
    pose proof (in_agrees st Hi p o Ho c ci Hb Hci) as Hag. rewrite Hp in Hag. rewrite Hag in Hbo1. cbn [app] in Hbo1.
    eexists st1, o1, _. split; [exact E|]. split; [exact Ho1|]. split; [exact Hp1|]. split; [exact Hbo1|]. by destruct Hg as [Hok _].
Qed.

(** Nothing in a [frame] goes wrong but what the parser does to its commit. *)
Lemma frame_history st st1 p o o1 ci : in_history st -> heap st !! p = Some o -> o_parsed o = false -> hist !! o_sha1 o = Some ci ->
  heap st1 !! p = Some o1 -> agrees st1 o1 -> objects_ok st1 ->
  frame p (fun t s => t = OTree /\ s = ci_tree ci \/ t = OCommit /\ s ∈ ci_parents ci) st st1 ->
  in_history st1 /\ later st st1 /\ forall q, flag_of st1 q = flag_of st q.
Proof.
  intros Hi Ho Hp Hci Ho1 Ha Hok1 [Hf1 Hf2].
  assert (Hl : later st st1).
  { intros q oq Hq. destruct (Hf1 q oq Hq) as (oq'&Hq'&Q1&Q2&_&Q3&_). by exists oq'. }
  split; [split; [exact Hok1| |]|split; [exact Hl|]].
  - intros q oq Hq. destruct (decide (q < length (heap st))%nat) as [Hq0|Hq0]; [|eapply new_known; [exact Hci|apply (Hf2 q oq Hq); lia]].
    destruct (lookup_lt_is_Some_2 _ _ Hq0) as [ox Hox]. destruct (Hf1 q ox Hox) as (ox'&Hox'&Q1&Q2&_). rewrite Hq in Hox'. injection Hox' as <-.
    pose proof (in_known st Hi q ox Hox) as Hk. unfold known in *. by rewrite Q1, Q2.
  - intros q oq Hq. destruct (decide (q = p)) as [->|Hne]; [rewrite Ho1 in Hq; by injection Hq as <-|].
    destruct (decide (q < length (heap st))%nat) as [Hq0|Hq0].
    + destruct (lookup_lt_is_Some_2 _ _ Hq0) as [ox Hox]. destruct (Hf1 q ox Hox) as (ox'&Hox'&Q1&Q2&_&_&Q3). rewrite Hq in Hox'. injection Hox' as <-.
      destruct (Q3 Hne) as [Q4 Q5]. pose proof (agrees_later st _ ox Hl (in_agrees st Hi q ox Hox)) as Hax.
      intros c2 ci2 Hc2 Hci2. rewrite Q5 in Hc2. rewrite Q1 in Hci2. rewrite Q4. by apply (Hax c2).
    + intros c2 ci2 Hc2 _. destruct (Hf2 q oq Hq) as (_&Hnp&t&_&Hfb&_); [lia|]. rewrite Hnp. rewrite Hfb in Hc2.
      destruct t; try discriminate Hc2. by injection Hc2 as <-.
  - intros q. unfold flag_of. destruct (heap st !! q) as [ox|] eqn:Hox; [by destruct (Hf1 q ox Hox) as (ox'&->&_&_&->&_)|].
    destruct (heap st1 !! q) as [oq|] eqn:Hq; [|done]. apply lookup_ge_None in Hox. by destruct (Hf2 q oq Hq Hox) as (->&_).
Qed.

(** [st'] comes after [st], with commit [p] parsed and the flags unchanged. *)
Definition parses (p : nat) (st st' : objects) : Prop :=
  in_history st' /\ later st st' /\ parsed st' p /\ forall q, flag_of st' q = flag_of st q.

Lemma parse_buffer_later nul st p ci : in_history st -> typed st OCommit p -> hist !! obj_sha1 st p = Some ci -> exists st',
  parse_commit_buffer nul st p (ci_text ci) = Ret (0, st') /\ parses p st st'.
Proof.
  intros Hi Ht Hci. destruct (typed_commit st p Hi Ht) as (o&c&Ho&Hb). pose proof Ht as (o'&Ho'&Eo). rewrite Ho in Ho'. injection Ho' as <-.
  unfold obj_sha1 in Hci. rewrite Ho in Hci. destruct (o_parsed o) eqn:Hp.
  { exists st. unfold parse_commit_buffer. rewrite (get_lookup _ _ _ Ho), bind_Ret, Hp. split; [done|]. split_and!; [done..|by exists o|done]. }
  destruct (parse_buffer_new nul st p o c ci Hi Ho Hb Hp Hci) as (st1&o1&c1&E&Ho1&Hp1&Hb1&Hok1&Hd&HF&Hfr).
  destruct (proj1 Hfr p o Ho) as (o1'&Ho1'&K1&K2&_). rewrite Ho1 in Ho1'. injection Ho1' as <-.
  destruct (frame_history st st1 p o o1 ci Hi Ho Hp Hci Ho1) as (Hi1&Hl1&Hf1); [|done..|].
  - intros c2 ci2 Hc2 Hci2. rewrite Hp1. rewrite Hb1 in Hc2. injection Hc2 as <-. rewrite K1, Hci in Hci2. by injection Hci2 as <-.
  - exists st1. split; [done|]. split_and!; [done..| |done]. exists o1. split_and!; [done|congruence|done].
Qed.

Lemma set_buffer_later st p o c b : in_history st -> heap st !! p = Some o -> o_body o = Commit c ->
  let st' := set st p (set_body o (Commit (set_buffer b c))) in
  in_history st' /\ later st st' /\ (parsed st p -> parsed st' p) /\ forall q, flag_of st' q = flag_of st q.
Proof.
  intros Hi Ho Hb st'. pose proof (in_objects st Hi) as Hok. assert (Hlt : (p < length (heap st))%nat) by (by eapply lookup_lt_Some).
  pose proof (wf_body _ _ (ok_objs st Hok p o Ho)) as Hw. rewrite Hb in Hw.
  destruct (set_body_ok st p o (Commit (set_buffer b c)) Hok Ho) as [Hok' He']; [by rewrite Hb|exact Hw|].
  assert (Hl : later st st').
  { intros q oq Hq. unfold st'. rewrite set_lookup by done. destruct (decide (q = p)) as [->|Hne]; [|by exists oq].
    rewrite Ho in Hq. injection Hq as <-. by eexists. }
  split; [split; [exact Hok'| |]|split; [exact Hl|split; [by apply later_parsed|]]].
  - intros q oq. unfold st'. rewrite set_lookup by done. destruct (decide (q = p)) as [->|Hne]; [intros [= <-]; exact (in_known st Hi p o Ho)|by apply in_known].
  - intros q oq Hq. unfold st' in Hq. rewrite set_lookup in Hq by done. destruct (decide (q = p)) as [->|Hne].
    + injection Hq as <-. apply (agrees_later st); [exact Hl|]. intros c2 ci2 Hc2 Hci2. injection Hc2 as <-. exact (in_agrees st Hi p o Ho c ci2 Hb Hci2).
    + apply (agrees_later st); [exact Hl|]. by apply (in_agrees st Hi q).
  - intros q. unfold flag_of, st'. rewrite set_lookup by done. by destruct (decide (q = p)) as [->|]; [rewrite Ho|].
Qed.

(** [parse_commit] succeeds on every commit of the history, changes no flags and
    leaves the objects in agreement with it. *)
Lemma parse_commit_later st p : in_history st -> typed st OCommit p -> exists st', parse_commit db st p = io_ret (0, st') /\ parses p st st'.
Proof.
  intros Hi Ht. destruct (typed_name st p Hi Ht) as [ci Hci]. destruct (parse_buffer_later (db_nul db (obj_sha1 st p)) st p ci Hi Ht Hci) as (st1&E&Hi1&Hl1&Hp1&Hf1).
  pose proof Ht as (o&Ho&Eo). unfold parse_commit, parse_item. rewrite (get_lookup _ _ _ Ho). cbn [io_bind]. destruct (o_parsed o) eqn:Hp.
  { exists st. split; [done|]. split_and!; [done..|by exists o|done]. }
  unfold obj_sha1 in Hci, E. rewrite Ho in Hci, E. rewrite (hist_read db hist Hh _ ci Hci). cbn [io_bind io_ret].
  change (bool_decide (cstr (str "commit") = type_name OCommit)) with true. cbn [negb]. rewrite E, bind_Ret. cbv beta iota.
  change (0 =? 0) with true. cbv iota. destruct (parsed_commit_body st1 p Hi1 Hp1) as (o1&c1&Ho1&Hb1).
  unfold with_commit. rewrite (get_lookup _ _ _ Ho1), bind_Ret, Hb1.
  destruct (set_buffer_later st1 p o1 c1 (ci_text ci) Hi1 Ho1 Hb1) as (Hi2&Hl2&Hp2&Hf2). eexists. split; [done|].
  split_and!; [done|by etrans|by apply Hp2|]. intros q. by rewrite Hf2, Hf1.
Qed.

(** ** Looking commits up *)

Lemma lookup_commit_later st n : in_history st -> is_Some (hist !! n) -> exists p st',
  lookup_commit st n = Ret (Some p, st') /\ in_history st' /\ later st st' /\ typed st' OCommit p /\ obj_sha1 st' p = n /\
  forall q, flag_of st' q = flag_of st q.
Proof.
  intros Hi Hn. pose proof Hn as [ci Hci]. destruct (hist_names db hist Hh n ci Hci) as [Hl _].
  pose proof (heap_length st Hi) as Hlen. pose proof (hist_small db hist Hh) as Hsmall. pose proof (in_objects st Hi) as Hok.
  destruct (lookup_typed_ok OCommit st n Hok Hl) as (r&st'&E&Hlu); [lia|].
  pose proof (lookup_typed_frame 0 _ _ _ _ _ Hok Hl E) as [_ Hnew]. destruct Hlu as (Hok'&Hpre&_&Hr).
  destruct r as [p|]; [|destruct Hr as (_&p&t'&Hp&Ht&Hne); exfalso; by apply Hne, (commit_free st n Hi Hn p t')].
  destruct Hr as (Ht&Hs&_). exists p, st'. split; [exact E|].
  assert (Hold : forall q o, heap st' !! q = Some o -> heap st !! q = Some o \/ unknown (fun t s => t = OCommit /\ s = n) o).
  { intros q o Hq. destruct (decide (q < length (heap st))%nat) as [Hlt|Hge]; [left|right; apply (Hnew q o Hq); lia].
    destruct (lookup_lt_is_Some_2 _ _ Hlt) as [o' Ho']. pose proof (prefix_lookup_Some _ _ _ _ Ho' Hpre). congruence. }
  assert (Hlat : later st st').
  { intros q o Hq. exists o. split; [by eapply prefix_lookup_Some|done]. }
  split_and!; try done; [split; [done| |]|].
  - intros q o Hq. destruct (Hold q o Hq) as [Ho|(_&_&t&Ht'&_&->&Hs')]; [by apply (in_known st Hi q)|left]. rewrite Hs'. done.
  - intros q o Hq. destruct (Hold q o Hq) as [Ho|(_&Hnp&t&_&Hb&->&_)]; [apply (agrees_later st); [done|by apply (in_agrees st Hi q)]|].
    intros c ci' Hc _. rewrite Hnp. rewrite Hb in Hc. by injection Hc as <-.
  - intros q. unfold flag_of. destruct (heap st' !! q) as [o|] eqn:Hq.
    + destruct (heap st !! q) as [o'|] eqn:Hq'; [pose proof (prefix_lookup_Some _ _ _ _ Hq' Hpre); congruence|].
      by destruct (Hold q o Hq) as [?|(->&_)]; [congruence|].
    + destruct (heap st !! q) as [o'|] eqn:Hq'; [|done]. pose proof (prefix_lookup_Some _ _ _ _ Hq' Hpre). congruence.
Qed.

(** [lookup_commit_reference] finds every commit of the history. *)
Lemma lookup_commit_reference_later st n : in_history st -> is_Some (hist !! n) -> exists p st',
  lookup_commit_reference db st n = io_ret (Some p, st') /\ in_history st' /\ later st st' /\ typed st' OCommit p /\ obj_sha1 st' p = n /\
  forall q, flag_of st' q = flag_of st q.
Proof.
  intros Hi Hn. destruct (lookup_commit_later st n Hi Hn) as (p&st1&E1&Hi1&Hl1&Ht1&Hs1&Hf1). destruct Hn as [ci Hci].
  rewrite <- Hs1 in Hci. destruct (parse_buffer_later (db_nul db n) st1 p ci Hi1 Ht1 Hci) as (st2&E2&Hi2&Hl2&Hp2&Hf2).
  destruct (parsed_commit_body st2 p Hi2 Hp2) as (o2&c2&Ho2&Hb2). rewrite Hs1 in Hci.
  pose proof (ci_size _ _ (hist_infos db hist Hh n ci Hci)) as Hsz.
  assert (E : exists st3, parse_object db st n = io_ret (Some p, st3) /\ in_history st3 /\ later st2 st3 /\ forall q, flag_of st3 q = flag_of st2 q).
  { unfold parse_object. rewrite (hist_read db hist Hh n ci Hci). cbn [io_bind io_ret]. unfold check_sha1_signature.
    change (cstr (str "commit")) with (str "commit"). assert (H6 : (length (str "commit") <= 9)%nat) by (apply Nat.leb_le; reflexivity).
    rewrite sprintf_hdr_fits by first [exact H6|lia]. cbn [io_bind mbind outcome_bind]. unfold parse_typed. do 2 rewrite bool_decide_false by done. rewrite bool_decide_true by done.
    rewrite E1, bind_Ret. cbv beta iota. cbn [non_null]. rewrite bind_Ret, E2, bind_Ret. cbv beta iota. rewrite (get_lookup _ _ _ Ho2), bind_Ret, Hb2.
    destruct (buffer c2) as [b|]; [rewrite bind_Ret; by exists st2|].
    destruct (set_buffer_later st2 p o2 c2 (ci_text ci) Hi2 Ho2 Hb2) as (Hi3&Hl3&_&Hf3).
    unfold with_commit. rewrite (get_lookup _ _ _ Ho2), bind_Ret, Hb2, bind_Ret. by eexists. }
  destruct E as (st3&E3&Hi3&Hl3&Hf3). assert (Ht3 : typed st3 OCommit p) by (by apply (later_typed st2), (later_typed st1)).
  exists p, st3. unfold lookup_commit_reference. rewrite E3. cbn [io_bind io_ret]. pose proof Ht3 as (o&Ho&Eo).
  rewrite (get_lookup _ _ _ Ho). cbn [io_bind]. rewrite Eo, bool_decide_false by done. cbn [io_bind io_ret].
  unfold check_commit. rewrite (get_lookup _ _ _ Ho), bind_Ret, Eo, bool_decide_true by done. cbn [io_bind].
  split; [done|]. split; [done|]. split; [by do 2 (etrans; [eassumption|])|]. split; [done|]. split.
  - rewrite <- Hs1. apply (later_sha1 st1 st3 OCommit); [by etrans|done].
  - intros q. by rewrite Hf3, Hf2, Hf1.
Qed.

Lemma no_objects_history : in_history no_objects.
Proof.
  split; [split|..]; try (intros p o H; discriminate H); [done|constructor|vm_compute; discriminate].
Qed.

(** ** Marking *)

Lemma set_flags_later st p o f : in_history st -> heap st !! p = Some o ->
  in_history (set st p (set_flags o f)) /\ later st (set st p (set_flags o f)) /\
  forall q, flag_of (set st p (set_flags o f)) q = if decide (q = p) then f else flag_of st q.
Proof.
  intros Hi Ho. assert (Hlt : (p < length (heap st))%nat) by (by eapply lookup_lt_Some).
  assert (Hl : later st (set st p (set_flags o f))).
  { intros q oq Hq. rewrite set_lookup by done. destruct (decide (q = p)) as [->|Hne]; [|by exists oq].
    rewrite Ho in Hq. injection Hq as <-. by eexists. }
  split; [|split; [exact Hl|]].
  - destruct (ok_objs st (in_objects st Hi) p o Ho) as [_ _ Wr Wn Wb]. split.
    + by apply (set_ok st p o); [apply Hi|..].
    + intros q oq. rewrite set_lookup by done. destruct (decide (q = p)) as [->|Hne]; [intros [= <-]; by apply (in_known st Hi p o)|by apply in_known].
    + intros q oq Hq. apply (agrees_later st); [exact Hl|]. rewrite set_lookup in Hq by done.
      destruct (decide (q = p)) as [->|Hne]; [injection Hq as <-; exact (in_agrees st Hi p o Ho)|by apply (in_agrees st Hi q)].
  - intros q. unfold flag_of. rewrite set_lookup by done. by destruct (decide (q = p)).
Qed.

Lemma parsed_commit st p : in_history st -> parsed st p -> is_commit st p.
Proof. intros Hi Hp. by apply typed_commit, parsed_typed. Qed.

(** [pop_parents] parses the parents, marks those that are not marked and puts
    them on the list. *)
Definition popped (mark : Z) (ps l : list nat) (st st' : objects) (l' : list nat) : Prop :=
  in_history st' /\ later st st' /\ Forall (parsed st') ps /\
  exists new, l' ≡ₚ new ++ l /\ NoDup new /\ (forall q, q ∈ new <-> q ∈ ps /\ Z.land (flag_of st q) mark = 0) /\
    forall q, flag_of st' q = if decide (q ∈ new) then Z.lor (flag_of st q) mark else flag_of st q.

Lemma pop_parents_later mark ps : mark <> 0 -> forall st l,
  in_history st -> Forall (typed st OCommit) ps -> Forall (parsed st) l -> exists st' l',
  pop_parents db st ps l mark = io_ret (st', l') /\ popped mark ps l st st' l'.
Proof.
  intros Hmark. induction ps as [|p ps IH]; intros st l Hi Hps Hl; cbn [pop_parents].
  { exists st, l. split; [done|]. split_and!; [done..|constructor|]. exists []. split; [done|]. split; [constructor|].
    split; [set_solver|]. intros q. by rewrite decide_False by apply not_elem_of_nil. }
  apply Forall_cons in Hps as [Hp Hps]. destruct (parse_commit_later st p Hi Hp) as (st1&->&Hi1&Hl1&Hp1&Hf1). cbn [io_bind io_ret snd].
  pose proof Hp1 as (o&Ho&Hto&Hpo). unfold get. rewrite Ho. cbn [io_bind].
  assert (Hps1 : Forall (typed st1 OCommit) ps) by (eapply Forall_impl; [exact Hps|]; intros q; by apply later_typed).
  assert (Hls1 : Forall (parsed st1) l) by (eapply Forall_impl; [exact Hl|]; intros q; by apply later_parsed).
  assert (Hfo : o_flags o = flag_of st p) by (rewrite <- Hf1; unfold flag_of; by rewrite Ho).
  destruct (Z.eqb_spec (Z.land (o_flags o) mark) 0) as [Hz|Hz].
  - destruct (set_flags_later st1 p o (Z.lor (o_flags o) mark) Hi1 Ho) as (Hi2&Hl2&Hf2). set (st2 := set st1 p _) in *.
    destruct (insert_by_date_ok st2 p l) as (l1&l2&El&->&_).
    { apply parsed_commit; [done|]. by apply (later_parsed st1). }
    { eapply Forall_impl; [exact Hls1|]. intros q Hq. apply parsed_commit; [done|]. by apply (later_parsed st1). }
    cbn [io_bind]. destruct (IH st2 (l1 ++ p :: l2) Hi2) as (st'&l'&->&Hi'&Hl'&Hps'&new&HP&Hnd&Hin&Hfl).
    { eapply Forall_impl; [exact Hps1|]. intros q. by apply later_typed. }
    { rewrite <- Permutation_middle, <- El. constructor; [by apply (later_parsed st1)|].
      eapply Forall_impl; [exact Hls1|]. intros q. by apply later_parsed. }
    exists st', l'. split; [done|]. split; [done|]. split; [by etrans; [|etrans]|]. split; [constructor; [by apply (later_parsed st2), (later_parsed st1)|done]|].
    assert (Hfq : forall q, flag_of st2 q = if decide (q = p) then Z.lor (flag_of st p) mark else flag_of st q).
    { intros q. rewrite Hf2, Hfo, Hf1. done. }
    assert (Hpn : p ∉ new). { rewrite Hin, Hfq, decide_True by done. intros [_ H]. by apply land_lor_mask in H. }
    exists (p :: new). split; [|split; [by constructor|split]].
    + rewrite HP, El, <- (Permutation_middle l1 l2 p), <- Permutation_middle. done.
    + intros q. rewrite !elem_of_cons, Hin, Hfq. destruct (decide (q = p)) as [->|Hne]; [|tauto].
      rewrite <- Hfo. split; [tauto|]. by left.
    + intros q. rewrite Hfl, Hfq. destruct (decide (q = p)) as [->|Hne].
      * rewrite decide_False by done. by rewrite decide_True by left.
      * destruct (decide (q ∈ new)); [rewrite decide_True by (by right); done|rewrite decide_False; [done|]]. by rewrite elem_of_cons; intros [?|?].
  - destruct (IH st1 l Hi1 Hps1 Hls1) as (st'&l'&->&Hi'&Hl'&Hps'&new&HP&Hnd&Hin&Hfl).
    exists st', l'. split; [done|]. split; [done|]. split; [by etrans|]. split; [constructor; [by apply (later_parsed st1)|done]|].
    exists new. split; [done|]. split; [done|]. split; [|intros q; rewrite Hfl, Hf1; done].
    intros q. rewrite Hin, Hf1, elem_of_cons. split; [tauto|]. intros [[->|Hq] H]; [by rewrite <- Hfo in H|done].
Qed.

Lemma pop_most_recent_later mark st x l : mark <> 0 -> in_history st -> Forall (parsed st) (x :: l) -> exists st' l' ps ci,
  pop_most_recent_commit db st (x :: l) mark = io_ret (x, st', l') /\ popped mark ps l st st' l' /\
  hist !! obj_sha1 st x = Some ci /\ Forall2 (fun s q => typed st OCommit q /\ obj_sha1 st q = s) (ci_parents ci) ps.
Proof.
  intros Hmark Hi [Hx Hl]%Forall_cons. destruct (parsed_parents st x Hi Hx) as (c&ci&Hc&Hci&_&HF).
  destruct (pop_parents_later mark (parents c) Hmark st l Hi) as (st'&l'&E&Hp); [|done|].
  { clear -HF. induction HF as [|n q ns qs [Hq _] _ IH]; by constructor. }
  exists st', l', (parents c), ci. unfold pop_most_recent_commit. rewrite Hc. cbn [io_bind]. rewrite E. done.
Qed.

(** Names are unique. *)
Lemma name_unique st t u p q : in_history st -> typed st t p -> typed st u q -> obj_sha1 st p = obj_sha1 st q -> p = q.
Proof.
  intros Hi (o&Ho&_) (o'&Ho'&_) E. unfold obj_sha1 in E. rewrite Ho, Ho' in E.
  pose proof (wf_sha1 _ _ (ok_objs st (in_objects st Hi) p o Ho)) as Hl.
  assert (H1 : lookup_object st (o_sha1 o) = Some p) by (apply lookup_object_iff; [apply Hi|done|by exists o]).
  assert (H2 : lookup_object st (o_sha1 o) = Some q) by (apply lookup_object_iff; [apply Hi|done|by exists o']). congruence.
Qed.

(** ** A walk from a commit

    The commits of [l] have been marked and wait, those of [behind] have been
    popped. *)
Record walked (mark : Z) (root : bytes) (st : objects) (l behind : list nat) : Prop := {
  walk_parsed : Forall (parsed st) (l ++ behind);
  walk_nodup : NoDup (l ++ behind);
  walk_marked : forall q, Z.land (flag_of st q) mark <> 0 <-> q ∈ l ++ behind;
  walk_reach : forall q, q ∈ l ++ behind -> ancestor hist root (obj_sha1 st q);
  walk_closed : forall q n, q ∈ behind -> parent_of hist (obj_sha1 st q) n -> exists p, p ∈ l ++ behind /\ obj_sha1 st p = n;
  walk_root : exists p, p ∈ l ++ behind /\ obj_sha1 st p = root }.

Lemma later_name st st' p : later st st' -> parsed st p -> obj_sha1 st' p = obj_sha1 st p.
Proof. intros Hl Hp. apply (later_sha1 st st' OCommit); [done|by apply parsed_typed]. Qed.

(** Another walk, with another mark, goes on. *)
Lemma walked_other mark other root st st' l behind ps k k' :
  Z.land mark other = 0 -> popped mark ps k st st' k' -> walked other root st l behind -> walked other root st' l behind.
Proof.
  intros Hm (_&Hl&_&new&_&_&_&Hf) [W1 W2 W3 W4 W5 W6]. rewrite Forall_forall in W1.
  assert (Hn : forall q, q ∈ l ++ behind -> obj_sha1 st' q = obj_sha1 st q) by (intros q Hq; apply later_name; auto).
  split; [|done| |intros q Hq; rewrite Hn by done; auto| |].
  - apply Forall_forall. intros q Hq. apply (later_parsed st); auto.
  - intros q. rewrite <- W3, Hf. destruct (decide (q ∈ new)); [|done]. by rewrite Z.land_lor_distr_l, Hm, Z.lor_0_r.
  - intros q n Hq Hp. rewrite Hn in Hp by (apply elem_of_app; by right). destruct (W5 q n Hq Hp) as (p&Hp'&<-). exists p. by rewrite Hn.
  - destruct W6 as (p&Hp&<-). exists p. by rewrite Hn.
Qed.

Lemma walked_pop mark root st st' x l l' behind ps ci :
  in_history st -> mark <> 0 -> walked mark root st (x :: l) behind -> popped mark ps l st st' l' ->
  hist !! obj_sha1 st x = Some ci -> Forall2 (fun s q => typed st OCommit q /\ obj_sha1 st q = s) (ci_parents ci) ps ->
  walked mark root st' l' (x :: behind).
Proof.
  intros Hi Hmark [W1 W2 W3 W4 W5 W6] (Hi'&Hl&Hps&new&HP&Hnd&Hin&Hf) Hci HF.
  assert (HQ : l' ++ x :: behind ≡ₚ new ++ (x :: l) ++ behind).
  { rewrite HP, <- !app_assoc. cbn [app]. by rewrite (Permutation_middle l behind x). }
  assert (Hnew : forall q, q ∈ new -> q ∈ ps /\ q ∉ (x :: l) ++ behind).
  { intros q [Hq Hz]%Hin. split; [done|]. rewrite <- W3. intros H. by apply H. }
  assert (Hpar : forall q, q ∈ ps -> typed st OCommit q /\ obj_sha1 st q ∈ ci_parents ci).
  { intros q [i Hq]%list_elem_of_lookup. destruct (Forall2_lookup_r _ _ _ _ _ HF Hq) as (n&Hn&Ht&<-). split; [done|]. by eapply list_elem_of_lookup_2. }
  rewrite Forall_forall in W1, Hps.
  assert (Hname : forall q, q ∈ ps \/ q ∈ (x :: l) ++ behind -> obj_sha1 st' q = obj_sha1 st q).
  { intros q [Hq|Hq]; [by apply (later_sha1 st st' OCommit); [|apply Hpar]|apply later_name; auto]. }
  assert (Hx : x ∈ (x :: l) ++ behind) by (by left).
  split; [| | | | |].
  - rewrite HQ. apply Forall_forall. intros q [Hq|Hq]%elem_of_app; [by apply Hps, Hnew|apply (later_parsed st); auto].
  - rewrite HQ. apply NoDup_app. split; [done|]. split; [|done]. intros q Hq. by apply Hnew.
  - intros q. rewrite HQ, elem_of_app, <- W3, Hf. destruct (decide (q ∈ new)) as [Hq|Hq]; [|tauto].
    split; [by left|]. intros _. by apply land_lor_mask.
  - intros q. rewrite HQ. intros [Hq|Hq]%elem_of_app; [|rewrite Hname by auto; auto].
    destruct (Hnew q Hq) as [Hq' _]. rewrite Hname by auto. etrans; [apply (W4 x Hx)|]. apply rtc_once. exists ci. split; [done|]. by apply Hpar.
  - intros q n Hq Hp. setoid_rewrite HQ. apply elem_of_cons in Hq as [->|Hq].
    + rewrite Hname in Hp by auto. destruct Hp as (ci'&Hci'&Hn). rewrite Hci in Hci'. injection Hci' as <-.
      apply list_elem_of_lookup in Hn as [i Hn]. destruct (Forall2_lookup_l _ _ _ _ _ HF Hn) as (p&Hp&_&En).
      assert (Hpp : p ∈ ps) by (by eapply list_elem_of_lookup_2). exists p. rewrite Hname by auto. split; [|done].
      destruct (decide (Z.land (flag_of st p) mark = 0)) as [Hz|Hz]; apply elem_of_app; [left; by apply Hin|right; by apply W3].
    + rewrite Hname in Hp by (right; apply elem_of_app; by right). destruct (W5 q n Hq Hp) as (p&Hp'&<-). exists p. rewrite Hname by auto.
      split; [|done]. apply elem_of_app. by right.
  - destruct W6 as (p&Hp&<-). exists p. rewrite HQ, Hname by auto. split; [|done]. apply elem_of_app. by right.
Qed.

(** A walk that is through has seen every ancestor. *)
Lemma walked_all mark root st behind n : walked mark root st [] behind -> ancestor hist root n -> exists p, p ∈ behind /\ obj_sha1 st p = n.
Proof.
  intros W Ha. revert n Ha. apply rtc_ind_r; [apply (walk_root _ _ _ _ _ W)|]. intros y z _ Hyz (p&Hp&<-).
  exact (walk_closed _ _ _ _ _ W p z Hp Hyz).
Qed.

Lemma walked_few mark root st l behind : in_history st -> walked mark root st l behind -> (length l + length behind <= 2 * size hist)%nat.
Proof.
  intros Hi [W1 W2 _ _ _ _]. pose proof (heap_length st Hi). rewrite <- length_app.
  assert (Hsub : l ++ behind ⊆+ seq 0 (length (heap st))).
  { apply NoDup_submseteq; [done|]. intros q Hq. rewrite Forall_forall in W1. destruct (W1 q Hq) as (o&Ho&_).
    apply elem_of_seq. apply lookup_lt_Some in Ho. lia. }
  apply submseteq_length in Hsub. rewrite length_seq in Hsub. lia.
Qed.

End Walk.
