(* ===== verification/MergeBase.v ===== *)
(** * Common ancestors (merge-base.c)

    Two walks through history, newest first, one from each commit; each marks
    what it reaches.  The first commit taken from one walk that has the mark of
    the other is the answer. *)

From stdpp Require Import base list numbers strings gmap relations.
From Stdlib Require Import ZArith Lia.
From S2P Require Import Prelude.
From S2P Require Import Hex.
From S2P Require Import CsumFile.
From S2P Require Import ObjectDB.
From S2P Require Import Objects.
From S2P Require Import ObjectParse.
From S2P Require Import Commit.
From S2P Require Import Names.
From S2P Require Import History.

Section MergeBase.
Context {D} {DB : ObjectDB D} (db : D).

(** ** Code *)

Definition process_list (st : objects) (l : list nat) (this_mark other_mark : Z) : io (option nat * objects * list nat) :=
  match l with
  | [] => Some Ub
  | item :: _ =>
      o <- Some (get st item) ;;
      if negb (Z.land (o_flags o) other_mark =? 0) then io_ret (Some item, st, l)
      else r <- pop_most_recent_commit db st l this_mark ;; let '(_, st, l) := r in io_ret (None, st, l)
  end.

(** Is the second list to be processed?  [None]: both are empty. *)
Definition take_second (st : objects) (l1 l2 : list nat) : outcome (option bool) :=
  match l1, l2 with
  | [], [] => Ret None
  | [], _ :: _ => Ret (Some true)
  | _ :: _, [] => Ret (Some false)
  | x :: _, y :: _ => a ← get_commit st x; b ← get_commit st y; Ret (Some (date a <? date b))
  end.

Fixpoint ancestor_loop (fuel : nat) (st : objects) (rev1list rev2list : list nat) : io (option nat * objects) :=
  match fuel with
  | O => None
  | S fuel =>
      t <- Some (take_second st rev1list rev2list) ;;
      match t with
      | None => io_ret (None, st)
      | Some true =>
          r <- process_list st rev2list 2 1 ;;
          let '(ret, st, rev2list) := r in
          match ret with Some _ => io_ret (ret, st) | None => ancestor_loop fuel st rev1list rev2list end
      | Some false =>
          r <- process_list st rev1list 1 2 ;;
          let '(ret, st, rev1list) := r in
          match ret with Some _ => io_ret (ret, st) | None => ancestor_loop fuel st rev1list rev2list end
      end
  end.

Definition mark_commit (st : objects) (p : nat) (mark : Z) : outcome objects :=
  o ← get st p; Ret (set st p (set_flags o (Z.lor (o_flags o) mark))).

Definition common_ancestor (fuel : nat) (st : objects) (rev1 rev2 : nat) : io (option nat * objects) :=
  st <- Some (mark_commit st rev1 1) ;;
  st <- Some (mark_commit st rev2 2) ;;
  r <- parse_commit db st rev1 ;;
  r <- parse_commit db (snd r) rev2 ;;
  ancestor_loop fuel (snd r) (commit_list_insert rev1 []) (commit_list_insert rev2 []).

(** The name that is printed, or [None] when 1 is returned; [lookup_commit_reference]
    can return [NULL], which [common_ancestor] dereferences.  An argument is the
    memory from its pointer on. *)
Definition merge_base_main (fuel : nat) (getenv file : bytes -> option bytes) (argv : list bytes) : io (option bytes) :=
  match argv with
  | [arg1; arg2] =>
      k1 <- Some (get_sha1 getenv file arg1) ;;
      k2 <- Some (get_sha1 getenv file arg2) ;;
      match k1, k2 with
      | Some rev1key, Some rev2key =>
          r <- lookup_commit_reference db no_objects rev1key ;;
          let '(rev1, st) := r in
          r <- lookup_commit_reference db st rev2key ;;
          let '(rev2, st) := r in
          match rev1, rev2 with
          | Some rev1, Some rev2 =>
              r <- common_ancestor fuel st rev1 rev2 ;;
              let '(ret, st) := r in
              io_ret (match ret with Some p => Some (obj_sha1 st p) | None => None end)
          | _, _ => Some Ub
          end
      | _, _ => Some Die
      end
  | _ => Some Die
  end.

(** ** What is found *)

Section Found.
Context (hist : history) (Hh : history_ok db hist).
Context (n1 n2 : bytes).

Record both_walked (st : objects) (l1 b1 l2 b2 : list nat) : Prop := {
  both_history : in_history hist st;
  both_first : walked hist 1 n1 st l1 b1;
  both_second : walked hist 2 n2 st l2 b2;
  both_disjoint : forall q, q ∈ b1 -> q ∉ b2 }.

Definition found (ret : option nat) (st : objects) : Prop :=
  match ret with
  | Some p => typed st OCommit p /\ ancestor hist n1 (obj_sha1 st p) /\ ancestor hist n2 (obj_sha1 st p)
  | None => forall n, ancestor hist n1 n -> ancestor hist n2 n -> False
  end.

Lemma take_second_ok st l1 l2 : in_history hist st -> Forall (parsed st) l1 -> Forall (parsed st) l2 ->
  exists t, take_second st l1 l2 = Ret t /\
    match t with None => l1 = [] /\ l2 = [] | Some true => l2 <> [] | Some false => l1 <> [] end.
Proof.
  intros Hi H1 H2. destruct l1 as [|x l1], l2 as [|y l2]; [by exists None|by exists (Some true)|by exists (Some false)|].
  apply Forall_cons in H1 as [Hx _], H2 as [Hy _].
  destruct (parsed_parents hist st x Hi Hx) as (a&?&Ha&_). destruct (parsed_parents hist st y Hi Hy) as (b&?&Hb&_).
  cbn [take_second]. rewrite Ha, bind_Ret, Hb, bind_Ret. eexists. split; [done|]. by destruct (date a <? date b).
Qed.

(** One step of one walk, whichever: [other] is the other walk. *)
Lemma process_list_ok mark other m o st x l b k c :
  mark <> 0 -> Z.land mark other = 0 -> in_history hist st ->
  walked hist mark m st (x :: l) b -> walked hist other o st k c -> (forall q, q ∈ b -> q ∉ c) ->
  (process_list st (x :: l) mark other = io_ret (Some x, st, x :: l) /\ x ∈ k ++ c) \/
  (exists st' l', process_list st (x :: l) mark other = io_ret (None, st', l') /\ in_history hist st' /\
     walked hist mark m st' l' (x :: b) /\ walked hist other o st' k c /\ (forall q, q ∈ x :: b -> q ∉ c)).
Proof.
  intros Hm Hmo Hi Hw Hk Hbc. pose proof (walk_parsed _ _ _ _ _ _ Hw) as Hp. apply Forall_app in Hp as [Hp _].
  pose proof Hp as [(ob&Hob&_) _]%Forall_cons. unfold process_list, get. rewrite Hob. cbn [io_bind].
  assert (Hfl : o_flags ob = flag_of st x) by (unfold flag_of; by rewrite Hob). rewrite Hfl.
  destruct (Z.eqb_spec (Z.land (flag_of st x) other) 0) as [Hz|Hz]; cbn [negb].
  - right. destruct (pop_most_recent_later db hist Hh mark st x l Hm Hi Hp) as (st'&l'&ps&ci&E&Hpop&Hci&HF).
    exists st', l'. rewrite E. cbn [io_bind io_ret]. split; [done|]. split; [apply Hpop|]. split; [by eapply walked_pop|].
    split; [eapply walked_other; [exact Hmo|exact Hpop|exact Hk]|]. intros q [->|Hq]%elem_of_cons; [|by apply Hbc].
    intros Hc. apply (walk_marked _ _ _ _ _ _ Hk x); [|done]. apply elem_of_app. by right.
  - left. split; [done|]. by apply (walk_marked _ _ _ _ _ _ Hk x).
Qed.

Lemma walked_typed mark root st l b q : walked hist mark root st l b -> q ∈ l ++ b -> typed st OCommit q.
Proof. intros W Hq. pose proof (walk_parsed _ _ _ _ _ _ W) as HF. rewrite Forall_forall in HF. by apply parsed_typed, HF. Qed.

Lemma none_left st b1 b2 : both_walked st [] b1 [] b2 -> found None st.
Proof.
  intros [Hi W1 W2 Hd] n H1 H2. destruct (walked_all hist 1 n1 st b1 n W1 H1) as (p&Hp&Ep).
  destruct (walked_all hist 2 n2 st b2 n W2 H2) as (q&Hq&Eq).
  assert (p = q) as <-; [|by apply (Hd p)].
  apply (name_unique hist st OCommit OCommit p q Hi); [by apply (walked_typed _ _ _ _ _ _ W1)|by apply (walked_typed _ _ _ _ _ _ W2)|congruence].
Qed.

Lemma ancestor_loop_ok fuel st l1 b1 l2 b2 :
  both_walked st l1 b1 l2 b2 -> (4 * size hist - (length b1 + length b2) < fuel)%nat ->
  exists ret st', ancestor_loop fuel st l1 l2 = io_ret (ret, st') /\ found ret st'.
Proof.
  revert st l1 b1 l2 b2. induction fuel as [|fuel IH]; intros st l1 b1 l2 b2 Hb Hf; [lia|]. pose proof Hb as [Hi W1 W2 Hd].
  pose proof (walk_parsed _ _ _ _ _ _ W1) as [P1 _]%Forall_app. pose proof (walk_parsed _ _ _ _ _ _ W2) as [P2 _]%Forall_app.
  pose proof (walked_few hist 1 n1 st l1 b1 Hi W1) as F1. pose proof (walked_few hist 2 n2 st l2 b2 Hi W2) as F2.
  destruct (take_second_ok st l1 l2 Hi P1 P2) as (t&Et&Ht). cbn [ancestor_loop]. rewrite Et. cbn [io_bind].
  destruct t as [[|]|].
  - destruct l2 as [|x l2]; [done|].
    destruct (process_list_ok 2 1 n2 n1 st x l2 b2 l1 b1) as [[-> Hx]|(st'&l'&->&Hi'&W2'&W1'&Hd')]; try done; [by intros q H1 H2; apply (Hd q)|..];
      cbn [io_bind io_ret].
    + exists (Some x), st. split; [done|]. split; [by apply (walked_typed _ _ _ _ _ _ W1)|].
      split; [by apply (walk_reach _ _ _ _ _ _ W1)|]. apply (walk_reach _ _ _ _ _ _ W2). by left.
    + apply (IH st' l1 b1 l' (x :: b2)); [|cbn [length] in *; lia]. split; try done. intros q H1 H2. by apply (Hd' q).
  - destruct l1 as [|x l1]; [done|].
    destruct (process_list_ok 1 2 n1 n2 st x l1 b1 l2 b2) as [[-> Hx]|(st'&l'&->&Hi'&W1'&W2'&Hd')]; try done;
      cbn [io_bind io_ret].
    + exists (Some x), st. split; [done|]. split; [by apply (walked_typed _ _ _ _ _ _ W2)|].
      split; [apply (walk_reach _ _ _ _ _ _ W1); by left|]. by apply (walk_reach _ _ _ _ _ _ W2).
    + apply (IH st' l' (x :: b1) l2 b2); [|cbn [length] in *; lia]. split; try done.
  - destruct Ht as [-> ->]. exists None, st. split; [done|]. by apply (none_left st b1 b2).
Qed.

Lemma walked_start mark root st x :
  parsed st x -> obj_sha1 st x = root -> (forall q, Z.land (flag_of st q) mark <> 0 <-> q = x) -> walked hist mark root st [x] [].
Proof.
  intros Hp Hn Hf. split; cbn [app].
  - by constructor.
  - apply NoDup_singleton.
  - intros q. by rewrite Hf, list_elem_of_singleton.
  - intros q ->%list_elem_of_singleton. by rewrite Hn.
  - intros q n []%not_elem_of_nil.
  - exists x. split; [by left|done].
Qed.

Lemma mark_commit_ok st p mark : in_history hist st -> typed st OCommit p -> exists st',
  mark_commit st p mark = Ret st' /\ in_history hist st' /\ later st st' /\
  forall q, flag_of st' q = if decide (q = p) then Z.lor (flag_of st p) mark else flag_of st q.
Proof.
  intros Hi (o&Ho&Ht). destruct (set_flags_later hist st p o (Z.lor (o_flags o) mark) Hi Ho) as (Hi'&Hl&Hf).
  unfold mark_commit. rewrite (get_lookup _ _ _ Ho), bind_Ret. eexists. split; [done|]. split; [done|]. split; [done|].
  intros q. rewrite Hf. by replace (flag_of st p) with (o_flags o) by (unfold flag_of; by rewrite Ho).
Qed.

End Found.

(** [common_ancestor] on the commits of a complete history, none of them
    marked before, ends after at most [4 * size hist] steps; what it returns is
    an ancestor of both commits, and it returns [NULL] only if they have none in
    common. *)
Lemma common_ancestor_spec (hist : history) (fuel : nat) (st : objects) (rev1 rev2 : nat) :
  history_ok db hist -> in_history hist st -> typed st OCommit rev1 -> typed st OCommit rev2 ->
  (forall q, Z.land (flag_of st q) 3 = 0) -> (4 * size hist < fuel)%nat ->
  exists ret st', common_ancestor fuel st rev1 rev2 = io_ret (ret, st') /\
    match ret with
    | Some p => ancestor hist (obj_sha1 st rev1) (obj_sha1 st' p) /\ ancestor hist (obj_sha1 st rev2) (obj_sha1 st' p)
    | None => forall n, ancestor hist (obj_sha1 st rev1) n -> ~ ancestor hist (obj_sha1 st rev2) n
    end.
Proof.
  intros Hh Hi H1 H2 Hf Hfuel. unfold common_ancestor.
  destruct (mark_commit_ok hist st rev1 1 Hi H1) as (sa&->&Hia&Hla&Hfa). cbn [io_bind].
  destruct (mark_commit_ok hist sa rev2 2 Hia) as (sb&->&Hib&Hlb&Hfb); [by apply (later_typed st)|]. cbn [io_bind].
  assert (Hlab : later st sb) by (by etrans).
  destruct (parse_commit_later db hist Hh sb rev1 Hib) as (sc&->&Hic&Hlc&Hp1&Hfc); [by apply (later_typed st)|]. cbn [io_bind io_ret snd].
  assert (Hlac : later st sc) by (by etrans).
  destruct (parse_commit_later db hist Hh sc rev2 Hic) as (sd&->&Hid&Hld&Hp2&Hfd); [by apply (later_typed st)|]. cbn [io_bind io_ret snd].
  assert (Hl : later st sd) by (by etrans).
  assert (Hbits : forall m, m = 1 \/ m = 2 -> forall q, Z.land (flag_of st q) m = 0).
  { intros m Hm q. replace m with (Z.land 3 m) by (by destruct Hm as [-> | ->]). by rewrite Z.land_assoc, Hf. }
  assert (Hflags : forall q, flag_of sd q = Z.lor (Z.lor (flag_of st q) (if decide (q = rev1) then 1 else 0)) (if decide (q = rev2) then 2 else 0)).
  { intros q. rewrite Hfd, Hfc, Hfb. destruct (decide (q = rev2)) as [->|]; rewrite Hfa; [destruct (decide (rev2 = rev1)) as [->|]|destruct (decide (q = rev1)) as [->|]];
      by rewrite ?Z.lor_0_r. }
  destruct (ancestor_loop_ok hist Hh (obj_sha1 st rev1) (obj_sha1 st rev2) fuel sd [rev1] [] [rev2] []) as (ret&st'&E&Hret); [|cbn; lia|].
  - split; [done| | |intros q []%not_elem_of_nil].
    + apply walked_start; [by apply (later_parsed sc)|by apply (later_sha1 st sd OCommit)|]. intros q. rewrite Hflags, !Z.land_lor_distr_l, Hbits by (by left).
      by destruct (decide (q = rev1)), (decide (q = rev2)).
    + apply walked_start; [done|by apply (later_sha1 st sd OCommit)|]. intros q. rewrite Hflags, !Z.land_lor_distr_l, Hbits by (by right).
      by destruct (decide (q = rev1)), (decide (q = rev2)).
  - exists ret, st'. split; [exact E|]. destruct ret; [apply Hret|]. intros n Ha Hb. exact (Hret n Ha Hb).
Qed.

(** C31. git-merge-base, given two names that stand for commits of a complete
    history, ends after at most [4 * size hist] steps, and what it prints is a
    common ancestor of the two; it prints nothing only if they have none. *)
Theorem merge_base_spec (hist : history) (fuel : nat) (getenv file : bytes -> option bytes) (arg1 arg2 n1 n2 : bytes) :
  history_ok db hist -> get_sha1 getenv file arg1 = Ret (Some n1) -> get_sha1 getenv file arg2 = Ret (Some n2) ->
  is_Some (hist !! n1) -> is_Some (hist !! n2) -> (4 * size hist < fuel)%nat ->
  exists r, merge_base_main fuel getenv file [arg1; arg2] = io_ret r /\
    match r with
    | Some a => ancestor hist n1 a /\ ancestor hist n2 a
    | None => forall n, ancestor hist n1 n -> ~ ancestor hist n2 n
    end.
Proof.
  intros Hh E1 E2 H1 H2 Hf. unfold merge_base_main. rewrite E1, E2. cbn [io_bind].
  destruct (lookup_commit_reference_later db hist Hh no_objects n1 (no_objects_history hist) H1) as (p1&sa&->&Hia&Hla&Ht1&Hn1&Hfa).
  cbn [io_bind io_ret].
  destruct (lookup_commit_reference_later db hist Hh sa n2 Hia H2) as (p2&sb&->&Hib&Hlb&Ht2&Hn2&Hfb). cbn [io_bind io_ret].
  assert (Hn1' : obj_sha1 sb p1 = n1) by (by rewrite (later_sha1 sa sb OCommit)).
  destruct (common_ancestor_spec hist fuel sb p1 p2 Hh Hib) as (ret&st'&->&Hret); [by apply (later_typed sa)|done| |done|].
  { intros q. by rewrite Hfb, Hfa. }
  cbn [io_bind io_ret]. rewrite Hn1', Hn2 in Hret. destruct ret; by eexists.
Qed.

End MergeBase.

(** ** Runs *)

Module BaseDemo.

Definition name (n : Z) : bytes := replicate 20 n.
Definition info (n d : Z) (ps : list bytes) : cinfo :=
  {| ci_tree := name (n + 100); ci_parents := ps; ci_author := str "A <a> 1 +0000"; ci_who := str "C <c"; ci_date := d; ci_rest := str "+0000" |}.
(** Two merges of 1 and 2, with 1 a parent of 2; the clocks were right, or 1 is dated after 2. *)
Definition hist (skew : Z) : history :=
  list_to_map [(name 1, info 1 (10 + skew) []); (name 2, info 2 20 [name 1]); (name 3, info 3 50 [name 2; name 1]); (name 4, info 4 60 [name 2; name 1])].
Definition db (skew : Z) : ObjectDB unit :=
  {| db_has _ n := Ret (bool_decide (is_Some (hist skew !! n)));
     db_read _ n := io_ret (match hist skew !! n with Some ci => Some (str "commit", ci_text ci) | None => None end);
     db_nul _ _ := true; db_write _ _ _ := Ret (0, [], tt) |}.

Definition infos_check (h : history) : bool :=
  forallb (fun e : bytes * cinfo => bool_decide (sha1_ok e.1 /\ sha1_ok (ci_tree e.2) /\ h !! ci_tree e.2 = None /\
    Forall (fun p => sha1_ok p /\ is_Some (h !! p)) (ci_parents e.2) /\ 10 ∉ ci_author e.2 /\ 62 ∉ ci_who e.2 /\
    0 <= ci_date e.2 < 2 ^ 64 - 1 /\ Z.of_nat (length (ci_text e.2)) < 2 ^ 64 /\ Z.of_nat (length (ci_parents e.2)) < 2 ^ 20)) (map_to_list h).

Lemma hist_ok : history_ok (DB := db 0) tt (hist 0).
Proof.
  assert (Hc : infos_check (hist 0) = true) by (vm_compute; reflexivity). unfold infos_check in Hc. rewrite forallb_forall in Hc.
  assert (H : forall n ci, hist 0 !! n = Some ci -> sha1_ok n /\ cinfo_ok (hist 0) ci).
  { intros n ci Hn. apply elem_of_map_to_list, list_elem_of_In in Hn. apply Hc in Hn. apply bool_decide_eq_true in Hn.
    cbn [fst snd] in Hn. destruct Hn as (?&?&?&?&?&?&?&?&?). split; [done|]. by split. }
  split; [by apply H|by apply H| |vm_compute; reflexivity]. intros n ci Hn. cbn [db_read db]. by rewrite Hn.
Qed.

Definition arg (n : Z) : bytes := sha1_to_hex (name n) ++ [0].
Definition run (skew : Z) (a b : Z) : io (option bytes) :=
  merge_base_main (DB := db skew) tt 20 (fun _ => None) (fun _ => None) [arg a; arg b].

End BaseDemo.

Lemma merge_base_spec_witness : exists r, BaseDemo.run 0 3 4 = io_ret r /\
  match r with
  | Some a => ancestor (BaseDemo.hist 0) (BaseDemo.name 3) a /\ ancestor (BaseDemo.hist 0) (BaseDemo.name 4) a
  | None => forall n, ancestor (BaseDemo.hist 0) (BaseDemo.name 3) n -> ~ ancestor (BaseDemo.hist 0) (BaseDemo.name 4) n
  end.
Proof.
  apply (merge_base_spec (DB := BaseDemo.db 0) tt (BaseDemo.hist 0) 20 (fun _ => None) (fun _ => None) (BaseDemo.arg 3) (BaseDemo.arg 4)).
  - exact BaseDemo.hist_ok.
  - vm_compute. reflexivity.
  - vm_compute. reflexivity.
  - apply (bool_decide_unpack _). vm_compute. exact I.
  - apply (bool_decide_unpack _). vm_compute. exact I.
  - apply (bool_decide_unpack _). vm_compute. exact I.
Defined.

(** 2 is the better answer, 1 being its parent; when 1 is dated after it, 1 is
    found. *)
Example merge_base_by_date :
  BaseDemo.run 0 3 4 = io_ret (Some (BaseDemo.name 2)) /\ BaseDemo.run 30 3 4 = io_ret (Some (BaseDemo.name 1)).
Proof. split; vm_compute; reflexivity. Qed.
