(* ===== verification/Text.v ===== *)
(** * Text utilities

    [sq_quote] (quote.c), which makes one word of a shell command line out of
    any string; [read_line] (strbuf.c), which reads a stream line by line into
    a growing buffer; and the program git-stripspace (stripspace.c).  The
    specifications are a reader of shell words, the division of a text at its
    terminators and the paragraphs of a text. *)

From stdpp Require Import base list numbers strings.
From Stdlib Require Import ZArith Lia.
From S2P Require Import Prelude CString.

(** ** quote.c *)

Section Quote.
Context (malloc_ok : Z -> bool).

Definition QUOTE : Z := 39.
Definition BACKSLASH : Z := 92.

(** The loop that counts the bytes needed, in an [int]. *)
Fixpoint sq_count (cnt : Z) (src : bytes) : outcome Z :=
  match src with
  | [] => Ret cnt
  | c :: src =>
      let cnt := (if c =? QUOTE then cnt + 3 else cnt) + 1 in
      if bool_decide (cnt < 2 ^ 31) then sq_count cnt src else Ub
  end.

(** [*bp++ = c] and [strcpy(bp, s); bp += strlen(s)] in a buffer of [cnt] bytes
    whose first ones are [out]. *)
Definition put (cnt : Z) (out : bytes) (c : Z) : outcome bytes :=
  if bool_decide (Z.of_nat (length out) < cnt) then Ret (out ++ [c]) else Ub.

Definition put_str (cnt : Z) (out s : bytes) : outcome bytes :=
  if bool_decide (Z.of_nat (length out + length s) < cnt) then Ret (out ++ s) else Ub.

Fixpoint sq_copy (cnt : Z) (src out : bytes) : outcome bytes :=
  match src with
  | [] => Ret out
  | c :: src =>
      out ← (if negb (c =? QUOTE) then put cnt out c else put_str cnt out [QUOTE; BACKSLASH; QUOTE; QUOTE]);
      sq_copy cnt src out
  end.

(** The whole function; the result is the contents of the buffer, NUL
    included. *)
Definition sq_quote (src : bytes) : outcome bytes :=
  cnt ← sq_count 3 (cstr src);
  if negb (malloc_ok cnt) then Die
  else
    out ← put cnt [] QUOTE;
    out ← sq_copy cnt (cstr src) out;
    out ← put cnt out QUOTE;
    put cnt out 0.

End Quote.

Example sq_quote_ex : sq_quote (fun _ => true) (str "a'b") = Ret (str "'a'\''b'" ++ [0]).
Proof. reflexivity. Qed.

(** *** Words of a command line

    What the shell makes of a command line (POSIX, 2.2): blanks separate
    words, a backslash quotes the next character, single quotes everything up
    to the next one.  [None]: the line ends inside quotes, or has a character
    that is special to the shell. *)

Inductive sh_state := Between | Bare | Escaped | Quoted.

(** Letters, digits and the characters that stand for themselves. *)
Definition sh_plain (c : Z) : bool :=
  ((48 <=? c) && (c <? 58)) || ((65 <=? c) && (c <? 91)) || ((97 <=? c) && (c <? 123)) ||
  (c =? 95) || (c =? 45) || (c =? 46) || (c =? 47) || (c =? 58) || (c =? 44) || (c =? 43) || (c =? 64) || (c =? 37).

Definition end_word (st : sh_state) (w : bytes) : list bytes :=
  match st with Between => [] | _ => [w] end.

Fixpoint sh_words (st : sh_state) (w : bytes) (line : bytes) : option (list bytes) :=
  match line with
  | [] => match st with Between | Bare => Some (end_word st w) | _ => None end
  | c :: line =>
      match st with
      | Quoted => if c =? QUOTE then sh_words Bare w line else sh_words Quoted (w ++ [c]) line
      | Escaped => sh_words Bare (w ++ [c]) line
      | _ =>
          if c =? 32 then (end_word st w ++.) <$> sh_words Between [] line
          else if c =? QUOTE then sh_words Quoted w line
          else if c =? BACKSLASH then sh_words Escaped w line
          else if sh_plain c then sh_words Bare (w ++ [c]) line
          else None
      end
  end.

(** The words with a blank between them. *)
Fixpoint join_words (ws : list bytes) : bytes :=
  match ws with
  | [] => []
  | [w] => w
  | w :: ws => w ++ [32] ++ join_words ws
  end.

Example sh_words_ex : sh_words Between [] (str "ls  'a b'\''c' d\ e") = Some [str "ls"; str "a b'c"; str "d e"].
Proof. reflexivity. Qed.

(** What [sq_quote] writes between the enclosing quotes. *)
Definition sq_body (s : bytes) : bytes :=
  s ≫= fun c => if c =? QUOTE then [QUOTE; BACKSLASH; QUOTE; QUOTE] else [c].

Lemma sq_count_ok s : forall cnt, cnt + Z.of_nat (length (sq_body s)) < 2 ^ 31 ->
  sq_count cnt s = Ret (cnt + Z.of_nat (length (sq_body s))).
Proof.
  induction s as [|c s IH]; intros cnt Hc; cbn -[Z.of_nat]; [f_equal; simpl; lia|].
  unfold sq_body in *. cbn -[Z.of_nat] in *. rewrite length_app in *. rewrite bool_decide_true by (destruct (c =? QUOTE); cbn in *; lia).
  rewrite IH by (destruct (c =? QUOTE); cbn in *; lia). f_equal. destruct (c =? QUOTE); cbn; lia.
Qed.

Lemma sq_copy_ok cnt s : forall out, Z.of_nat (length out + length (sq_body s)) < cnt -> sq_copy cnt s out = Ret (out ++ sq_body s).
Proof.
  induction s as [|c s IH]; intros out Hc; cbn; [by rewrite app_nil_r|].
  unfold sq_body in *. cbn in Hc. rewrite length_app in Hc. unfold put, put_str.
  destruct (c =? QUOTE); cbn in *; (rewrite bool_decide_true by lia); rewrite bind_Ret, IH by (rewrite length_app; simpl; lia);
    by rewrite <- app_assoc.
Qed.

Lemma sq_body_length s : (length (sq_body s) <= 4 * length s)%nat.
Proof. induction s as [|c s IH]; [done|]. unfold sq_body in *. cbn. rewrite length_app. destruct (c =? QUOTE); cbn; lia. Qed.

Lemma sq_put_ok cnt out c : Z.of_nat (length out) < cnt -> put cnt out c = Ret (out ++ [c]).
Proof. intros. unfold put. by rewrite bool_decide_true. Qed.

(** The result of [sq_quote] fills its buffer exactly. *)
Lemma sq_quote_ok malloc_ok s :
  0 ∉ s -> (forall n, malloc_ok n = true) -> 4 * Z.of_nat (length s) + 3 < 2 ^ 31 ->
  sq_quote malloc_ok s = Ret ((QUOTE :: sq_body s ++ [QUOTE]) ++ [0]).
Proof.
  intros H0 Hm Hl. pose proof (sq_body_length s). unfold sq_quote. rewrite cstr_id by done.
  rewrite sq_count_ok by lia. rewrite bind_Ret, Hm. cbn [negb]. cbv iota. rewrite sq_put_ok by (simpl; lia).
  rewrite bind_Ret, sq_copy_ok by (simpl; lia). rewrite bind_Ret, sq_put_ok by (rewrite !length_app; simpl; lia).
  rewrite bind_Ret, sq_put_ok by (rewrite !length_app; simpl; lia). f_equal.
Qed.

Lemma sh_words_body s : forall w line, sh_words Quoted w (sq_body s ++ QUOTE :: line) = sh_words Bare (w ++ s) line.
Proof.
  induction s as [|c s IH]; intros w line; cbn; [by rewrite app_nil_r|].
  destruct (Z.eqb_spec c QUOTE) as [->|Hne]; cbn.
  - rewrite IH. by rewrite <- app_assoc.
  - destruct (Z.eqb_spec c QUOTE); [done|]. rewrite IH. by rewrite <- app_assoc.
Qed.

Lemma sh_words_quoted args :
  sh_words Between [] (join_words (map (fun s => QUOTE :: sq_body s ++ [QUOTE]) args)) = Some args.
Proof.
  induction args as [|s args IH]; [done|]. destruct args as [|s' args].
  - cbn. rewrite sh_words_body. done.
  - change (join_words _) with ((QUOTE :: sq_body s ++ [QUOTE]) ++ [32] ++ join_words (map (fun s => QUOTE :: sq_body s ++ [QUOTE]) (s' :: args))).
    rewrite <- app_comm_cons, <- app_assoc. cbn [sh_words]. change (QUOTE =? 32) with false. change (QUOTE =? QUOTE) with true. cbv iota.
    cbn [app]. rewrite sh_words_body. cbn [sh_words]. change (32 =? 32) with true. cbv iota. change (?f <$> ?x) with (fmap f x).
    rewrite IH. done.
Qed.

(** C24. Quoting is safe: a command line made of strings that went through
    [sq_quote], blanks between them, is read by the shell as exactly those
    strings, whatever characters they have; [sq_quote] fills a buffer of
    exactly the size it asked for, ends it with the only NUL, and dies when
    the allocation fails. *)
Theorem sq_quote_words malloc_ok (args : list bytes) :
  Forall (fun s => 0 ∉ s /\ 4 * Z.of_nat (length s) + 3 < 2 ^ 31) args ->
  ((forall n, malloc_ok n = true) ->
   exists qs, Forall2 (fun s q => sq_quote malloc_ok s = Ret (q ++ [0]) /\ 0 ∉ q /\
                                  sq_count 3 s = Ret (Z.of_nat (length (q ++ [0])))) args qs /\
              sh_words Between [] (join_words qs) = Some args) /\
  (forall s, s ∈ args -> (forall n, malloc_ok n = false) -> sq_quote malloc_ok s = Die).
Proof.
  intros HF. split.
  - intros Hm. exists (map (fun s => QUOTE :: sq_body s ++ [QUOTE]) args). split; [|apply sh_words_quoted].
    induction HF as [|s args [H0 Hl] HF IH]; cbn; constructor; [|done]. pose proof (sq_body_length s). split; [by apply sq_quote_ok|]. split.
    + apply not_elem_of_cons. split; [done|]. apply not_elem_of_app. split; [|by rewrite not_elem_of_cons, elem_of_nil; split; [|intros []]].
      intros Hin. apply list_elem_of_bind in Hin as (c&Hc&Hin). destruct (Z.eqb_spec c QUOTE).
      * repeat (apply elem_of_cons in Hc as [Hc|Hc]; [done|]). by apply elem_of_nil in Hc.
      * apply list_elem_of_singleton in Hc as <-. done.
    + rewrite sq_count_ok by lia. f_equal. cbn. rewrite !length_app. cbn. lia.
  - intros s Hs Hm. destruct (proj1 (Forall_forall _ _) HF s Hs) as [H0 Hl]. pose proof (sq_body_length s).
    unfold sq_quote. rewrite cstr_id, sq_count_ok, bind_Ret, Hm by (done || lia). done.
Qed.

Lemma sq_quote_words_witness :
  let args := [str "rm"; str "it's; $HOME"] in
  exists qs, Forall2 (fun s q => sq_quote (fun _ => true) s = Ret (q ++ [0]) /\ 0 ∉ q /\
                                 sq_count 3 s = Ret (Z.of_nat (length (q ++ [0])))) args qs /\
             sh_words Between [] (join_words qs) = Some args.
Proof.
  refine (proj1 (sq_quote_words (fun _ => true) _ _) (fun _ => eq_refl)).
  by apply (bool_decide_unpack _); vm_compute.
Defined.

(** ** strbuf.c

    A stream is what [fgetc] has still to return, [None] being a read error,
    and its end-of-file indicator. *)

Record FILE := mk_file { f_rest : list (option Z); f_eof : bool }.

Record strbuf := mk_strbuf { sb_alloc : Z; sb_len : Z; sb_eof : bool; sb_buf : option bytes }.

Definition strbuf_init : strbuf := mk_strbuf 0 0 false None.

Section Strbuf.
Context (malloc_ok : Z -> bool).

(** [sb_buf] holds the bytes written so far; the block has [sb_alloc] bytes. *)
Definition strbuf_add (sb : strbuf) (ch : Z) : outcome strbuf :=
  sb ← (if sb_alloc sb <=? sb_len sb then
          if bool_decide (sb_alloc sb * 3 < 2 ^ 31) then
            let alloc := sb_alloc sb * 3 / 2 + 16 in
            if malloc_ok alloc then Ret (mk_strbuf alloc (sb_len sb) (sb_eof sb) (Some (default [] (sb_buf sb)))) else Die
          else Ub
        else Ret sb);
  match sb_buf sb with
  | Some buf =>
      if bool_decide (sb_len sb < sb_alloc sb) then
        Ret (mk_strbuf (sb_alloc sb) (sb_len sb + 1) (sb_eof sb) (Some (buf ++ [u8 ch])))
      else Ub
  | None => Ub
  end.

Definition EOF : Z := -1.

(** The loop that reads up to the terminator: the buffer, the last result of
    [fgetc] and the stream. *)
Fixpoint read_loop (sb : strbuf) (rest : list (option Z)) (term : Z) : outcome (strbuf * Z * FILE) :=
  match rest with
  | [] => Ret (sb, EOF, mk_file [] true)
  | None :: rest => Ret (sb, EOF, mk_file rest false)
  | Some ch :: rest =>
      if ch =? term then Ret (sb, ch, mk_file rest false)
      else sb ← strbuf_add sb ch; read_loop sb rest term
  end.

(** [strbuf_begin] throws away what [sb] held. *)
Definition read_line (sb : strbuf) (fp : FILE) (term : Z) : outcome (strbuf * FILE) :=
  let sb := strbuf_init in
  if f_eof fp then Ret (mk_strbuf (sb_alloc sb) (sb_len sb) true (sb_buf sb), fp)
  else
    '(sb, ch, fp) ← read_loop sb (f_rest fp) term;
    let sb := if (ch =? EOF) && (sb_len sb =? 0) then mk_strbuf (sb_alloc sb) (sb_len sb) true (sb_buf sb) else sb in
    sb ← strbuf_add sb 0;
    Ret (sb, fp).

(** The callers' loop: read lines until [sb.eof]. *)
Fixpoint read_lines (fuel : nat) (sb : strbuf) (fp : FILE) (term : Z) : outcome (list (option bytes)) :=
  match fuel with
  | O => Ub
  | S fuel =>
      '(sb, fp) ← read_line sb fp term;
      if sb_eof sb then Ret [] else
      ls ← read_lines fuel sb fp term;
      Ret (sb_buf sb :: ls)
  end.

(** *** What the lines are *)

(** Lengths for which the [int] arithmetic of the growth is exact. *)
Definition small (n : Z) : Prop := n < 2 ^ 28.

Definition sb_of (sb : strbuf) (l : bytes) : Prop :=
  sb_len sb = Z.of_nat (length l) /\
  (sb_buf sb = Some l /\ sb_len sb <= sb_alloc sb \/ sb_buf sb = None /\ sb_alloc sb = 0 /\ l = []).

Lemma strbuf_add_ok sb l c :
  (forall n, malloc_ok n = true) -> sb_of sb l -> small (Z.of_nat (length l)) ->
  exists sb', strbuf_add sb c = Ret sb' /\ sb_of sb' (l ++ [u8 c]) /\ sb_buf sb' = Some (l ++ [u8 c]) /\ sb_eof sb' = sb_eof sb.
Proof.
  unfold small. intros Hm (Hlen&Hb) Hs. unfold strbuf_add.
  assert (Hd : sb_alloc sb <= sb_len sb -> 0 <= sb_alloc sb /\ default [] (sb_buf sb) = l).
  { intros. destruct Hb as [[-> ?]|(->&->&->)]; split; simpl; (lia || done). }
  destruct (Z.leb_spec (sb_alloc sb) (sb_len sb)) as [Hle|Hgt].
  - destruct (Hd Hle) as [H0 Hl]. rewrite bool_decide_true, Hm by lia. rewrite bind_Ret. cbn [sb_alloc sb_len sb_eof sb_buf]. rewrite Hl.
    pose proof (Z.div_pos (sb_alloc sb * 3) 2 ltac:(lia) ltac:(lia)).
    assert (sb_alloc sb <= sb_alloc sb * 3 / 2) by (apply Z.div_le_lower_bound; lia).
    assert (Hup : sb_len sb <= sb_alloc sb \/ sb_alloc sb = 0 /\ sb_len sb = 0).
    { destruct Hb as [[_ ?]|(_&->&->)]; [by left|right]. split; [done|by rewrite Hlen]. }
    rewrite bool_decide_true by lia. eexists. split; [done|]. split; [|done].
    split; cbn; [rewrite length_app; simpl; lia|]. left. split; [done|]. lia.
  - rewrite bind_Ret. destruct Hb as [[Hb ?]|(?&?&->)]; [|simpl in *; lia]. rewrite Hb, bool_decide_true by lia.
    eexists. split; [done|]. split; [|done]. split; cbn; [rewrite length_app; simpl; lia|]. left. split; [done|lia].
Qed.

Lemma read_loop_ok term (Hm : forall n, malloc_ok n = true) rest : forall sb l k,
  bytes_ok rest -> term ∉ rest -> sb_of sb l -> small (Z.of_nat (length l + length rest)) ->
  exists sb', read_loop sb (map Some rest ++ k) term = read_loop sb' k term /\ sb_of sb' (l ++ rest) /\ sb_eof sb' = sb_eof sb.
Proof.
  induction rest as [|c rest IH]; intros sb l k Hok Hn Hsb Hs; cbn.
  - exists sb. by rewrite app_nil_r.
  - apply not_elem_of_cons in Hn as [Hc Hn]. apply bytes_ok_cons in Hok as [Hb Hok]. destruct (Z.eqb_spec c term); [congruence|].
    unfold small in Hs. cbn [length] in Hs.
    destruct (strbuf_add_ok sb l c Hm Hsb) as (sb1&->&Hsb1&_&<-); [unfold small; lia|]. rewrite bind_Ret.
    rewrite u8_small in Hsb1 by done.
    destruct (IH sb1 (l ++ [c]) k Hok Hn Hsb1) as (sb2&E&Hsb2&<-); [unfold small; rewrite length_app; simpl; lia|].
    exists sb2. split; [done|]. by rewrite <- app_assoc in Hsb2.
Qed.

Lemma read_line_ok sb term l k :
  (forall n, malloc_ok n = true) -> bytes_ok l -> term ∉ l -> 0 <= term -> small (Z.of_nat (length l)) ->
  (exists sb', read_line sb (mk_file (map Some l ++ Some term :: k) false) term = Ret (sb', mk_file k false) /\
               sb_buf sb' = Some (l ++ [0]) /\ sb_eof sb' = false) /\
  (exists sb', read_line sb (mk_file (map Some l) false) term = Ret (sb', mk_file [] true) /\
               sb_buf sb' = Some (l ++ [0]) /\ sb_eof sb' = bool_decide (l = [])).
Proof.
  intros Hm Hok Hn Ht Hs. unfold read_line. cbn [f_eof f_rest].
  assert (H0 : sb_of strbuf_init []) by (repeat split; by right).
  assert (Hadd : forall sb1 e, sb_of sb1 l -> exists sb2, strbuf_add (mk_strbuf (sb_alloc sb1) (sb_len sb1) e (sb_buf sb1)) 0 = Ret sb2 /\
    sb_buf sb2 = Some (l ++ [0]) /\ sb_eof sb2 = e).
  { intros sb1 e H1. destruct (strbuf_add_ok (mk_strbuf (sb_alloc sb1) (sb_len sb1) e (sb_buf sb1)) l 0 Hm H1 Hs) as (sb2&?&_&?&?). eauto. }
  split.
  - destruct (read_loop_ok term Hm l strbuf_init [] (Some term :: k) Hok Hn H0 Hs) as (sb1&->&Hsb1&He).
    cbn [read_loop]. rewrite Z.eqb_refl, bind_Ret. destruct (Z.eqb_spec term EOF) as [->|]; [done|]. cbn [andb].
    destruct (Hadd sb1 false Hsb1) as (sb2&E&?&?). destruct sb1. cbn in *. subst. rewrite E. eexists. split; [done|]. done.
  - destruct (read_loop_ok term Hm l strbuf_init [] [] Hok Hn H0 Hs) as (sb1&E&Hsb1&He). rewrite app_nil_r in E. rewrite E.
    cbn [read_loop]. rewrite bind_Ret. cbn [andb Z.eqb EOF]. pose proof (proj1 Hsb1) as Hlen. cbn [app] in Hlen.
    destruct (Hadd sb1 (bool_decide (l = [])) Hsb1) as (sb2&E2&?&?).
    assert (Heq : (if sb_len sb1 =? 0 then mk_strbuf (sb_alloc sb1) (sb_len sb1) true (sb_buf sb1) else sb1) =
                  mk_strbuf (sb_alloc sb1) (sb_len sb1) (bool_decide (l = [])) (sb_buf sb1)).
    { rewrite Hlen. destruct l; [by rewrite bool_decide_true|]. rewrite bool_decide_false by done. destruct sb1. cbn in *. by subst. }
    cbv zeta. cbn [EOF Z.eqb Pos.eqb andb]. rewrite Heq, E2. eexists. split; [done|]. done.
Qed.

Lemma read_lines_ok term (Hm : forall n, malloc_ok n = true) (Ht : 0 <= term) (ls : list bytes) : forall fuel sb (last : bytes),
  (length ls + 1 < fuel)%nat ->
  Forall (fun l => bytes_ok l /\ term ∉ l /\ small (Z.of_nat (length l))) (ls ++ [last]) ->
  read_lines fuel sb (mk_file (map Some (List.concat (map (fun l => l ++ [term]) ls) ++ last)) false) term =
  Ret (map (fun l => Some (l ++ [0])) (ls ++ if bool_decide (last = []) then [] else [last])).
Proof.
  induction ls as [|l ls IH]; intros fuel sb last Hf HF; (destruct fuel as [|fuel]; [lia|]); cbn [read_lines].
  - inversion HF as [|? ? (Hok&Hn&Hs) _]; subst. cbn [List.concat map app].
    destruct (read_line_ok sb term last [] Hm Hok Hn Ht Hs) as [_ (sb1&->&Hb&He)]. rewrite bind_Ret, He.
    destruct (bool_decide (last = [])); [done|]. cbn [length Nat.add] in Hf. destruct fuel as [|fuel]; [lia|]. cbn. by rewrite Hb.
  - inversion HF as [|? ? (Hok&Hn&Hs) HF']; subst. cbn [List.concat map app]. rewrite !map_app, <- !app_assoc. cbn [map app].
    destruct (read_line_ok sb term l (map Some (List.concat (map (fun l => l ++ [term]) ls) ++ last)) Hm Hok Hn Ht Hs) as [(sb1&E&Hb&He) _].
    rewrite map_app in E. rewrite E, bind_Ret, He. cbn [length] in Hf. rewrite <- map_app, (IH fuel sb1 last ltac:(lia) HF'). rewrite bind_Ret, Hb. by rewrite !map_app.
Qed.

End Strbuf.

(** The lines of a text, and what follows the last terminator. *)
Fixpoint fields (term : Z) (cur l : bytes) : list bytes * bytes :=
  match l with
  | [] => ([], cur)
  | c :: l => if c =? term then let '(ls, last) := fields term [] l in (cur :: ls, last) else fields term (cur ++ [c]) l
  end.

Lemma fields_spec term l : forall cur ls last,
  fields term cur l = (ls, last) -> bytes_ok (cur ++ l) -> term ∉ cur ->
  cur ++ l = List.concat (map (fun l => l ++ [term]) ls) ++ last /\
  Forall (fun x => bytes_ok x /\ term ∉ x /\ (length x <= length cur + length l)%nat) (ls ++ [last]) /\ (length ls <= length l)%nat.
Proof.
  induction l as [|c l IH]; intros cur ls last; cbn.
  - intros [= <- <-] Hok Hn. rewrite app_nil_r in *. split; [done|]. split; [|simpl; lia]. constructor; [split; [done|split; [done|lia]]|constructor].
  - destruct (Z.eqb_spec c term) as [->|Hne].
    + destruct (fields term [] l) as [ls' last'] eqn:E. intros [= <- <-] Hok Hn. apply bytes_ok_app in Hok as [H1 H2].
      apply bytes_ok_cons in H2 as [_ H2]. destruct (IH [] ls' last' E H2 ltac:(apply not_elem_of_nil)) as (E1&HF&Hl). cbn in E1.
      split; [cbn; rewrite E1; by rewrite <- !app_assoc|]. split; [|simpl; lia]. cbn. constructor; [split; [done|split; [done|simpl; lia]]|].
      eapply Forall_impl; [exact HF|]. intros x (?&?&?). split; [done|split; [done|simpl in *; lia]].
    + intros E Hok Hn. destruct (IH (cur ++ [c]) ls last E) as (E1&HF&Hl).
      { by rewrite <- app_assoc. }
      { apply not_elem_of_app. split; [done|]. by apply not_elem_of_cons; split; [|apply not_elem_of_nil]. }
      rewrite <- app_assoc in E1. split; [done|]. split; [|simpl; lia]. eapply Forall_impl; [exact HF|]. intros x (?&?&Hx).
      rewrite length_app in Hx. split; [done|split; [done|simpl in *; lia]].
Qed.

(** Reading a stream with [read_line] until [eof] gives exactly its lines:
    a NUL after each, none contains the terminator, their concatenation with
    the terminators is the stream, and the last one is there even when its
    terminator is missing; the loop ends after at most two calls more than the
    stream has bytes, and no call leaves its buffer. *)
Theorem read_lines_spec malloc_ok (sb : strbuf) (text : bytes) (term : Z) :
  (forall n, malloc_ok n = true) -> bytes_ok text -> 0 <= term -> small (Z.of_nat (length text)) ->
  exists ls last,
    text = List.concat (map (fun l => l ++ [term]) ls) ++ last /\ Forall (fun l => term ∉ l) (ls ++ [last]) /\
    read_lines malloc_ok (length text + 2) sb (mk_file (map Some text) false) term =
      Ret (map (fun l => Some (l ++ [0])) (ls ++ if bool_decide (last = []) then [] else [last])).
Proof.
  intros Hm Hok Ht Hs. destruct (fields term [] text) as [ls last] eqn:E.
  destruct (fields_spec term text [] ls last E Hok ltac:(apply not_elem_of_nil)) as (E1&HF&Hl). cbn [app] in E1.
  exists ls, last. split; [done|]. split; [eapply Forall_impl; [exact HF|]; by intros x (?&?&?)|].
  rewrite E1 at 2. apply read_lines_ok; [done|done|lia|]. eapply Forall_impl; [exact HF|]. intros x (?&?&?).
  split; [done|]. split; [done|]. unfold small in *. simpl in *. lia.
Qed.

Lemma read_lines_spec_witness :
  exists ls last,
    str "ab//c" = List.concat (map (fun l => l ++ [47]) ls) ++ last /\ Forall (fun l => 47 ∉ l) (ls ++ [last]) /\
    read_lines (fun _ => true) 7 strbuf_init (mk_file (map Some (str "ab//c")) false) 47 =
      Ret (map (fun l => Some (l ++ [0])) (ls ++ if bool_decide (last = []) then [] else [last])).
Proof.
  apply (read_lines_spec (fun _ => true) strbuf_init (str "ab//c") 47); [done|apply str_bytes_ok|lia|vm_compute; reflexivity].
Defined.

Example read_lines_ex :
  read_lines (fun _ => true) 7 strbuf_init (mk_file (map Some (str "ab//c")) false) 47 =
  Ret [Some (str "ab" ++ [0]); Some [0]; Some (str "c" ++ [0])].
Proof. reflexivity. Qed.

(** A read error passes for the end of a line. *)
Example read_error_ends_line :
  read_lines (fun _ => true) 9 strbuf_init (mk_file (map Some (str "ab") ++ None :: map Some (str "c/")) false) 47 =
  Ret [Some (str "ab" ++ [0]); Some (str "c" ++ [0])].
Proof. reflexivity. Qed.

(** ** stripspace.c *)

(** [fgets(line, n + 1, stdin)]: at most [n] bytes, up to a newline. *)
Fixpoint fgets (n : nat) (input : bytes) : bytes * bytes :=
  match n, input with
  | S n, c :: input =>
      if c =? 10 then ([c], input)
      else let '(line, rest) := fgets n input in (c :: line, rest)
  | _, _ => ([], input)
  end.

(** The loop of [cleanup]; the recursion is on [len]. *)
Fixpoint cleanup_loop (len : nat) (line : bytes) : bytes :=
  match len with
  | S ((S k) as len') =>
      if isspace (nth k line 0) then cleanup_loop len' (take k line ++ [10]) else line
  | _ => line
  end.

Definition cleanup (line : bytes) : bytes :=
  let len := length line in
  if (1 <? len)%nat && (nth (len - 1) line 0 =? 10) then cleanup_loop len line else line.

(** The loop of [main]: [empties], what is left of the input and what was
    printed. *)
Fixpoint strip_loop (fuel : nat) (empties : Z) (input out : bytes) : outcome bytes :=
  match fuel with
  | O => Ub
  | S fuel =>
      if bool_decide (input = []) then Ret out
      else
        let '(line, input) := fgets 1023 input in
        let line := cleanup (cstr line) in
        if negb (default 0 (head line) =? 10) then
          strip_loop fuel 0 input (out ++ (if 0 <? empties then [10] else []) ++ line)
        else if empties <? 0 then strip_loop fuel empties input out
        else if bool_decide (empties + 1 < 2 ^ 31) then strip_loop fuel (empties + 1) input out
        else Ub
  end.

Definition stripspace (input : bytes) : outcome bytes := strip_loop (S (length input)) (-1) input [].

Example stripspace_ex :
  stripspace (str " " ++ [10; 10] ++ str "a  " ++ [10; 10; 10] ++ str " b" ++ [10; 32; 10]) =
  Ret (str "a" ++ [10; 10] ++ str " b" ++ [10]).
Proof. vm_compute. reflexivity. Qed.

(** A line of 1023 bytes fills the buffer: its newline is taken for an empty
    line and lost at the end of the text. *)
Example stripspace_loses_newline : stripspace (replicate 1023 97 ++ [10]) = Ret (replicate 1023 97).
Proof. vm_compute. reflexivity. Qed.

(** *** What is printed *)

(** A line without the white space at its end. *)
Fixpoint rstrip (l : bytes) : bytes :=
  match l with
  | [] => []
  | c :: l => match rstrip l with
              | [] => if isspace c then [] else [c]
              | r => c :: r
              end
  end.

(** The maximal runs of non-empty lines, and the text that has them with one
    empty line between. *)
Fixpoint paragraphs (cur ls : list bytes) : list (list bytes) :=
  match ls with
  | [] => if bool_decide (cur = []) then [] else [cur]
  | [] :: ls => (if bool_decide (cur = []) then [] else [cur]) ++ paragraphs [] ls
  | l :: ls => paragraphs (cur ++ [l]) ls
  end.

Fixpoint join_paragraphs (ps : list (list bytes)) : list bytes :=
  match ps with
  | [] => []
  | [p] => p
  | p :: ps => p ++ [] :: join_paragraphs ps
  end.

Definition unlines (ls : list bytes) : bytes := List.concat (map (fun l => l ++ [10]) ls).

(** Lines the buffer of git-stripspace has room for. *)
Definition short_line (l : bytes) : Prop := 0 ∉ l /\ 10 ∉ l /\ (length l <= 1022)%nat.

(** The last line, if the text does not end in a newline. *)
Definition last_line (l : bytes) : list bytes := if bool_decide (l = []) then [] else [l].

Definition stripped_lines (ls : list bytes) (last : bytes) : list bytes :=
  join_paragraphs (paragraphs [] (map rstrip ls ++ last_line last)).

(** The text printed for the lines [ls] and what follows the last newline. *)
Definition stripped (ls : list bytes) (last : bytes) : bytes :=
  let text := unlines (stripped_lines ls last) in
  if bool_decide (last = []) then text else take (length text - 1) text.

Lemma rstrip_snoc l c : rstrip (l ++ [c]) = if isspace c then rstrip l else l ++ [c].
Proof.
  induction l as [|x l IH]; cbn; [done|]. rewrite IH. destruct (isspace c); [done|]. by destruct l.
Qed.

Lemma cleanup_loop_ok l : cleanup_loop (S (length l)) (l ++ [10]) = rstrip l ++ [10].
Proof.
  induction l as [|c l IH] using rev_ind; [done|]. rewrite length_app, Nat.add_comm. cbn [length Nat.add cleanup_loop].
  rewrite rstrip_snoc, app_nth1 by (rewrite length_app; simpl; lia). rewrite app_nth2, Nat.sub_diag by lia. cbn [nth].
  destruct (isspace c); [|done]. rewrite <- app_assoc, take_app_length. apply IH.
Qed.

Lemma cleanup_ok l : cleanup (l ++ [10]) = rstrip l ++ [10].
Proof.
  unfold cleanup. rewrite length_app. cbn [length]. rewrite Nat.add_comm. destruct l as [|c l]; [done|].
  rewrite <- cleanup_loop_ok. replace (1 + length (c :: l) - 1)%nat with (length (c :: l)) by lia.
  rewrite app_nth2, Nat.sub_diag by lia. done.
Qed.

Lemma fgets_ok n l rest : 10 ∉ l -> (length l < n)%nat -> fgets n (l ++ 10 :: rest) = (l ++ [10], rest).
Proof.
  revert l; induction n as [|n IH]; intros l Hn Hl; [lia|]. destruct l as [|c l]; [done|].
  apply not_elem_of_cons in Hn as [Hc Hn]. cbn in *. destruct (Z.eqb_spec c 10); [congruence|]. by rewrite IH by (done || lia).
Qed.

Lemma elem_of_rstrip c l : c ∈ rstrip l -> c ∈ l.
Proof.
  induction l as [|x l IH]; cbn; [done|]. destruct (rstrip l) as [|y r]; [destruct (isspace x); rewrite ?elem_of_cons, ?elem_of_nil; tauto|].
  rewrite (elem_of_cons (y :: r)), (elem_of_cons l). tauto.
Qed.

Lemma length_rstrip l : (length (rstrip l) <= length l)%nat.
Proof. induction l as [|x l IH]; cbn; [done|]. destruct (rstrip l), (isspace x); cbn in *; lia. Qed.

Lemma rstrip_idem l : rstrip (rstrip l) = rstrip l.
Proof.
  induction l as [|c l IH] using rev_ind; [done|]. rewrite rstrip_snoc. destruct (isspace c) eqn:E; [done|]. by rewrite rstrip_snoc, E.
Qed.

(** The lines that are still to come, from the state of the loop. *)
Fixpoint tidy (empties : Z) (ls : list bytes) : list bytes :=
  match ls with
  | [] => []
  | [] :: ls => tidy (if empties <? 0 then empties else empties + 1) ls
  | l :: ls => (if 0 <? empties then [[]] else []) ++ l :: tidy 0 ls
  end.

Lemma tidy_paragraphs ls :
  tidy (-1) ls = join_paragraphs (paragraphs [] ls) /\
  (forall k, 0 < k -> tidy k ls = match paragraphs [] ls with [] => [] | ps => [] :: join_paragraphs ps end) /\
  (forall cur, cur <> [] -> cur ++ tidy 0 ls = join_paragraphs (paragraphs cur ls)).
Proof.
  induction ls as [|l ls (IH1&IH2&IH3)].
  - split; [done|]. split; [done|]. intros cur Hc. cbn. rewrite bool_decide_false by done. cbn. by rewrite app_nil_r.
  - destruct l as [|c l]; cbn [tidy paragraphs].
    + cbn [Z.ltb Z.compare]. rewrite bool_decide_true by done. cbn [app]. split; [done|]. split.
      * intros k Hk. destruct (Z.ltb_spec k 0); [lia|]. apply IH2. lia.
      * intros cur Hc. rewrite bool_decide_false by done. cbn [app]. change (0 + 1) with 1. rewrite IH2 by lia.
        cbn [join_paragraphs]. destruct (paragraphs [] ls); [by rewrite app_nil_r|done].
    + specialize (IH3 [c :: l] ltac:(done)) as E. cbn [app] in *. split; [done|]. split.
      * intros k Hk. destruct (Z.ltb_spec 0 k); [|lia]. cbn [app]. rewrite E.
        destruct (paragraphs [c :: l] ls) eqn:Ep; [|done]. cbn in E. discriminate.
      * intros cur Hc. cbn [Z.ltb Z.compare app]. rewrite <- IH3 by (by destruct cur). by rewrite <- app_assoc.
Qed.

(** [empties] behind these lines. *)
Fixpoint empties_after (empties : Z) (ls : list bytes) : Z :=
  match ls with
  | [] => empties
  | [] :: ls => empties_after (if empties <? 0 then empties else empties + 1) ls
  | _ :: ls => empties_after 0 ls
  end.

Lemma tidy_snoc ls l : l <> [] -> forall k,
  tidy k (ls ++ [l]) = tidy k ls ++ (if 0 <? empties_after k ls then [[]] else []) ++ [l].
Proof.
  intros Hl. induction ls as [|x ls IH]; intros k; cbn [app tidy empties_after]; [by destruct l|].
  destruct x; [apply IH|]. rewrite IH. by rewrite <- app_assoc.
Qed.

Lemma unlines_app a b : unlines (a ++ b) = unlines a ++ unlines b.
Proof. unfold unlines. by rewrite map_app, concat_app. Qed.

Lemma unlines_snoc ls l : take (length (unlines (ls ++ [l])) - 1) (unlines (ls ++ [l])) = unlines ls ++ l.
Proof.
  rewrite unlines_app. unfold unlines at 2 4. cbn [map List.concat]. rewrite app_nil_r, !length_app. cbn [length].
  rewrite (app_assoc (unlines ls) l). rewrite take_app_le by (rewrite length_app; lia). apply take_ge. rewrite length_app. lia.
Qed.

Lemma strip_loop_ok ls rest : forall fuel k out,
  Forall short_line ls -> (length ls < fuel)%nat -> -1 <= k -> k + Z.of_nat (length ls) < 2 ^ 31 ->
  strip_loop fuel k (unlines ls ++ rest) out =
  strip_loop (fuel - length ls) (empties_after k (map rstrip ls)) rest (out ++ unlines (tidy k (map rstrip ls))).
Proof.
  induction ls as [|l ls IH]; intros fuel k out HF Hf Hk Hl; (destruct fuel as [|fuel]; [simpl in Hf; lia|]).
  - cbn [map tidy unlines empties_after List.concat length app]. by rewrite app_nil_r, Nat.sub_0_r.
  - cbn [strip_loop]. inversion HF as [|? ? (H0&H10&Hs) HF']; subst. cbn [unlines map List.concat length] in *. fold (unlines ls). rewrite <- !app_assoc. cbn [app].
    rewrite bool_decide_false by (by destruct l). rewrite fgets_ok by (done || lia). rewrite cstr_id.
    2: { apply not_elem_of_app. split; [done|]. by apply not_elem_of_cons; split; [|apply not_elem_of_nil]. }
    rewrite cleanup_ok. cbn [tidy empties_after Nat.sub]. destruct (rstrip l) as [|c r] eqn:E.
    + cbn [app head default from_option Z.eqb negb]. change (10 =? 10) with true. cbn [negb].
      destruct (Z.ltb_spec k 0); [by apply IH; (done || lia)|]. rewrite bool_decide_true by lia. apply IH; (done || lia).
    + assert (Hc : c <> 10). { intros ->. apply H10, elem_of_rstrip. rewrite E. apply elem_of_cons. by left. }
      cbn [app head]. change (default 0 (Some c)) with c. destruct (Z.eqb_spec c 10); [done|]. cbn [negb]. rewrite IH by (done || lia).
      f_equal. rewrite <- app_assoc. f_equal. unfold unlines. rewrite map_app, concat_app. cbn [map List.concat]. rewrite <- !app_assoc. cbn [app].
      rewrite <- !app_assoc. by destruct (0 <? k).
Qed.

Lemma fgets_last n l : 10 ∉ l -> (length l <= n)%nat -> fgets n l = (l, []).
Proof.
  revert l; induction n as [|n IH]; intros l Hn Hl; destruct l as [|c l]; try done; [simpl in Hl; lia|].
  apply not_elem_of_cons in Hn as [Hc Hn]. cbn in *. destruct (Z.eqb_spec c 10); [congruence|]. by rewrite IH by (done || lia).
Qed.

(** A line without its newline is left as it is. *)
Lemma cleanup_last l : 10 ∉ l -> cleanup l = l.
Proof.
  intros Hn. unfold cleanup. destruct (Nat.ltb_spec 1 (length l)); [|done]. cbn [andb].
  destruct (Z.eqb_spec (nth (length l - 1) l 0) 10) as [E|]; [|done]. exfalso. apply Hn. rewrite <- E. apply list_elem_of_In, nth_In. lia.
Qed.

Lemma strip_loop_last fuel k l out : short_line l -> (1 < fuel)%nat ->
  strip_loop fuel k l out = Ret (out ++ (if bool_decide (l = []) then [] else (if 0 <? k then [10] else []) ++ l)).
Proof.
  intros (H0&H10&Hs) Hf. destruct fuel as [|[|fuel]]; [lia|lia|]. cbn [strip_loop]. case_bool_decide as Hl; [by rewrite app_nil_r|].
  rewrite fgets_last by (done || lia). rewrite cstr_id, cleanup_last by done. destruct l as [|c l]; [done|].
  apply not_elem_of_cons in H10 as [Hc _]. cbn [head]. change (default 0 (Some c)) with c. destruct (Z.eqb_spec c 10); [congruence|]. done.
Qed.

Lemma length_unlines ls : (length ls <= length (unlines ls))%nat.
Proof. induction ls as [|l ls IH]; [done|]. unfold unlines in *. cbn. rewrite !length_app. simpl. lia. Qed.

Lemma stripspace_ok ls last :
  Forall short_line ls -> short_line last -> Z.of_nat (length ls) < 2 ^ 31 - 1 -> stripspace (unlines ls ++ last) = Ret (stripped ls last).
Proof.
  intros HF Hlast Hl. unfold stripspace, stripped, stripped_lines, last_line. pose proof (length_unlines ls).
  rewrite strip_loop_ok by (done || lia || (rewrite length_app; lia)). case_bool_decide as E.
  - subst last. rewrite !app_nil_r. rewrite (proj1 (tidy_paragraphs _)).
    destruct (S (length (unlines ls)) - length ls)%nat eqn:Ef; [lia|done].
  - rewrite strip_loop_last; [|done|rewrite length_app; destruct last; [done|cbn [length]; lia]]. rewrite bool_decide_false by done.
    rewrite <- (proj1 (tidy_paragraphs _)), tidy_snoc by done. rewrite (app_assoc (tidy _ _)), unlines_snoc, unlines_app. rewrite app_nil_l, <- app_assoc.
    by destruct (0 <? _).
Qed.

(** The lines of a joined text are the paragraphs it was made of. *)
Definition paragraph (p : list bytes) : Prop := p <> [] /\ Forall (fun l => l <> []) p.

Lemma paragraphs_ok ls : forall cur, Forall (fun l => l <> []) cur -> Forall paragraph (paragraphs cur ls).
Proof.
  induction ls as [|l ls IH]; intros cur Hc; cbn.
  - case_bool_decide; [constructor|]. by repeat constructor.
  - destruct l as [|c l].
    + apply Forall_app. split; [|apply IH; constructor]. case_bool_decide; [constructor|]. by repeat constructor.
    + apply IH. apply Forall_app. by repeat constructor.
Qed.

Lemma paragraphs_app p ls : Forall (fun l => l <> []) p -> forall cur, paragraphs cur (p ++ ls) = paragraphs (cur ++ p) ls.
Proof.
  induction 1 as [|l p Hl Hp IH]; intros cur; cbn; [by rewrite app_nil_r|]. destruct l; [done|]. rewrite IH. by rewrite <- app_assoc.
Qed.

Lemma paragraphs_join ps : Forall paragraph ps -> paragraphs [] (join_paragraphs ps) = ps.
Proof.
  induction 1 as [|p ps [Hne Hp] HF IH]; [done|]. destruct ps as [|p' ps].
  - cbn [join_paragraphs]. rewrite <- (app_nil_r p) at 1. rewrite paragraphs_app by done. cbn. by rewrite bool_decide_false.
  - change (join_paragraphs (p :: p' :: ps)) with (p ++ [] :: join_paragraphs (p' :: ps)). rewrite paragraphs_app by done.
    cbn [paragraphs app]. rewrite bool_decide_false by done. rewrite IH. done.
Qed.

Lemma join_Forall (P : bytes -> Prop) ps : P [] -> Forall (Forall P) ps -> Forall P (join_paragraphs ps).
Proof.
  intros H0. induction 1 as [|p ps Hp HF IH]; [constructor|]. destruct ps; [done|]. cbn. apply Forall_app. split; [done|]. by constructor.
Qed.

Lemma paragraphs_Forall (P : bytes -> Prop) ls : forall cur, Forall P cur -> Forall P ls -> Forall (Forall P) (paragraphs cur ls).
Proof.
  induction ls as [|l ls IH]; intros cur Hc HF; cbn.
  - case_bool_decide; by repeat constructor.
  - inversion HF; subst. destruct l as [|c l].
    + apply Forall_app. split; [case_bool_decide; by repeat constructor|]. apply IH; [constructor|done].
    + apply IH; [|done]. apply Forall_app. by repeat constructor.
Qed.

Lemma length_join ps : (length (join_paragraphs ps) <= sum_list_with (fun p => S (length p)) ps)%nat.
Proof.
  induction ps as [|p ps IH]; [done|]. destruct ps as [|p' ps]; [cbn; lia|].
  change (join_paragraphs (p :: p' :: ps)) with (p ++ [] :: join_paragraphs (p' :: ps)). rewrite length_app. cbn in *. lia.
Qed.

Lemma length_paragraphs ls : forall cur,
  (sum_list_with (fun p => S (length p)) (paragraphs cur ls) <= S (length cur + length ls))%nat.
Proof.
  induction ls as [|l ls IH]; intros cur; cbn [paragraphs]; [case_bool_decide; cbn; lia|]. destruct l as [|c l].
  - rewrite sum_list_with_app. specialize (IH []). case_bool_decide; cbn in *; lia.
  - specialize (IH (cur ++ [c :: l])). rewrite length_app in IH. cbn in *. lia.
Qed.

Lemma stripped_lines_ok ls last (ls' := stripped_lines ls last) :
  Forall short_line ls -> short_line last -> Forall short_line ls' /\ (length ls' <= S (S (length ls)))%nat.
Proof.
  intros HF Hlast. split.
  - apply join_Forall; [split; [apply not_elem_of_nil|split; [apply not_elem_of_nil|simpl; lia]]|].
    apply paragraphs_Forall; [constructor|]. apply Forall_app. split; [|unfold last_line; case_bool_decide; [apply Forall_nil_2|by apply Forall_singleton]].
    apply Forall_map. eapply Forall_impl; [exact HF|]. intros l (H0&H10&Hl). cbn.
    split; [by intros ?%elem_of_rstrip|]. split; [by intros ?%elem_of_rstrip|]. pose proof (length_rstrip l). lia.
  - pose proof (length_join (paragraphs [] (map rstrip ls ++ last_line last))).
    pose proof (length_paragraphs (map rstrip ls ++ last_line last) []).
    unfold ls', stripped_lines. rewrite length_app, length_map in *. unfold last_line in *. case_bool_decide; cbn [length Nat.add] in *; lia.
Qed.

(** The paragraphs of the text that is printed are those of the input. *)
Lemma stripped_again front ls last : stripped_lines ls last = front ++ last_line last -> map rstrip front = front ->
  stripped front last = stripped ls last.
Proof.
  intros E Er. unfold stripped. rewrite E. unfold stripped_lines at 1 2 3. rewrite Er, <- E. unfold stripped_lines.
  by rewrite paragraphs_join by (apply paragraphs_ok; constructor).
Qed.

Lemma stripped_front ls last : exists front, stripped_lines ls last = front ++ last_line last /\ map rstrip front = front /\
  stripped ls last = unlines front ++ last.
Proof.
  assert (Hid : forall ks, Forall (fun l => rstrip l = l) ks -> map rstrip ks = ks)
    by (intros ks HF; induction HF as [|l ks E HF IH]; cbn; congruence).
  assert (Hr : Forall (fun l => rstrip l = l) (map rstrip ls)) by (apply Forall_map, Forall_true; intros l; apply rstrip_idem).
  unfold stripped, stripped_lines, last_line. case_bool_decide as E.
  - subst last. exists (join_paragraphs (paragraphs [] (map rstrip ls))). rewrite !app_nil_r. split; [done|]. split; [|done]. apply Hid.
    apply join_Forall; [done|]. by apply paragraphs_Forall.
  - rewrite <- (proj1 (tidy_paragraphs _)), tidy_snoc by done. rewrite (app_assoc (tidy _ _)). eexists. split; [done|].
    split; [|apply unlines_snoc]. apply Hid, Forall_app. split; [|destruct (0 <? _); by repeat constructor].
    rewrite (proj1 (tidy_paragraphs _)). apply join_Forall; [done|]. by apply paragraphs_Forall.
Qed.

(** C25. git-stripspace prints the paragraphs of its input, white space at the
    ends of lines removed: one empty line between two paragraphs and none
    before the first or after the last; and it changes nothing in a text it
    has printed.  What follows the last newline of the input is a line that is
    printed as it is, white space and all, without a newline.  Lines have no
    NUL and at most 1022 bytes, the room of the program's buffer
    ([stripspace_loses_newline] has a longer one), and there are less than
    2^31 - 3 of them. *)
Theorem stripspace_spec (ls : list bytes) (last : bytes) :
  Forall short_line ls -> short_line last -> Z.of_nat (length ls) < 2 ^ 31 - 3 ->
  stripspace (unlines ls ++ last) = Ret (stripped ls last) /\ stripspace (stripped ls last) = Ret (stripped ls last).
Proof.
  intros HF Hlast Hl. split; [apply stripspace_ok; (done || lia)|]. destruct (stripped_lines_ok ls last HF Hlast) as (HF'&Hl').
  destruct (stripped_front ls last) as (front&E&Er&->). rewrite E in HF', Hl'. apply Forall_app in HF' as [HF' _]. rewrite length_app in Hl'.
  rewrite stripspace_ok by (done || lia). f_equal. rewrite (stripped_again front ls last E Er).
  destruct (stripped_front ls last) as (front'&E'&_&->). rewrite E in E'. by apply app_inv_tail in E' as <-.
Qed.

Lemma stripspace_spec_witness :
  let ls := [[32]; []; str "a  "; []; [9]; str " b"; []] in
  stripspace (unlines ls ++ str "c ") = Ret (str "a" ++ [10; 10] ++ str " b" ++ [10; 10] ++ str "c ") /\
  stripspace (stripped ls (str "c ")) = Ret (stripped ls (str "c ")).
Proof.
  apply (stripspace_spec [[32]; []; str "a  "; []; [9]; str " b"; []] (str "c ")); [..|vm_compute; reflexivity].
  - unfold short_line. by apply (bool_decide_unpack _); vm_compute.
  - unfold short_line. by apply (bool_decide_unpack _); vm_compute.
Defined.
