(* ===== verification/Date.v ===== *)
(** * Dates

    date.c: [my_mktime], [show_date], [parse_date] with everything it calls,
    and [datestamp].  A string is the list of its bytes before the NUL; the
    functions of <ctype.h> are those of the C locale, where no byte from 128 up
    is a letter or a digit.  The calendar of [gmtime] is the proleptic Gregorian
    one.  What depends on the machine's time zone is a parameter. *)

From stdpp Require Import base list numbers strings.
From Stdlib Require Import ZArith Lia.
From S2P Require Import Prelude CString.

Definition i64 (x : Z) : Z := (x + 2 ^ 63) mod 2 ^ 64 - 2 ^ 63.

(** An [int] result, with no meaning when it overflows. *)
Definition int_result (x : Z) : outcome Z :=
  if bool_decide (- 2 ^ 31 <= x < 2 ^ 31) then Ret x else Ub.

(** ** <time.h> and <ctype.h> *)

Record tm := mk_tm {
  tm_sec : Z; tm_min : Z; tm_hour : Z; tm_mday : Z; tm_mon : Z; tm_year : Z;
  tm_wday : Z; tm_yday : Z; tm_isdst : Z }.

Definition set_time (t : tm) (h m s : Z) : tm :=
  mk_tm s m h (tm_mday t) (tm_mon t) (tm_year t) (tm_wday t) (tm_yday t) (tm_isdst t).
Definition set_hour (t : tm) (h : Z) : tm := set_time t h (tm_min t) (tm_sec t).
Definition set_mday (t : tm) (d : Z) : tm :=
  mk_tm (tm_sec t) (tm_min t) (tm_hour t) d (tm_mon t) (tm_year t) (tm_wday t) (tm_yday t) (tm_isdst t).
Definition set_mon (t : tm) (m : Z) : tm :=
  mk_tm (tm_sec t) (tm_min t) (tm_hour t) (tm_mday t) m (tm_year t) (tm_wday t) (tm_yday t) (tm_isdst t).
Definition set_year (t : tm) (y : Z) : tm :=
  mk_tm (tm_sec t) (tm_min t) (tm_hour t) (tm_mday t) (tm_mon t) y (tm_wday t) (tm_yday t) (tm_isdst t).
Definition set_wday (t : tm) (w : Z) : tm :=
  mk_tm (tm_sec t) (tm_min t) (tm_hour t) (tm_mday t) (tm_mon t) (tm_year t) w (tm_yday t) (tm_isdst t).

Definition leap (y : Z) : bool := (y mod 4 =? 0) && (negb (y mod 100 =? 0) || (y mod 400 =? 0)).

(** Days from 1970-01-01 to the first of January. *)
Definition days_before_year (y : Z) : Z := 365 * (y - 1970) + ((y - 1) / 4 - (y - 1) / 100 + (y - 1) / 400) - 477.

Definition year_of_day (days : Z) : Z :=
  let y := 1970 + days * 400 / 146097 in
  if days <? days_before_year y then y - 1 else if days_before_year (y + 1) <=? days then y + 1 else y.

Definition month_lengths (leap : bool) : list Z :=
  [31; if leap then 29 else 28; 31; 30; 31; 30; 31; 31; 30; 31; 30; 31].

Fixpoint find_month (lens : list Z) (m d : Z) : Z * Z :=
  match lens with
  | [] => (m, d)
  | n :: lens => if d <? n then (m, d) else find_month lens (m + 1) (d - n)
  end.

(** [None] when the year does not fit in an [int]. *)
Definition gmtime (t : Z) : option tm :=
  let days := t / 86400 in
  let secs := t mod 86400 in
  let y := year_of_day days in
  let yday := days - days_before_year y in
  let '(m, d) := find_month (month_lengths (leap y)) 0 yday in
  if bool_decide (- 2 ^ 31 <= y - 1900 < 2 ^ 31) then
    Some (mk_tm (secs mod 60) (secs / 60 mod 60) (secs / 3600) (d + 1) m (y - 1900) ((days + 4) mod 7) yday 0)
  else None.

Example gmtime_ex : gmtime 1120000000 = Some (mk_tm 40 6 23 28 5 105 2 178 0).
Proof. vm_compute. reflexivity. Qed.

Definition isdigit (c : Z) : bool := is_digit 10 c.
Definition isalpha (c : Z) : bool := ((65 <=? c) && (c <=? 90)) || ((97 <=? c) && (c <=? 122)).
Definition isalnum (c : Z) : bool := isalpha c || isdigit c.
Definition toupper (c : Z) : Z := if (97 <=? c) && (c <=? 122) then c - 32 else c.

(** [strtol] clamps to the range of [long]. *)
Definition strtol (s : bytes) : Z * bytes :=
  let '(neg, t) := scan_sign (skip_spaces s) in
  match span_digits 10 t with
  | ([], _) => (0, s)
  | (ds, rest) =>
      let v := numeral_value 10 ds in
      (if neg then Z.max (- v) (- 2 ^ 63) else Z.min v (2 ^ 63 - 1), rest)
  end.

(** The conversions of [printf]: %0<w>d and %+0<w>d. *)
Definition pad (w : nat) (ds : bytes) : bytes := replicate (w - length ds) 48 ++ ds.
Definition fmt_0d (w : nat) (n : Z) : bytes :=
  if n <? 0 then 45 :: pad (w - 1) (numeral 10 (- n)) else pad w (numeral 10 n).
Definition fmt_plus_0d (w : nat) (n : Z) : bytes :=
  (if n <? 0 then 45 else 43) :: pad (w - 1) (numeral 10 (Z.abs n)).

(** ** my_mktime *)

Definition mdays : list Z := [0; 31; 59; 90; 120; 151; 181; 212; 243; 273; 304; 334].

(** The products of [int]s are exact for the months and days that get here. *)
Definition my_mktime (t : tm) : Z :=
  let year := tm_year t - 70 in
  let month := tm_mon t in
  let day := tm_mday t in
  if (year <? 0) || (129 <? year) then -1
  else if (month <? 0) || (11 <? month) then -1
  else
    let day := if (month <? 2) || negb (Z.rem (year + 2) 4 =? 0) then day - 1 else day in
    i64 ((year * 365 + (year + 1) / 4 + nth (Z.to_nat month) mdays 0 + day) * 24 * 60 * 60 +
         tm_hour t * 60 * 60 + tm_min t * 60 + tm_sec t).

(** ** show_date *)

Definition month_names : list bytes := Eval cbv in map str
  ["January"; "February"; "March"; "April"; "May"; "June"; "July"; "August"; "September"; "October"; "November"; "December"].
Definition weekday_names : list bytes := Eval cbv in map str
  ["Sunday"; "Monday"; "Tuesday"; "Wednesday"; "Thursday"; "Friday"; "Saturday"].

(** [None] is the NULL result. *)
Definition show_date (time tz : Z) : outcome (option bytes) :=
  minutes ← (if tz <? 0 then int_result (- tz) else Ret tz);
  let minutes := minutes / 100 * 60 + minutes mod 100 in
  let minutes := if tz <? 0 then - minutes else minutes in
  secs ← int_result (minutes * 60);
  match gmtime (i64 (time + secs)) with
  | None => Ret None
  | Some t =>
      year ← int_result (tm_year t + 1900);
      Ret (Some (take 3 (nth (Z.to_nat (tm_wday t)) weekday_names []) ++ [32] ++
                 take 3 (nth (Z.to_nat (tm_mon t)) month_names []) ++ [32] ++
                 fmt_0d 0 (tm_mday t) ++ [32] ++
                 fmt_0d 2 (tm_hour t) ++ [58] ++ fmt_0d 2 (tm_min t) ++ [58] ++ fmt_0d 2 (tm_sec t) ++ [32] ++
                 fmt_0d 0 year ++ [32] ++ fmt_plus_0d 5 tz))
  end.

Example show_date_ex : show_date 1120000000 (-730) = Ret (Some (str "Tue Jun 28 15:36:40 2005 -0730")).
Proof. vm_compute. reflexivity. Qed.

(** ** Matching *)

Definition timezone_names : list (bytes * Z * Z) := Eval cbv in
  map (fun '(s, off, dst) => (str s, off, dst))
  [("IDLW", -12, 0); ("NT", -11, 0); ("CAT", -10, 0); ("HST", -10, 0); ("HDT", -10, 1); ("YST", -9, 0); ("YDT", -9, 1);
   ("PST", -8, 0); ("PDT", -8, 1); ("MST", -7, 0); ("MDT", -7, 1); ("CST", -6, 0); ("CDT", -6, 1); ("EST", -5, 0);
   ("EDT", -5, 1); ("AST", -3, 0); ("ADT", -3, 1); ("WAT", -1, 0); ("GMT", 0, 0); ("UTC", 0, 0); ("WET", 0, 0);
   ("BST", 0, 1); ("CET", 1, 0); ("MET", 1, 0); ("MEWT", 1, 0); ("MEST", 1, 1); ("CEST", 1, 1); ("MESZ", 1, 1);
   ("FWT", 1, 0); ("FST", 1, 1); ("EET", 2, 0); ("EEST", 2, 1); ("WAST", 7, 0); ("WADT", 7, 1); ("CCT", 8, 0);
   ("JST", 9, 0); ("EAST", 10, 0); ("EADT", 10, 1); ("GST", 10, 0); ("NZT", 11, 0); ("NZST", 11, 0); ("NZDT", 11, 1);
   ("IDLE", 12, 0)].

Fixpoint match_loop (i : nat) (date s : bytes) : nat :=
  match date with
  | [] => i
  | c :: date =>
      let d := match s with d :: _ => d | [] => 0 end in
      if (c =? d) || (toupper c =? toupper d) then match_loop (S i) date (tail s)
      else if negb (isalnum c) then i else O
  end.

Definition match_string (date s : bytes) : nat := match_loop 0 date s.

(** How far [date[i]] goes on satisfying [p], from [i] on. *)
Fixpoint run_length (p : Z -> bool) (s : bytes) : nat :=
  match s with
  | c :: s => if p c then S (run_length p s) else O
  | [] => O
  end.

Definition skip_alpha (date : bytes) : nat := S (run_length isalpha (tail date)).

(** The first name of a table of which at least three characters match. *)
Fixpoint find_name (i : nat) (names : list bytes) (date : bytes) : option (nat * nat) :=
  match names with
  | [] => None
  | s :: names =>
      let match_ := match_string date s in
      if (3 <=? match_)%nat then Some (i, match_) else find_name (S i) names date
  end.

(** The three results are the length matched, [*tm] and [*offset]. *)
Definition match_alpha (date : bytes) (t : tm) (offset : Z) : nat * tm * Z :=
  match find_name 0 month_names date with
  | Some (i, n) => (n, set_mon t (Z.of_nat i), offset)
  | None =>
  match find_name 0 weekday_names date with
  | Some (i, n) => (n, set_wday t (Z.of_nat i), offset)
  | None =>
  match find_name 0 (map (fun z => z.1.1) timezone_names) date with
  | Some (i, n) =>
      let '(_, off, dst) := nth i timezone_names ([], 0, 0) in
      (n, t, if offset =? -1 then 60 * (off + dst) else offset)
  | None =>
      if (match_string date (str "PM") =? 2)%nat then
        (2%nat, if (0 <? tm_hour t) && (tm_hour t <? 12) then set_hour t (tm_hour t + 12) else t, offset)
      else (skip_alpha date, t, offset)
  end end end.

(** [None] is the result 0, which leaves [*tm] alone. *)
Definition is_date (year month day : Z) (t : tm) : option tm :=
  if (0 <? month) && (month <? 13) && (0 <? day) && (day <? 32) then
    if year =? -1 then Some (set_mday (set_mon t (month - 1)) day)
    else
      let year :=
        if (1970 <=? year) && (year <? 2100) then Some (year - 1900)
        else if (70 <? year) && (year <? 100) then Some year
        else if year <? 38 then Some (year + 100)
        else None in
      match year with
      | Some year => Some (set_year (set_mday (set_mon t (month - 1)) day) year)
      | None => None
      end
  else None.

Definition is_date_long (year month day : Z) : tm -> option tm := is_date (i32 year) (i32 month) (i32 day).

(** The first alternative that gives a date. *)
Definition or_else {A} (x y : option A) : option A := match x with Some a => Some a | None => y end.

(** [end_] starts with the separator [c]; [None] is the result 0. *)
Definition match_multi_number (num c : Z) (date end_ : bytes) (t : tm) : option (nat * tm) :=
  let '(num2, end_) := strtol (tail end_) in
  let '(num3, end_) :=
    match end_ with
    | c' :: d :: _ => if (c' =? c) && isdigit d then strtol (tail end_) else (-1, end_)
    | _ => (-1, end_)
    end in
  let t' :=
    if c =? 58 then
      let num3 := if num3 <? 0 then 0 else num3 in
      if (num <? 25) && (0 <=? num2) && (num2 <? 60) && (0 <=? num3) && (num3 <=? 60) then
        Some (set_time t num num2 num3)
      else None
    else
      or_else (if 70 <? num then or_else (is_date_long num num2 num3 t) (is_date_long num num3 num2 t) else None)
              (or_else (is_date_long num3 num2 num t) (is_date_long num3 num num2 t)) in
  match t' with
  | Some t' => Some ((length date - length end_)%nat, t')
  | None => None
  end.

(** The guesses for a number of [n] digits that is not part of a date or time. *)
Definition guess_number (n : nat) (num : Z) (t : tm) (offset : Z) : tm * Z :=
  if (n =? 4)%nat then
    if (num <=? 1200) && (offset =? -1) then (t, num / 100 * 60 + num mod 100)
    else if (1900 <? num) && (num <? 2100) then (set_year t (num - 1900), offset)
    else (t, offset)
  else if (0 <? num) && (num <? 32) && (tm_mday t <? 0) then (set_mday t num, offset)
  else if (n =? 2)%nat && (tm_year t <? 0) && (num <? 10) && (0 <=? tm_mday t) then (set_year t (num + 100), offset)
  else if (n =? 2)%nat && (tm_year t <? 0) && (70 <=? num) then (set_year t num, offset)
  else if (0 <? num) && (num <? 32) then (set_mday t num, offset)
  else if 1900 <? num then (set_year t (i32 (num - 1900)), offset)
  else if 70 <? num then (set_year t num, offset)
  else if (0 <? num) && (num <? 13) then (set_mon t (num - 1), offset)
  else (t, offset).

Section Date.
(** What [gmtime_r] leaves in its buffer when it fails, and [mktime], in the
    local time zone. *)
Context (gmtime_r_failed : Z -> tm -> tm) (mktime : tm -> Z).

(** The length matched, [*tm], [*offset] and [*tm_gmt]. *)
Definition match_number (date : bytes) (num : Z) (end_ : bytes) (t : tm) (offset : Z) (gmt : bool) : nat * tm * Z * bool :=
  let guess :=
    let n := S (run_length isdigit (tail date)) in
    let '(t, offset) := guess_number n num t offset in (n, t, offset, gmt) in
  match end_ with
  | c :: d :: _ =>
      if ((c =? 58) || (c =? 47) || (c =? 45)) && isdigit d then
        match match_multi_number num c date end_ t with
        | Some (n, t) => (n, t, offset, gmt)
        | None => guess
        end
      else guess
  | _ => guess
  end.

Definition match_digit (date : bytes) (t : tm) (offset : Z) (gmt : bool) : nat * tm * Z * bool :=
  let '(num, end_) := strtoul 10 date in
  if 946684800 <? num then
    match gmtime (i64 num) with
    | Some t => ((length date - length end_)%nat, t, offset, true)
    | None => match_number date num end_ (gmtime_r_failed (i64 num) t) offset gmt
    end
  else match_number date num end_ t offset gmt.

Definition match_tz (date : bytes) (offset : Z) : nat * Z :=
  let '(v, end_) := strtoul 10 (tail date) in
  let off := i32 v in
  let n := (length date - length end_ - 1)%nat in
  let min := Z.rem off 100 in
  let hour := Z.quot off 100 in
  (S n, if (min <? 60) && (2 <? n)%nat then
          let off := hour * 60 + min in
          match date with c :: _ => if c =? 45 then - off else off | [] => off end
        else offset).

(** ** parse_date *)

(** One turn of the loop, at the character [c]. *)
Definition match_one (c : Z) (date : bytes) (t : tm) (offset : Z) (gmt : bool) : nat * tm * Z * bool :=
  if isalpha c then let '(n, t, offset) := match_alpha date t offset in (n, t, offset, gmt)
  else if isdigit c then match_digit date t offset gmt
  else if ((c =? 45) || (c =? 43)) && match date with _ :: d :: _ => isdigit d | _ => false end then
    let '(n, offset) := match_tz date offset in (n, t, offset, gmt)
  else (O, t, offset, gmt).

Fixpoint parse_loop (fuel : nat) (date : bytes) (t : tm) (offset : Z) (gmt : bool) : outcome (tm * Z * bool) :=
  match fuel with
  | O => Ub
  | S fuel =>
      match date with
      | [] => Ret (t, offset, gmt)
      | c :: _ =>
          if c =? 10 then Ret (t, offset, gmt)
          else
            let '(n, t, offset, gmt) := match_one c date t offset gmt in
            parse_loop fuel (drop (if (n =? 0)%nat then 1 else n)%nat date) t offset gmt
      end
  end.

Definition tm_unset : tm := mk_tm 0 0 0 (-1) (-1) (-1) 0 0 (-1).

(** What follows the loop. *)
Definition finish_date (t : tm) (offset : Z) (gmt : bool) (maxlen : nat) : outcome (option bytes) :=
  let then_ := my_mktime t in
  let offset := if offset =? -1 then i32 (Z.quot (then_ - mktime t) 60) else offset in
  if then_ =? -1 then Ret None
  else
    then_ ← (if gmt then Ret then_ else secs ← int_result (offset * 60); Ret (then_ - secs));
    abs ← (if offset <? 0 then int_result (- offset) else Ret offset);
    Ret (Some (take (maxlen - 1)
      (numeral 10 (u64 then_) ++ [32; if offset <? 0 then 45 else 43] ++ fmt_0d 2 (abs / 60) ++ fmt_0d 2 (abs mod 60)))).

(** [None]: [result] is left as it was. *)
Definition parse_date (date : bytes) (maxlen : nat) : outcome (option bytes) :=
  '(t, offset, gmt) ← parse_loop (S (length date)) date tm_unset (-1) false;
  finish_date t offset gmt maxlen.

End Date.

(** [now] is what [time] stores; [localtime] is a parameter. *)
Definition datestamp (localtime : Z -> tm) (now : Z) (bufsize : nat) : bytes :=
  let offset := i32 (my_mktime (localtime now) - now) in
  let offset := Z.quot offset 60 in
  take (bufsize - 1) (numeral 10 (u64 now) ++ [32] ++ fmt_plus_0d 5 (Z.quot offset 60 * 100 + Z.rem offset 60)).

(** A machine in UTC. *)
Definition utc_mktime (t : tm) : Z := my_mktime t.
Definition parse_utc (s : string) : outcome (option bytes) := parse_date (fun _ t => t) utc_mktime (str s) 50.

Example parse_date_ex :
  parse_utc "Tue Jun 28 15:36:40 2005 -0730" = Ret (Some (str "1120000000 -0730")) /\
  parse_utc "2005-06-28 23:06 PDT" = Ret (Some (str "1120025160 -0700")) /\
  parse_utc "1120000000 +0200" = Ret (Some (str "1120000000 +0200")) /\
  parse_utc "6/28/05 11:06:40 PM" = Ret (Some (str "1120000000 +0000")) /\
  parse_utc "yesterday" = Ret None.
Proof. vm_compute. done. Qed.

(** ** The calendar *)

Ltac div_lia := Z.to_euclidean_division_equations; lia.

Lemma days_before_year_S y : days_before_year (y + 1) = days_before_year y + if leap y then 366 else 365.
Proof.
  unfold days_before_year, leap.
  destruct (Z.eqb_spec (y mod 4) 0), (Z.eqb_spec (y mod 100) 0), (Z.eqb_spec (y mod 400) 0); cbn [andb orb negb]; div_lia.
Qed.

Lemma year_of_day_ok d : days_before_year (year_of_day d) <= d < days_before_year (year_of_day d + 1).
Proof.
  unfold year_of_day. set (y := 1970 + d * 400 / 146097).
  assert (H : days_before_year (y - 1) <= d < days_before_year (y + 2)) by (unfold days_before_year, y; div_lia).
  destruct (Z.ltb_spec d (days_before_year y)); [replace (y - 1 + 1) with y by lia; lia|].
  destruct (Z.leb_spec (days_before_year (y + 1)) d); [replace (y + 1 + 1) with (y + 2) by lia; lia|lia].
Qed.

(** [Z.to_nat] of a closed term. *)
Ltac eval_nat := match goal with |- context [Z.to_nat ?m] => let k := eval vm_compute in (Z.to_nat m) in change (Z.to_nat m) with k end.

(** The month and its first day. *)
Lemma find_month_ok (lp : bool) d :
  0 <= d < (if lp then 366 else 365) ->
  let '(m, r) := find_month (month_lengths lp) 0 d in
  0 <= m < 12 /\ 0 <= r < 31 /\ d = nth (Z.to_nat m) mdays 0 + (if lp && (2 <=? m) then 1 else 0) + r.
Proof.
  intros Hd. destruct lp; cbn [find_month month_lengths];
    repeat match goal with |- context [if ?a <? ?b then _ else _] => destruct (Z.ltb_spec a b); [eval_nat; cbn; repeat case_match; lia|] end; lia.
Qed.

Definition Y2100 : Z := 4102444800.

Lemma gmtime_ok t :
  0 <= t < Y2100 ->
  exists s, gmtime t = Some s /\ 70 <= tm_year s < 200 /\ 0 <= tm_mon s < 12 /\ 1 <= tm_mday s <= 31 /\ 0 <= tm_wday s < 7 /\
            0 <= tm_hour s < 24 /\ 0 <= tm_min s < 60 /\ 0 <= tm_sec s < 60 /\
            t = (365 * (tm_year s - 70) + (tm_year s - 69) / 4 + nth (Z.to_nat (tm_mon s)) mdays 0 +
                 (if (tm_year s mod 4 =? 0) && (2 <=? tm_mon s) then 1 else 0) + (tm_mday s - 1)) * 86400 +
                tm_hour s * 3600 + tm_min s * 60 + tm_sec s.
Proof.
  unfold Y2100. intros Ht. unfold gmtime. set (d := t / 86400). assert (Hd : 0 <= d < 47482) by (unfold d; div_lia).
  pose proof (year_of_day_ok d) as Hy. set (y := year_of_day d) in *.
  assert (Hr : 1970 <= y < 2100) by (unfold days_before_year in Hy; div_lia).
  pose proof (days_before_year_S y) as HS. pose proof (find_month_ok (leap y) (d - days_before_year y) ltac:(lia)) as Hm.
  destruct (find_month _ _ _) as [m r]. destruct Hm as (Hm&Hr'&E).
  rewrite bool_decide_true by lia. eexists. split; [done|]. cbn [tm_year tm_mon tm_mday tm_wday tm_hour tm_min tm_sec].
  repeat split; try lia; try div_lia.
  assert (El : leap y = ((y - 1900) mod 4 =? 0)).
  { unfold leap. destruct (Z.eqb_spec (y mod 4) 0), (Z.eqb_spec (y mod 100) 0), (Z.eqb_spec (y mod 400) 0), (Z.eqb_spec ((y - 1900) mod 4) 0);
      cbn [andb orb negb]; try done; div_lia. }
  rewrite <- El. replace (r + 1 - 1) with r by lia.
  assert (Ed : d = 365 * (y - 1900 - 70) + (y - 1900 - 69) / 4 + nth (Z.to_nat m) mdays 0 + (if leap y && (2 <=? m) then 1 else 0) + r).
  { assert (days_before_year y = 365 * (y - 1900 - 70) + (y - 1900 - 69) / 4) by (unfold days_before_year; div_lia). lia. }
  rewrite <- Ed. unfold d. div_lia.
Qed.

Lemma mdays_bound m : 0 <= nth m mdays 0 <= 334.
Proof. do 12 (destruct m as [|m]; [cbn; lia|]). destruct m; cbn; lia. Qed.

Lemma i64_small x : - 2 ^ 63 <= x < 2 ^ 63 -> i64 x = x.
Proof. intros. unfold i64. rewrite Z.mod_small; lia. Qed.

Lemma my_mktime_ok t : 0 <= t < Y2100 -> exists s, gmtime t = Some s /\ my_mktime s = t.
Proof.
  intros Ht. destruct (gmtime_ok t Ht) as (s&E&Hy&Hm&Hd&_&Hh&Hmi&Hs&Et). exists s. split; [done|].
  unfold my_mktime. destruct (Z.ltb_spec (tm_year s - 70) 0), (Z.ltb_spec 129 (tm_year s - 70)); try lia. cbn [orb].
  destruct (Z.ltb_spec (tm_mon s) 0), (Z.ltb_spec 11 (tm_mon s)); try lia. cbn [orb].
  assert (Er : Z.rem (tm_year s - 70 + 2) 4 = tm_year s mod 4) by (rewrite Z.rem_mod_nonneg by lia; div_lia). rewrite Er.
  replace (tm_year s - 70 + 1) with (tm_year s - 69) by lia. pose proof (mdays_bound (Z.to_nat (tm_mon s))).
  assert (0 <= (tm_year s - 69) / 4 < 34) by div_lia.
  rewrite i64_small;
    destruct (Z.ltb_spec (tm_mon s) 2), (Z.leb_spec 2 (tm_mon s)), (Z.eqb_spec (tm_year s mod 4) 0); cbn [orb andb negb] in *; lia.
Qed.

Lemma my_mktime_outside t s : gmtime t = Some s -> ~ 0 <= t < Y2100 -> my_mktime s = -1.
Proof.
  unfold gmtime, Y2100. intros E Ht. pose proof (year_of_day_ok (t / 86400)) as Hy. set (y := year_of_day (t / 86400)) in *.
  destruct (find_month _ _ _) as [m r]. case_bool_decide; [|done]. injection E as <-. unfold my_mktime. cbn [tm_year].
  assert (y < 1970 \/ 2100 <= y) by (unfold days_before_year in Hy; div_lia).
  destruct (Z.ltb_spec (y - 1900 - 70) 0), (Z.ltb_spec 129 (y - 1900 - 70)); try done; lia.
Qed.

(** [my_mktime] is the inverse of [gmtime] on every second of the years
    1970 to 2099, and answers -1 for every time [gmtime] can break down outside
    them. *)
Theorem my_mktime_gmtime :
  (forall t, 0 <= t < Y2100 -> exists s, gmtime t = Some s /\ my_mktime s = t) /\
  (forall t s, gmtime t = Some s -> ~ 0 <= t < Y2100 -> my_mktime s = -1).
Proof. split; [apply my_mktime_ok|apply my_mktime_outside]. Qed.

(** ** Reading numbers *)

Definition stops (s : bytes) : Prop := match s with [] => True | c :: _ => isdigit c = false end.

(** Digits that denote [n]. *)
Definition reads (ds : bytes) (n : Z) : Prop :=
  Forall (fun c => isdigit c = true) ds /\ ds <> [] /\ numeral_value 10 ds = n.

Lemma span_digits_stops ds rest :
  Forall (fun c => isdigit c = true) ds -> stops rest -> span_digits 10 (ds ++ rest) = (ds, rest).
Proof.
  intros HF Hs. induction HF as [|d ds Hd HF IH]; cbn.
  - destruct rest as [|c rest]; [done|]. cbn in *. unfold isdigit in Hs. by rewrite Hs.
  - unfold isdigit in Hd. by rewrite Hd, IH.
Qed.

Lemma run_length_stops ds rest :
  Forall (fun c => isdigit c = true) ds -> stops rest -> run_length isdigit (ds ++ rest) = length ds.
Proof.
  intros HF Hs. induction HF as [|d ds Hd HF IH]; cbn.
  - destruct rest as [|c rest]; [done|]. cbn in *. by rewrite Hs.
  - by rewrite Hd, IH.
Qed.

Lemma run_length_tail ds n rest :
  reads ds n -> stops rest -> S (run_length isdigit (tail (ds ++ rest))) = length ds.
Proof.
  intros (HF&Hne&_) Hs. destruct ds as [|c ds]; [done|]. inversion HF; subst. cbn. by rewrite run_length_stops.
Qed.

Lemma numeral_value_zeros k ds : numeral_value 10 (replicate k 48 ++ ds) = numeral_value 10 ds.
Proof. unfold numeral_value. rewrite foldl_app. f_equal. induction k; cbn; done. Qed.

Lemma reads_pad w n : 0 <= n -> reads (pad w (numeral 10 n)) n.
Proof.
  intros Hn. destruct (numeral_spec 10 ltac:(lia) n Hn) as [Hv (HF&Hne&_)]. unfold pad. split; [|split].
  - apply Forall_app. split; [by apply Forall_replicate|done].
  - by destruct (replicate _ _).
  - by rewrite numeral_value_zeros.
Qed.

Lemma reads_numeral n : 0 <= n -> reads (numeral 10 n) n.
Proof. intros Hn. by destruct (numeral_spec 10 ltac:(lia) n Hn) as [Hv (HF&Hne&_)]. Qed.

Lemma strtoul_reads ds n rest : reads ds n -> n < 2 ^ 64 -> stops rest -> strtoul 10 (ds ++ rest) = (n, rest).
Proof.
  intros (HF&Hne&Hv) Hn Hs. unfold strtoul. destruct (scan_digits 10 ds rest ltac:(lia) HF Hne) as [-> ->].
  rewrite span_digits_stops by done. destruct ds as [|d ds']; [done|]. unfold ulong_value. rewrite Hv.
  destruct (Z.leb_spec (2 ^ 64) n); [lia|]. done.
Qed.

Lemma strtol_reads ds n rest : reads ds n -> n < 2 ^ 63 -> stops rest -> strtol (ds ++ rest) = (n, rest).
Proof.
  intros (HF&Hne&Hv) Hn Hs. unfold strtol. destruct (scan_digits 10 ds rest ltac:(lia) HF Hne) as [-> ->].
  rewrite span_digits_stops by done. destruct ds as [|d ds']; [done|]. rewrite Hv. f_equal. lia.
Qed.

(** A check of every number of a range. *)
Lemma check_range (P : Z -> bool) a n : forallb P (seqZ a n) = true -> forall x, a <= x < a + n -> P x = true.
Proof. intros H x Hx. eapply forallb_forall; [exact H|]. apply list_elem_of_In, elem_of_seqZ. lia. Qed.

Lemma length_pad2 n : 0 <= n < 100 -> length (pad 2 (numeral 10 n)) = 2%nat.
Proof. intros. apply Nat.eqb_eq, (check_range (fun n => length (pad 2 (numeral 10 n)) =? 2)%nat 0 100); [vm_compute; done|lia]. Qed.

Lemma length_year n : 1970 <= n < 2100 -> length (numeral 10 n) = 4%nat.
Proof. intros. apply Nat.eqb_eq, (check_range (fun n => length (numeral 10 n) =? 4)%nat 1970 130); [vm_compute; done|lia]. Qed.

Lemma length_small n : 0 <= n < 32 -> (length (numeral 10 n) <= 2)%nat.
Proof. intros. apply Nat.leb_le, (check_range (fun n => length (numeral 10 n) <=? 2)%nat 0 32); [vm_compute; done|lia]. Qed.

(** Four digits are two and two. *)
Lemma pad4 n : 0 <= n < 10000 -> pad 4 (numeral 10 n) = pad 2 (numeral 10 (n / 100)) ++ pad 2 (numeral 10 (n mod 100)).
Proof.
  intros. set (P n := bool_decide (pad 4 (numeral 10 n) = pad 2 (numeral 10 (n / 100)) ++ pad 2 (numeral 10 (n mod 100)))).
  assert (E : P n = true) by (apply (check_range P 0 10000); [vm_compute; done|lia]). by apply bool_decide_eq_true_1 in E.
Qed.

Lemma fmt_0d_nonneg w n : 0 <= n -> fmt_0d w n = pad w (numeral 10 n).
Proof. intros. unfold fmt_0d. destruct (Z.ltb_spec n 0); [lia|done]. Qed.

Lemma match_time h m s dh dm ds rest t :
  reads dh h -> reads dm m -> reads ds s -> stops rest -> 0 <= h < 25 -> 0 <= m < 60 -> 0 <= s <= 60 ->
  match_multi_number h 58 (dh ++ 58 :: dm ++ 58 :: ds ++ rest) (58 :: dm ++ 58 :: ds ++ rest) t =
  Some (length (dh ++ 58 :: dm ++ 58 :: ds), set_time t h m s).
Proof.
  intros Hh Hm Hs Hr Bh Bm Bs. unfold match_multi_number. cbn [tail]. rewrite (strtol_reads _ m) by (done || lia).
  assert (Hd : exists d ds', ds = d :: ds' /\ isdigit d = true).
  { destruct Hs as (HF&Hne&_). destruct ds as [|d ds']; [done|]. inversion HF; eauto. }
  destruct Hd as (d&ds'&->&Hd). cbn [app]. rewrite Z.eqb_refl, Hd. cbn [andb tail].
  change (d :: ds' ++ rest) with ((d :: ds') ++ rest). rewrite (strtol_reads _ s) by (done || lia).
  destruct (Z.ltb_spec s 0); [lia|]. destruct (Z.ltb_spec h 25), (Z.leb_spec 0 m), (Z.ltb_spec m 60), (Z.leb_spec 0 s), (Z.leb_spec s 60); try lia.
  cbn [andb]. do 2 f_equal. repeat (rewrite ?length_app; cbn [length app]). lia.
Qed.

(** ** Time zones *)

Definition tz_ok (tz : Z) : Prop := Z.abs tz < 10000 /\ Z.abs tz mod 100 < 60 /\ tz <> -1.

Definition tz_minutes (tz : Z) : Z := Z.sgn tz * (Z.abs tz / 100 * 60 + Z.abs tz mod 100).

Lemma tz_minutes_ok tz :
  tz_ok tz -> tz_minutes tz <> -1 /\ Z.abs (tz_minutes tz) < 6000 /\ (tz_minutes tz <? 0) = (tz <? 0) /\
              Z.abs (tz_minutes tz) / 60 = Z.abs tz / 100 /\ Z.abs (tz_minutes tz) mod 60 = Z.abs tz mod 100.
Proof.
  intros (Hb&Hm&Hne). unfold tz_minutes. set (q := Z.abs tz / 100). set (r := Z.abs tz mod 100).
  assert (Hq : Z.abs tz = 100 * q + r /\ 0 <= r < 60 /\ 0 <= q < 100) by (unfold q, r in *; div_lia).
  assert (HM : (q * 60 + r) / 60 = q /\ (q * 60 + r) mod 60 = r) by div_lia.
  destruct (Z.ltb_spec tz 0).
  - rewrite Z.sgn_neg by lia. replace (Z.abs (-1 * (q * 60 + r))) with (q * 60 + r) by lia.
    rewrite (proj2 (Z.ltb_lt _ _)) by lia. repeat split; (apply HM || lia).
  - destruct (decide (tz = 0)) as [E|].
    + replace q with 0 in * by lia. replace r with 0 in * by lia. rewrite E. cbn. repeat split; (done || lia).
    + rewrite Z.sgn_pos by lia. replace (Z.abs (1 * (q * 60 + r))) with (q * 60 + r) by lia.
      rewrite (proj2 (Z.ltb_ge _ _)) by lia. repeat split; (apply HM || lia).
Qed.

Lemma length_pad w ds : length (pad w ds) = (w `max` length ds)%nat.
Proof. unfold pad. rewrite length_app, length_replicate. lia. Qed.

(** ** The loop of parse_date *)

Section Loop.
Context (gmtime_r_failed : Z -> tm -> tm).
Abbreviation parse_loop := (parse_loop gmtime_r_failed).
Abbreviation match_one := (match_one gmtime_r_failed).
Abbreviation match_digit := (match_digit gmtime_r_failed).

(** The loop ends, and more fuel than it needs changes nothing. *)
Lemma parse_loop_total f1 : forall f2 date t o g,
  (length date < f1)%nat -> (length date < f2)%nat ->
  exists r, parse_loop f1 date t o g = Ret r /\ parse_loop f2 date t o g = Ret r.
Proof.
  induction f1 as [|f1 IH]; intros f2 date t o g H1 H2; [lia|]. destruct f2 as [|f2]; [lia|]. cbn [Date.parse_loop].
  destruct date as [|c date]; [eauto|]. destruct (c =? 10); [eauto|]. destruct (match_one _ _ _ _ _) as [[[n t'] o'] g'].
  assert ((length (drop (if (n =? 0)%nat then 1%nat else n) (c :: date)) <= length date)%nat).
  { rewrite length_drop. cbn [length]. destruct (Nat.eqb_spec n 0); lia. }
  cbn [length] in *. apply IH; lia.
Qed.

(** The loop from the rest of a string. *)
Definition parse_all (date : bytes) : tm -> Z -> bool -> outcome (tm * Z * bool) := parse_loop (S (length date)) date.

Lemma parse_step c w rest t o g n t' o' g' :
  c <> 10 -> match_one c (c :: w ++ rest) t o g = (n, t', o', g') -> n = S (length w) \/ n = O /\ w = [] ->
  parse_all (c :: w ++ rest) t o g = parse_all rest t' o' g'.
Proof.
  intros Hc E Hn. unfold parse_all at 1. cbn [Date.parse_loop]. destruct (Z.eqb_spec c 10); [done|]. rewrite E.
  assert (Hd : drop (if (n =? 0)%nat then 1%nat else n) (c :: w ++ rest) = rest).
  { destruct Hn as [->|[-> ->]]; [|done]. cbn. apply drop_app_length. }
  rewrite Hd. unfold parse_all. destruct (parse_loop_total (length (c :: w ++ rest)) (S (length rest)) rest t' o' g') as (r&E1&E2).
  - cbn. rewrite length_app. lia.
  - lia.
  - by rewrite E1, E2.
Qed.

Lemma parse_space rest t o g : parse_all (32 :: rest) t o g = parse_all rest t o g.
Proof. apply (parse_step 32 [] rest t o g O); [done|done|by right]. Qed.

Lemma parse_weekday w rest t o g :
  0 <= w < 7 -> parse_all (take 3 (nth (Z.to_nat w) weekday_names []) ++ 32 :: rest) t o g = parse_all (32 :: rest) (set_wday t w) o g.
Proof.
  intros Hw. assert (w = 0 \/ w = 1 \/ w = 2 \/ w = 3 \/ w = 4 \/ w = 5 \/ w = 6) as Hc by lia.
  repeat (destruct Hc as [->|Hc]); try subst w; (eapply parse_step; [|reflexivity|by left]; done).
Qed.

Lemma parse_month m rest t o g :
  0 <= m < 12 -> parse_all (take 3 (nth (Z.to_nat m) month_names []) ++ 32 :: rest) t o g = parse_all (32 :: rest) (set_mon t m) o g.
Proof.
  intros Hm. assert (m = 0 \/ m = 1 \/ m = 2 \/ m = 3 \/ m = 4 \/ m = 5 \/ m = 6 \/ m = 7 \/ m = 8 \/ m = 9 \/ m = 10 \/ m = 11) as Hc by lia.
  repeat (destruct Hc as [->|Hc]); try subst m; (eapply parse_step; [|reflexivity|by left]; done).
Qed.

(** A number at the start of the string. *)
Lemma match_one_digits c w t o g : isdigit c = true -> c <> 10 /\ match_one c (c :: w) t o g = match_digit (c :: w) t o g.
Proof.
  intros Hd. pose proof Hd as Hr. apply is_digit_iff in Hr. split; [lia|]. unfold Date.match_one.
  assert (isalpha c = false) as ->. { unfold isalpha. destruct (Z.leb_spec 65 c), (Z.leb_spec 97 c); try lia; done. }
  by rewrite Hd.
Qed.

Lemma parse_number ds n w rest t o g t' o' g' :
  reads ds n -> match_digit (ds ++ w ++ rest) t o g = (length (ds ++ w), t', o', g') ->
  parse_all ((ds ++ w) ++ rest) t o g = parse_all rest t' o' g'.
Proof.
  intros (HF&Hne&_) E. destruct ds as [|c ds]; [done|]. inversion HF as [|? ? Hd _]; subst.
  destruct (match_one_digits c ((ds ++ w) ++ rest) t o g Hd) as [Hc Em]. eapply (parse_step c (ds ++ w)); [done| |by left].
  rewrite Em. rewrite <- app_assoc. apply E.
Qed.

Lemma parse_mday d rest t o g :
  1 <= d <= 31 -> tm_mday t < 0 -> parse_all (numeral 10 d ++ 32 :: rest) t o g = parse_all (32 :: rest) (set_mday t d) o g.
Proof.
  intros Hd Ht. pose proof (reads_numeral d ltac:(lia)) as Hr. pose proof (length_small d ltac:(lia)) as Hl.
  rewrite <- (app_nil_r (numeral 10 d)). eapply parse_number; [done|]. rewrite app_nil_r. cbn [app]. unfold Date.match_digit.
  rewrite (strtoul_reads _ d) by (done || lia). destruct (Z.ltb_spec 946684800 d); [lia|]. unfold match_number.
  rewrite (run_length_tail _ d) by done. unfold guess_number. destruct (Nat.eqb_spec (length (numeral 10 d)) 4); [lia|].
  destruct (Z.ltb_spec 0 d), (Z.ltb_spec d 32), (Z.ltb_spec (tm_mday t) 0); try lia. cbn [andb]. by destruct rest.
Qed.

Lemma parse_year y rest t o g :
  1970 <= y < 2100 -> parse_all (numeral 10 y ++ 32 :: rest) t o g = parse_all (32 :: rest) (set_year t (y - 1900)) o g.
Proof.
  intros Hy. pose proof (reads_numeral y ltac:(lia)) as Hr. pose proof (length_year y ltac:(lia)) as Hl.
  rewrite <- (app_nil_r (numeral 10 y)). eapply parse_number; [done|]. rewrite app_nil_r. cbn [app]. unfold Date.match_digit.
  rewrite (strtoul_reads _ y) by (done || lia). destruct (Z.ltb_spec 946684800 y); [lia|]. unfold match_number.
  rewrite (run_length_tail _ y) by done. rewrite Hl. unfold guess_number. cbn [Nat.eqb]. destruct (Z.leb_spec y 1200); [lia|]. cbn [andb].
  destruct (Z.ltb_spec 1900 y), (Z.ltb_spec y 2100); try lia. cbn [andb]. by destruct rest.
Qed.

Lemma parse_time h m s rest t o g :
  0 <= h < 24 -> 0 <= m < 60 -> 0 <= s < 60 ->
  parse_all (pad 2 (numeral 10 h) ++ 58 :: pad 2 (numeral 10 m) ++ 58 :: pad 2 (numeral 10 s) ++ 32 :: rest) t o g =
  parse_all (32 :: rest) (set_time t h m s) o g.
Proof.
  intros Bh Bm Bs. pose proof (reads_pad 2 h ltac:(lia)) as Hh. pose proof (reads_pad 2 m ltac:(lia)) as Hm. pose proof (reads_pad 2 s ltac:(lia)) as Hs.
  generalize dependent (pad 2 (numeral 10 h)). generalize dependent (pad 2 (numeral 10 m)). generalize dependent (pad 2 (numeral 10 s)).
  intros ds Hs dm Hm dh Hh.
  assert (E : dh ++ 58 :: dm ++ 58 :: ds ++ 32 :: rest = (dh ++ (58 :: dm ++ 58 :: ds)) ++ 32 :: rest).
  { by rewrite <- (app_assoc dh), <- app_comm_cons, <- app_assoc, <- app_comm_cons. }
  rewrite E. eapply parse_number; [done|].
  replace ((58 :: dm ++ 58 :: ds) ++ 32 :: rest) with (58 :: dm ++ 58 :: ds ++ 32 :: rest).
  2: { by rewrite <- app_comm_cons, <- app_assoc, <- app_comm_cons. }
  unfold Date.match_digit. rewrite (strtoul_reads _ h) by (done || lia). destruct (Z.ltb_spec 946684800 h); [lia|]. unfold match_number.
  pose proof (match_time h m s dh dm ds (32 :: rest) t Hh Hm Hs eq_refl ltac:(lia) Bm ltac:(lia)) as EM.
  assert (Hd : exists d dm', dm = d :: dm' /\ isdigit d = true).
  { destruct Hm as (HF&Hne&_). destruct dm as [|d dm']; [done|]. inversion HF; eauto. }
  destruct Hd as (d&dm'&->&Hd). cbn [app] in *. rewrite Hd, EM. done.
Qed.

Lemma parse_tz tz t o g : tz_ok tz -> parse_all (fmt_plus_0d 5 tz) t o g = Ret (t, tz_minutes tz, g).
Proof.
  intros Htz. pose proof Htz as (Hb&Hm&_). unfold fmt_plus_0d. set (sg := if tz <? 0 then 45 else 43).
  assert (Hsg : (sg = 45 /\ tz < 0) \/ (sg = 43 /\ 0 <= tz)) by (unfold sg; destruct (Z.ltb_spec tz 0); [left|right]; done).
  pose proof (reads_pad 4 (Z.abs tz) ltac:(lia)) as Hr. pose proof (length_pad 4 (numeral 10 (Z.abs tz))) as Hlen.
  change (5 - 1)%nat with 4%nat. set (ds := pad 4 (numeral 10 (Z.abs tz))) in *. clearbody ds.
  rewrite <- (app_nil_r ds). transitivity (parse_all [] t (tz_minutes tz) g); [|done].
  apply (parse_step sg ds [] t o g (S (length ds))); [destruct Hsg; lia| |by left]. rewrite app_nil_r. unfold Date.match_one.
  assert (isalpha sg = false /\ isdigit sg = false /\ (sg =? 45) || (sg =? 43) = true) as (->&->&->)
    by (destruct Hsg as [[-> _]|[-> _]]; done).
  assert (match sg :: ds with _ :: d :: _ => isdigit d | _ => false end = true) as ->.
  { destruct Hr as (HF&Hne&_). destruct ds; [done|]. by inversion HF. }
  cbn [andb]. unfold match_tz. cbn [tail]. rewrite <- (app_nil_r ds) at 1. rewrite (strtoul_reads _ (Z.abs tz)) by (done || lia).
  rewrite i32_small by lia. rewrite Z.rem_mod_nonneg, Z.quot_div_nonneg by lia. cbn [length]. rewrite Nat.sub_0_r. replace (S (length ds) - 1)%nat with (length ds) by lia.
  destruct (Z.ltb_spec (Z.abs tz mod 100) 60), (Nat.ltb_spec 2 (length ds)); try lia. cbn [andb]. unfold tz_minutes.
  do 3 f_equal. destruct Hsg as [[-> ?]|[-> ?]].
  - rewrite Z.sgn_neg by lia. cbn [Z.eqb Pos.eqb]. lia.
  - cbn [Z.eqb Pos.eqb]. destruct (decide (tz = 0)) as [->|]; [done|]. rewrite Z.sgn_pos by lia. lia.
Qed.

End Loop.

(** ** Round trips *)

(** The form dates have in commits: seconds since 1970 and the time zone. *)
Definition date_text (t tz : Z) : bytes := numeral 10 t ++ 32 :: fmt_plus_0d 5 tz.

Lemma u64_i64_sub x y : u64 (i64 (x + y) - y) = u64 x.
Proof. unfold u64, i64. div_lia. Qed.

(** What [show_date] prints is read back field by field. *)
Lemma show_date_ok time tz s :
  tz_ok tz -> gmtime (i64 (time + tz_minutes tz * 60)) = Some s -> 70 <= tm_year s < 200 ->
  show_date time tz =
    Ret (Some (take 3 (nth (Z.to_nat (tm_wday s)) weekday_names []) ++ [32] ++ take 3 (nth (Z.to_nat (tm_mon s)) month_names []) ++ [32] ++
               fmt_0d 0 (tm_mday s) ++ [32] ++ fmt_0d 2 (tm_hour s) ++ [58] ++ fmt_0d 2 (tm_min s) ++ [58] ++ fmt_0d 2 (tm_sec s) ++ [32] ++
               fmt_0d 0 (tm_year s + 1900) ++ [32] ++ fmt_plus_0d 5 tz)).
Proof.
  intros Htz E Hy. pose proof (tz_minutes_ok tz Htz) as (_&Hb&_). destruct Htz as (Ha&Hm&_). unfold show_date, int_result.
  assert (Ht : (if tz <? 0 then - ((- tz) / 100 * 60 + (- tz) mod 100) else tz / 100 * 60 + tz mod 100) = tz_minutes tz).
  { unfold tz_minutes. destruct (Z.ltb_spec tz 0).
    - rewrite Z.sgn_neg, Z.abs_neq by lia. lia.
    - rewrite Z.abs_eq by lia. destruct (decide (tz = 0)) as [->|]; [done|]. rewrite Z.sgn_pos by lia. lia. }
  destruct (tz <? 0) eqn:Es; [rewrite (bool_decide_true (- 2 ^ 31 <= - tz < 2 ^ 31)) by lia|]; rewrite bind_Ret, Ht, bool_decide_true by lia;
    rewrite bind_Ret, E, bool_decide_true by lia; done.
Qed.

Lemma parse_shown gm s tz :
  tz_ok tz -> 70 <= tm_year s < 200 -> 0 <= tm_mon s < 12 -> 1 <= tm_mday s <= 31 -> 0 <= tm_wday s < 7 ->
  0 <= tm_hour s < 24 -> 0 <= tm_min s < 60 -> 0 <= tm_sec s < 60 ->
  parse_all gm
    (take 3 (nth (Z.to_nat (tm_wday s)) weekday_names []) ++ [32] ++ take 3 (nth (Z.to_nat (tm_mon s)) month_names []) ++ [32] ++
     fmt_0d 0 (tm_mday s) ++ [32] ++ fmt_0d 2 (tm_hour s) ++ [58] ++ fmt_0d 2 (tm_min s) ++ [58] ++ fmt_0d 2 (tm_sec s) ++ [32] ++
     fmt_0d 0 (tm_year s + 1900) ++ [32] ++ fmt_plus_0d 5 tz) tm_unset (-1) false =
  Ret (mk_tm (tm_sec s) (tm_min s) (tm_hour s) (tm_mday s) (tm_mon s) (tm_year s) (tm_wday s) 0 (-1), tz_minutes tz, false).
Proof.
  intros. cbn [app]. rewrite parse_weekday, parse_space, parse_month, parse_space by done. rewrite !fmt_0d_nonneg by lia.
  change (pad 0) with (fun ds : bytes => ds). cbv beta.
  rewrite parse_mday by (done || lia). rewrite parse_space, parse_time by done.
  rewrite parse_space, parse_year by lia. rewrite parse_space, parse_tz by done. do 4 f_equal.
  unfold set_year, set_time, set_mday, set_mon, set_wday, tm_unset. cbn. f_equal. lia.
Qed.

(** The last part of [parse_date], for a time zone [tz]. *)
Lemma finish_date_ok mktime t tz gmt maxlen :
  tz_ok tz -> my_mktime t <> -1 ->
  finish_date mktime t (tz_minutes tz) gmt maxlen =
  Ret (Some (take (maxlen - 1) (date_text (u64 (if gmt then my_mktime t else my_mktime t - tz_minutes tz * 60)) tz))).
Proof.
  intros Htz Ht. destruct (tz_minutes_ok tz Htz) as (Hne&Hb&Hs&Hq&Hr). unfold finish_date, int_result.
  destruct (Z.eqb_spec (tz_minutes tz) (-1)); [done|]. destruct (Z.eqb_spec (my_mktime t) (-1)); [done|].
  assert (Habs : (if tz_minutes tz <? 0 then if bool_decide (- 2 ^ 31 <= - tz_minutes tz < 2 ^ 31) then Ret (- tz_minutes tz) else Ub
                  else Ret (tz_minutes tz)) = Ret (Z.abs (tz_minutes tz))).
  { destruct (Z.ltb_spec (tz_minutes tz) 0); [rewrite bool_decide_true, Z.abs_neq by lia|rewrite Z.abs_eq by lia]; done. }
  rewrite Habs, Hs. rewrite bool_decide_true by lia.
  assert (Htext : forall v, numeral 10 v ++ [32; if tz <? 0 then 45 else 43] ++ fmt_0d 2 (Z.abs (tz_minutes tz) / 60) ++
                            fmt_0d 2 (Z.abs (tz_minutes tz) mod 60) = date_text v tz).
  { intros v. rewrite Hq, Hr, !fmt_0d_nonneg by div_lia. rewrite <- pad4 by (destruct Htz; lia). done. }
  destruct gmt; rewrite !bind_Ret, Htext; done.
Qed.

(** C23. [parse_date] reads what [show_date] prints: for every time and every
    time zone of up to 99 hours and less than 60 minutes, -0001 excepted, for
    which the local time lies in the years 1970 to 2099, it returns the same
    time and the same zone in the form commits have, wherever the machine is. *)
Theorem parse_show_date gm mktime (time tz : Z) (maxlen : nat) :
  0 <= time < 2 ^ 64 -> tz_ok tz -> 0 <= i64 (time + tz_minutes tz * 60) < Y2100 ->
  exists s, show_date time tz = Ret (Some s) /\ parse_date gm mktime s maxlen = Ret (Some (take (maxlen - 1) (date_text time tz))).
Proof.
  intros Ht Htz Hr. destruct (my_mktime_ok _ Hr) as (s&E&Hmk). destruct (gmtime_ok _ Hr) as (s'&E'&Hf).
  rewrite E in E'. injection E' as <-. destruct Hf as (Hy&Hm&Hd&Hw&Hh&Hmi&Hs&_).
  eexists. split; [by apply show_date_ok|]. unfold parse_date. setoid_rewrite parse_shown; [|done..]. rewrite bind_Ret.
  set (t' := mk_tm _ _ _ _ _ _ _ _ _). assert (Emk : my_mktime t' = i64 (time + tz_minutes tz * 60)) by (rewrite <- Hmk; done).
  rewrite finish_date_ok by (done || lia). rewrite Emk, u64_i64_sub, u64_small by done. done.
Qed.

Lemma parse_show_date_witness :
  exists s, show_date 1120000000 (-730) = Ret (Some s) /\
            parse_date (fun _ t => t) (fun _ => 0) s 50 = Ret (Some (take 49 (date_text 1120000000 (-730)))).
Proof. by apply (parse_show_date (fun _ t => t) (fun _ => 0) 1120000000 (-730) 50); vm_compute. Defined.

Lemma parse_seconds gm time tz :
  tz_ok tz -> 946684800 < time < Y2100 ->
  exists s, gmtime time = Some s /\ my_mktime s = time /\
            parse_all gm (date_text time tz) tm_unset (-1) false = Ret (s, tz_minutes tz, true).
Proof.
  unfold Y2100. intros Htz Ht. destruct (my_mktime_ok time) as (s&E&Hmk); [unfold Y2100; lia|]. exists s. split; [done|]. split; [done|].
  pose proof (reads_numeral time ltac:(lia)) as Hn. unfold date_text. rewrite <- (app_nil_r (numeral 10 time)).
  rewrite (parse_number gm _ time [] _ _ _ _ s (-1) true); [by rewrite parse_space, parse_tz|done|]. rewrite app_nil_r. cbn [app].
  unfold match_digit. rewrite (strtoul_reads _ time) by (done || lia). destruct (Z.ltb_spec 946684800 time); [|lia].
  rewrite i64_small, E by lia. rewrite length_app. do 3 f_equal. lia.
Qed.

(** The zone [datestamp] prints, from minutes with a sign. *)
Lemma zone_digits x m : 0 <= m -> Z.quot (Z.sgn x * m) 60 * 100 + Z.rem (Z.sgn x * m) 60 = Z.sgn x * (m / 60 * 100 + m mod 60).
Proof.
  intros Hm. destruct (Z.sgn_spec x) as [[_ ->]|[[_ ->]|[_ ->]]].
  - rewrite !Z.mul_1_l, Z.quot_div_nonneg, Z.rem_mod_nonneg by lia. done.
  - rewrite !Z.mul_0_l. done.
  - replace (-1 * m) with (- m) by lia. rewrite Z.quot_opp_l, Z.rem_opp_l, Z.quot_div_nonneg, Z.rem_mod_nonneg by lia. lia.
Qed.

(** A date in the form commits have, of 2000 to 2099, is a fixed point of
    [parse_date], so what [datestamp] and [parse_date] write may be given to
    git again; [datestamp] writes that form whenever the local time is a whole
    number of minutes from UTC. *)
Theorem parse_date_text gm mktime (time tz : Z) (maxlen : nat) :
  946684800 < time < Y2100 -> tz_ok tz ->
  parse_date gm mktime (date_text time tz) maxlen = Ret (Some (take (maxlen - 1) (date_text time tz))) /\
  (forall localtime, gmtime (time + tz_minutes tz * 60) = Some (localtime time) -> 0 <= time + tz_minutes tz * 60 < Y2100 ->
   datestamp localtime time maxlen = take (maxlen - 1) (date_text time tz)).
Proof.
  intros Ht Htz. split.
  - destruct (parse_seconds gm time tz Htz Ht) as (s&E&Hmk&Hp). unfold parse_date. setoid_rewrite Hp. rewrite bind_Ret.
    unfold Y2100 in Ht. rewrite finish_date_ok, Hmk, u64_small by (done || lia). done.
  - intros lt E Hr. destruct (my_mktime_ok _ Hr) as (s&E'&Hmk). rewrite E in E'. injection E' as E'. unfold datestamp.
    destruct (tz_minutes_ok tz Htz) as (_&Hb&Hs&Hq&Hm). rewrite E', Hmk. replace (_ + _ - time) with (tz_minutes tz * 60) by lia.
    rewrite i32_small, Z.quot_mul by lia. unfold Y2100 in Ht. rewrite u64_small by lia. unfold date_text. cbn [app]. do 4 f_equal.
    assert (tz_minutes tz = Z.sgn tz * Z.abs (tz_minutes tz) /\ tz = Z.sgn tz * Z.abs tz) as [E1 E2].
    { split; [|lia]. destruct (Z.ltb_spec (tz_minutes tz) 0), (Z.ltb_spec tz 0); try done; [lia|].
      destruct (decide (tz = 0)) as [->|]; [done|lia]. }
    rewrite E1, zone_digits, Hq, Hm by apply Z.abs_nonneg.
    replace (Z.abs tz / 100 * 100 + Z.abs tz mod 100) with (Z.abs tz) by div_lia. by rewrite <- E2.
Qed.

Lemma parse_date_text_witness :
  parse_date (fun _ t => t) (fun _ => 0) (date_text 1120000000 200) 50 = Ret (Some (take 49 (date_text 1120000000 200))) /\
  (forall localtime, gmtime (1120000000 + tz_minutes 200 * 60) = Some (localtime 1120000000) -> 0 <= 1120000000 + tz_minutes 200 * 60 < Y2100 ->
   datestamp localtime 1120000000 50 = take 49 (date_text 1120000000 200)).
Proof. by apply (parse_date_text (fun _ t => t) (fun _ => 0) 1120000000 200 50); vm_compute. Defined.

(** The zone -0001 is the value that stands for no zone: the machine's own is
    used, here one hour east. *)
Example minus_one_minute :
  parse_date (fun _ t => t) (fun t => my_mktime t - 3600) (str "Tue Jun 28 23:06:40 2005 -0001") 50 =
    Ret (Some (str "1119996400 +0100")).
Proof. vm_compute. done. Qed.

(** A zone of eight digits makes [offset * 60] overflow. *)
Example zone_overflow : parse_utc "1 Jan 2000 +99999959" = Ub.
Proof. vm_compute. done. Qed.

(** The table's "NT" is too short to be matched. *)
Example nome_unknown : parse_utc "1 Jan 2000 12:00 NT" = parse_utc "1 Jan 2000 12:00 UTC".
Proof. vm_compute. done. Qed.

(** The year 70 is 1970 in "1 Jan 70" and no year in "1/1/70". *)
Example year_seventy :
  parse_utc "1 Jan 70" = Ret (Some (str "0 +0000")) /\ parse_utc "1/1/70" <> parse_utc "1/1/1970".
Proof. vm_compute. done. Qed.
