(* ===== verification/CommitTree.v ===== *)
(** * git-commit-tree

    commit-tree.c: the buffer the commit's text grows in, the cleaning of names,
    the parents on the command line, the people and dates from the environment
    and the machine, and the whole program.  [commit_tree_spec] joins it with
    the parser of commits: the new commit extends the history in the object
    database. *)

From stdpp Require Import base list numbers strings gmap.
From Stdlib Require Import ZArith Lia.
From S2P Require Import Prelude.
From S2P Require Import Hex.
From S2P Require Import CsumFile.
From S2P Require Import CString.
From S2P Require Import ObjectHeader.
From S2P Require Import ObjectDB.
From S2P Require Import ObjectParse.
From S2P Require Import Names.
From S2P Require Import History.
From S2P Require Import Text.
From S2P Require Import Date.

(** ** The buffer *)

(** A block of [b_cap] bytes, [b_mem] those written so far; [b_size] is the
    [unsigned int] behind [sizep]. *)
Record buffer := mk_buffer { b_cap : Z; b_size : Z; b_mem : bytes }.

Definition BLOCKING : Z := Z.shiftl 1 14.

(** [(x + 32767) & ~32767] of [unsigned long]s. *)
Definition round32k (x : Z) : Z := Z.land (u64 (x + 32767)) (u64 (Z.lnot 32767)).

Section Buffer.
Context (malloc_ok : Z -> bool).

Definition init_buffer : outcome buffer :=
  if malloc_ok BLOCKING then Ret (mk_buffer BLOCKING 0 []) else Die.

(** [text] is the formatted line; [vsnprintf] returns its length, of which
    [one_line] has the first 2047 bytes and a NUL. *)
Definition add_buffer (b : buffer) (text : bytes) : outcome buffer :=
  let one_line := take 2047 text ++ [0] in
  let len := length text in
  let size := b_size b in
  let newsize := size + Z.of_nat len in
  let alloc := round32k size in
  cap ← (if alloc <? newsize then
           let alloc := round32k newsize in if malloc_ok alloc then Ret alloc else Die
         else Ret (b_cap b));
  if bool_decide ((len <= 2048)%nat /\ newsize <= cap) then
    Ret (mk_buffer cap (u32 newsize)
           (take (Z.to_nat size) (b_mem b) ++ take len one_line ++ drop (Z.to_nat newsize) (b_mem b)))
  else Ub.

End Buffer.

(** ** Names *)

(** The first loop of [remove_special]. *)
Fixpoint copy_plain (src : bytes) : bytes :=
  match src with
  | [] => []
  | c :: src => if (c =? 10) || (c =? 60) || (c =? 62) then copy_plain src else c :: copy_plain src
  end.

(** The second one, which goes back from the end. *)
Fixpoint drop_crud (back : bytes) : bytes :=
  match back with
  | c :: back' => if (c =? 44) || (c =? 59) || (c =? 46) then drop_crud back' else back
  | [] => []
  end.

Definition remove_special (p : bytes) : bytes := rev (drop_crud (rev (copy_plain p))).

Example remove_special_ex : remove_special (str "Joe <root> B., Jr.,;.") = str "Joe root B., Jr".
Proof. reflexivity. Qed.

(** ** The program *)

Section Program.
Context {D} {DB : ObjectDB D} (malloc_ok : Z -> bool).
(** The environment, the files names are read from, and the memory behind the
    arguments. *)
Context (getenv file : bytes -> option bytes) (argv_end : bytes).
(** [getpwuid]'s name and gecos, the names of the host and its domain, the
    clock and the time zone. *)
Context (pw : option (bytes * bytes)) (host domain : bytes) (now : Z) (localtime : Z -> tm).
Context (gmtime_r_failed : Z -> tm -> tm) (mktime : tm -> Z).

Definition check_valid (db : D) (sha1 expect : bytes) : io unit :=
  r <- db_read db sha1 ;;
  match r with
  | Some (type, _) => if bool_decide (type = expect) then io_ret tt else Some Die
  | None => Some Die
  end.

Definition MAXPARENT : nat := 16.

Definition new_parent (parents : list bytes) (sha1 : bytes) : bool := negb (bool_decide (sha1 ∈ parents)).

(** The loop over the arguments behind the tree; [parents] is the used part of
    [parent_sha1]. *)
Fixpoint read_parents (db : D) (argv : list bytes) (parents : list bytes) : io (list bytes) :=
  match argv with
  | [] => io_ret parents
  | [_] => Some Die
  | a :: b :: argv =>
      if negb (bool_decide (a = str "-p")) then Some Die
      else
        r <- Some (get_sha1 getenv file (b ++ 0 :: argv_end)) ;;
        match r with
        | None => Some Die
        | Some sha1 =>
            if (length parents =? MAXPARENT)%nat then Some Ub
            else
              _ <- check_valid db sha1 (str "commit") ;;
              read_parents db argv (if new_parent parents sha1 then parents ++ [sha1] else parents)
        end
  end.

(** [realemail], a buffer of 1000 bytes. *)
Definition real_email (name : bytes) : outcome bytes :=
  let at_host := name ++ [64] ++ host in
  if bool_decide (1000 <= length at_host)%nat then Ub
  else if bool_decide (46 ∈ host) then Ret at_host
  else
    let email := at_host ++ [46] ++ domain in
    if bool_decide (1000 <= length email)%nat then Ub else Ret email.

(** A date of the environment in place of [date], when it can be parsed. *)
Definition env_date (var date : bytes) : outcome bytes :=
  v ← gitenv getenv var;
  match v with
  | Some v => r ← parse_date gmtime_r_failed mktime v 50; Ret (default date r)
  | None => Ret date
  end.

Record people := { p_gecos : bytes; p_email : bytes; p_date : bytes; p_commitgecos : bytes; p_commitemail : bytes; p_realdate : bytes }.

(** The strings [remove_special] changes, by address: [realgecos], [realemail]
    and the values of the environment; a name not in the environment is the
    real one, the same string. *)
Definition read_people : outcome people :=
  match pw with
  | None => Die
  | Some (pw_name, realgecos) =>
      realemail ← real_email pw_name;
      let realdate := datestamp localtime now 50 in
      commitgecos ← gitenv getenv (str "GIT_COMMITTER_NAME");
      commitemail ← gitenv getenv (str "GIT_COMMITTER_EMAIL");
      gecos ← gitenv getenv (str "GIT_AUTHOR_NAME");
      email ← gitenv getenv (str "GIT_AUTHOR_EMAIL");
      date ← env_date (str "GIT_AUTHOR_DATE") realdate;
      realdate ← env_date (str "GIT_COMMITTER_DATE") realdate;
      let strings := [realgecos; realemail; default [] commitgecos; default [] commitemail; default [] gecos; default [] email] in
      let at_ (v : option bytes) (own real : nat) := match v with Some _ => own | None => real end in
      let commitgecos := at_ commitgecos 2%nat 0%nat in
      let commitemail := at_ commitemail 3%nat 1%nat in
      let gecos := at_ gecos 4%nat 0%nat in
      let email := at_ email 5%nat 1%nat in
      let strings := foldl (fun s p => alter remove_special p s) strings [gecos; 0%nat; commitgecos; email; 1%nat; commitemail] in
      Ret {| p_gecos := strings !!! gecos; p_email := strings !!! email; p_date := date;
             p_commitgecos := strings !!! commitgecos; p_commitemail := strings !!! commitemail; p_realdate := realdate |}
  end.

(** The comment, up to 999 bytes at a time; a NUL ends a piece. *)
Fixpoint add_comment (fuel : nat) (b : buffer) (input : bytes) : outcome buffer :=
  match fuel with
  | O => Ub
  | S fuel =>
      if bool_decide (input = []) then Ret b
      else let '(comment, input) := fgets 999 input in b ← add_buffer malloc_ok b (cstr comment); add_comment fuel b input
  end.

Fixpoint add_parents (b : buffer) (parents : list bytes) : outcome buffer :=
  match parents with
  | [] => Ret b
  | p :: parents => b ← add_buffer malloc_ok b (str "parent " ++ sha1_to_hex p ++ [10]); add_parents b parents
  end.

Definition author_line (p : people) : bytes :=
  str "author " ++ p_gecos p ++ str " <" ++ p_email p ++ str "> " ++ p_date p ++ [10].
Definition committer_line (p : people) : bytes :=
  str "committer " ++ p_commitgecos p ++ str " <" ++ p_commitemail p ++ str "> " ++ p_realdate p ++ [10; 10].

Definition commit_buffer (tree : bytes) (parents : list bytes) (p : people) (input : bytes) : outcome bytes :=
  b ← init_buffer malloc_ok;
  b ← add_buffer malloc_ok b (str "tree " ++ sha1_to_hex tree ++ [10]);
  b ← add_parents b parents;
  b ← add_buffer malloc_ok b (author_line p);
  b ← add_buffer malloc_ok b (committer_line p);
  b ← add_comment (S (length input)) b input;
  Ret (take (Z.to_nat (b_size b)) (b_mem b)).

(** [argv] without the name of the program; the name printed and the database.
    The value of [write_sha1_file] is dropped. *)
Definition commit_tree (db : D) (argv : list bytes) (input : bytes) : io (bytes * D) :=
  match argv with
  | [] => Some Die
  | arg :: argv =>
      r <- Some (get_sha1_hex (arg ++ 0 :: argv_end)) ;;
      if r.1 <? 0 then Some Die
      else
        let tree_sha1 := r.2 in
        _ <- check_valid db tree_sha1 (str "tree") ;;
        parents <- read_parents db argv [] ;;
        p <- Some read_people ;;
        text <- Some (commit_buffer tree_sha1 parents p input) ;;
        w <- Some (db_write db text (str "commit")) ;;
        io_ret (sha1_to_hex w.1.2, w.2)
  end.

End Program.

(** ** The buffer grows as it should *)

Lemma round32k_eq x : 0 <= x < 2 ^ 62 -> round32k x = (x + 32767) / 2 ^ 15 * 2 ^ 15.
Proof.
  intros Hx. unfold round32k. rewrite u64_small by lia. change (u64 (Z.lnot 32767)) with (Z.ldiff (Z.ones 64) (Z.ones 15)).
  assert (E : Z.land (x + 32767) (Z.ldiff (Z.ones 64) (Z.ones 15)) = Z.ldiff (Z.land (x + 32767) (Z.ones 64)) (Z.ones 15)).
  { apply Z.bits_inj'. intros n Hn. rewrite Z.land_spec, !Z.ldiff_spec, Z.land_spec. by rewrite andb_assoc. }
  rewrite E, Z.land_ones, Z.mod_small by lia. rewrite Z.ldiff_ones_r, Z.shiftl_mul_pow2, Z.shiftr_div_pow2 by lia. done.
Qed.

Lemma round32k_ge x : 0 <= x < 2 ^ 62 -> x <= round32k x.
Proof. intros Hx. rewrite round32k_eq by done. pose proof (Z.div_mod (x + 32767) (2 ^ 15)). pose proof (Z.mod_pos_bound (x + 32767) (2 ^ 15)). lia. Qed.

Lemma round32k_least x y : 0 <= x < 2 ^ 62 -> 0 <= y < 2 ^ 62 -> y <= round32k x -> round32k y <= round32k x.
Proof.
  intros Hx Hy. rewrite !round32k_eq by done. intros Hle. apply Z.mul_le_mono_nonneg_r; [lia|].
  apply Z.lt_succ_r, Z.div_lt_upper_bound; lia.
Qed.

(** The buffer holds [l], and no less room than the code takes it to have. *)
Definition holds (b : buffer) (l : bytes) : Prop :=
  b_mem b = l /\ b_size b = Z.of_nat (length l) /\ round32k (b_size b) <= b_cap b.

Section Growth.
Context (malloc_ok : Z -> bool) (Hm : forall n, malloc_ok n = true).

Lemma add_buffer_ok b l text :
  holds b l -> (length text < 2048)%nat -> Z.of_nat (length l + length text) < 2 ^ 31 ->
  exists b', add_buffer malloc_ok b text = Ret b' /\ holds b' (l ++ text).
Proof.
  intros (<-&Es&Hc) Ht Hl. unfold add_buffer. rewrite Es in *. rewrite Hm.
  pose proof (round32k_ge (Z.of_nat (length (b_mem b)) + Z.of_nat (length text)) ltac:(lia)) as Hge.
  pose proof (round32k_least (Z.of_nat (length (b_mem b))) (Z.of_nat (length (b_mem b)) + Z.of_nat (length text)) ltac:(lia) ltac:(lia)) as Hle.
  assert (Hw : forall cap, Z.of_nat (length (b_mem b)) + Z.of_nat (length text) <= cap ->
    round32k (Z.of_nat (length (b_mem b)) + Z.of_nat (length text)) <= cap -> exists b',
    (if bool_decide ((length text <= 2048)%nat /\ Z.of_nat (length (b_mem b)) + Z.of_nat (length text) <= cap) then
       Ret (mk_buffer cap (u32 (Z.of_nat (length (b_mem b)) + Z.of_nat (length text)))
              (take (Z.to_nat (Z.of_nat (length (b_mem b)))) (b_mem b) ++ take (length text) (take 2047 text ++ [0]) ++
               drop (Z.to_nat (Z.of_nat (length (b_mem b)) + Z.of_nat (length text))) (b_mem b)))
     else Ub) = Ret b' /\ holds b' (b_mem b ++ text)).
  { intros cap Hcap Hr. rewrite bool_decide_true by lia. eexists. split; [done|]. unfold holds. cbn [b_mem b_size b_cap].
    rewrite u32_small by lia. rewrite length_app. split; [|split; [lia|done]].
    rewrite Nat2Z.id, take_ge, (take_ge text 2047), take_app_length, drop_ge, app_nil_r by lia. done. }
  destruct (Z.ltb_spec (round32k (Z.of_nat (length (b_mem b)))) (Z.of_nat (length (b_mem b)) + Z.of_nat (length text))) as [Hlt|Hfit];
    rewrite bind_Ret; apply Hw; lia.
Qed.

Lemma init_buffer_ok : exists b, init_buffer malloc_ok = Ret b /\ holds b [].
Proof. unfold init_buffer. rewrite Hm. eexists. split; [done|]. split; [done|]. split; [done|]. vm_compute. discriminate. Qed.

Lemma add_parents_ok ps : forall b l,
  holds b l -> Forall sha1_ok ps -> Z.of_nat (length (l ++ concat (map parent_line ps))) < 2 ^ 31 ->
  exists b', add_parents malloc_ok b ps = Ret b' /\ holds b' (l ++ concat (map parent_line ps)).
Proof.
  induction ps as [|s ps IH]; intros b l Hb Hps Hl; cbn [add_parents map concat] in *; [exists b; by rewrite app_nil_r|].
  apply Forall_cons in Hps as [[Hs _] Hps]. fold (parent_line s). rewrite !length_app in Hl.
  destruct (add_buffer_ok b l (parent_line s) Hb) as (b1&->&Hb1); [|lia|].
  { unfold parent_line. rewrite !length_app, length_sha1_to_hex by done. simpl. lia. }
  rewrite bind_Ret. rewrite app_assoc. apply IH; [done|done|]. rewrite !length_app. lia.
Qed.

Lemma fgets_split n input line rest :
  fgets n input = (line, rest) -> (0 < n)%nat ->
  line ++ rest = input /\ (length line <= n)%nat /\ (input <> [] -> line <> []).
Proof.
  revert input line rest; induction n as [|n IH]; intros input line rest E Hn; [lia|]. destruct input as [|c input]; cbn in E.
  - injection E as <- <-. split; [done|]. split; [simpl; lia|done].
  - destruct (Z.eqb_spec c 10); [injection E as <- <-; split; [done|]; split; [simpl; lia|done]|].
    destruct (fgets n input) as [a r] eqn:Ef. injection E as <- <-. destruct n as [|n].
    + cbn in Ef. injection Ef as <- <-. split; [done|]. split; [simpl; lia|done].
    + destruct (IH input a r Ef ltac:(lia)) as (<-&?&_). split; [done|]. split; [simpl; lia|done].
Qed.

Lemma add_comment_ok fuel : forall b l input,
  holds b l -> 0 ∉ input -> (length input < fuel)%nat -> Z.of_nat (length (l ++ input)) < 2 ^ 31 ->
  exists b', add_comment malloc_ok fuel b input = Ret b' /\ holds b' (l ++ input).
Proof.
  induction fuel as [|fuel IH]; intros b l input Hb H0 Hf Hl; [lia|]. cbn [add_comment].
  case_bool_decide as Hi; [subst; exists b; by rewrite app_nil_r|].
  destruct (fgets 999 input) as [a r] eqn:E. destruct (fgets_split 999 input a r E ltac:(lia)) as (<-&Ha&Hne).
  rewrite elem_of_app in H0. rewrite !length_app in *. rewrite cstr_id by tauto. specialize (Hne Hi).
  destruct (add_buffer_ok b l a Hb ltac:(lia) ltac:(lia)) as (b1&->&Hb1). rewrite bind_Ret, app_assoc.
  apply IH; [done|tauto| |rewrite !length_app; lia]. destruct a; [done|simpl in Hf; lia].
Qed.

(** What the commit's text is made of. *)
Definition text_of (tree : bytes) (parents : list bytes) (p : people) (input : bytes) : bytes :=
  str "tree " ++ sha1_to_hex tree ++ [10] ++ concat (map parent_line parents) ++ author_line p ++ committer_line p ++ input.

Lemma commit_buffer_ok tree parents p input :
  sha1_ok tree -> Forall sha1_ok parents -> 0 ∉ input ->
  (length (author_line p) < 2048)%nat -> (length (committer_line p) < 2048)%nat -> Z.of_nat (length (text_of tree parents p input)) < 2 ^ 31 ->
  commit_buffer malloc_ok tree parents p input = Ret (text_of tree parents p input).
Proof.
  intros [Ht _] Hps H0 Ha Hc Hl. unfold commit_buffer. destruct init_buffer_ok as (b0&->&H). rewrite bind_Ret.
  unfold text_of in Hl. rewrite !length_app in Hl.
  destruct (add_buffer_ok b0 [] (str "tree " ++ sha1_to_hex tree ++ [10]) H) as (b1&->&H1);
    [rewrite !length_app, length_sha1_to_hex by done; simpl; lia|rewrite !length_app; change (length (@nil Z)) with O; lia|]. rewrite bind_Ret. cbn [app] in H1.
  destruct (add_parents_ok parents b1 _ H1 Hps) as (b2&->&H2); [rewrite !length_app; lia|]. rewrite bind_Ret.
  destruct (add_buffer_ok b2 _ (author_line p) H2 Ha) as (b3&->&H3); [rewrite !length_app; lia|]. rewrite bind_Ret.
  destruct (add_buffer_ok b3 _ (committer_line p) H3 Hc) as (b4&->&H4); [rewrite !length_app; lia|]. rewrite bind_Ret.
  destruct (add_comment_ok (S (length input)) b4 _ input H4 H0) as (b5&->&H5); [lia|rewrite !length_app; lia|]. rewrite bind_Ret.
  destruct H5 as (->&->&_). rewrite Nat2Z.id, take_ge by done. unfold text_of. by rewrite <- !app_assoc.
Qed.

End Growth.

(** ** Names and dates *)

(** A name that cannot break the line it is put in. *)
Definition clean (s : bytes) : Prop := 10 ∉ s /\ 60 ∉ s /\ 62 ∉ s.

Lemma copy_plain_clean s : clean (copy_plain s).
Proof.
  induction s as [|c s (H1&H2&H3)]; cbn; [repeat split; apply not_elem_of_nil|].
  destruct (Z.eqb_spec c 10), (Z.eqb_spec c 60), (Z.eqb_spec c 62); cbn [orb]; try done.
  split; [|split]; apply not_elem_of_cons; split; congruence.
Qed.

Lemma copy_plain_id s : clean s -> copy_plain s = s.
Proof.
  induction s as [|c s IH]; intros (H1&H2&H3); cbn; [done|].
  apply not_elem_of_cons in H1 as [? ?], H2 as [? ?], H3 as [? ?].
  destruct (Z.eqb_spec c 10), (Z.eqb_spec c 60), (Z.eqb_spec c 62); try congruence. cbn [orb]. f_equal. by apply IH.
Qed.

Lemma elem_of_drop_crud c l : c ∈ drop_crud l -> c ∈ l.
Proof. induction l as [|x l IH]; cbn; [done|]. case_match; [|done]. intros. apply elem_of_cons. auto. Qed.

Lemma drop_crud_idem l : drop_crud (drop_crud l) = drop_crud l.
Proof. induction l as [|x l IH]; cbn; [done|]. destruct (_ || _) eqn:E; [done|]. cbn. by rewrite E. Qed.

Lemma elem_of_remove_special c s : c ∈ remove_special s -> c ∈ copy_plain s.
Proof.
  unfold remove_special. rewrite list_elem_of_In, <- in_rev, <- list_elem_of_In. intros H%elem_of_drop_crud. revert H.
  by rewrite list_elem_of_In, <- in_rev, <- list_elem_of_In.
Qed.

Lemma remove_special_clean s : clean (remove_special s).
Proof. destruct (copy_plain_clean s) as (?&?&?). split; [|split]; by intros ?%elem_of_remove_special. Qed.

Lemma remove_special_idem s : remove_special (remove_special s) = remove_special s.
Proof.
  unfold remove_special at 1. rewrite (copy_plain_id _ (remove_special_clean s)). unfold remove_special. by rewrite rev_involutive, drop_crud_idem.
Qed.

(** Digits and a space, then anything but a newline: what [parse_commit_date]
    and [show_date] expect. *)
Definition date_form (r : bytes) : Prop :=
  exists d zone, r = numeral 10 d ++ 32 :: zone /\ 0 <= d < 2 ^ 64 /\ 10 ∉ zone.

Lemma no_newline_digits ds : Forall (fun c => is_digit 10 c = true) ds -> 10 ∉ ds.
Proof. intros HF Hin. rewrite Forall_forall in HF. by specialize (HF 10 Hin). Qed.

Lemma no_newline_numeral n : 0 <= n -> 10 ∉ numeral 10 n.
Proof. intros Hn. apply no_newline_digits. by destruct (numeral_spec 10 ltac:(lia) n Hn) as [_ [HF _]]. Qed.

Lemma no_newline_pad w n : 0 <= n -> 10 ∉ pad w (numeral 10 n).
Proof. intros Hn. apply no_newline_digits, (reads_pad w n Hn). Qed.

Lemma no_newline_fmt w n : 10 ∉ fmt_0d w n.
Proof.
  unfold fmt_0d. destruct (Z.ltb_spec n 0); [|by apply no_newline_pad]. apply not_elem_of_cons. split; [done|]. apply no_newline_pad. lia.
Qed.

(** No date is so long that its buffer cuts into the seconds. *)
Lemma take_date n d rest :
  0 <= d < 2 ^ 64 -> (21 <= n)%nat -> 10 ∉ rest -> date_form (take n (numeral 10 d ++ 32 :: rest)).
Proof.
  intros Hd Hn Hr. pose proof (numeral_length 19 d) as Hl. change (10 ^ Z.of_nat 20) with 100000000000000000000 in Hl.
  specialize (Hl ltac:(lia)). exists d, (take (n - length (numeral 10 d) - 1) rest). split; [|split; [done|]].
  - rewrite take_app, take_ge by lia. f_equal. destruct (n - length (numeral 10 d))%nat as [|k] eqn:E; [lia|]. cbn. by rewrite Nat.sub_0_r.
  - intros Hin. apply Hr. exact (subseteq_take _ _ _ Hin).
Qed.

Lemma datestamp_form localtime now : date_form (datestamp localtime now 50).
Proof.
  unfold datestamp. apply take_date; [apply u64_range|lia|]. unfold fmt_plus_0d. apply not_elem_of_cons.
  split; [by destruct (_ <? 0)|]. apply no_newline_pad. lia.
Qed.

Lemma parse_date_form gm mktime s r : parse_date gm mktime s 50 = Ret (Some r) -> date_form r.
Proof.
  unfold parse_date. intros ([[t o] g]&_&E)%bind_Ret_inv. unfold finish_date in E.
  destruct (my_mktime t =? -1); [done|]. apply bind_Ret_inv in E as (v&_&E). apply bind_Ret_inv in E as (a&_&E).
  injection E as <-. change (?x ++ [32; ?s] ++ ?z) with (x ++ 32 :: s :: z). apply take_date; [apply u64_range|lia|].
  apply not_elem_of_cons. split; [by destruct (_ <? 0)|]. apply not_elem_of_app. split; apply no_newline_fmt.
Qed.

Lemma date_form_no_newline r : date_form r -> 10 ∉ r.
Proof. intros (d&z&->&Hd&Hz). apply not_elem_of_app. split; [apply no_newline_numeral; lia|]. apply not_elem_of_cons. by split. Qed.

(** The seconds and the rest of a date in that form. *)
Definition date_seconds (r : bytes) : Z := (strtoul 10 r).1.
Definition date_zone (r : bytes) : bytes := tail (strtoul 10 r).2.

Lemma date_form_split r : date_form r -> r = numeral 10 (date_seconds r) ++ 32 :: date_zone r /\ 0 <= date_seconds r < 2 ^ 64.
Proof. intros (d&z&->&Hd&Hz). unfold date_seconds, date_zone. rewrite strtoul_numeral by (done || lia). done. Qed.

Section Spec.
Context {D} {DB : ObjectDB D} (malloc_ok : Z -> bool) (Hm : forall n, malloc_ok n = true).
Context (getenv file : bytes -> option bytes) (argv_end : bytes).
Context (pw : option (bytes * bytes)) (host domain : bytes) (now : Z) (localtime : Z -> tm).
Context (gmtime_r_failed : Z -> tm -> tm) (mktime : tm -> Z).

Abbreviation read_people := (read_people getenv pw host domain now localtime gmtime_r_failed mktime).
Abbreviation commit_tree := (commit_tree malloc_ok getenv file argv_end pw host domain now localtime gmtime_r_failed mktime).

Lemma env_date_form var date r : date_form date -> env_date getenv gmtime_r_failed mktime var date = Ret r -> date_form r.
Proof.
  intros Hd. unfold env_date. intros ([v|]&_&E)%bind_Ret_inv; [|by injection E as <-].
  apply bind_Ret_inv in E as ([s|]&Hp&E); injection E as <-; [by apply parse_date_form in Hp|done].
Qed.

(** Every name is the one of the environment or else the machine's, without
    the special characters, although the strings are shared. *)
Lemma read_people_spec p : read_people = Ret p ->
  exists name realgecos realemail cg ce g e,
    pw = Some (name, realgecos) /\ real_email host domain name = Ret realemail /\
    gitenv getenv (str "GIT_COMMITTER_NAME") = Ret cg /\ gitenv getenv (str "GIT_COMMITTER_EMAIL") = Ret ce /\
    gitenv getenv (str "GIT_AUTHOR_NAME") = Ret g /\ gitenv getenv (str "GIT_AUTHOR_EMAIL") = Ret e /\
    p_gecos p = remove_special (default realgecos g) /\ p_email p = remove_special (default realemail e) /\
    p_commitgecos p = remove_special (default realgecos cg) /\ p_commitemail p = remove_special (default realemail ce) /\
    date_form (p_date p) /\ date_form (p_realdate p).
Proof.
  unfold CommitTree.read_people. destruct pw as [[name realgecos]|]; [|done].
  intros (realemail&Em&E)%bind_Ret_inv. apply bind_Ret_inv in E as (cg&Ecg&E). apply bind_Ret_inv in E as (ce&Ece&E).
  apply bind_Ret_inv in E as (g&Eg&E). apply bind_Ret_inv in E as (e&Ee&E). apply bind_Ret_inv in E as (d&Ed&E).
  apply bind_Ret_inv in E as (rd&Erd&E). exists name, realgecos, realemail, cg, ce, g, e.
  pose proof (datestamp_form localtime now) as Hds. injection E as <-. cbn [p_gecos p_email p_date p_commitgecos p_commitemail p_realdate].
  split_and!; try done; try (by eapply env_date_form); clear; destruct cg, ce, g, e; cbn; by rewrite ?remove_special_idem.
Qed.

Lemma read_people_clean p : read_people = Ret p ->
  clean (p_gecos p) /\ clean (p_email p) /\ clean (p_commitgecos p) /\ clean (p_commitemail p) /\ date_form (p_date p) /\ date_form (p_realdate p).
Proof.
  intros (?&?&?&?&?&?&?&_&_&_&_&_&_&->&->&->&->&?&?)%read_people_spec. split_and!; try done; apply remove_special_clean.
Qed.

(** What the new commit says. *)
Definition new_commit (tree : bytes) (parents : list bytes) (p : people) (input : bytes) : cinfo :=
  {| ci_tree := tree; ci_parents := parents;
     ci_author := p_gecos p ++ str " <" ++ p_email p ++ str "> " ++ p_date p;
     ci_who := p_commitgecos p ++ str " <" ++ p_commitemail p;
     ci_date := date_seconds (p_realdate p);
     ci_rest := date_zone (p_realdate p) ++ [10; 10] ++ input |}.

Lemma text_of_new_commit tree parents p input :
  date_form (p_realdate p) -> text_of tree parents p input = ci_text (new_commit tree parents p input).
Proof.
  intros [Hd _]%date_form_split. unfold text_of, ci_text, commit_text, author_line, committer_line, new_commit.
  cbn [ci_tree ci_parents ci_author ci_who ci_date ci_rest]. rewrite Hd at 1. by rewrite <- !app_assoc.
Qed.

(** Parents named twice count once. *)
Definition add_parent_once (ps : list bytes) (q : bytes) : list bytes := if bool_decide (q ∈ ps) then ps else ps ++ [q].
Definition distinct (ps : list bytes) : list bytes := foldl add_parent_once [] ps.
Definition parent_args (ps : list bytes) : list bytes := ps ≫= fun q => [str "-p"; sha1_to_hex q].

Lemma add_parent_once_grows ps qs : (length ps <= length (foldl add_parent_once ps qs))%nat.
Proof.
  revert ps; induction qs as [|q qs IH]; intros ps; cbn; [done|]. etrans; [|apply IH]. unfold add_parent_once. case_bool_decide; [done|].
  rewrite length_app. lia.
Qed.

Lemma elem_of_distinct (P : bytes -> Prop) ps qs : Forall P ps -> Forall P qs -> Forall P (foldl add_parent_once ps qs).
Proof.
  revert ps; induction qs as [|q qs IH]; intros ps Hp Hq; cbn; [done|]. apply Forall_cons in Hq as [? ?]. apply IH; [|done].
  unfold add_parent_once. case_bool_decide; [done|]. apply Forall_app. by repeat constructor.
Qed.

Lemma read_parents_ok db hist qs : history_ok db hist -> forall ps,
  Forall (fun q => is_Some (hist !! q)) qs -> (length (foldl add_parent_once ps qs) < MAXPARENT)%nat ->
  read_parents getenv file argv_end db (parent_args qs) ps = io_ret (foldl add_parent_once ps qs).
Proof.
  intros Hh. induction qs as [|q qs IH]; intros ps HF Hl; [done|]. apply Forall_cons in HF as [[ci Hci] HF]. cbn [foldl] in Hl.
  change (parent_args (q :: qs)) with (str "-p" :: sha1_to_hex q :: parent_args qs). cbn [read_parents].
  rewrite bool_decide_true by done. cbn [negb]. destruct (hist_names db hist Hh q ci Hci) as [Hq1 Hq2].
  unfold get_sha1. rewrite get_sha1_hex_roundtrip by done. rewrite bind_Ret. cbn [fst snd Z.eqb io_bind].
  pose proof (add_parent_once_grows (add_parent_once ps q) qs) as Hg.
  assert (length ps <= length (add_parent_once ps q))%nat by (apply (add_parent_once_grows ps [q])).
  destruct (Nat.eqb_spec (length ps) MAXPARENT); [lia|]. unfold check_valid. rewrite (hist_read db hist Hh q ci Hci).
  cbn [io_bind io_ret]. rewrite bool_decide_true by done. cbn [io_bind io_ret]. cbn [foldl].
  assert (En : (if new_parent ps q then ps ++ [q] else ps) = add_parent_once ps q).
  { unfold new_parent, add_parent_once. by case_bool_decide. }
  rewrite En. by apply IH.
Qed.

(** The history with one commit more. *)
Lemma history_insert db db' hist n ci :
  history_ok db hist -> sha1_ok n -> Z.of_nat (size hist) + 1 < 2 ^ 20 -> n <> ci_tree ci ->
  (forall m ci', hist !! m = Some ci' -> ci_tree ci' <> n) -> cinfo_ok hist ci ->
  db_read db' n = io_ret (Some (str "commit", ci_text ci)) ->
  (forall m, sha1_ok m -> m <> n -> db_read db' m = db_read db m) ->
  history_ok db' (<[n := ci]> hist).
Proof.
  intros Hh Hn Hs Hnt Htrees Hci Hr Hrest.
  assert (Hmono : forall x, cinfo_ok hist x -> ci_tree x <> n -> cinfo_ok (<[n := ci]> hist) x).
  { intros x [? Hto Hps ? ? ? ? ?] Hx. split; try done; [by rewrite lookup_insert_ne|].
    eapply Forall_impl; [exact Hps|]. intros q [Hq1 Hq2]. split; [done|]. by apply lookup_insert_is_Some'; right. }
  split.
  - intros m x Hx. apply lookup_insert_Some in Hx as [[<- _]|[_ Hx]]; [done|by eapply hist_names].
  - intros m x Hx. apply lookup_insert_Some in Hx as [[_ <-]|[_ Hx]]; apply Hmono; [done|congruence|by eapply hist_infos|by eapply Htrees].
  - intros m x Hx. apply lookup_insert_Some in Hx as [[<- <-]|[Hne Hx]]; [done|].
    rewrite Hrest; [by eapply hist_read|by eapply hist_names|congruence].
  - destruct (hist !! n) eqn:E; [rewrite map_size_insert_Some by done|rewrite map_size_insert_None by done]; lia.
Qed.

Lemma new_commit_ok db hist tree parents p input :
  history_ok db hist -> sha1_ok tree -> hist !! tree = None -> Forall (fun q => is_Some (hist !! q)) parents ->
  (length parents < MAXPARENT)%nat -> read_people = Ret p -> date_seconds (p_realdate p) <> 2 ^ 64 - 1 ->
  Z.of_nat (length (ci_text (new_commit tree parents p input))) < 2 ^ 31 -> cinfo_ok hist (new_commit tree parents p input).
Proof.
  intros Hh Ht Hto Hps Hl Hp Hd Hs. destruct (read_people_clean p Hp) as ((?&?&?)&(?&?&?)&(?&?&?)&(?&?&?)&Hda&Hre).
  apply date_form_no_newline in Hda. apply date_form_split in Hre as [_ Hb]. unfold MAXPARENT in Hl.
  split; unfold new_commit in *; cbn [ci_tree ci_parents ci_author ci_who ci_date ci_rest] in *; try done; try lia.
  - eapply Forall_impl; [exact Hps|]. intros q [ci Hq]. split; [by eapply hist_names|by exists ci].
  - rewrite !not_elem_of_app. split_and!; try done; apply not_elem_check; reflexivity.
  - rewrite !not_elem_of_app. split_and!; try done; apply not_elem_check; reflexivity.
Qed.

(** C22. Given a tree and commits of the history as parents, fewer than 16
    different ones, git-commit-tree writes one commit, prints its name, and the
    database then holds the history with that commit in it, so that
    [parse_commit] and the walks read back its tree, its parents in order and
    once each, and the committer's date; names with newlines or angle brackets
    in them cannot break the text.  The names are as long as they may be: the
    author's and the committer's line have less than 2048 bytes ([long_name]
    shows what happens else).  The comment is stored whole, however long, where
    the manual page says that 999 characters are read; it has no NUL, and the
    commit less than 2^31 bytes. *)
Theorem commit_tree_spec {inv : D -> Prop} {objs} {LAWS : ObjectDBLaws inv objs}
    (db : D) (hist : history) (tree : bytes) (tree_text : bytes) (ps : list bytes) (input : bytes) (p : people)
    (ci := new_commit tree (distinct ps) p input) (n := object_name (str "commit") (ci_text ci)) :
  history_ok db hist -> inv db -> Z.of_nat (size hist) + 1 < 2 ^ 20 ->
  sha1_ok tree -> hist !! tree = None -> db_read db tree = io_ret (Some (str "tree", tree_text)) ->
  Forall (fun q => is_Some (hist !! q)) ps -> (length (distinct ps) < MAXPARENT)%nat ->
  read_people = Ret p -> date_seconds (p_realdate p) <> 2 ^ 64 - 1 ->
  (length (author_line p) < 2048)%nat -> (length (committer_line p) < 2048)%nat -> 0 ∉ input -> Z.of_nat (length (ci_text ci)) < 2 ^ 31 ->
  (str "commit", ci_text ci) ∈ objs -> n <> tree -> (forall m ci', hist !! m = Some ci' -> ci_tree ci' <> n) ->
  exists db', commit_tree db (sha1_to_hex tree :: parent_args ps) input = io_ret (sha1_to_hex n, db') /\
              history_ok db' (<[n := ci]> hist) /\ inv db' /\
              (forall m, sha1_ok m -> m <> n -> db_read db' m = db_read db m).
Proof.
  intros Hh Hi Hsz Ht Hto Htr Hps Hl Hp Hd Hal Hcl H0 Hlen Ho Hnt Htrees.
  destruct (db_write_ok _ _ Hi Ho) as (db'&Hw&Hi'&[_ Hr]&Hrest). cbn [fst snd] in *. fold n in Hw, Hr, Hrest.
  assert (Hdist : Forall (fun q => is_Some (hist !! q)) (distinct ps)) by (apply elem_of_distinct; [constructor|done]).
  destruct (read_people_clean p Hp) as (_&_&_&_&_&Hre). pose proof (text_of_new_commit tree (distinct ps) p input Hre) as Etext.
  exists db'. split; [|split; [|split; [done|]]].
  - destruct Ht as [Ht1 Ht2]. unfold CommitTree.commit_tree. rewrite get_sha1_hex_roundtrip by done. cbn [io_bind fst snd Z.ltb Z.compare].
    unfold check_valid. rewrite Htr. cbn [io_bind io_ret]. rewrite bool_decide_true by done. cbn [io_bind io_ret].
    unfold distinct in Hl. rewrite (read_parents_ok db hist ps Hh []) by done. fold (distinct ps) in *. cbn [io_bind io_ret]. rewrite Hp. cbn [io_bind].
    rewrite commit_buffer_ok, Etext; try done; [|eapply Forall_impl; [exact Hdist|]; intros q [x Hq]; by eapply hist_names|by rewrite Etext].
    cbn [io_bind]. fold ci. rewrite Hw. done.
  - apply (history_insert db); try done; [by apply (db_name_ok _ Ho)|by apply (new_commit_ok db)|].
    intros m Hm' Hne. by apply Hrest.
  - intros m Hm' Hne. by apply Hrest.
Qed.

End Spec.

(** ** Runs *)

(** A database in memory, for one object to be written. *)
Module MemDb.

Abbreviation store := (gmap bytes (bytes * bytes)).

#[export] Instance db : ObjectDB store := {|
  db_has s n := Ret (bool_decide (is_Some (s !! n)));
  db_read s n := io_ret (s !! n);
  db_nul _ _ := true; db_write s buf type := Ret (0, object_name type buf, <[object_name type buf := (type, buf)]> s) |}.

Definition room_for (o : bytes * bytes) (s : store) : Prop :=
  s !! object_name o.1 o.2 = None \/ s !! object_name o.1 o.2 = Some o.

Lemma laws o : sha1_ok (object_name o.1 o.2) -> ObjectDBLaws (room_for o) [o].
Proof.
  intros Hn. split.
  - intros a b Ha%list_elem_of_singleton Hb%list_elem_of_singleton _. congruence.
  - by intros a ->%list_elem_of_singleton.
  - intros s a Hs ->%list_elem_of_singleton. unfold db_holds, room_for in *. cbn [db_has db_read db].
    destruct Hs as [-> | ->]; [left; by rewrite bool_decide_false by (by intros [? ?])|right; by rewrite bool_decide_true].
  - intros s a Hs ->%list_elem_of_singleton. exists (<[object_name o.1 o.2 := o]> s). split_and!.
    + by destruct o.
    + right. cbn. apply lookup_insert_eq.
    + unfold db_holds. cbn [db_has db_read db]. by rewrite lookup_insert_eq, bool_decide_true.
    + intros m _ Hne. cbn [db_has db_read db]. by rewrite !lookup_insert_ne by congruence.
Qed.

End MemDb.

#[local] Existing Instance MemDb.db.

Module CommitDemo.

Definition name_of (n : Z) : bytes := replicate 20 n.
Definition root : cinfo := {| ci_tree := name_of 9; ci_parents := []; ci_author := str "A <a@b> 0 +0000"; ci_who := str "A <a@b"; ci_date := 0; ci_rest := str "+0000" |}.
Definition hist : history := {[ name_of 1 := root ]}.
Definition db : MemDb.store := {[ name_of 1 := (str "commit", ci_text root); name_of 7 := (str "tree", []) ]}.
Definition env (v : bytes) : option bytes :=
  if bool_decide (v = str "GIT_AUTHOR_NAME") then Some (str "Jo <jo>, Jr.") else
  if bool_decide (v = str "GIT_AUTHOR_DATE") then Some (str "Tue Jun 28 15:36:40 2005 -0730") else None.
Definition pw : option (bytes * bytes) := Some (str "me", str "My Self,,,").
Definition utc (t : Z) : tm := default tm_unset (gmtime t).
Definition who : people :=
  {| p_gecos := str "Jo jo, Jr"; p_email := str "me@host.dom"; p_date := str "1120000000 -0730";
     p_commitgecos := str "My Self"; p_commitemail := str "me@host.dom"; p_realdate := str "1120025160 +0000" |}.
Definition ci : cinfo := new_commit (name_of 7) [name_of 1] who (str "Change" ++ [10]).
Definition run (db : MemDb.store) (argv : list bytes) : io (bytes * MemDb.store) :=
  commit_tree (fun _ => true) env (fun _ => None) [] pw (str "host") (str "dom") 1120025160 utc (fun _ t => t) utc_mktime db argv (str "Change" ++ [10]).

Lemma name_ok n : is_byte n -> sha1_ok (name_of n).
Proof. intros. split; [reflexivity|by apply Forall_replicate]. Qed.

Lemma root_ok : history_ok db hist.
Proof.
  unfold hist. split.
  - intros n x Hx. apply lookup_singleton_Some in Hx as [<- <-]. by apply name_ok.
  - intros n x Hx. apply lookup_singleton_Some in Hx as [<- <-]. split;
      [by apply name_ok|by vm_compute|constructor|by apply not_elem_check|by apply not_elem_check|cbn; lia|by vm_compute|by vm_compute].
  - intros n x Hx. apply lookup_singleton_Some in Hx as [<- <-]. reflexivity.
  - rewrite map_size_singleton. lia.
Qed.

End CommitDemo.

Lemma commit_tree_spec_witness :
  let n := object_name (str "commit") (ci_text CommitDemo.ci) in
  exists db', CommitDemo.run CommitDemo.db (sha1_to_hex (CommitDemo.name_of 7) :: parent_args [CommitDemo.name_of 1; CommitDemo.name_of 1]) = io_ret (sha1_to_hex n, db') /\
              history_ok db' (<[n := CommitDemo.ci]> CommitDemo.hist).
Proof.
  assert (Hn : sha1_ok (object_name (str "commit") (ci_text CommitDemo.ci))) by (apply (bool_decide_unpack _); vm_compute; exact I).
  pose proof (MemDb.laws (str "commit", ci_text CommitDemo.ci) Hn) as Hlaws.
  destruct (@commit_tree_spec _ _ (fun _ => true) (fun _ => eq_refl) CommitDemo.env (fun _ => None) [] CommitDemo.pw (str "host") (str "dom")
    1120025160 CommitDemo.utc (fun _ t => t) utc_mktime _ _ Hlaws CommitDemo.db CommitDemo.hist (CommitDemo.name_of 7) []
    [CommitDemo.name_of 1; CommitDemo.name_of 1] (str "Change" ++ [10]) CommitDemo.who) as (db'&H1&H2&_).
  - exact CommitDemo.root_ok.
  - left. vm_compute. reflexivity.
  - vm_compute. reflexivity.
  - by apply CommitDemo.name_ok.
  - vm_compute. reflexivity.
  - vm_compute. reflexivity.
  - repeat constructor; by exists CommitDemo.root.
  - vm_compute. lia.
  - vm_compute. reflexivity.
  - vm_compute. discriminate.
  - vm_compute. lia.
  - vm_compute. lia.
  - apply not_elem_check. reflexivity.
  - vm_compute. reflexivity.
  - apply list_elem_of_here.
  - apply (bool_decide_unpack _). vm_compute. exact I.
  - intros m x Hx. unfold CommitDemo.hist in Hx. apply lookup_singleton_Some in Hx as [<- <-]. apply (bool_decide_unpack _). vm_compute. exact I.
  - exists db'. split; [exact H1|exact H2].
Defined.

(** Every name that is a commit. *)
Definition all_commits : ObjectDB unit := {| db_has _ _ := Ret true; db_read _ _ := io_ret (Some (str "commit", [])); db_nul _ _ := true; db_write _ _ _ := Ret (-1, CommitDemo.name_of 5, tt) |}.

(** A seventeenth parent is written behind the end of [parent_sha1]. *)
Example too_many_parents :
  let parents k := parent_args (map CommitDemo.name_of (seqZ 0 k)) in
  is_Some (read_parents (DB := all_commits) (fun _ => None) (fun _ => None) [] tt (parents 16) []) /\
  read_parents (DB := all_commits) (fun _ => None) (fun _ => None) [] tt (parents 17) [] = Some Ub.
Proof. split; [eexists|]; vm_compute; reflexivity. Qed.

(** A name of 2048 characters makes [memcpy] read behind the formatted line. *)
Example long_name : add_buffer (fun _ => true) (mk_buffer BLOCKING 0 []) (replicate (Z.to_nat 2049) 97) = Ub.
Proof. vm_compute. reflexivity. Qed.

(** A comment of more than the manual page's 999 characters is kept. *)
Example comment_above_999 : exists b,
  add_comment (fun _ => true) 1501 (mk_buffer BLOCKING 0 []) (replicate (Z.to_nat 1500) 97) = Ret b /\
  b_mem b = replicate (Z.to_nat 1500) 97.
Proof. eexists. split; vm_compute; reflexivity. Qed.

(** That the object could not be written goes unnoticed. *)
Example write_error_ignored :
  let db : ObjectDB unit := {|
    db_has _ _ := Ret true; db_read _ _ := io_ret (Some (str "tree", [])); db_nul _ _ := true; db_write _ _ _ := Ret (-1, CommitDemo.name_of 5, tt) |} in
  commit_tree (DB := db) (fun _ => true) CommitDemo.env (fun _ => None) [] CommitDemo.pw (str "host") (str "dom") 0 CommitDemo.utc
    (fun _ t => t) utc_mktime tt [sha1_to_hex (CommitDemo.name_of 7)] [] = io_ret (sha1_to_hex (CommitDemo.name_of 5), tt).
Proof. vm_compute. reflexivity. Qed.
