(* ===== verification/PackCheck.v ===== *)
(** * Verifying packs

    pack-check.c, with [packed_object_info_detail] of sha1_file.c: the
    checksums of an index and its pack, the check of every object named by the
    index, and the listing of git-verify-pack -v.  The theorems join it with
    the writer of packs: what passes is sound, and what git-pack-objects writes
    passes. *)

From stdpp Require Import base list numbers strings sorting.
From Stdlib Require Import ZArith Lia.
From S2P Require Import Prelude Sha1 Hex Delta PktLine CsumFile PackIndex Zlib ObjectHeader PackEntry CString ObjectStore.
From S2P Require Import PackWrite PackRoundtrip PackDeltas PackStore PackUse.

Section Check.
Context `{Zlib} (malloc_ok : Z -> bool).

(** The SHA-1 of a map less its last 20 bytes; the length becomes an [int]. *)
Definition sha1_but_20 (m : bytes) : bytes :=
  fst (SHA1_Final (SHA1_Update SHA1_Init m (i32 (Z.of_nat (length m) - 20)))).

(** The loop over the objects of the index, from the [i]th on. *)
Fixpoint check_objects (todo : nat) (idx pack : bytes) (i err : Z) : io Z :=
  match todo with
  | O => io_ret err
  | S todo =>
      s <- Some (nth_packed_object_sha1 idx i) ;;
      match s with
      | None => Some Die
      | Some sha1 =>
          e <- Some (find_pack_entry_one idx sha1) ;;
          match e with
          | None => Some Die
          | Some offset =>
              data <- unpack_entry_gently malloc_ok (chain_fuel idx) idx pack offset ;;
              match data with
              | None => check_objects todo idx pack (i + 1) (-1)
              | Some (type, data) =>
                  c <- Some (check_sha1_signature sha1 data (Z.of_nat (length data)) type) ;;
                  check_objects todo idx pack (i + 1) (if c =? 0 then err else -1)
              end
          end
      end
  end.

Definition verify_packfile (idx pack : bytes) : io Z :=
  hdr <- Some (map_read pack 0 12) ;;
  if negb (bool_decide (slice 0 4 hdr = be_encode 4 PACK_SIGNATURE)) then io_ret (-1)
  else if negb (bool_decide (slice 4 4 hdr = be_encode 4 PACK_VERSION)) then io_ret (-1)
  else
    let nr_objects := i32 (be_decode (slice 8 4 hdr)) in
    if negb (num_packed_objects idx =? nr_objects) then io_ret (-1)
    else
      let sha1 := sha1_but_20 pack in
      a <- Some (map_read idx (Z.of_nat (length idx) - 40) 20) ;;
      if negb (memcmp 20 sha1 a =? 0) then io_ret (-1)
      else
        b <- Some (map_read pack (Z.of_nat (length pack) - 20) 20) ;;
        if negb (memcmp 20 sha1 b =? 0) then io_ret (-1)
        else check_objects (Z.to_nat nr_objects) idx pack 0 0.

(** The [do ... while] along a chain of deltas: its length and the kind of
    object at its end.  A base that is not in the index leaves [base_ent]
    without a value. *)
Fixpoint chain_loop (fuel : nat) (idx pack : bytes) (offset chain_length : Z) : io (Z * Z) :=
  match fuel with
  | O => None
  | S fuel =>
      sha1 <- Some (map_read pack offset 20) ;;
      e <- Some (find_pack_entry_one idx sha1) ;;
      match e with
      | None => Some Ub
      | Some base_offset =>
          h <- Some (unpack_object_header pack base_offset) ;;
          let '(offset, kind, _) := h in
          if kind =? OBJ_DELTA then chain_loop fuel idx pack offset (chain_length + 1)
          else io_ret (kind, chain_length + 1)
      end
  end.

(** Type, size, length of the chain and, of a delta, the name of its base. *)
Definition packed_object_info_detail (idx pack : bytes) (entry_offset : Z) : io (bytes * Z * Z * bytes) :=
  h <- Some (unpack_object_header pack entry_offset) ;;
  let '(offset, kind, size) := h in
  r <- (if negb (kind =? OBJ_DELTA) then io_ret (kind, 0, [])
        else
          base_sha1 <- Some (map_read pack offset 20) ;;
          r <- chain_loop (chain_fuel idx) idx pack offset 0 ;;
          io_ret (fst r, snd r, base_sha1)) ;;
  let '(kind, delta_chain_length, base_sha1) := r in
  match kind_name kind with
  | None => Some Die
  | Some type => io_ret (type, size, delta_chain_length, base_sha1)
  end.

(** [%-6s] *)
Definition left6 (s : bytes) : bytes := s ++ replicate (6 - length s) 32.

Definition info_line (sha1 type : bytes) (size offset delta_chain_length : Z) (base_sha1 : bytes) : bytes :=
  sha1_to_hex sha1 ++ [32] ++ left6 type ++ [32] ++ numeral 10 size ++ [32] ++ numeral 10 offset ++
  (if delta_chain_length =? 0 then [] else [32] ++ numeral 10 delta_chain_length ++ [32] ++ sha1_to_hex base_sha1) ++ [10].

Fixpoint show_objects (todo : nat) (idx pack : bytes) (i : Z) (out : bytes) : io bytes :=
  match todo with
  | O => io_ret out
  | S todo =>
      s <- Some (nth_packed_object_sha1 idx i) ;;
      match s with
      | None => Some Die
      | Some sha1 =>
          e <- Some (find_pack_entry_one idx sha1) ;;
          match e with
          | None => Some Die
          | Some offset =>
              d <- packed_object_info_detail idx pack offset ;;
              let '(type, size, len, base) := d in
              show_objects todo idx pack (i + 1) (out ++ info_line sha1 type size offset len base)
          end
      end
  end.

Definition show_pack_info (idx pack : bytes) : io bytes :=
  hdr <- Some (map_read pack 0 12) ;;
  show_objects (Z.to_nat (i32 (be_decode (slice 8 4 hdr)))) idx pack 0 [].

Context (open_file : bytes -> option bytes) (mmap_ok : bytes -> bool).

(** A function of the mapped pack between [use_packed_git] and
    [unuse_packed_git]. *)
Definition with_pack {A} (st : pack_state) (i : nat) (f : bytes -> bytes -> io A) : io (A * pack_state) :=
  st <- Some (use_packed_git open_file mmap_ok st i) ;;
  match pg_list st !! i with
  | Some p =>
      match pg_base p with
      | Some pack =>
          r <- f (pg_index p) pack ;;
          st <- Some (unuse_packed_git st i) ;;
          io_ret (r, st)
      | None => Some Ub
      end
  | None => Some Ub
  end.

(** The result, what is printed and the packs. *)
Definition verify_pack (st : pack_state) (i : nat) (verbose : bool) : io (Z * bytes * pack_state) :=
  match pg_list st !! i with
  | None => Some Ub
  | Some p =>
      let idx := pg_index p in
      t <- Some (map_read idx (Z.of_nat (length idx) - 20) 20) ;;
      r <- (if negb (memcmp 20 (sha1_but_20 idx) t =? 0) then io_ret (-1, st) else with_pack st i verify_packfile) ;;
      let '(ret, st) := r in
      if negb verbose then io_ret (ret, [], st)
      else if negb (ret =? 0) then io_ret (ret, pg_name p ++ str ": bad" ++ [10], st)
      else
        r <- with_pack st i show_pack_info ;;
        io_ret (ret, fst r ++ pg_name p ++ str ": ok" ++ [10], snd r)
  end.

(** verify-pack.c.  [arg] is in a buffer of [PATH_MAX] bytes; the tail compared
    with [".pack"] starts before it when the name is shorter.  The pack found is
    the only one there is: those of the database are not looked for. *)
Context (stat_regular : bytes -> option Z).

Definition verify_one_pack (ctr mapped : Z) (arg : bytes) (verbose : bool) : io (Z * bytes * Z * Z) :=
  let len := length arg in
  if (len <? 5)%nat then Some Ub
  else
    let arg := if bool_decide (drop (len - 5) arg = str ".pack") then take (len - 5) arg ++ str ".idx" else arg in
    g <- Some (add_packed_git open_file stat_regular PackUse.PATH_MAX arg) ;;
    g <- (match g with
          | Some _ => io_ret g
          | None =>
              let arg := arg ++ str ".idx" in
              if PackUse.PATH_MAX <=? Z.of_nat (length arg) then Some Ub
              else Some (add_packed_git open_file stat_regular PackUse.PATH_MAX arg)
          end) ;;
    match g with
    | None => io_ret (-1, [], ctr, mapped)
    | Some g =>
        r <- verify_pack {| pg_list := [g]; pack_used_ctr := ctr; pack_mapped := mapped; run_once := false |} 0 verbose ;;
        let '(ret, out, st) := r in
        io_ret (ret, out, pack_used_ctr st, pack_mapped st)
    end.

(** The loop of [main]: its value and what is printed. *)
Fixpoint verify_packs (av : list bytes) (verbose no_more_options : bool) (errs ctr mapped : Z) (out : bytes) : io (Z * bytes) :=
  match av with
  | [] => io_ret (if errs =? 0 then 0 else 1, out)
  | a :: av =>
      if negb no_more_options && match a with c :: _ => c =? 45 | [] => false end then
        if bool_decide (a = str "-v") then verify_packs av true no_more_options errs ctr mapped out
        else if bool_decide (a = str "--") then verify_packs av verbose true errs ctr mapped out
        else Some Die
      else if PackUse.PATH_MAX <=? Z.of_nat (length a) then Some Ub
      else
        r <- verify_one_pack ctr mapped a verbose ;;
        let '(ret, text, ctr, mapped) := r in
        verify_packs av verbose no_more_options (if ret =? 0 then errs else errs + 1) ctr mapped (out ++ text)
  end.

Definition verify_pack_main (av : list bytes) : io (Z * bytes) := verify_packs av false false 0 0 0 [].

End Check.

(** ** show-index.c *)

(** The last count of the table, or [die]. *)
Fixpoint top_loop (n : nat) (top_index : bytes) (nr : Z) : outcome Z :=
  match n with
  | O => Ret nr
  | S n =>
      let c := be_decode (take 4 top_index) in
      if c <? nr then Die else top_loop n (drop 4 top_index) c
  end.

(** [for (i = 0; i < nr; i++)] with an [int] and an [unsigned]. *)
Fixpoint show_entries (nr : nat) (input out : bytes) : outcome bytes :=
  match nr with
  | O => Ret out
  | S nr =>
      if (length input <? 24)%nat then Die
      else
        let entry := take 24 input in
        show_entries nr (drop 24 input) (out ++ numeral 10 (be_decode (take 4 entry)) ++ [32] ++ sha1_to_hex (drop 4 entry) ++ [10])
  end.

Definition show_index (input : bytes) : outcome bytes :=
  if (length input <? 1024)%nat then Die
  else nr ← top_loop 256 (take 1024 input) 0; show_entries (Z.to_nat nr) (drop 1024 input) [].

(** ** What passes is sound *)

Section Sound.
Context `{Zlib} (malloc_ok : Z -> bool) (idx pack : bytes).

(** The [i]th object of the index is in the pack and has the contents its name
    stands for. *)
Definition object_sound (i : Z) : Prop := exists sha1 offset type data,
  nth_packed_object_sha1 idx i = Ret (Some sha1) /\ find_pack_entry_one idx sha1 = Ret (Some offset) /\
  unpack_entry_gently malloc_ok (chain_fuel idx) idx pack offset = io_ret (Some (type, data)) /\
  check_sha1_signature sha1 data (Z.of_nat (length data)) type = Ret 0.

Lemma check_objects_err todo : forall i err r, check_objects malloc_ok todo idx pack i err = io_ret r -> err <> 0 -> r <> 0.
Proof.
  induction todo as [|todo IH]; intros i err r E Herr; cbn [check_objects] in E; [by injection E as <-|].
  apply io_bind_inv in E as ([sha1|]&_&E); [|done]. apply io_bind_inv in E as ([offset|]&_&E); [|done].
  apply io_bind_inv in E as ([[type data]|]&_&E); [|by eapply IH].
  apply io_bind_inv in E as (c&_&E). eapply IH; [exact E|]. by destruct (c =? 0).
Qed.

Lemma check_objects_iff todo : forall i,
  check_objects malloc_ok todo idx pack i 0 = io_ret 0 <-> forall k, (k < todo)%nat -> object_sound (i + Z.of_nat k).
Proof.
  induction todo as [|todo IH]; intros i; cbn [check_objects]; [split; [intros _ k Hk; lia|done]|]. split.
  - intros E. apply io_bind_inv in E as ([sha1|]&E1&E); [|done]. apply io_bind_inv in E as ([offset|]&E2&E); [|done].
    apply io_bind_inv in E as ([[type data]|]&E3&E); [|by apply check_objects_err in E].
    apply io_bind_inv in E as (c&E4&E). destruct (Z.eqb_spec c 0) as [->|]; [|by apply check_objects_err in E].
    injection E1 as E1. injection E2 as E2. injection E4 as E4. intros [|k] Hk.
    + exists sha1, offset, type, data. by rewrite Z.add_0_r.
    + specialize (proj1 (IH (i + 1)) E k ltac:(lia)) as Hs. by replace (i + Z.of_nat (S k)) with (i + 1 + Z.of_nat k) by lia.
  - intros Hall. destruct (Hall 0%nat ltac:(lia)) as (sha1&offset&type&data&E1&E2&E3&E4). rewrite Z.add_0_r in E1.
    rewrite E1. cbn [io_bind]. rewrite E2. cbn [io_bind]. rewrite E3. cbn [io_bind io_ret]. rewrite E4. cbn [io_bind Z.eqb].
    apply IH. intros k Hk. specialize (Hall (S k) ltac:(lia)). by replace (i + 1 + Z.of_nat k) with (i + Z.of_nat (S k)) by lia.
Qed.

(** The checksums and counts that belong together. *)
Definition pack_sealed (nr : Z) : Prop :=
  slice 0 8 pack = be_encode 4 PACK_SIGNATURE ++ be_encode 4 PACK_VERSION /\ (12 <= length pack)%nat /\ (20 <= length pack)%nat /\
  (40 <= length idx)%nat /\ i32 (be_decode (slice 8 4 pack)) = nr /\ num_packed_objects idx = nr /\
  memcmp 20 (sha1_but_20 pack) (slice (length idx - 40) 20 idx) = 0 /\
  memcmp 20 (sha1_but_20 pack) (slice (length pack - 20) 20 pack) = 0.

Lemma map_read_ok m off n : (off + n <= length m)%nat -> map_read m (Z.of_nat off) n = Ret (slice off n m).
Proof.
  intros Hl. unfold map_read. rewrite (proj2 (Z.leb_le _ _)), (proj2 (Z.leb_le _ _)) by lia. cbn [andb]. by rewrite Nat2Z.id.
Qed.

Lemma map_read_inv m off n s : map_read m off n = Ret s -> 0 <= off /\ off + Z.of_nat n <= Z.of_nat (length m) /\ s = slice (Z.to_nat off) n m.
Proof. unfold map_read. destruct (Z.leb_spec 0 off), (Z.leb_spec (off + Z.of_nat n) (Z.of_nat (length m))); cbn [andb]; try done. by intros [= <-]. Qed.

Lemma slice_0_8 (m : bytes) : slice 0 8 m = slice 0 4 m ++ slice 4 4 m.
Proof. unfold slice. rewrite !drop_0. change 8%nat with (4 + 4)%nat. by rewrite take_take_drop. Qed.

Lemma header_fields : (12 <= length pack)%nat ->
  slice 0 4 (slice 0 12 pack) = slice 0 4 pack /\ slice 4 4 (slice 0 12 pack) = slice 4 4 pack /\ slice 8 4 (slice 0 12 pack) = slice 8 4 pack.
Proof. intros Hl. split_and!; (rewrite slice_slice; [done|lia]). Qed.

Lemma verify_packfile_iff :
  verify_packfile malloc_ok idx pack = io_ret 0 <->
  exists nr, pack_sealed nr /\ forall i, 0 <= i < nr -> object_sound i.
Proof.
  unfold verify_packfile. split.
  - intros (hdr&Eh&E)%io_bind_inv. injection Eh as Eh. apply map_read_inv in Eh as (_&Hl&->). rewrite Z2Nat.inj_0 in E.
    destruct header_fields as (E1&E2&E3); [lia|]. rewrite E1, E2, E3 in E.
    case_bool_decide as Hs; [|done]. case_bool_decide as Hv; [|done]. cbn [negb] in E.
    destruct (Z.eqb_spec (num_packed_objects idx) (i32 (be_decode (slice 8 4 pack)))) as [Hn|]; [|done]. cbn [negb] in E.
    apply io_bind_inv in E as (a&Ea&E). injection Ea as Ea. apply map_read_inv in Ea as (Ha&_&->).
    destruct (Z.eqb_spec (memcmp 20 (sha1_but_20 pack) (slice (Z.to_nat (Z.of_nat (length idx) - 40)) 20 idx)) 0) as [Hma|]; [|discriminate E]. cbn [negb] in E.
    apply io_bind_inv in E as (b&Eb&E). injection Eb as Eb. apply map_read_inv in Eb as (Hb&_&->).
    destruct (Z.eqb_spec (memcmp 20 (sha1_but_20 pack) (slice (Z.to_nat (Z.of_nat (length pack) - 20)) 20 pack)) 0) as [Hmb|]; [|discriminate E]. cbn [negb] in E.
    exists (i32 (be_decode (slice 8 4 pack))). split.
    + replace (Z.to_nat (Z.of_nat (length idx) - 40)) with (length idx - 40)%nat in Hma by lia.
      replace (Z.to_nat (Z.of_nat (length pack) - 20)) with (length pack - 20)%nat in Hmb by lia.
      split; [by rewrite slice_0_8, Hs, Hv|]. split; [lia|]. split; [lia|]. split; [lia|]. split; [reflexivity|]. split; [exact Hn|].
      split; [exact Hma|exact Hmb].
    + intros i Hi. specialize (proj1 (check_objects_iff _ 0) E (Z.to_nat i) ltac:(lia)) as Hsnd. by rewrite Z.add_0_l, Z2Nat.id in Hsnd by lia.
  - intros (nr&(Hsv&Hl1&Hl2&Hl3&Hnr&Hn&Hma&Hmb)&Hall). change 0 with (Z.of_nat 0) at 1. rewrite map_read_ok by done. cbn [io_bind].
    destruct header_fields as (->&->&->); [done|]. rewrite slice_0_8 in Hsv.
    apply app_inj_1 in Hsv as [-> ->]; [|unfold slice; rewrite length_take, length_drop, length_be_encode; lia].
    rewrite !bool_decide_true by done. cbn [negb]. rewrite Hnr, Hn, Z.eqb_refl. cbn [negb].
    replace (Z.of_nat (length idx) - 40) with (Z.of_nat (length idx - 40)) by lia. rewrite map_read_ok by lia. cbn [io_bind]. rewrite Hma. cbn [Z.eqb negb].
    replace (Z.of_nat (length pack) - 20) with (Z.of_nat (length pack - 20)) by lia. rewrite map_read_ok by lia. cbn [io_bind]. rewrite Hmb. cbn [Z.eqb negb].
    apply check_objects_iff. intros k Hk. rewrite Z.add_0_l. apply Hall. lia.
Qed.

End Sound.

(** C21. git-verify-pack says "ok" exactly for a sealed pack of sound objects:
    signature, version and number of objects agree, the pack's SHA-1 stands at
    its end and in the index, and every object of the index is found, can be
    unpacked through its deltas and has the SHA-1 it is named by.  Verifying
    leaves the packs as they were but for the mapping. *)
Theorem verify_pack_exact `{Zlib} (malloc_ok : Z -> bool) open_file mmap_ok (st st1 : pack_state) (i : nat) (p p1 : packed_git) (pack : bytes) :
  pg_list st !! i = Some p -> (20 <= length (pg_index p))%nat ->
  use_packed_git open_file mmap_ok st i = Ret st1 -> pg_list st1 !! i = Some p1 -> pg_index p1 = pg_index p -> pg_base p1 = Some pack ->
  (exists st', verify_pack malloc_ok open_file mmap_ok st i false = io_ret (0, [], st')) <->
  memcmp 20 (sha1_but_20 (pg_index p)) (slice (length (pg_index p) - 20) 20 (pg_index p)) = 0 /\
  exists nr, pack_sealed (pg_index p) pack nr /\ forall k, 0 <= k < nr -> object_sound malloc_ok (pg_index p) pack k.
Proof.
  intros Hp Hl Hu Hp1 Hi Hb. rewrite <- verify_packfile_iff. unfold verify_pack, with_pack. rewrite Hp.
  replace (Z.of_nat (length (pg_index p)) - 20) with (Z.of_nat (length (pg_index p) - 20)) by lia. rewrite map_read_ok by lia. cbn [io_bind].
  destruct (Z.eqb_spec (memcmp 20 (sha1_but_20 (pg_index p)) (slice (length (pg_index p) - 20) 20 (pg_index p))) 0) as [Hm|Hm]; cbn [negb].
  - rewrite Hu. cbn [io_bind]. rewrite Hp1, Hb, Hi. unfold unuse_packed_git. rewrite Hp1. cbn [io_bind].
    destruct (verify_packfile malloc_ok (pg_index p) pack) as [[r| |]|] eqn:E; cbn [io_bind io_ret]; split.
    + intros [st' Es]. injection Es as -> _. split; [exact Hm|reflexivity].
    + intros [_ Er]. injection Er as ->. eexists. reflexivity.
    + intros [st' Es]. discriminate Es.
    + intros [_ Er]. discriminate Er.
    + intros [st' Es]. discriminate Es.
    + intros [_ Er]. discriminate Er.
    + intros [st' Es]. discriminate Es.
    + intros [_ Er]. discriminate Er.
  - cbn [io_bind io_ret]. split; [intros [st' Es]; discriminate Es|intros [Em _]; by destruct Hm].
Qed.

(** ** What git-pack-objects writes passes *)

Lemma sha1_but_20_sealed m : bytes_ok m -> Z.of_nat (length m) < 2 ^ 31 -> sha1_but_20 (m ++ Fips.sha1 m) = Fips.sha1 m.
Proof.
  intros Hm Hl. unfold sha1_but_20. rewrite length_app, length_fips_sha1 by done.
  replace (Z.of_nat (length m + 20) - 20) with (Z.of_nat (length m)) by lia. unfold SHA1_Update.
  rewrite !(i32_small (Z.of_nat (length m))) by lia. rewrite Nat2Z.id, take_app_length. by rewrite SHA1_Final_stream.
Qed.

Lemma memcmp_refl n (m : bytes) : (n <= length m)%nat -> memcmp n m m = 0.
Proof. intros. by apply memcmp_eq. Qed.

Section Accepts.
Context `{ZlibLaws} (malloc_ok : nat -> Z -> bool).
Context (read_sha1_file : bytes -> outcome (option (bytes * bytes))) (sha1_object_info : bytes -> outcome (option (bytes * Z))).
Context (has_sha1_pack : bytes -> bool) {Hsource : ObjectSource read_sha1_file sha1_object_info}.

(** The store has the objects under their own names. *)
Definition honest : Prop := forall sha1 type data, read_sha1_file sha1 = Ret (Some (type, data)) ->
  type_ok type /\ bytes_ok data /\ Z.of_nat (length data) < 2 ^ 31 /\ sha1 = object_name type data.

Lemma pack_sealed_written ws objects pack sha objects' l trailer :
  packable read_sha1_file objects -> (forall i e, objects !! i = Some e -> oe_offset e = 0) ->
  write_pack_file malloc_ok read_sha1_file ws objects = io_ret (pack, sha, objects') -> Z.of_nat (length pack) < 2 ^ 31 ->
  1064 + 24 * Z.of_nat (length objects) < 2 ^ 31 ->
  idx_ok l -> length l = length objects -> length trailer = 20%nat ->
  pack_sealed (idx_body l sha ++ trailer) pack (Z.of_nat (length objects)).
Proof.
  intros Hpk Hz Hw Hlen Hsmall Hl Hll Ht. change (2 ^ 31) with 2147483648 in *.
  destruct (write_pack_file_stream _ _ _ _ _ _ _ Hpk Hz Hw ltac:(lia)) as (f&f1&off&m1&_&_&_&_&_&Hm&Epack&Esha).
  set (m := pack_header (length objects) ++ m1) in *.
  assert (Hml : Z.of_nat (length m) + 20 < 2 ^ 31) by (rewrite Epack, length_app, length_fips_sha1 in Hlen by done; lia).
  assert (Hs20 : length sha = 20%nat) by (rewrite Esha; by apply length_fips_sha1).
  assert (Hhdr : length (pack_header (length objects)) = 12%nat) by apply pack_header_length.
  assert (Hm12 : (12 <= length m)%nat) by (unfold m; rewrite length_app; lia).
  assert (Hlp : length pack = (length m + 20)%nat) by (by rewrite Epack, length_app, length_fips_sha1).
  assert (Hfront : forall o n, (o + n <= 12)%nat -> slice o n pack = slice o n (pack_header (length objects))).
  { intros o n Hon. rewrite Epack. unfold slice, m. rewrite <- app_assoc, drop_app_le, take_app_le by (rewrite ?length_drop; lia). done. }
  assert (Hidx : length (idx_body l sha ++ trailer) = (1024 + 24 * length l + 40)%nat) by (by apply idx_length).
  split; [|split; [lia|split; [lia|split; [lia|split; [|split; [|split]]]]]].
  - rewrite Hfront by lia. unfold pack_header. rewrite app_assoc. unfold slice. rewrite drop_0, take_app_le; [|rewrite length_app, !length_be_encode; lia].
    rewrite take_ge; [done|]. rewrite length_app, !length_be_encode. lia.
  - rewrite Hfront by lia. unfold pack_header, slice. rewrite app_assoc.
    rewrite drop_app_ge by (rewrite length_app, !length_be_encode; lia). rewrite length_app, !length_be_encode.
    change (8 - (4 + 4))%nat with 0%nat. rewrite drop_0, take_ge by (rewrite length_be_encode; lia).
    rewrite be_decode_encode, i32_small; rewrite Z.mod_small; change (256 ^ Z.of_nat 4) with 4294967296; lia.
  - rewrite num_packed_objects_correct by done. lia.
  - assert (E : slice (length (idx_body l sha ++ trailer) - 40) 20 (idx_body l sha ++ trailer) = sha).
    { unfold idx_body in *. rewrite app_assoc, <- app_assoc in *. rewrite !length_app, Hs20, Ht.
      rewrite slice_app_r by (rewrite !length_app; lia). rewrite !length_app.
      replace (_ - _)%nat with 0%nat by lia. unfold slice. rewrite drop_0, take_app_le, take_ge by lia. done. }
    rewrite E, Epack, (sha1_but_20_sealed m Hm ltac:(lia)), Esha. apply memcmp_refl. rewrite length_fips_sha1 by done. done.
  - assert (E : slice (length pack - 20) 20 pack = Fips.sha1 m).
    { rewrite Hlp, Epack. rewrite slice_app_r by lia. replace (_ - _)%nat with 0%nat by lia. unfold slice.
      rewrite drop_0, take_ge; [done|]. rewrite length_fips_sha1 by done. done. }
    rewrite E, Epack, (sha1_but_20_sealed m Hm ltac:(lia)). apply memcmp_refl. rewrite length_fips_sha1 by done. done.
Qed.

(** C20. git-verify-pack accepts what git-pack-objects writes: when the objects
    of the store have the names of their contents, the index and the pack of
    every run that was given no name twice pass all checks, whatever deltas
    were chosen and however the writes were split, for packs of less than 2^31
    bytes.  (With a name given twice the check may not end: [named_twice] of
    PackDeltas.v.) *)
Theorem verify_accepts_packs (incremental non_empty : bool) (window : nat) (depth : Z) (lines : list bytes)
    (sorted_by_sha sorted_by_type : list nat) (ws_pack ws_idx : list wr)
    (objs : list object_entry) (ctx : SHA_CTX) (objs1 : list object_entry)
    (pack idx list_sha1 : bytes) (objs2 : list object_entry) :
  honest ->
  read_object_list has_sha1_pack incremental lines [] SHA1_Init = Ret (objs, ctx) ->
  get_object_details sha1_object_info objs = Ret objs1 ->
  create_sorted_list (fun a b _ _ => sha1_sort a b) objs1 sorted_by_sha ->
  create_sorted_list type_size_sort objs1 sorted_by_type ->
  NoDup (map oe_sha1 objs) -> 1064 + 24 * Z.of_nat (length objs) < 2 ^ 31 ->
  pack_objects malloc_ok read_sha1_file sha1_object_info has_sha1_pack incremental non_empty window depth lines
    sorted_by_sha sorted_by_type ws_pack ws_idx = io_ret (Some (pack, idx, objs2, list_sha1)) ->
  Z.of_nat (length pack) < 2 ^ 31 ->
  verify_packfile (fun _ => true) idx pack = io_ret 0 /\
  memcmp 20 (sha1_but_20 idx) (slice (length idx - 20) 20 idx) = 0.
Proof.
  intros Hhon Hrl Hgd Hsha Htype Hnd Hsmall Hpo Hlen. assert (Hlen32 : Z.of_nat (length pack) < 2 ^ 32) by lia.
  destruct (pack_objects_written _ _ _ _ _ _ _ _ _ _ _ _ _ _ _ _ _ _ _ _ Hrl Hgd Hsha Htype Hpo)
    as (objects&sha&Hpk&Hoff&Hnames&Hsorted&Hwp&Hwi).
  assert (Hl : length objects = length objs) by (apply (f_equal length) in Hnames; by rewrite !length_map in Hnames).
  assert (Hnd' : NoDup (map oe_sha1 objects)) by (by rewrite Hnames).
  destruct (pack_recovers malloc_ok read_sha1_file _ _ _ _ _ _ _ _ Hpk Hoff Hnd' Hsorted ltac:(lia) Hwp Hlen32 Hwi) as (Hsame&_&Hnum&Hrec).
  destruct (write_pack_file_spec _ _ _ _ _ _ _ Hpk Hoff Hwp Hlen32) as (m&Hpack&Esha&Hm&_&Hent).
  pose proof (packable_same _ _ _ Hsame Hpk) as Hpk'.
  destruct (sorted_index_ok _ _ _ _ Hpk Hsame Hnd' Hsorted) as (Hidx&_&Hback); [|lia|].
  { intros i e He. destruct (Hent _ _ He) as [Ho _]. rewrite Hpack, length_app in Hlen. lia. }
  set (l := sorted_index objs2 sorted_by_sha) in *.
  assert (Hs : length sha = 20%nat /\ bytes_ok sha) by (rewrite Esha; split; [by apply length_fips_sha1|by apply fips_sha1_ok]).
  destruct Hs as [Hs20 Hsb]. apply write_index_file_contents in Hwi as ->; [|done|done].
  assert (Hbody : bytes_ok (idx_body l sha)) by (by apply idx_body_ok).
  pose proof (length_fips_sha1 _ Hbody) as Ht.
  assert (Hll : length l = length objects) by (rewrite num_packed_objects_correct in Hnum by done; lia).
  assert (Hil : length (idx_body l sha ++ Fips.sha1 (idx_body l sha)) = (1024 + 24 * length l + 40)%nat) by (by apply idx_length).
  split.
  - apply verify_packfile_iff. exists (Z.of_nat (length objects)). split.
    { apply (pack_sealed_written ws_pack objects pack sha objs2); [exact Hpk|exact Hoff|exact Hwp|exact Hlen|lia|exact Hidx|exact Hll|exact Ht]. }
    intros i Hi. destruct (lookup_lt_is_Some_2 l (Z.to_nat i)) as [e He]; [lia|].
    destruct (Hback _ _ He) as [j Hj]. destruct (Hrec _ _ Hj) as (Hdep&Hfind&Hunp).
    destruct (pk_read _ _ Hpk' _ _ Hj) as (type&data&Hr). specialize (Hunp _ _ Hr). destruct Hr as (Hr&_).
    destruct (Hhon _ _ _ Hr) as (Hty&Hd&Hdl&En). exists (oe_sha1 e), (oe_offset e), type, data.
    split; [by rewrite <- (Z2Nat.id i) by lia; apply nth_packed_object_sha1_correct|]. split; [exact Hfind|]. split.
    + eapply unpack_entry_gently_mono; [exact Hunp|]. unfold chain_fuel. rewrite Hnum. lia.
    + rewrite check_sha1_signature_eq; [|done..|by apply (pk_name _ _ Hpk' _ _ Hj)]. by rewrite decide_True.
  - assert (E : slice (length (idx_body l sha ++ Fips.sha1 (idx_body l sha)) - 20) 20 (idx_body l sha ++ Fips.sha1 (idx_body l sha)) = Fips.sha1 (idx_body l sha)).
    { rewrite length_app, Ht, slice_app_r by lia. replace (_ - _)%nat with 0%nat by lia. unfold slice. rewrite drop_0, take_ge; [done|lia]. }
    rewrite E. rewrite length_app, Ht in Hil. rewrite (sha1_but_20_sealed _ Hbody ltac:(lia)). apply memcmp_refl. lia.
Qed.

End Accepts.

(** ** The listing of an index *)

Definition index_line (e : object_entry) : bytes := numeral 10 (oe_offset e) ++ [32] ++ sha1_to_hex (oe_sha1 e) ++ [10].

Lemma show_entries_ok l : forall rest out,
  Forall (fun e => length (oe_sha1 e) = 20%nat) l -> Forall (fun e => 0 <= oe_offset e < 2 ^ 32) l ->
  show_entries (length l) (concat (map idx_entry l) ++ rest) out = Ret (out ++ concat (map index_line l)).
Proof.
  induction l as [|e l IH]; intros rest out Hn Ho; cbn [show_entries length map concat]; [by rewrite app_nil_r|].
  apply Forall_cons in Hn as [Hn1 Hn], Ho as [Ho1 Ho]. rewrite <- app_assoc.
  assert (He : length (idx_entry e) = 24%nat) by (unfold idx_entry; by rewrite length_app, length_be_encode, Hn1).
  rewrite (proj2 (Nat.ltb_ge _ _)) by (rewrite length_app; lia).
  rewrite (take_app_length' (idx_entry e)), (drop_app_length' (idx_entry e)) by done.
  assert (take 4 (idx_entry e) = be_encode 4 (oe_offset e)) as ->.
  { unfold idx_entry. by rewrite take_app_length' by (by rewrite length_be_encode). }
  assert (drop 4 (idx_entry e) = oe_sha1 e) as ->.
  { unfold idx_entry. by rewrite drop_app_length' by (by rewrite length_be_encode). }
  rewrite be_decode_encode, Z.mod_small by (change (256 ^ Z.of_nat 4) with (2 ^ 32); lia). rewrite IH by done.
  unfold index_line at 2. by rewrite <- !app_assoc.
Qed.

Lemma last_cons_default (w d : Z) ws : List.last (w :: ws) d = List.last ws w.
Proof. revert w d. induction ws as [|x ws IH]; intros w d; [done|]. change (List.last (x :: ws) d = List.last (x :: ws) w). by rewrite !IH. Qed.

Lemma last_lookup_eq (l : list Z) n d v : length l = S n -> l !! n = Some v -> List.last l d = v.
Proof.
  revert d n; induction l as [|x l IH]; intros d n Hn Hv; [done|]. rewrite last_cons_default. simpl in Hn.
  destruct n as [|n]; [destruct l; simpl in *; congruence|]. apply (IH _ n); [lia|done].
Qed.

Lemma top_loop_ok k ws : forall rest nr,
  Forall (fun w => 0 <= w < 2 ^ 32) ws -> length ws = k -> StronglySorted Z.le (nr :: ws) ->
  top_loop k (concat (map (be_encode 4) ws) ++ rest) nr = Ret (List.last ws nr).
Proof.
  revert ws; induction k as [|k IH]; intros [|w ws] rest nr HF Hl Hs; try discriminate Hl; cbn [top_loop map concat]; [done|].
  apply Forall_cons in HF as [Hw HF]. inversion Hs as [|? ? Hs' Hge]; subst. apply Forall_cons in Hge as [Hge _].
  rewrite <- app_assoc, take_app_length', drop_app_length' by (by rewrite length_be_encode).
  rewrite be_decode_encode, Z.mod_small by (change (256 ^ Z.of_nat 4) with (2 ^ 32); lia).
  rewrite (proj2 (Z.ltb_ge _ _)) by done. rewrite IH; [by rewrite last_cons_default|exact HF|simpl in Hl; lia|exact Hs'].
Qed.

Lemma sorted_by_lookup {A} (R : A -> A -> Prop) l :
  (forall i j v w, (i < j)%nat -> l !! i = Some v -> l !! j = Some w -> R v w) -> StronglySorted R l.
Proof.
  induction l as [|x l IH]; intros Hall; constructor.
  - apply IH. intros i j v w Hij. apply (Hall (S i) (S j)). lia.
  - apply Forall_lookup. intros j w. apply (Hall 0%nat (S j)); [lia|done].
Qed.

Lemma fan_mono (l : list object_entry) (pack trailer : bytes) (fan := fan_table 256 0 (length l) l) i j v w :
  idx_ok l -> length pack = 20%nat -> length trailer = 20%nat -> fan !! i = Some v -> fan !! j = Some w -> (i < j)%nat -> v <= w.
Proof.
  intros Hl Hp Ht Hi Hj Hij. pose proof (lookup_lt_Some _ _ _ Hj) as Hlt. unfold fan in Hlt. rewrite fan_table_length in Hlt.
  destruct (fan_split l pack trailer Hl Hp Ht (Z.of_nat i)) as (p&Ep&Hp1&Hp2); [lia|].
  destruct (fan_split l pack trailer Hl Hp Ht (Z.of_nat j)) as (q&Eq&Hq1&Hq2); [lia|].
  rewrite (map_word_fan l pack trailer Hl Hp Ht i v Hi) in Ep. rewrite (map_word_fan l pack trailer Hl Hp Ht j w Hj) in Eq.
  injection Ep as ->. injection Eq as ->. destruct (Nat.le_gt_cases p q) as [|Hgt]; [lia|]. exfalso.
  destruct (lookup_lt_is_Some_2 l q) as [e He]; [lia|]. pose proof (proj1 (Hp2 _ _ He) Hgt). pose proof (proj2 (Hq2 _ _ He)). lia.
Qed.

Lemma fan_end (l : list object_entry) (pack trailer : bytes) : idx_ok l -> length pack = 20%nat -> length trailer = 20%nat ->
  fan_table 256 0 (length l) l !! 255%nat = Some (Z.of_nat (length l)).
Proof.
  intros Hl Hp Ht. destruct (fan_split l pack trailer Hl Hp Ht 255) as (p&Ep&Hp1&Hp2); [lia|].
  destruct (lookup_lt_is_Some_2 (fan_table 256 0 (length l) l) 255) as [w Hw]; [rewrite fan_table_length; lia|].
  pose proof (map_word_fan l pack trailer Hl Hp Ht 255 w Hw) as Ew. change (Z.of_nat 255) with 255 in Ew. rewrite Ew in Ep. injection Ep as ->.
  rewrite Hw. do 2 f_equal. destruct (Nat.eq_dec p (length l)) as [|Hne]; [done|]. exfalso.
  destruct (lookup_lt_is_Some_2 l p) as [e He]; [lia|]. pose proof (proj2 (Hp2 _ _ He)) as Hfb.
  destruct (proj1 (Forall_lookup _ _) (idx_names _ Hl) _ _ He) as [Hl20 Hok]. unfold first_byte in Hfb.
  destruct (oe_sha1 e) as [|x s]; [discriminate|]. apply bytes_ok_cons in Hok as [Hx _]. unfold is_byte in Hx. simpl in Hfb. lia.
Qed.

Lemma fan_sorted (l : list object_entry) (pack trailer : bytes) :
  idx_ok l -> length pack = 20%nat -> length trailer = 20%nat -> StronglySorted Z.le (0 :: fan_table 256 0 (length l) l).
Proof.
  intros Hl Hp Ht. pose proof (fun i j v w => fan_mono l pack trailer i j v w Hl Hp Ht) as Hmono. cbv zeta in Hmono.
  pose proof (fan_table_range 256 0 (length l) l) as HF. revert Hmono HF. generalize (fan_table 256 0 (length l) l). intros fan Hmono HF.
  constructor.
  - apply sorted_by_lookup. intros i j v w Hij Hv Hw. exact (Hmono i j v w Hv Hw Hij).
  - eapply Forall_impl; [exact HF|]. intros w [Hw _]. exact Hw.
Qed.

(** git-show-index prints every entry of an index that [write_index_file]
    wrote, in order. *)
Theorem show_index_listing (l : list object_entry) (pack trailer : bytes) :
  idx_ok l -> length pack = 20%nat -> length trailer = 20%nat ->
  show_index (idx_body l pack ++ trailer) = Ret (concat (map index_line l)).
Proof.
  intros Hl Hp Ht. pose proof (idx_length l pack trailer Hl Hp Ht) as Hil. pose proof (idx_small l Hl). unfold show_index.
  rewrite (proj2 (Nat.ltb_ge _ _)) by lia. rewrite idx_split_entries by done.
  set (fan := fan_table 256 0 (length l) l). assert (Hfl : length fan = 256%nat) by apply fan_table_length.
  assert (Hfb : length (concat (map (be_encode 4) fan)) = 1024%nat) by (by apply (fan_bytes_length l)).
  rewrite take_app_length', drop_app_length' by done. rewrite <- (app_nil_r (concat (map (be_encode 4) fan))).
  assert (HF : Forall (fun w => 0 <= w <= Z.of_nat (length l)) fan) by apply fan_table_range.
  rewrite top_loop_ok; [|eapply Forall_impl; [exact HF|]; intros w Hw; cbv beta in *; lia|done|].
  - rewrite bind_Ret. assert (E : List.last fan 0 = Z.of_nat (length l)).
    { apply (last_lookup_eq fan 255); [exact Hfl|exact (fan_end l pack trailer Hl Hp Ht)]. }
    rewrite E, Nat2Z.id. apply (show_entries_ok l _ []); [|apply (idx_offsets l Hl)].
    eapply Forall_impl; [exact (idx_names l Hl)|]. by intros e [He _].
  - exact (fan_sorted l pack trailer Hl Hp Ht).
Qed.

(** ** A run *)

Module CheckDemo.

Definition data1 : bytes := Demo.data1.
Definition data2 : bytes := Demo.data2.
Definition name1 : bytes := Eval vm_compute in object_name (str "blob") data1.
Definition name2 : bytes := Eval vm_compute in object_name (str "blob") data2.

Definition read (sha1 : bytes) : outcome (option (bytes * bytes)) :=
  if bool_decide (sha1 = name1) then Ret (Some (str "blob", data1))
  else if bool_decide (sha1 = name2) then Ret (Some (str "blob", data2))
  else Ret None.

Definition info (sha1 : bytes) : outcome (option (bytes * Z)) :=
  match read sha1 with
  | Ret (Some (type, data)) => Ret (Some (type, Z.of_nat (length data)))
  | _ => Ret None
  end.

Definition lines : list bytes := Eval vm_compute in
  (if lexcmp name1 name2 <? 0 then [sha1_to_hex name1 ++ [10]; sha1_to_hex name2 ++ [10]] else [sha1_to_hex name2 ++ [10]; sha1_to_hex name1 ++ [10]]).

Definition objs : list object_entry :=
  match read_object_list (fun _ => false) false lines [] SHA1_Init with Ret (o, _) => o | _ => [] end.
Definition ctx : SHA_CTX :=
  match read_object_list (fun _ => false) false lines [] SHA1_Init with Ret (_, c) => c | _ => SHA1_Init end.
Definition objs1 : list object_entry := match get_object_details info objs with Ret o => o | _ => [] end.

Definition result : bytes * bytes * list object_entry * bytes := Eval vm_compute in
  match pack_objects (H := Stored.stored) (fun _ _ => true) read info (fun _ => false) false false 10 10 lines
    [0; 1]%nat [1; 0]%nat Demo.writes Demo.writes with Some (Ret (Some r)) => r | _ => ([], [], [], []) end.

Lemma demo_data_ok : bytes_ok data1 /\ bytes_ok data2.
Proof. split; (apply (bool_decide_unpack _); vm_compute; exact I). Qed.

#[export] Instance read_agrees : ObjectSource read info.
Proof.
  split. intros sha1 type size _ _. unfold info, read.
  case_bool_decide; [|case_bool_decide; [|done]]; intros E; vm_compute in E; injection E as <- <-;
    (eexists; split; [reflexivity|]; split; [vm_compute; reflexivity|]; split; [apply demo_data_ok|vm_compute; reflexivity]).
Qed.

Lemma read_honest : honest read.
Proof.
  intros sha1 type data. unfold read. pose proof blob_type_ok.
  case_bool_decide as E1; [|case_bool_decide as E2; [|done]]; intros E; injection E as <- <-; subst sha1;
    (split; [done|]; split; [apply demo_data_ok|]; split; vm_compute; reflexivity).
Qed.

Lemma sorted_back (cmp : object_entry -> object_entry -> nat -> nat -> Z) a b :
  cmp b a 1%nat 0%nat <= 0 -> create_sorted_list cmp [a; b] [1; 0]%nat.
Proof. intros Hc. split; [apply perm_swap|]. repeat constructor. by intros x y [= <-] [= <-]. Qed.

Example uses_a_delta : count_occ Z.eq_dec (map oe_delta_size (result.1.2)) 0 = 1%nat.
Proof. vm_compute. reflexivity. Qed.

End CheckDemo.

Module VerifyDemo.

Definition idx : bytes := CheckDemo.result.1.1.2.
Definition pack : bytes := CheckDemo.result.1.1.1.
Definition the_pack : packed_git := {| pg_index := idx; pg_size := Z.of_nat (length pack); pg_base := None; pg_last_used := 0;
  pg_use_cnt := 0; pg_name := str "p.pack" |}.
Definition state : pack_state := {| pg_list := [the_pack]; pack_used_ctr := 0; pack_mapped := 0; run_once := false |}.
Definition open_file (path : bytes) : option bytes :=
  if bool_decide (path = str "p.pack") then Some pack else if bool_decide (path = str "p.idx") then Some idx else None.
Definition stat_regular (path : bytes) : option Z := (fun f => Z.of_nat (length f)) <$> open_file path.

End VerifyDemo.

Lemma verify_pack_exact_witness :
  (exists st', verify_pack (H := Stored.stored) (fun _ => true) VerifyDemo.open_file (fun _ => true) VerifyDemo.state 0 false = io_ret (0, [], st')) <->
  memcmp 20 (sha1_but_20 VerifyDemo.idx) (slice (length VerifyDemo.idx - 20) 20 VerifyDemo.idx) = 0 /\
  exists nr, pack_sealed VerifyDemo.idx VerifyDemo.pack nr /\ forall k, 0 <= k < nr -> object_sound (H := Stored.stored) (fun _ => true) VerifyDemo.idx VerifyDemo.pack k.
Proof.
  destruct (use_packed_git VerifyDemo.open_file (fun _ => true) VerifyDemo.state 0) as [st1| |] eqn:E; vm_compute in E; [|discriminate E..].
  refine (verify_pack_exact (H := Stored.stored) (fun _ => true) VerifyDemo.open_file (fun _ => true) VerifyDemo.state st1 0 VerifyDemo.the_pack
    (pg_set_used (pg_set_base VerifyDemo.the_pack (Some VerifyDemo.pack)) 0 1) VerifyDemo.pack _ _ _ _ _ _).
  - reflexivity.
  - vm_compute. lia.
  - injection E as <-. vm_compute. reflexivity.
  - injection E as <-. vm_compute. reflexivity.
  - reflexivity.
  - reflexivity.
Defined.

(** [git-verify-pack -v p]. *)
Example verify_pack_run :
  verify_pack_main (H := Stored.stored) (fun _ => true) VerifyDemo.open_file (fun _ => true) VerifyDemo.stat_regular [str "-v"; str "p.pack"] =
  io_ret (0, sha1_to_hex CheckDemo.name2 ++ str " blob   123 12" ++ [10] ++
             sha1_to_hex CheckDemo.name1 ++ str " blob   4 261 1 " ++ sha1_to_hex CheckDemo.name2 ++ [10] ++ str "p.pack: ok" ++ [10]).
Proof. vm_compute. reflexivity. Qed.

Lemma verify_accepts_packs_witness :
  let idx := CheckDemo.result.1.1.2 in let pack := CheckDemo.result.1.1.1 in
  verify_packfile (H := Stored.stored) (fun _ => true) idx pack = io_ret 0 /\
  memcmp 20 (sha1_but_20 idx) (slice (length idx - 20) 20 idx) = 0.
Proof.
  apply (verify_accepts_packs (H := Stored.stored) (H0 := Stored.stored_laws) (fun _ _ => true) CheckDemo.read CheckDemo.info (fun _ => false)
    (Hsource := CheckDemo.read_agrees) false false 10 10 CheckDemo.lines [0; 1]%nat [1; 0]%nat Demo.writes Demo.writes CheckDemo.objs CheckDemo.ctx CheckDemo.objs1
    (CheckDemo.result.1.1.1) (CheckDemo.result.1.1.2) (CheckDemo.result.2) (CheckDemo.result.1.2)).
  - exact CheckDemo.read_honest.
  - vm_compute. reflexivity.
  - vm_compute. reflexivity.
  - refine (Demo.sorted_check _ _ _ _). vm_compute. discriminate.
  - refine (CheckDemo.sorted_back _ _ _ _). vm_compute. discriminate.
  - apply (bool_decide_unpack _). vm_compute. exact I.
  - vm_compute. reflexivity.
  - vm_compute. reflexivity.
  - vm_compute. reflexivity.
Defined.
