(* ===== verification/MkTag.v ===== *)
(** * git-mktag

    mktag.c: a tag is read from standard input, its first three lines are
    checked and the object it names is verified before it is stored.
    [mktag_spec] says which texts pass, [mktag_parsed] that the parser of tags
    (ObjectParse.v) reads from such a text what was checked. *)

From stdpp Require Import base list numbers strings.
From Stdlib Require Import ZArith Lia.
From S2P Require Import Prelude Hex PktLine CsumFile CString ObjectHeader ObjectDB Objects ObjectParse.

Definition MAXSIZE : nat := Z.to_nat 8192.

(** The loop over [read]: [inp] is what is left of the input, [rs] the results
    of the calls.  Any error but [EAGAIN] passes for the end of the input. *)
Fixpoint read_signature (rs : list rdc) (inp buffer : bytes) : io bytes :=
  match rs with
  | [] => None
  | ROk k :: rs =>
      let ret := (S k `min` ((MAXSIZE - length buffer) `min` length inp))%nat in
      if (ret =? 0)%nat then io_ret buffer else read_signature rs (drop ret inp) (buffer ++ take ret inp)
  | RIntr :: rs => read_signature rs inp buffer
  | RErr :: _ => io_ret buffer
  end.

(** The scan of the tag's name. *)
Fixpoint name_loop (tag_line : bytes) : outcome Z :=
  match tag_line with
  | [] => Ub
  | c :: tag_line => if c =? 10 then Ret 0 else if 32 <? c then name_loop tag_line else Ret (-1)
  end.

Section MkTag.
Context {D} {DB : ObjectDB D}.

Definition verify_object (db : D) (sha1 expected_type : bytes) : io Z :=
  r <- db_read db sha1 ;;
  match r with
  | Some (type, buffer) =>
      if bool_decide (type = expected_type) then Some (check_sha1_signature sha1 buffer (Z.of_nat (length buffer)) type)
      else io_ret (-1)
  | None => io_ret (-1)
  end.

(** [buf] is the [size] bytes that were read; a NUL is put behind them. *)
Definition verify_tag (db : D) (buf : bytes) : io Z :=
  let size := length buf in
  if (size <? 64)%nat || (MAXSIZE - 1 <? size)%nat then io_ret (-1)
  else
    let object := buf ++ [0] in
    if negb (memcmp 7 object (str "object ") =? 0) then io_ret (-1)
    else
      r <- Some (get_sha1_hex (drop 7 object)) ;;
      if negb (r.1 =? 0) then io_ret (-1)
      else if negb (memcmp 6 (drop 47 object) (10 :: str "type ") =? 0) then io_ret (-1)
      else
        let type_line := drop 48 object in
        match strchr type_line 10 with
        | None => io_ret (-1)
        | Some nl =>
            let tag_line := drop (nl + 1) type_line in
            if negb (memcmp 4 tag_line (str "tag ") =? 0) || (nth 4 tag_line 0 =? 10) then io_ret (-1)
            else
              let typelen := (nl + 1 - 6)%nat in
              if (20 <=? typelen)%nat then io_ret (-1)
              else
                let type := cstr (take typelen (drop 5 type_line)) in
                v <- verify_object db r.2 type ;;
                if negb (v =? 0) then io_ret (-1) else Some (name_loop (drop 4 tag_line))
        end.

(** What is printed, and the database. *)
Definition mktag (db : D) (rs : list rdc) (inp : bytes) : io (bytes * D) :=
  buffer <- read_signature rs inp [] ;;
  v <- verify_tag db buffer ;;
  if v <? 0 then Some Die
  else
    w <- Some (db_write db buffer (str "tag")) ;;
    if w.1.1 <? 0 then Some Die else io_ret (sha1_to_hex w.1.2 ++ [10], w.2).

(** ** The texts that pass *)

(** [h] is a name of 40 digits, in either case; the type fits its buffer, the
    name of the tag has no control characters or spaces. *)
Definition tag_text (h type name rest : bytes) : bytes :=
  str "object " ++ h ++ 10 :: str "type " ++ type ++ 10 :: str "tag " ++ name ++ 10 :: rest.

Record tag_ok (db : D) (inp h sha1 type name rest data : bytes) : Prop := {
  to_text : inp = tag_text h type name rest;
  to_size : 64 <= Z.of_nat (length inp) < 8192;
  to_hex : length h = 40%nat /\ length sha1 = 20%nat /\ bytes_ok sha1 /\ map tolower h = sha1_to_hex sha1;
  to_type : 10 ∉ type /\ 0 ∉ type /\ (length type < 20)%nat;
  to_name : name <> [] /\ Forall (fun c => 32 < c) name;
  to_object : db_read db sha1 = io_ret (Some (type, data)) /\ sha1 = object_name type data;
}.

(** The database gives objects as they are stored. *)
Definition db_wf (db : D) : Prop := forall sha1 type data, db_read db sha1 = io_ret (Some (type, data)) ->
  type_ok type /\ bytes_ok data /\ Z.of_nat (length data) < 2 ^ 31.

(** Reads that end by the end of the input, with no errors. *)
Definition reads_whole (rs : list rdc) (inp : bytes) : Prop :=
  Forall (fun r => r <> RErr) rs /\ (length inp < length (filter (fun r => r <> RIntr) rs))%nat.

End MkTag.

(** ** Reading *)

Lemma read_signature_ok rs : forall inp buffer,
  reads_whole rs inp -> (length buffer <= MAXSIZE)%nat ->
  read_signature rs inp buffer = io_ret (buffer ++ take (MAXSIZE - length buffer) inp).
Proof.
  induction rs as [|r rs IH]; intros inp buffer [HF Hn] Hl; [simpl in Hn; lia|]. apply Forall_cons in HF as [Hr HF].
  destruct r as [k| |]; cbn [read_signature]; [|apply IH; [split; [done|]|done]; by rewrite filter_cons in Hn|done].
  set (ret := (S k `min` ((MAXSIZE - length buffer) `min` length inp))%nat). destruct (Nat.eqb_spec ret 0) as [E|Hne].
  - assert (MAXSIZE - length buffer = 0 \/ length inp = 0)%nat as [->|Hi] by lia; [by rewrite take_0, app_nil_r|].
    destruct inp; [|done]. by rewrite take_nil, app_nil_r.
  - assert (Hle : (ret <= length inp)%nat) by lia. rewrite IH.
    + rewrite <- app_assoc, length_app, length_take_le by done. do 2 f_equal. rewrite <- (take_drop ret inp) at 3.
      rewrite take_app_ge by (rewrite length_take; lia). rewrite length_take_le by done. do 2 f_equal. lia.
    + split; [done|]. rewrite filter_cons, decide_True in Hn by done. cbn [length] in Hn. rewrite length_drop. lia.
    + rewrite length_app, length_take_le by done. lia.
Qed.

(** ** Checking *)

Lemma memcmp_pattern n pat : length pat = n -> 0 ∉ pat -> forall a, memcmp n a pat = 0 <-> exists r, a = pat ++ r.
Proof.
  revert n; induction pat as [|y pat IH]; intros n Hn H0 a; [subst n; split; [by exists a|done]|]. apply not_elem_of_cons in H0 as [Hy H0].
  destruct n as [|n]; [done|]. injection Hn as Hn. cbn [memcmp head tail]. destruct a as [|x a]; cbn [head default tail].
  - cbn. destruct (Z.ltb_spec 0 y), (Z.ltb_spec y 0); (split; [lia|by intros [r Hr]]) || lia.
  - cbn. destruct (decide (x = y)) as [->|Hne].
    + rewrite Z.ltb_irrefl, (IH n Hn H0). split; intros [r E]; exists r; [by rewrite E|by injection E].
    + split; [destruct (Z.ltb_spec x y), (Z.ltb_spec y x); lia|intros [r E]; by injection E].
Qed.

Lemma memcmp_zero_sym n a b : memcmp n a b = 0 -> memcmp n b a = 0.
Proof.
  revert a b; induction n as [|n IH]; intros a b; cbn [memcmp]; [done|].
  destruct (Z.ltb_spec (default 0 (head a)) (default 0 (head b))), (Z.ltb_spec (default 0 (head b)) (default 0 (head a))); try lia. apply IH.
Qed.

Lemma memcmp_starts n pat a : length pat = n -> 0 ∉ pat -> memcmp n pat (pat ++ a) = 0.
Proof. intros Hn H0. apply memcmp_zero_sym, (memcmp_pattern n pat Hn H0). by exists a. Qed.

Lemma strchr_some s c n : strchr s c = Some n -> c <> 0 -> exists l r, s = l ++ c :: r /\ length l = n /\ c ∉ l /\ 0 ∉ l.
Proof.
  revert n; induction s as [|x s IH]; intros n E Hc; cbn in E; [done|].
  destruct (Z.eqb_spec x c) as [->|Hx].
  { injection E as <-. exists [], s. repeat split; apply not_elem_of_nil. }
  destruct (Z.eqb_spec x 0) as [|H0]; [done|]. destruct (strchr s c) as [m|]; [|done]. injection E as <-.
  destruct (IH m eq_refl Hc) as (l&r&->&<-&H1&H2). exists (x :: l), r. rewrite !not_elem_of_cons. done.
Qed.

Lemma name_loop_iff s : name_loop s = Ret 0 <-> exists name rest, s = name ++ 10 :: rest /\ Forall (fun c => 32 < c) name.
Proof.
  induction s as [|c s IH]; cbn [name_loop].
  - split; [done|]. by intros ([]&?&?&_).
  - destruct (Z.eqb_spec c 10) as [->|Hc].
    + split; [|done]. intros _. by exists [], s.
    + destruct (Z.ltb_spec 32 c) as [Hlt|Hle].
      * rewrite IH. split; intros (name&rest&E&HF); [exists (c :: name), rest; rewrite E; auto|].
        destruct name as [|x name]; [by injection E|]. injection E as -> ->. apply Forall_cons in HF as [_ HF]. by exists name, rest.
      * split; [done|]. intros ([|x name]&rest&E&HF); [by injection E|]. injection E as -> _. apply Forall_cons in HF as [? _]. lia.
Qed.

Lemma nul_free : 0 ∉ str "object " /\ 0 ∉ 10 :: str "type " /\ 0 ∉ str "type " /\ 0 ∉ str "tag " /\ 10 ∉ str "type ".
Proof. split_and!; apply (bool_decide_unpack _); vm_compute; exact I. Qed.

Lemma tag_text_app h type name rest z :
  tag_text h type name rest ++ z = str "object " ++ h ++ 10 :: str "type " ++ type ++ 10 :: str "tag " ++ name ++ 10 :: rest ++ z.
Proof. unfold tag_text. by rewrite <- !app_assoc, <- !app_comm_cons, <- !app_assoc, <- !app_comm_cons, <- !app_assoc. Qed.

Lemma drop_47 h r : length h = 40%nat -> drop 47 (str "object " ++ h ++ r) = r.
Proof. intros Hh. rewrite app_assoc. apply drop_app_length'. by rewrite length_app, Hh. Qed.

Lemma drop_48 h c r : length h = 40%nat -> drop 48 (str "object " ++ h ++ c :: r) = r.
Proof. intros Hh. rewrite (app_assoc h [c] r : h ++ c :: r = _), app_assoc. apply drop_app_length'. by rewrite !length_app, Hh. Qed.

Section Proofs.
Context {D} {DB : ObjectDB D} (db : D) (Hwf : db_wf db).

Lemma verify_object_iff sha1 type : length sha1 = 20%nat ->
  verify_object db sha1 type = io_ret 0 <-> exists data, db_read db sha1 = io_ret (Some (type, data)) /\ sha1 = object_name type data.
Proof.
  intros Hl. unfold verify_object. split.
  - intros ([[t data]|]&Er&E)%io_bind_inv; [|done]. case_bool_decide as Ht; [subst t|done].
    destruct (Hwf _ _ _ Er) as (Hty&Hd&Hdl). rewrite check_sha1_signature_eq in E by done. injection E as E.
    destruct (decide _) as [En|]; [|done]. by exists data.
  - intros (data&Er&En). rewrite Er. cbn [io_bind io_ret]. rewrite bool_decide_true by done.
    destruct (Hwf _ _ _ Er) as (Hty&Hd&Hdl). rewrite check_sha1_signature_eq by done. by rewrite decide_True.
Qed.

Lemma verify_tag_ok buf h sha1 type name rest data : tag_ok db buf h sha1 type name rest data -> verify_tag db buf = io_ret 0.
Proof.
  intros [Et Hsize (Hh&Hs&Hok&Hhex) (Ht10&Ht0&Htl) (Hname&HF) Hobj]. unfold verify_tag.
  rewrite (proj2 (Nat.ltb_ge _ 64)), (proj2 (Nat.ltb_ge _ _)) by (unfold MAXSIZE; lia). cbn [orb].
  destruct nul_free as (N1&N2&N3&N4&N5). set (tail2 := name ++ 10 :: rest ++ [0]).
  assert (E : buf ++ [0] = str "object " ++ h ++ 10 :: str "type " ++ type ++ 10 :: str "tag " ++ tail2).
  { by rewrite Et, tag_text_app. }
  rewrite E, (proj2 (memcmp_pattern 7 (str "object ") eq_refl N1 _)) by (eexists; reflexivity).
  cbn [negb Z.eqb]. change (drop 7 (str "object " ++ ?x)) with x.
  rewrite (proj2 (get_sha1_hex_spec _ sha1)) by (eexists; eexists; done). cbn [io_bind fst snd negb Z.eqb].
  rewrite (drop_47 h _ Hh), (proj2 (memcmp_pattern 6 (10 :: str "type ") eq_refl N2 _)) by (eexists; reflexivity). cbn [negb Z.eqb].
  rewrite (drop_48 h _ _ Hh). rewrite app_assoc, strchr_app by (rewrite not_elem_of_app; done).
  rewrite length_app, drop_app_ge by (rewrite length_app; lia). rewrite length_app.
  replace (length (str "type ") + length type + 1 - (length (str "type ") + length type))%nat with 1%nat by lia.
  change (drop 1 (10 :: ?b)) with b. rewrite (proj2 (memcmp_pattern 4 (str "tag ") eq_refl N4 _)) by (eexists; reflexivity). cbn [negb Z.eqb orb].
  assert (Hn4 : nth 4 (str "tag " ++ tail2) 0 =? 10 = false).
  { unfold tail2. destruct name as [|x name]; [done|]. apply Forall_cons in HF as [Hx _]. change (x =? 10 = false). lia. }
  rewrite Hn4. change (length (str "type ")) with 5%nat. rewrite (proj2 (Nat.leb_gt _ _)) by lia.
  rewrite <- app_assoc. change (drop 5 (str "type " ++ ?x)) with x. change (drop 4 (str "tag " ++ ?x)) with x.
  replace (5 + length type + 1 - 6)%nat with (length type) by lia. rewrite take_app_length, cstr_id by done.
  rewrite (proj2 (verify_object_iff sha1 type Hs)) by eauto. cbn [io_bind io_ret negb Z.eqb].
  unfold io_ret. f_equal. apply name_loop_iff. by exists name, (rest ++ [0]).
Qed.

Lemma verify_tag_inv buf : verify_tag db buf = io_ret 0 ->
  exists h sha1 type name rest data, tag_ok db buf h sha1 type name rest data.
Proof.
  unfold verify_tag. destruct (Nat.ltb_spec (length buf) 64) as [|H64]; [done|]. destruct (Nat.ltb_spec (MAXSIZE - 1) (length buf)) as [|Hmax]; [done|]. cbn [orb].
  destruct nul_free as (N1&N2&N3&N4&N5).
  destruct (Z.eqb_spec (memcmp 7 (buf ++ [0]) (str "object ")) 0) as [M1|]; [|done]. cbn [negb].
  apply (memcmp_pattern 7 (str "object ") eq_refl N1) in M1 as [r1 E1]. rewrite E1. change (drop 7 (str "object " ++ ?x)) with x.
  intros ([r sha1]&Eg&E)%io_bind_inv. injection Eg as Eg. cbn [fst snd] in E. destruct (Z.eqb_spec r 0) as [->|]; [|done]. cbn [negb] in E.
  apply get_sha1_hex_spec in Eg as (h&r2&->&Hs&Hok&Hhex).
  assert (Hh : length h = 40%nat) by (apply (f_equal length) in Hhex; by rewrite length_map, length_sha1_to_hex in Hhex).
  rewrite (drop_47 h _ Hh) in E. destruct (Z.eqb_spec (memcmp 6 r2 (10 :: str "type ")) 0) as [M2|]; [|done]. cbn [negb] in E.
  apply (memcmp_pattern 6 (10 :: str "type ") eq_refl N2) in M2 as [r3 ->]. cbn [app] in E. rewrite (drop_48 h _ _ Hh) in E.
  destruct (strchr (str "type " ++ r3) 10) as [nl|] eqn:Enl; [|done]. apply strchr_some in Enl as (l&r4&El&Hnl&Hl10&Hl0); [|done].
  rewrite El in E.
  assert (exists t, l = str "type " ++ t /\ r3 = t ++ 10 :: r4) as (t&->&->).
  { destruct l as [|a1 [|a2 [|a3 [|a4 [|a5 t]]]]]; cbn in El; simplify_eq. by exists t. }
  clear El. rewrite not_elem_of_app in Hl10, Hl0. destruct Hl10 as [_ Ht10], Hl0 as [_ Ht0].
  rewrite <- Hnl, length_app, drop_app_ge in E by (rewrite length_app; lia). rewrite length_app in E.
  replace (length (str "type ") + length t + 1 - (length (str "type ") + length t))%nat with 1%nat in E by lia.
  change (drop 1 (10 :: ?b)) with b in E.
  destruct (Z.eqb_spec (memcmp 4 r4 (str "tag ")) 0) as [M3|]; [|done]. cbn [negb orb] in E.
  apply (memcmp_pattern 4 (str "tag ") eq_refl N4) in M3 as [r5 ->]. destruct (Z.eqb_spec (nth 4 (str "tag " ++ r5) 0) 10) as [|Hne]; [done|].
  change (length (str "type ")) with 5%nat in E. destruct (Nat.leb_spec 20 (5 + length t + 1 - 6)) as [|Htl]; [done|].
  replace (5 + length t + 1 - 6)%nat with (length t) in E by lia. rewrite <- app_assoc in E.
  change (drop 5 (str "type " ++ ?x)) with x in E. change (drop 4 (str "tag " ++ ?x)) with x in E.
  rewrite take_app_length, cstr_id in E by done. apply io_bind_inv in E as (v&Ev&E). destruct (Z.eqb_spec v 0) as [->|]; [|done]. cbn [negb] in E.
  apply (verify_object_iff sha1 t Hs) in Ev as (data&Hread&Hobj). injection E as E. apply name_loop_iff in E as (name&r6&->&HF).
  assert (exists rest, r6 = rest ++ [0] /\ buf = tag_text h t name rest) as (rest&->&->).
  { destruct r6 as [|z rest] using rev_ind.
    - exfalso. repeat (rewrite app_assoc in E1 || rewrite app_comm_cons in E1). by apply app_inj_tail in E1 as [_ E1].
    - change ((10 :: str "type ") ++ ?x) with (10 :: str "type " ++ x) in E1. rewrite <- tag_text_app in E1. apply app_inj_tail in E1 as [-> ->]. by exists rest. }
  exists h, sha1, t, name, rest, data.
  split; [done|unfold MAXSIZE in Hmax; lia|done|split; [done|split; [done|lia]]|split; [by intros ->|done]|done].
Qed.

End Proofs.

Lemma verify_tag_sign {D} {DB : ObjectDB D} (db : D) buf v : verify_tag db buf = io_ret v -> v = 0 \/ v = -1.
Proof.
  assert (Hn : forall s v, name_loop s = Ret v -> v = 0 \/ v = -1).
  { intros s. induction s as [|c s IH]; intros w; cbn; [done|]. destruct (c =? 10); [intros [= <-]; by left|].
    destruct (32 <? c); [apply IH|intros [= <-]; by right]. }
  assert (Hm : io_ret (-1) = io_ret v -> v = 0 \/ v = -1) by (intros [= <-]; by right). unfold verify_tag.
  repeat (destruct (_ || _); [exact Hm|]). destruct (negb _); [exact Hm|]. intros (r&_&E)%io_bind_inv. revert E.
  destruct (negb _); [exact Hm|]. destruct (negb _); [exact Hm|]. destruct (strchr _ _) as [nl|]; [|exact Hm].
  destruct (_ || _); [exact Hm|]. destruct (_ <=? _)%nat; [exact Hm|]. intros (r'&_&E)%io_bind_inv. revert E.
  destruct (negb _); [exact Hm|]. intros E. injection E as E. by apply Hn in E.
Qed.

(** C15. git-mktag stores exactly the texts that are tags: an object line in 40
    digits, a type line with the type of an object that is in the database
    under that name and has the contents it stands for, a tag line with a name
    free of spaces and control characters, in 64 to 8191 bytes.  The text is
    stored as it was read, whatever pieces it arrived in, and its name
    printed. *)
Theorem mktag_spec {D} {DB : ObjectDB D} (db db' : D) (rs : list rdc) (inp out : bytes) :
  db_wf db -> reads_whole rs inp ->
  mktag db rs inp = io_ret (out, db') <->
  (exists h sha1 type name rest data, tag_ok db inp h sha1 type name rest data) /\
  exists ret sha1, db_write db inp (str "tag") = Ret (ret, sha1, db') /\ 0 <= ret /\ out = sha1_to_hex sha1 ++ [10].
Proof.
  intros Hwf Hrs. unfold mktag. rewrite read_signature_ok; [|exact Hrs|unfold MAXSIZE; simpl; lia]. cbn [io_bind io_ret app length]. rewrite Nat.sub_0_r.
  assert (Hlong : verify_tag db (take MAXSIZE inp) = io_ret 0 -> take MAXSIZE inp = inp).
  { intros (h&s&t&n&r&d&[_ Hs _ _ _ _])%verify_tag_inv; [|done]. apply take_ge. rewrite length_take in Hs. unfold MAXSIZE in *. lia. }
  split.
  - intros (v&Ev&E)%io_bind_inv. destruct (verify_tag_sign _ _ _ Ev) as [->| ->]; [|done]. change (0 <? 0) with false in E. cbv iota in E. pose proof (Hlong Ev) as El. rewrite El in *. clear Hlong.
    split; [exact (verify_tag_inv db Hwf inp Ev)|]. destruct (db_write db inp (str "tag")) as [[[ret s] db1]| |] eqn:Ew; [|done..]. cbn [fst snd] in E.
    destruct (Z.ltb_spec ret 0); [done|]. injection E as <- <-. by exists ret, s.
  - intros ((h&s&t&n&r&d&Htag)&ret&sha1&Ew&Hret&->). rewrite (take_ge inp) by (destruct Htag; unfold MAXSIZE; lia).
    rewrite (verify_tag_ok db Hwf inp h s t n r d Htag). cbn [io_bind io_ret]. change (0 <? 0) with false. cbv iota. rewrite Ew.
    cbn [io_bind fst snd]. destruct (Z.ltb_spec ret 0); [lia|reflexivity].
Qed.

(** What git-mktag accepts, the parser of tags reads: in a table of objects
    where the name the tag gives is free, [parse_tag_buffer] succeeds, the tag
    has its name, and points to an object of the type and name of the one that
    was verified. *)
Theorem mktag_parsed {D} {DB : ObjectDB D} (nul : bool) (db : D) (inp h sha1 type name rest data : bytes) (st : objects) (item : nat) (o : object) (t : otype) :
  tag_ok db inp h sha1 type name rest data -> type = type_name t ->
  objects_ok st -> heap st !! item = Some o -> o_body o = Tag {| tagged := None; tag_name := None |} -> o_parsed o = false ->
  Z.of_nat (length (heap st)) < 2 ^ 28 -> free_for t st sha1 ->
  exists st' o' p, parse_tag_buffer nul st item inp = Ret (0, st') /\
    heap st' !! item = Some o' /\ o_body o' = Tag {| tagged := Some p; tag_name := Some name |} /\
    typed st' t p /\ obj_sha1 st' p = sha1 /\ objects_ok st'.
Proof.
  intros [Et Hsize (Hh&Hs&Hok&Hhex) (Ht10&Ht0&Htl) (Hname&HF) Hobj] Hty Hst Ho Hb Hp Hsmall Hfree.
  destruct nul_free as (N1&N2&N3&N4&N5). unfold parse_tag_buffer. rewrite (get_lookup _ _ _ Ho), bind_Ret, Hp.
  destruct (set_parsed_grows st item o _ Hst Ho Hb) as (Hg1&Hlen1&Hb1). set (st1 := set st item (set_parsed o)) in *.
  pose proof Hg1 as (Hok1&He1&_). set (tail2 := name ++ 10 :: rest ++ nul_byte nul).
  assert (E : inp ++ nul_byte nul = str "object " ++ h ++ 10 :: str "type " ++ type ++ 10 :: str "tag " ++ tail2) by (by rewrite Et, tag_text_app).
  rewrite (proj2 (Nat.ltb_ge _ _)) by lia. rewrite E, memcmp_starts by done. cbn [negb Z.eqb]. change (drop 7 (str "object " ++ ?x)) with x.
  rewrite (proj2 (get_sha1_hex_spec _ sha1)) by (eexists; eexists; done). rewrite bind_Ret. cbn [negb Z.eqb].
  rewrite (drop_47 h _ Hh), (drop_48 h _ _ Hh). rewrite (memcmp_starts 6 (10 :: str "type ") (type ++ 10 :: str "tag " ++ tail2) eq_refl N2 : memcmp 6 _ (10 :: str "type " ++ _) = 0). cbn [negb Z.eqb].
  rewrite app_assoc, strchr_mem_app, bind_Ret by (rewrite not_elem_of_app; done).
  rewrite length_app, drop_app_ge by (rewrite length_app; lia). rewrite length_app.
  replace (length (str "type ") + length type + 1 - (length (str "type ") + length type))%nat with 1%nat by lia.
  change (drop 1 (10 :: ?b)) with b. rewrite memcmp_mem_starts, bind_Ret. cbn [negb Z.eqb].
  assert (Hn : 10 ∉ str "tag " ++ name /\ 0 ∉ name).
  { rewrite Forall_forall in HF. rewrite not_elem_of_app. split; [split; [apply (bool_decide_unpack _); vm_compute; exact I|]|]; intros Hin; apply HF in Hin; lia. }
  destruct Hn as [Hn10 Hn0]. unfold tail2. rewrite (app_assoc (str "tag ")), strchr_mem_app, bind_Ret; [|exact Hn10|rewrite not_elem_of_app; done].
  change (length (str "type ")) with 5%nat. rewrite (proj2 (Nat.leb_gt _ _)) by lia.
  rewrite <- !app_assoc. change (drop 5 (str "type " ++ ?x)) with x. change (drop 4 (str "tag " ++ ?x)) with x.
  rewrite length_app. change (length (str "tag ")) with 4%nat.
  replace (5 + length type + 1 - 6)%nat with (length type) by lia. replace (4 + length name + 1 - 5)%nat with (length name) by lia.
  rewrite !take_app_length, !cstr_id by done.
  assert (Hsmall1 : Z.of_nat (length (heap st1)) < 2 ^ 28) by (rewrite Hlen1; exact Hsmall).
  destruct (lookup_typed_ok t st1 sha1 Hok1 Hs Hsmall1) as (r&st2&Er&Hlu).
  assert (Hfree1 : free_for t st1 sha1).
  { apply (free_for_extends t st); try done. intros q oq Hq Hge _. apply lookup_lt_Some in Hq. lia. }
  destruct (looked_up_free _ _ _ _ _ Hfree1 Hlu) as (p&->&Htp&Hsp).
  replace (lookup_object_type st1 sha1 type) with (lookup_typed t st1 sha1) by (subst type; by destruct t). rewrite Er, bind_Ret. cbv beta iota.
  pose proof (looked_up_body _ _ _ _ _ _ _ Hlu Hb1) as (o2&Ho2&Hbo2). pose proof (looked_up_grows _ _ _ _ _ Hlu) as (Hok2&_&_).
  rewrite (get_lookup _ _ _ Ho2), bind_Ret, Hbo2.
  destruct (set_body_ok st2 item o2 (Tag (set_tag name (Some p))) Hok2 Ho2) as [Hok3 He3]; [by rewrite Hbo2| |].
  { intros q [= <-]. by eapply typed_lt. }
  pose proof (set_body_at st2 item o2 (Tag (set_tag name (Some p))) ltac:(by eapply lookup_lt_Some)) as Hb3.
  set (st3 := set st2 item (set_body o2 (Tag (set_tag name (Some p))))) in *. pose proof (extends_typed _ _ _ _ He3 Htp) as Htp3.
  destruct (add_ref_opt_ok st3 item (Some p) Hok3 (body_at_lt _ _ _ Hb3)) as (st4&->&Ht4); [intros q [= <-]; by eapply typed_lt|].
  destruct (touched_body _ _ _ _ Ht4 Hb3) as (o4&Ho4&Hbo4). pose proof (touched_extends _ _ Ht4) as He4.
  exists st4, o4, p. split; [by rewrite bind_Ret|]. split; [done|]. split; [done|]. split; [by eapply extends_typed|]. split; [|apply Ht4].
  rewrite (extends_sha1 st3 st4), (extends_sha1 st2 st3); [done|done|by eapply typed_lt|done|by eapply typed_lt].
Qed.

(** ** A run *)

Module TagDemo.

Definition data : bytes := str "hi".
Definition name : bytes := Eval vm_compute in object_name (str "blob") data.

(** A database with one blob that keeps nothing that is written. *)
Definition db : ObjectDB unit := {|
  db_has _ sha1 := Ret (bool_decide (sha1 = name));
  db_read _ sha1 := io_ret (if bool_decide (sha1 = name) then Some (str "blob", data) else None);
  db_nul _ _ := true; db_write s buf type := Ret (0, object_name type buf, s);
|}.

Definition text : bytes := tag_text (sha1_to_hex name) (str "blob") (str "v1") (str "signed").
Definition reads : list rdc := RIntr :: replicate 200 (ROk 20).

Lemma text_reads : reads_whole reads text.
Proof. split; [repeat constructor; discriminate|]. apply (bool_decide_unpack _). vm_compute. exact I. Qed.

Lemma demo_wf : db_wf (DB := db) tt.
Proof.
  intros sha1 type d. cbn. case_bool_decide; [|done]. intros [= <- <-].
  split; [apply blob_type_ok|]. split; [apply (bool_decide_unpack _); vm_compute; exact I|vm_compute; reflexivity].
Qed.

Lemma text_ok : tag_ok (DB := db) tt text (sha1_to_hex name) name (str "blob") (str "v1") (str "signed") data.
Proof.
  split; [reflexivity|vm_compute; split; [discriminate|reflexivity]|..].
  - split_and!; try (vm_compute; reflexivity). apply (bool_decide_unpack _). vm_compute. exact I.
  - split_and!; (apply (bool_decide_unpack _); vm_compute; exact I).
  - split; [done|]. apply (bool_decide_unpack _). vm_compute. exact I.
  - split; vm_compute; reflexivity.
Qed.

Lemma no_objects_consistent : objects_ok no_objects.
Proof. split; try (intros p o Hp; discriminate Hp); [done|constructor|vm_compute; discriminate]. Qed.

Definition table : objects := match lookup_tag no_objects (replicate 20 1) with Ret (_, st) => st | _ => no_objects end.

(** The least tag has 63 bytes by the comment of mktag.c, but is refused. *)
Example least_tag_refused :
  let least := tag_text (sha1_to_hex name) (str "tag") (str ".") [] in
  length least = 63%nat /\ forall D (DB : ObjectDB D) (s : D), verify_tag s least = io_ret (-1).
Proof. split; [vm_compute; reflexivity|]. intros. reflexivity. Qed.

(** An error of [read] passes for the end of the text: a tag that has been cut
    is stored. *)
Example read_error_cuts : exists r,
  mktag (DB := db) tt [ROk 70; RErr] (text ++ replicate 100 33) = io_ret (r, tt).
Proof. eexists. vm_compute. reflexivity. Qed.

End TagDemo.

Lemma mktag_spec_witness :
  let out := sha1_to_hex (object_name (str "tag") TagDemo.text) ++ [10] in
  mktag (DB := TagDemo.db) tt TagDemo.reads TagDemo.text = io_ret (out, tt).
Proof.
  apply (mktag_spec (DB := TagDemo.db) tt tt TagDemo.reads TagDemo.text _ TagDemo.demo_wf TagDemo.text_reads). split.
  - eexists _, _, _, _, _, _. exact TagDemo.text_ok.
  - exists 0, (object_name (str "tag") TagDemo.text). split; [reflexivity|]. split; [lia|reflexivity].
Defined.

Lemma mktag_parsed_witness : exists st' o' p, parse_tag_buffer false TagDemo.table 0 TagDemo.text = Ret (0, st') /\
  heap st' !! 0%nat = Some o' /\ o_body o' = Tag {| tagged := Some p; tag_name := Some (str "v1") |} /\
  typed st' OBlob p /\ obj_sha1 st' p = TagDemo.name /\ objects_ok st'.
Proof.
  destruct (heap TagDemo.table !! 0%nat) as [o|] eqn:E; [|discriminate E].
  destruct (lookup_typed_ok OTag no_objects (replicate 20 1) TagDemo.no_objects_consistent eq_refl ltac:(vm_compute; reflexivity)) as (r&st'&Er&Hlu).
  apply (mktag_parsed (DB := TagDemo.db) false tt _ _ _ _ _ _ _ TagDemo.table 0 o OBlob TagDemo.text_ok).
  - reflexivity.
  - unfold TagDemo.table, lookup_tag. rewrite Er. apply Hlu.
  - exact E.
  - vm_compute in E. injection E as <-. reflexivity.
  - vm_compute in E. injection E as <-. reflexivity.
  - vm_compute. reflexivity.
  - intros p t' Hp. vm_compute in Hp. discriminate Hp.
Defined.
