(* ===== verification/UpdateCache.v ===== *)
(** * git-update-cache

    update-cache.c: the paths the index takes, files of the working tree put
    into the object database and the index, the refresh of what the index knows
    of unchanged files, and the whole program.  The working tree is the class
    [WorkTree] of the calls that read it; update-cache does not write it. *)

From stdpp Require Import base list numbers strings sorting.
From Stdlib Require Import ZArith Lia.
From S2P Require Import Prelude Hex CacheEntry Index IndexFile CsumFile CString ObjectHeader ObjectDB.

(** ** Paths *)

(** [rest] is what follows a ['.'] that begins a component. *)
Definition verify_dotfile (rest : bytes) : bool :=
  let ends (rest : bytes) := match rest with [] => true | c :: _ => c =? 47 end in
  match rest with
  | [] => false
  | c :: rest' =>
      if c =? 47 then false
      else if c =? 103 then
        match rest' with
        | c1 :: c2 :: rest'' => negb ((c1 =? 105) && (c2 =? 116) && ends rest'')
        | _ => true
        end
      else if c =? 46 then negb (ends rest')
      else true
  end.

(** The [for] loop with the character [c]; [goto inside] is [c == '/']. *)
Fixpoint verify_path_loop (c : Z) (path : bytes) : bool :=
  match path with
  | [] => negb (c =? 47)
  | d :: path =>
      if c =? 47 then
        if d =? 47 then false
        else if (d =? 46) && negb (verify_dotfile path) then false
        else verify_path_loop d path
      else verify_path_loop d path
  end.

Definition verify_path (path : bytes) : bool := verify_path_loop 47 path.

Example verify_path_ex :
  map verify_path (map str ["a/b"; ".git"; "a/.git/b"; ".gitx"; "a//b"; "a/"; ""; ".."; "..."; "a/."; ".g"; "x/..y"]%string) =
  [true; false; false; true; false; false; false; false; true; false; true; true].
Proof. vm_compute. reflexivity. Qed.

(** ** The working tree *)

(** [wt_lstat] gives the error number on failure.  [wt_open] is what an open
    file can be mapped to; [wt_readlink] is the whole target. *)
Class WorkTree := {
  wt_lstat : bytes -> Z + stat;
  wt_open : bytes -> option bytes;
  wt_mmap : bytes -> bool;
  wt_readlink : bytes -> option bytes;
}.

Definition ENOENT : Z := 2.
Definition ENOTDIR : Z := 20.
Definition EINVAL : Z := 22.

(** The static flags. *)
Record opts := {
  allow_add : bool;
  allow_remove : bool;
  allow_replace : bool;
  not_new : bool;
  quiet : bool;
  info_only : bool;
  force_remove : bool;
  allow_options : bool;
}.

(** [memset], the name and its length in the flags. *)
Definition blank_entry (name : bytes) : cache_entry :=
  {| ce_ctime := {| sec := 0; nsec := 0 |}; ce_mtime := {| sec := 0; nsec := 0 |}; ce_dev := 0; ce_ino := 0; ce_mode := 0;
     ce_uid := 0; ce_gid := 0; ce_st_size := 0; ce_sha1 := replicate 20 0; ce_flags := u16 (Z.of_nat (length name)); ce_name := name |}.

Definition set_ce (ce : cache_entry) (mode : Z) (sha1 : bytes) : cache_entry :=
  {| ce_ctime := ce_ctime ce; ce_mtime := ce_mtime ce; ce_dev := ce_dev ce; ce_ino := ce_ino ce; ce_mode := mode;
     ce_uid := ce_uid ce; ce_gid := ce_gid ce; ce_st_size := ce_st_size ce; ce_sha1 := sha1; ce_flags := ce_flags ce; ce_name := ce_name ce |}.

Section Update.
Context {D} {DB : ObjectDB D} (object_dir : bytes) `{WT : WorkTree}.

(** [index_fd] of sha1_file.c, of a blob: [contents] is the open file, of which
    [st_size] bytes are mapped; bytes behind the end of the file cannot be
    read. *)
Definition index_fd (db : D) (contents : bytes) (size : Z) (write_object : bool) : outcome (Z * bytes * D) :=
  if negb (size =? 0) && negb (wt_mmap contents) then Ret (-1, [], db)
  else if Z.of_nat (length contents) <? size then Ub
  else
    let buf := take (Z.to_nat size) contents in
    if write_object then db_write db buf (str "blob")
    else p ← write_sha1_file_prepare object_dir buf size (str "blob"); Ret (0, p.1.2, db).

Definition add_option (o : opts) : Z :=
  Z.lor (if allow_add o then ADD_CACHE_OK_TO_ADD else 0) (if allow_replace o then ADD_CACHE_OK_TO_REPLACE else 0).

(** The [switch] of [add_file_to_cache]: the name of the object. *)
Definition hash_file (o : opts) (db : D) (path : bytes) (st : stat) : outcome (option bytes * D) :=
  if Z.land (st_mode st) S_IFMT =? S_IFREG then
    match wt_open path with
    | None => Ret (None, db)
    | Some contents =>
        r ← index_fd db contents (st_size st) (negb (info_only o));
        let '(ret, sha1, db) := r in
        Ret (if ret <? 0 then None else Some sha1, db)
    end
  else if Z.land (st_mode st) S_IFMT =? S_IFLNK then
    match wt_readlink path with
    | None => Ret (None, db)
    | Some target =>
        let target := take (Z.to_nat (st_size st) + 1) target in
        if negb (Z.of_nat (length target) =? st_size st) then Ret (None, db)
        else if info_only o then
          p ← write_sha1_file_prepare object_dir target (st_size st) (str "blob"); Ret (Some p.1.2, db)
        else
          r ← db_write db target (str "blob");
          let '(ret, sha1, db) := r in
          Ret (if negb (ret =? 0) then None else Some sha1, db)
    end
  else Ret (None, db).

Definition add_file_to_cache (o : opts) (i : index) (db : D) (path : bytes) : outcome (Z * index * D) :=
  let gone := if allow_remove o then let '(r, i) := remove_file_from_cache i path in Ret (r, i, db) else Ret (-1, i, db) in
  match wt_lstat path with
  | inl e => if (e =? ENOENT) || (e =? ENOTDIR) then gone else Ret (-1, i, db)
  | inr st =>
      if S_ISDIR (st_mode st) then gone
      else
        let ce := fill_stat_cache_info (blank_entry path) st in
        h ← hash_file o db path st;
        match h with
        | (None, db) => Ret (-1, i, db)
        | (Some sha1, db) =>
            r ← add_cache_entry i (set_ce ce (create_ce_mode (st_mode st)) sha1) (add_option o);
            Ret (r.1, r.2, db)
        end
  end.

(** ** Refreshing *)

Definition compare_data (db : D) (ce : cache_entry) (st : stat) : outcome Z :=
  match wt_open (ce_name ce) with
  | None => Ret (-1)
  | Some contents =>
      r ← index_fd db contents (st_size st) false;
      let '(ret, sha1, _) := r in
      Ret (if ret =? 0 then memcmp 20 sha1 (ce_sha1 ce) else -1)
  end.

Definition compare_link (db : D) (ce : cache_entry) (expected_size : Z) : io Z :=
  match wt_readlink (ce_name ce) with
  | None => io_ret (-1)
  | Some target =>
      let target := take (Z.to_nat expected_size) target in
      if negb (Z.of_nat (length target) =? expected_size) then io_ret (-1)
      else
        r <- db_read db (ce_sha1 ce) ;;
        match r with
        | None => io_ret (-1)
        | Some (_, buffer) =>
            io_ret (if Z.of_nat (length buffer) =? expected_size then memcmp (length buffer) buffer target else -1)
        end
  end.

(** [inl] is [ERR_PTR]. *)
Definition refresh_entry (db : D) (ce : cache_entry) : io (Z + cache_entry) :=
  match wt_lstat (ce_name ce) with
  | inl e => io_ret (inl (- e))
  | inr st =>
      changed <- Some (ce_match_stat ce st) ;;
      if changed =? 0 then io_ret (inr ce)
      else if negb (Z.land changed (Z.lor MODE_CHANGED TYPE_CHANGED) =? 0) then io_ret (inl (- EINVAL))
      else
        c <- (if Z.land (st_mode st) S_IFMT =? S_IFREG then Some (compare_data db ce st)
              else if Z.land (st_mode st) S_IFMT =? S_IFLNK then compare_link db ce (st_size st)
              else io_ret (-1)) ;;
        io_ret (if c =? 0 then inr (fill_stat_cache_info ce st) else inl (- EINVAL))
  end.

(** The loop over the entries; [merging] is the name whose stages the inner loop
    skips.  The entries, [has_errors], whether [active_cache_changed] was set,
    and what is printed. *)
Fixpoint refresh_loop (o : opts) (db : D) (merging : option bytes) (l : list cache_entry) : io (list cache_entry * bool * bool * bytes) :=
  match l with
  | [] => io_ret ([], false, false, [])
  | ce :: l =>
      if bool_decide (merging = Some (ce_name ce)) then
        r <- refresh_loop o db merging l ;;
        let '(l, errs, changed, out) := r in io_ret (ce :: l, errs, changed, out)
      else if negb (ce_stage ce =? 0) then
        r <- refresh_loop o db (Some (ce_name ce)) l ;;
        let '(l, errs, changed, out) := r in
        io_ret (ce :: l, true, changed, ce_name ce ++ str ": needs merge" ++ [10] ++ out)
      else
        new <- refresh_entry db ce ;;
        r <- refresh_loop o db None l ;;
        let '(l, errs, changed, out) := r in
        match new with
        | inl err =>
            if (not_new o && (err =? - ENOENT)) || quiet o then io_ret (ce :: l, errs, changed, out)
            else io_ret (ce :: l, true, changed, ce_name ce ++ str ": needs update" ++ [10] ++ out)
        | inr new => io_ret (new :: l, errs, true, out)
        end
  end.

Definition refresh_cache (o : opts) (db : D) (i : index) : io (bool * index * bytes) :=
  r <- refresh_loop o db None (active_cache i) ;;
  let '(l, errs, changed, out) := r in
  io_ret (errs, {| active_cache := l; active_alloc := active_alloc i; active_cache_changed := active_cache_changed i || changed |}, out).

(** ** The program *)

(** [argv_end] is what follows the second argument in memory. *)
Definition add_cacheinfo (o : opts) (i : index) (argv_end arg1 arg2 arg3 : bytes) : outcome (Z * index) :=
  match sscanf_o arg1 with
  | None => Ret (-1, i)
  | Some mode =>
      r ← get_sha1_hex (arg2 ++ 0 :: argv_end);
      if negb (r.1 =? 0) then Ret (-1, i)
      else if negb (verify_path arg3) then Ret (-1, i)
      else add_cache_entry i (set_ce (blank_entry arg3) (create_ce_mode mode) r.2) (add_option o)
  end.

Record state := { u_opts : opts; u_index : index; u_db : D; u_errors : bool; u_out : bytes }.

Definition with_opts (s : state) (o : opts) : state :=
  {| u_opts := o; u_index := u_index s; u_db := u_db s; u_errors := u_errors s; u_out := u_out s |}.

(** An option that sets a flag. *)
Definition flag_option (o : opts) (arg : bytes) : option opts :=
  let '(Build_opts add remove replace new q info force allow) := o in
  if bool_decide (arg = str "--") then Some (Build_opts add remove replace new q info force false)
  else if bool_decide (arg = str "-q") then Some (Build_opts add remove replace new true info force allow)
  else if bool_decide (arg = str "--add") then Some (Build_opts true remove replace new q info force allow)
  else if bool_decide (arg = str "--replace") then Some (Build_opts add remove true new q info force allow)
  else if bool_decide (arg = str "--remove") then Some (Build_opts add true replace new q info force allow)
  else if bool_decide (arg = str "--info-only") then Some (Build_opts add remove replace new q true force allow)
  else if bool_decide (arg = str "--force-remove") then Some (Build_opts add remove replace new q info true allow)
  else if bool_decide (arg = str "--ignore-missing") then Some (Build_opts add remove replace true q info force allow)
  else None.

Definition one_path (s : state) (path : bytes) : outcome state :=
  let o := u_opts s in
  if negb (verify_path path) then Ret s
  else if force_remove o then
    let '(r, i) := remove_file_from_cache (u_index s) path in
    if negb (r =? 0) then Die
    else Ret {| u_opts := o; u_index := i; u_db := u_db s; u_errors := u_errors s; u_out := u_out s |}
  else
    r ← add_file_to_cache o (u_index s) (u_db s) path;
    let '(ret, i, db) := r in
    if negb (ret =? 0) then Die
    else Ret {| u_opts := o; u_index := i; u_db := db; u_errors := u_errors s; u_out := u_out s |}.

Fixpoint main_loop (argv_end : bytes) (s : state) (args : list bytes) : io state :=
  match args with
  | [] => io_ret s
  | path :: args =>
      if allow_options (u_opts s) && match path with c :: _ => c =? 45 | [] => false end then
        match flag_option (u_opts s) path with
        | Some o => main_loop argv_end (with_opts s o) args
        | None =>
            if bool_decide (path = str "--refresh") then
              r <- refresh_cache (u_opts s) (u_db s) (u_index s) ;;
              let '(errs, i, out) := r in
              main_loop argv_end {| u_opts := u_opts s; u_index := i; u_db := u_db s; u_errors := u_errors s || errs; u_out := u_out s ++ out |} args
            else if bool_decide (path = str "--cacheinfo") then
              match args with
              | mode :: sha1 :: name :: args =>
                  r <- Some (add_cacheinfo (u_opts s) (u_index s) argv_end mode sha1 name) ;;
                  if negb (r.1 =? 0) then Some Die
                  else main_loop argv_end {| u_opts := u_opts s; u_index := r.2; u_db := u_db s; u_errors := u_errors s; u_out := u_out s |} args
              | _ => Some Die
              end
            else Some Die
        end
      else s <- Some (one_path s path) ;; main_loop argv_end s args
  end.

(** [hold_ok] and [commit_ok] are the lock of the index; [file] is its contents.
    The exit status, what is printed, the new index file and the database. *)
Definition update_cache (hold_ok commit_ok : bool) (write_ok : nat -> bool) (file : option bytes) (argv_end : bytes) (db : D) (args : list bytes)
    : io (Z * bytes * bytes * D) :=
  if negb hold_ok then Some Die
  else
    r <- Some (read_cache None file) ;;
    let '(entries, i) := r in
    if entries <? 0 then Some Die
    else
      let i := default {| active_cache := []; active_alloc := 0; active_cache_changed := false |} i in
      let o := Build_opts false false false false false false false true in
      s <- main_loop argv_end {| u_opts := o; u_index := i; u_db := db; u_errors := false; u_out := [] |} args ;;
      f <- Some (write_cache write_ok (active_cache (u_index s))) ;;
      match f with
      | Some new => if commit_ok then io_ret (if u_errors s then 1 else 0, u_out s, new, u_db s) else Some Die
      | None => Some Die
      end.

End Update.

(** ** Paths: what is taken *)

Definition good_component (w : bytes) : bool := bool_decide (w ∉ [[]; [46]; [46; 46]; [46; 103; 105; 116]]).

Lemma good_component_eq c w : c <> 46 -> good_component (c :: w) = true.
Proof. intros Hc. apply bool_decide_eq_true. rewrite !not_elem_of_cons. split_and!; try (intros [=]; congruence). apply not_elem_of_nil. Qed.

Lemma verify_dotfile_eq path : verify_dotfile path = good_component (46 :: hd [] (components path)).
Proof.
  assert (Hgood : forall w, w <> [] -> w <> [46] -> w <> [103; 105; 116] -> good_component (46 :: w) = true).
  { intros w H1 H2 H3. apply bool_decide_eq_true. rewrite !not_elem_of_cons. split_and!; try (intros [=]; subst; done). apply not_elem_of_nil. }
  assert (Hcons : forall c p, c <> 47 -> hd [] (components (c :: p)) = c :: hd [] (components p)).
  { intros c p Hc. cbn [components]. destruct (Z.eqb_spec c 47); [done|]. by destruct (components_cons p) as (w&ws&->). }
  assert (Hslash : forall p, hd [] (components (47 :: p)) = []) by done.
  assert (Hend : forall p, match p with [] => true | c :: _ => c =? 47 end = true <-> hd [] (components p) = []).
  { intros [|c p]; [done|]. destruct (Z.eqb_spec c 47) as [->|Hc]; [done|]. rewrite Hcons by done. done. }
  destruct path as [|c path]; [done|]. cbn [verify_dotfile]. destruct (Z.eqb_spec c 47) as [->|H47]; [done|]. rewrite Hcons by done.
  destruct (Z.eqb_spec c 103) as [->|H103].
  - destruct path as [|c1 path]; [done|]. destruct (Z.eqb_spec c1 47) as [->|H1].
    { rewrite Hslash. destruct path; done. }
    rewrite Hcons by done. destruct path as [|c2 path].
    { symmetry. apply Hgood; [done|done|]. intros [= ]. }
    destruct (Z.eqb_spec c2 47) as [->|H2].
    { rewrite Hslash, andb_false_r. symmetry. by apply Hgood. }
    rewrite Hcons by done. specialize (Hend path). destruct (match path with [] => true | c :: _ => c =? 47 end).
    + rewrite (proj1 Hend eq_refl). destruct (Z.eqb_spec c1 105) as [->|], (Z.eqb_spec c2 116) as [->|]; cbn [andb negb]; [done|symmetry; apply Hgood; [done|done|congruence]..].
    + rewrite andb_false_r. cbn [negb]. symmetry. apply Hgood; [done|done|]. intros E. injection E as _ _ E. by apply Hend in E.
  - destruct (Z.eqb_spec c 46) as [->|H46]; [|symmetry; apply Hgood; [done|congruence|congruence]].
    specialize (Hend path). destruct (match path with [] => true | c :: _ => c =? 47 end); cbn [negb].
    + by rewrite (proj1 Hend eq_refl).
    + symmetry. apply Hgood; [done| |done]. intros E. injection E as E. by apply Hend in E.
Qed.

Lemma verify_path_loop_eq path : forall c,
  verify_path_loop c path = forallb good_component (if c =? 47 then components path else tail (components path)).
Proof.
  induction path as [|d path IH]; intros c; cbn [verify_path_loop]; [by destruct (c =? 47)|].
  assert (Hother : verify_path_loop d path = forallb good_component (tail (components (d :: path)))).
  { rewrite IH. cbn [components]. destruct (d =? 47); [done|]. by destruct (components_cons path) as (w&ws&->). }
  destruct (Z.eqb_spec c 47) as [->|Hc]; [|done]. destruct (Z.eqb_spec d 47) as [->|Hd]; [done|].
  rewrite Hother. cbn [components]. destruct (Z.eqb_spec d 47) as [|_]; [done|].
  pose proof (verify_dotfile_eq path) as Hdot. destruct (components_cons path) as (w&ws&E). rewrite E in *. cbn [tail forallb hd] in *. rewrite Hdot.
  destruct (Z.eqb_spec d 46) as [->|H46]; cbn [andb]; [|by rewrite good_component_eq].
  by destruct (good_component (46 :: w)).
Qed.

(** git-update-cache takes exactly the paths whose components, between
    slashes, are neither empty nor [.], [..] or [.git]. *)
Theorem verify_path_spec (path : bytes) :
  verify_path path = true <-> Forall (fun w => w <> [] /\ w <> str "." /\ w <> str ".." /\ w <> str ".git") (components path).
Proof.
  unfold verify_path. rewrite verify_path_loop_eq. cbn [Z.eqb Pos.eqb]. rewrite forallb_forall, Forall_forall. unfold good_component.
  split; intros H w Hw.
  - specialize (H w (proj1 (list_elem_of_In _ _) Hw)). apply bool_decide_eq_true in H. rewrite !not_elem_of_cons in H. destruct H as (?&?&?&?&_). done.
  - apply bool_decide_eq_true. rewrite !not_elem_of_cons. apply list_elem_of_In in Hw. destruct (H w Hw) as (?&?&?&?). split_and!; try done. apply not_elem_of_nil.
Qed.

(** ** Adding files *)

Section Adding.
Context {D} {DB : ObjectDB D} {inv : D -> Prop} {objs : list (bytes * bytes)} {Laws : ObjectDBLaws inv objs}.
Context (object_dir : bytes) {WT : WorkTree}.

(** There is a file or a symbolic link at [path] that can be read. *)
Record readable (path : bytes) (st : stat) (blob : bytes) : Prop := {
  rd_lstat : wt_lstat path = inr st;
  rd_size : st_size st = Z.of_nat (length blob);
  rd_data : (S_ISREG (st_mode st) = true /\ wt_open path = Some blob /\ (blob = [] \/ wt_mmap blob = true)) \/
            (S_ISLNK (st_mode st) = true /\ wt_readlink path = Some blob);
  rd_object : (str "blob", blob) ∈ objs;
}.

(** The entry it gets. *)
Definition entry_of (path : bytes) (st : stat) (blob : bytes) : cache_entry :=
  set_ce (fill_stat_cache_info (blank_entry path) st) (create_ce_mode (st_mode st)) (object_name (str "blob") blob).

Lemma kind_excl mode : S_ISREG mode = true -> S_ISLNK mode = true -> False.
Proof. unfold S_ISREG, S_ISLNK. rewrite !Z.eqb_eq. intros -> E. discriminate E. Qed.

Lemma not_dir mode : S_ISREG mode = true \/ S_ISLNK mode = true -> S_ISDIR mode = false.
Proof. unfold S_ISREG, S_ISLNK, S_ISDIR. rewrite !Z.eqb_eq. by intros [->| ->]. Qed.

Lemma hash_file_ok (o : opts) (db : D) path st blob : info_only o = false -> readable path st blob -> inv db -> exists db',
  hash_file object_dir o db path st = Ret (Some (object_name (str "blob") blob), db') /\ inv db' /\ db_holds db' (str "blob", blob) /\
  forall o', o' ∈ objs -> db_holds db o' -> db_holds db' o'.
Proof.
  intros Hinfo [_ Hsize Hdata Hobj] Hinv. destruct (db_write_keeps db _ Hinv Hobj) as (db'&Hw&Hinv'&Hh&_&Hkeep). cbn [fst snd] in Hw.
  exists db'. split; [|done]. unfold hash_file. fold (S_ISREG (st_mode st)) (S_ISLNK (st_mode st)). rewrite Hinfo. cbn [negb].
  destruct Hdata as [(Hreg&Ho&Hm)|(Hlnk&Hl)].
  - rewrite Hreg, Ho. unfold index_fd.
    assert (E : negb (st_size st =? 0) && negb (wt_mmap blob) = false).
    { destruct Hm as [->| ->]; [by rewrite Hsize|]. by rewrite andb_false_r. }
    rewrite E, Hsize, Z.ltb_irrefl, Nat2Z.id, take_ge, Hw by done. done.
  - destruct (S_ISREG (st_mode st)) eqn:Hreg; [by destruct (kind_excl _ Hreg Hlnk)|]. rewrite Hlnk, Hl, Hsize, take_ge by lia.
    rewrite Z.eqb_refl. cbn [negb]. by rewrite Hw.
Qed.

Lemma entry_of_wf path st blob : (length path < 4096)%nat ->
  ce_wf (entry_of path st blob) /\ ce_stage (entry_of path st blob) = 0.
Proof.
  intros Hl. assert (Hf : ce_flags (entry_of path st blob) = Z.of_nat (length path)).
  { cbn. unfold u16. rewrite Z.mod_small; lia. }
  assert (Hs : ce_stage (entry_of path st blob) = 0).
  { unfold ce_stage. rewrite land_stagemask, Hf. rewrite Z.div_small by lia. done. }
  split; [|done]. split; rewrite ?Hs, ?Hf; [cbn [entry_of set_ce fill_stat_cache_info blank_entry ce_name]; lia|exact Hl|lia].
Qed.

Lemma entry_of_match path st blob : S_ISREG (st_mode st) = true \/ S_ISLNK (st_mode st) = true ->
  ce_match_stat (entry_of path st blob) st = Ret 0.
Proof.
  intros Hk. apply ce_match_stat_cases. split; [|by repeat split]. destruct (create_ce_mode_kind (st_mode st)) as [Hr Hl].
  cbn [ce_mode entry_of set_ce]. destruct Hk as [Hk|Hk]; [left|right]; intuition.
Qed.

(** What adding asks of a path. *)
Definition addable (path : bytes) (st : stat) (blob : bytes) : Prop :=
  verify_path path = true /\ (length path < 4096)%nat /\ readable path st blob.

Lemma verified_path_ok path : verify_path path = true -> path_ok path.
Proof. destruct path as [|c path]; [done|]. intros H. split; [done|]. cbn. intros ->. discriminate H. Qed.

Lemma index_nodup cache : index_ok cache -> NoDup cache.
Proof.
  intros [_ Hs]. induction Hs as [|x l Hs IH HF]; constructor; [|done]. intros Hin. rewrite Forall_forall in HF.
  exact (ce_lt_irrefl x (HF x Hin)).
Qed.

(** No path is a directory of another. *)
Definition apart (p q : bytes) : Prop := ~ under p q /\ ~ under q p.
Definition no_clash (cache : list cache_entry) (path : bytes) : Prop := forall x, x ∈ cache -> ce_stage x = 0 -> apart path (ce_name x).

Definition keeps_others (paths : list bytes) (old new : list cache_entry) : Prop :=
  forall x, ce_name x ∉ paths -> x ∈ new <-> x ∈ old.

(** The index had a merged entry of this name: adding replaces that one entry. *)
Definition has_merged (old : list cache_entry) (name : bytes) : Prop :=
  exists e, e ∈ old /\ ce_name e = name /\ ce_stage e = 0.

(** Which unmerged entries of an added name stay: those next to a merged one. *)
Definition stages_left (paths : list bytes) (old new : list cache_entry) : Prop :=
  forall x, ce_name x ∈ paths -> ce_stage x <> 0 -> x ∈ new <-> x ∈ old /\ has_merged old (ce_name x).

(** What the index holds after adding [paths] to [old]. *)
Definition index_after (paths : list bytes) (old : list cache_entry) (x : cache_entry) : Prop :=
  (ce_name x ∉ paths /\ x ∈ old) \/
  (ce_name x ∈ paths /\ exists st blob, readable (ce_name x) st blob /\ x = entry_of (ce_name x) st blob) \/
  (ce_name x ∈ paths /\ ce_stage x <> 0 /\ x ∈ old /\ has_merged old (ce_name x)).

Lemma merged_key a b : ce_wf a -> ce_wf b -> ce_stage a = 0 -> ce_stage b = 0 -> ce_key a = ce_key b <-> ce_name a = ce_name b.
Proof.
  intros [Fa _ _] [Fb _ _] Sa Sb. unfold ce_key. split; [by intros [=]|]. intros E. by rewrite Fa, Fb, Sa, Sb, E.
Qed.

Record added (s s' : state (D := D)) (paths : list bytes) : Prop := {
  ad_opts : u_opts s' = u_opts s;
  ad_out : u_out s' = u_out s /\ u_errors s' = u_errors s;
  ad_index : index_inv (u_index s') /\ df_ok (active_cache (u_index s'));
  ad_names : forall x, x ∈ active_cache (u_index s') -> x ∈ active_cache (u_index s) \/ (ce_name x ∈ paths /\ exists st blob, readable (ce_name x) st blob /\ x = entry_of (ce_name x) st blob);
  ad_entries : forall path st blob, path ∈ paths -> readable path st blob -> entry_of path st blob ∈ active_cache (u_index s');
  ad_others : keeps_others paths (active_cache (u_index s)) (active_cache (u_index s'));
  ad_stages : stages_left paths (active_cache (u_index s)) (active_cache (u_index s'));
  ad_merged : forall path, path ∈ paths -> has_merged (active_cache (u_index s')) path;
  ad_count : active_nr (u_index s') <= active_nr (u_index s) + Z.of_nat (length paths);
  ad_db : inv (u_db s');
  ad_blobs : forall path st blob, path ∈ paths -> readable path st blob -> db_holds (u_db s') (str "blob", blob);
  ad_kept : forall o, o ∈ objs -> db_holds (u_db s) o -> db_holds (u_db s') o;
}.

Lemma readable_unique path st blob st' blob' : readable path st blob -> readable path st' blob' -> st' = st /\ blob' = blob.
Proof.
  intros [L1 S1 D1 _] [L2 S2 D2 _]. assert (st' = st) as -> by congruence. split; [done|].
  destruct D1 as [(R1&O1&_)|(K1&O1)], D2 as [(R2&O2&_)|(K2&O2)]; try congruence; by destruct (kind_excl (st_mode st)).
Qed.

Lemma one_path_added s path st blob :
  allow_add (u_opts s) = true -> allow_replace (u_opts s) = false -> force_remove (u_opts s) = false -> info_only (u_opts s) = false ->
  index_inv (u_index s) -> df_ok (active_cache (u_index s)) -> active_nr (u_index s) < 2 ^ 30 -> inv (u_db s) ->
  addable path st blob -> no_clash (active_cache (u_index s)) path ->
  exists s', one_path object_dir s path = Ret s' /\ added s s' [path].
Proof.
  intros Ha Hr Hf Hi Hinv Hdf Hn Hdb (Hv&Hl&Hrd) Hclash. unfold one_path. rewrite Hv, Hf. cbn [negb].
  unfold add_file_to_cache. pose proof Hrd as [L1 S1 D1 O1]. rewrite L1, not_dir by tauto.
  destruct (hash_file_ok (u_opts s) (u_db s) path st blob Hi Hrd Hdb) as (db'&Eh&Hdb'&Hh&Hkeep). rewrite Eh, bind_Ret. cbv beta iota.
  fold (entry_of path st blob). unfold add_option. rewrite Ha, Hr. change (Z.lor ADD_CACHE_OK_TO_ADD 0) with ADD_CACHE_OK_TO_ADD.
  destruct (entry_of_wf path st blob Hl) as [Hwf Hst].
  destruct (add_merged_entry (u_index s) (entry_of path st blob) Hinv Hdf Hn Hwf (verified_path_ok _ Hv) Hst) as (r&i'&E&Hinv'&Hdf'&Hcase).
  rewrite E, bind_Ret. cbn [fst snd].
  assert (Hnc : ~ conflicts (active_cache (u_index s)) (entry_of path st blob)).
  { intros (p&Hp&[[Es Hu]|[Es Hu]]); rewrite Hst in Es; destruct (Hclash p Hp) as [H1 H2]; auto. }
  assert (Hres : r = 0 /\ entry_of path st blob ∈ active_cache i' /\
    (forall x, x ∈ active_cache i' -> x = entry_of path st blob \/ x ∈ active_cache (u_index s)) /\
    (forall x, ce_name x <> path -> x ∈ active_cache (u_index s) -> x ∈ active_cache i') /\
    stages_left [path] (active_cache (u_index s)) (active_cache i')).
  { destruct Hcase as [((e&He&Ek)&Hr0&Hx)|(Hno&Hr0&Hx)].
    - split; [done|]. split; [apply Hx; by left|]. split; [intros x; rewrite Hx; tauto|].
      split; [intros x Hne Hin; apply Hx; right; split; [done|]; by intros [=]|].
      intros x Hxn%list_elem_of_singleton Hxs. rewrite Hx.
      assert (Hxk : ce_key x <> ce_key (entry_of path st blob)).
      { intros Exk. apply Hxs. unfold ce_key in Exk. injection Exk as _ Ef. unfold ce_stage in *. by rewrite Ef. }
      split; [intros [->|[? _]]; [done|]|by intros [? _]; right]. split; [done|]. exists e. split; [done|].
      rewrite Hxn. unfold ce_key in Ek. injection Ek as En Ef. split; [exact En|]. unfold ce_stage in *. by rewrite Ef.
    - apply Hr0 in Hnc. specialize (Hx Hnc). split; [done|]. split; [apply Hx; by left|]. split; [intros x; rewrite Hx; tauto|].
      split; [intros x Hne Hin; apply Hx; by right|].
      intros x Hxn%list_elem_of_singleton Hxs. rewrite Hx. split; [intros [->|[_ Hne]]; [done|by destruct Hne]|].
      intros [_ (e&He&En&Es)]. exfalso. apply (Hno e He). apply merged_key; [|done|done|done|by rewrite En, Hxn].
      pose proof (proj1 (proj1 Hinv)) as Hall. rewrite Forall_forall in Hall. by apply Hall. }
  destruct Hres as (->&Hin&Hsub&Hback&Hstages). rewrite bind_Ret. cbn [negb Z.eqb]. eexists. split; [reflexivity|].
  split; cbn [u_opts u_out u_errors u_index u_db]; try done.
  - intros x Hx. destruct (Hsub x Hx) as [->|]; [right|by left]. split; [by apply list_elem_of_singleton|by exists st, blob].
  - intros p st' blob' ->%list_elem_of_singleton Hrd'. by destruct (readable_unique _ _ _ _ _ Hrd Hrd') as [-> ->].
  - intros x Hx. rewrite list_elem_of_singleton in Hx. split; [|by apply Hback].
    intros Hx'. destruct (Hsub x Hx') as [->|]; [by destruct Hx|done].
  - intros p ->%list_elem_of_singleton. by exists (entry_of path st blob).
  - unfold active_nr. cbn [length]. pose proof (index_nodup _ (proj1 Hinv')) as Hnd.
    assert (Hle : (length (active_cache i') <= length (entry_of path st blob :: active_cache (u_index s)))%nat).
    { apply submseteq_length, NoDup_submseteq; [done|]. intros x Hx. rewrite elem_of_cons. by apply Hsub. }
    cbn [length] in Hle. lia.
  - intros p st' blob' ->%list_elem_of_singleton Hrd'. by destruct (readable_unique _ _ _ _ _ Hrd Hrd') as [-> ->].
Qed.

Lemma added_refl s : index_inv (u_index s) -> df_ok (active_cache (u_index s)) -> inv (u_db s) -> added s s [].
Proof.
  intros Hi Hd Hdb. split; try done; [by left|by intros ? ? ? ?%elem_of_nil|by intros ? ?%elem_of_nil|by intros ? ?%elem_of_nil|simpl; lia|by intros ? ? ? ?%elem_of_nil].
Qed.

Lemma has_merged_kept paths old new name : keeps_others paths old new -> name ∉ paths -> has_merged new name <-> has_merged old name.
Proof. intros K Hn. split; intros (e&He&<-&Hs); exists e; (split; [by apply (K e)|done]). Qed.

Lemma stages_left_cons path paths old mid new : has_merged mid path ->
  keeps_others [path] old mid -> stages_left [path] old mid -> keeps_others paths mid new -> stages_left paths mid new ->
  stages_left (path :: paths) old new.
Proof.
  intros Hm K1 S1 K2 S2 x Hx Hs. assert (Hin : forall y : bytes, y ∈ [y]) by (intros; by apply list_elem_of_singleton).
  destruct (decide (ce_name x ∈ paths)) as [Hp|Hp].
  - rewrite (S2 x Hp Hs). destruct (decide (ce_name x = path)) as [<-|Hne].
    + rewrite (S1 x (Hin _) Hs). tauto.
    + assert (Hne' : ce_name x ∉ [path]) by (by rewrite list_elem_of_singleton). by rewrite (K1 x Hne'), (has_merged_kept [path] old mid).
  - apply elem_of_cons in Hx as [Hx|]; [|done]. rewrite (K2 x Hp). apply S1; [by apply list_elem_of_singleton|done].
Qed.

Lemma added_cons s s1 s2 path paths : added s s1 [path] -> added s1 s2 paths -> added s s2 (path :: paths).
Proof.
  intros [O1 [U1 V1] I1 N1 E1 K1 S1 M1 C1 D1 B1 H1] [O2 [U2 V2] I2 N2 E2 K2 S2 M2 C2 D2 B2 H2]. split; try congruence; try done.
  - split; congruence.
  - intros x Hx. destruct (N2 x Hx) as [Hx1|[Hp Hr]]; [|right; split; [by apply elem_of_cons; right|done]].
    destruct (N1 x Hx1) as [|[Hp Hr]]; [by left|right]. apply list_elem_of_singleton in Hp. split; [by apply elem_of_cons; left|done].
  - intros p st blob Hp Hr. destruct (decide (p ∈ paths)) as [Hin|Hout]; [by apply E2|]. apply elem_of_cons in Hp as [->|]; [|done].
    apply K2; [done|]. apply E1; [by apply list_elem_of_singleton|done].
  - intros x Hx. apply not_elem_of_cons in Hx as [Hne Hx]. rewrite (K2 x Hx). apply K1. by rewrite list_elem_of_singleton.
  - eapply stages_left_cons; try done. apply M1. by apply list_elem_of_singleton.
  - intros p Hp. destruct (decide (p ∈ paths)) as [Hin|Hout]; [by apply M2|]. apply elem_of_cons in Hp as [->|]; [|done].
    apply (has_merged_kept paths (active_cache (u_index s1))); [done..|]. apply M1. by apply list_elem_of_singleton.
  - cbn [length] in *. lia.
  - intros p st blob Hp Hr. destruct (decide (p ∈ paths)) as [Hin|Hout]; [by eapply B2|]. apply elem_of_cons in Hp as [->|]; [|done].
    apply H2; [apply Hr|]. eapply B1; [by apply list_elem_of_singleton|done].
  - intros o Ho Hh. by apply H2, H1.
Qed.

Lemma main_loop_added argv_end paths : forall s,
  allow_add (u_opts s) = true -> allow_replace (u_opts s) = false -> force_remove (u_opts s) = false -> info_only (u_opts s) = false ->
  allow_options (u_opts s) = false ->
  index_inv (u_index s) -> df_ok (active_cache (u_index s)) -> active_nr (u_index s) + Z.of_nat (length paths) < 2 ^ 30 -> inv (u_db s) ->
  (forall p, p ∈ paths -> exists st blob, addable p st blob) ->
  (forall p, p ∈ paths -> no_clash (active_cache (u_index s)) p) -> (forall p q, p ∈ paths -> q ∈ paths -> apart p q) ->
  exists s', main_loop object_dir argv_end s paths = io_ret s' /\ added s s' paths.
Proof.
  induction paths as [|p paths IH]; intros s Ha Hr Hf Hi Ho Hinv Hdf Hn Hdb Hadd Hclash Hap; cbn [main_loop].
  { exists s. split; [done|]. by apply added_refl. }
  rewrite Ho. cbn [andb]. destruct (Hadd p) as (st&blob&Hp); [by apply elem_of_cons; left|]. cbn [length] in Hn.
  destruct (one_path_added s p st blob) as (s1&->&H1); try done; [lia|by apply Hclash, elem_of_cons; left|]. cbn [io_bind].
  pose proof H1 as [O1 _ [Hinv1 Hdf1] N1 _ _ _ _ C1 D1 _ _]. cbn [length] in C1.
  destruct (IH s1) as (s'&E&H2); rewrite ?O1; try done; [lia| | | |].
  - intros q Hq. apply Hadd. by apply elem_of_cons; right.
  - intros q Hq x Hx Hst. destruct (N1 x Hx) as [Hx0|[Hxp _]].
    + apply (Hclash q); [by apply elem_of_cons; right|done..].
    + apply list_elem_of_singleton in Hxp. rewrite Hxp. apply Hap; [by apply elem_of_cons; right|by apply elem_of_cons; left].
  - intros a b Ha' Hb'. apply Hap; by apply elem_of_cons; right.
  - exists s'. split; [exact E|]. by apply (added_cons _ s1).
Qed.

(** The new index, exactly. *)
Lemma added_exact s s' paths : added s s' paths -> (forall p, p ∈ paths -> exists st blob, addable p st blob) ->
  forall x, x ∈ active_cache (u_index s') <-> index_after paths (active_cache (u_index s)) x.
Proof.
  intros [_ _ [Hinv' _] Hnames Hent Hoth Hst _ _ _ _ _] Hadd x. unfold index_after.
  destruct (decide (ce_name x ∈ paths)) as [Hp|Hp]; [|rewrite (Hoth x Hp); tauto].
  destruct (Hadd _ Hp) as (st&blob&_&Hl&Hr). destruct (entry_of_wf (ce_name x) st blob Hl) as [Hwf Hs0].
  pose proof (Hent _ _ _ Hp Hr) as Hin. destruct (decide (ce_stage x = 0)) as [Hs|Hs].
  - split.
    + intros Hx. right; left. split; [done|]. exists st, blob. split; [done|].
      apply (index_key_inj (active_cache (u_index s'))); [by apply Hinv'|done..|]. apply merged_key; [|done..].
      pose proof (proj1 (proj1 Hinv')) as Hall. rewrite Forall_forall in Hall. by apply Hall.
    + intros [[? _]|[(_&st'&blob'&Hr'&E)|(_&? & _)]]; [done| |done]. rewrite E. by apply Hent.
  - rewrite (Hst x Hp Hs). split; [tauto|]. intros [[? _]|[(_&st'&blob'&Hr'&E)|(_&_&?)]]; [done| |done].
    destruct (readable_unique _ _ _ _ _ Hr Hr') as [-> ->]. exfalso. apply Hs. by rewrite E.
Qed.

Lemma entry_of_storable path st blob : addable path st blob -> bytes_ok path -> ce_storable (entry_of path st blob) /\ live (entry_of path st blob).
Proof.
  intros (_&Hl&[_ _ _ Ho]) Hb. destruct (entry_of_wf path st blob Hl) as [Hwf _]. pose proof (db_name_ok _ Ho) as [Hs Hok]. cbn [fst snd] in *.
  assert (Hm : 0 < create_ce_mode (st_mode st) < 2 ^ 32).
  { unfold create_ce_mode, ce_permissions. destruct (S_ISLNK _); [vm_compute; done|]. by destruct (negb _). }
  split; [split; [done| |done|done]|].
  - cbn [entry_of set_ce fill_stat_cache_info blank_entry ce_words ce_ctime ce_mtime ce_dev ce_ino ce_mode ce_uid ce_gid ce_st_size sec nsec] in *.
    repeat (apply Forall_cons; split); try apply Forall_nil_2; unfold word32; first [apply u32_range|lia|change (0 <= create_ce_mode (st_mode st) < 2 ^ 32); lia|cbn; lia].
  - unfold live. cbn [entry_of set_ce ce_mode]. lia.
Qed.

End Adding.

(** The order depends on names and flags only. *)
Lemma index_ok_same_keys l l' : Forall2 (fun a b => ce_flags b = ce_flags a /\ ce_name b = ce_name a) l l' -> index_ok l -> index_ok l'.
Proof.
  intros HF. induction HF as [|a b l l' [Hf Hn] HF IH]; intros [Hwf Hs]; [split; constructor|].
  apply Forall_cons in Hwf as [Hw Hwf]. apply StronglySorted_inv in Hs as [Hs Ha]. destruct (IH (conj Hwf Hs)) as [Hwf' Hs'].
  assert (Hstage : ce_stage b = ce_stage a) by (unfold ce_stage; by rewrite Hf). split.
  - constructor; [|done]. destruct Hw as [W1 W2 W3]. split; rewrite ?Hstage, ?Hn, ?Hf; done.
  - constructor; [done|]. clear -Ha HF Hf Hn. induction HF as [|c d l l' [Hf' Hn'] HF IH]; [constructor|].
    apply Forall_cons in Ha as [H1 H2]. constructor; [|by apply IH]. unfold ce_lt, ce_key in *. by rewrite Hf, Hn, Hf', Hn'.
Qed.

(** ** Refreshing: what is renewed *)

Section Refreshing.
Context {D} {DB : ObjectDB D} (object_dir : bytes) {WT : WorkTree} (db : D).

Definition kind_matches (ce : cache_entry) (st : stat) : Prop :=
  (S_ISREG (ce_mode ce) = true /\ S_ISREG (st_mode st) = true /\ Z.testbit (ce_mode ce) 6 = Z.testbit (st_mode st) 6) \/
  (S_ISLNK (ce_mode ce) = true /\ S_ISLNK (st_mode st) = true).

(** What can be read at the path of an entry. *)
Definition file_at (path : bytes) (st : stat) (blob : bytes) : Prop :=
  wt_lstat path = inr st /\ st_size st = Z.of_nat (length blob) /\
  ((S_ISREG (st_mode st) = true /\ wt_open path = Some blob /\ wt_mmap blob = true) \/
   (S_ISLNK (st_mode st) = true /\ wt_readlink path = Some blob)) /\
  bytes_ok blob /\ Z.of_nat (length blob) < 2 ^ 31.

(** The object of the entry has the contents of its file. *)
Definition contents_match (ce : cache_entry) (st : stat) (blob : bytes) : Prop :=
  if S_ISREG (st_mode st) then ce_sha1 ce = object_name (str "blob") blob
  else db_read db (ce_sha1 ce) = io_ret (Some (str "blob", blob)).

(** The entry's file is as the index has it: by its times and numbers, or by
    its kind and contents. *)
Definition same_file (ce : cache_entry) (st : stat) (blob : bytes) : Prop :=
  ce_match_stat ce st = Ret 0 \/ (kind_matches ce st /\ contents_match ce st blob).

(** An entry for a file or a link whose object the database has. *)
Definition entry_known (ce : cache_entry) : Prop :=
  (S_ISREG (ce_mode ce) = true \/ S_ISLNK (ce_mode ce) = true) /\ length (ce_sha1 ce) = 20%nat /\
  exists b, db_read db (ce_sha1 ce) = io_ret (Some (str "blob", b)).

Lemma land_flag c bit x : Z.land bit 72 = 0 -> Z.land (flag_if c bit x) 72 = Z.land x 72.
Proof. intros Hb. rewrite flag_if_lor, Z.land_lor_distr_l. destruct c; rewrite ?Hb, ?Z.land_0_l; apply Z.lor_0_r. Qed.

Lemma kind_changed ce st : S_ISREG (ce_mode ce) = true \/ S_ISLNK (ce_mode ce) = true ->
  exists changed, ce_match_stat ce st = Ret changed /\ (Z.land changed (Z.lor MODE_CHANGED TYPE_CHANGED) = 0 <-> kind_matches ce st).
Proof.
  intros Hk. assert (Hbit : Z.land 0x40 (Z.lxor (ce_mode ce) (st_mode st)) = 0 <-> Z.testbit (ce_mode ce) 6 = Z.testbit (st_mode st) 6).
  { change 0x40 with (2 ^ 6). split.
    - intros H. apply (f_equal (fun z => Z.testbit z 6)) in H. rewrite Z.land_spec, Z.pow2_bits_true, Z.lxor_spec, Z.bits_0 in H by lia.
      by destruct (Z.testbit (ce_mode ce) 6), (Z.testbit (st_mode st) 6).
    - intros H. apply Z.bits_inj'. intros i Hi. rewrite Z.land_spec, Z.lxor_spec, Z.bits_0.
      destruct (decide (i = 6)) as [->|]; [rewrite H, xorb_nilpotent; apply andb_false_r|]. by rewrite Z.pow2_bits_false by done. }
  unfold ce_match_stat. fold (S_ISREG (ce_mode ce)) (S_ISLNK (ce_mode ce)). change (Z.lor MODE_CHANGED TYPE_CHANGED) with 72. unfold kind_matches.
  destruct (S_ISREG (ce_mode ce)) eqn:Er.
  - assert (El : S_ISLNK (ce_mode ce) = false) by (destruct (S_ISLNK (ce_mode ce)) eqn:El; [by destruct (kind_excl _ Er El)|done]).
    rewrite bind_Ret, El. eexists. split; [reflexivity|]. rewrite !land_flag by done.
    destruct (S_ISREG (st_mode st)), (Z.eqb_spec (Z.land 0x40 (Z.lxor (ce_mode ce) (st_mode st))) 0) as [E|E]; rewrite Hbit in E; cbn [negb];
      match goal with |- ?x = 0 <-> _ => let v := eval vm_compute in x in change x with v end; intuition discriminate.
  - destruct Hk as [|Hk]; [done|]. rewrite Hk, bind_Ret. eexists. split; [reflexivity|]. rewrite !land_flag by done.
    destruct (S_ISLNK (st_mode st)); cbn [negb];
      match goal with |- ?x = 0 <-> _ => let v := eval vm_compute in x in change x with v end; intuition discriminate.
Qed.

Lemma prepare_blob buf : bytes_ok buf -> Z.of_nat (length buf) < 2 ^ 31 -> exists p,
  write_sha1_file_prepare object_dir buf (Z.of_nat (length buf)) (str "blob") = Ret p /\ p.1.2 = object_name (str "blob") buf.
Proof.
  intros Hb Hl. exists (sha1_file_name object_dir (object_name (str "blob") buf), object_name (str "blob") buf, object_header (str "blob") (Z.of_nat (length buf))).
  split; [|reflexivity]. exact (write_sha1_file_prepare_eq object_dir (str "blob") buf blob_type_ok Hb Hl).
Qed.

Lemma index_fd_hash blob st : st_size st = Z.of_nat (length blob) -> wt_mmap blob = true -> bytes_ok blob -> Z.of_nat (length blob) < 2 ^ 31 ->
  index_fd object_dir db blob (st_size st) false = Ret (0, object_name (str "blob") blob, db).
Proof.
  intros Hs Hm Hb Hl. unfold index_fd. rewrite Hm, andb_false_r, Hs, Z.ltb_irrefl, Nat2Z.id, take_ge by done. cbv zeta.
  destruct (prepare_blob blob Hb Hl) as (p&Ep&En). by rewrite Ep, bind_Ret, En.
Qed.

Lemma compare_ok ce st blob : entry_known ce -> file_at (ce_name ce) st blob -> kind_matches ce st -> exists c,
  (if Z.land (st_mode st) S_IFMT =? S_IFREG then Some (compare_data object_dir db ce st)
   else if Z.land (st_mode st) S_IFMT =? S_IFLNK then compare_link db ce (st_size st) else io_ret (-1)) = io_ret c /\
  (c = 0 <-> contents_match ce st blob).
Proof.
  intros (Hk&Hl20&b&Hread) (_&Hsize&Hdata&Hb&Hl) Hkind. fold (S_ISREG (st_mode st)) (S_ISLNK (st_mode st)). unfold contents_match.
  destruct Hdata as [(Hreg&Ho&Hm)|(Hlnk&Ht)].
  - rewrite Hreg. unfold compare_data. rewrite Ho, index_fd_hash, bind_Ret by done. cbv beta iota. cbn [Z.eqb]. eexists. split; [reflexivity|].
    assert (Hn : length (object_name (str "blob") blob) = 20%nat) by (apply object_name_length; [apply blob_type_ok|done]).
    rewrite memcmp_eq, !take_ge by lia. split; congruence.
  - destruct (S_ISREG (st_mode st)) eqn:Hreg; [by destruct (kind_excl _ Hreg Hlnk)|]. rewrite Hlnk. unfold compare_link.
    rewrite Ht, Hsize, take_ge, Z.eqb_refl by lia. cbn [negb]. rewrite Hread. cbn [io_bind io_ret]. eexists. split; [reflexivity|].
    destruct (Z.eqb_spec (Z.of_nat (length b)) (Z.of_nat (length blob))) as [El|Hne].
    + rewrite memcmp_eq, !take_ge by lia. split; [by intros ->|]. intros E. injection E as ->. done.
    + split; [done|]. intros E. injection E as ->. done.
Qed.

(** What [refresh_entry] finds. *)
Inductive state_of (ce : cache_entry) : Prop :=
| Missing e : wt_lstat (ce_name ce) = inl e -> 0 < e -> state_of ce
| Present st blob : file_at (ce_name ce) st blob -> state_of ce.

Definition fresh (ce : cache_entry) : Prop := exists st blob, file_at (ce_name ce) st blob /\ same_file ce st blob.

(** The same entry but for what [lstat] says. *)
Definition same_entry (ce ce' : cache_entry) : Prop :=
  ce_mode ce' = ce_mode ce /\ ce_sha1 ce' = ce_sha1 ce /\ ce_flags ce' = ce_flags ce /\ ce_name ce' = ce_name ce.

Lemma filled_match ce st : kind_matches ce st -> ce_match_stat (fill_stat_cache_info ce st) st = Ret 0.
Proof. intros Hk. apply ce_match_stat_cases. split; [exact Hk|by repeat split]. Qed.

Lemma refresh_entry_ok ce : entry_known ce -> state_of ce -> exists r, refresh_entry object_dir db ce = io_ret r /\
  match r with
  | inl _ => ~ fresh ce
  | inr ce' => fresh ce /\ same_entry ce ce' /\ exists st, wt_lstat (ce_name ce) = inr st /\ ce_match_stat ce' st = Ret 0
  end.
Proof.
  intros Hce [e He Hpos|st blob Hf]; unfold refresh_entry.
  { rewrite He. eexists. split; [reflexivity|]. intros (st&blob&(Hs&_)&_). congruence. }
  assert (Hone : fresh ce <-> same_file ce st blob).
  { split; [|by exists st, blob]. intros (st'&blob'&(Hs'&Hz'&Hd'&_)&Hsame). destruct Hf as (Hs&Hz&Hd&_).
    assert (st' = st) as -> by congruence. replace blob with blob'; [done|].
    destruct Hd as [(R1&O1&_)|(K1&O1)], Hd' as [(R2&O2&_)|(K2&O2)]; try congruence; by destruct (kind_excl (st_mode st)). }
  rewrite (proj1 Hf). destruct (kind_changed ce st (proj1 Hce)) as (changed&Em&Hk). rewrite Em. cbn [io_bind].
  destruct (Z.eqb_spec changed 0) as [->|Hc].
  { eexists. split; [reflexivity|]. cbv iota. rewrite Hone. split; [by left|]. split; [by repeat split|]. by exists st. }
  destruct (Z.eqb_spec (Z.land changed (Z.lor MODE_CHANGED TYPE_CHANGED)) 0) as [Hz|Hz]; cbn [negb].
  - apply Hk in Hz. destruct (compare_ok ce st blob Hce Hf Hz) as (c&Ec&Hc0).
    match goal with |- context [io_bind ?m _] => replace m with (io_ret c) by (symmetry; exact Ec) end. cbn [io_bind io_ret]. eexists. split; [reflexivity|].
    destruct (Z.eqb_spec c 0) as [->|Hne]; cbv iota; rewrite Hone.
    + split; [right; split; [done|by apply Hc0]|]. split; [by repeat split|]. exists st. split; [done|by apply filled_match].
    + intros [E|[_ E]]; [congruence|]. by apply Hne, Hc0.
  - eexists. split; [reflexivity|]. cbv iota. rewrite Hone. intros [E|[E _]]; [congruence|]. by apply Hz, Hk.
Qed.

(** An entry and what becomes of it. *)
Definition refreshed (ce ce' : cache_entry) : Prop :=
  (ce_stage ce = 0 /\ fresh ce /\ same_entry ce ce' /\ exists st, wt_lstat (ce_name ce) = inr st /\ ce_match_stat ce' st = Ret 0) \/
  ((ce_stage ce <> 0 \/ ~ fresh ce) /\ ce' = ce).

Lemma later_stage a b : ce_wf a -> ce_wf b -> ce_lt a b -> ce_name b = ce_name a -> ce_stage a <= ce_stage b.
Proof.
  intros [Fa _ _] [Fb _ _] Hlt Hn. unfold ce_lt, kcmp, ce_key in Hlt. cbn [fst snd] in Hlt. rewrite Hn, lexcmp_refl in Hlt. cbn in Hlt.
  rewrite Hn in Fb. destruct (Z.ltb_spec (ce_flags a) (ce_flags b)); [lia|]. destruct (ce_flags b <? ce_flags a); lia.
Qed.

Definition stale (ce : cache_entry) : Prop := ce_stage ce <> 0 \/ ~ fresh ce.

Lemma stale_kept ce : stale ce -> refreshed ce ce.
Proof. by right. Qed.

Lemma refresh_loop_ok o l : quiet o = false -> not_new o = false -> forall merging,
  index_ok l -> Forall (fun ce => ce_stage ce = 0 -> entry_known ce /\ state_of ce) l ->
  (forall n, merging = Some n -> Forall (fun ce => ce_name ce = n -> ce_stage ce <> 0) l) ->
  exists l' errs changed out, refresh_loop object_dir o db merging l = io_ret (l', errs, changed, out) /\ Forall2 refreshed l l' /\
    (errs = true -> Exists stale l) /\ Forall (fun ce => stale ce -> merging <> Some (ce_name ce) -> errs = true) l.
Proof.
  intros Hq Hnn. induction l as [|ce l IH]; intros merging Hok Hst Hm; cbn [refresh_loop].
  { exists [], false, false, []. split; [done|]. split; [constructor|]. split; [done|constructor]. }
  pose proof Hok as [Hwf Hs]. apply Forall_cons in Hst as [Hce Hst]. apply Forall_cons in Hwf as [Hw Hwf].
  apply StronglySorted_inv in Hs as [Hs HF]. assert (Hok' : index_ok l) by done.
  case_bool_decide as Hin; [|destruct (Z.eqb_spec (ce_stage ce) 0) as [H0|H0]; cbn [negb]].
  - destruct (IH merging Hok' Hst) as (l'&errs&changed&out&->&HF2&He1&He2).
    { intros n Hn. specialize (Hm n Hn). by apply Forall_cons in Hm as [_ Hm]. }
    cbn [io_bind io_ret]. eexists _, _, _, _. split; [reflexivity|]. split; [|split; [intros E; by right; apply He1|by constructor]].
    constructor; [|exact HF2]. apply stale_kept. left. specialize (Hm _ Hin). apply Forall_cons in Hm as [Hm _]. by apply Hm.
  - destruct (Hce H0) as [Hkn Hso]. destruct (refresh_entry_ok ce Hkn Hso) as (r&->&Hr). cbn [io_bind io_ret].
    destruct (IH None Hok' Hst) as (l'&errs&changed&out&->&HF2&He1&He2); [done|]. cbn [io_bind io_ret]. rewrite Hq, Hnn. cbn [andb orb].
    destruct r as [e|ce']; eexists _, _, _, _; (split; [reflexivity|]).
    + split; [constructor; [by apply stale_kept; right|done]|]. split; [intros _; left; by right|]. by constructor; [|apply Forall_true].
    + destruct Hr as (Hfr&Hrest). split; [constructor; [by left|done]|]. split; [intros E; by right; apply He1|].
      constructor; [by intros [|]|]. eapply Forall_impl; [exact He2|]. cbn. intros c Hc Hs' _. by apply Hc.
  - destruct (IH (Some (ce_name ce)) Hok' Hst) as (l'&errs&changed&out&->&HF2&He1&He2).
    { intros n [= <-]. rewrite Forall_forall in HF, Hwf |- *. intros c Hc Hn. pose proof (later_stage ce c Hw (Hwf c Hc) (HF c Hc) Hn).
      pose proof (wf_stage _ Hw). lia. }
    cbn [io_bind io_ret]. eexists _, _, _, _. split; [reflexivity|]. split; [constructor; [by apply stale_kept; left|done]|].
    split; [intros _; left; by left|]. by constructor; [|apply Forall_true].
Qed.

End Refreshing.

(** C14. --refresh renews exactly what is unchanged: every merged entry whose
    file has its kind and contents matches [lstat] afterwards, with the same
    name, mode and object; every other entry is left as it was; and the exit
    status tells whether there was one.  The index keeps its order. *)
Theorem refresh_cache_spec {D} {DB : ObjectDB D} (object_dir : bytes) {WT : WorkTree} (db : D) (o : opts) (i : index) :
  quiet o = false -> not_new o = false -> index_inv i ->
  Forall (fun ce => ce_stage ce = 0 -> entry_known db ce /\ state_of ce) (active_cache i) ->
  exists errs i' out, refresh_cache object_dir o db i = io_ret (errs, i', out) /\
    Forall2 (refreshed db) (active_cache i) (active_cache i') /\ index_inv i' /\
    (errs = true <-> exists ce, ce ∈ active_cache i /\ (ce_stage ce <> 0 \/ ~ fresh db ce)).
Proof.
  intros Hq Hn [Hok Hroom] Hst. unfold refresh_cache.
  destruct (refresh_loop_ok object_dir db o (active_cache i) Hq Hn None Hok Hst ltac:(done)) as (l'&errs&changed&out&->&HF2&He1&He2).
  cbn [io_bind io_ret]. eexists _, _, _. split; [reflexivity|]. cbn [active_cache]. split; [exact HF2|]. split.
  - split; cbn [active_cache]; [|unfold active_nr in *; cbn [active_cache active_alloc]; by rewrite <- (Forall2_length _ _ _ HF2)].
    apply (index_ok_same_keys (active_cache i)); [|exact Hok]. eapply Forall2_impl; [exact HF2|].
    intros ce ce' [(_&_&(_&_&Hf&Hnm)&_)|(_&->)]; done.
  - split.
    + intros E. apply He1, Exists_exists in E as (ce&?&?). by exists ce.
    + intros (ce&Hin&Hs). rewrite Forall_forall in He2. by apply (He2 ce Hin).
Qed.

(** ** The whole program, adding files *)

(** C13. git-update-cache --add of files and links that can be read, none of
    them below another or in the way of what the index has: the program ends
    well, and the index it writes, when it is read back, holds exactly what
    [index_after] says: for every path one entry with the name of its contents
    that matches [lstat]; every entry of another path; nothing else, but that
    the unmerged entries of a path stay if the index already had a merged one
    next to them.  It is in order, and the database has the contents and all it
    had.  Which paths are taken is [verify_path]'s decision: names like ".foo"
    are, against what the manual page says. *)
Theorem update_cache_adds {D} {DB : ObjectDB D} {inv : D -> Prop} {objs : list (bytes * bytes)} {Laws : ObjectDBLaws inv objs}
    (object_dir : bytes) {WT : WorkTree} (db : D) (write_ok : nat -> bool) (file : option bytes) (argv_end : bytes) (nr : Z) (oi : option index) (paths : list bytes) :
  let i := default {| active_cache := []; active_alloc := 0; active_cache_changed := false |} oi in
  read_cache None file = Ret (nr, oi) -> 0 <= nr -> index_inv i -> df_ok (active_cache i) ->
  active_nr i + Z.of_nat (length paths) < 2 ^ 30 -> Forall (fun ce => ce_storable ce /\ live ce) (active_cache i) -> inv db ->
  (forall p, p ∈ paths -> bytes_ok p /\ exists st blob, addable (objs := objs) p st blob) ->
  (forall p, p ∈ paths -> no_clash (active_cache i) p) -> (forall p q, p ∈ paths -> q ∈ paths -> apart p q) ->
  exists cache db',
    (forall p st blob, p ∈ paths -> readable (objs := objs) p st blob ->
       db_holds db' (str "blob", blob) /\
       exists ce, ce ∈ cache /\ ce_name ce = p /\ ce_stage ce = 0 /\ ce_sha1 ce = object_name (str "blob") blob /\ ce_match_stat ce st = Ret 0) /\
    (forall ce, ce ∈ cache <-> index_after (objs := objs) paths (active_cache i) ce) /\ index_ok cache /\ df_ok cache /\
    (forall o, o ∈ objs -> db_holds db o -> db_holds db' o) /\
    forall new, write_cache write_ok cache = Ret (Some new) -> Z.of_nat (length (index_body cache)) < 2 ^ 31 ->
      update_cache object_dir true true write_ok file argv_end db (str "--add" :: str "--" :: paths) = io_ret (0, [], new, db') /\
      exists i', read_cache None (Some new) = Ret (Z.of_nat (length cache), Some i') /\ active_cache i' = cache.
Proof.
  intros i Hread Hnr Hinv Hdf Hn Hst Hdb Hadd Hclash Hap.
  set (o := Build_opts true false false false false false false false).
  destruct (main_loop_added object_dir argv_end paths {| u_opts := o; u_index := i; u_db := db; u_errors := false; u_out := [] |})
    as (s'&Em&Had); try done; [intros p Hp; by apply Hadd|].
  pose proof Had as [_ [Hout Herr] [Hinv' Hdf'] Hnames Hent _ _ _ _ _ Hblobs Hkept]. cbn [u_out u_errors u_index u_db] in *.
  pose proof (added_exact _ _ _ Had (fun p Hp => proj2 (Hadd p Hp))) as Hexact.
  exists (active_cache (u_index s')), (u_db s'). split; [|split; [exact Hexact|split; [apply Hinv'|split; [exact Hdf'|split; [exact Hkept|]]]]].
  - intros p st blob Hp Hr. split; [by eapply Hblobs|]. exists (entry_of p st blob). split; [by apply Hent|]. split; [done|].
    destruct (Hadd p Hp) as (_&st'&blob'&_&Hl&_). split; [by apply entry_of_wf|]. split; [done|].
    apply entry_of_match. destruct (rd_data _ _ _ Hr) as [[? _]|[? _]]; auto.
  - intros new Hw Hsize.
    assert (Hall : Forall (fun ce => ce_storable ce /\ live ce) (active_cache (u_index s'))).
    { apply Forall_forall. intros ce Hce. rewrite Forall_forall in Hst. destruct (Hnames ce Hce) as [|(Hp&st&blob&Hr&->)]; [by apply Hst|].
      destruct (Hadd _ Hp) as (Hb&st'&blob'&Hv&Hl&_). by apply (entry_of_storable (objs := objs)). }
    assert (Hfl : filter live (active_cache (u_index s')) = active_cache (u_index s')).
    { apply filter_all. eapply Forall_impl; [exact Hall|]. by intros ce [_ ?]. }
    assert (Hfs : Forall ce_storable (filter live (active_cache (u_index s')))).
    { rewrite Hfl. eapply Forall_impl; [exact Hall|]. by intros ce [? _]. }
    split.
    + unfold update_cache. cbn [negb]. rewrite Hread. cbn [io_bind]. rewrite (proj2 (Z.ltb_ge _ _)) by done. fold i.
      match goal with |- context [main_loop ?d ?a ?s0 (_ :: _ :: ?ps)] =>
        change (main_loop d a s0 (str "--add" :: str "--" :: ps)) with (main_loop d a {| u_opts := o; u_index := i; u_db := db; u_errors := false; u_out := [] |} ps) end.
      rewrite Em. cbn [io_bind io_ret]. rewrite Hw. cbn [io_bind]. by rewrite Hout, Herr.
    + rewrite (proj2 (write_cache_read_back _ _ _ Hfs Hsize Hw)), Hfl. by eexists.
Qed.

(** ** Runs *)

Module UpdateDemo.

Definition a_stat (mode size : Z) : stat :=
  {| st_mode := mode; st_ctime := 5; st_mtime := 6; st_dev := 1; st_ino := 7; st_uid := 8; st_gid := 9; st_size := size |}.

Definition hello : bytes := str "hello".
Definition target : bytes := str "d/x".
Definition objs : list (bytes * bytes) := [(str "blob", hello); (str "blob", target)].

(** A program d/x and a link to it. *)
#[export] Instance tree : WorkTree := {
  wt_lstat p := if bool_decide (p ∈ [str "d/x"; str ".foo"]) then inr (a_stat 0x81ed 5) else if bool_decide (p = str "l") then inr (a_stat 0xa1ff 3)
                else if bool_decide (p = str "d") then inr (a_stat 0x41ed 4096) else inl ENOENT;
  wt_open p := if bool_decide (p ∈ [str "d/x"; str ".foo"]) then Some hello else None;
  wt_mmap _ := true;
  wt_readlink p := if bool_decide (p = str "l") then Some target else None;
}.

(** A database in memory. *)
#[export] Instance db : ObjectDB (list (bytes * bytes)) := {
  db_has s n := Ret (existsb (fun o => bool_decide (object_name o.1 o.2 = n)) s);
  db_read s n := io_ret (List.find (fun o => bool_decide (object_name o.1 o.2 = n)) s);
  db_nul _ _ := true; db_write s buf type := Ret (0, object_name type buf, if existsb (fun o => bool_decide (o = (type, buf))) s then s else s ++ [(type, buf)]);
}.

(** Only objects of the tree are in it. *)
Definition only_objs (s : list (bytes * bytes)) : Prop := forall o, o ∈ s -> o ∈ objs.

Lemma objs_names o o' : o ∈ objs -> o' ∈ objs -> object_name o.1 o.2 = object_name o'.1 o'.2 -> o = o'.
Proof.
  intros Ho Ho'. assert (H : Forall (fun o => Forall (fun o' : bytes * bytes => object_name o.1 o.2 = object_name o'.1 o'.2 -> o = o') objs) objs)
    by (apply (bool_decide_unpack _); vm_compute; exact I).
  rewrite Forall_forall in H. specialize (H o Ho). rewrite Forall_forall in H. by apply H.
Qed.

Lemma find_snoc {A} (f : A -> bool) l x : List.find f (l ++ [x]) = match List.find f l with Some y => Some y | None => if f x then Some x else None end.
Proof. induction l as [|y l IH]; cbn; [done|]. by destruct (f y). Qed.

Lemma find_only s n : only_objs s -> (forall o, o ∈ s -> object_name o.1 o.2 <> n) \/
  exists o, o ∈ s /\ object_name o.1 o.2 = n /\ db_has s n = Ret true /\ db_read s n = io_ret (Some o).
Proof.
  intros Hs. destruct (List.find (fun o => bool_decide (object_name o.1 o.2 = n)) s) as [o|] eqn:E; [right|left].
  - pose proof (find_some _ _ E) as [Hin Hn]. apply bool_decide_eq_true in Hn. apply list_elem_of_In in Hin. exists o.
    split; [done|]. split; [done|]. split; [|change (io_ret (List.find (fun o => bool_decide (object_name o.1 o.2 = n)) s) = io_ret (Some o)); by rewrite E].
    cbn. f_equal. apply existsb_exists. exists o.
    split; [by apply list_elem_of_In|by apply bool_decide_eq_true].
  - intros o Hin Hn. pose proof (find_none _ _ E o ltac:(by apply list_elem_of_In)) as Hf. cbn in Hf. by apply bool_decide_eq_false in Hf.
Qed.

#[export] Instance db_laws : ObjectDBLaws only_objs objs.
Proof.
  split.
  - exact objs_names.
  - intros o. revert o. apply Forall_forall, (bool_decide_unpack _). vm_compute. exact I.
  - intros s o Hs Ho. destruct (find_only s (object_name o.1 o.2) Hs) as [Hno|(o'&Hin&Hn&Hh&Hr)].
    + left. cbn. f_equal. apply not_true_iff_false. rewrite existsb_exists. intros (o'&Hin&Hn). apply bool_decide_eq_true in Hn.
      by apply (Hno o'); [apply list_elem_of_In|].
    + right. rewrite (objs_names o' o (Hs _ Hin) Ho Hn) in Hr. by split.
  - intros s o Hs Ho. cbn [db_write db]. rewrite <- surjective_pairing.
    set (s' := if existsb (fun o' => bool_decide (o' = o)) s then s else s ++ [o]). exists s'. split; [done|].
    assert (Hin : o ∈ s').
    { unfold s'. destruct (existsb _ s) eqn:E; [|apply elem_of_app; right; by apply list_elem_of_singleton].
      apply existsb_exists in E as (o'&Hin&E). apply bool_decide_eq_true in E as ->. by apply list_elem_of_In. }
    assert (Hs' : only_objs s').
    { unfold s'. destruct (existsb _ s); [done|]. intros x [Hx|Hx]%elem_of_app; [by apply Hs|]. apply list_elem_of_singleton in Hx as ->. done. }
    split; [done|]. split.
    + destruct (find_only s' (object_name o.1 o.2) Hs') as [Hno|(o'&Hin'&Hn&Hh&Hr)]; [by destruct (Hno o Hin)|].
      rewrite (objs_names o' o (Hs' _ Hin') Ho Hn) in Hr. by split.
    + intros n Hn Hne. unfold s'. destruct (existsb _ s); [done|]. cbn [db_has db_read db]. rewrite existsb_app, find_snoc. cbn [existsb].
      rewrite bool_decide_eq_false_2 by congruence. rewrite orb_false_r. by destruct (List.find _ s).
Qed.

Definition run (file : option bytes) (args : list bytes) : io (Z * bytes * bytes * list (bytes * bytes)) :=
  update_cache (str ".git/objects") true true (fun _ => true) file [] [] args.

Definition entries (file : bytes) : list (bytes * Z * Z) :=
  match read_cache None (Some file) with
  | Ret (_, Some i) => map (fun ce => (ce_name ce, ce_stage ce, ce_namelen ce)) (active_cache i)
  | _ => []
  end.

(** The manual page says that files beginning with "." are discarded; only "."
    and ".." and ".git" are. *)
Example dotfile_taken :
  (verify_path (str ".foo"), verify_path (str "d/.foo"), verify_path (str "./foo"), verify_path (str ".git/x")) = (true, true, false, false) /\
  match run None [str "--add"; str ".foo"] with
  | Some (Ret (status, out, new, s)) => (status, out, entries new) = (0, [], [(str ".foo", 0, 4)])
  | _ => False
  end.
Proof. split; vm_compute; reflexivity. Qed.

Example add_and_remove : match run None [str "--add"; str "l"; str "d/x"; str ".git/x"; str "--remove"; str "gone"] with
  | Some (Ret (status, out, new, s)) => (status, out, entries new, length s) = (0, [], [(str "d/x", 0, 3); (str "l", 0, 1)], 2%nat)
  | _ => False
  end.
Proof. vm_compute. reflexivity. Qed.

(** The length of the name is put into the flags as it is: a name of 4097 bytes
    given to --cacheinfo makes an entry of stage 1 whose name is its first byte. *)
Example cacheinfo_long_name :
  match run None [str "--add"; str "--cacheinfo"; str "100644"; sha1_to_hex (replicate 20 1); replicate 4097 97] with
  | Some (Ret (0, _, new, _)) => entries new = [([97], 1, 1)]
  | _ => False
  end.
Proof. vm_compute. reflexivity. Qed.

End UpdateDemo.

Lemma update_cache_adds_witness : exists cache s,
  db_holds (H := UpdateDemo.db) s (str "blob", UpdateDemo.hello) /\ index_ok cache /\
  exists ce, ce ∈ cache /\ ce_name ce = str "d/x" /\ ce_stage ce = 0 /\ ce_sha1 ce = object_name (str "blob") UpdateDemo.hello /\
    ce_match_stat ce (UpdateDemo.a_stat 0x81ed 5) = Ret 0.
Proof.
  destruct (update_cache_adds (DB := UpdateDemo.db) (Laws := UpdateDemo.db_laws) (WT := UpdateDemo.tree) (objs := UpdateDemo.objs) (inv := UpdateDemo.only_objs) (str ".git/objects") [] (fun _ => true) None [] 0 None [str "l"; str "d/x"])
    as (cache&s&Hpaths&_&Hok&_).
  - reflexivity.
  - lia.
  - split; [split; constructor|vm_compute; discriminate].
  - intros p q Hp. by apply elem_of_nil in Hp.
  - vm_compute. reflexivity.
  - constructor.
  - intros o Ho. by apply elem_of_nil in Ho.
  - intros p Hp. apply elem_of_cons in Hp as [->|Hp]; [|apply elem_of_cons in Hp as [->|Hp]; [|by apply elem_of_nil in Hp]];
      (split; [apply (bool_decide_unpack _); vm_compute; exact I|]).
    + exists (UpdateDemo.a_stat 0xa1ff 3), UpdateDemo.target. split; [reflexivity|]. split; [vm_compute; lia|].
      split; [reflexivity|reflexivity|right; split; reflexivity|right; left].
    + exists (UpdateDemo.a_stat 0x81ed 5), UpdateDemo.hello. split; [reflexivity|]. split; [vm_compute; lia|].
      split; [reflexivity|reflexivity|left; split; [reflexivity|split; [reflexivity|by right]]|left].
  - intros p _ x Hx. by apply elem_of_nil in Hx.
  - intros p q Hp Hq. assert (H : Forall (fun p => Forall (fun q => ~ under p q /\ ~ under q p) [str "l"; str "d/x"]) [str "l"; str "d/x"])
      by (apply (bool_decide_unpack _); vm_compute; exact I).
    rewrite Forall_forall in H. specialize (H p Hp). rewrite Forall_forall in H. by apply H.
  - exists cache, s. destruct (Hpaths (str "d/x") (UpdateDemo.a_stat 0x81ed 5) UpdateDemo.hello) as [Hh Hce]; [right; left| |].
    + split; [reflexivity|reflexivity|left; split; [reflexivity|split; [reflexivity|by right]]|left].
    + split; [exact Hh|]. split; [exact Hok|exact Hce].
Defined.

Definition stale_index : index := {| active_cache := [set_ce (blank_entry (str "d/x")) 0x81ed (object_name (str "blob") UpdateDemo.hello);
  set_ce (blank_entry (str "gone")) 0x81a4 (object_name (str "blob") UpdateDemo.hello)]; active_alloc := 24; active_cache_changed := false |}.

Lemma refresh_cache_spec_witness : exists errs i' out,
  refresh_cache (DB := UpdateDemo.db) (WT := UpdateDemo.tree) (str ".git/objects") (Build_opts false false false false false false false true) [(str "blob", UpdateDemo.hello)] stale_index = io_ret (errs, i', out) /\
  Forall2 (refreshed (DB := UpdateDemo.db) (WT := UpdateDemo.tree) [(str "blob", UpdateDemo.hello)]) (active_cache stale_index) (active_cache i') /\ index_inv i'.
Proof.
  destruct (refresh_cache_spec (DB := UpdateDemo.db) (WT := UpdateDemo.tree) (str ".git/objects") [(str "blob", UpdateDemo.hello)] (Build_opts false false false false false false false true) stale_index)
    as (errs&i'&out&E&HF&Hi&_).
  - reflexivity.
  - reflexivity.
  - split; [apply (bool_decide_unpack _); vm_compute; exact I|vm_compute; discriminate].
  - assert (Hk : forall n m, m = 0x81ed \/ m = 0x81a4 ->
      entry_known (DB := UpdateDemo.db) [(str "blob", UpdateDemo.hello)] (set_ce (blank_entry n) m (object_name (str "blob") UpdateDemo.hello))).
    { intros n m Hm. split; [left; destruct Hm as [->| ->]; reflexivity|]. split; [reflexivity|]. exists UpdateDemo.hello. reflexivity. }
    constructor; [|constructor; [|constructor]]; intros _; (split; [apply Hk; auto|]).
    + apply (Present (WT := UpdateDemo.tree) _ (UpdateDemo.a_stat 0x81ed 5) UpdateDemo.hello). split; [reflexivity|]. split; [reflexivity|].
      split; [left; split; [reflexivity|split; reflexivity]|]. split; [apply (bool_decide_unpack _); vm_compute; exact I|vm_compute; reflexivity].
    + apply (Missing (WT := UpdateDemo.tree) _ 2); [reflexivity|lia].
  - exists errs, i', out. split; [exact E|]. split; [exact HF|exact Hi].
Defined.
