(* ===== verification/DiffTree.v ===== *)
(** * git-diff-tree

    diff-tree.c: the comparison of two tree objects entry by entry, down into
    the directories that differ, and of diff.c the queue of pairs of files it
    fills.  [diff_trees_spec] says that the pairs are the difference of the
    lists of files the two trees stand for (Tree.v). *)

From stdpp Require Import base list numbers strings sorting.
From Stdlib Require Import ZArith Lia.
From S2P Require Import Prelude Hex CacheEntry Index CsumFile Zlib CString ObjectHeader ObjectStore ObjectDB Tree.

(** ** The queue of diff.c *)

(** [sha1_valid] has no value before [fill_filespec]; [data] is NULL at first,
    and [size] is its length. *)
Record filespec := { fs_path : bytes; fs_mode : Z; fs_sha1 : bytes; fs_sha1_valid : option bool; fs_data : option bytes }.

(** [score] has 16 bits; [status] is a character, or 0. *)
Record filepair := {
  fp_one : filespec;
  fp_two : filespec;
  fp_score : Z;
  fp_status : Z;
  fp_source_stays : bool;
  fp_broken_pair : bool;
}.

Definition fp_path (p : filepair) : bytes := fs_path (fp_two p).

#[export] Instance filespec_eq_dec : EqDecision filespec.
Proof. solve_decision. Defined.
#[export] Instance filepair_eq_dec : EqDecision filepair.
Proof. solve_decision. Defined.

Definition canon_mode (mode : Z) : Z :=
  if S_ISREG mode then Z.lor S_IFREG (ce_permissions mode) else if S_ISLNK mode then S_IFLNK else S_IFDIR.

Definition alloc_filespec (path : bytes) : filespec :=
  {| fs_path := path; fs_mode := 0; fs_sha1 := replicate 20 0; fs_sha1_valid := None; fs_data := None |}.

Definition fill_filespec (spec : filespec) (sha1 : bytes) (mode : Z) : filespec :=
  let mode := u16 mode in
  if mode =? 0 then spec
  else {| fs_path := fs_path spec; fs_mode := canon_mode mode; fs_sha1 := sha1;
          fs_sha1_valid := Some (negb (memcmp 20 sha1 (replicate 20 0) =? 0)); fs_data := fs_data spec |}.

(** [diff_queue] before it puts the pair behind the queue. *)
Definition new_pair (one two : filespec) : filepair :=
  {| fp_one := one; fp_two := two; fp_score := 0; fp_status := 0; fp_source_stays := false; fp_broken_pair := false |}.

Definition diff_queue (queue : list filepair) (one two : filespec) : list filepair := queue ++ [new_pair one two].

(** [sprintf] into [concatpath[PATH_MAX]]. *)
Definition concat_path (base path : bytes) : outcome bytes :=
  if (4096 <=? length (base ++ path))%nat then Ub else Ret (base ++ path).

Record opts := {
  recursive : bool;
  show_tree_entry_in_recursive : bool;
  find_copies_harder : bool;
  reverse_diff : bool;
  paths : list bytes;
}.

Section Code.
Context (o : opts).

Definition diff_addremove (queue : list filepair) (addremove : Z) (mode : Z) (sha1 base path : bytes) : outcome (list filepair) :=
  let addremove := if reverse_diff o then (if addremove =? 43 then 45 else if addremove =? 45 then 43 else addremove) else addremove in
  concatpath ← concat_path base path;
  let one := alloc_filespec concatpath in
  let two := alloc_filespec concatpath in
  let one := if negb (addremove =? 43) then fill_filespec one sha1 mode else one in
  let two := if negb (addremove =? 45) then fill_filespec two sha1 mode else two in
  Ret (diff_queue queue one two).

Definition diff_change (queue : list filepair) (old_mode new_mode : Z) (old_sha1 new_sha1 base path : bytes) : outcome (list filepair) :=
  let '(old_mode, new_mode, old_sha1, new_sha1) :=
    if reverse_diff o then (new_mode, old_mode, new_sha1, old_sha1) else (old_mode, new_mode, old_sha1, new_sha1) in
  concatpath ← concat_path base path;
  Ret (diff_queue queue (fill_filespec (alloc_filespec concatpath) old_sha1 old_mode) (fill_filespec (alloc_filespec concatpath) new_sha1 new_mode)).

(** ** Entries of a tree *)

Definition update_tree_entry (buf : bytes) : outcome bytes :=
  let len := (length (cstr buf) + 1 + 20)%nat in
  if (length buf <? len)%nat then Die else Ret (drop len buf).

(** The path, the mode and the SHA-1. *)
Definition extract (tree : bytes) : outcome (bytes * Z * bytes) :=
  let len := (length (cstr tree) + 1)%nat in
  match strchr tree 32 with
  | None => Die
  | Some k =>
      if (length tree <? len + 20)%nat then Die
      else match sscanf_o tree with
           | None => Die
           | Some mode => Ret (cstr (drop (k + 1) tree), canon_mode mode, slice len 20 tree)
           end
  end.

Definition malloc_base (base path : bytes) : bytes := base ++ path ++ [47].

(** One turn of the loop of [interesting]; strings without NULs, so that
    [strncmp] is 0 when [memcmp] is. *)
Definition path_matches (base path : bytes) (mode : Z) (match_ : bytes) : bool :=
  let baselen := length base in let pathlen := length path in let matchlen := length match_ in
  if (matchlen <=? baselen)%nat then memcmp matchlen base match_ =? 0
  else if negb (memcmp baselen base match_ =? 0) then false
  else
    let match_ := drop baselen match_ in
    let matchlen := (matchlen - baselen)%nat in
    if (matchlen <? pathlen)%nat then false
    else if (pathlen <? matchlen)%nat && (negb (nth pathlen match_ 0 =? 47) || negb (S_ISDIR mode)) then false
    else memcmp pathlen path match_ =? 0.

Definition interesting (tree base : bytes) : outcome bool :=
  match paths o with
  | [] => Ret true
  | _ => '(path, mode, _) ← extract tree; Ret (existsb (path_matches base path mode) (paths o))
  end.

Section Trees.
Context {D} {DB : ObjectDB D} (db : D).

(** As [read_object_with_reference] of sha1_file.c; a loop, one object per
    unit of fuel. *)
Fixpoint read_object_with_reference (fuel : nat) (sha1 required_type : bytes) : io (option bytes) :=
  match fuel with
  | O => None
  | S fuel =>
      r <- db_read db sha1 ;;
      match r with
      | None => io_ret None
      | Some (type, buffer) =>
          if bool_decide (cstr type = required_type) then io_ret (Some buffer)
          else
            let ref_type :=
              if bool_decide (cstr type = str "commit") then Some (str "tree ")
              else if bool_decide (cstr type = str "tag") then Some (str "object ")
              else None in
            match ref_type with
            | None => io_ret None
            | Some ref =>
                let buf := buffer ++ [0] in
                if negb (memcmp (length ref) buf ref =? 0) then io_ret None
                else
                  g <- Some (get_sha1_hex (drop (length ref) buf)) ;;
                  let '(bad, actual) := g in
                  if negb (bad =? 0) then io_ret None else read_object_with_reference fuel actual required_type
            end
      end
  end.

(** A file that went away or appeared; [show_tree] is the recursive call. *)
Definition show_file (show_tree : bytes -> bytes -> list filepair -> io (list filepair)) (prefix : Z) (tree base : bytes) (q : list filepair) : io (list filepair) :=
  e <- Some (extract tree) ;;
  let '(path, mode, sha1) := e in
  if recursive o && S_ISDIR mode then
    r <- db_read db sha1 ;;
    match r with
    | Some (type, tree) => if bool_decide (cstr type = str "tree") then show_tree tree (malloc_base base path) q else Some Die
    | None => Some Die
    end
  else Some (diff_addremove q prefix mode sha1 base path).

(** [while (size)] *)
Fixpoint show_tree (fuel : nat) (prefix : Z) (tree base : bytes) (q : list filepair) : io (list filepair) :=
  match fuel with
  | O => None
  | S fuel =>
      if (length tree =? 0)%nat then io_ret q
      else
        i <- Some (interesting tree base) ;;
        q <- (if i : bool then show_file (show_tree fuel prefix) prefix tree base q else io_ret q) ;;
        tree <- Some (update_tree_entry tree) ;;
        show_tree fuel prefix tree base q
  end.

(** [diff_tree_sha1] is the recursive call. *)
Definition compare_tree_entry (fuel : nat) (diff_tree_sha1 : bytes -> bytes -> bytes -> list filepair -> io (list filepair))
    (tree1 tree2 base : bytes) (q : list filepair) : io (Z * list filepair) :=
  e1 <- Some (extract tree1) ;;
  e2 <- Some (extract tree2) ;;
  let '(path1, mode1, sha1) := e1 in
  let '(path2, mode2, sha2) := e2 in
  let cmp := base_name_compare path1 (length path1) mode1 path2 (length path2) mode2 in
  let shown prefix tree q := show_file (show_tree fuel prefix) prefix tree base q in
  if cmp <? 0 then q <- shown 45 tree1 q ;; io_ret (-1, q)
  else if 0 <? cmp then q <- shown 43 tree2 q ;; io_ret (1, q)
  else if negb (find_copies_harder o) && (memcmp 20 sha1 sha2 =? 0) && (mode1 =? mode2) then io_ret (0, q)
  else if negb (eqb (S_ISDIR mode1) (S_ISDIR mode2)) then q <- shown 45 tree1 q ;; q <- shown 43 tree2 q ;; io_ret (0, q)
  else if recursive o && S_ISDIR mode1 then
    q <- (if show_tree_entry_in_recursive o then Some (diff_change q mode1 mode2 sha1 sha2 base path1) else io_ret q) ;;
    q <- diff_tree_sha1 sha1 sha2 (malloc_base base path1) q ;;
    io_ret (0, q)
  else q <- Some (diff_change q mode1 mode2 sha1 sha2 base path1) ;; io_ret (0, q).

(** [diff_tree_sha1] with [diff_tree] as the recursive call. *)
Definition diff_tree_sha1_of (fuel : nat) (diff_tree : bytes -> bytes -> bytes -> list filepair -> io (list filepair)) (old new base : bytes) (q : list filepair)
    : io (list filepair) :=
  t1 <- read_object_with_reference fuel old (str "tree") ;;
  match t1 with
  | None => Some Die
  | Some tree1 =>
      t2 <- read_object_with_reference fuel new (str "tree") ;;
      match t2 with
      | None => Some Die
      | Some tree2 => diff_tree tree1 tree2 base q
      end
  end.

(** [while (size1 | size2)]; the value is always 0. *)
Fixpoint diff_tree (fuel : nat) (tree1 tree2 base : bytes) (q : list filepair) : io (list filepair) :=
  match fuel with
  | O => None
  | S fuel =>
      let empty1 := (length tree1 =? 0)%nat in
      let empty2 := (length tree2 =? 0)%nat in
      if empty1 && empty2 then io_ret q
      else
        i1 <- (if empty1 then io_ret true else Some (interesting tree1 base)) ;;
        if negb i1 then tree1 <- Some (update_tree_entry tree1) ;; diff_tree fuel tree1 tree2 base q
        else
          i2 <- (if empty2 then io_ret true else Some (interesting tree2 base)) ;;
          if negb i2 then tree2 <- Some (update_tree_entry tree2) ;; diff_tree fuel tree1 tree2 base q
          else if empty1 then
            q <- show_file (show_tree fuel 43) 43 tree2 base q ;;
            tree2 <- Some (update_tree_entry tree2) ;; diff_tree fuel tree1 tree2 base q
          else if empty2 then
            q <- show_file (show_tree fuel 45) 45 tree1 base q ;;
            tree1 <- Some (update_tree_entry tree1) ;; diff_tree fuel tree1 tree2 base q
          else
            c <- compare_tree_entry fuel (diff_tree_sha1_of fuel (diff_tree fuel)) tree1 tree2 base q ;;
            let '(c, q) := c in
            tree1 <- (if c <=? 0 then Some (update_tree_entry tree1) else io_ret tree1) ;;
            tree2 <- (if 0 <=? c then Some (update_tree_entry tree2) else io_ret tree2) ;;
            diff_tree fuel tree1 tree2 base q
  end.

Definition diff_tree_sha1 (fuel : nat) : bytes -> bytes -> bytes -> list filepair -> io (list filepair) := diff_tree_sha1_of fuel (diff_tree fuel).

(** Without the calls around it that set the queue up and print it. *)
Definition diff_root_tree (fuel : nat) (new base : bytes) (q : list filepair) : io (list filepair) :=
  t <- read_object_with_reference fuel new (str "tree") ;;
  match t with
  | None => Some Die
  | Some tree => diff_tree fuel [] tree base q
  end.

End Trees.

End Code.

(** It is the function of sha1_file.c, less the name it found. *)
Lemma read_with_reference_store `{ZlibLaws} (sys : os) (malloc_ok : Z -> bool) (flag : bool) (db : odb) required_type : forall fuel sha1,
  read_object_with_reference (DB := odb_db sys malloc_ok flag) db fuel sha1 required_type =
  (r <- ObjectStore.read_object_with_reference sys malloc_ok fuel flag db sha1 required_type ;; io_ret (option_map snd r)).
Proof.
  induction fuel as [|fuel IH]; intros sha1; [done|].
  cbn [read_object_with_reference ObjectStore.read_object_with_reference db_read odb_db].
  destruct (read_sha1_file _ _ _ _ _) as [[[[type buffer]|]| |]|]; cbn [io_bind io_ret option_map]; try done.
  destruct (bool_decide (cstr type = required_type)); [done|].
  destruct (if bool_decide (cstr type = str "commit") then _ else _) as [ref|]; [|done].
  destruct (negb _); [done|]. destruct (get_sha1_hex _) as [[bad actual]| |]; cbn [io_bind]; [|done|done].
  destruct (negb _); [done|]. apply IH.
Qed.

(** ** The order of entries *)

(** An entry stands for its name, or for everything below its name and a
    slash. *)
Definition suffix_of (mode : Z) : bytes := if S_ISDIR mode then [47] else [].

Lemma base_name_compare_keys n1 m1 n2 m2 :
  component n1 -> component n2 -> bytes_ok n1 -> bytes_ok n2 ->
  base_name_compare n1 (length n1) m1 n2 (length n2) m2 = lexcmp (n1 ++ suffix_of m1) (n2 ++ suffix_of m2).
Proof.
  intros C1 C2 B1 B2. unfold base_name_compare, suffix_of.
  assert (Hmin : (if (length n1 <? length n2)%nat then length n1 else length n2) = (length n1 `min` length n2)%nat).
  { destruct (Nat.ltb_spec (length n1) (length n2)); lia. }
  rewrite Hmin. clear Hmin. destruct C1 as [S1 Z1], C2 as [S2 Z2].
  revert n2 S2 Z2 B2. induction n1 as [|x n1 IH]; intros [|y n2] S2 Z2 B2; cbn [length Nat.min memcmp negb Z.eqb head default tail app id].
  - destruct (S_ISDIR m1), (S_ISDIR m2); reflexivity.
  - apply not_elem_of_cons in S2 as [S2 _], Z2 as [Z2 _]. apply bytes_ok_cons in B2 as [B2 _]. unfold is_byte in B2. unfold name_char. cbn.
    destruct (Z.eqb_spec y 0); [congruence|]. cbn [andb]. destruct (S_ISDIR m1); cbn [lexcmp].
    + destruct (Z.ltb_spec 47 y), (Z.ltb_spec y 47); try done; lia.
    + destruct (Z.ltb_spec 0 y); [done|lia].
  - apply not_elem_of_cons in S1 as [S1 _], Z1 as [Z1 _]. apply bytes_ok_cons in B1 as [B1 _]. unfold is_byte in B1. unfold name_char. cbn.
    destruct (Z.eqb_spec x 0); [congruence|]. cbn [andb]. destruct (S_ISDIR m2); cbn [lexcmp].
    + destruct (Z.ltb_spec x 47), (Z.ltb_spec 47 x); try done; lia.
    + destruct (Z.ltb_spec x 0); [lia|]. destruct (Z.ltb_spec 0 x); [done|lia].
  - apply not_elem_of_cons in S1 as [_ S1], Z1 as [_ Z1], S2 as [_ S2], Z2 as [_ Z2]. apply bytes_ok_cons in B1 as [_ B1], B2 as [_ B2].
    cbn [lexcmp id]. destruct (x <? y); [done|]. destruct (y <? x); [done|]. unfold name_char in *. cbn [lookup list_lookup]. by apply IH.
Qed.

Lemma lexcmp_app_l p a b : lexcmp (p ++ a) (p ++ b) = lexcmp a b.
Proof. induction p as [|x p IH]; [done|]. cbn. by rewrite Z.ltb_irrefl. Qed.

Lemma lexcmp_app_r a b r : lexcmp a b < 0 -> lexcmp a (b ++ r) < 0.
Proof.
  revert b; induction a as [|x a IH]; intros [|y b]; cbn; [done|done|done|].
  destruct (x <? y); [done|]. destruct (y <? x); [done|]. apply IH.
Qed.

Lemma lexcmp_longer k r : r <> [] -> lexcmp k (k ++ r) < 0.
Proof. intros Hr. rewrite <- (app_nil_r k) at 1. rewrite lexcmp_app_l. by destruct r. Qed.

(** What is below [k] stays before what is behind it. *)
Lemma block_below k r r' x : lexcmp (k ++ r) x < 0 -> r <> [] -> ~ inside k x -> lexcmp (k ++ r') x < 0.
Proof.
  intros Hlt Hr Hin. pose proof (lexcmp_trans k (k ++ r) x (lexcmp_longer k r Hr) Hlt) as Hk.
  apply lexcmp_no_prefix; [exact Hk|]. intros [s ->]. apply Hin. split; [by eexists|]. rewrite length_app.
  destruct s; [|simpl; lia]. rewrite app_nil_r in Hlt. pose proof (lexcmp_longer k r Hr) as H2. rewrite lexcmp_opp in H2. lia.
Qed.

(** Blocks are in the order of their keys. *)
Lemma keys_apart n1 m1 n2 m2 r1 r2 : component n1 -> component n2 -> (r1 = [] \/ S_ISDIR m1 = true) ->
  lexcmp (n1 ++ suffix_of m1) (n2 ++ suffix_of m2) < 0 -> lexcmp ((n1 ++ suffix_of m1) ++ r1) ((n2 ++ suffix_of m2) ++ r2) < 0.
Proof.
  intros [C1 _] [C2 _] Hr Hlt. apply lexcmp_app_r. destruct Hr as [->|Hd]; [by rewrite app_nil_r|].
  apply lexcmp_no_prefix; [done|]. unfold suffix_of in *. rewrite Hd in *. intros [s E].
  destruct (S_ISDIR m2); [|rewrite app_nil_r in E; subst n2; apply C2; rewrite !elem_of_app; left; right; by left].
  destruct s as [|z s _] using rev_ind.
  - rewrite app_nil_r in E. rewrite E, lexcmp_refl in Hlt. done.
  - rewrite app_assoc in E. apply app_inj_tail in E as [-> _]. apply C2. rewrite !elem_of_app. left. right. by left.
Qed.

Lemma keys_equal n1 m1 n2 m2 : component n1 -> component n2 -> n1 ++ suffix_of m1 = n2 ++ suffix_of m2 -> n1 = n2 /\ S_ISDIR m1 = S_ISDIR m2.
Proof.
  intros [C1 _] [C2 _]. unfold suffix_of. destruct (S_ISDIR m1), (S_ISDIR m2); rewrite ?app_nil_r.
  - intros E. by apply app_inj_tail in E as [-> _].
  - intros <-. exfalso. apply C2. rewrite elem_of_app. right. by left.
  - intros ->. exfalso. apply C1. rewrite elem_of_app. right. by left.
  - done.
Qed.

(** ** The difference of two lists of files *)

Definition leaf_lt (a b : leaf) : Prop := lexcmp (leaf_path a) (leaf_path b) < 0.

Definition spec_of (l : leaf) : filespec :=
  {| fs_path := leaf_path l; fs_mode := l.1.2; fs_sha1 := l.2; fs_sha1_valid := Some (negb (memcmp 20 l.2 (replicate 20 0) =? 0)); fs_data := None |}.
Definition removed (l : leaf) : filepair := new_pair (spec_of l) (alloc_filespec (leaf_path l)).
Definition added (l : leaf) : filepair := new_pair (alloc_filespec (leaf_path l)) (spec_of l).
Definition changed (a b : leaf) : filepair := new_pair (spec_of a) (spec_of b).
Definition change_of (a b : leaf) : list filepair := if decide (a = b) then [] else [changed a b].

(** Files in one list only, and those of one path that differ, in the order of
    the paths. *)
Fixpoint diff_leaves (l1 : list leaf) : list leaf -> list filepair :=
  fix go l2 :=
    match l1, l2 with
    | [], _ => map added l2
    | _, [] => map removed l1
    | a :: l1', b :: l2' =>
        let c := lexcmp (leaf_path a) (leaf_path b) in
        if c <? 0 then removed a :: diff_leaves l1' l2
        else if 0 <? c then added b :: go l2'
        else change_of a b ++ diff_leaves l1' l2'
    end.

Lemma diff_nil_l l : diff_leaves [] l = map added l.
Proof. by destruct l. Qed.
Lemma diff_nil_r l : diff_leaves l [] = map removed l.
Proof. by destruct l. Qed.
Lemma diff_cons a l1 b l2 : diff_leaves (a :: l1) (b :: l2) =
  if lexcmp (leaf_path a) (leaf_path b) <? 0 then removed a :: diff_leaves l1 (b :: l2)
  else if 0 <? lexcmp (leaf_path a) (leaf_path b) then added b :: diff_leaves (a :: l1) l2
  else change_of a b ++ diff_leaves l1 l2.
Proof. reflexivity. Qed.

Lemma diff_removed b1 r1 l2 : (forall x y, x ∈ b1 -> y ∈ l2 -> leaf_lt x y) -> diff_leaves (b1 ++ r1) l2 = map removed b1 ++ diff_leaves r1 l2.
Proof.
  induction b1 as [|a b1 IH]; intros Hlt; [done|]. destruct l2 as [|b l2]; [rewrite !diff_nil_r; apply map_app|].
  cbn [app map]. rewrite diff_cons. assert (Hab : leaf_lt a b) by (apply Hlt; by left). unfold leaf_lt in Hab.
  rewrite (proj2 (Z.ltb_lt _ _)) by done. f_equal. apply IH. intros x y Hx Hy. apply Hlt; [by right|done].
Qed.

Lemma diff_added b2 r2 l1 : (forall y x, y ∈ b2 -> x ∈ l1 -> leaf_lt y x) -> diff_leaves l1 (b2 ++ r2) = map added b2 ++ diff_leaves l1 r2.
Proof.
  induction b2 as [|b b2 IH]; intros Hlt; [done|]. destruct l1 as [|a l1]; [rewrite !diff_nil_l; apply map_app|].
  cbn [app map]. rewrite diff_cons. assert (Hab : leaf_lt b a) by (apply Hlt; by left). unfold leaf_lt in Hab. rewrite lexcmp_opp in Hab.
  rewrite (proj2 (Z.ltb_ge _ _)), (proj2 (Z.ltb_lt _ _)) by lia. f_equal. apply IH. intros x y Hx Hy. apply Hlt; [by right|done].
Qed.

Lemma diff_blocks b1 r1 : forall b2 r2, (forall x y, x ∈ b1 -> y ∈ r2 -> leaf_lt x y) -> (forall y x, y ∈ b2 -> x ∈ r1 -> leaf_lt y x) ->
  diff_leaves (b1 ++ r1) (b2 ++ r2) = diff_leaves b1 b2 ++ diff_leaves r1 r2.
Proof.
  induction b1 as [|a b1 IH1]; intros b2 r2 H1 H2; [cbn [app]; rewrite diff_nil_l; by apply diff_added|].
  induction b2 as [|b b2 IH2]; [cbn [app]; rewrite diff_nil_r; by apply (diff_removed (a :: b1))|].
  cbn [app]. rewrite !diff_cons. destruct (_ <? 0); [|destruct (0 <? _)].
  - cbn [app]. f_equal. apply (IH1 (b :: b2)); [|done]. intros x y Hx. apply H1. by right.
  - cbn [app]. f_equal. apply IH2. intros y x Hy. apply H2. by right.
  - rewrite <- app_assoc. f_equal. apply IH1; intros x y Hx; [apply H1|apply H2]; by right.
Qed.

Lemma diff_same l : diff_leaves l l = [].
Proof. induction l as [|a l IH]; [done|]. rewrite diff_cons, lexcmp_refl. cbn. unfold change_of. by rewrite decide_True. Qed.

(** What a pair of the difference says. *)
Inductive differs (l1 l2 : list leaf) : filepair -> Prop :=
| differs_removed a : a ∈ l1 -> leaf_path a ∉ map leaf_path l2 -> differs l1 l2 (removed a)
| differs_added b : b ∈ l2 -> leaf_path b ∉ map leaf_path l1 -> differs l1 l2 (added b)
| differs_changed a b : a ∈ l1 -> b ∈ l2 -> leaf_path a = leaf_path b -> a <> b -> differs l1 l2 (changed a b).

Lemma leaf_lt_ne a b : leaf_lt a b -> leaf_path a <> leaf_path b.
Proof. unfold leaf_lt. intros H E. by rewrite E, lexcmp_refl in H. Qed.

Lemma leaf_lt_notin a l : (forall y, y ∈ l -> leaf_lt a y) -> leaf_path a ∉ map leaf_path l.
Proof. intros H (y&E&Hy)%list_elem_of_In%in_map_iff. apply list_elem_of_In in Hy. by destruct (leaf_lt_ne a y (H y Hy)). Qed.

Lemma sorted_head a l : StronglySorted leaf_lt (a :: l) -> StronglySorted leaf_lt l /\ forall y, y ∈ l -> leaf_lt a y.
Proof. intros [Hs HF]%StronglySorted_inv. by rewrite Forall_forall in HF. Qed.

Lemma sorted_below a b l : leaf_lt a b -> StronglySorted leaf_lt (b :: l) -> forall y, y ∈ b :: l -> leaf_lt a y.
Proof. intros Hab [_ H]%sorted_head y [->|Hy]%elem_of_cons; [done|]. eapply lexcmp_trans; [exact Hab|by apply H]. Qed.

Lemma differs_skip_l a l1 l2 p : (forall y, y ∈ l2 -> leaf_lt a y) -> differs (a :: l1) l2 p <-> p = removed a \/ differs l1 l2 p.
Proof.
  intros Ha. split.
  - intros [x Hx Hn|x Hx Hn|x y Hx Hy E Hne].
    + apply elem_of_cons in Hx as [->|Hx]; [by left|]. right. by constructor.
    + right. constructor; [done|]. intros Hin. apply Hn. by right.
    + right. apply elem_of_cons in Hx as [->|Hx]; [|by constructor]. by destruct (leaf_lt_ne _ _ (Ha _ Hy)).
  - intros [->|[x Hx Hn|x Hx Hn|x y Hx Hy E Hne]].
    + constructor; [by left|by apply leaf_lt_notin].
    + constructor; [by right|done].
    + constructor; [done|]. cbn [map]. intros [E|Hin]%elem_of_cons; [|done]. by destruct (leaf_lt_ne _ _ (Ha _ Hx)).
    + constructor; try done. by right.
Qed.

Lemma differs_skip_r b l1 l2 p : (forall x, x ∈ l1 -> leaf_lt b x) -> differs l1 (b :: l2) p <-> p = added b \/ differs l1 l2 p.
Proof.
  intros Hb. split.
  - intros [x Hx Hn|x Hx Hn|x y Hx Hy E Hne].
    + right. constructor; [done|]. intros Hin. apply Hn. by right.
    + apply elem_of_cons in Hx as [->|Hx]; [by left|]. right. by constructor.
    + right. apply elem_of_cons in Hy as [->|Hy]; [|by constructor]. by destruct (leaf_lt_ne _ _ (Hb _ Hx)).
  - intros [->|[x Hx Hn|x Hx Hn|x y Hx Hy E Hne]].
    + constructor; [by left|by apply leaf_lt_notin].
    + constructor; [done|]. cbn [map]. intros [E|Hin]%elem_of_cons; [|done]. by destruct (leaf_lt_ne _ _ (Hb _ Hx)).
    + constructor; [by right|done].
    + constructor; try done. by right.
Qed.

Lemma differs_both a b l1 l2 p : leaf_path a = leaf_path b -> (forall x, x ∈ l1 -> leaf_lt a x) -> (forall y, y ∈ l2 -> leaf_lt b y) ->
  differs (a :: l1) (b :: l2) p <-> p ∈ change_of a b \/ differs l1 l2 p.
Proof.
  intros E Ha Hb.
  assert (Ha2 : forall y, y ∈ l2 -> leaf_lt a y) by (unfold leaf_lt in *; rewrite E; done).
  assert (Hb1 : forall x, x ∈ l1 -> leaf_lt b x) by (unfold leaf_lt in *; rewrite <- E; done).
  assert (Hch : p ∈ change_of a b <-> a <> b /\ p = changed a b).
  { unfold change_of. destruct (decide (a = b)) as [->|Hne]; [by rewrite elem_of_nil; intuition|]. rewrite list_elem_of_singleton. intuition. }
  rewrite Hch. split.
  - intros [x Hx Hn|x Hx Hn|x y Hx Hy Exy Hne].
    + cbn [map] in Hn. apply not_elem_of_cons in Hn as [Hnb Hn]. apply elem_of_cons in Hx as [->|Hx]; [done|]. right. by constructor.
    + cbn [map] in Hn. apply not_elem_of_cons in Hn as [Hna Hn]. apply elem_of_cons in Hx as [->|Hx]; [done|]. right. by constructor.
    + apply elem_of_cons in Hx as [->|Hx], Hy as [->|Hy].
      * by left.
      * by destruct (leaf_lt_ne _ _ (Ha2 _ Hy)).
      * by destruct (leaf_lt_ne _ _ (Hb1 _ Hx)).
      * right. by constructor.
  - intros [[Hne ->]|[x Hx Hn|x Hx Hn|x y Hx Hy Exy Hne]].
    + constructor; try done; by left.
    + constructor; [by right|]. cbn [map]. intros [Ex|Hin]%elem_of_cons; [|done]. by destruct (leaf_lt_ne _ _ (Hb1 _ Hx)).
    + constructor; [by right|]. cbn [map]. intros [Ex|Hin]%elem_of_cons; [|done]. by destruct (leaf_lt_ne _ _ (Ha2 _ Hx)).
    + constructor; try done; by right.
Qed.

Lemma diff_leaves_elem l1 : forall l2 p, StronglySorted leaf_lt l1 -> StronglySorted leaf_lt l2 -> p ∈ diff_leaves l1 l2 <-> differs l1 l2 p.
Proof.
  induction l1 as [|a l1 IH1]; intros l2 p.
  - intros _. induction l2 as [|b l2 IH2]; intros Hs2; [split; [by intros ?%elem_of_nil|by intros [? ?%elem_of_nil|? ?%elem_of_nil|? ? ?%elem_of_nil]]|].
    rewrite differs_skip_r by (by intros ? ?%elem_of_nil). apply sorted_head in Hs2 as [Hs2 _]. rewrite <- IH2 by done.
    by rewrite !diff_nil_l, <- elem_of_cons.
  - induction l2 as [|b l2 IH2]; intros Hs1 Hs2; pose proof (sorted_head _ _ Hs1) as [Hs1' Ha].
    + rewrite differs_skip_l by (by intros ? ?%elem_of_nil). rewrite <- IH1 by done. by rewrite !diff_nil_r, <- elem_of_cons.
    + pose proof (sorted_head _ _ Hs2) as [Hs2' Hb]. rewrite diff_cons. destruct (Z.ltb_spec (lexcmp (leaf_path a) (leaf_path b)) 0) as [Hlt|Hge].
      * rewrite differs_skip_l by (by apply (sorted_below a b)). by rewrite elem_of_cons, IH1.
      * destruct (Z.ltb_spec 0 (lexcmp (leaf_path a) (leaf_path b))) as [Hgt|Hle].
        -- rewrite differs_skip_r. 2:{ apply (sorted_below b a); [|done]. unfold leaf_lt. rewrite lexcmp_opp. lia. }
           by rewrite elem_of_cons, IH2.
        -- assert (E : leaf_path a = leaf_path b) by (apply lexcmp_eq; lia).
           rewrite differs_both by done. by rewrite elem_of_app, IH1.
Qed.

Lemma differs_path l1 l2 p : differs l1 l2 p -> exists l, fp_path p = leaf_path l /\ (l ∈ l1 \/ l ∈ l2).
Proof. intros [a Ha _|b Hb _|a b Ha Hb _ _]; [exists a|exists b|exists b]; cbn; auto. Qed.

Lemma diff_leaves_sorted l1 : forall l2, StronglySorted leaf_lt l1 -> StronglySorted leaf_lt l2 ->
  StronglySorted (fun p p' => lexcmp (fp_path p) (fp_path p') < 0) (diff_leaves l1 l2).
Proof.
  assert (Hcons : forall x l l2 p, StronglySorted leaf_lt l -> StronglySorted leaf_lt l2 -> (forall y, y ∈ l \/ y ∈ l2 -> leaf_lt x y) ->
    p ∈ diff_leaves l l2 -> lexcmp (leaf_path x) (fp_path p) < 0).
  { intros x l l2 p Hl Hl2 Hx Hp. apply diff_leaves_elem, differs_path in Hp as (y&->&Hy); [|done|done]. by apply Hx. }
  induction l1 as [|a l1 IH1]; intros l2.
  - intros _. induction l2 as [|b l2 IH2]; intros Hs2; [constructor|]. apply sorted_head in Hs2 as [Hs2 Hb]. specialize (IH2 Hs2).
    rewrite diff_nil_l in IH2 |- *. cbn [map]. constructor; [done|]. rewrite <- diff_nil_l, Forall_forall. intros p Hp.
    apply (Hcons b [] l2); [constructor|done| |done]. intros y [?%elem_of_nil|Hy]; [done|by apply Hb].
  - induction l2 as [|b l2 IH2]; intros Hs1 Hs2; pose proof (sorted_head _ _ Hs1) as [Hs1' Ha].
    + specialize (IH1 [] Hs1' Hs2). rewrite diff_nil_r in IH1 |- *. cbn [map]. constructor; [done|]. rewrite <- diff_nil_r, Forall_forall. intros p Hp.
      apply (Hcons a l1 []); [done|done| |done]. intros y [Hy|?%elem_of_nil]; [by apply Ha|done].
    + pose proof (sorted_head _ _ Hs2) as [Hs2' Hb]. rewrite diff_cons. destruct (Z.ltb_spec (lexcmp (leaf_path a) (leaf_path b)) 0) as [Hlt|Hge].
      * constructor; [by apply IH1|]. rewrite Forall_forall. intros p Hp. apply (Hcons a l1 (b :: l2)); [done|done| |done].
        intros y [Hy|Hy]; [by apply Ha|by apply (sorted_below a b l2)].
      * destruct (Z.ltb_spec 0 (lexcmp (leaf_path a) (leaf_path b))) as [Hgt|Hle].
        -- constructor; [by apply IH2|]. rewrite Forall_forall. intros p Hp. apply (Hcons b (a :: l1) l2); [done|done| |done].
           intros y [Hy|Hy]; [|by apply Hb]. apply (sorted_below b a l1); [|done|done]. unfold leaf_lt. rewrite lexcmp_opp. lia.
        -- assert (E : leaf_path a = leaf_path b) by (apply lexcmp_eq; lia). unfold change_of.
           destruct (decide (a = b)); cbn [app]; [by apply IH1|]. constructor; [by apply IH1|]. rewrite Forall_forall. intros p Hp.
           change (fp_path (changed a b)) with (leaf_path b). rewrite <- E. apply (Hcons a l1 l2); [done|done| |done]. intros y [Hy|Hy]; [by apply Ha|]. unfold leaf_lt in *. rewrite E. by apply Hb.
Qed.

(** ** The comparison *)

(** No limits on the paths, down into the directories, in this order. *)
Definition plain (o : opts) : Prop :=
  recursive o = true /\ show_tree_entry_in_recursive o = false /\ find_copies_harder o = false /\ reverse_diff o = false /\ paths o = [].

Definition file_ok (l : leaf) : Prop := leaf_ok l /\ bytes_ok (leaf_path l) /\ (length (leaf_path l) < 4096)%nat.

Section Compare.
Context {D} {DB : ObjectDB D} (db : D) (o : opts) (Hplain : plain o).

Definition tree_stored (sbuf : bytes) : Prop :=
  db_read db (object_name tree_type sbuf) = io_ret (Some (tree_type, sbuf)) /\ length (object_name tree_type sbuf) = 20%nat.

(** The first entry of a tree, the files it stands for, and the rest. *)
Record first_entry (base : bytes) (t : bytes) (name : bytes) (mode : Z) (sha1 : bytes) (blk rest : list leaf) (t' : bytes) (objs' : list bytes) : Prop := {
  fe_text : t = tree_entry mode name sha1 ++ t';
  fe_comp : component name /\ bytes_ok name;
  fe_mode : 0 <= mode < 2 ^ 32 /\ canon_mode mode = mode /\ u16 mode = mode /\ mode <> 0;
  fe_sha1 : length sha1 = 20%nat;
  fe_rest : tree_of base rest t' objs' /\ Forall tree_stored objs';
  fe_block : (S_ISDIR mode = false /\ name <> [] /\ blk = [(base ++ name, mode, sha1)] /\ (length (base ++ name) < 4096)%nat) \/
    (mode = S_IFDIR /\ blk <> [] /\ stops (base ++ name ++ [47]) rest /\ exists sbuf sobjs, sha1 = object_name tree_type sbuf /\
      tree_of (base ++ name ++ [47]) blk sbuf sobjs /\ tree_stored sbuf /\ Forall tree_stored sobjs);
}.

Lemma first_entry_of base L t objs : tree_of base L t objs -> L <> [] -> Forall file_ok L -> Forall tree_stored objs ->
  exists name mode sha1 blk rest t' objs', first_entry base t name mode sha1 blk rest t' objs' /\ L = blk ++ rest.
Proof.
  intros Ht Hne Hok Hst. destruct Ht as [base|base name mode sha1 es buf objs Hn Hc Ht|base name sub sbuf sobjs es buf objs Hc Hn Hts Hstop Ht]; [done| |].
  - apply Forall_cons in Hok as [[[Hm Hs] [Hb Hl]] Hok]. cbn [fst snd leaf_path] in Hm, Hs. unfold leaf_path in Hb, Hl. cbn [fst] in Hb, Hl.
    exists name, mode, sha1, [(base ++ name, mode, sha1)], es, buf, objs. split; [|done]. apply bytes_ok_app in Hb as [_ Hb].
    split; [done|done| |done|done|].
    + destruct Hm as [->|[->| ->]]; vm_compute; done.
    + left. split; [by apply git_mode_canonical|]. done.
  - apply Forall_app in Hst as [Hst1 Hst2]. apply Forall_cons in Hst2 as [Hst2 Hst3]. apply Forall_app in Hok as [Hoks Hok].
    exists name, S_IFDIR, (object_name tree_type sbuf), sub, es, buf, objs. split; [|done].
    split; [done| |by vm_compute|apply Hst2|done|].
    + split; [done|]. pose proof (tree_of_inside _ _ _ _ Hts) as Hin. destruct sub as [|x sub]; [done|]. apply Forall_cons in Hin as [[[r Hr] _] _].
      apply Forall_cons in Hoks as [(_&Hb&_) _]. rewrite Hr, !bytes_ok_app in Hb. tauto.
    + right. split; [done|]. split; [done|]. split; [done|]. by exists sbuf, sobjs.
Qed.

Lemma neq_nil_elem {A} (l : list A) : l <> [] <-> exists x, x ∈ l.
Proof. destruct l as [|x l]; [split; [done|by intros [x ?%elem_of_nil]]|]. split; [intros _; exists x; by left|done]. Qed.

Lemma behind_block base k rb r b y rest : StronglySorted leaf_lt rest -> stops (base ++ k) rest -> y ∈ rest ->
  leaf_path b = base ++ k ++ rb -> rb <> [] -> (forall z, z ∈ rest -> leaf_lt b z) -> lexcmp (base ++ k ++ r) (leaf_path y) < 0.
Proof.
  intros Hs Hstop Hy Hb Hrb Hlt. destruct rest as [|h rest]; [by apply elem_of_nil in Hy|].
  assert (Hh : lexcmp (base ++ k ++ r) (leaf_path h) < 0).
  { rewrite app_assoc. apply (block_below _ rb); [|done|exact Hstop]. rewrite <- app_assoc, <- Hb. apply Hlt. by left. }
  apply elem_of_cons in Hy as [->|Hy]; [done|]. eapply lexcmp_trans; [exact Hh|]. apply StronglySorted_inv in Hs as [_ HF].
  rewrite Forall_forall in HF. by apply HF.
Qed.

Section First.
Context (base t name : bytes) (mode : Z) (sha1 : bytes) (blk rest : list leaf) (t' : bytes) (objs' : list bytes).
Context (Hfe : first_entry base t name mode sha1 blk rest t' objs').

Lemma fe_extract : extract t = Ret (name, mode, sha1) /\ update_tree_entry t = Ret t' /\ (length t =? 0)%nat = false.
Proof.
  pose proof Hfe as [-> [Hc _] (Hm&Hcan&_) Hs _ _]. destruct (tree_entry_fields mode name sha1 t' Hm Hc Hs) as (F1&F2&F3&F4&F5&k&F6&F7).
  unfold extract, update_tree_entry. rewrite F6, F2, F3, F4, F7, Hcan, F5. done.
Qed.

(** The paths of the block. *)
Lemma fe_paths x : x ∈ blk -> exists r, leaf_path x = base ++ (name ++ suffix_of mode) ++ r /\ (r = [] <-> S_ISDIR mode = false).
Proof.
  intros Hx. pose proof Hfe as [_ _ _ _ _ [(Hd&_&Hb&_)|(Hd&_&_&sbuf&sobjs&_&Ht&_)]].
  - rewrite Hb in Hx. apply list_elem_of_singleton in Hx as ->. exists []. unfold suffix_of. rewrite Hd, !app_nil_r. done.
  - pose proof (tree_of_inside _ _ _ _ Ht) as Hin. rewrite Forall_forall in Hin. destruct (Hin x Hx) as [[r Hr] Hl]. exists r.
    unfold suffix_of. rewrite Hd. change (S_ISDIR S_IFDIR) with true. cbv iota. rewrite Hr, <- !app_assoc. split; [done|].
    split; [|done]. intros ->. rewrite Hr, app_nil_r in Hl. lia.
Qed.

Lemma fe_block_ne : blk <> [].
Proof. pose proof Hfe as [_ _ _ _ _ [(_&_&->&_)|(_&Hne&_)]]; done. Qed.

(** Whatever has a path of this block's kind is before the rest. *)
Lemma fe_before r y : StronglySorted leaf_lt (blk ++ rest) -> y ∈ rest -> (r = [] <-> S_ISDIR mode = false) ->
  lexcmp (base ++ (name ++ suffix_of mode) ++ r) (leaf_path y) < 0.
Proof.
  intros Hs Hy Hr. apply StronglySorted_app in Hs as (Hlt&_&Hs2). destruct (proj1 (neq_nil_elem blk) fe_block_ne) as [b Hin].
  destruct (fe_paths b Hin) as (rb&Hb&Hrb). pose proof Hfe as [_ _ _ _ _ [(Hd&_)|(Hd&_&Hstop&_)]].
  - rewrite (proj2 Hr Hd). rewrite (proj2 Hrb Hd) in Hb. rewrite <- Hb. by apply Hlt.
  - rewrite Hd in Hb, Hrb, Hr |- *. change (suffix_of S_IFDIR) with [47] in *. apply (behind_block base (name ++ [47]) rb r b y rest); try done.
    + intros E. by apply Hrb in E.
    + intros z Hz. by apply Hlt.
Qed.

(** ** One entry shown *)

Definition shown (prefix : Z) (l : leaf) : filepair := if prefix =? 43 then added l else removed l.

Lemma show_file_ok st prefix q : prefix = 43 \/ prefix = 45 ->
  (forall sbuf sobjs q, tree_of (base ++ name ++ [47]) blk sbuf sobjs -> Forall tree_stored sobjs -> st sbuf (base ++ name ++ [47]) q = io_ret (q ++ map (shown prefix) blk)) ->
  show_file o db st prefix t base q = io_ret (q ++ map (shown prefix) blk).
Proof.
  intros Hp Hst. destruct fe_extract as (Hx&_&_). unfold show_file. rewrite Hx. cbn [io_bind]. destruct Hplain as (->&_&_&Hrev&_). cbn [andb].
  pose proof Hfe as [_ _ (_&Hcan&Hu&Hnz) _ _ [(Hd&_&->&Hl)|(->&_&_&sbuf&sobjs&->&Ht&[Hread _]&Hsub)]].
  - rewrite Hd. unfold diff_addremove, concat_path. rewrite Hrev. rewrite (proj2 (Nat.leb_gt _ _)) by lia. rewrite bind_Ret.
    unfold fill_filespec. rewrite Hu, Hcan, (proj2 (Z.eqb_neq mode 0) Hnz). by destruct Hp as [->| ->].
  - change (S_ISDIR S_IFDIR) with true. cbv iota. rewrite Hread. cbn [io_bind io_ret]. rewrite bool_decide_true by done. by apply (Hst sbuf sobjs).
Qed.

End First.

Lemma tree_of_nil base t objs : tree_of base [] t objs -> t = [].
Proof.
  remember [] as L eqn:E. destruct 1 as [| |? ? ? ? ? ? ? ? ? Hn]; [done|done|]. by apply app_eq_nil in E as [-> _].
Qed.

Lemma block_depth base L t objs name mode sha1 blk rest t' objs' : tree_of base L t objs -> L = blk ++ rest ->
  first_entry base t name mode sha1 blk rest t' objs' -> (0 < depth_below base blk)%nat.
Proof.
  intros Ht -> F. pose proof (fe_block_ne _ _ _ _ _ _ _ _ _ F) as Hne. pose proof (tree_of_inside _ _ _ _ Ht) as Hin.
  apply Forall_app in Hin as [Hin _]. destruct blk as [|b blk]; [done|]. apply Forall_cons in Hin as [[_ Hl] _]. cbn [depth_below sum_list_with]. lia.
Qed.

Lemma show_tree_ok prefix : prefix = 43 \/ prefix = 45 -> forall n base L t objs fuel q,
  tree_of base L t objs -> Forall file_ok L -> Forall tree_stored objs -> (depth_below base L <= n)%nat -> (n < fuel)%nat ->
  show_tree o db fuel prefix t base q = io_ret (q ++ map (shown prefix) L).
Proof.
  intros Hp n. induction n as [n IH] using lt_wf_ind. intros base L t objs [|fuel] q Ht Hok Hst Hd Hf; [lia|]. cbn [show_tree].
  destruct (decide (L = [])) as [->|Hne].
  { rewrite (tree_of_nil _ _ _ Ht). cbn. by rewrite app_nil_r. }
  destruct (first_entry_of base L t objs Ht Hne Hok Hst) as (name&mode&sha1&blk&rest&t'&objs'&Hfe&->).
  destruct (fe_extract _ _ _ _ _ _ _ _ _ Hfe) as (_&Hu&Hz). rewrite Hz. unfold interesting. destruct Hplain as (_&_&_&_&Hpaths). rewrite Hpaths. cbn [io_bind].
  rewrite depth_below_app in Hd. apply Forall_app in Hok as [Hokb Hokr]. pose proof (fe_block_ne _ _ _ _ _ _ _ _ _ Hfe) as Hbne.
  pose proof (block_depth _ _ _ _ _ _ _ _ _ _ _ Ht eq_refl Hfe) as Hdb.
  rewrite (show_file_ok base t name mode sha1 blk rest t' objs' Hfe (show_tree o db fuel prefix) prefix q Hp).
  - cbn [io_bind io_ret]. rewrite Hu. cbn [io_bind]. destruct (fe_rest _ _ _ _ _ _ _ _ _ Hfe) as [Ht' Hst'].
    rewrite (IH (depth_below base rest) ltac:(lia) base rest t' objs' fuel) by (done || lia). by rewrite map_app, app_assoc.
  - intros sbuf sobjs q' Hts Hss. pose proof (depth_below_deeper base (name ++ [47]) blk ltac:(by destruct name) Hbne (tree_of_inside _ _ _ _ Hts)) as Hdeep.
    apply (IH (depth_below (base ++ name ++ [47]) blk) ltac:(lia) _ _ _ sobjs); (done || lia).
Qed.

(** The text of a tree and the trees stored under its names tell its files. *)
Lemma tree_of_unique n : forall base L1 L2 t objs1 objs2, (depth_below base L1 <= n)%nat ->
  tree_of base L1 t objs1 -> tree_of base L2 t objs2 -> Forall file_ok L1 -> Forall file_ok L2 ->
  Forall tree_stored objs1 -> Forall tree_stored objs2 -> L1 = L2.
Proof.
  induction n as [n IH] using lt_wf_ind. intros base L1 L2 t objs1 objs2 Hd Ht1 Ht2 Hok1 Hok2 Hs1 Hs2.
  destruct (decide (L1 = [])) as [->|Hn1], (decide (L2 = [])) as [->|Hn2].
  - done.
  - rewrite (tree_of_nil _ _ _ Ht1) in Ht2. destruct (first_entry_of _ _ _ _ Ht2 Hn2 Hok2 Hs2) as (?&?&?&?&?&?&?&Hfe&_).
    by destruct (fe_extract _ _ _ _ _ _ _ _ _ Hfe) as (_&_&?).
  - rewrite (tree_of_nil _ _ _ Ht2) in Ht1. destruct (first_entry_of _ _ _ _ Ht1 Hn1 Hok1 Hs1) as (?&?&?&?&?&?&?&Hfe&_).
    by destruct (fe_extract _ _ _ _ _ _ _ _ _ Hfe) as (_&_&?).
  - destruct (first_entry_of _ _ _ _ Ht1 Hn1 Hok1 Hs1) as (name&mode&sha1&b1&r1&t'&o1&F1&->).
    destruct (first_entry_of _ _ _ _ Ht2 Hn2 Hok2 Hs2) as (name2&mode2&sha2&b2&r2&t2'&o2&F2&->).
    destruct (fe_extract _ _ _ _ _ _ _ _ _ F1) as (X1&U1&_), (fe_extract _ _ _ _ _ _ _ _ _ F2) as (X2&U2&_).
    rewrite X1 in X2. injection X2 as <- <- <-. rewrite U1 in U2. injection U2 as <-.
    apply Forall_app in Hok1 as [Hb1 Hr1], Hok2 as [Hb2 Hr2]. rewrite depth_below_app in Hd.
    destruct (fe_rest _ _ _ _ _ _ _ _ _ F1) as [T1 S1], (fe_rest _ _ _ _ _ _ _ _ _ F2) as [T2 S2].
    pose proof (block_depth _ _ _ _ _ _ _ _ _ _ _ Ht1 eq_refl F1) as Hpos.
    assert (b1 = b2) as <-.
    { destruct (fe_block _ _ _ _ _ _ _ _ _ F1) as [(D1&_&->&_)|(E1&N1&_&sb1&so1&A1&B1&[C1 _]&G1)], (fe_block _ _ _ _ _ _ _ _ _ F2) as [(D2&_&->&_)|(E2&N2&_&sb2&so2&A2&B2&[C2 _]&G2)].
      - done.
      - subst mode. discriminate D1.
      - subst mode. discriminate D2.
      - rewrite <- A1 in C1. rewrite <- A2, C1 in C2. injection C2 as <-.
        pose proof (depth_below_deeper base (name ++ [47]) b1 ltac:(by destruct name) N1 (tree_of_inside _ _ _ _ B1)) as Hdeep.
        apply (IH (depth_below (base ++ name ++ [47]) b1) ltac:(lia) _ _ _ _ _ _ (Nat.le_refl _) B1 B2); done. }
    f_equal. apply (IH (depth_below base r1) ltac:(lia) base r1 r2 t' o1 o2); done.
Qed.

Lemma read_tree_object fuel sbuf : tree_stored sbuf -> (0 < fuel)%nat ->
  read_object_with_reference db fuel (object_name tree_type sbuf) (str "tree") = io_ret (Some sbuf).
Proof. intros [Hr _] Hf. destruct fuel; [lia|]. cbn [read_object_with_reference]. rewrite Hr. cbn [io_bind io_ret]. by rewrite bool_decide_true. Qed.

(** Entries of different keys: all of one block before all of the other tree. *)
Lemma blocks_before base t1 name1 mode1 sha1 b1 r1 t1' o1 t2 name2 mode2 sha2 b2 r2 t2' o2 x y :
  first_entry base t1 name1 mode1 sha1 b1 r1 t1' o1 -> first_entry base t2 name2 mode2 sha2 b2 r2 t2' o2 ->
  lexcmp (name1 ++ suffix_of mode1) (name2 ++ suffix_of mode2) < 0 -> StronglySorted leaf_lt (b2 ++ r2) ->
  x ∈ b1 -> y ∈ b2 ++ r2 -> leaf_lt x y.
Proof.
  intros F1 F2 Hlt Hs Hx Hy. destruct (fe_paths _ _ _ _ _ _ _ _ _ F1 x Hx) as (rx&Ex&Hrx).
  assert (Hb : forall y, y ∈ b2 -> leaf_lt x y).
  { intros z Hz. destruct (fe_paths _ _ _ _ _ _ _ _ _ F2 z Hz) as (rz&Ez&_). unfold leaf_lt. rewrite Ex, Ez, lexcmp_app_l.
    apply keys_apart; [apply F1|apply F2| |done]. destruct (S_ISDIR mode1) eqn:E; [by right|left; by apply Hrx]. }
  apply elem_of_app in Hy as [Hy|Hy]; [by apply Hb|]. destruct (proj1 (neq_nil_elem b2) (fe_block_ne _ _ _ _ _ _ _ _ _ F2)) as [z Hz].
  apply StronglySorted_app in Hs as (Hlt2&_&_). unfold leaf_lt in *. eapply lexcmp_trans; [by apply Hb|by apply Hlt2].
Qed.

(** Entries of one key: the block of one before the rest of the other. *)
Lemma equal_before base t1 name1 mode1 sha1 b1 r1 t1' o1 t2 name2 mode2 sha2 b2 r2 t2' o2 x y :
  first_entry base t1 name1 mode1 sha1 b1 r1 t1' o1 -> first_entry base t2 name2 mode2 sha2 b2 r2 t2' o2 ->
  name1 ++ suffix_of mode1 = name2 ++ suffix_of mode2 -> StronglySorted leaf_lt (b2 ++ r2) ->
  x ∈ b1 -> y ∈ r2 -> leaf_lt x y.
Proof.
  intros F1 F2 E Hs Hx Hy. destruct (fe_paths _ _ _ _ _ _ _ _ _ F1 x Hx) as (rx&Ex&Hrx).
  apply keys_equal in E as [<- Hdir]; [|apply F1|apply F2]. unfold leaf_lt. rewrite Ex. unfold suffix_of. rewrite Hdir.
  apply (fe_before _ _ _ _ _ _ _ _ _ F2); try done. by rewrite <- Hdir.
Qed.

(** The first block shown by the loop over one tree or both. *)
Lemma show_block base t name mode sha1 blk rest t' objs' prefix fuel q : prefix = 43 \/ prefix = 45 ->
  first_entry base t name mode sha1 blk rest t' objs' -> Forall file_ok blk -> (depth_below base blk <= fuel)%nat ->
  show_file o db (show_tree o db fuel prefix) prefix t base q = io_ret (q ++ map (shown prefix) blk).
Proof.
  intros Hp F Hok Hd. apply (show_file_ok _ _ _ _ _ _ _ _ _ F); [done|]. intros sbuf sobjs q' Hts Hss.
  pose proof (depth_below_deeper base (name ++ [47]) blk ltac:(by destruct name) (fe_block_ne _ _ _ _ _ _ _ _ _ F) (tree_of_inside _ _ _ _ Hts)) as Hdeep.
  apply (show_tree_ok prefix Hp (depth_below (base ++ name ++ [47]) blk) _ _ _ sobjs); (done || lia).
Qed.

(** Equal entries stand for the same files. *)
Lemma same_blocks base name mode sha1 t1 b1 r1 t1' o1 t2 b2 r2 t2' o2 :
  first_entry base t1 name mode sha1 b1 r1 t1' o1 -> first_entry base t2 name mode sha1 b2 r2 t2' o2 ->
  Forall file_ok b1 -> Forall file_ok b2 -> b1 = b2.
Proof.
  intros F1 F2 Hb1 Hb2.
  destruct (fe_block _ _ _ _ _ _ _ _ _ F1) as [(D1&_&->&_)|(E1&N1&_&sb1&so1&A1&B1&[C1 _]&G1)], (fe_block _ _ _ _ _ _ _ _ _ F2) as [(D2&_&->&_)|(E2&N2&_&sb2&so2&A2&B2&[C2 _]&G2)].
  - done.
  - subst mode. discriminate D1.
  - subst mode. discriminate D2.
  - rewrite <- A1 in C1. rewrite <- A2, C1 in C2. injection C2 as <-. by apply (tree_of_unique _ _ _ _ _ _ _ (Nat.le_refl _) B1 B2).
Qed.

Lemma file_changed base t1 name mode1 sha1 b1 r1 t1' o1 t2 mode2 sha2 b2 r2 t2' o2 q :
  first_entry base t1 name mode1 sha1 b1 r1 t1' o1 -> first_entry base t2 name mode2 sha2 b2 r2 t2' o2 ->
  (length (base ++ name) < 4096)%nat ->
  diff_change o q mode1 mode2 sha1 sha2 base name = Ret (q ++ [changed (base ++ name, mode1, sha1) (base ++ name, mode2, sha2)]).
Proof.
  intros F1 F2 Hl. unfold diff_change, concat_path, fill_filespec. pose proof Hplain as (_&_&_&->&_). rewrite (proj2 (Nat.leb_gt _ _)) by lia. rewrite bind_Ret.
  destruct (fe_mode _ _ _ _ _ _ _ _ _ F1) as (_&C1&U1&Z1), (fe_mode _ _ _ _ _ _ _ _ _ F2) as (_&C2&U2&Z2).
  by rewrite U1, U2, C1, C2, (proj2 (Z.eqb_neq mode1 0) Z1), (proj2 (Z.eqb_neq mode2 0) Z2).
Qed.

(** Two entries compared: the value and the pairs of their blocks, and what the
    loop goes on with. *)
Lemma compare_entries_ok base t1 name1 mode1 sha1 b1 r1 t1' o1 t2 name2 mode2 sha2 b2 r2 t2' o2 fuel dts q :
  first_entry base t1 name1 mode1 sha1 b1 r1 t1' o1 -> first_entry base t2 name2 mode2 sha2 b2 r2 t2' o2 ->
  Forall file_ok b1 -> Forall file_ok b2 -> (depth_below base b1 + depth_below base b2 <= fuel)%nat ->
  (forall sb1 so1 sb2 so2 q, tree_of (base ++ name1 ++ [47]) b1 sb1 so1 -> tree_of (base ++ name1 ++ [47]) b2 sb2 so2 ->
    tree_stored sb1 -> tree_stored sb2 -> Forall tree_stored so1 -> Forall tree_stored so2 ->
    dts (object_name tree_type sb1) (object_name tree_type sb2) (base ++ name1 ++ [47]) q = io_ret (q ++ diff_leaves b1 b2)) ->
  let c := lexcmp (name1 ++ suffix_of mode1) (name2 ++ suffix_of mode2) in
  exists c', compare_tree_entry o db fuel dts t1 t2 base q =
    io_ret (c', q ++ (if c <? 0 then map removed b1 else if 0 <? c then map added b2 else diff_leaves b1 b2)) /\
    (c' <? 0) = (c <? 0) /\ (0 <? c') = (0 <? c).
Proof.
  intros F1 F2 Hok1 Hok2 Hd Hdts c. destruct (fe_extract _ _ _ _ _ _ _ _ _ F1) as (X1&_&_), (fe_extract _ _ _ _ _ _ _ _ _ F2) as (X2&_&_).
  unfold compare_tree_entry. rewrite X1, X2. cbn [io_bind].
  rewrite base_name_compare_keys by (apply (fe_comp _ _ _ _ _ _ _ _ _ F1) || apply (fe_comp _ _ _ _ _ _ _ _ _ F2)). fold c.
  destruct (Z.ltb_spec c 0) as [Hlt|Hge]; [|destruct (Z.ltb_spec 0 c) as [Hgt|Hle]].
  - rewrite (show_block base t1 name1 mode1 sha1 b1 r1 t1' o1 45 fuel q) by (done || lia || by right). cbn [io_bind io_ret]. exists (-1). split; [done|]. split; [done|]. symmetry. apply Z.ltb_ge. lia.
  - rewrite (show_block base t2 name2 mode2 sha2 b2 r2 t2' o2 43 fuel q) by (done || lia || by left). cbn [io_bind io_ret]. exists 1. done.
  - assert (Hc : c = 0) by lia. apply lexcmp_eq in Hc. apply keys_equal in Hc as [<- Hdir]; [|apply F1|apply F2].
    rewrite Hdir, eqb_reflx. exists 0. split; [|done].
    destruct (bool_decide (sha1 = sha2 /\ mode1 = mode2)) eqn:Esame.
    + apply bool_decide_eq_true in Esame as [<- <-]. rewrite (same_blocks _ _ _ _ _ _ _ _ _ _ _ _ _ _ F1 F2 Hok1 Hok2), diff_same, app_nil_r.
      pose proof Hplain as (_&_&->&_). rewrite (proj2 (Z.eqb_eq (memcmp 20 sha1 sha1) 0)); [by rewrite Z.eqb_refl|]. apply memcmp_eq; [..|done]; by rewrite (fe_sha1 _ _ _ _ _ _ _ _ _ F1).
    + apply bool_decide_eq_false in Esame. pose proof Hplain as (->&->&->&_).
      assert (Hn : negb false && (memcmp 20 sha1 sha2 =? 0) && (mode1 =? mode2) = false).
      { cbn [negb andb]. apply andb_false_iff. destruct (Z.eqb_spec mode1 mode2) as [Em|]; [left|by right]. apply Z.eqb_neq. rewrite memcmp_eq, !take_ge
          by (rewrite ?(fe_sha1 _ _ _ _ _ _ _ _ _ F1), ?(fe_sha1 _ _ _ _ _ _ _ _ _ F2); lia). intros ->. by apply Esame. }
      rewrite Hn. cbn [negb andb].
      destruct (fe_block _ _ _ _ _ _ _ _ _ F1) as [(D1&N1&->&Hl1)|(E1&_&_&sb1&so1&->&B1&C1&G1)],
        (fe_block _ _ _ _ _ _ _ _ _ F2) as [(D2&_&->&_)|(E2&_&_&sb2&so2&->&B2&C2&G2)].
      * rewrite D2, (file_changed _ _ _ _ _ _ _ _ _ _ _ _ _ _ _ _ _ F1 F2) by done. cbn [io_bind io_ret]. do 3 f_equal.
        rewrite diff_cons. cbn [leaf_path fst]. rewrite lexcmp_refl. cbn [Z.ltb Z.compare]. unfold change_of. rewrite decide_False; [done|].
        intros [= -> ->]. by apply Esame.
      * subst mode2. rewrite D1 in Hdir. discriminate Hdir.
      * subst mode1. rewrite D2 in Hdir. discriminate Hdir.
      * subst mode1 mode2. change (S_ISDIR S_IFDIR) with true. cbv iota. cbn [io_bind io_ret]. unfold malloc_base. by rewrite (Hdts sb1 so1 sb2 so2).
Qed.

(** One list is at its end. *)
Lemma diff_rest n prefix fuel base L t objs q : prefix = 43 \/ prefix = 45 -> tree_of base L t objs -> Forall file_ok L -> Forall tree_stored objs ->
  (depth_below base L <= n)%nat -> (n < fuel)%nat ->
  diff_tree o db fuel (if prefix =? 43 then [] else t) (if prefix =? 43 then t else []) base q = io_ret (q ++ map (shown prefix) L).
Proof.
  intros Hp. revert base L t objs fuel q. induction n as [n IH] using lt_wf_ind. intros base L t objs [|fuel] q Ht Hok Hst Hd Hf; [lia|].
  cbn [diff_tree]. unfold interesting. pose proof Hplain as (_&_&_&_&Hpaths). rewrite Hpaths.
  destruct (decide (L = [])) as [->|Hne].
  { rewrite (tree_of_nil _ _ _ Ht), app_nil_r. by destruct Hp as [->| ->]. }
  destruct (first_entry_of _ _ _ _ Ht Hne Hok Hst) as (name&mode&sha1&b&r&t'&o'&F&->). destruct (fe_extract _ _ _ _ _ _ _ _ _ F) as (_&U&Z).
  pose proof (block_depth _ _ _ _ _ _ _ _ _ _ _ Ht eq_refl F) as Hpos. rewrite depth_below_app in Hd. apply Forall_app in Hok as [Hokb Hokr].
  destruct (fe_rest _ _ _ _ _ _ _ _ _ F) as [Ht' Hst'].
  pose proof (show_block base t name mode sha1 b r t' o' prefix fuel q Hp F Hokb ltac:(lia)) as Hshow.
  specialize (IH (depth_below base r) ltac:(lia) base r t' o' fuel (q ++ map (shown prefix) b) Ht' Hokr Hst' ltac:(lia) ltac:(lia)).
  rewrite map_app, app_assoc.
  destruct Hp as [->| ->]; cbn [Z.eqb Pos.eqb] in IH |- *; rewrite Z; cbn [andb length Nat.eqb negb io_bind io_ret] in Hshow |- *;
    rewrite Hshow; cbn [io_bind io_ret]; rewrite U; exact IH.
Qed.

Lemma diff_tree_ok n : forall base L1 t1 objs1 L2 t2 objs2 fuel q,
  tree_of base L1 t1 objs1 -> tree_of base L2 t2 objs2 -> StronglySorted leaf_lt L1 -> StronglySorted leaf_lt L2 ->
  Forall file_ok L1 -> Forall file_ok L2 -> Forall tree_stored objs1 -> Forall tree_stored objs2 ->
  (depth_below base L1 + depth_below base L2 <= n)%nat -> (n < fuel)%nat ->
  diff_tree o db fuel t1 t2 base q = io_ret (q ++ diff_leaves L1 L2).
Proof.
  induction n as [n IH] using lt_wf_ind. intros base L1 t1 objs1 L2 t2 objs2 fuel q Ht1 Ht2 Hs1 Hs2 Hok1 Hok2 Hst1 Hst2 Hd Hf.
  destruct (decide (L1 = [])) as [->|Hn1]; [|destruct (decide (L2 = [])) as [->|Hn2]].
  - rewrite (tree_of_nil _ _ _ Ht1), diff_nil_l. apply (diff_rest n 43 fuel base L2 t2 objs2); (done || lia || by left).
  - rewrite (tree_of_nil _ _ _ Ht2), diff_nil_r. apply (diff_rest n 45 fuel base L1 t1 objs1); (done || lia || by right).
  - destruct fuel as [|fuel]; [lia|].
    destruct (first_entry_of _ _ _ _ Ht1 Hn1 Hok1 Hst1) as (name1&mode1&sha1&b1&r1&t1'&o1&F1&->), (first_entry_of _ _ _ _ Ht2 Hn2 Hok2 Hst2) as (name2&mode2&sha2&b2&r2&t2'&o2&F2&->).
    destruct (fe_extract _ _ _ _ _ _ _ _ _ F1) as (_&U1&Z1), (fe_extract _ _ _ _ _ _ _ _ _ F2) as (_&U2&Z2).
    pose proof (block_depth _ _ _ _ _ _ _ _ _ _ _ Ht1 eq_refl F1) as Hpos1. pose proof (block_depth _ _ _ _ _ _ _ _ _ _ _ Ht2 eq_refl F2) as Hpos2.
    rewrite !depth_below_app in Hd. destruct (fe_rest _ _ _ _ _ _ _ _ _ F1) as [Htr1 Hsr1], (fe_rest _ _ _ _ _ _ _ _ _ F2) as [Htr2 Hsr2].
    pose proof (proj1 (Forall_app _ _ _) Hok1) as [Hokb1 Hokr1]. pose proof (proj1 (Forall_app _ _ _) Hok2) as [Hokb2 Hokr2].
    pose proof (proj1 (StronglySorted_app _ _ _) Hs1) as (_&Hsb1&Hsr1'). pose proof (proj1 (StronglySorted_app _ _ _) Hs2) as (_&Hsb2&Hsr2').
    cbn [diff_tree]. unfold interesting. pose proof Hplain as (_&_&_&_&Hpaths). rewrite Hpaths, Z1, Z2. cbn [andb negb io_bind io_ret].
    destruct (compare_entries_ok base t1 name1 mode1 sha1 b1 r1 t1' o1 t2 name2 mode2 sha2 b2 r2 t2' o2 fuel (diff_tree_sha1_of db fuel (diff_tree o db fuel)) q F1 F2 Hokb1 Hokb2 ltac:(lia))
      as (c'&->&Hneg&Hposi).
    { intros sb1 so1 sb2 so2 q' B1 B2 C1 C2 G1 G2. unfold diff_tree_sha1_of. rewrite !read_tree_object by (done || lia). cbn [io_bind io_ret].
      pose proof (depth_below_deeper base (name1 ++ [47]) b1 ltac:(by destruct name1) (fe_block_ne _ _ _ _ _ _ _ _ _ F1) (tree_of_inside _ _ _ _ B1)) as Hdeep1.
      pose proof (depth_below_deeper base (name1 ++ [47]) b2 ltac:(by destruct name1) (fe_block_ne _ _ _ _ _ _ _ _ _ F2) (tree_of_inside _ _ _ _ B2)) as Hdeep2.
      set (sub := base ++ name1 ++ [47]) in *. apply (IH (depth_below sub b1 + depth_below sub b2)%nat ltac:(lia) _ _ _ so1 _ _ so2); (done || lia). }
    cbn [io_bind io_ret]. set (c := lexcmp _ _) in *.
    destruct (Z.ltb_spec c 0) as [Hlt|Hge]; [|destruct (Z.ltb_spec 0 c) as [Hgt|Hle]].
    + apply Z.ltb_lt in Hneg. rewrite (proj2 (Z.leb_le c' 0)), (proj2 (Z.leb_gt 0 c')) by lia. rewrite U1. cbn [io_bind io_ret].
      rewrite (IH (depth_below base r1 + depth_below base (b2 ++ r2))%nat ltac:(rewrite depth_below_app; lia) base r1 t1' o1 (b2 ++ r2) t2 objs2 fuel)
        by (done || rewrite ?depth_below_app; lia).
      rewrite diff_removed, app_assoc; [done|]. intros x y. by apply (blocks_before _ _ _ _ _ _ _ _ _ _ _ _ _ _ _ _ _ x y F1 F2 Hlt Hs2).
    + apply Z.ltb_lt in Hposi. rewrite (proj2 (Z.leb_gt c' 0)), (proj2 (Z.leb_le 0 c')) by lia. cbn [io_bind io_ret]. rewrite U2. cbn [io_bind io_ret].
      rewrite (IH (depth_below base (b1 ++ r1) + depth_below base r2)%nat ltac:(rewrite depth_below_app; lia) base (b1 ++ r1) t1 objs1 r2 t2' o2 fuel)
        by (done || rewrite ?depth_below_app; lia).
      rewrite diff_added, app_assoc; [done|]. unfold c in Hgt. rewrite lexcmp_opp in Hgt. intros y x. apply (blocks_before _ _ _ _ _ _ _ _ _ _ _ _ _ _ _ _ _ y x F2 F1 ltac:(lia) Hs1).
    + apply Z.ltb_ge in Hneg, Hposi. rewrite (proj2 (Z.leb_le c' 0)), (proj2 (Z.leb_le 0 c')) by lia. rewrite U1. cbn [io_bind io_ret]. rewrite U2. cbn [io_bind io_ret].
      rewrite (IH (depth_below base r1 + depth_below base r2)%nat ltac:(lia) base r1 t1' o1 r2 t2' o2 fuel) by (done || lia).
      rewrite diff_blocks, app_assoc; [done|..].
      * intros x y Hx Hy. apply (equal_before _ _ _ _ _ _ _ _ _ _ _ _ _ _ _ _ _ x y F1 F2); try done. apply lexcmp_eq. unfold c in *. lia.
      * intros y x Hy Hx. apply (equal_before _ _ _ _ _ _ _ _ _ _ _ _ _ _ _ _ _ y x F2 F1); try done. symmetry. apply lexcmp_eq. unfold c in *. lia.
Qed.

(** Fuel: more than the paths of both lists are long. *)
Lemma diff_tree_sha1_ok L1 t1 objs1 L2 t2 objs2 fuel q :
  tree_of [] L1 t1 objs1 -> tree_of [] L2 t2 objs2 -> StronglySorted leaf_lt L1 -> StronglySorted leaf_lt L2 ->
  Forall file_ok L1 -> Forall file_ok L2 -> Forall tree_stored (t1 :: objs1) -> Forall tree_stored (t2 :: objs2) ->
  (depth_below [] L1 + depth_below [] L2 < fuel)%nat ->
  diff_tree_sha1 o db fuel (object_name tree_type t1) (object_name tree_type t2) [] q = io_ret (q ++ diff_leaves L1 L2).
Proof.
  intros Ht1 Ht2 Hs1 Hs2 Hok1 Hok2 Hst1 Hst2 Hf. apply Forall_cons in Hst1 as [Hr1 Hst1], Hst2 as [Hr2 Hst2].
  unfold diff_tree_sha1, diff_tree_sha1_of. rewrite !read_tree_object by (done || lia). cbn [io_bind io_ret].
  by apply (diff_tree_ok (depth_below [] L1 + depth_below [] L2)%nat [] L1 t1 objs1 L2 t2 objs2).
Qed.

Lemma diff_root_tree_ok L t objs fuel q :
  tree_of [] L t objs -> StronglySorted leaf_lt L -> Forall file_ok L -> Forall tree_stored (t :: objs) -> (depth_below [] L < fuel)%nat ->
  diff_root_tree o db fuel (object_name tree_type t) [] q = io_ret (q ++ map added L).
Proof.
  intros Ht Hs Hok Hst Hf. apply Forall_cons in Hst as [Hr Hst]. unfold diff_root_tree. rewrite read_tree_object by (done || lia). cbn [io_bind io_ret].
  apply (diff_rest (depth_below [] L) 43 fuel [] L t objs); (done || lia || by left).
Qed.

End Compare.

(** C16. git-diff-tree is exact: for two trees with the files [L1] and [L2],
    stored with everything below them, [diff_tree_sha1] with the recursive
    option and no limits on the paths adds to the queue one pair for each file
    that only the first tree has, one for each that only the second has, and
    one for each path at which the two have files that are not the same in
    mode and SHA-1, in the order of the paths, and nothing else.
    [diff_root_tree] adds every file of its tree. *)
Theorem diff_trees_spec {D} {DB : ObjectDB D} (db : D) (o : opts) L1 t1 objs1 L2 t2 objs2 fuel q :
  plain o -> tree_of [] L1 t1 objs1 -> tree_of [] L2 t2 objs2 -> StronglySorted leaf_lt L1 -> StronglySorted leaf_lt L2 ->
  Forall file_ok L1 -> Forall file_ok L2 -> Forall (tree_stored db) (t1 :: objs1) -> Forall (tree_stored db) (t2 :: objs2) ->
  (depth_below [] L1 + depth_below [] L2 < fuel)%nat -> exists d,
  diff_tree_sha1 o db fuel (object_name tree_type t1) (object_name tree_type t2) [] q = io_ret (q ++ d) /\
  (forall p, p ∈ d <-> differs L1 L2 p) /\ StronglySorted (fun p p' => lexcmp (fp_path p) (fp_path p') < 0) d /\
  diff_root_tree o db fuel (object_name tree_type t2) [] q = io_ret (q ++ map added L2).
Proof.
  intros Ho Ht1 Ht2 Hs1 Hs2 Hok1 Hok2 Hst1 Hst2 Hf. exists (diff_leaves L1 L2). split; [|split; [|split]].
  - by apply (diff_tree_sha1_ok db o Ho L1 t1 objs1 L2 t2 objs2).
  - intros p. by apply diff_leaves_elem.
  - by apply diff_leaves_sorted.
  - apply (diff_root_tree_ok db o Ho L2 t2 objs2); (done || lia).
Qed.

(** ** Two small trees *)

Module DiffTreeDemo.

(** A store with these objects. *)
#[global] Instance list_db : ObjectDB (list (bytes * bytes)) := {
  db_has d n := Ret (existsb (fun o => bool_decide (object_name o.1 o.2 = n)) d);
  db_read d n := io_ret (List.find (fun o => bool_decide (object_name o.1 o.2 = n)) d);
  db_nul _ _ := true; db_write d buf type := Ret (0, object_name type buf, (type, buf) :: d);
}.

Definition blob (x : Z) : bytes := replicate 20 x.
Definition file (path : string) (x : Z) : leaf := (str path, 0x81a4, blob x).

Definition old_d : bytes := tree_entry 0x81a4 (str "b") (blob 1) ++ tree_entry 0x81a4 (str "c") (blob 1).
Definition old : bytes := tree_entry 0x81a4 (str "a") (blob 1) ++ tree_entry S_IFDIR (str "d") (object_name tree_type old_d).
Definition new_d : bytes := tree_entry 0x81a4 (str "b") (blob 2) ++ tree_entry 0x81a4 (str "d") (blob 1).
Definition new_ : bytes := tree_entry 0x81a4 (str "a") (blob 1) ++ tree_entry S_IFDIR (str "d") (object_name tree_type new_d) ++ tree_entry 0x81a4 (str "e") (blob 1).
Definition db : list (bytes * bytes) := map (pair tree_type) [old; old_d; new_; new_d].

Definition old_files : list leaf := [file "a" 1; file "d/b" 1; file "d/c" 1].
Definition new_files : list leaf := [file "a" 1; file "d/b" 2; file "d/d" 1; file "e" 1].

Definition all (paths : list bytes) : opts :=
  {| recursive := true; show_tree_entry_in_recursive := false; find_copies_harder := false; reverse_diff := false; paths := paths |}.

Lemma name_component n : forallb (fun y => negb (y =? 47)) n = true -> forallb (fun y => negb (y =? 0)) n = true -> component n.
Proof. intros H1 H2. split; by apply not_elem_check. Qed.

Lemma old_tree : tree_of [] old_files old [old_d].
Proof.
  unfold old. rewrite <- (app_nil_r (tree_entry S_IFDIR (str "d") _)). apply (tree_file [] (str "a")); [done|by apply name_component|].
  apply (tree_dir [] (str "d") [file "d/b" 1; file "d/c" 1] old_d [] [] [] []); [by apply name_component|done| |done|constructor].
  unfold old_d. rewrite <- (app_nil_r (tree_entry _ (str "c") _)). apply (tree_file (str "d/") (str "b")); [done|by apply name_component|].
  apply (tree_file (str "d/") (str "c")); [done|by apply name_component|constructor].
Qed.

Lemma new_tree : tree_of [] new_files new_ [new_d].
Proof.
  unfold new_. rewrite <- (app_nil_r (tree_entry _ (str "e") _)). apply (tree_file [] (str "a")); [done|by apply name_component|].
  apply (tree_dir [] (str "d") [file "d/b" 2; file "d/d" 1] new_d [] [file "e" 1] (tree_entry 0x81a4 (str "e") (blob 1) ++ []) []); [by apply name_component|done| | |].
  - unfold new_d. rewrite <- (app_nil_r (tree_entry _ (str "d") _)). apply (tree_file (str "d/") (str "b")); [done|by apply name_component|].
    apply (tree_file (str "d/") (str "d")); [done|by apply name_component|constructor].
  - intros [[s E] _]. discriminate E.
  - apply (tree_file [] (str "e")); [done|by apply name_component|constructor].
Qed.

(** A name that is the start of the name of another directory. *)
Definition abc (x y : Z) : bytes := tree_entry 0x81a4 (str "x") (blob x) ++ tree_entry 0x81a4 (str "y") (blob y).
Definition root (x y : Z) : bytes := tree_entry S_IFDIR (str "abc") (object_name tree_type (abc x y)).
Definition db2 : list (bytes * bytes) := map (pair tree_type) [root 1 1; abc 1 1; root 2 2; abc 2 2].
Definition limited (paths : list bytes) : io (list bytes) :=
  q <- diff_tree_sha1 (all paths) db2 20 (object_name tree_type (root 1 1)) (object_name tree_type (root 2 2)) [] [] ;;
  io_ret (map fp_path q).

End DiffTreeDemo.

Lemma diff_trees_spec_witness : exists d,
  diff_tree_sha1 (DiffTreeDemo.all []) DiffTreeDemo.db 30 (object_name tree_type DiffTreeDemo.old) (object_name tree_type DiffTreeDemo.new_) [] [] = io_ret ([] ++ d) /\
  (forall p, p ∈ d <-> differs DiffTreeDemo.old_files DiffTreeDemo.new_files p) /\ StronglySorted (fun p p' => lexcmp (fp_path p) (fp_path p') < 0) d /\
  diff_root_tree (DiffTreeDemo.all []) DiffTreeDemo.db 30 (object_name tree_type DiffTreeDemo.new_) [] [] = io_ret ([] ++ map added DiffTreeDemo.new_files).
Proof.
  apply (diff_trees_spec DiffTreeDemo.db (DiffTreeDemo.all []) DiffTreeDemo.old_files DiffTreeDemo.old [DiffTreeDemo.old_d]
    DiffTreeDemo.new_files DiffTreeDemo.new_ [DiffTreeDemo.new_d] 30 []).
  - done.
  - exact DiffTreeDemo.old_tree.
  - exact DiffTreeDemo.new_tree.
  - repeat constructor.
  - repeat constructor.
  - apply (bool_decide_unpack _). vm_compute. exact I.
  - apply (bool_decide_unpack _). vm_compute. exact I.
  - repeat (constructor; [split; vm_compute; reflexivity|]). constructor.
  - repeat (constructor; [split; vm_compute; reflexivity|]). constructor.
  - vm_compute. lia.
Defined.

(** One file changed, one removed, two added. *)
Example diff_trees_computed :
  diff_tree_sha1 (DiffTreeDemo.all []) DiffTreeDemo.db 30 (object_name tree_type DiffTreeDemo.old) (object_name tree_type DiffTreeDemo.new_) [] [] =
  io_ret [changed (DiffTreeDemo.file "d/b" 1) (DiffTreeDemo.file "d/b" 2); removed (DiffTreeDemo.file "d/c" 1);
          added (DiffTreeDemo.file "d/d" 1); added (DiffTreeDemo.file "e" 1)].
Proof. vm_compute. reflexivity. Qed.

(** [interesting] compares a limit that is not longer than the base with the
    start of the base, and does not ask for a slash behind it: with the limits
    [abc/x] and [ab] everything in [abc] is shown, though neither names
    [abc/y]. *)
Example path_limit_prefix :
  DiffTreeDemo.limited [str "ab"] = io_ret [] /\ DiffTreeDemo.limited [str "abc/x"] = io_ret [str "abc/x"] /\
  DiffTreeDemo.limited [str "ab"; str "abc/x"] = io_ret [str "abc/x"; str "abc/y"].
Proof. vm_compute. done. Qed.
