(* ===== verification/DiffIndex.v ===== *)
(** * git-diff-cache and git-diff-files

    diff-cache.c: the index, or the working tree as the index knows it, against
    a tree that is read into stage 1 of the index; diff-files.c: the working
    tree against the index.  Both fill the queue of DiffTree.v.
    [diff_cache_spec] and [diff_files_spec] say that what they queue is the
    difference of two lists of files. *)

From stdpp Require Import base list numbers strings sorting.
From Stdlib Require Import ZArith Lia.
From S2P Require Import Prelude Hex CacheEntry Index IndexFile CsumFile CString ObjectHeader ObjectDB Tree UpdateCache DiffTree.

(** ** The programs *)

Definition diff_unmerge (queue : list filepair) (path : bytes) : list filepair :=
  diff_queue queue (alloc_filespec path) (alloc_filespec path).

Definition null_sha1 : bytes := replicate 20 0.

(** [cached_only] and [match_nonexisting] are set by [--cached] and [-m]. *)
Section Code.
Context (o : DiffTree.opts) (cached_only match_nonexisting : bool) {WT : WorkTree}.

(** [ce_mode] is in host order. *)
Definition show_ce (queue : list filepair) (prefix : Z) (ce : cache_entry) (sha1 : bytes) (mode : Z) : outcome (list filepair) :=
  diff_addremove o queue prefix mode sha1 (ce_name ce) [].

(** [None]: -1. *)
Definition get_stat_data (ce : cache_entry) : outcome (option (bytes * Z)) :=
  if cached_only then Ret (Some (ce_sha1 ce, ce_mode ce))
  else
    match wt_lstat (ce_name ce) with
    | inl errno => Ret (if (errno =? ENOENT) && match_nonexisting then Some (ce_sha1 ce, ce_mode ce) else None)
    | inr st =>
        changed ← ce_match_stat ce st;
        Ret (Some (if negb (changed =? 0) then (null_sha1, create_ce_mode (st_mode st)) else (ce_sha1 ce, ce_mode ce)))
    end.

Definition show_new_file (queue : list filepair) (new : cache_entry) : outcome (list filepair) :=
  d ← get_stat_data new;
  match d with
  | None => Ret queue
  | Some (sha1, mode) => show_ce queue 43 new sha1 mode
  end.

Definition show_modified (queue : list filepair) (old new : cache_entry) (report_missing : bool) : outcome (Z * list filepair) :=
  d ← get_stat_data new;
  match d with
  | None => queue ← (if report_missing then show_ce queue 45 old (ce_sha1 old) (ce_mode old) else Ret queue); Ret (-1, queue)
  | Some (sha1, mode) =>
      if (mode =? ce_mode old) && (memcmp 20 sha1 (ce_sha1 old) =? 0) && negb (find_copies_harder o) then Ret (0, queue)
      else queue ← diff_change o queue (ce_mode old) mode (ce_sha1 old) sha1 (ce_name old) []; Ret (0, queue)
  end.

(** [while (entries && ce_same_name(ce, ac[0]))] *)
Fixpoint skip_same (ce : cache_entry) (ac : list cache_entry) : list cache_entry :=
  match ac with
  | next :: rest => if ce_same_name ce next then skip_same ce rest else ac
  | [] => []
  end.

(** The [switch]; [next] is [ac[1]] when it has the name of [ce]. *)
Definition diff_entry (queue : list filepair) (ce : cache_entry) (next : option cache_entry) : outcome (list filepair) :=
  if ce_stage ce =? 0 then
    match next with
    | None => show_new_file queue ce
    | Some old => '(_, queue) ← show_modified queue old ce true; Ret queue
    end
  else if ce_stage ce =? 1 then
    match next with
    | None => show_ce queue 45 ce (ce_sha1 ce) (ce_mode ce)
    | Some new =>
        '(r, queue) ← (if negb cached_only then show_modified queue ce new false else Ret (-1, queue));
        if r =? 0 then Ret queue else Ret (diff_unmerge queue (ce_name ce))
    end
  else if ce_stage ce =? 3 then Ret (diff_unmerge queue (ce_name ce))
  else Die.

(** [while (entries)] *)
Fixpoint diff_cache (fuel : nat) (ac : list cache_entry) (queue : list filepair) : io (list filepair) :=
  match fuel with
  | O => None
  | S fuel =>
      match ac with
      | [] => io_ret queue
      | ce :: rest =>
          let next := match rest with n :: _ => if ce_same_name ce n then Some n else None | [] => None end in
          queue <- Some (diff_entry queue ce next) ;;
          diff_cache fuel (skip_same ce rest) queue
      end
  end.

Definition mark_merge_entries (cache : list cache_entry) : list cache_entry :=
  map (fun ce => if ce_stage ce =? 0 then ce
                 else {| ce_ctime := ce_ctime ce; ce_mtime := ce_mtime ce; ce_dev := ce_dev ce; ce_ino := ce_ino ce; ce_mode := ce_mode ce;
                         ce_uid := ce_uid ce; ce_gid := ce_gid ce; ce_st_size := ce_st_size ce; ce_sha1 := ce_sha1 ce;
                         ce_flags := Z.lor (ce_flags ce) CE_STAGEMASK; ce_name := ce_name ce |}) cache.

(** [main] from [mark_merge_entries] up to [diffcore_std]; [i] is what
    [read_cache] made, [sha1] what [get_sha1] made of the name of the tree. *)
Definition diff_cache_main {D} {DB : ObjectDB D} (fuel : nat) (db : D) (i : index) (sha1 : bytes) : io (list filepair) :=
  let i := set_cache i (mark_merge_entries (active_cache i)) in
  tree <- DiffTree.read_object_with_reference db fuel sha1 (str "tree") ;;
  match tree with
  | None => Some Die
  | Some tree =>
      r <- read_tree fuel db i tree 1 ;;
      let '(r, i) := r in
      if negb (r =? 0) then Some Die else diff_cache (S (length (active_cache i))) (active_cache i) []
  end.

(** [while (i < entries && !strcmp(ce->name, active_cache[i]->name))]: names
    without NULs. *)
Fixpoint skip_name (ce : cache_entry) (l : list cache_entry) : list cache_entry :=
  match l with
  | next :: rest => if bool_decide (ce_name ce = ce_name next) then skip_name ce rest else l
  | [] => []
  end.

(** The loop of [main] of diff-files.c, without the messages. *)
Fixpoint diff_files (fuel : nat) (silent : bool) (l : list cache_entry) (queue : list filepair) : io (list filepair) :=
  match fuel with
  | O => None
  | S fuel =>
      match l with
      | [] => io_ret queue
      | ce :: rest =>
          if negb (ce_stage ce =? 0) then diff_files fuel silent (skip_name ce l) (diff_unmerge queue (ce_name ce))
          else
            match wt_lstat (ce_name ce) with
            | inl errno =>
                if negb (errno =? ENOENT) && negb (errno =? ENOTDIR) then diff_files fuel silent rest queue
                else if silent then diff_files fuel silent rest queue
                else queue <- Some (show_ce queue 45 ce (ce_sha1 ce) (ce_mode ce)) ;; diff_files fuel silent rest queue
            | inr st =>
                changed <- Some (ce_match_stat ce st) ;;
                if (changed =? 0) && negb (find_copies_harder o) then diff_files fuel silent rest queue
                else
                  queue <- Some (diff_change o queue (ce_mode ce) (canon_mode (st_mode st)) (ce_sha1 ce) (if negb (changed =? 0) then null_sha1 else ce_sha1 ce) (ce_name ce) []) ;;
                  diff_files fuel silent rest queue
            end
      end
  end.

End Code.

(** ** Lists of names *)

Definition name_lt (x y : cache_entry) : Prop := lexcmp (ce_name x) (ce_name y) < 0.

Lemma name_lt_key x y : name_lt x y -> ce_lt x y.
Proof. unfold name_lt, ce_lt, kcmp. cbn [fst snd ce_key]. destruct (Z.eqb_spec (lexcmp (ce_name x) (ce_name y)) 0); lia. Qed.

Lemma merged_name_lt cache : index_ok cache -> Forall (fun ce => ce_stage ce = 0) cache -> StronglySorted name_lt cache.
Proof.
  intros [Hwf Hs] Hst. induction Hs as [|ce cache Hs IH HF]; [constructor|]. apply Forall_cons in Hwf as [Hce Hwf], Hst as [H0 Hst].
  constructor; [by apply IH|]. rewrite Forall_forall in HF, Hwf, Hst |- *. intros x Hx. specialize (HF x Hx).
  pose proof (merged_names ce x Hce (Hwf x Hx) ltac:(by rewrite H0, (Hst x Hx)) (ce_key_lt_ne _ _ HF)) as Hne.
  pose proof (kcmp_names _ _ _ HF) as Hle. unfold name_lt. destruct (Z.eq_dec (lexcmp (ce_name ce) (ce_name x)) 0) as [E|]; [|lia].
  by apply lexcmp_eq in E.
Qed.

(** The index with a tree in stage 1. *)
Fixpoint interleave (l : list leaf) : list cache_entry -> list cache_entry :=
  fix go cache :=
    match l, cache with
    | [], _ => cache
    | _, [] => map (leaf_ce 1) l
    | a :: l', c :: cache' =>
        let cmp := lexcmp (leaf_path a) (ce_name c) in
        if cmp <? 0 then leaf_ce 1 a :: interleave l' cache
        else if 0 <? cmp then c :: go cache'
        else c :: leaf_ce 1 a :: interleave l' cache'
    end.

Lemma interleave_nil_l cache : interleave [] cache = cache.
Proof. by destruct cache. Qed.
Lemma interleave_nil_r l : interleave l [] = map (leaf_ce 1) l.
Proof. by destruct l. Qed.
Lemma interleave_cons a l c cache : interleave (a :: l) (c :: cache) =
  if lexcmp (leaf_path a) (ce_name c) <? 0 then leaf_ce 1 a :: interleave l (c :: cache)
  else if 0 <? lexcmp (leaf_path a) (ce_name c) then c :: interleave (a :: l) cache
  else c :: leaf_ce 1 a :: interleave l cache.
Proof. reflexivity. Qed.

Lemma interleave_perm l : forall cache, interleave l cache ≡ₚ cache ++ map (leaf_ce 1) l.
Proof.
  induction l as [|a l IHl]; intros cache; [by rewrite interleave_nil_l, app_nil_r|].
  induction cache as [|c cache IHc]; [by rewrite interleave_nil_r|]. rewrite interleave_cons. cbn [map].
  destruct (_ <? 0); [|destruct (0 <? _)].
  - rewrite IHl. by rewrite (Permutation_middle (c :: cache)).
  - rewrite IHc. cbn [map app]. done.
  - rewrite IHl. cbn [app]. by rewrite (Permutation_middle cache).
Qed.

Lemma interleave_elem l cache x : x ∈ interleave l cache <-> x ∈ cache \/ x ∈ map (leaf_ce 1) l.
Proof. by rewrite interleave_perm, elem_of_app. Qed.

(** The head of [interleave] is before the rest. *)
Lemma interleave_before (R : cache_entry -> cache_entry -> Prop) x l cache :
  (forall c, c ∈ cache -> R x c) -> (forall a, a ∈ l -> R x (leaf_ce 1 a)) -> Forall (R x) (interleave l cache).
Proof.
  intros Hc Ha. apply Forall_forall. intros y [Hy|Hy]%interleave_elem; [by apply Hc|]. apply list_elem_of_fmap in Hy as (a&->&Hy). by apply Ha.
Qed.

Definition leaf_fine (l : leaf) : Prop := leaf_ok l /\ (length (leaf_path l) < 4096)%nat.

Lemma leaf_ce_after c a : ce_wf c -> ce_stage c = 0 -> leaf_fine a -> ce_name c = leaf_path a -> ce_lt c (leaf_ce 1 a).
Proof.
  intros Hc H0 [_ Hl] E. destruct (leaf_ce_wf 1 a ltac:(lia) Hl) as [_ Hf]. unfold ce_lt, kcmp, ce_key. cbn [fst snd].
  change (ce_name (leaf_ce 1 a)) with (leaf_path a). rewrite E, lexcmp_refl, Hf, (wf_flags c Hc), H0, E. cbn [Z.eqb].
  destruct (Z.ltb_spec (Z.of_nat (length (leaf_path a)) + 4096 * 0) (Z.of_nat (length (leaf_path a)) + 4096 * 1)); lia.
Qed.

Lemma interleave_ok l : forall cache, index_ok cache -> Forall (fun ce => ce_stage ce = 0) cache -> StronglySorted leaf_lt l -> Forall leaf_fine l ->
  index_ok (interleave l cache).
Proof.
  intros cache Hix Hst Hs Hl. pose proof (merged_name_lt cache Hix Hst) as Hn. destruct Hix as [Hwf _]. split.
  { apply Forall_forall. intros x [Hx|Hx]%interleave_elem; [by rewrite Forall_forall in Hwf; apply Hwf|].
    apply list_elem_of_fmap in Hx as (a&->&Ha). rewrite Forall_forall in Hl. apply leaf_ce_wf; [lia|]. by apply (Hl a Ha). }
  revert cache Hst Hn Hwf. induction l as [|a l IHl]; intros cache Hst Hn Hwf.
  - rewrite interleave_nil_l. induction Hn as [|c cache Hn IH HF]; [constructor|]. apply Forall_cons in Hst as [_ Hst], Hwf as [_ Hwf].
    constructor; [by apply IH|]. eapply Forall_impl; [exact HF|]. intros y. apply name_lt_key.
  - apply Forall_cons in Hl as [Ha Hl]. apply sorted_head in Hs as [Hs Hal]. specialize (IHl Hs Hl).
    induction cache as [|c cache IHc].
    + rewrite interleave_nil_r. cbn [map]. specialize (IHl [] Hst Hn Hwf). rewrite interleave_nil_r in IHl. constructor; [done|].
      apply Forall_map, Forall_forall. intros b Hb. apply name_lt_key. by apply Hal.
    + rewrite interleave_cons. pose proof Hst as [H0 Hst']%Forall_cons. pose proof Hwf as [Hc Hwf']%Forall_cons.
      pose proof Hn as [Hn' HF]%StronglySorted_inv. rewrite Forall_forall in HF.
      destruct (Z.ltb_spec (lexcmp (leaf_path a) (ce_name c)) 0) as [Hlt|Hge]; [|destruct (Z.ltb_spec 0 (lexcmp (leaf_path a) (ce_name c))) as [Hgt|Hle]].
      * constructor; [by apply IHl|]. apply interleave_before.
        -- intros y [->|Hy]%elem_of_cons; apply name_lt_key; [done|]. unfold name_lt. eapply lexcmp_trans; [exact Hlt|]. by apply HF.
        -- intros b Hb. apply name_lt_key. by apply Hal.
      * constructor; [by apply IHc|]. apply interleave_before.
        -- intros y Hy. apply name_lt_key. by apply HF.
        -- rewrite lexcmp_opp in Hgt. intros b [->|Hb]%elem_of_cons; apply name_lt_key; unfold name_lt; change (ce_name (leaf_ce 1 ?x)) with (leaf_path x); [lia|].
           eapply lexcmp_trans; [|by apply Hal]. lia.
      * assert (E : ce_name c = leaf_path a) by (symmetry; apply lexcmp_eq; lia).
        constructor; [constructor; [by apply IHl|]|constructor].
        -- apply interleave_before; intros y Hy; apply name_lt_key; [|by apply Hal]. unfold name_lt. change (ce_name (leaf_ce 1 a)) with (leaf_path a). rewrite <- E. by apply HF.
        -- by apply leaf_ce_after.
        -- apply interleave_before; intros y Hy; apply name_lt_key; [by apply HF|]. unfold name_lt. rewrite E. by apply Hal.
Qed.

(** ** git-diff-cache *)

Definition straight (o : DiffTree.opts) : Prop := find_copies_harder o = false /\ reverse_diff o = false.

Section Compare.
Context (o : DiffTree.opts) (Hstraight : straight o) (cached_only match_nonexisting : bool) {WT : WorkTree}.

Definition unchanged (ce : cache_entry) (st : stat) : bool := match ce_match_stat ce st with Ret changed => changed =? 0 | _ => false end.

(** What an entry of the index is compared as: the entry itself, or what
    [lstat] says when that is asked and is not what the index remembers. *)
Definition seen (ce : cache_entry) : option leaf :=
  if cached_only then Some (ce_leaf ce)
  else
    match wt_lstat (ce_name ce) with
    | inl errno => if (errno =? ENOENT) && match_nonexisting then Some (ce_leaf ce) else None
    | inr st => Some (if unchanged ce st then ce_leaf ce else (ce_name ce, create_ce_mode (st_mode st), null_sha1))
    end.

Lemma seen_path ce l : seen ce = Some l -> leaf_path l = ce_name ce.
Proof. unfold seen. destruct cached_only; [by intros [= <-]|]. destruct (wt_lstat _); [destruct (_ && _)|destruct (unchanged _ _)]; by intros [= <-]. Qed.

Lemma git_mode_stored mode : git_mode mode -> u16 mode = mode /\ canon_mode mode = mode /\ (mode =? 0) = false.
Proof. by intros [->|[->| ->]]. Qed.

Lemma create_ce_mode_git mode : git_mode (create_ce_mode mode).
Proof. unfold create_ce_mode, ce_permissions, git_mode. destruct (S_ISLNK mode); [by right; right|]. destruct (negb _); vm_compute; auto. Qed.

Lemma fill_stored spec sha1 mode : git_mode mode -> fill_filespec spec sha1 mode =
  {| fs_path := fs_path spec; fs_mode := mode; fs_sha1 := sha1; fs_sha1_valid := Some (negb (memcmp 20 sha1 (replicate 20 0) =? 0)); fs_data := fs_data spec |}.
Proof. intros Hm. unfold fill_filespec. cbv zeta. by destruct (git_mode_stored mode Hm) as (->&->&->). Qed.

Lemma match_stat_returns ce st : git_mode (ce_mode ce) -> exists changed, ce_match_stat ce st = Ret changed.
Proof. unfold ce_match_stat. intros [->|[->| ->]]; eexists; reflexivity. Qed.

Lemma get_stat_data_seen ce : leaf_fine (ce_leaf ce) ->
  get_stat_data cached_only match_nonexisting ce = Ret (match seen ce with Some l => Some (l.2, l.1.2) | None => None end) /\
  (forall l, seen ce = Some l -> leaf_fine l).
Proof.
  intros [[Hm Hs] Hl]. unfold get_stat_data, seen. destruct cached_only; [by split; [|intros l [= <-]]|].
  destruct (wt_lstat (ce_name ce)) as [errno|st]; [destruct (_ && _); split; try done; by intros l [= <-]|].
  unfold unchanged. destruct (match_stat_returns ce st Hm) as [changed ->]. rewrite bind_Ret. destruct (changed =? 0).
  - split; [done|]. by intros l [= <-].
  - split; [done|]. intros l [= <-]. split; [|done]. split; [apply create_ce_mode_git|done].
Qed.

(** A leaf that is only in the tree, or only in the index. *)
Lemma show_ce_ok q prefix ce l : prefix = 43 \/ prefix = 45 -> leaf_fine l -> leaf_path l = ce_name ce ->
  show_ce o q prefix ce l.2 l.1.2 = Ret (q ++ [shown prefix l]).
Proof.
  intros Hp [[Hm _] Hl] E. unfold show_ce, diff_addremove, concat_path. rewrite <- E, app_nil_r. destruct Hstraight as [_ ->].
  rewrite (proj2 (Nat.leb_gt _ _)), bind_Ret by lia. rewrite fill_stored by done. by destruct Hp as [->| ->].
Qed.

Lemma show_new_file_ok q ce : leaf_fine (ce_leaf ce) ->
  show_new_file o cached_only match_nonexisting q ce = Ret (q ++ map added (option_list (seen ce))).
Proof.
  intros Hl. destruct (get_stat_data_seen ce Hl) as [Hg Hf]. unfold show_new_file. rewrite Hg, bind_Ret. destruct (seen ce) as [l|] eqn:E; [|by rewrite app_nil_r].
  rewrite (show_ce_ok q 43 ce l); [done|by left|by apply Hf|by apply seen_path].
Qed.

Lemma show_modified_ok q old new a : leaf_fine a -> leaf_fine (ce_leaf new) -> leaf_path a = ce_name new ->
  ce_name old = leaf_path a -> ce_mode old = a.1.2 -> ce_sha1 old = a.2 ->
  exists r, show_modified o cached_only match_nonexisting q old new true = Ret (r, q ++ match seen new with None => [removed a] | Some l => change_of a l end).
Proof.
  intros Ha Hnew E En Em Es. destruct (get_stat_data_seen new Hnew) as [Hg Hf]. unfold show_modified. rewrite Hg, bind_Ret.
  destruct (seen new) as [l|] eqn:Eseen.
  - pose proof (seen_path _ _ Eseen) as Ep. specialize (Hf l eq_refl). destruct Ha as [[Hma Hsa] Hla], Hf as [[Hml Hsl] Hll].
    rewrite Em, Es, En. destruct Hstraight as [-> Hrev]. rewrite andb_true_r. exists 0. unfold change_of. destruct (decide (a = l)) as [<-|Hne].
    + rewrite Z.eqb_refl, (proj2 (Z.eqb_eq _ 0)), app_nil_r; [done|]. apply memcmp_eq; lia || done.
    + assert (Hb : (l.1.2 =? a.1.2) && (memcmp 20 l.2 a.2 =? 0) = false).
      { apply andb_false_iff. destruct (Z.eqb_spec l.1.2 a.1.2) as [Emode|]; [right|by left]. apply Z.eqb_neq. rewrite memcmp_eq, !take_ge by lia.
        intros Esha. apply Hne. destruct a as [[pa ma] sa], l as [[pl ml] sl]. unfold leaf_path in *. cbn in *. congruence. }
      rewrite Hb. unfold diff_change, concat_path, diff_queue. rewrite Hrev, app_nil_r, (proj2 (Nat.leb_gt _ _)), bind_Ret, !fill_stored by (done || lia). unfold changed, spec_of. by rewrite Ep, E.
  - rewrite Em, Es. rewrite (show_ce_ok q 45 old a) by (done || by right). by exists (-1).
Qed.

(** The names behind an entry are others. *)
Lemma skip_other ce l : ce_wf ce -> Forall ce_wf l -> Forall (fun x => ce_name ce <> ce_name x) l ->
  skip_same ce l = l /\ match l with n :: _ => if ce_same_name ce n then Some n else None | [] => None end = None.
Proof.
  intros Hce Hw Hn. destruct l as [|x l]; [done|]. apply Forall_cons in Hw as [Hx _], Hn as [Hne _]. cbn [skip_same].
  destruct (ce_same_name ce x) eqn:E; [|done]. by apply ce_same_name_iff in E.
Qed.

Lemma option_list_omap (c : cache_entry) cache : omap seen (c :: cache) = option_list (seen c) ++ omap seen cache.
Proof. cbn. by destruct (seen c). Qed.

Lemma seen_before x c cache : (forall y, y ∈ c :: cache -> lexcmp x (ce_name y) < 0) -> forall l, l ∈ omap seen (c :: cache) -> lexcmp x (leaf_path l) < 0.
Proof. intros H l (y&Hy&E)%list_elem_of_omap. rewrite (seen_path _ _ E). by apply H. Qed.

Lemma name_lt_ne x y : name_lt x y -> ce_name x <> ce_name y.
Proof. unfold name_lt. intros H E. by rewrite E, lexcmp_refl in H. Qed.

(** The heads of [interleave] and what their names are before. *)
Lemma interleave_later x l cache : (forall c, c ∈ cache -> name_lt x c) -> (forall a, a ∈ l -> name_lt x (leaf_ce 1 a)) ->
  Forall (fun y => ce_name x <> ce_name y) (interleave l cache).
Proof. intros Hc Ha. apply (interleave_before (fun x y => ce_name x <> ce_name y)); intros y Hy; apply name_lt_ne; auto. Qed.

Lemma diff_cache_one fuel ce rest q q' : ce_wf ce -> Forall ce_wf rest -> Forall (fun x => ce_name ce <> ce_name x) rest ->
  diff_entry o cached_only match_nonexisting q ce None = Ret q' ->
  diff_cache o cached_only match_nonexisting (S fuel) (ce :: rest) q = diff_cache o cached_only match_nonexisting fuel rest q'.
Proof. intros Hce Hw Hn He. destruct (skip_other ce rest Hce Hw Hn) as [Es En]. cbn [diff_cache]. by rewrite En, He, Es. Qed.

Lemma diff_cache_two fuel ce ce2 rest q q' : ce_wf ce -> ce_wf ce2 -> ce_name ce = ce_name ce2 -> Forall ce_wf rest -> Forall (fun x => ce_name ce <> ce_name x) rest ->
  diff_entry o cached_only match_nonexisting q ce (Some ce2) = Ret q' ->
  diff_cache o cached_only match_nonexisting (S fuel) (ce :: ce2 :: rest) q = diff_cache o cached_only match_nonexisting fuel rest q'.
Proof.
  intros Hce H2 E Hw Hn He. destruct (skip_other ce rest Hce Hw Hn) as [Es _]. apply (ce_same_name_iff ce ce2 Hce H2) in E.
  cbn [diff_cache skip_same]. by rewrite E, He, Es.
Qed.

Lemma entry_new q c : ce_stage c = 0 -> leaf_fine (ce_leaf c) ->
  diff_entry o cached_only match_nonexisting q c None = Ret (q ++ map added (option_list (seen c))).
Proof. intros H0 Hc. unfold diff_entry. rewrite H0. by apply show_new_file_ok. Qed.

Lemma leaf_ce_mode a : leaf_fine a -> ce_mode (leaf_ce 1 a) = a.1.2.
Proof. intros [[Hm _] _]. apply (git_mode_canonical _ Hm). Qed.

Lemma entry_deleted q a : leaf_fine a -> diff_entry o cached_only match_nonexisting q (leaf_ce 1 a) None = Ret (q ++ [removed a]).
Proof.
  intros Ha. unfold diff_entry. rewrite leaf_ce_stage by (lia || apply Ha). change (1 =? 0) with false. change (1 =? 1) with true. cbv iota.
  rewrite leaf_ce_mode by done. apply (show_ce_ok q 45 (leaf_ce 1 a) a); [by right|done|done].
Qed.

Lemma entry_both q a c : leaf_fine a -> ce_stage c = 0 -> leaf_fine (ce_leaf c) -> leaf_path a = ce_name c ->
  diff_entry o cached_only match_nonexisting q c (Some (leaf_ce 1 a)) = Ret (q ++ diff_leaves [a] (option_list (seen c))).
Proof.
  intros Ha H0 Hc E. unfold diff_entry. rewrite H0. change (0 =? 0) with true. cbv iota.
  destruct (show_modified_ok q (leaf_ce 1 a) c a) as [r ->]; try done; [by apply leaf_ce_mode|]. rewrite bind_Ret. do 2 f_equal.
  destruct (seen c) as [l|] eqn:El; [|done]. change (option_list (Some l)) with [l]. rewrite diff_cons, (seen_path _ _ El), <- E, lexcmp_refl. cbn. by rewrite app_nil_r.
Qed.

Lemma leaf_ce_wfs l : Forall leaf_fine l -> Forall ce_wf (map (leaf_ce 1) l).
Proof. intros H. apply Forall_map. eapply Forall_impl; [exact H|]. intros a [_ Ha]. by apply leaf_ce_wf. Qed.

Lemma interleave_wf l cache : Forall leaf_fine l -> Forall ce_wf cache -> Forall ce_wf (interleave l cache).
Proof. intros Hl Hc. rewrite interleave_perm, Forall_app. split; [done|by apply leaf_ce_wfs]. Qed.

(** The loop over the index with the tree in it. *)
Lemma diff_cache_ok l : forall cache fuel q, Forall leaf_fine l -> StronglySorted leaf_lt l ->
  Forall ce_wf cache -> StronglySorted name_lt cache -> Forall (fun ce => ce_stage ce = 0) cache -> Forall leaf_fine (map ce_leaf cache) ->
  (length (interleave l cache) < fuel)%nat ->
  diff_cache o cached_only match_nonexisting fuel (interleave l cache) q = io_ret (q ++ diff_leaves l (omap seen cache)).
Proof.
  induction l as [|a l IHl].
  - intros cache fuel q _ _ Hwf Hn Hst Hlf. rewrite interleave_nil_l, diff_nil_l. revert fuel q Hst Hwf Hlf.
    induction Hn as [|c cache Hn IH HF]; intros [|fuel] q Hst Hwf Hlf Hf; [cbn in Hf; lia|by rewrite app_nil_r|cbn in Hf; lia|].
    apply Forall_cons in Hst as [H0 Hst], Hwf as [Hc Hwf], Hlf as [Hlc Hlf].
    rewrite (diff_cache_one fuel c cache q (q ++ map added (option_list (seen c))) Hc Hwf).
    + cbn [length] in Hf. rewrite IH by (done || lia). by rewrite option_list_omap, map_app, app_assoc.
    + eapply Forall_impl; [exact HF|]. intros y. apply name_lt_ne.
    + by apply entry_new.
  - intros cache fuel q Hl Hs Hwf Hn Hst Hlf. pose proof Hl as [Ha Hl']%Forall_cons. apply sorted_head in Hs as [Hs Hal].
    assert (Hawf : ce_wf (leaf_ce 1 a)) by (by apply leaf_ce_wf; [lia|apply Ha]).
    assert (Hal' : forall b, b ∈ l -> name_lt (leaf_ce 1 a) (leaf_ce 1 b)) by (intros b Hb; by apply Hal).
    revert fuel q. induction cache as [|c cache IHc]; intros [|fuel] q Hf; [lia| |lia|].
    + rewrite interleave_nil_r in Hf |- *. cbn [map length] in Hf |- *. pose proof (interleave_nil_r l) as En.
      rewrite (diff_cache_one fuel _ _ q (q ++ [removed a])); [|done|by apply leaf_ce_wfs| |by apply entry_deleted].
      * rewrite <- En, (IHl [] fuel) by (done || rewrite En; lia). cbn [omap list_omap]. rewrite !diff_nil_r. by rewrite <- app_assoc.
      * rewrite <- En. apply interleave_later; [by intros ? ?%elem_of_nil|done].
    + pose proof Hst as [H0 Hst']%Forall_cons. pose proof Hwf as [Hc Hwf']%Forall_cons. pose proof Hlf as [Hlc Hlf']%Forall_cons.
      pose proof Hn as [Hn' HF]%StronglySorted_inv. rewrite Forall_forall in HF. rewrite interleave_cons in Hf |- *.
      destruct (Z.ltb_spec (lexcmp (leaf_path a) (ce_name c)) 0) as [Hlt|Hge]; [|destruct (Z.ltb_spec 0 (lexcmp (leaf_path a) (ce_name c))) as [Hgt|Hle]]; cbn [length] in Hf.
      * assert (Hac : forall y, y ∈ c :: cache -> name_lt (leaf_ce 1 a) y).
        { intros y [->|Hy]%elem_of_cons; [done|]. unfold name_lt. eapply lexcmp_trans; [exact Hlt|by apply HF]. }
        rewrite (diff_cache_one fuel _ _ q (q ++ [removed a])); [|done|by apply interleave_wf|by apply interleave_later|by apply entry_deleted].
        rewrite IHl by (done || lia). rewrite <- app_assoc. f_equal. f_equal. symmetry. apply (diff_removed [a]).
        intros x y ->%list_elem_of_singleton. by apply seen_before.
      * rewrite lexcmp_opp in Hgt.
        assert (Hca : forall b, b ∈ a :: l -> name_lt c (leaf_ce 1 b)).
        { intros b [->|Hb]%elem_of_cons; unfold name_lt; change (ce_name (leaf_ce 1 ?x)) with (leaf_path x); [lia|]. eapply lexcmp_trans; [|by apply Hal]. lia. }
        rewrite (diff_cache_one fuel _ _ q (q ++ map added (option_list (seen c)))); [|done|by apply interleave_wf|by apply interleave_later|by apply entry_new].
        rewrite IHc by (done || lia). rewrite <- app_assoc, option_list_omap. f_equal. f_equal. symmetry. apply diff_added.
        intros y x Hy Hx. unfold leaf_lt. destruct (seen c) as [s|] eqn:Es; [|by apply elem_of_nil in Hy]. apply list_elem_of_singleton in Hy as ->.
        rewrite (seen_path _ _ Es). by apply Hca.
      * assert (E : leaf_path a = ce_name c) by (apply lexcmp_eq; lia).
        assert (Hcb : forall b, b ∈ l -> name_lt c (leaf_ce 1 b)) by (intros b Hb; unfold name_lt; rewrite <- E; by apply Hal).
        rewrite (diff_cache_two fuel c (leaf_ce 1 a) _ q (q ++ diff_leaves [a] (option_list (seen c)))); [|done|done|done|by apply interleave_wf|by apply interleave_later|by apply entry_both].
        rewrite IHl by (done || lia). rewrite <- app_assoc, option_list_omap. f_equal. f_equal. symmetry. apply (diff_blocks [a]).
        -- intros x y ->%list_elem_of_singleton (d&Hd&Ed)%list_elem_of_omap. unfold leaf_lt. rewrite (seen_path _ _ Ed), E. by apply HF.
        -- intros y x Hy Hx. unfold leaf_lt. destruct (seen c) as [s|] eqn:Es; [|by apply elem_of_nil in Hy]. apply list_elem_of_singleton in Hy as ->.
           rewrite (seen_path _ _ Es), <- E. by apply Hal.
Qed.

Lemma file_ok_fine l : Forall file_ok l -> Forall leaf_fine l.
Proof. intros H. eapply Forall_impl; [exact H|]. intros a (H1&_&H2). by split. Qed.

Lemma mark_merged cache : Forall (fun ce => ce_stage ce = 0) cache -> mark_merge_entries cache = cache.
Proof. unfold mark_merge_entries. induction 1 as [|ce cache H0 _ IH]; [done|]. cbn [map]. rewrite H0, IH. done. Qed.

(** Trees that can be read, under names of twenty bytes. *)
Definition tree_held {D} {DB : ObjectDB D} (db : D) (t : bytes) : Prop :=
  db_holds db (tree_type, t) /\ length (object_name tree_type t) = 20%nat.

Lemma held_stored {D} {DB : ObjectDB D} (db : D) l : Forall (tree_held db) l -> Forall (tree_stored db) l.
Proof. intros H. eapply Forall_impl; [exact H|]. intros t [[_ Hr] Hl]. by split. Qed.

Lemma diff_cache_main_ok {D} {DB : ObjectDB D} (db : D) (i : index) L t objs fuel :
  tree_of [] L t objs -> StronglySorted leaf_lt L -> Forall leaf_fine L -> Forall (tree_held db) (t :: objs) ->
  index_inv i -> Forall (fun ce => ce_stage ce = 0) (active_cache i) -> Forall leaf_fine (map ce_leaf (active_cache i)) ->
  Z.of_nat (length (active_cache i) + length L) < 2 ^ 30 -> (depth_below [] L < fuel)%nat ->
  diff_cache_main o cached_only match_nonexisting fuel db i (object_name tree_type t) = io_ret (diff_leaves L (omap seen (active_cache i))).
Proof.
  intros Ht Hs Hl Hheld [Hix Ha] Hst Hlf Hn Hf. pose proof (held_stored db _ Hheld) as Hstored. apply Forall_cons in Hheld as [_ Hheld], Hstored as [Hroot _].
  unfold diff_cache_main. rewrite (mark_merged _ Hst). rewrite read_tree_object by (done || lia). cbn [io_bind io_ret].
  pose proof (interleave_ok L (active_cache i) Hix Hst Hs Hl) as Hok. pose proof (interleave_perm L (active_cache i)) as Hperm.
  destruct (read_tree_spec _ _ _ _ Ht fuel db (set_cache i (active_cache i)) 1) as (i'&Hr&Ei&Hi'&_); try done.
  - eapply Forall_impl; [exact Hheld|]. by intros x [H _].
  - eapply Forall_impl; [exact Hl|]. by intros x [H _].
  - cbn [active_cache set_cache]. split; [by apply leaf_ce_wfs|rewrite <- Hperm; apply index_ok_keys, Hok|].
    intros x y _ Hy H0. apply list_elem_of_fmap in Hy as (a&->&Hin). rewrite Forall_forall in Hl. rewrite leaf_ce_stage in H0; [lia|lia|by apply Hl].
  - cbn [active_cache set_cache]. rewrite length_app, length_map. lia.
  - eapply Forall_impl; [exact Hheld|]. by intros x [_ H].
  - unfold read_tree. rewrite Hr. cbn [io_bind io_ret]. change (negb (0 =? 0)) with false. cbv iota.
    cbn [active_cache set_cache] in Ei. rewrite <- Hperm in Ei. rewrite (index_ok_unique _ _ Hi' Hok Ei).
    apply (diff_cache_ok L (active_cache i) _ []); [done|done|apply Hix|by apply merged_name_lt|done|done|lia].
Qed.

(** ** git-diff-files *)

(** What the file of an entry is compared as. *)
Definition on_disk (silent : bool) (ce : cache_entry) : option leaf :=
  match wt_lstat (ce_name ce) with
  | inl errno => if (negb (errno =? ENOENT) && negb (errno =? ENOTDIR)) || silent then Some (ce_leaf ce) else None
  | inr st => Some (if unchanged ce st then ce_leaf ce else (ce_name ce, canon_mode (st_mode st), null_sha1))
  end.

Lemma fill_canon spec sha1 mode : fill_filespec spec sha1 (canon_mode mode) =
  {| fs_path := fs_path spec; fs_mode := canon_mode mode; fs_sha1 := sha1; fs_sha1_valid := Some (negb (memcmp 20 sha1 (replicate 20 0) =? 0)); fs_data := fs_data spec |}.
Proof.
  assert (H : git_mode (canon_mode mode) \/ canon_mode mode = S_IFDIR).
  { unfold canon_mode, ce_permissions, git_mode. destruct (S_ISREG mode); [left; destruct (negb _); vm_compute; auto|]. destruct (S_ISLNK mode); auto. }
  destruct H as [H| ->]; [by apply fill_stored|reflexivity].
Qed.

Lemma on_disk_path silent ce l : on_disk silent ce = Some l -> leaf_path l = ce_name ce.
Proof. unfold on_disk. destruct (wt_lstat _); [destruct (_ || _)|destruct (unchanged _ _)]; by intros [= <-]. Qed.

Lemma on_disk_before x c cache silent : (forall y, y ∈ c :: cache -> lexcmp x (ce_name y) < 0) -> forall l, l ∈ omap (on_disk silent) (c :: cache) -> lexcmp x (leaf_path l) < 0.
Proof.
  intros H l (y&Hy&E)%list_elem_of_omap. rewrite (on_disk_path _ _ _ E). by apply H.
Qed.

(** One turn of the loop at a merged entry. *)
Lemma diff_file_one silent fuel c cache q : ce_stage c = 0 -> leaf_fine (ce_leaf c) -> ce_sha1 c <> null_sha1 ->
  diff_files o (S fuel) silent (c :: cache) q =
  diff_files o fuel silent cache (q ++ match on_disk silent c with None => [removed (ce_leaf c)] | Some l => change_of (ce_leaf c) l end).
Proof.
  intros H0 Hc Hsha. cbn [diff_files]. rewrite H0. cbn [Z.eqb negb]. unfold on_disk.
  assert (Hself : q ++ change_of (ce_leaf c) (ce_leaf c) = q) by (unfold change_of; by rewrite decide_True, app_nil_r).
  destruct (wt_lstat (ce_name c)) as [errno|st].
  - destruct (negb (errno =? ENOENT) && negb (errno =? ENOTDIR)); cbn [orb]; [by rewrite Hself|]. destruct silent; [by rewrite Hself|].
    pose proof (show_ce_ok q 45 c (ce_leaf c) ltac:(by right) Hc eq_refl) as E. cbn [ce_leaf fst snd] in E. rewrite E. done.
  - pose proof Hc as [[Hm Hs] Hl]. unfold unchanged. destruct (match_stat_returns c st Hm) as [changed ->]. cbn [io_bind].
    destruct Hstraight as [-> Hrev]. rewrite andb_true_r. destruct (Z.eqb_spec changed 0) as [->|Hne]; [by rewrite Hself|]. cbn [negb].
    unfold diff_change, concat_path. rewrite Hrev, app_nil_r. change (length (ce_name c) < 4096)%nat in Hl. rewrite (proj2 (Nat.leb_gt _ _)), bind_Ret by lia.
    rewrite fill_canon, fill_stored by done. cbn [io_bind]. unfold change_of. rewrite decide_False; [done|].
    intros [= _ E]. done.
Qed.

Lemma diff_files_ok silent cache : forall fuel q, index_ok cache -> Forall (fun ce => ce_stage ce = 0) cache -> Forall leaf_fine (map ce_leaf cache) ->
  Forall (fun ce => ce_sha1 ce <> null_sha1) cache -> (length cache < fuel)%nat ->
  diff_files o fuel silent cache q = io_ret (q ++ diff_leaves (map ce_leaf cache) (omap (on_disk silent) cache)).
Proof.
  intros fuel q Hix Hst Hlf Hsha Hf. pose proof (merged_name_lt cache Hix Hst) as Hn. clear Hix. revert fuel q Hst Hlf Hsha Hf.
  induction Hn as [|c cache Hn IH HF]; intros [|fuel] q Hst Hlf Hsha Hf; [cbn in Hf; lia|by rewrite app_nil_r|cbn in Hf; lia|].
  apply Forall_cons in Hst as [H0 Hst], Hlf as [Hc Hlf], Hsha as [Hs Hsha]. cbn [length] in Hf. rewrite Forall_forall in HF.
  rewrite diff_file_one, IH, <- app_assoc by (done || lia). do 2 f_equal. cbn [map omap list_omap].
  assert (Hbefore : forall y, y ∈ cache -> lexcmp (ce_name c) (ce_name y) < 0) by (intros y Hy; by apply HF).
  assert (Hdisk : forall y, y ∈ omap (on_disk silent) cache -> leaf_lt (ce_leaf c) y).
  { destruct cache as [|d cache]; [by intros y ?%elem_of_nil|]. intros y Hy. by apply (on_disk_before (ce_name c) d cache silent). }
  assert (Hmap : forall y, y ∈ map ce_leaf cache -> leaf_lt (ce_leaf c) y) by (intros y (d&->&Hd)%list_elem_of_fmap; by apply HF).
  destruct (on_disk silent c) as [l|] eqn:El.
  - rewrite diff_cons. change (leaf_path (ce_leaf c)) with (ce_name c). by rewrite (on_disk_path _ _ _ El), lexcmp_refl.
  - symmetry. apply (diff_removed [ce_leaf c]). intros x y ->%list_elem_of_singleton. apply Hdisk.
Qed.

End Compare.

Lemma omap_sorted (f : cache_entry -> option leaf) cache : (forall ce l, f ce = Some l -> leaf_path l = ce_name ce) ->
  StronglySorted name_lt cache -> StronglySorted leaf_lt (omap f cache).
Proof.
  intros Hf. induction 1 as [|ce cache Hs IH HF]; [constructor|]. cbn [omap list_omap]. destruct (f ce) as [l|] eqn:E; [|done].
  constructor; [done|]. rewrite Forall_forall in HF. rewrite Forall_forall. intros x (y&Hy&Ex)%list_elem_of_omap. unfold leaf_lt.
  rewrite (Hf _ _ E), (Hf _ _ Ex). by apply HF.
Qed.

Lemma files_sorted cache : StronglySorted name_lt cache -> StronglySorted leaf_lt (map ce_leaf cache).
Proof.
  intros Hs. replace (map ce_leaf cache) with (omap (fun ce => Some (ce_leaf ce)) cache) by (clear Hs; induction cache as [|ce cache IH]; [done|]; cbn; by f_equal).
  apply omap_sorted; [by intros ce l [= <-]|done].
Qed.

(** C17. git-diff-cache is exact: for a tree with the files [L] and a merged
    index with room for them, the queue gets one pair for each path at which
    the tree and what is seen of the index differ, in the order of the paths;
    seen are the entries themselves with [--cached], and without it also a
    file that [lstat] finds changed, with its mode and no name of its
    contents, and no file where [lstat] fails, unless [-m] says to take the
    entry for one that is missing.  With [--cached] that is what git-diff-tree
    finds between the tree and the one git-write-tree makes of the index.  The
    program stops, and reads trees into the index in no other way than it
    means to. *)
Theorem diff_cache_spec {D} {DB : ObjectDB D} {WT : WorkTree} (db : D) (o : DiffTree.opts) (cached_only match_nonexisting : bool) (i : index) L t objs fuel :
  straight o -> tree_of [] L t objs -> StronglySorted leaf_lt L -> Forall file_ok L -> Forall (tree_held db) (t :: objs) ->
  index_inv i -> Forall (fun ce => ce_stage ce = 0) (active_cache i) -> Forall file_ok (map ce_leaf (active_cache i)) ->
  Z.of_nat (length (active_cache i) + length L) < 2 ^ 30 -> (depth_below [] L < fuel)%nat -> exists d,
  diff_cache_main o cached_only match_nonexisting fuel db i (object_name tree_type t) = io_ret d /\
  (forall p, p ∈ d <-> differs L (omap (seen cached_only match_nonexisting) (active_cache i)) p) /\
  StronglySorted (fun p p' => lexcmp (fp_path p) (fp_path p') < 0) d /\
  (cached_only = true -> plain o -> forall t2 objs2, tree_of [] (map ce_leaf (active_cache i)) t2 objs2 -> Forall (tree_held db) (t2 :: objs2) ->
    diff_tree_sha1 o db (fuel + tree_fuel (active_cache i)) (object_name tree_type t) (object_name tree_type t2) [] [] = io_ret d).
Proof.
  intros Ho Ht Hs HL Hheld Hinv Hst HC Hn Hf. exists (diff_leaves L (omap (seen cached_only match_nonexisting) (active_cache i))).
  pose proof (merged_name_lt _ (proj1 Hinv) Hst) as Hnames.
  assert (Hseen : StronglySorted leaf_lt (omap (seen cached_only match_nonexisting) (active_cache i))).
  { apply omap_sorted; [|done]. intros ce l. apply seen_path. }
  split; [|split; [|split]].
  - apply (diff_cache_main_ok o Ho cached_only match_nonexisting db i L t objs); (done || by apply file_ok_fine).
  - intros p. by apply diff_leaves_elem.
  - by apply diff_leaves_sorted.
  - intros -> Hplain t2 objs2 Ht2 Hheld2.
    assert (E : omap (seen true match_nonexisting) (active_cache i) = map ce_leaf (active_cache i)).
    { clear. induction (active_cache i) as [|ce cache IH]; [done|]. cbn. by f_equal. }
    rewrite E. apply (diff_tree_sha1_ok db o Hplain L t objs (map ce_leaf (active_cache i)) t2 objs2); try done.
    + by apply held_stored.
    + by apply held_stored.
    + rewrite depth_below_root. unfold tree_fuel. lia.
Qed.

(** C19. git-diff-files is exact on a merged index: the queue gets one pair for
    each entry whose file is missing, unless [-q] is given, and for each whose
    file [lstat] finds changed, with the mode of the file, in the order of the
    index; files that [lstat] fails on for another reason are passed over. *)
Theorem diff_files_spec {WT : WorkTree} (o : DiffTree.opts) (silent : bool) (cache : list cache_entry) :
  straight o -> index_ok cache -> Forall (fun ce => ce_stage ce = 0) cache -> Forall file_ok (map ce_leaf cache) ->
  Forall (fun ce => ce_sha1 ce <> null_sha1) cache -> exists d,
  diff_files o (S (length cache)) silent cache [] = io_ret d /\
  (forall p, p ∈ d <-> differs (map ce_leaf cache) (omap (on_disk silent) cache) p) /\
  StronglySorted (fun p p' => lexcmp (fp_path p) (fp_path p') < 0) d.
Proof.
  intros Ho Hix Hst Hok Hsha. exists (diff_leaves (map ce_leaf cache) (omap (on_disk silent) cache)).
  pose proof (merged_name_lt cache Hix Hst) as Hn. pose proof (files_sorted cache Hn) as H1.
  assert (H2 : StronglySorted leaf_lt (omap (on_disk silent) cache)) by (apply omap_sorted; [intros ce l; apply on_disk_path|done]).
  split; [|split].
  - apply (diff_files_ok o Ho silent cache _ []); (done || lia || by apply file_ok_fine).
  - intros p. by apply diff_leaves_elem.
  - by apply diff_leaves_sorted.
Qed.

(** ** An index, a tree and some files *)

Module DiffIndexDemo.

Definition entry (name : string) (stage x : Z) : cache_entry :=
  {| ce_ctime := {| sec := 1; nsec := 0 |}; ce_mtime := {| sec := 1; nsec := 0 |}; ce_dev := 1; ce_ino := 1;
     ce_mode := 0x81a4; ce_uid := 0; ce_gid := 0; ce_st_size := 3; ce_sha1 := DiffTreeDemo.blob x;
     ce_flags := create_ce_flags (Z.of_nat (length (str name))) stage; ce_name := str name |}.

Definition a_stat (mode : Z) (size : Z) : stat :=
  {| st_mode := mode; st_ctime := 1; st_mtime := 1; st_dev := 1; st_ino := 1; st_uid := 0; st_gid := 0; st_size := size |}.

(** [d/d] is not there, [a] is executable now, [d/b] and [e] are as the index
    says. *)
Definition tree : WorkTree := {|
  wt_lstat path := if bool_decide (path = str "d/d") then inl ENOENT
                   else if bool_decide (path = str "a") then inr (a_stat 0x81ed 3) else inr (a_stat 0x81a4 3);
  wt_open _ := None; wt_mmap _ := false; wt_readlink _ := None |}.

Definition cache : list cache_entry := [entry "a" 0 1; entry "d/b" 0 2; entry "d/d" 0 1; entry "e" 0 1].
Definition i : index := {| active_cache := cache; active_alloc := 10; active_cache_changed := false |}.

Definition diffs (cached : bool) (cache : list cache_entry) : io (list filepair) :=
  diff_cache_main (WT := tree) (DiffTreeDemo.all []) cached false 30 DiffTreeDemo.db
    {| active_cache := cache; active_alloc := 10; active_cache_changed := false |} (object_name tree_type DiffTreeDemo.old).

(** [b] has two stages. *)
Definition unmerged : list cache_entry := [entry "a" 0 1; entry "b" 2 1; entry "b" 3 2; entry "d/b" 2 1].

End DiffIndexDemo.

Lemma diff_cache_spec_witness : exists d,
  diff_cache_main (WT := DiffIndexDemo.tree) (DiffTreeDemo.all []) true false 30 DiffTreeDemo.db DiffIndexDemo.i (object_name tree_type DiffTreeDemo.old) = io_ret d /\
  (forall p, p ∈ d <-> differs DiffTreeDemo.old_files (omap (seen (WT := DiffIndexDemo.tree) true false) (active_cache DiffIndexDemo.i)) p) /\
  StronglySorted (fun p p' => lexcmp (fp_path p) (fp_path p') < 0) d.
Proof.
  destruct (diff_cache_spec (WT := DiffIndexDemo.tree) DiffTreeDemo.db (DiffTreeDemo.all []) true false DiffIndexDemo.i DiffTreeDemo.old_files DiffTreeDemo.old [DiffTreeDemo.old_d] 30)
    as (d&H1&H2&H3&_).
  - done.
  - exact DiffTreeDemo.old_tree.
  - repeat constructor.
  - apply (bool_decide_unpack _). vm_compute. exact I.
  - repeat (constructor; [split; [split|]; vm_compute; reflexivity|]). constructor.
  - split; [apply (bool_decide_unpack _); vm_compute; exact I|vm_compute; discriminate].
  - repeat constructor.
  - apply (bool_decide_unpack _). vm_compute. exact I.
  - vm_compute. reflexivity.
  - vm_compute. lia.
  - exists d. exact (conj H1 (conj H2 H3)).
Defined.

Lemma diff_files_spec_witness : exists d,
  diff_files (WT := DiffIndexDemo.tree) (DiffTreeDemo.all []) 5 false DiffIndexDemo.cache [] = io_ret d /\
  (forall p, p ∈ d <-> differs (map ce_leaf DiffIndexDemo.cache) (omap (on_disk (WT := DiffIndexDemo.tree) false) DiffIndexDemo.cache) p) /\
  StronglySorted (fun p p' => lexcmp (fp_path p) (fp_path p') < 0) d.
Proof.
  apply (diff_files_spec (WT := DiffIndexDemo.tree) (DiffTreeDemo.all []) false DiffIndexDemo.cache).
  - done.
  - apply (bool_decide_unpack _). vm_compute. exact I.
  - repeat constructor.
  - apply (bool_decide_unpack _). vm_compute. exact I.
  - apply (bool_decide_unpack _). vm_compute. exact I.
Defined.

(** With [--cached] the difference of the two trees of DiffTree.v; without it
    [a] has changed too, and [d/d] is neither in the tree nor on the disk. *)
Example diff_cache_computed :
  DiffIndexDemo.diffs true DiffIndexDemo.cache =
    io_ret [changed (DiffTreeDemo.file "d/b" 1) (DiffTreeDemo.file "d/b" 2); removed (DiffTreeDemo.file "d/c" 1);
            added (DiffTreeDemo.file "d/d" 1); added (DiffTreeDemo.file "e" 1)] /\
  DiffIndexDemo.diffs false DiffIndexDemo.cache =
    io_ret [changed (DiffTreeDemo.file "a" 1) (str "a", 0x81ed, null_sha1); changed (DiffTreeDemo.file "d/b" 1) (DiffTreeDemo.file "d/b" 2);
            removed (DiffTreeDemo.file "d/c" 1); added (DiffTreeDemo.file "e" 1)] /\
  diff_files (WT := DiffIndexDemo.tree) (DiffTreeDemo.all []) 5 false DiffIndexDemo.cache [] =
    io_ret [changed (DiffTreeDemo.file "a" 1) (str "a", 0x81ed, null_sha1); removed (DiffTreeDemo.file "d/d" 1)].
Proof. split; [|split]; vm_compute; reflexivity. Qed.

(** A name that is not merged is queued once, without its stages. *)
Example diff_unmerged :
  let unmerged := filter (fun p => fs_mode (fp_one p) = 0 /\ fs_mode (fp_two p) = 0) in
  (q <- DiffIndexDemo.diffs true DiffIndexDemo.unmerged ;; io_ret (map fp_path (unmerged q))) = io_ret [str "b"; str "d/b"] /\
  (q <- diff_files (WT := DiffIndexDemo.tree) (DiffTreeDemo.all []) 5 true DiffIndexDemo.unmerged [] ;; io_ret (map fp_path (unmerged q))) =
    io_ret [str "b"; str "d/b"].
Proof. split; vm_compute; reflexivity. Qed.
