(* ===== verification/DiffCore.v ===== *)
(** * The queue of differences, transformed

    diffcore-pathspec.c, diffcore-break.c, diffcore-rename.c and of diff.c the
    reading of the two sides of a pair, the status of the pairs, the filter and
    [diffcore_std]; what they are proved to keep is in DiffRename.v.  Not here:
    the cache of sizes, which saves diff-tree from reading contents,
    diffcore-pickaxe.c and diffcore-order.c.  Contents that the tables of
    renames read do not get back to the pairs of the queue, which nothing here
    looks at again. *)

From stdpp Require Import base list numbers strings sorting.
From Stdlib Require Import ZArith Lia.
From S2P Require Import Prelude Hex CacheEntry Index CsumFile ObjectHeader ObjectDB Delta DiffDelta Tree UpdateCache DiffTree DiffIndex.

Definition MAX_SCORE : Z := 60000.
Definition DEFAULT_RENAME_SCORE : Z := 30000.
Definition DEFAULT_BREAK_SCORE : Z := 30000.
Definition DEFAULT_MERGE_SCORE : Z := 48000.
Definition MINIMUM_BREAK_SIZE : Z := 400.
Definition DIFF_DETECT_RENAME : Z := 1.
Definition DIFF_DETECT_COPY : Z := 2.

(** [DIFF_FILE_VALID], [DIFF_PAIR_UNMERGED], [DIFF_PAIR_BROKEN],
    [DIFF_PAIR_TYPE_CHANGED]; paths have no NULs, so that [strcmp] is
    [lexcmp]. *)
Definition valid (s : filespec) : bool := negb (fs_mode s =? 0).
Definition same_path (a b : filespec) : bool := lexcmp (fs_path a) (fs_path b) =? 0.
Definition pair_unmerged (p : filepair) : bool := negb (valid (fp_one p)) && negb (valid (fp_two p)).
Definition pair_rename (p : filepair) : bool := negb (same_path (fp_one p) (fp_two p)).
Definition pair_broken (p : filepair) : bool := negb (eqb (valid (fp_one p)) (valid (fp_two p))) && fp_broken_pair p.
Definition type_changed (p : filepair) : bool := negb (Z.land S_IFMT (fs_mode (fp_one p)) =? Z.land S_IFMT (fs_mode (fp_two p))).

Definition fs_size (s : filespec) : Z := Z.of_nat (length (default [] (fs_data s))).
Definition contents (s : filespec) : bytes := default [] (fs_data s).

Definition set_data (s : filespec) (data : bytes) : filespec :=
  {| fs_path := fs_path s; fs_mode := fs_mode s; fs_sha1 := fs_sha1 s; fs_sha1_valid := fs_sha1_valid s; fs_data := Some data |}.

Definition sha1_known (s : filespec) : bool := match fs_sha1_valid s with Some b => b | None => false end.

(** ** Contents *)

Section Contents.
Context {D} {DB : ObjectDB D} (db : D) (cache : list cache_entry) {WT : WorkTree} (malloc_ok : nat -> Z -> bool).

Definition work_tree_matches (name sha1 : bytes) : outcome bool :=
  let pos := cache_name_pos cache name (Z.of_nat (length name)) in
  if pos <? 0 then Ret false
  else
    match cache !! Z.to_nat pos, wt_lstat name with
    | None, _ => Ub
    | _, inl _ => Ret false
    | Some ce, inr st =>
        if negb (S_ISREG (st_mode st)) then Ret false
        else changed ← ce_match_stat ce st; Ret ((changed =? 0) && (memcmp 20 sha1 (ce_sha1 ce) =? 0))
    end.

(** The file of the working tree: the value of the call and the contents.
    When [lstat] fails otherwise than with [ENOENT], [st] has no value; what
    is behind the end of a link or a file that got shorter has none either. *)
Definition populate_from_tree (s : filespec) : outcome (Z * filespec) :=
  match wt_lstat (fs_path s) with
  | inl errno => if errno =? ENOENT then Ret (-1, set_data s []) else Ub
  | inr st =>
      let size := Z.to_nat (st_size st) in
      if st_size st =? 0 then Ret (0, set_data s [])
      else if S_ISLNK (st_mode st) then
        match wt_readlink (fs_path s) with
        | None => Ret (-1, set_data s [])
        | Some target => if (length target <? size)%nat then Ub else Ret (0, set_data s (take size target))
        end
      else
        match wt_open (fs_path s) with
        | None => Ret (-1, set_data s [])
        | Some c => if negb (wt_mmap c) || (length c <? size)%nat then Ub else Ret (0, set_data s (take size c))
        end
  end.

(** An object that is missing leaves [data] NULL and [size] 0, and the value
    is 0 all the same. *)
Definition diff_populate_filespec (s : filespec) : io (Z * filespec) :=
  if negb (valid s) then Some Die
  else if S_ISDIR (fs_mode s) then io_ret (-1, s)
  else
    match fs_data s with
    | Some _ => io_ret (0, s)
    | None =>
        m <- (if negb (sha1_known s) then io_ret true else Some (work_tree_matches (fs_path s) (fs_sha1 s))) ;;
        if m : bool then Some (populate_from_tree s)
        else
          r <- db_read db (fs_sha1 s) ;;
          io_ret (0, match r with Some (_, data) => set_data s data | None => s end)
    end.

(** [diff_populate_filespec(src) || diff_populate_filespec(dst)] *)
Definition populate_both (src dst : filespec) : io (bool * filespec * filespec) :=
  p <- diff_populate_filespec src ;;
  let '(err, src) := p in
  if negb (err =? 0) then io_ret (true, src, dst)
  else
    p <- diff_populate_filespec dst ;;
    let '(err, dst) := p in
    io_ret (negb (err =? 0), src, dst).

Definition is_exact_match (src dst : filespec) : io (bool * filespec * filespec) :=
  if sha1_known src && sha1_known dst && (memcmp 20 (fs_sha1 src) (fs_sha1 dst) =? 0) then io_ret (true, src, dst)
  else
    p <- populate_both src dst ;;
    let '(err, src, dst) := p in
    if err then io_ret (false, src, dst)
    else if negb (fs_size src =? fs_size dst) then io_ret (false, src, dst)
    else
      p <- populate_both src dst ;;
      let '(err, src, dst) := p in
      if err then io_ret (false, src, dst)
      else io_ret ((fs_size src =? fs_size dst) && (memcmp (length (contents src)) (contents src) (contents dst) =? 0), src, dst).

Definition estimate_similarity (src dst : filespec) (minimum_score : Z) : io (Z * filespec * filespec) :=
  if negb (S_ISREG (fs_mode src)) || negb (S_ISREG (fs_mode dst)) then io_ret (0, src, dst)
  else
    let delta_size := if fs_size src <? fs_size dst then fs_size dst - fs_size src else fs_size src - fs_size dst in
    let base_size := if fs_size src <? fs_size dst then fs_size src else fs_size dst in
    let limit := u64 (base_size * u64 (MAX_SCORE - minimum_score)) in
    if limit <? u64 (delta_size * MAX_SCORE) then io_ret (0, src, dst)
    else
      p <- populate_both src dst ;;
      let '(err, src, dst) := p in
      if err then io_ret (0, src, dst)
      else
        delta <- Some (diff_delta malloc_ok (contents src) (contents dst) (limit / MAX_SCORE)) ;;
        match delta with
        | None => io_ret (0, src, dst)
        | Some delta =>
            let delta_size := Z.of_nat (length delta) in
            if limit <? u64 (delta_size * MAX_SCORE) then io_ret (0, src, dst)
            else
              c <- Some (count_delta delta delta_size) ;;
              match c with
              | None => io_ret (0, src, dst)
              | Some (src_copied, literal_added) =>
                  let delta_size := if u64 (fs_size src + literal_added) <? src_copied then 0 else u64 (u64 (fs_size src - src_copied) + literal_added) in
                  if base_size =? 0 then Some Ub
                  else
                    let score := i32 (u64 (MAX_SCORE - u64 (MAX_SCORE * delta_size) / base_size)) in
                    io_ret (if score <? 0 then 0 else if MAX_SCORE <? score then MAX_SCORE else score, src, dst)
              end
        end.

(** ** The tables of renames *)

Record diff_rename_dst := { rd_two : filespec; rd_pair : option filepair }.
Record diff_rename_src := { rs_one : filespec; rs_stays : bool }.

Definition locate_dst_pos (tbl : list diff_rename_dst) (path : bytes) : Z :=
  bsearch (fun next => match tbl !! Z.to_nat next with Some dst => lexcmp path (fs_path (rd_two dst)) | None => 0 end) 0 (Z.of_nat (length tbl)).

(** The entry's place in the table, if there is one, and the table. *)
Definition locate_rename_dst (tbl : list diff_rename_dst) (two : filespec) (insert_ok : bool) : option nat * list diff_rename_dst :=
  let pos := locate_dst_pos tbl (fs_path two) in
  if 0 <=? pos then (Some (Z.to_nat pos), tbl)
  else if negb insert_ok then (None, tbl)
  else
    let first := Z.to_nat (- pos - 1) in
    (Some first, take first tbl ++ {| rd_two := two; rd_pair := None |} :: drop first tbl).

Definition register_rename_src (tbl : list diff_rename_src) (one : filespec) (src_stays : bool) : list diff_rename_src :=
  let pos := bsearch (fun next => match tbl !! Z.to_nat next with Some src => lexcmp (fs_path one) (fs_path (rs_one src)) | None => 0 end)
               0 (Z.of_nat (length tbl)) in
  if 0 <=? pos then tbl
  else
    let first := Z.to_nat (- pos - 1) in
    take first tbl ++ {| rs_one := one; rs_stays := src_stays |} :: drop first tbl.

(** The first loop of [diffcore_rename]. *)
Fixpoint register_pairs (detect_rename : Z) (q : list filepair) (dst : list diff_rename_dst) (src : list diff_rename_src)
    : list diff_rename_dst * list diff_rename_src :=
  match q with
  | [] => (dst, src)
  | p :: q =>
      let '(dst, src) :=
        if negb (valid (fp_one p)) then
          if negb (valid (fp_two p)) then (dst, src) else (snd (locate_rename_dst dst (fp_two p) true), src)
        else if negb (valid (fp_two p)) then (dst, register_rename_src src (fp_one p) (fp_broken_pair p && (fp_score p =? 0)))
        else if detect_rename =? DIFF_DETECT_COPY then (dst, register_rename_src src (fp_one p) true)
        else (dst, src) in
      register_pairs detect_rename q dst src
  end.

Definition record_rename_pair (renq : list filepair) (d : diff_rename_dst) (s : diff_rename_src) (score : Z) : outcome (list filepair * diff_rename_dst) :=
  match rd_pair d with
  | Some _ => Die
  | None =>
      let src := rs_one s in
      let dst := rd_two d in
      let dp := {| fp_one := fill_filespec (alloc_filespec (fs_path src)) (fs_sha1 src) (fs_mode src);
                   fp_two := fill_filespec (alloc_filespec (fs_path dst)) (fs_sha1 dst) (fs_mode dst);
                   fp_score := u16 score; fp_status := 0; fp_source_stays := rs_stays s; fp_broken_pair := false |} in
      Ret (renq ++ [dp], {| rd_two := dst; rd_pair := Some dp |})
  end.

(** ** Exact renames *)

(** The loop over the sources; its result is the first that matches. *)
Fixpoint exact_source (two : filespec) (srcs : list diff_rename_src) : io (option diff_rename_src * filespec * list diff_rename_src) :=
  match srcs with
  | [] => io_ret (None, two, [])
  | s :: rest =>
      m <- is_exact_match (rs_one s) two ;;
      let '(found, one, two) := m in
      let s := {| rs_one := one; rs_stays := rs_stays s |} in
      if found : bool then io_ret (Some s, two, s :: rest)
      else
        r <- exact_source two rest ;;
        let '(res, two, rest) := r in
        io_ret (res, two, s :: rest)
  end.

Fixpoint exact_loop (dsts : list diff_rename_dst) (srcs : list diff_rename_src) (renq : list filepair)
    : io (list diff_rename_dst * list diff_rename_src * list filepair) :=
  match dsts with
  | [] => io_ret ([], srcs, renq)
  | d :: rest =>
      r <- exact_source (rd_two d) srcs ;;
      let '(found, two, srcs) := r in
      let d := {| rd_two := two; rd_pair := rd_pair d |} in
      x <- Some (match found with Some s => record_rename_pair renq d s MAX_SCORE | None => Ret (renq, d) end) ;;
      let '(renq, d) := x in
      r <- exact_loop rest srcs renq ;;
      let '(rest, srcs, renq) := r in
      io_ret (d :: rest, srcs, renq)
  end.

(** ** Inexact renames *)

Record diff_score := { sc_src : nat; sc_dst : nat; sc_score : Z }.

Definition score_compare (a b : diff_score) : Z := sc_score b - sc_score a.

(** A row of the matrix. *)
Fixpoint estimate_row (minimum_score : Z) (i j : nat) (two : filespec) (srcs : list diff_rename_src) : io (list diff_score * filespec * list diff_rename_src) :=
  match srcs with
  | [] => io_ret ([], two, [])
  | s :: rest =>
      e <- estimate_similarity (rs_one s) two minimum_score ;;
      let '(score, one, two) := e in
      r <- estimate_row minimum_score i (S j) two rest ;;
      let '(row, two, rest) := r in
      io_ret ({| sc_src := j; sc_dst := i; sc_score := score |} :: row, two, {| rs_one := one; rs_stays := rs_stays s |} :: rest)
  end.

Fixpoint estimate_rows (minimum_score : Z) (i : nat) (dsts : list diff_rename_dst) (srcs : list diff_rename_src)
    : io (list diff_score * list diff_rename_dst * list diff_rename_src) :=
  match dsts with
  | [] => io_ret ([], [], srcs)
  | d :: rest =>
      r <- (match rd_pair d with
            | Some _ => io_ret ([], rd_two d, srcs)
            | None => estimate_row minimum_score i 0 (rd_two d) srcs
            end) ;;
      let '(row, two, srcs) := r in
      r <- estimate_rows minimum_score (S i) rest srcs ;;
      let '(rows, rest, srcs) := r in
      io_ret (row ++ rows, {| rd_two := two; rd_pair := rd_pair d |} :: rest, srcs)
  end.

(** The loop over the sorted matrix. *)
Fixpoint fuzzy_loop (minimum_score : Z) (mx : list diff_score) (dsts : list diff_rename_dst) (srcs : list diff_rename_src) (renq : list filepair)
    : outcome (list diff_rename_dst * list filepair) :=
  match mx with
  | [] => Ret (dsts, renq)
  | m :: mx =>
      match dsts !! sc_dst m, srcs !! sc_src m with
      | Some d, Some s =>
          match rd_pair d with
          | Some _ => fuzzy_loop minimum_score mx dsts srcs renq
          | None =>
              if sc_score m <? minimum_score then Ret (dsts, renq)
              else
                '(renq, d) ← record_rename_pair renq d s (sc_score m);
                fuzzy_loop minimum_score mx (<[sc_dst m := d]> dsts) srcs renq
          end
      | _, _ => Ub
      end
  end.

Definition diff_unmodified_pair (p : filepair) : bool :=
  let one := fp_one p in
  let two := fp_two p in
  if pair_unmerged p then false
  else if negb (eqb (valid one) (valid two)) || negb (fs_mode one =? fs_mode two) || negb (same_path one two) then false
  else if sha1_known one && sha1_known two && (memcmp 20 (fs_sha1 one) (fs_sha1 two) =? 0) then true
  else negb (sha1_known one) && negb (sha1_known two).

(** One turn of the last loop: what [p] puts into the new queue. *)
Definition keep_pair (dsts : list diff_rename_dst) (renq : list filepair) (p : filepair) : list filepair :=
  let matched s := match fst (locate_rename_dst dsts s false) with Some i => match dsts !! i with Some d => rd_pair d | None => None end | None => None end in
  if negb (valid (fp_one p)) && valid (fp_two p) then
    match matched (fp_two p) with Some dp => [dp] | None => [p] end
  else if valid (fp_one p) && negb (valid (fp_two p)) then
    if pair_broken p then match matched (fp_one p) with Some _ => [] | None => [p] end
    else if existsb (fun r => same_path (fp_one r) (fp_one p)) renq then [] else [p]
  else if negb (diff_unmodified_pair p) then [p] else [].

(** [qsort] is that of the C library.  The product of two [int]s must be
    one. *)
Definition diffcore_rename (qsort : list diff_score -> list diff_score) (detect_rename minimum_score : Z) (q : list filepair) : io (list filepair) :=
  let minimum_score := if minimum_score =? 0 then DEFAULT_RENAME_SCORE else minimum_score in
  let '(dsts, srcs) := register_pairs detect_rename q [] [] in
  r <- (if (length dsts =? 0)%nat then io_ret (dsts, [])
        else
          r <- exact_loop dsts srcs [] ;;
          let '(dsts, srcs, renq) := r in
          if (length renq =? length dsts)%nat then io_ret (dsts, renq)
          else if 2 ^ 31 <=? Z.of_nat ((length dsts - length renq) * length srcs) then Some Ub
          else
            r <- estimate_rows minimum_score 0 dsts srcs ;;
            let '(mx, dsts, srcs) := r in
            Some (fuzzy_loop minimum_score (qsort mx) dsts srcs renq)) ;;
  let '(dsts, renq) := r in
  io_ret (concat (map (keep_pair dsts renq) q)).

(** ** Broken pairs *)

(** When [diff_delta] returns NULL, [delta_size] has no value.  The values of
    the call, of [*merge_score_p], and the two sides. *)
Definition should_break (src dst : filespec) (break_score : Z) : io (bool * Z * filespec * filespec) :=
  if negb (S_ISREG (fs_mode src)) || negb (S_ISREG (fs_mode dst)) then io_ret (false, 0, src, dst)
  else
    p <- populate_both src dst ;;
    let '(err, src, dst) := p in
    if err then io_ret (false, 0, src, dst)
    else
      let base_size := if fs_size src <? fs_size dst then fs_size src else fs_size dst in
      delta <- Some (diff_delta malloc_ok (contents src) (contents dst) 0) ;;
      match delta with
      | None => Some Ub
      | Some delta =>
          c <- Some (count_delta delta (Z.of_nat (length delta))) ;;
          match c with
          | None => io_ret (false, 0, src, dst)
          | Some (src_copied, literal_added) =>
              let merge_score := if fs_size src <=? src_copied then 0 else i32 (u64 (u64 (fs_size src - src_copied) * MAX_SCORE) / fs_size src) in
              let delta_size := if u64 (fs_size src + literal_added) <=? src_copied then 0 else u64 (u64 (fs_size src - src_copied) + literal_added) in
              io_ret (u64 (u64 break_score * base_size) <? u64 (delta_size * MAX_SCORE), merge_score, src, dst)
          end
      end.

Definition broken_half (one two : filespec) (score : Z) : filepair :=
  {| fp_one := one; fp_two := two; fp_score := u16 score; fp_status := 0; fp_source_stays := false; fp_broken_pair := true |}.

(** One turn of the loop of [diffcore_break]. *)
Definition break_pair (break_score merge_score : Z) (p : filepair) : io (list filepair) :=
  let one := fp_one p in
  let two := fp_two p in
  if valid one && valid two && negb (S_ISDIR (fs_mode one)) && negb (S_ISDIR (fs_mode two)) && same_path one two then
    b <- should_break one two break_score ;;
    let '(to_break, score, one, two) := b in
    if to_break && (MINIMUM_BREAK_SIZE <=? fs_size one) then
      let score := if score <? merge_score then 0 else score in
      io_ret [broken_half one (alloc_filespec (fs_path one)) score; broken_half (alloc_filespec (fs_path two)) two score]
    else
      io_ret [{| fp_one := one; fp_two := two; fp_score := fp_score p; fp_status := fp_status p; fp_source_stays := fp_source_stays p; fp_broken_pair := fp_broken_pair p |}]
  else io_ret [p].

Fixpoint break_loop (break_score merge_score : Z) (q : list filepair) : io (list filepair) :=
  match q with
  | [] => io_ret []
  | p :: q => ps <- break_pair break_score merge_score p ;; outq <- break_loop break_score merge_score q ;; io_ret (ps ++ outq)
  end.

(** Both scores in one [int]. *)
Definition diffcore_break (break_score : Z) (q : list filepair) : io (list filepair) :=
  let merge_score := Z.land (Z.shiftr break_score 16) 0xffff in
  let break_score := Z.land break_score 0xffff in
  break_loop (if break_score =? 0 then DEFAULT_BREAK_SCORE else break_score) (if merge_score =? 0 then DEFAULT_MERGE_SCORE else merge_score) q.

End Contents.

(** [merge_broken]: the pair it puts into the queue. *)
Definition merge_broken (p pp : filepair) : outcome filepair :=
  let '(d, c) := if valid (fp_one p) then (p, pp) else (pp, p) in
  if negb (valid (fp_one d)) || valid (fp_two d) || valid (fp_one c) || negb (valid (fp_two c)) then Die
  else
    let dp := new_pair (fp_one d) (fp_two c) in
    Ret {| fp_one := fp_one dp; fp_two := fp_two dp; fp_score := fp_score p; fp_status := fp_status dp;
           fp_source_stays := fp_source_stays dp; fp_broken_pair := fp_broken_pair dp |}.

(** The inner loop over the pairs behind [p]: the peer, and the queue where its
    pointer is NULL.  A pointer that is NULL already is followed. *)
Fixpoint find_peer (p : filepair) (q : list (option filepair)) : outcome (option (filepair * list (option filepair))) :=
  match q with
  | [] => Ret None
  | None :: _ => Ub
  | Some pp :: rest =>
      if fp_broken_pair pp && same_path (fp_one pp) (fp_two pp) && same_path (fp_one p) (fp_two pp) then Ret (Some (pp, None :: rest))
      else r ← find_peer p rest; Ret (match r with Some (x, rest) => Some (x, Some pp :: rest) | None => None end)
  end.

Fixpoint merge_broken_loop (fuel : nat) (q : list (option filepair)) : outcome (list filepair) :=
  match fuel, q with
  | S fuel, None :: rest => merge_broken_loop fuel rest
  | S fuel, Some p :: rest =>
      if fp_broken_pair p && same_path (fp_one p) (fp_two p) then
        peer ← find_peer p rest;
        match peer with
        | Some (pp, rest) => dp ← merge_broken p pp; outq ← merge_broken_loop fuel rest; Ret (dp :: outq)
        | None => outq ← merge_broken_loop fuel rest; Ret (p :: outq)
        end
      else outq ← merge_broken_loop fuel rest; Ret (p :: outq)
  | _, _ => Ret []
  end.

Definition diffcore_merge_broken (q : list filepair) : outcome (list filepair) := merge_broken_loop (length q) (map Some q).

(** ** The other steps *)

(** [spec[len-1]] of an empty path is in front of it. *)
Fixpoint matches_pathspec (name : bytes) (specs : list bytes) : outcome bool :=
  match specs with
  | [] => Ret false
  | spec :: specs =>
      let len := length spec in
      if (length name <? len)%nat then matches_pathspec name specs
      else if negb (memcmp len spec name =? 0) then matches_pathspec name specs
      else
        match spec with
        | [] => Ub
        | _ => if (default 0 (last spec) =? 47) || (length name =? len)%nat || (default 0 (name !! len) =? 47) then Ret true else matches_pathspec name specs
        end
  end.

Fixpoint diffcore_pathspec (specs : list bytes) (q : list filepair) : outcome (list filepair) :=
  match q with
  | [] => Ret []
  | p :: q =>
      m ← (match specs with [] => Ret true | _ => matches_pathspec (fs_path (fp_two p)) specs end);
      outq ← diffcore_pathspec specs q;
      Ret (if m : bool then p :: outq else outq)
  end.

Definition set_status (p : filepair) (status : Z) : filepair :=
  {| fp_one := fp_one p; fp_two := fp_two p; fp_score := fp_score p; fp_status := status; fp_source_stays := fp_source_stays p; fp_broken_pair := fp_broken_pair p |}.

Definition ST_U : Z := 85.
Definition ST_N : Z := 78.
Definition ST_D : Z := 68.
Definition ST_T : Z := 84.
Definition ST_C : Z := 67.
Definition ST_R : Z := 82.
Definition ST_M : Z := 77.
Definition ST_X : Z := 88.

(** The status of [p]; [behind] is the queue behind it. *)
Definition resolve_status (p : filepair) (behind : list filepair) : Z :=
  let one := fp_one p in
  let two := fp_two p in
  if pair_unmerged p then ST_U
  else if negb (valid one) then ST_N
  else if negb (valid two) then ST_D
  else if type_changed p then ST_T
  else if pair_rename p then
    if fp_source_stays p then ST_C
    else if existsb (fun pp => same_path (fp_one pp) one && pair_rename pp) behind then ST_C else ST_R
  else if negb (memcmp 20 (fs_sha1 one) (fs_sha1 two) =? 0) || negb (fs_mode one =? fs_mode two) then ST_M
  else ST_X.

Fixpoint diff_resolve_rename_copy (q : list filepair) : list filepair :=
  match q with
  | [] => []
  | p :: q => set_status p (resolve_status p q) :: diff_resolve_rename_copy q
  end.

Definition has_char (filter : bytes) (c : Z) : bool := existsb (Z.eqb c) filter.

Definition filter_match (filter : bytes) (p : filepair) : bool :=
  if fp_status p =? ST_M then if fp_score p =? 0 then has_char filter ST_M else has_char filter 66
  else has_char filter (fp_status p).

Definition diffcore_apply_filter (filter : option bytes) (q : list filepair) : list filepair :=
  match filter with
  | None => q
  | Some filter =>
      if has_char filter 65 then if existsb (filter_match filter) q then q else []
      else List.filter (filter_match filter) q
  end.

(** ** The options -M, -C and -B *)

(** The number, its scale and the rest; no more than five digits count. *)
Fixpoint parse_digits (cp : bytes) (num scale : Z) (cnt : nat) : Z * Z * bytes :=
  match cp with
  | ch :: rest =>
      if (48 <=? ch) && (ch <=? 57) then
        if (cnt <? 5)%nat then parse_digits rest (num * 10 + ch - 48) (scale * 10) (S cnt) else parse_digits rest num scale (S cnt)
      else (num, scale, cp)
  | [] => (num, scale, [])
  end.

(** The product is an [int]. *)
Definition parse_num (cp : bytes) : outcome (Z * bytes) :=
  let '(num, scale, cp) := parse_digits cp 0 1 0 in
  if 2 ^ 31 <=? MAX_SCORE * num then Ub else Ret (MAX_SCORE * num / scale, cp).

Definition diff_scoreopt_parse (opt : bytes) : outcome Z :=
  match opt with
  | 45 :: cmd :: opt =>
      if negb (cmd =? 77) && negb (cmd =? 67) && negb (cmd =? 66) then Ret (-1)
      else
        '(opt1, opt) ← parse_num opt;
        r ← (if negb (cmd =? 66) then Ret (Some (0, opt))
             else
               match opt with
               | [] => Ret (Some (0, opt))
               | 47 :: opt => r ← parse_num opt; Ret (Some r)
               | _ => Ret None
               end);
        Ret (match r with Some (opt2, []) => Z.lor opt1 (i32 (Z.shiftl opt2 16)) | _ => -1 end)
  | _ => Ret (-1)
  end.

Example scoreopt_ex : map diff_scoreopt_parse (map str ["-M"; "-M5"; "-C75"; "-B8/99"; "-Bx"; "-X5"; "-M5x"; "-M123456"]%string) =
  [Ret 0; Ret 30000; Ret 45000; Ret (48000 + i32 (59400 * 2 ^ 16)); Ret (-1); Ret (-1); Ret (-1); Ret 7407].
Proof. vm_compute. reflexivity. Qed.

(** Five digits are read, but [MAX_SCORE] times five digits need not be an
    [int]. *)
Example scoreopt_overflow : diff_scoreopt_parse (str "-M9999") = Ret 59994 /\ diff_scoreopt_parse (str "-M99999") = Ub.
Proof. vm_compute. done. Qed.

(** Without a pickaxe and an order file. *)
Definition diffcore_std {D} {DB : ObjectDB D} (db : D) (cache : list cache_entry) {WT : WorkTree} (malloc_ok : nat -> Z -> bool)
    (qsort : list diff_score -> list diff_score) (paths : list bytes) (detect_rename rename_score break_opt : Z) (filter : option bytes) (q : list filepair)
    : io (list filepair) :=
  q <- Some (match paths with [] => Ret q | _ => diffcore_pathspec paths q end) ;;
  q <- (if negb (break_opt =? -1) then diffcore_break db cache malloc_ok break_opt q else io_ret q) ;;
  q <- (if negb (detect_rename =? 0) then diffcore_rename db cache malloc_ok qsort detect_rename rename_score q else io_ret q) ;;
  q <- (if negb (break_opt =? -1) then Some (diffcore_merge_broken q) else io_ret q) ;;
  io_ret (diffcore_apply_filter filter (diff_resolve_rename_copy q)).
