(* ===== verification/DiffRename.v ===== *)
(** * What the transformations keep

    Rename detection (DiffCore.v) changes where the new files of a difference
    come from, never what they are: read as raw output is meant to be read, the
    queue it leaves takes the old files to the same new files. *)

From stdpp Require Import base list numbers strings sorting.
From Stdlib Require Import ZArith Lia.
From S2P Require Import Prelude Hex CacheEntry Index CsumFile ObjectHeader ObjectDB Delta DiffDelta Tree UpdateCache DiffTree DiffIndex DiffCore.

(** ** The meaning of a queue *)

(** The file a queue with its statuses has at a path, where [old] are the files
    before: the new side of the pair for the path; nothing where the pair says
    that the path is deleted or renamed; else the old file. *)
Definition apply_diff (q : list filepair) (old : bytes -> option (Z * bytes)) (path : bytes) : option (Z * bytes) :=
  match List.find (fun p => valid (fp_two p) && bool_decide (fs_path (fp_two p) = path)) q with
  | Some p => Some (fs_mode (fp_two p), fs_sha1 (fp_two p))
  | None =>
      if existsb (fun p => ((fp_status p =? ST_D) || (fp_status p =? ST_R)) && bool_decide (fs_path (fp_one p) = path)) q then None
      else old path
  end.

Definition leaf_at (l : list leaf) (path : bytes) : option (Z * bytes) :=
  (fun x : leaf => (x.1.2, x.2)) <$> List.find (fun x => bool_decide (leaf_path x = path)) l.

(** ** Reading contents *)

(** A side but for its contents. *)
Definition strip (s : filespec) : filespec :=
  {| fs_path := fs_path s; fs_mode := fs_mode s; fs_sha1 := fs_sha1 s; fs_sha1_valid := fs_sha1_valid s; fs_data := None |}.

Definition data_ok (d : bytes) : Prop := bytes_ok d /\ Z.of_nat (length d) < 2 ^ 28.

Section Contents.
Context {D} {DB : ObjectDB D} (db : D) (cache : list cache_entry) {WT : WorkTree} (malloc_ok : nat -> Z -> bool).

(** A regular file as [fill_filespec] makes it, whose contents can be read,
    or are found missing. *)
Record good (s : filespec) : Prop := {
  g_reg : S_ISREG (fs_mode s) = true;
  g_mode : u16 (fs_mode s) = fs_mode s /\ canon_mode (fs_mode s) = fs_mode s;
  g_len : length (fs_sha1 s) = 20%nat;
  g_valid : fs_sha1_valid s = Some (negb (memcmp 20 (fs_sha1 s) (replicate 20 0) =? 0));
  g_read : match fs_data s with
           | Some d => data_ok d
           | None => exists err s', diff_populate_filespec db cache s = io_ret (err, s') /\ (s' = s \/ exists d, s' = set_data s d /\ data_ok d)
           end;
}.

Lemma reg_valid s : S_ISREG (fs_mode s) = true -> valid s = true /\ S_ISDIR (fs_mode s) = false.
Proof.
  unfold valid, S_ISREG, S_ISDIR. intros H%Z.eqb_eq. rewrite H. split; [|done]. destruct (Z.eqb_spec (fs_mode s) 0) as [E|]; [|done].
  by rewrite E in H.
Qed.

Lemma good_contents s : good s -> data_ok (contents s).
Proof. intros [_ _ _ _ H]. unfold contents. destruct (fs_data s); [done|]. split; [constructor|done]. Qed.

Lemma populate_good s : good s -> exists err s', diff_populate_filespec db cache s = io_ret (err, s') /\ good s' /\ strip s' = strip s.
Proof.
  intros Hs. pose proof Hs as [Hr Hm Hl Hv Hd]. destruct (fs_data s) as [d|] eqn:Ed.
  - exists 0, s. split; [|done]. unfold diff_populate_filespec. destruct (reg_valid s Hr) as [-> ->]. cbn [negb]. by rewrite Ed.
  - destruct Hd as (err&s'&E&[->|(d&->&Hd)]).
    + by exists err, s.
    + exists err, (set_data s d). split; [done|]. split; [by split|done].
Qed.

Lemma both_good src dst : good src -> good dst -> exists b src' dst', populate_both db cache src dst = io_ret (b, src', dst') /\
  good src' /\ good dst' /\ strip src' = strip src /\ strip dst' = strip dst.
Proof.
  intros Hs Hd. unfold populate_both. destruct (populate_good src Hs) as (e&src'&->&Hs'&Es). cbn [io_bind io_ret].
  destruct (negb (e =? 0)); [by exists true, src', dst|]. destruct (populate_good dst Hd) as (e2&dst'&->&Hd'&Ed). cbn [io_bind io_ret].
  by exists (negb (e2 =? 0)), src', dst'.
Qed.

Lemma exact_good src dst : good src -> good dst -> exists b src' dst', is_exact_match db cache src dst = io_ret (b, src', dst') /\
  good src' /\ good dst' /\ strip src' = strip src /\ strip dst' = strip dst.
Proof.
  intros Hs Hd. unfold is_exact_match. destruct (_ && _); [by exists true, src, dst|].
  destruct (both_good src dst Hs Hd) as (b&s1&d1&->&Hs1&Hd1&Es1&Ed1). cbn [io_bind io_ret]. destruct b; [by exists false, s1, d1|].
  destruct (negb _); [by exists false, s1, d1|].
  destruct (both_good s1 d1 Hs1 Hd1) as (b&s2&d2&->&Hs2&Hd2&Es2&Ed2). cbn [io_bind io_ret]. rewrite Es1 in Es2. rewrite Ed1 in Ed2.
  destruct b; eexists _, s2, d2; done.
Qed.

(** A delta is not much longer than what it makes. *)
Lemma ops_length ops : Forall op_ok ops -> Z.of_nat (length (concat (map encode_op ops))) <= 7 * sumZ (map op_size ops).
Proof.
  induction 1 as [|op ops Hop _ IH]; [done|]. cbn [map concat]. rewrite length_app, sumZ_cons.
  enough (Z.of_nat (length (encode_op op)) <= 7 * op_size op) by lia. destruct op as [off sz|off sz|lit]; cbn [op_ok op_size] in *.
  - pose proof (copy_length_le off sz). lia.
  - pose proof (copy_length_le off sz). cbn [encode_op] in *. simpl length in *. lia.
  - cbn [encode_op]. simpl length. lia.
Qed.

Lemma delta_length from to ops : Forall op_ok ops -> Forall from_source ops -> apply_ops from ops [] = Some to -> Z.of_nat (length to) < 2 ^ 28 ->
  Z.of_nat (length (encode_delta (Z.of_nat (length from)) (Z.of_nat (length to)) ops)) < 2 ^ 32.
Proof.
  intros Ho Hs Ha Ht. destruct (apply_ops_sizes _ _ _ _ Ho Hs Ha) as [H1 _]. cbn [length] in H1. unfold encode_delta, encode_hdr. rewrite !length_app.
  pose proof (encode_size_length_le 10 (Z.of_nat (length from))). pose proof (encode_size_length_le 10 (Z.of_nat (length to))).
  pose proof (ops_length ops Ho). lia.
Qed.

Lemma estimate_good src dst minimum : good src -> good dst -> exists score src' dst',
  estimate_similarity db cache malloc_ok src dst minimum = io_ret (score, src', dst') /\ 0 <= score <= MAX_SCORE /\
  good src' /\ good dst' /\ strip src' = strip src /\ strip dst' = strip dst.
Proof.
  intros Hs Hd. unfold estimate_similarity. rewrite (g_reg _ Hs), (g_reg _ Hd). cbn [negb orb]. set (base := if fs_size src <? fs_size dst then _ else _).
  set (limit := u64 (base * _)). destruct (limit <? _); [by exists 0, src, dst|].
  destruct (both_good src dst Hs Hd) as (b&s1&d1&->&Hs1&Hd1&Es1&Ed1). cbn [io_bind io_ret]. destruct b; [by exists 0, s1, d1|].
  destruct (good_contents s1 Hs1) as [_ Hl1], (good_contents d1 Hd1) as [Hb2 Hl2].
  destruct (diff_delta_ops malloc_ok (contents s1) (contents d1) (limit / MAX_SCORE) Hb2 ltac:(lia) Hl2) as (r&->&Hr). cbn [io_bind io_ret].
  destruct r as [delta|]; [|by exists 0, s1, d1]. destruct Hr as (ops&->&Hops&Hfrom&Ha&Hne&_).
  set (delta := encode_delta _ _ ops). pose proof (delta_length _ _ _ Hops Hfrom Ha Hl2) as Hlen. fold delta in Hlen.
  destruct (limit <? u64 (Z.of_nat (length delta) * MAX_SCORE)) eqn:Elim; [by exists 0, s1, d1|].
  destruct (count_delta_ops _ _ _ Hops Hfrom Ha ltac:(lia) ltac:(lia) Hne) as (copied&literal&Ec&_). fold delta in Ec. rewrite Ec. cbn [io_bind io_ret].
  destruct (Z.eqb_spec base 0) as [E0|_].
  - exfalso. apply Z.ltb_ge in Elim. unfold limit in Elim. rewrite E0, Z.mul_0_l in Elim.
    pose proof (encode_delta_min _ _ _ Ha Hne Hops) as Hmin. fold delta in Hmin. unfold MAX_SCORE in Elim. rewrite (u64_small (_ * _)) in Elim by lia.
    change (u64 0) with 0 in Elim. lia.
  - eexists _, s1, d1. split; [done|]. split; [|done]. destruct (Z.ltb_spec (i32 (u64 (MAX_SCORE - u64 (MAX_SCORE * (if u64 (fs_size s1 + literal) <? copied then 0 else u64 (u64 (fs_size s1 - copied) + literal))) / base))) 0); [done|].
    destruct (Z.ltb_spec MAX_SCORE (i32 (u64 (MAX_SCORE - u64 (MAX_SCORE * (if u64 (fs_size s1 + literal) <? copied then 0 else u64 (u64 (fs_size s1 - copied) + literal))) / base)))); [done|lia].
Qed.

(** ** The tables *)

Definition strip_dst (d : diff_rename_dst) : filespec := strip (rd_two d).
Definition strip_src (s : diff_rename_src) : filespec * bool := (strip (rs_one s), rs_stays s).

(** A pair recorded for [d], from one of the sources [S]. *)
Record pair_of (S : list (filespec * bool)) (minimum : Z) (d : diff_rename_dst) (dp : filepair) : Prop := {
  po_two : fp_two dp = strip_dst d;
  po_one : (fp_one dp, fp_source_stays dp) ∈ S;
  po_broken : fp_broken_pair dp = false;
  po_score : minimum <= fp_score dp;
}.

Lemma pair_of_strip S minimum d d' dp : strip_dst d' = strip_dst d -> pair_of S minimum d dp -> pair_of S minimum d' dp.
Proof. intros E [H1 H2 H3 H4]. split; [by rewrite E|done..]. Qed.

Definition dst_ok (S : list (filespec * bool)) (minimum : Z) (d : diff_rename_dst) : Prop :=
  good (rd_two d) /\ forall dp, rd_pair d = Some dp -> pair_of S minimum d dp.

Definition src_ok (s : diff_rename_src) : Prop := good (rs_one s).

Lemma fill_strip s : good s -> fill_filespec (alloc_filespec (fs_path s)) (fs_sha1 s) (fs_mode s) = strip s.
Proof.
  intros [Hr [Hu Hc] _ Hv _]. unfold fill_filespec, strip. rewrite Hu, Hc, <- Hv. destruct (reg_valid s Hr) as [Hval _].
  unfold valid in Hval. apply negb_true_iff in Hval. by rewrite Hval.
Qed.

Lemma record_ok renq d s score minimum S : good (rd_two d) -> src_ok s -> rd_pair d = None -> strip_src s ∈ S -> minimum <= score <= MAX_SCORE -> 0 <= score ->
  exists dp, record_rename_pair renq d s score = Ret (renq ++ [dp], {| rd_two := rd_two d; rd_pair := Some dp |}) /\ pair_of S minimum d dp.
Proof.
  intros Hd Hs Hn Hin Hsc H0. unfold record_rename_pair. rewrite Hn, !fill_strip by done. eexists. split; [done|].
  split; cbn [fp_two fp_one fp_source_stays fp_broken_pair fp_score]; try done. unfold MAX_SCORE in Hsc. unfold u16. rewrite Z.mod_small; lia.
Qed.

Lemma exact_source_ok srcs : forall two, good two -> Forall src_ok srcs -> exists res two' srcs',
  exact_source db cache two srcs = io_ret (res, two', srcs') /\ good two' /\ strip two' = strip two /\
  Forall src_ok srcs' /\ map strip_src srcs' = map strip_src srcs /\ (forall s, res = Some s -> s ∈ srcs').
Proof.
  induction srcs as [|s srcs IH]; intros two Ht Hs; [by exists None, two, []|]. apply Forall_cons in Hs as [Hs Hsrcs].
  cbn [exact_source]. destruct (exact_good (rs_one s) two Hs Ht) as (b&one'&two'&->&Ho&Ht'&Eo&Et). cbn [io_bind io_ret].
  set (s' := {| rs_one := one'; rs_stays := rs_stays s |}). assert (Es : strip_src s' = strip_src s) by (unfold strip_src; cbn; by rewrite Eo).
  destruct b.
  - exists (Some s'), two', (s' :: srcs). split; [done|]. split; [done|]. split; [done|]. split; [by constructor|].
    split; [cbn [map]; by rewrite Es|]. intros x [= <-]. by left.
  - destruct (IH two' Ht' Hsrcs) as (res&two2&srcs2&->&Ht2&Et2&Hs2&Es2&Hin). cbn [io_bind io_ret].
    exists res, two2, (s' :: srcs2). split; [done|]. split; [done|]. split; [by rewrite Et2|]. split; [by constructor|].
    split; [cbn [map]; by rewrite Es, Es2|]. intros x Hx. right. by apply Hin.
Qed.

Lemma exact_loop_ok S minimum dsts : forall srcs renq, minimum <= MAX_SCORE -> Forall (fun d => good (rd_two d) /\ rd_pair d = None) dsts -> Forall src_ok srcs -> map strip_src srcs = S ->
  exists dsts' srcs' renq', exact_loop db cache dsts srcs renq = io_ret (dsts', srcs', renq') /\
    Forall (dst_ok S minimum) dsts' /\ map strip_dst dsts' = map strip_dst dsts /\ Forall src_ok srcs' /\ map strip_src srcs' = S /\
    renq' = renq ++ omap rd_pair dsts'.
Proof.
  induction dsts as [|d dsts IH]; intros srcs renq Hmin Hd Hs ES.
  { exists [], srcs, renq. cbn. by rewrite app_nil_r. }
  apply Forall_cons in Hd as [[Hd Hn] Hds]. cbn [exact_loop].
  destruct (exact_source_ok srcs (rd_two d) Hd Hs) as (res&two&srcs'&->&Ht&Et&Hs'&Es&Hin). cbn [io_bind io_ret]. rewrite ES in Es.
  set (d' := {| rd_two := two; rd_pair := rd_pair d |}). assert (Ed : strip_dst d' = strip_dst d) by (unfold strip_dst; cbn; by rewrite Et).
  destruct res as [s|].
  - specialize (Hin s eq_refl). rewrite Forall_forall in Hs'. destruct (record_ok renq d' s MAX_SCORE minimum S Ht (Hs' s Hin) Hn) as (dp&->&Hp); [|done|done|].
    { rewrite <- Es. by apply list_elem_of_fmap_2. }
    cbn [io_bind io_ret]. destruct (IH srcs' (renq ++ [dp]) Hmin Hds ltac:(by apply Forall_forall) Es) as (dsts2&srcs2&renq2&->&H1&H2&H3&H4&->). cbn [io_bind io_ret].
    eexists _, _, _. split; [done|]. split; [constructor; [split; [done|intros x [= <-]; by apply (pair_of_strip _ _ d')]|done]|]. split; [cbn [map]; rewrite H2; f_equal; exact Ed|]. split; [done|]. split; [done|].
    cbn [omap list_omap rd_pair]. by rewrite <- app_assoc.
  - cbn [io_bind io_ret]. destruct (IH srcs' renq Hmin Hds Hs' Es) as (dsts2&srcs2&renq2&->&H1&H2&H3&H4&->). cbn [io_bind io_ret].
    eexists _, _, _. split; [done|]. split; [constructor; [split; [done|]|done]|]. { cbn [rd_pair d']. by rewrite Hn. }
    split; [cbn [map]; rewrite H2; f_equal; exact Ed|]. split; [done|]. split; [done|]. cbn [omap list_omap rd_pair d']. by rewrite Hn.
Qed.

Lemma estimate_row_ok minimum i srcs : forall j two, good two -> Forall src_ok srcs -> exists row two' srcs',
  estimate_row db cache malloc_ok minimum i j two srcs = io_ret (row, two', srcs') /\ good two' /\ strip two' = strip two /\
  Forall src_ok srcs' /\ map strip_src srcs' = map strip_src srcs /\
  Forall (fun m => sc_dst m = i /\ (sc_src m < j + length srcs)%nat /\ 0 <= sc_score m <= MAX_SCORE) row.
Proof.
  induction srcs as [|s srcs IH]; intros j two Ht Hs; [by exists [], two, []|]. apply Forall_cons in Hs as [Hs Hsrcs]. cbn [estimate_row].
  destruct (estimate_good (rs_one s) two minimum Hs Ht) as (score&one'&two'&->&Hsc&Ho&Ht'&Eo&Et). cbn [io_bind io_ret].
  destruct (IH (S j) two' Ht' Hsrcs) as (row&two2&srcs2&->&Ht2&Et2&Hs2&Es2&Hrow). cbn [io_bind io_ret].
  eexists _, _, _. split; [done|]. split; [done|]. split; [by rewrite Et2|]. split; [by constructor|].
  split; [cbn [map]; rewrite Es2; f_equal; unfold strip_src; cbn; by rewrite Eo|]. constructor; [cbn; lia|]. eapply Forall_impl; [exact Hrow|]. cbn [length]. intros m (?&?&?). lia.
Qed.

Lemma estimate_rows_ok S minimum dsts : forall i srcs, Forall (dst_ok S minimum) dsts -> Forall src_ok srcs -> map strip_src srcs = S -> exists mx dsts' srcs',
  estimate_rows db cache malloc_ok minimum i dsts srcs = io_ret (mx, dsts', srcs') /\ Forall (dst_ok S minimum) dsts' /\ map strip_dst dsts' = map strip_dst dsts /\
  map rd_pair dsts' = map rd_pair dsts /\ Forall src_ok srcs' /\ map strip_src srcs' = S /\
  Forall (fun m => (sc_dst m < i + length dsts)%nat /\ (sc_src m < length srcs)%nat /\ 0 <= sc_score m <= MAX_SCORE) mx.
Proof.
  induction dsts as [|d dsts IH]; intros i srcs Hd Hs ES; [by exists [], [], srcs|]. apply Forall_cons in Hd as [[Hg Hp] Hds]. cbn [estimate_rows].
  assert (Hrow : exists row two' srcs', (match rd_pair d with Some _ => io_ret ([], rd_two d, srcs) | None => estimate_row db cache malloc_ok minimum i 0 (rd_two d) srcs end) =
    io_ret (row, two', srcs') /\ good two' /\ strip two' = strip (rd_two d) /\ Forall src_ok srcs' /\ map strip_src srcs' = map strip_src srcs /\
    Forall (fun m => sc_dst m = i /\ (sc_src m < 0 + length srcs)%nat /\ 0 <= sc_score m <= MAX_SCORE) row).
  { destruct (rd_pair d); [by exists [], (rd_two d), srcs|]. by apply estimate_row_ok. }
  destruct Hrow as (row&two'&srcs'&->&Ht&Et&Hs'&Es&HF). cbn [io_bind io_ret].
  destruct (IH (Datatypes.S i) srcs' Hds Hs' ltac:(by rewrite Es)) as (mx&dsts2&srcs2&->&H1&H2&H3&H4&H5&H6). cbn [io_bind io_ret].
  assert (El : length srcs' = length srcs) by (rewrite <- (length_map strip_src srcs'), Es; apply length_map). rewrite El in H6.
  eexists _, _, _. split; [done|]. split.
  { constructor; [split; [done|]|done]. cbn [rd_pair]. intros dp Hdp. apply (pair_of_strip _ _ d); [unfold strip_dst; cbn; by rewrite Et|by apply Hp]. }
  split; [cbn [map]; rewrite H2; f_equal; unfold strip_dst; cbn; by rewrite Et|]. split; [cbn [map rd_pair]; by rewrite H3|]. split; [done|]. split; [done|].
  apply Forall_app. split.
  - eapply Forall_impl; [exact HF|]. cbn [length]. intros m (?&?&?). lia.
  - eapply Forall_impl; [exact H6|]. cbn [length]. intros m (?&?&?). lia.
Qed.

Lemma omap_insert_perm (dsts : list diff_rename_dst) i d d' dp : dsts !! i = Some d -> rd_pair d = None -> rd_pair d' = Some dp ->
  omap rd_pair (<[i := d']> dsts) ≡ₚ omap rd_pair dsts ++ [dp].
Proof.
  revert i. induction dsts as [|x dsts IH]; intros [|i] Hl Hn Hs; try done; cbn [lookup list_lookup] in Hl.
  - injection Hl as ->. cbn. rewrite Hn, Hs. apply Permutation_cons_append.
  - cbn. specialize (IH i Hl Hn Hs). change (list_insert i d' dsts) with (<[i := d']> dsts). destruct (rd_pair x); rewrite IH; done.
Qed.

Lemma fuzzy_loop_ok S minimum srcs mx : forall dsts renq, Forall src_ok srcs -> map strip_src srcs = S -> Forall (dst_ok S minimum) dsts -> renq ≡ₚ omap rd_pair dsts ->
  Forall (fun m => (sc_dst m < length dsts)%nat /\ (sc_src m < length srcs)%nat /\ 0 <= sc_score m <= MAX_SCORE) mx ->
  exists dsts' renq', fuzzy_loop minimum mx dsts srcs renq = Ret (dsts', renq') /\ Forall (dst_ok S minimum) dsts' /\ map strip_dst dsts' = map strip_dst dsts /\ renq' ≡ₚ omap rd_pair dsts'.
Proof.
  induction mx as [|m mx IH]; intros dsts renq Hs ES Hd Hr Hm; [by exists dsts, renq|]. apply Forall_cons in Hm as [(Hm1&Hm2&Hm3) Hm]. cbn [fuzzy_loop].
  destruct (lookup_lt_is_Some_2 dsts (sc_dst m) Hm1) as [d Ed], (lookup_lt_is_Some_2 srcs (sc_src m) Hm2) as [s Es]. rewrite Ed, Es.
  pose proof (Forall_lookup_1 _ _ _ _ Hd Ed) as [Hg Hp]. destruct (rd_pair d) as [dp|] eqn:Edp; [by apply IH|].
  destruct (Z.ltb_spec (sc_score m) minimum); [by exists dsts, renq|].
  destruct (record_ok renq d s (sc_score m) minimum S Hg) as (dp&->&Hdp); [by apply (Forall_lookup_1 _ _ _ _ Hs Es)|done| |lia|lia|].
  { rewrite <- ES. apply list_elem_of_fmap_2, list_elem_of_lookup. by eexists. }
  rewrite bind_Ret. set (d' := {| rd_two := rd_two d; rd_pair := Some dp |}).
  destruct (IH (<[sc_dst m := d']> dsts) (renq ++ [dp]) Hs ES) as (dsts'&renq'&->&H1&H2&H3).
  - apply Forall_insert; [done|]. split; [done|]. intros x [= <-]. by apply (pair_of_strip _ _ d).
  - rewrite Hr. symmetry. by apply (omap_insert_perm dsts _ d).
  - by rewrite length_insert.
  - exists dsts', renq'. split; [done|]. split; [done|]. split; [|done]. rewrite H2, list_fmap_insert. apply list_insert_id. by rewrite list_lookup_fmap, Ed.
Qed.

(** The tables after both passes. *)
Lemma rename_passes qsort minimum dsts srcs : (forall l, qsort l ≡ₚ l) -> minimum <= MAX_SCORE ->
  Forall (fun d => good (rd_two d) /\ rd_pair d = None) dsts -> Forall src_ok srcs -> Z.of_nat (length dsts * length srcs) < 2 ^ 31 ->
  exists dsts' renq,
    (if (length dsts =? 0)%nat then io_ret (dsts, [])
        else
          r <- exact_loop db cache dsts srcs [] ;;
          let '(dsts, srcs, renq) := r in
          if (length renq =? length dsts)%nat then io_ret (dsts, renq)
          else if 2 ^ 31 <=? Z.of_nat ((length dsts - length renq) * length srcs) then Some Ub
          else
            r <- estimate_rows db cache malloc_ok minimum 0 dsts srcs ;;
            let '(mx, dsts, srcs) := r in
            Some (fuzzy_loop minimum (qsort mx) dsts srcs renq)) = io_ret (dsts', renq) /\
    Forall (dst_ok (map strip_src srcs) minimum) dsts' /\ map strip_dst dsts' = map strip_dst dsts /\ renq ≡ₚ omap rd_pair dsts'.
Proof.
  intros Hq Hmin Hd Hs Hlen. destruct (Nat.eqb_spec (length dsts) 0) as [E|_].
  { destruct dsts; [|done]. by exists [], []. }
  destruct (exact_loop_ok (map strip_src srcs) minimum dsts srcs [] Hmin Hd Hs eq_refl) as (dsts1&srcs1&renq1&->&D1&E1&S1&ES1&->). cbn [io_bind io_ret app].
  destruct (length (omap rd_pair dsts1) =? length dsts1)%nat; [by exists dsts1, (omap rd_pair dsts1)|].
  assert (Ld : length dsts1 = length dsts) by (rewrite <- (length_map strip_dst dsts1), E1; apply length_map).
  assert (Ls : length srcs1 = length srcs) by (rewrite <- (length_map strip_src srcs1), ES1; apply length_map).
  destruct (Z.leb_spec (2 ^ 31) (Z.of_nat ((length dsts1 - length (omap rd_pair dsts1)) * length srcs1))) as [Hbig|_]; [exfalso; rewrite Ld, Ls in Hbig; nia|].
  destruct (estimate_rows_ok (map strip_src srcs) minimum dsts1 0 srcs1 D1 S1 ES1) as (mx&dsts2&srcs2&->&D2&E2&P2&S2&ES2&HF). cbn [io_bind io_ret].
  assert (Lp : omap rd_pair dsts2 = omap rd_pair dsts1).
  { clear -P2. revert dsts1 P2. induction dsts2 as [|x dsts2 IH]; intros [|y dsts1] E; try done. cbn in E |- *. injection E as -> E. by rewrite (IH dsts1 E). }
  assert (Ld2 : length dsts2 = length dsts1) by (rewrite <- (length_map strip_dst dsts2), E2; apply length_map).
  assert (Ls2 : length srcs2 = length srcs1) by (rewrite <- (length_map strip_src srcs2), ES2, <- ES1; apply length_map).
  destruct (fuzzy_loop_ok (map strip_src srcs) minimum srcs2 (qsort mx) dsts2 (omap rd_pair dsts1) S2 ES2 D2 ltac:(by rewrite Lp)) as (dsts3&renq3&->&D3&E3&R3).
  { rewrite (Hq mx), Ld2, Ls2. eapply Forall_impl; [exact HF|]. intros m (?&?&?). lia. }
  exists dsts3, renq3. split; [done|]. split; [done|]. split; [by rewrite E3, E2|done].
Qed.

(** ** Filling the tables *)

Definition path_lt (a b : bytes) : Prop := lexcmp a b < 0.

Lemma path_lt_trans a b c : path_lt a b -> path_lt b c -> path_lt a c.
Proof. apply lexcmp_trans. Qed.

Section Table.
Context {A} (key : A -> bytes).

Definition table_pos (tbl : list A) (path : bytes) : Z :=
  bsearch (fun next => match tbl !! Z.to_nat next with Some d => lexcmp path (key d) | None => 0 end) 0 (Z.of_nat (length tbl)).

Lemma sorted_insert (l1 l2 : list A) x : StronglySorted path_lt (map key (l1 ++ l2)) ->
  Forall (fun d => path_lt (key d) (key x)) l1 -> Forall (fun d => path_lt (key x) (key d)) l2 -> StronglySorted path_lt (map key (l1 ++ x :: l2)).
Proof.
  rewrite !map_app. intros (Hx&S1&S2)%StronglySorted_app F1 F2. cbn [map]. apply StronglySorted_app. split_and!; [|done|constructor; [done|by apply Forall_map]].
  intros a b Ha Hb. pose proof Ha as (d&->&Hd)%list_elem_of_fmap. rewrite Forall_forall in F1. apply elem_of_cons in Hb as [->|Hb]; [by apply F1|by apply Hx].
Qed.

Lemma table_search tbl path : StronglySorted path_lt (map key tbl) ->
  (exists l1 d l2, tbl = l1 ++ d :: l2 /\ table_pos tbl path = Z.of_nat (length l1) /\ key d = path) \/
  (exists l1 l2, tbl = l1 ++ l2 /\ table_pos tbl path = - Z.of_nat (length l1) - 1 /\ path ∉ map key tbl /\
    forall x, key x = path -> StronglySorted path_lt (map key (l1 ++ x :: l2))).
Proof.
  intros Hs. destruct (bsearch_list (fun d => lexcmp path (key d)) (fun next => match tbl !! Z.to_nat next with Some d => lexcmp path (key d) | None => 0 end) tbl) as [(l1&d&l2&E&Hp&H0)|(l1&l2&E&Hp&F1&F2)].
  - intros i x Hi. by rewrite Nat2Z.id, Hi.
  - clear -Hs. induction tbl as [|d tbl IH]; [constructor|]. cbn [map] in Hs. apply StronglySorted_inv in Hs as [Hs HF]. constructor; [by apply IH|].
    pose proof (proj1 (Forall_map key (path_lt (key d)) tbl) HF) as HF'. eapply Forall_impl; [exact HF'|]. intros x Hx Hle. destruct (Z.eq_dec (lexcmp path (key d)) 0) as [E|]; [apply lexcmp_eq in E; by subst|].
    eapply lexcmp_trans; [|exact Hx]. lia.
  - left. exists l1, d, l2. split; [done|]. split; [done|]. symmetry. by apply lexcmp_eq.
  - right. exists l1, l2. split; [done|]. split; [done|].
    assert (F1' : Forall (fun d => path_lt (key d) path) l1) by (eapply Forall_impl; [exact F1|]; intros d Hd; unfold path_lt; cbv beta in Hd; rewrite lexcmp_opp; lia).
    split; [|intros x Hx; apply sorted_insert; [by rewrite <- E|by rewrite Hx|by rewrite Hx]].
    rewrite E, map_app. intros [Hin|Hin]%elem_of_app; apply list_elem_of_fmap in Hin as (d&Ed&Hd).
    + rewrite Forall_forall in F1. specialize (F1 d Hd). rewrite <- Ed, lexcmp_refl in F1. lia.
    + rewrite Forall_forall in F2. specialize (F2 d Hd). rewrite <- Ed, lexcmp_refl in F2. lia.
Qed.

End Table.

Definition dst_key (d : diff_rename_dst) : bytes := fs_path (rd_two d).
Definition src_key (s : diff_rename_src) : bytes := fs_path (rs_one s).

Lemma locate_insert tbl two : StronglySorted path_lt (map dst_key tbl) -> fs_path two ∉ map dst_key tbl ->
  let tbl' := snd (locate_rename_dst tbl two true) in
  tbl' ≡ₚ {| rd_two := two; rd_pair := None |} :: tbl /\ StronglySorted path_lt (map dst_key tbl').
Proof.
  intros Hs Hn. unfold locate_rename_dst. change (locate_dst_pos tbl (fs_path two)) with (table_pos dst_key tbl (fs_path two)).
  destruct (table_search dst_key tbl (fs_path two) Hs) as [(l1&d&l2&E&_&Hd)|(l1&l2&E&->&_&Hins)].
  - exfalso. apply Hn. rewrite E, <- Hd, map_app. apply elem_of_app. right. by left.
  - rewrite (proj2 (Z.leb_gt _ _)) by lia. cbn [negb snd]. replace (Z.to_nat (- (- Z.of_nat (length l1) - 1) - 1)) with (length l1) by lia.
    rewrite E, take_app_length, drop_app_length. split; [by rewrite <- Permutation_middle|]. by apply Hins.
Qed.

Lemma register_insert tbl one stays : StronglySorted path_lt (map src_key tbl) -> fs_path one ∉ map src_key tbl ->
  let tbl' := register_rename_src tbl one stays in
  tbl' ≡ₚ {| rs_one := one; rs_stays := stays |} :: tbl /\ StronglySorted path_lt (map src_key tbl').
Proof.
  intros Hs Hn. unfold register_rename_src. change (bsearch _ 0 (Z.of_nat (length tbl))) with (table_pos src_key tbl (fs_path one)).
  destruct (table_search src_key tbl (fs_path one) Hs) as [(l1&d&l2&E&_&Hd)|(l1&l2&E&->&_&Hins)].
  - exfalso. apply Hn. rewrite E, <- Hd, map_app. apply elem_of_app. right. by left.
  - rewrite (proj2 (Z.leb_gt _ _)) by lia. replace (Z.to_nat (- (- Z.of_nat (length l1) - 1) - 1)) with (length l1) by lia.
    rewrite E, take_app_length, drop_app_length. split; [by rewrite <- Permutation_middle|]. by apply Hins.
Qed.

Definition created (p : filepair) : bool := negb (valid (fp_one p)) && valid (fp_two p).
Definition deleted (p : filepair) : bool := valid (fp_one p) && negb (valid (fp_two p)).

Definition dst_of (p : filepair) : option diff_rename_dst := if created p then Some {| rd_two := fp_two p; rd_pair := None |} else None.
Definition src_of (detect_rename : Z) (p : filepair) : option diff_rename_src :=
  if deleted p then Some {| rs_one := fp_one p; rs_stays := fp_broken_pair p && (fp_score p =? 0) |}
  else if valid (fp_one p) && (detect_rename =? DIFF_DETECT_COPY) then Some {| rs_one := fp_one p; rs_stays := true |}
  else None.

Lemma register_pairs_ok detect q : forall dst src, NoDup (map fp_path q) -> Forall (fun p => fs_path (fp_one p) = fs_path (fp_two p)) q ->
  (forall p, p ∈ q -> fp_path p ∉ map dst_key dst /\ fp_path p ∉ map src_key src) ->
  StronglySorted path_lt (map dst_key dst) -> StronglySorted path_lt (map src_key src) ->
  exists dst' src', register_pairs detect q dst src = (dst', src') /\
    StronglySorted path_lt (map dst_key dst') /\ StronglySorted path_lt (map src_key src') /\
    dst' ≡ₚ dst ++ omap dst_of q /\ src' ≡ₚ src ++ omap (src_of detect) q.
Proof.
  induction q as [|p q IH]; intros dst src Hnd Hsame Hnew Sd Ss; [exists dst, src; cbn; by rewrite !app_nil_r|].
  cbn [map] in Hnd. apply NoDup_cons in Hnd as [Hp Hnd]. apply Forall_cons in Hsame as [Esame Hsame]. cbn [register_pairs].
  destruct (Hnew p ltac:(by left)) as [Hpd Hps].
  set (step := if negb (valid (fp_one p)) then _ else _).
  assert (Hstep : exists dst1 src1, step = (dst1, src1) /\ StronglySorted path_lt (map dst_key dst1) /\ StronglySorted path_lt (map src_key src1) /\
    dst1 ≡ₚ dst ++ option_list (dst_of p) /\ src1 ≡ₚ src ++ option_list (src_of detect p)).
  { unfold step, dst_of, src_of, created, deleted. destruct (valid (fp_one p)) eqn:E1, (valid (fp_two p)) eqn:E2; cbn [negb andb].
    - destruct (detect =? DIFF_DETECT_COPY).
      + destruct (register_insert src (fp_one p) true Ss ltac:(by rewrite Esame)) as [P1 S1]. exists dst, (register_rename_src src (fp_one p) true).
        split; [done|]. split; [done|]. split; [done|]. split; [cbn; by rewrite app_nil_r|]. rewrite P1. apply Permutation_cons_append.
      + exists dst, src. cbn. rewrite !app_nil_r. done.
    - destruct (register_insert src (fp_one p) (fp_broken_pair p && (fp_score p =? 0)) Ss ltac:(by rewrite Esame)) as [P1 S1].
      eexists dst, _. split; [done|]. split; [done|]. split; [done|]. split; [cbn; by rewrite app_nil_r|]. rewrite P1. apply Permutation_cons_append.
    - destruct (locate_insert dst (fp_two p) Sd Hpd) as [P1 S1]. eexists _, src. split; [done|]. split; [done|]. split; [done|].
      split; [rewrite P1; apply Permutation_cons_append|cbn; by rewrite app_nil_r].
    - exists dst, src. cbn. rewrite !app_nil_r. done. }
  destruct Hstep as (dst1&src1&->&S1&S2&P1&P2).
  assert (Hkeys : (forall x, x ∈ map dst_key dst1 -> x ∈ map dst_key dst \/ x = fp_path p) /\ (forall x, x ∈ map src_key src1 -> x ∈ map src_key src \/ x = fp_path p)).
  { split; intros x Hx; [rewrite P1 in Hx|rewrite P2 in Hx]; rewrite map_app in Hx; apply elem_of_app in Hx as [Hx|Hx]; try (by left); right.
    - unfold dst_of in Hx. destruct (created p); [by apply list_elem_of_singleton in Hx|by apply elem_of_nil in Hx].
    - unfold src_of in Hx. unfold fp_path. rewrite <- Esame.
      destruct (deleted p); [by apply list_elem_of_singleton in Hx|]. destruct (_ && _); [by apply list_elem_of_singleton in Hx|by apply elem_of_nil in Hx]. }
  destruct Hkeys as [K1 K2].
  destruct (IH dst1 src1 Hnd Hsame) as (dst2&src2&->&S3&S4&P3&P4); [|done|done|].
  - intros p' Hp'. destruct (Hnew p' ltac:(by right)) as [N1 N2].
    assert (Hne : fp_path p' <> fp_path p) by (intros E; apply Hp; rewrite <- E; by apply list_elem_of_fmap_2).
    split; [intros [?|?]%K1|intros [?|?]%K2]; done.
  - exists dst2, src2. split; [done|]. split; [done|]. split; [done|]. cbn [omap list_omap]. split.
    + rewrite P3, P1, <- app_assoc. by destruct (dst_of p).
    + rewrite P4, P2, <- app_assoc. by destruct (src_of detect p).
Qed.

(** ** What comes out *)

(** A queue of differences that nothing has transformed. *)
Record queue_ok (q : list filepair) : Prop := {
  q_paths : NoDup (map fp_path q);
  q_same : Forall (fun p => fs_path (fp_one p) = fs_path (fp_two p)) q;
  q_plain : Forall (fun p => fp_broken_pair p = false) q;
  q_good : Forall (fun p => (valid (fp_one p) = true -> good (fp_one p)) /\ (valid (fp_two p) = true -> good (fp_two p))) q;
  q_changed : Forall (fun p => diff_unmodified_pair p = false) q;
}.

(** A rename or copy from the old side of [s] to the new file of [p]. *)
Record rename_of (q : list filepair) (minimum : Z) (r : filepair) : Prop := {
  ro_two : exists p, p ∈ q /\ created p = true /\ fp_two r = strip (fp_two p);
  ro_one : exists s, s ∈ q /\ valid (fp_one s) = true /\ fp_one r = strip (fp_one s) /\ fp_source_stays r = negb (deleted s);
  ro_broken : fp_broken_pair r = false;
  ro_score : minimum <= fp_score r;
}.

Section Result.
Context (q : list filepair) (Hq : queue_ok q) (detect minimum : Z).
Context (dsts0 dsts : list diff_rename_dst) (srcs0 : list diff_rename_src) (renq : list filepair).
Context (Hsorted : StronglySorted path_lt (map dst_key dsts0)) (Hd0 : dsts0 ≡ₚ omap dst_of q) (Hs0 : srcs0 ≡ₚ omap (src_of detect) q).
Context (Hstrip : map strip_dst dsts = map strip_dst dsts0) (Hok : Forall (dst_ok (map strip_src srcs0) minimum) dsts) (Hren : renq ≡ₚ omap rd_pair dsts).

Lemma queue_path_inj p p' : p ∈ q -> p' ∈ q -> fp_path p = fp_path p' -> p = p'.
Proof.
  intros Hp Hp' E. pose proof (q_paths _ Hq) as Hnd. clear -Hp Hp' E Hnd. induction q as [|x l IH]; [by apply elem_of_nil in Hp|].
  cbn [map] in Hnd. apply NoDup_cons in Hnd as [Hx Hnd]. apply elem_of_cons in Hp as [->|Hp], Hp' as [->|Hp']; try done.
  - exfalso. apply Hx. rewrite E. by apply list_elem_of_fmap_2.
  - exfalso. apply Hx. rewrite <- E. by apply list_elem_of_fmap_2.
  - by apply IH.
Qed.

Lemma dsts_keys : map dst_key dsts = map dst_key dsts0.
Proof. change dst_key with (fun d => fs_path (strip_dst d)). rewrite <- !(map_map strip_dst fs_path). by rewrite Hstrip. Qed.

(** Entries of the table are the created files. *)
Lemma dst_created d : d ∈ dsts -> exists p, p ∈ q /\ created p = true /\ strip_dst d = strip (fp_two p).
Proof.
  intros Hd. assert (Hin : strip_dst d ∈ map strip_dst dsts0) by (rewrite <- Hstrip; by apply list_elem_of_fmap_2).
  apply list_elem_of_fmap in Hin as (d0&E&Hd'). rewrite Hd0 in Hd'. apply list_elem_of_omap in Hd' as (p&Hp&Ep). exists p. split; [done|].
  unfold dst_of in Ep. destruct (created p); [|done]. injection Ep as <-. by split.
Qed.

Lemma created_dst p : p ∈ q -> created p = true -> exists i d, fst (locate_rename_dst dsts (fp_two p) false) = Some i /\ dsts !! i = Some d /\ strip_dst d = strip (fp_two p).
Proof.
  intros Hp Hc. unfold locate_rename_dst. change (locate_dst_pos dsts (fs_path (fp_two p))) with (table_pos dst_key dsts (fs_path (fp_two p))).
  destruct (table_search dst_key dsts (fs_path (fp_two p)) ltac:(by rewrite dsts_keys)) as [(l1&d&l2&E&->&Hd)|(l1&l2&E&_&Hn&_)].
  - rewrite (proj2 (Z.leb_le _ _)) by lia. cbn [fst]. rewrite Nat2Z.id. exists (length l1), d. split; [done|].
    assert (Hl : dsts !! length l1 = Some d) by (rewrite E; by rewrite lookup_app_r, Nat.sub_diag by lia). split; [done|].
    destruct (dst_created d) as (p'&Hp'&_&Es); [by eapply list_elem_of_lookup_2|]. replace p with p'; [done|].
    apply queue_path_inj; [done|done|]. unfold fp_path. rewrite <- Hd. unfold dst_key. by rewrite <- (f_equal fs_path Es : fs_path (rd_two d) = fs_path (fp_two p')).
  - exfalso. apply Hn. rewrite dsts_keys, Hd0. apply list_elem_of_fmap. exists {| rd_two := fp_two p; rd_pair := None |}. split; [done|].
    apply list_elem_of_omap. exists p. split; [done|]. unfold dst_of. by rewrite Hc.
Qed.

Lemma source_of one stays : (one, stays) ∈ map strip_src srcs0 -> exists s, s ∈ q /\ valid (fp_one s) = true /\ one = strip (fp_one s) /\ stays = negb (deleted s).
Proof.
  intros H. apply list_elem_of_fmap in H as (x&E&Hx). rewrite Hs0 in Hx. apply list_elem_of_omap in Hx as (s&Hs&Es). exists s. split; [done|].
  pose proof (q_plain _ Hq) as Hp. rewrite Forall_forall in Hp. unfold src_of in Es. destruct (deleted s) eqn:Ed.
  - injection Es as <-. injection E as -> ->. cbn [rs_one rs_stays]. rewrite (Hp s Hs). split; [|done]. unfold deleted in Ed. by apply andb_true_iff in Ed as [? _].
  - destruct (valid (fp_one s)); [|done]. cbn [andb] in Es. destruct (detect =? DIFF_DETECT_COPY); [|done]. injection Es as <-. by injection E as -> ->.
Qed.

Lemma renq_spec r : r ∈ renq -> rename_of q minimum r.
Proof.
  intros Hr. rewrite Hren in Hr. apply list_elem_of_omap in Hr as (d&Hd&Ed). rewrite Forall_forall in Hok. destruct (Hok d Hd) as [_ Hp].
  destruct (Hp r Ed) as [P1 P2 P3 P4]. split; [|by apply source_of|done|done]. destruct (dst_created d Hd) as (p&H1&H2&H3). exists p. split; [done|]. split; [done|]. by rewrite P1.
Qed.

Lemma keep_created p : p ∈ q -> created p = true ->
  keep_pair dsts renq p = [p] \/ exists r, r ∈ renq /\ keep_pair dsts renq p = [r] /\ fp_two r = strip (fp_two p).
Proof.
  intros Hp Hc. destruct (created_dst p Hp Hc) as (i&d&Hi&Hd&Es). unfold keep_pair. unfold created in Hc. rewrite Hc, Hi, Hd.
  destruct (rd_pair d) as [r|] eqn:Er; [|by left]. right. assert (Hin : d ∈ dsts) by (by eapply list_elem_of_lookup_2). exists r. split; [|split; [done|]].
  - rewrite Hren. apply list_elem_of_omap. by exists d.
  - rewrite Forall_forall in Hok. destruct (Hok d Hin) as [_ Hpr]. by rewrite (po_two _ _ _ _ (Hpr r Er)).
Qed.

(** Every rename is put where the file it makes was created. *)
Lemma renq_kept r : r ∈ renq -> exists p, p ∈ q /\ keep_pair dsts renq p = [r].
Proof.
  intros Hr. rewrite Hren in Hr. apply list_elem_of_omap in Hr as (d&Hd&Ed). destruct (dst_created d Hd) as (p&Hp&Hc&Es). exists p. split; [done|].
  destruct (created_dst p Hp Hc) as (i&d'&Hi&Hd'&Es'). unfold keep_pair. unfold created in Hc. rewrite Hc, Hi, Hd'.
  replace d' with d; [by rewrite Ed|]. apply list_elem_of_lookup in Hd as [j Hj].
  assert (Hk : forall n x, dsts !! n = Some x -> map dst_key dsts0 !! n = Some (dst_key x)) by (intros n x Hx; rewrite <- dsts_keys, list_lookup_fmap, Hx; done).
  pose proof (Hk _ _ Hj) as K1. pose proof (Hk _ _ Hd') as K2.
  assert (Ekey : dst_key d = dst_key d').
  { unfold dst_key. change (fs_path (strip_dst d) = fs_path (strip_dst d')). by rewrite Es, Es'. }
  destruct (Nat.lt_trichotomy i j) as [Hij|[->|Hij]]; [exfalso|congruence|exfalso].
  - pose proof (StronglySorted_lookup _ _ _ _ _ _ Hsorted K2 K1 Hij) as Hlt. unfold path_lt in Hlt. by rewrite Ekey, lexcmp_refl in Hlt.
  - pose proof (StronglySorted_lookup _ _ _ _ _ _ Hsorted K1 K2 Hij) as Hlt. unfold path_lt in Hlt. by rewrite Ekey, lexcmp_refl in Hlt.
Qed.

Lemma keep_valid_both p : p ∈ q -> created p = false -> deleted p = false -> keep_pair dsts renq p = [p].
Proof.
  intros Hp Hc Hd. unfold keep_pair. unfold created in Hc. unfold deleted in Hd. rewrite Hc, Hd. pose proof (q_changed _ Hq) as Hch. rewrite Forall_forall in Hch.
  by rewrite (Hch p Hp).
Qed.

Lemma keep_deleted p : p ∈ q -> deleted p = true ->
  keep_pair dsts renq p = [p] \/ (keep_pair dsts renq p = [] /\ exists r, r ∈ renq /\ fs_path (fp_one r) = fp_path p).
Proof.
  intros Hp Hd. pose proof (q_same _ Hq) as Hsame. pose proof (q_plain _ Hq) as Hplain. rewrite Forall_forall in Hsame, Hplain.
  unfold keep_pair. pose proof Hd as Hd'. unfold deleted in Hd'. rewrite Hd'. apply andb_true_iff in Hd' as [Hv1 Hv2]. apply negb_true_iff in Hv2. rewrite Hv1. cbn [negb andb].
  unfold pair_broken. rewrite (Hplain p Hp), andb_false_r. destruct (existsb _ renq) eqn:E; [right|by left]. split; [done|].
  apply existsb_exists in E as (r&Hr&Er). exists r. split; [by apply list_elem_of_In|]. apply Z.eqb_eq, lexcmp_eq in Er. unfold fp_path. by rewrite Er, Hsame.
Qed.

Definition kept : list filepair := concat (map (keep_pair dsts renq) q).

Lemma kept_elem p' : p' ∈ kept <-> exists p, p ∈ q /\ p' ∈ keep_pair dsts renq p.
Proof.
  unfold kept. rewrite list_elem_of_In, in_concat. split.
  - intros (l&Hl&Hp'). apply in_map_iff in Hl as (p&<-&Hp). exists p. by rewrite !list_elem_of_In.
  - intros (p&Hp&Hp'). exists (keep_pair dsts renq p). rewrite <- !list_elem_of_In. split; [|done]. by apply list_elem_of_fmap_2.
Qed.

Lemma kept_from p' : p' ∈ kept -> p' ∈ q \/ rename_of q minimum p'.
Proof.
  intros (p&Hp&Hin)%kept_elem. destruct (created p) eqn:Hc; [|destruct (deleted p) eqn:Hd].
  - destruct (keep_created p Hp Hc) as [E|(r&Hr&E&_)]; rewrite E in Hin; apply list_elem_of_singleton in Hin as ->; [by left|right; by apply renq_spec].
  - destruct (keep_deleted p Hp Hd) as [E|[E _]]; rewrite E in Hin; [apply list_elem_of_singleton in Hin as ->; by left|by apply elem_of_nil in Hin].
  - rewrite (keep_valid_both p Hp Hc Hd) in Hin. apply list_elem_of_singleton in Hin as ->. by left.
Qed.

Lemma kept_new p : p ∈ q -> valid (fp_two p) = true -> exists p', p' ∈ kept /\ strip (fp_two p') = strip (fp_two p).
Proof.
  intros Hp Hv. destruct (created p) eqn:Hc.
  - destruct (keep_created p Hp Hc) as [E|(r&Hr&E&Es)].
    + exists p. split; [|done]. apply kept_elem. exists p. rewrite E. split; [done|by left].
    + exists r. split; [apply kept_elem; exists p; rewrite E; split; [done|by left]|]. by rewrite Es.
  - exists p. split; [|done]. apply kept_elem. exists p. rewrite keep_valid_both; [split; [done|by left]|done|done|]. unfold deleted. by rewrite Hv, andb_false_r.
Qed.

Lemma kept_deleted p : p ∈ q -> deleted p = true -> p ∈ kept \/
  exists r, r ∈ kept /\ rename_of q minimum r /\ fs_path (fp_one r) = fp_path p /\ fp_source_stays r = false.
Proof.
  intros Hp Hd. destruct (keep_deleted p Hp Hd) as [E|[E (r&Hr&Er)]].
  - left. apply kept_elem. exists p. rewrite E. split; [done|by left].
  - right. exists r. split; [|split; [by apply renq_spec|split; [done|]]].
    + destruct (renq_kept r Hr) as (p'&Hp'&E'). apply kept_elem. exists p'. rewrite E'. split; [done|by left].
    + destruct (ro_one _ _ _ (renq_spec r Hr)) as (s&Hs&_&Eo&->). replace s with p; [by rewrite Hd|]. apply queue_path_inj; [done|done|].
      pose proof (q_same _ Hq) as Hsame. rewrite Forall_forall in Hsame. unfold fp_path at 2. rewrite <- (Hsame s Hs). rewrite <- Er, Eo. done.
Qed.

End Result.

(** What a transformation may do to a queue. *)
Record keeps (q : list filepair) (minimum : Z) (q' : list filepair) : Prop := {
  k_from : forall p, p ∈ q' -> p ∈ q \/ rename_of q minimum p;
  k_new : forall p, p ∈ q -> valid (fp_two p) = true -> exists p', p' ∈ q' /\ strip (fp_two p') = strip (fp_two p);
  k_deleted : forall p, p ∈ q -> deleted p = true -> p ∈ q' \/
    exists r, r ∈ q' /\ rename_of q minimum r /\ fs_path (fp_one r) = fp_path p /\ fp_source_stays r = false;
}.

Lemma keeps_refl q minimum : keeps q minimum q.
Proof. split; [by left|intros p Hp _; by exists p|by left]. Qed.

Definition used_score (minimum_score : Z) : Z := if minimum_score =? 0 then DEFAULT_RENAME_SCORE else minimum_score.

Lemma length_omap_le {A B} (f : A -> option B) l : (length (omap f l) <= length l)%nat.
Proof. induction l as [|x l IH]; [done|]. cbn. destruct (f x); cbn; lia. Qed.

Lemma diffcore_rename_ok qsort detect minimum q : (forall l, qsort l ≡ₚ l) -> 0 <= minimum <= MAX_SCORE -> queue_ok q -> Z.of_nat (length q * length q) < 2 ^ 31 ->
  exists q', diffcore_rename db cache malloc_ok qsort detect minimum q = io_ret q' /\ keeps q (used_score minimum) q'.
Proof.
  intros Hsort Hmin Hq Hlen. pose proof Hq as [Hnd Hsame Hplain Hgood Hch]. unfold diffcore_rename. fold (used_score minimum).
  assert (Hmin' : used_score minimum <= MAX_SCORE) by (unfold used_score, DEFAULT_RENAME_SCORE, MAX_SCORE in *; destruct (minimum =? 0); lia).
  destruct (register_pairs_ok detect q [] [] Hnd Hsame) as (dsts0&srcs0&->&S1&S2&P1&P2); [by split; intros ?%elem_of_nil|constructor|constructor|]. cbn [app] in P1, P2.
  rewrite Forall_forall in Hgood.
  destruct (rename_passes qsort (used_score minimum) dsts0 srcs0 Hsort Hmin') as (dsts&renq&->&D1&D2&D3).
  - apply Forall_forall. intros d Hd. rewrite P1 in Hd. apply list_elem_of_omap in Hd as (p&Hp&E). unfold dst_of in E.
    destruct (created p) eqn:Hc; [|done]. injection E as <-. split; [|done]. apply (Hgood p Hp). unfold created in Hc. by apply andb_true_iff in Hc as [_ ?].
  - apply Forall_forall. intros x Hx. rewrite P2 in Hx. apply list_elem_of_omap in Hx as (p&Hp&E). unfold src_of in E. unfold src_ok.
    destruct (deleted p) eqn:Hc.
    + injection E as <-. apply (Hgood p Hp). unfold deleted in Hc. by apply andb_true_iff in Hc as [? _].
    + destruct (valid (fp_one p)) eqn:Hv; [|done]. cbn [andb] in E. destruct (detect =? _); [|done]. injection E as <-. by apply (Hgood p Hp).
  - rewrite P1, P2. pose proof (length_omap_le dst_of q). pose proof (length_omap_le (src_of detect) q). nia.
  - cbn [io_bind io_ret]. eexists. split; [done|]. fold (kept q dsts renq). split.
    + intros p'. by apply (kept_from q Hq detect (used_score minimum) dsts0 dsts srcs0 renq).
    + intros p Hp Hv. by apply (kept_new q Hq (used_score minimum) dsts0 dsts srcs0 renq).
    + intros p Hp Hd. by apply (kept_deleted q Hq detect (used_score minimum) dsts0 dsts srcs0 renq).
Qed.

(** ** The statuses *)

Lemma resolve_elem l p : p ∈ diff_resolve_rename_copy l -> exists p0 behind, p0 ∈ l /\ p = set_status p0 (resolve_status p0 behind) /\ (forall x, x ∈ behind -> x ∈ l).
Proof.
  induction l as [|x l IH]; cbn [diff_resolve_rename_copy]; [by intros ?%elem_of_nil|]. intros [->|Hp]%elem_of_cons.
  - exists x, l. split; [by left|]. split; [done|]. intros y Hy. by right.
  - destruct (IH Hp) as (p0&b&H1&H2&H3). exists p0, b. split; [by right|]. split; [done|]. intros y Hy. right. by apply H3.
Qed.

Lemma elem_resolve l p : p ∈ l -> exists behind, set_status p (resolve_status p behind) ∈ diff_resolve_rename_copy l.
Proof.
  induction l as [|x l IH]; [by intros ?%elem_of_nil|]. cbn [diff_resolve_rename_copy]. intros [->|Hp]%elem_of_cons; [exists l; by left|].
  destruct (IH Hp) as [b Hb]. exists b. by right.
Qed.

Lemma status_deleted p behind : resolve_status p behind = ST_D <-> deleted p = true.
Proof.
  unfold resolve_status, deleted, pair_unmerged. destruct (valid (fp_one p)) eqn:E1, (valid (fp_two p)) eqn:E2; cbn [negb andb]; try (split; done).
  destruct (type_changed p); [done|]. destruct (pair_rename p); [destruct (fp_source_stays p); [done|]; by destruct (existsb _ behind)|]. by destruct (_ || _).
Qed.

(** What has the status of a rename; [same_type] is where it matters. *)
Lemma status_renamed p behind : resolve_status p behind = ST_R -> valid (fp_one p) = true /\ valid (fp_two p) = true /\ pair_rename p = true /\ fp_source_stays p = false /\
  existsb (fun pp => same_path (fp_one pp) (fp_one p) && pair_rename pp) behind = false.
Proof.
  unfold resolve_status, pair_unmerged. destruct (valid (fp_one p)) eqn:E1, (valid (fp_two p)) eqn:E2; cbn [negb andb]; try done.
  destruct (type_changed p); [done|]. destruct (pair_rename p); [destruct (fp_source_stays p); [done|]; destruct (existsb _ behind); done|]. by destruct (_ || _).
Qed.

Lemma status_copied p behind : resolve_status p behind = ST_C -> pair_rename p = true.
Proof.
  unfold resolve_status, pair_unmerged. destruct (valid (fp_one p)) eqn:E1, (valid (fp_two p)) eqn:E2; cbn [negb andb]; try done.
  destruct (type_changed p); [done|]. destruct (pair_rename p); [done|]. by destruct (_ || _).
Qed.

Definition moves (path : bytes) (p : filepair) : Prop := fs_path (fp_one p) = path /\ pair_rename p = true.
Definition is_move (p : filepair) : Prop := valid (fp_one p) = true /\ valid (fp_two p) = true /\ type_changed p = false /\ fp_source_stays p = false.

Lemma moves_test p pp : moves (fs_path (fp_one p)) pp <-> same_path (fp_one pp) (fp_one p) && pair_rename pp = true.
Proof. unfold moves, same_path. rewrite andb_true_iff, Z.eqb_eq. split; intros [E H]; (split; [|done]); [rewrite E; apply lexcmp_refl|by apply lexcmp_eq]. Qed.

(** The last pair that moves a path gets the status of a rename. *)
Lemma last_move l path : (forall p, p ∈ l -> moves path p -> is_move p) -> (exists p, p ∈ l /\ moves path p) ->
  exists p, p ∈ diff_resolve_rename_copy l /\ fp_status p = ST_R /\ fs_path (fp_one p) = path.
Proof.
  induction l as [|x l IH]; intros Hall (p&Hp&Hm); [by apply elem_of_nil in Hp|]. cbn [diff_resolve_rename_copy].
  destruct (existsb (fun pp => bool_decide (fs_path (fp_one pp) = path) && pair_rename pp) l) eqn:E.
  - apply existsb_exists in E as (y&Hy&Ey). apply andb_true_iff in Ey as [Ey1%bool_decide_eq_true Ey2]. destruct IH as (z&Hz&H2).
    + intros z Hz. apply Hall. by right.
    + exists y. split; [by apply list_elem_of_In|done].
    + exists z. split; [by right|done].
  - assert (Hno : forall y, y ∈ l -> ~ moves path y).
    { intros y Hy [H1 H2]. enough (true = false) by done. rewrite <- E. symmetry. apply existsb_exists. exists y. split; [by apply list_elem_of_In|].
      rewrite H2, andb_true_r. by apply bool_decide_eq_true. }
    apply elem_of_cons in Hp as [->|Hp]; [|by destruct (Hno p Hp)]. destruct (Hall x ltac:(by left) Hm) as (V1&V2&T&St). destruct Hm as [Hpath Hren].
    eexists. split; [by left|]. split; [|done]. cbn [fp_status set_status]. unfold resolve_status, pair_unmerged. rewrite V1, V2, T, Hren, St. cbn [negb andb].
    match goal with |- context [existsb ?f l] => destruct (existsb f l) eqn:E2 end; [|done]. exfalso. apply existsb_exists in E2 as (y&Hy&Ey). apply (Hno y); [by apply list_elem_of_In|].
    rewrite <- Hpath. by apply moves_test.
Qed.

(** No path is renamed twice. *)
Lemma renames_distinct l : NoDup (map (fun p => fs_path (fp_one p)) (List.filter (fun p => fp_status p =? ST_R) (diff_resolve_rename_copy l))).
Proof.
  induction l as [|x l IH]; [constructor|]. cbn [diff_resolve_rename_copy List.filter].
  destruct (Z.eqb_spec (fp_status (set_status x (resolve_status x l))) ST_R) as [E|]; [|done]. cbn [map]. constructor; [|done]. cbn [fp_status set_status fp_one] in E |- *.
  destruct (status_renamed _ _ E) as (_&_&_&_&Hno). intros Hin. apply list_elem_of_fmap in Hin as (y&Ey&Hy).
  apply list_elem_of_In, filter_In in Hy as [Hy Hst]. apply list_elem_of_In, resolve_elem in Hy as (y0&b&Hy0&->&_). cbn [fp_status set_status fp_one] in *.
  apply Z.eqb_eq, status_renamed in Hst as (_&_&Hren&_). enough (true = false) by done. rewrite <- Hno. symmetry. apply existsb_exists. exists y0.
  split; [by apply list_elem_of_In|]. apply moves_test. by split.
Qed.

(** ** The new files *)

Definition new_side (l : list filepair) (path : bytes) : option (Z * bytes) :=
  match List.find (fun p => valid (fp_two p) && bool_decide (fs_path (fp_two p) = path)) l with
  | Some p => Some (fs_mode (fp_two p), fs_sha1 (fp_two p))
  | None => None
  end.

Definition gone (l : list filepair) (path : bytes) : bool :=
  existsb (fun p => ((fp_status p =? ST_D) || (fp_status p =? ST_R)) && bool_decide (fs_path (fp_one p) = path)) l.

Lemma apply_diff_sides l old path : apply_diff l old path = match new_side l path with Some x => Some x | None => if gone l path then None else old path end.
Proof. unfold apply_diff, new_side, gone. by destruct (List.find _ l). Qed.

Lemma new_side_resolve l path : new_side (diff_resolve_rename_copy l) path = new_side l path.
Proof.
  unfold new_side. induction l as [|p l IH]; [done|]. cbn [diff_resolve_rename_copy List.find]. change (fp_two (set_status p _)) with (fp_two p).
  by destruct (valid (fp_two p) && _).
Qed.

Lemma new_side_some l path x : (exists p, p ∈ l /\ valid (fp_two p) = true /\ fs_path (fp_two p) = path) ->
  (forall p, p ∈ l -> valid (fp_two p) = true -> fs_path (fp_two p) = path -> (fs_mode (fp_two p), fs_sha1 (fp_two p)) = x) -> new_side l path = Some x.
Proof.
  intros (p&Hp&Hv&Hpath) Hall. unfold new_side. destruct (List.find _ l) as [p'|] eqn:E.
  - apply find_some in E as [Hin Ht]. apply andb_true_iff in Ht as [Hv' Hp'%bool_decide_eq_true]. f_equal. apply Hall; [by apply list_elem_of_In|done|done].
  - apply list_elem_of_In in Hp. pose proof (find_none _ _ E p Hp) as Hf. cbv beta in Hf. rewrite Hv, bool_decide_true in Hf by done. done.
Qed.

Lemma new_side_none l path : (forall p, p ∈ l -> valid (fp_two p) = true -> fs_path (fp_two p) <> path) -> new_side l path = None.
Proof.
  intros Hno. unfold new_side. destruct (List.find _ l) as [p|] eqn:E; [|done]. apply find_some in E as [Hin Ht].
  apply andb_true_iff in Ht as [Hv Hp%bool_decide_eq_true]. by destruct (Hno p ltac:(by apply list_elem_of_In) Hv).
Qed.

Lemma strip_side s s' : strip s' = strip s -> fs_path s' = fs_path s /\ fs_mode s' = fs_mode s /\ fs_sha1 s' = fs_sha1 s /\ valid s' = valid s.
Proof. unfold strip, valid. intros [= E1 E2 E3 E4]. by rewrite E1, E2, E3. Qed.

(** ** The difference of two lists of files *)

Lemma diff_leaves_length l1 : forall l2, (length (diff_leaves l1 l2) <= length l1 + length l2)%nat.
Proof.
  induction l1 as [|a l1 IH1]; intros l2; [rewrite diff_nil_l, length_map; lia|].
  induction l2 as [|b l2 IH2]; [rewrite diff_nil_r, length_map; cbn [length]; lia|]. rewrite diff_cons. destruct (_ <? 0); [|destruct (0 <? _)].
  - specialize (IH1 (b :: l2)). cbn [length] in *. lia.
  - cbn [length] in *. lia.
  - rewrite length_app. specialize (IH1 l2). unfold change_of. destruct (decide _); cbn [length]; lia.
Qed.

Section Meaning.
Context (L1 L2 : list leaf) (Hs1 : StronglySorted leaf_lt L1) (Hs2 : StronglySorted leaf_lt L2).
Context (Hg : forall l, l ∈ L1 \/ l ∈ L2 -> good (spec_of l)).

Lemma leaf_inj L a b : StronglySorted leaf_lt L -> a ∈ L -> b ∈ L -> leaf_path a = leaf_path b -> a = b.
Proof.
  intros Hs. induction Hs as [|x l Hs IH HF]; [by intros ?%elem_of_nil|]. rewrite Forall_forall in HF.
  intros [->|Ha]%elem_of_cons [->|Hb]%elem_of_cons E; [done| | |by apply IH].
  - by destruct (leaf_lt_ne _ _ (HF b Hb)).
  - by destruct (leaf_lt_ne _ _ (HF a Ha)).
Qed.

Lemma leaf_at_some L a : StronglySorted leaf_lt L -> a ∈ L -> leaf_at L (leaf_path a) = Some (a.1.2, a.2).
Proof.
  intros Hs Ha. unfold leaf_at. destruct (List.find _ L) as [b|] eqn:E.
  - apply find_some in E as [Hb Eb%bool_decide_eq_true]. apply list_elem_of_In in Hb. by rewrite (leaf_inj L b a).
  - apply list_elem_of_In in Ha. pose proof (find_none _ _ E a Ha) as Hf. cbv beta in Hf. by rewrite bool_decide_true in Hf.
Qed.

Lemma leaf_at_none L path : path ∉ map leaf_path L -> leaf_at L path = None.
Proof.
  intros Hn. unfold leaf_at. destruct (List.find _ L) as [b|] eqn:E; [|done]. apply find_some in E as [Hb Eb%bool_decide_eq_true].
  exfalso. apply Hn. apply list_elem_of_fmap. exists b. by rewrite list_elem_of_In.
Qed.

Lemma spec_valid l : good (spec_of l) -> valid (spec_of l) = true.
Proof. intros [H _ _ _ _]. by apply reg_valid. Qed.

Lemma invalid_spec path : valid (alloc_filespec path) = false.
Proof. done. Qed.

(** The old and the new side of a pair of the difference. *)
Lemma pair_old p : differs L1 L2 p -> valid (fp_one p) = true -> exists a, a ∈ L1 /\ fp_one p = spec_of a /\ (deleted p = true -> leaf_path a ∉ map leaf_path L2).
Proof.
  intros [a Ha Hn|b Hb Hn|a b Ha Hb E Hne] Hv; [by exists a|done|]. exists a. split; [done|]. split; [done|].
  unfold deleted. cbn [fp_two changed new_pair]. rewrite (spec_valid b) by auto. by rewrite andb_false_r.
Qed.

Lemma pair_new p : differs L1 L2 p -> valid (fp_two p) = true -> exists b, b ∈ L2 /\ fp_two p = spec_of b.
Proof. intros [a Ha Hn|b Hb Hn|a b Ha Hb E Hne] Hv; [done|by exists b|by exists b]. Qed.

Lemma diff_queue_ok : queue_ok (diff_leaves L1 L2).
Proof.
  assert (Hall : forall p, p ∈ diff_leaves L1 L2 -> differs L1 L2 p) by (intros p; by apply diff_leaves_elem).
  split.
  - pose proof (diff_leaves_sorted L1 L2 Hs1 Hs2) as Hs. clear -Hs. induction Hs as [|p l Hs IH HF]; [constructor|]. cbn [map]. constructor; [|done].
    intros (x&E&Hx)%list_elem_of_fmap. rewrite Forall_forall in HF. specialize (HF x Hx). by rewrite E, lexcmp_refl in HF.
  - apply Forall_forall. intros p [a Ha Hn|b Hb Hn|a b Ha Hb E Hne]%Hall; [done|done|exact E].
  - apply Forall_forall. by intros p [a Ha Hn|b Hb Hn|a b Ha Hb E Hne]%Hall.
  - apply Forall_forall. intros p [a Ha Hn|b Hb Hn|a b Ha Hb E Hne]%Hall; cbn [fp_one fp_two removed added changed new_pair]; split; try done; intros _; apply Hg; auto.
  - apply Forall_forall. intros p [a Ha Hn|b Hb Hn|a b Ha Hb E Hne]%Hall; unfold diff_unmodified_pair, pair_unmerged; cbn [fp_one fp_two removed added changed new_pair].
    + by rewrite spec_valid by auto.
    + by rewrite spec_valid by auto.
    + rewrite !spec_valid by auto. cbn [negb andb eqb orb]. destruct (Z.eqb_spec (fs_mode (spec_of a)) (fs_mode (spec_of b))) as [Em|]; [|done]. cbn [negb orb].
      destruct (negb (same_path _ _)); [done|]. unfold sha1_known. cbn [fs_sha1_valid spec_of fs_sha1].
      assert (Hn : a.2 <> b.2).
      { intros Esha. apply Hne. destruct a as [[pa ma] sa], b as [[pb mb] sb]. unfold leaf_path in E. cbn in *. congruence. }
      pose proof (g_len _ (Hg a ltac:(auto))) as La. pose proof (g_len _ (Hg b ltac:(auto))) as Lb. cbn [fs_sha1 spec_of] in La, Lb.
      assert (Hc : (memcmp 20 a.2 b.2 =? 0) = false) by (apply Z.eqb_neq; rewrite memcmp_eq, !take_ge by lia; done).
      rewrite Hc, andb_false_r.
      destruct (Z.eqb_spec (memcmp 20 a.2 (replicate 20 0)) 0) as [Ea|]; [|done]. destruct (Z.eqb_spec (memcmp 20 b.2 (replicate 20 0)) 0) as [Eb|]; [|done].
      exfalso. apply Hn. rewrite memcmp_eq, !take_ge in Ea, Eb by (rewrite ?length_replicate; lia). by rewrite Ea, Eb.
Qed.

Lemma rename_leaves minimum r : rename_of (diff_leaves L1 L2) minimum r -> exists a b, a ∈ L1 /\ b ∈ L2 /\ leaf_path b ∉ map leaf_path L1 /\
  fp_one r = spec_of a /\ fp_two r = spec_of b /\ (fp_source_stays r = false <-> leaf_path a ∉ map leaf_path L2) /\ minimum <= fp_score r /\
  pair_rename r = true /\ type_changed r = false.
Proof.
  intros [(p&Hp&Hc&Et) (s&Hs&Hv&Eo&Est) _ Hsc]. apply diff_leaves_elem in Hp, Hs; [|done..].
  assert (Hb : exists b, b ∈ L2 /\ leaf_path b ∉ map leaf_path L1 /\ fp_two p = spec_of b).
  { destruct Hp as [a Ha Hn|b Hb Hn|a b Ha Hb E Hne]; unfold created in Hc; cbn [fp_one fp_two removed added changed new_pair] in Hc; [by rewrite andb_false_r in Hc|by exists b|].
    by rewrite (spec_valid a) in Hc by auto. }
  destruct Hb as (b&Hb&Hnb&Eb). destruct (pair_old s Hs Hv) as (a&Ha&Ea&Hdel). rewrite Eb in Et. rewrite Ea in Eo. change (strip (spec_of ?x)) with (spec_of x) in Et, Eo.
  exists a, b. split; [done|]. split; [done|]. split; [done|]. split; [done|]. split; [done|]. split; [|split; [done|split]].
  - rewrite Est, negb_false_iff. split; [done|]. intros Hn. destruct Hs as [a' Ha' Hn'|b' Hb' Hn'|a' b' Ha' Hb' E Hne].
    + unfold deleted. cbn [fp_one fp_two removed new_pair]. by rewrite (spec_valid a') by auto.
    + done.
    + exfalso. cbn [fp_one changed new_pair] in Ea. apply (f_equal fs_path) in Ea. cbn [fs_path spec_of] in Ea. apply Hn. rewrite <- Ea, E. by apply list_elem_of_fmap_2.
  - unfold pair_rename, same_path. rewrite Eo, Et. cbn [fs_path spec_of]. apply negb_true_iff, Z.eqb_neq. intros E%lexcmp_eq. apply Hnb. rewrite <- E. by apply list_elem_of_fmap_2.
  - unfold type_changed. rewrite Eo, Et. pose proof (g_reg _ (Hg a ltac:(auto))) as Ra. pose proof (g_reg _ (Hg b ltac:(auto))) as Rb.
    unfold S_ISREG in Ra, Rb. apply Z.eqb_eq in Ra, Rb. by rewrite !(Z.land_comm S_IFMT), Ra, Rb.
Qed.

Section Kept.
Context (minimum : Z) (q' : list filepair) (Hk : keeps (diff_leaves L1 L2) minimum q').

Lemma in_queue p : p ∈ diff_leaves L1 L2 <-> differs L1 L2 p.
Proof. by apply diff_leaves_elem. Qed.

Lemma kept_two p : p ∈ q' -> valid (fp_two p) = true -> exists b p0, b ∈ L2 /\ fp_two p = spec_of b /\ p0 ∈ diff_leaves L1 L2 /\ fp_two p0 = spec_of b.
Proof.
  intros Hp Hv. destruct (k_from _ _ _ Hk p Hp) as [Hq|Hr].
  - destruct (pair_new p (proj1 (in_queue p) Hq) Hv) as (b&Hb&E). by exists b, p.
  - destruct (rename_leaves minimum p Hr) as (a&b&_&Hb&Hnb&_&E&_). exists b, (added b). split; [done|]. split; [done|]. split; [|done].
    apply in_queue. by constructor.
Qed.

(** What the statuses take away is not in the new files. *)
Lemma gone_not_new path : gone (diff_resolve_rename_copy q') path = true -> path ∉ map leaf_path L2.
Proof.
  intros H. unfold gone in H. apply existsb_exists in H as (p&Hp&Ht). apply andb_true_iff in Ht as [Hst Hpath%bool_decide_eq_true].
  apply list_elem_of_In, resolve_elem in Hp as (p0&b&Hp0&->&_). cbn [fp_status fp_one set_status] in Hst, Hpath. subst path.
  apply orb_true_iff in Hst as [Hst|Hst]; apply Z.eqb_eq in Hst.
  - apply status_deleted in Hst. destruct (k_from _ _ _ Hk p0 Hp0) as [Hq|Hr].
    + apply in_queue in Hq. pose proof Hst as Hv. unfold deleted in Hv. apply andb_true_iff in Hv as [Hv _].
      destruct (pair_old p0 Hq Hv) as (a&Ha&->&Hn). by apply Hn.
    + destruct (rename_leaves minimum p0 Hr) as (a&b'&_&Hb&_&_&E&_). unfold deleted in Hst. rewrite E, spec_valid, andb_false_r in Hst by auto. done.
  - apply status_renamed in Hst as (_&_&Hren&Hstay&_). destruct (k_from _ _ _ Hk p0 Hp0) as [Hq|Hr].
    + pose proof (q_same _ diff_queue_ok) as Hsame. rewrite Forall_forall in Hsame. unfold pair_rename, same_path in Hren. rewrite (Hsame p0 Hq), lexcmp_refl in Hren. done.
    + destruct (rename_leaves minimum p0 Hr) as (a&b'&_&_&_&->&_&Hs&_). by apply Hs.
Qed.

(** A file that is not in the new files is taken away. *)
Lemma gone_old a : a ∈ L1 -> leaf_path a ∉ map leaf_path L2 -> gone (diff_resolve_rename_copy q') (leaf_path a) = true.
Proof.
  intros Ha Hn. assert (Hd : deleted (removed a) = true) by (unfold deleted; cbn [fp_one fp_two removed new_pair]; by rewrite (spec_valid a) by auto).
  assert (Hq : removed a ∈ diff_leaves L1 L2) by (apply in_queue; by constructor).
  unfold gone. apply existsb_exists.
  destruct (k_deleted _ _ _ Hk (removed a) Hq Hd) as [Hin|(r&Hr&Hro&Er&Hst)].
  - destruct (elem_resolve q' (removed a) Hin) as [b Hb]. eexists. split; [apply list_elem_of_In; exact Hb|]. cbn [fp_status set_status fp_one removed new_pair spec_of fs_path].
    rewrite (proj2 (status_deleted (removed a) b) Hd). by rewrite bool_decide_true.
  - assert (Hmoves : exists p, p ∈ q' /\ moves (leaf_path a) p).
    { exists r. split; [done|]. destruct (rename_leaves minimum r Hro) as (a'&b'&_&_&_&_&_&_&_&Hren&_). split; [exact Er|done]. }
    destruct (last_move q' (leaf_path a)) as (p&Hp&Hs&Hpath); [|done|].
    + intros p Hp [Hpath Hren]. destruct (k_from _ _ _ Hk p Hp) as [Hpq|Hpr].
      * pose proof (q_same _ diff_queue_ok) as Hsame. rewrite Forall_forall in Hsame. unfold pair_rename, same_path in Hren. rewrite (Hsame p Hpq), lexcmp_refl in Hren. done.
      * destruct (rename_leaves minimum p Hpr) as (a'&b'&Ha'&Hb'&_&E1&E2&Hstays&_&_&Hty). unfold is_move. rewrite E1, E2, !spec_valid by auto.
        split; [done|]. split; [done|]. split; [done|]. apply Hstays. rewrite E1 in Hpath. cbn [fs_path spec_of] in Hpath. by rewrite Hpath.
    + exists p. split; [by apply list_elem_of_In|]. rewrite Hs, Hpath. cbn. by rewrite bool_decide_true.
Qed.

Lemma kept_meaning path : apply_diff (diff_resolve_rename_copy q') (leaf_at L1) path = leaf_at L2 path.
Proof.
  rewrite apply_diff_sides, new_side_resolve. destruct (decide (path ∈ map leaf_path L2)) as [Hin|Hn].
  - pose proof Hin as (b&->&Hb)%list_elem_of_fmap. rewrite (leaf_at_some L2 b) by done.
    assert (Hsame : forall p, p ∈ q' -> valid (fp_two p) = true -> fs_path (fp_two p) = leaf_path b -> fp_two p = spec_of b).
    { intros p Hp Hv E. destruct (kept_two p Hp Hv) as (b'&p0&Hb'&E'&_). rewrite E' in E |- *. cbn [fs_path spec_of] in E. by rewrite (leaf_inj L2 b' b). }
    destruct (decide (Exists (fun p => fp_two p = spec_of b) (diff_leaves L1 L2))) as [(p&Hp&Ep)%Exists_exists|Hno].
    + rewrite (new_side_some q' (leaf_path b) (b.1.2, b.2)); [done| |].
      * destruct (k_new _ _ _ Hk p Hp) as (p'&Hp'&Es); [rewrite Ep; by apply spec_valid; auto|]. exists p'. rewrite Ep in Es.
        destruct (strip_side _ _ Es) as (E1&_&_&E4). rewrite E4, E1. split; [done|]. split; [by apply spec_valid; auto|done].
      * intros p' Hp' Hv' E'. by rewrite (Hsame p' Hp' Hv' E').
    + rewrite new_side_none.
      * destruct (gone _ _) eqn:Eg; [by destruct (gone_not_new _ Eg)|].
        destruct (decide (b ∈ L1)) as [Hb1|Hb1]; [by apply leaf_at_some|]. exfalso. apply Hno, Exists_exists.
        destruct (decide (leaf_path b ∈ map leaf_path L1)) as [(a&E&Ha)%list_elem_of_fmap|Hb2].
        -- exists (changed a b). split; [|done]. apply in_queue. constructor; [done|done|done|]. by intros ->.
        -- exists (added b). split; [|done]. apply in_queue. by constructor.
      * intros p Hp Hv E. destruct (kept_two p Hp Hv) as (b'&p0&Hb'&E'&Hp0&E0). apply Hno, Exists_exists. exists p0. split; [done|]. rewrite E0.
        rewrite E' in E. cbn [fs_path spec_of] in E. by rewrite (leaf_inj L2 b' b).
  - rewrite (leaf_at_none L2 path Hn), new_side_none.
    + destruct (gone _ _) eqn:Eg; [done|]. apply leaf_at_none. intros (a&->&Ha)%list_elem_of_fmap. by rewrite gone_old in Eg.
    + intros p Hp Hv E. destruct (kept_two p Hp Hv) as (b'&p0&Hb'&E'&_). apply Hn. rewrite <- E, E'. change (fs_path (spec_of b')) with (leaf_path b'). by apply list_elem_of_fmap_2.
Qed.

Lemma kept_moves p : p ∈ diff_resolve_rename_copy q' -> fp_status p = ST_R \/ fp_status p = ST_C ->
  exists a b, a ∈ L1 /\ b ∈ L2 /\ fp_one p = spec_of a /\ fp_two p = spec_of b /\ minimum <= fp_score p /\ (fp_status p = ST_R -> leaf_path a ∉ map leaf_path L2).
Proof.
  intros (p0&b&Hp0&->&_)%resolve_elem Hst. cbn [fp_status fp_one fp_two fp_score set_status] in *.
  assert (Hren : pair_rename p0 = true) by (destruct Hst as [Hst|Hst]; [by apply status_renamed in Hst as (_&_&?&_)|by apply status_copied in Hst]).
  destruct (k_from _ _ _ Hk p0 Hp0) as [Hq|Hr].
  - pose proof (q_same _ diff_queue_ok) as Hsame. rewrite Forall_forall in Hsame. unfold pair_rename, same_path in Hren. rewrite (Hsame p0 Hq), lexcmp_refl in Hren. done.
  - destruct (rename_leaves minimum p0 Hr) as (a&b'&Ha&Hb'&_&E1&E2&Hstays&Hsc&_). exists a, b'. split_and!; try done.
    intros (_&_&_&Hstay&_)%status_renamed. by apply Hstays.
Qed.

End Kept.

End Meaning.

End Contents.

(** C18. Rename detection keeps the meaning of a difference: for two lists of
    regular files whose contents can be read, [diffcore_std] with -M or -C (or
    neither) ends whatever memory and [qsort]'s choice among equal scores do,
    and its queue takes the old files to exactly the new ones when it is read
    as raw output is: a deleted or renamed path goes, a copied one stays, and
    every path named on a new side has what is named.  Renames and copies are
    from files that were there, with the score that was asked for, and no file
    is renamed twice or renamed away while its path is still in use. *)
Theorem rename_detection_spec {D} {DB : ObjectDB D} {WT : WorkTree} (db : D) (cache : list cache_entry) (malloc_ok : nat -> Z -> bool)
    (qsort : list diff_score -> list diff_score) (detect rename_score : Z) (L1 L2 : list leaf) :
  (forall l, qsort l ≡ₚ l) -> 0 <= rename_score <= MAX_SCORE -> StronglySorted leaf_lt L1 -> StronglySorted leaf_lt L2 ->
  Forall (fun l => good db cache (spec_of l)) (L1 ++ L2) -> Z.of_nat (length L1 + length L2) < 2 ^ 15 -> exists q,
  diffcore_std db cache malloc_ok qsort [] detect rename_score (-1) None (diff_leaves L1 L2) = io_ret q /\
  (forall path, apply_diff q (leaf_at L1) path = leaf_at L2 path) /\
  (forall p, p ∈ q -> fp_status p = ST_R \/ fp_status p = ST_C ->
    exists a b, a ∈ L1 /\ b ∈ L2 /\ fp_one p = spec_of a /\ fp_two p = spec_of b /\ used_score rename_score <= fp_score p /\
      (fp_status p = ST_R -> leaf_path a ∉ map leaf_path L2)) /\
  NoDup (map (fun p => fs_path (fp_one p)) (List.filter (fun p => fp_status p =? ST_R) q)).
Proof.
  intros Hsort Hsc Hs1 Hs2 Hgood Hlen. rewrite Forall_forall in Hgood.
  assert (Hg : forall l, l ∈ L1 \/ l ∈ L2 -> good db cache (spec_of l)) by (intros l Hl; by apply Hgood, elem_of_app).
  assert (Hq : exists q', (if negb (detect =? 0) then diffcore_rename db cache malloc_ok qsort detect rename_score (diff_leaves L1 L2) else io_ret (diff_leaves L1 L2)) = io_ret q' /\
    keeps (diff_leaves L1 L2) (used_score rename_score) q').
  { destruct (detect =? 0); cbn [negb]; [by exists (diff_leaves L1 L2); split; [|apply keeps_refl]|].
    apply diffcore_rename_ok; [done|done|by apply diff_queue_ok|]. pose proof (diff_leaves_length L1 L2). nia. }
  destruct Hq as (q'&E&Hk). exists (diff_resolve_rename_copy q'). split; [|split; [|split]].
  - unfold diffcore_std. cbn [io_bind io_ret]. change (negb (-1 =? -1)) with false. cbv iota. cbn [io_bind io_ret]. rewrite E. done.
  - by apply (kept_meaning db cache L1 L2 Hs1 Hs2 Hg (used_score rename_score)).
  - by apply (kept_moves db cache L1 L2 Hs1 Hs2 Hg).
  - apply renames_distinct.
Qed.

(** ** Broken pairs *)

Section Broken.
Context {D} {DB : ObjectDB D} (db : D) (cache : list cache_entry) {WT : WorkTree} (malloc_ok : nat -> Z -> bool).

(** Not empty, and memory for the delta: [should_break] reads a variable that
    has no value otherwise. *)
Definition comparable (src dst : filespec) : Prop :=
  (forall m sz, malloc_ok m sz = true) /\
  forall b src' dst', populate_both db cache src dst = io_ret (b, src', dst') -> b = true \/ (contents src' <> [] /\ contents dst' <> []).

Lemma should_break_good src dst score : good db cache src -> good db cache dst -> comparable src dst -> exists b merge src' dst',
  should_break db cache malloc_ok src dst score = io_ret (b, merge, src', dst') /\ strip src' = strip src /\ strip dst' = strip dst.
Proof.
  intros Hs Hd [Hm Hc]. unfold should_break. rewrite (g_reg _ _ _ Hs), (g_reg _ _ _ Hd). cbn [negb orb].
  destruct (both_good db cache src dst Hs Hd) as (b&s1&d1&E&Hs1&Hd1&Es1&Ed1). specialize (Hc b s1 d1 E). rewrite E. cbn [io_bind io_ret].
  destruct b; [by exists false, 0, s1, d1|]. destruct Hc as [|[Hne1 Hne2]]; [done|].
  destruct (good_contents db cache s1 Hs1) as [_ Hl1], (good_contents db cache d1 Hd1) as [Hb2 Hl2].
  destruct (diff_delta_ops malloc_ok (contents s1) (contents d1) 0 Hb2 ltac:(lia) Hl2) as (r&->&Hr). cbn [io_bind io_ret].
  destruct r as [delta|].
  - destruct Hr as (ops&->&Hops&Hfrom&Ha&Hne&_). destruct (count_delta_ops _ _ _ Hops Hfrom Ha ltac:(lia) ltac:(lia) Hne) as (copied&literal&->&_).
    cbn [io_bind io_ret]. by eexists _, _, s1, d1.
  - destruct Hr as [|[|[|(m&sz&Hf)]]]; [done..|]. by rewrite Hm in Hf.
Qed.

(** The same pair, perhaps with a score. *)
Definition same_pair (p p' : filepair) : Prop := strip (fp_one p') = strip (fp_one p) /\ strip (fp_two p') = strip (fp_two p) /\ fp_broken_pair p' = false.

Lemma alloc_valid path : valid (alloc_filespec path) = false.
Proof. done. Qed.

Lemma same_path_refl (a b : filespec) : fs_path a = fs_path b -> same_path a b = true.
Proof. intros E. unfold same_path. by rewrite E, lexcmp_refl. Qed.

(** Without renames between them, -B breaks no pair that is not put together
    again. *)
Theorem break_merge_same break_score q : Forall (fun p => fp_broken_pair p = false /\ fs_path (fp_one p) = fs_path (fp_two p) /\
    (valid (fp_one p) = true -> valid (fp_two p) = true -> good db cache (fp_one p) /\ good db cache (fp_two p) /\ comparable (fp_one p) (fp_two p))) q ->
  exists q1 q2, diffcore_break db cache malloc_ok break_score q = io_ret q1 /\ diffcore_merge_broken q1 = Ret q2 /\ Forall2 same_pair q q2.
Proof.
  intros Hq. unfold diffcore_break, diffcore_merge_broken. set (bs := if _ =? 0 then DEFAULT_BREAK_SCORE else _). set (ms := if _ =? 0 then DEFAULT_MERGE_SCORE else _).
  enough (H : exists q1 q2, break_loop db cache malloc_ok bs ms q = io_ret q1 /\ (forall fuel, (length q1 <= fuel)%nat -> merge_broken_loop fuel (map Some q1) = Ret q2) /\ Forall2 same_pair q q2).
  { destruct H as (q1&q2&H1&H2&H3). exists q1, q2. split; [done|]. split; [by apply H2|done]. }
  induction Hq as [|p q (Hb&Hpath&Hgood) Hq IH]; [by exists [], []; split; [|split; [intros []|]]|].
  destruct IH as (q1&q2&E1&E2&HF). cbn [break_loop]. unfold break_pair.
  assert (Hkeep : forall p', same_pair p p' -> forall fuel, (length (p' :: q1) <= fuel)%nat -> merge_broken_loop fuel (map Some (p' :: q1)) = Ret (p' :: q2)).
  { intros p' (_&_&Hb') [|fuel] Hf; [cbn in Hf; lia|]. cbn [map merge_broken_loop]. rewrite Hb'. cbn [andb length] in *. rewrite E2 by lia. done. }
  destruct (valid (fp_one p) && valid (fp_two p) && _ && _ && same_path (fp_one p) (fp_two p)) eqn:Ec.
  - repeat (apply andb_true_iff in Ec as [Ec ?]). destruct (Hgood ltac:(done) ltac:(done)) as (G1&G2&Hc).
    destruct (should_break_good (fp_one p) (fp_two p) bs G1 G2 Hc) as (b&score&one&two&->&Eo&Et). cbn [io_bind io_ret].
    destruct (strip_side _ _ Eo) as (P1&_&_&V1), (strip_side _ _ Et) as (P2&_&_&V2).
    destruct (b && _); cbn [io_bind io_ret]; rewrite E1; cbn [io_bind io_ret app].
    + set (sc := if score <? ms then 0 else score).
      eexists _, _. split; [done|]. split.
      * intros [|[|fuel]] Hf; cbn [length] in Hf; [lia|lia|]. cbn [map merge_broken_loop find_peer fp_broken_pair broken_half fp_one fp_two fs_path alloc_filespec].
        rewrite !same_path_refl by (cbn [fs_path alloc_filespec]; congruence). cbn [andb].
        assert (W1 : valid one = true) by (rewrite V1; done). assert (W2 : valid two = true) by (rewrite V2; done).
        rewrite bind_Ret. unfold merge_broken. cbn [fp_one fp_two broken_half]. rewrite W1. cbn [fp_one fp_two broken_half]. rewrite W1, W2, !alloc_valid. cbn [negb orb].
        rewrite !bind_Ret, E2 by lia. reflexivity.
      * constructor; [|exact HF]. split; [exact Eo|]. split; [exact Et|done].
    + eexists _, _. split; [done|]. split; [apply Hkeep; split; [exact Eo|split; [exact Et|exact Hb]]|]. constructor; [|exact HF]. split; [exact Eo|split; [exact Et|exact Hb]].
  - cbn [io_bind io_ret]. rewrite E1. cbn [io_bind io_ret app]. eexists _, _. split; [done|]. split; [by apply Hkeep|]. by constructor.
Qed.

End Broken.

(** ** Small differences *)

Module DiffRenameDemo.

Definition text : bytes := concat (map (fun i => str "line " ++ [48 + Z.of_nat i; 10]) (seq 0 10)).
Definition edited : bytes := take 63 text ++ str "another!" ++ [10].
Definition other : bytes := str "nothing like it".

Definition db : list (bytes * bytes) := map (pair (str "blob")) [text; edited; other].

Definition file (path : string) (mode : Z) (data : bytes) : leaf := (str path, mode, object_name (str "blob") data).

Definition old_files : list leaf := [file "a" 0x81a4 other; file "old" 0x81a4 text].
Definition new_files : list leaf := [file "a" 0x81a4 other; file "copy" 0x81a4 edited; file "new" 0x81ed text].

(** An insertion sort. *)
Fixpoint insert_score (m : diff_score) (l : list diff_score) : list diff_score :=
  match l with
  | [] => [m]
  | x :: l => if score_compare m x <=? 0 then m :: x :: l else x :: insert_score m l
  end.
Definition sort (l : list diff_score) : list diff_score := foldr insert_score [] l.

Lemma sort_perm l : sort l ≡ₚ l.
Proof.
  induction l as [|m l IH]; [done|]. cbn [sort foldr]. fold (sort l). rewrite <- IH at 2. generalize (sort l). clear. intros l.
  induction l as [|x l IH]; [done|]. cbn [insert_score]. destruct (_ <=? 0); [done|]. by rewrite IH, Permutation_swap.
Qed.

Definition no_files : WorkTree := {| wt_lstat _ := inl ENOENT; wt_open _ := None; wt_mmap _ := false; wt_readlink _ := None |}.

(** Path, path, status and score. *)
Definition shown (q : io (list filepair)) : io (list (bytes * bytes * Z * bool)) :=
  q <- q ;; io_ret (map (fun p => (fs_path (fp_one p), fs_path (fp_two p), fp_status p, fp_score p =? MAX_SCORE)) q).

Definition transformed (detect : Z) (l1 l2 : list leaf) : io (list filepair) :=
  diffcore_std (WT := no_files) db [] (fun _ _ => true) sort [] detect 0 (-1) None (diff_leaves l1 l2).

Lemma all_good : Forall (fun l => good (WT := no_files) db [] (spec_of l)) (old_files ++ new_files).
Proof.
  repeat (constructor; [split; [vm_compute; reflexivity|split; vm_compute; reflexivity|vm_compute; reflexivity|reflexivity|]|]); [..|constructor].
  all: cbn [fs_data spec_of old_files new_files file]; eexists _, _; (split; [vm_compute; reflexivity|right]; eexists; split; [reflexivity|]); apply (bool_decide_unpack _); vm_compute; exact I.
Qed.

(** A link whose target is what a new file holds. *)
Definition link_files : list leaf := [file "link" 0xa000 other].
Definition file_files : list leaf := [file "plain" 0x81a4 other].

End DiffRenameDemo.

Lemma rename_detection_spec_witness : exists q,
  diffcore_std (WT := DiffRenameDemo.no_files) DiffRenameDemo.db [] (fun _ _ => true) DiffRenameDemo.sort [] DIFF_DETECT_RENAME 0 (-1) None
    (diff_leaves DiffRenameDemo.old_files DiffRenameDemo.new_files) = io_ret q /\
  forall path, apply_diff q (leaf_at DiffRenameDemo.old_files) path = leaf_at DiffRenameDemo.new_files path.
Proof.
  destruct (rename_detection_spec (WT := DiffRenameDemo.no_files) DiffRenameDemo.db [] (fun _ _ => true) DiffRenameDemo.sort DIFF_DETECT_RENAME 0
    DiffRenameDemo.old_files DiffRenameDemo.new_files) as (q&H1&H2&_).
  - exact DiffRenameDemo.sort_perm.
  - vm_compute. split; discriminate.
  - repeat constructor.
  - repeat constructor.
  - exact DiffRenameDemo.all_good.
  - vm_compute. reflexivity.
  - exists q. exact (conj H1 H2).
Defined.

(** The first new file is edited and takes a copy, the last takes the name. *)
Example renames_computed :
  DiffRenameDemo.shown (DiffRenameDemo.transformed DIFF_DETECT_RENAME DiffRenameDemo.old_files DiffRenameDemo.new_files) =
  io_ret [(str "old", str "copy", ST_C, false); (str "old", str "new", ST_R, true)].
Proof. vm_compute. reflexivity. Qed.

(** [is_exact_match] does not look at modes, and a change of type comes before
    a rename: a link that goes while a file with its target for contents is
    created becomes a change of type of two paths, of which raw output shows
    the first.  The new file is lost, and the link is still there. *)
Example type_change_hides_rename :
  DiffRenameDemo.shown (DiffRenameDemo.transformed DIFF_DETECT_RENAME DiffRenameDemo.link_files DiffRenameDemo.file_files) =
    io_ret [(str "link", str "plain", ST_T, true)] /\
  (q <- DiffRenameDemo.transformed DIFF_DETECT_RENAME DiffRenameDemo.link_files DiffRenameDemo.file_files ;;
   io_ret (apply_diff q (leaf_at DiffRenameDemo.link_files) (str "link"))) = io_ret (Some (0xa000, object_name (str "blob") DiffRenameDemo.other)) /\
  leaf_at DiffRenameDemo.file_files (str "link") = None.
Proof. split; [|split]; vm_compute; reflexivity. Qed.

(** A file of the working tree that is missing is an error the first time its
    contents are asked for, and an empty file from then on. *)
Example missing_then_empty :
  let s := {| fs_path := str "f"; fs_mode := 0x81a4; fs_sha1 := replicate 20 0; fs_sha1_valid := Some false; fs_data := None |} in
  (p <- diff_populate_filespec (WT := DiffRenameDemo.no_files) DiffRenameDemo.db [] s ;; io_ret (fst p)) = io_ret (-1) /\
  (p <- diff_populate_filespec (WT := DiffRenameDemo.no_files) DiffRenameDemo.db [] s ;;
   p <- diff_populate_filespec (WT := DiffRenameDemo.no_files) DiffRenameDemo.db [] (snd p) ;; io_ret (fst p, contents (snd p))) = io_ret (0, []).
Proof. split; vm_compute; reflexivity. Qed.

(** For an empty file there is no delta, and -B reads a size that was never
    set. *)
Example break_empty_file :
  should_break (WT := DiffRenameDemo.no_files) DiffRenameDemo.db [] (fun _ _ => true)
    (set_data (spec_of (DiffRenameDemo.file "f" 0x81a4 DiffRenameDemo.text)) DiffRenameDemo.text)
    (set_data (spec_of (DiffRenameDemo.file "f" 0x81a4 [])) []) DEFAULT_BREAK_SCORE = Some Ub.
Proof. vm_compute. reflexivity. Qed.
